(* ===== verification/_CoqProject ===== *)
-Q . S2P
Prelude.v
GoText.v
GoRegexp.v
TraceEvent.v
TraceRecorder.v
LineProbe.v
LineScheduler.v
Netip.v
AccessModel.v
Controller.v
ControllerSpec.v
ControllerWrites.v
Lifecycle.v
ControllerDemo.v
LocalApi.v
PipeServer.v
ClientApi.v
ControllerView.v
DiagnosticGate.v
FilePath.v
RuntimeOwner.v
RuntimeOwnerSpec.v
RuntimeOwnerDemo.v
Timeline.v
ViewModel.v
ViewModelSpec.v
TimelineFollow.v
NetPrefixes.v
NativeNetwork.v
NetworkManager.v
NetworkManagerSpec.v
NetworkLifecycle.v
NetworkDemo.v
SingConfig.v
SingConfigSpec.v
SingConfigAccept.v
SingConfigKeys.v
SingConfigDemo.v
CoreVerify.v
CoreVerifySpec.v
CoreCache.v
CoreDemo.v
PocModel.v
PocVerdict.v
PocVerdictSpec.v
PocProbe.v
PocProbeSpec.v
PocDemo.v
Redactor.v
RedactorSpec.v
Supervisor.v
SupervisorThreads.v
SupervisorSpec.v
SupervisorProps.v
SupervisorDemo.v
Trail.v
DarwinNetwork.v
DarwinSpec.v
DarwinProps.v
DarwinDemo.v
DarwinJournal.v
DarwinJournalSpec.v
DarwinSystem.v
DarwinSystemSpec.v
DarwinProcess.v
DarwinProcessSpec.v
DarwinProcessDemo.v
InstallPackage.v
InstallDisk.v
InstallMac.v
InstallPaths.v
InstallSpec.v
InstallCrash.v
InstallReplace.v
InstallProps.v
InstallDemo.v
PreparedPool.v
PreparedPoolSpec.v
NetworkStores.v
Commands.v
