(* ===== verification/Prelude.v ===== *)
(** * Overseas Access Gateway: a verification library

    The gateway gives one machine an outgoing tunnel to an approved node.  A service
    ([cmd/overseas-agent] on Windows, [internal/platform/darwin] on macOS) owns the
    privileged work; an unprivileged desktop client ([cmd/overseas-client]) asks it over a
    named pipe or a socket to connect, to disconnect or to restore the network, and shows
    what it answers.  The tunnel itself is made by a core, a separate executable that the
    service verifies, configures, starts and stops.  This library models the Go code under
    [src/], one file per component, and proves what makes each component, and their
    compositions, correct.

    ** The parts of the program and the files that model them

    - Common ground.  [Prelude]: machine integers, time, state passing, orders and
      sorting.  [GoText]: strings as bytes, UTF-8, the functions of package [strings].
      [GoRegexp]: the regular expressions of the redaction.  [Netip]: addresses and
      prefixes of [net/netip].  [FilePath]: clean paths.  [Trail]: system calls that leave
      a trail of worlds, in each of which the process can be killed, with a weakest
      precondition that has a crash condition.
    - The policy ([internal/accessmodel]).  [AccessModel]: its data, validation, canonical
      digest and credential path.
    - The connection controller ([internal/agent/controller.go]).  [Controller]: its state
      and the bodies of [runConnect], [runDisconnect], [restoreTransaction] with every
      call of a dependency logged; [ControllerSpec]: the plan that a transaction performs,
      as a relation on logs; [ControllerWrites]: what a transaction writes while it runs;
      [Lifecycle]: the public operations as threads that interleave at the points where
      the mutex is released; [ControllerDemo]: concrete dependencies and runs.
    - Traces ([internal/traceevent]).  [TraceEvent]: events, validation, redaction;
      [TraceRecorder]: the memory ring and the files of the recorder.
    - Line probes ([internal/lineprobe]).  [LineProbe]: one probe and the line quality made
      of rounds; [LineScheduler]: sessions, rounds and manual probes, interleaved.
    - The local API ([internal/localapi], [internal/agent/pipe_*.go],
      [internal/clientapi]).  [LocalApi]: requests, responses, encoding; [PipeServer]: one
      connection, from frame to reply; [ClientApi]: the client's exchanges and checks;
      [ControllerView]: the controller seen through the pipe.
    - Diagnostic mode ([internal/diagnosticmode]).  [DiagnosticGate].
    - Ownership of the rendered configuration ([internal/runtimeowner]).  [RuntimeOwner],
      [RuntimeOwnerSpec], [RuntimeOwnerDemo]: publication and wiping on a file system
      whose calls may fail and where the process may be killed between any two calls.
    - The desktop client ([cmd/overseas-client]).  [Timeline], [ViewModel],
      [ViewModelSpec], [TimelineFollow]: the view's state, what is asked of the service and
      what is shown; the timeline followed against a recorder that goes on recording.
    - The Windows network manager ([internal/agent/network_*.go]).  [NetPrefixes]: the
      prefixes that firewall rules block; [NativeNetwork]: the baseline made of what the
      system lists; [NetworkManager]: the operations that the controller calls and the
      monitor; [NetworkManagerSpec], [NetworkLifecycle]: what they keep; [NetworkDemo]:
      concrete networks.
    - The managed firewall pool ([internal/agent/firewall_pool*.go],
      [network_prepared_windows.go], [prepared_windows.go]).  [PreparedPool]: the rules of
      a pool, their ledger, the sealed state and its preparation, the checks of a snapshot,
      capturing and protecting; [PreparedPoolSpec]: what a pool covers, that whatever is
      prepared or captured is accepted later, and a host with two adapters;
      [NetworkStores]: the two files, and the runner of the PowerShell scripts with the
      text that it takes from their errors.
    - The core's configuration ([internal/singconfig]).  [SingConfig]: the document that a
      policy is rendered to; [SingConfigSpec]: where the rendered routes and resolvers send
      traffic, against the policy's intent; [SingConfigAccept], [SingConfigKeys]: that
      valid policies render, and where the service's own traffic goes; [SingConfigDemo].
    - The core's verification ([internal/coreverify]).  [CoreVerify], [CoreVerifySpec]: the
      pinned hash, owner, access list and signature; [CoreCache]: the verifier that repeats
      the check only when the file's identity changed; [CoreDemo].
    - The core's supervision on Windows ([internal/supervisor]).  [Redactor],
      [RedactorSpec]: the output of the core without secrets, chunk by chunk; [Supervisor]:
      the state shared by a supervised process, its job and its observers;
      [SupervisorThreads]: [Stop], [Start], readiness and the observer as threads;
      [SupervisorSpec], [SupervisorProps], [SupervisorDemo]: the invariant
      of their interleavings and what it gives.
    - The macOS service ([internal/platform/darwin]).  [DarwinNetwork], [DarwinSpec],
      [DarwinProps], [DarwinDemo]: the network manager and its crash recovery;
      [DarwinJournal], [DarwinJournalSpec]: the journal file; [DarwinSystem],
      [DarwinSystemSpec]: the commands, the parsers of their output, and that they
      implement the system which the manager relies on; [DarwinProcess],
      [DarwinProcessSpec], [DarwinProcessDemo]: the core's start
      behind a gate, its supervision, its record and its recovery.
    - The macOS installer ([scripts/macos/installer]).  [InstallPackage]: the manifest of a
      package, the owner, what [launchctl] answers and the order of the steps;
      [InstallMac]: the steps, with activation, undoing, rollback, certificate, removal and
      the command; [InstallDisk], [InstallPaths]: renames of
      trees and where the names of a manifest lead; [InstallSpec], [InstallCrash],
      [InstallReplace], [InstallProps]: what each step touches, what that keeps, and that the waits end;
      [InstallDemo]: an upgrade that is rolled back.
    - Command lines ([cmd/access-config], [cmd/installer-verifier]).  [Commands]: what each
      command reads, writes and answers.
    - Evidence of forwarding ([internal/config], [internal/inventory], [internal/probe],
      [internal/verdict], [cmd/poc-probe]).  [PocModel], [PocProbe], [PocVerdict] with
      [PocProbeSpec], [PocVerdictSpec] and [PocDemo]: the configuration, the probes, and
      the verdict that the recorded evidence supports.

    ** How the code is modelled

    Stateful code is a state monad over a record of the fields that it uses ([StateM]);
    fallible code returns an option or a sum, whose error part is the text or the kind of
    the Go error.  A critical section, from [Lock] to [Unlock], is one step; a transaction
    that releases the mutex is several, and every interleaving of them is considered.
    Maps are [gmap], sets are [gset]; a map that the program iterates over in Go's
    unspecified order is only read through a sort.  Integers carry their width where it
    matters ([wrap_uint64]).  What is not in the repository is a parameter with named
    laws: the operating system's calls, JSON, SHA-256, random bytes, the clock, contexts,
    [sort.Slice] (not stable: only permutation and sortedness are assumed) and the Unicode
    tables.  Every property under such laws is evaluated on concrete instances.

    ** What the theorems show

    - Transactions: a connect or disconnect performs exactly the plan of
      [ControllerSpec], whatever fails; the core is stopped before the network is restored;
      at most one transition runs, and between transitions the state tells what is owned.
    - Recording: memory and files are bounded, and what is recorded is valid.
    - Exchanges: what the service answers is valid and the client accepts it.
    - Files: a publication or a save is all or nothing, also when the process is killed,
      and what was written is loaded back.
    - Networks: the blocked prefixes are the complement of what the policy allows;
      resolvers are only ever set to the tunnel's or to automatic; a prepared pool blocks on
      every adapter, and what the managed path leaves in memory and on disk passes every
      later check, whatever failed; on macOS a killed
      service is followed by one that restores the network that was found.
    - The core: the process that is started is the pinned one; valid policies render, and
      the rendered document routes as the policy intends; a supervised core is stopped
      with everything it started, and no secret passes in its output; on macOS no core
      runs that the record on disk does not name.
    - Installation on macOS: what was installed is never lost, wherever the installer is
      killed; a failed installation puts it back.
    - Evidence: a pass proves containment, and a recorded leak is reported.
    Several theorems state behaviour that a comment of the code denies; they are listed as
    findings in the manifest.

    ** Bounds and fuel

    [Lifecycle], [LineScheduler] and the threads of [Supervisor] have no fuel: their
    executions are paths of a step relation, and [supervision_ends] bounds the latter by a
    rank.  Loops that poll take the looks or the events that happen before their deadline
    as a list or a number, which the theorems quantify over; batches and frames recurse on
    the events that are left.  The subtraction of prefixes recurses on the number of free
    bits, which runs out exactly where the source stops.
    The waits of the macOS installer have as much fuel as there are pauses before the
    deadline, which [InstallProps] shows to be enough.

    ** Not modelled

    The glue to operating systems: the IP Helper and pipe calls, job objects and handles,
    the PowerShell scripts and the XML parser of their errors, DPAPI, the peer checks of the
    sockets, the service entry points and command lines, and the fixtures of the
    integration tests.  They are listed one by one in the manifest, with the reason. *)
From stdpp Require Export base tactics list gmap strings sorting.
From Stdlib Require Export ZArith Lia.

#[global] Open Scope Z_scope.

(** ** Scope and notations of the development *)
Declare Scope go_scope.
Delimit Scope go_scope with go.

(** Bytes of a string. *)
Abbreviation ascii := Ascii.ascii.
Abbreviation N_of_ascii := Ascii.N_of_ascii.
Abbreviation ascii_of_N := Ascii.ascii_of_N.

(** Go compares strings for equality with [==]; here the boolean test. *)
Notation "s =?s t" := (String.eqb s t) (at level 70) : go_scope.
Notation "s ++s t" := (String.append s t)
  (at level 60, right associativity) : go_scope.
#[global] Open Scope go_scope.
#[global] Arguments String.append !s1 s2 /.

(** ** Machine integers *)

(** [uint64] arithmetic wraps around modulo 2^64. *)
Definition wrap_uint64 (z : Z) : Z := z `mod` 2 ^ 64.

(** [x++] on a [uint64]. *)
Definition uint64_incr (z : Z) : Z := wrap_uint64 (z + 1).

#[global] Arguments wrap_uint64 : simpl never.
#[global] Arguments uint64_incr : simpl never.

Definition max_int64 : Z := 2 ^ 63 - 1.
Definition min_int64 : Z := - 2 ^ 63.

(** ** [time.Time] and [time.Duration]

    An instant is the number of nanoseconds since the zero [time.Time]
    (January 1 of year 1, UTC), so [IsZero] is the test against 0.  A
    duration is an [int64] count of nanoseconds, and [Time.Sub] saturates. *)
Definition Millisecond : Z := 1000000.
Definition Second : Z := 1000 * Millisecond.
Definition Minute : Z := 60 * Second.
Definition Hour : Z := 60 * Minute.

Definition time_is_zero (t : Z) : bool := t =? 0.

Definition time_sub (t u : Z) : Z := Z.max min_int64 (Z.min max_int64 (t - u)).

(** [Duration.Milliseconds] truncates toward zero. *)
Definition milliseconds (d : Z) : Z := Z.quot d Millisecond.

(** [elapsed := now.Sub(started).Milliseconds(); if elapsed < 0 { elapsed = 0 }] *)
Definition elapsed_ms (now started : Z) : Z :=
  let elapsed := milliseconds (time_sub now started) in
  if elapsed <? 0 then 0 else elapsed.

(** ** State passing *)

(** A stateful body: the state it finds, the value it returns and the state it
    leaves. *)
Definition StateM (S A : Type) : Type := S -> A * S.

#[export] Instance StateM_ret S : MRet (StateM S) := fun A x s => (x, s).
#[export] Instance StateM_bind S : MBind (StateM S) :=
  fun A B f m s => let '(x, s') := m s in f x s'.

Definition gets {S A} (f : S -> A) : StateM S A := fun s => (f s, s).
Definition puts {S} (f : S -> S) : StateM S unit := fun s => (tt, f s).

(** [m] establishes [Q] from a state that satisfies [P]. *)
Definition triple {S A} (P : S -> Prop) (m : StateM S A) (Q : A -> S -> Prop) : Prop :=
  forall s, P s -> Q (m s).1 (m s).2.

Lemma triple_bind {S A B} (P : S -> Prop) (m : StateM S A) (f : A -> StateM S B) Q R :
  triple P m Q -> (forall x, triple (Q x) (f x) R) -> triple P (m ≫= f) R.
Proof.
  intros Hm Hf s Hs. specialize (Hm s Hs). unfold mbind, StateM_bind.
  destruct (m s) as [x s']. by apply Hf.
Qed.

Lemma triple_ret {S A} (x : A) (Q : A -> S -> Prop) : triple (Q x) (mret x) Q.
Proof. by intros s. Qed.

Lemma triple_skip {S A} (x : A) (P : S -> Prop) : triple P (mret x) (fun _ => P).
Proof. by intros s. Qed.

Lemma triple_gets {S A} (f : S -> A) (P : S -> Prop) :
  triple P (gets f) (fun x s => x = f s /\ P s).
Proof. by intros s. Qed.

Lemma triple_puts {S} (f : S -> S) (P : S -> Prop) :
  triple (fun s => P (f s)) (puts f) (fun _ => P).
Proof. by intros s. Qed.

Lemma triple_weaken {S A} (P P' : S -> Prop) (m : StateM S A) (Q Q' : A -> S -> Prop) :
  triple P' m Q' -> (forall s, P s -> P' s) -> (forall x s, Q' x s -> Q x s) -> triple P m Q.
Proof. intros Hm HP HQ s Hs. apply HQ, Hm, HP, Hs. Qed.

(** [m] leaves [view] of the state unchanged. *)
Definition keeps {S X A} (view : S -> X) (m : StateM S A) : Prop :=
  forall s, view (m s).2 = view s.

Lemma keeps_bind {S X A B} (view : S -> X) (m : StateM S A) (f : A -> StateM S B) :
  keeps view m -> (forall x, keeps view (f x)) -> keeps view (m ≫= f).
Proof.
  intros Hm Hf s. unfold mbind, StateM_bind. specialize (Hm s).
  destruct (m s) as [x s']. by rewrite Hf.
Qed.

Lemma keeps_ret {S X A} (view : S -> X) (x : A) : keeps view (mret x).
Proof. done. Qed.
Lemma keeps_gets {S X A} (view : S -> X) (f : S -> A) : keeps view (gets f).
Proof. done. Qed.
Lemma keeps_puts {S X} (view : S -> X) (f : S -> S) :
  (forall s, view (f s) = view s) -> keeps view (puts f).
Proof. intros Hf s. apply Hf. Qed.

(** ** Tactics *)

(** Turns the boolean tests of the program into propositions. *)
Ltac bool_to_prop :=
  repeat match goal with
  | H : (_ && _)%bool = true |- _ => apply andb_true_iff in H; destruct H
  | H : (_ || _)%bool = false |- _ => apply orb_false_iff in H; destruct H
  | H : negb _ = true |- _ => apply negb_true_iff in H
  | H : negb _ = false |- _ => apply negb_false_iff in H
  | H : (_ =? _) = true |- _ => apply Z.eqb_eq in H
  | H : (_ =? _) = false |- _ => apply Z.eqb_neq in H
  | H : (_ <? _) = true |- _ => apply Z.ltb_lt in H
  | H : (_ <? _) = false |- _ => apply Z.ltb_ge in H
  | H : (_ <=? _) = true |- _ => apply Z.leb_le in H
  | H : (_ <=? _) = false |- _ => apply Z.leb_gt in H
  | H : String.eqb _ _ = true |- _ => apply String.eqb_eq in H
  | H : String.eqb _ _ = false |- _ => apply String.eqb_neq in H
  end.

(** Case analysis on the first [if] or [match] in a hypothesis, with the
    resulting contradictions and injections solved. *)
Ltac split_match_in H :=
  match type of H with
  | context [if ?b then _ else _] => let E := fresh "E" in destruct b eqn:E
  | context [match ?b with _ => _ end] => let E := fresh "E" in destruct b eqn:E
  end; simplify_eq/=.

Ltac split_match :=
  match goal with
  | |- context [if ?b then _ else _] => let E := fresh "E" in destruct b eqn:E
  | |- context [match ?b with _ => _ end] => let E := fresh "E" in destruct b eqn:E
  end; simplify_eq/=.

(** ** Generic lemmas *)

Create HintDb go.
Create Rewrite HintDb go.

Lemma uint64_incr_small z : 0 <= z < 2 ^ 64 - 1 -> uint64_incr z = z + 1.
Proof. intros. unfold uint64_incr, wrap_uint64. apply Z.mod_small. lia. Qed.

Lemma uint64_incr_range z : 0 <= uint64_incr z < 2 ^ 64.
Proof. apply Z.mod_pos_bound. lia. Qed.

Lemma elapsed_ms_nonneg now started : 0 <= elapsed_ms now started.
Proof. unfold elapsed_ms. case_match; bool_to_prop; lia. Qed.
#[export] Hint Resolve uint64_incr_range elapsed_ms_nonneg : go.

(** Validators return their first error: a check that passes falls through. *)
Lemma err_if_none {A} (b : bool) (e : A) (k : option A) :
  (if b then Some e else k) = None <-> b = false /\ k = None.
Proof. destruct b; naive_solver. Qed.

Lemma err_seq_none {A} (o k : option A) :
  match o with Some e => Some e | None => k end = None <-> o = None /\ k = None.
Proof. destruct o; naive_solver. Qed.
#[export] Hint Rewrite @err_if_none @err_seq_none : go.

(** Filters that agree on the elements of the list. *)
Lemma filter_ext_in {A} (P Q : A -> Prop) `{!forall x, Decision (P x), !forall x, Decision (Q x)}
    (l : list A) :
  (forall x, x ∈ l -> P x <-> Q x) -> filter P l = filter Q l.
Proof.
  induction l as [|x l IH]; intros HPQ; [done|]. rewrite !filter_cons.
  rewrite IH by set_solver. pose proof (HPQ x ltac:(set_solver)). repeat case_decide; tauto.
Qed.

(** ** Orders given by a comparison

    The [less] functions passed to [sort.Slice] are lexicographic chains
    [switch { case a.X != b.X: return a.X < b.X ... }].  A chain is the
    composition of comparisons, and a lawful comparison gives a total
    preorder, so sorting has a canonical result. *)
Class LawfulCmp {A} (c : A -> A -> comparison) : Prop := {
  cmp_refl x : c x x = Eq;
  cmp_antisym x y : c y x = CompOpp (c x y);
  cmp_eq_l x y z : c x y = Eq -> c x z = c y z;
  cmp_lt_trans x y z : c x y = Lt -> c y z = Lt -> c x z = Lt
}.

Definition cmp_less {A} (c : A -> A -> comparison) (x y : A) : bool :=
  match c x y with Lt => true | _ => false end.

(** [x <= y] of a sort: [y] is not less than [x]. *)
Definition cmp_le {A} (c : A -> A -> comparison) (x y : A) : Prop := cmp_less c y x = false.

Definition cmp_lex {A} (c d : A -> A -> comparison) (x y : A) : comparison :=
  match c x y with Eq => d x y | r => r end.

Definition cmp_on {A B} (f : A -> B) (c : B -> B -> comparison) (x y : A) : comparison :=
  c (f x) (f y).

#[export] Instance cmp_le_dec {A} (c : A -> A -> comparison) : RelDecision (cmp_le c).
Proof. intros x y. unfold cmp_le. apply _. Defined.

#[export] Instance lawful_Z : LawfulCmp Z.compare.
Proof.
  split.
  - apply Z.compare_refl.
  - apply Z.compare_antisym.
  - intros x y z ->%Z.compare_eq_iff. done.
  - intros x y z. rewrite !Z.compare_lt_iff. lia.
Qed.

#[export] Instance lawful_string : LawfulCmp String.compare.
Proof.
  assert (Hle : forall s t, String.le s t <-> String.compare s t <> Gt).
  { intros s t. unfold String.le, String.leb. destruct (String.compare s t); naive_solver. }
  assert (Heq : forall s t, String.compare s t = Eq <-> s = t) by (intros s t; split; [apply String.compare_eq_iff|intros ->; unfold String.compare; induction t as [|a t IH]; [done|]; simpl; unfold Ascii.compare; rewrite N.compare_refl; exact IH]).
  split.
  - intros x. by apply Heq.
  - intros. apply String.compare_antisym.
  - intros x y z ->%Heq. done.
  - intros x y z Hxy Hyz.
    assert (Hxz : String.le x z) by (trans y; apply Hle; congruence).
    apply Hle in Hxz. destruct (String.compare x z) eqn:E; [|done|done].
    apply Heq in E as ->. rewrite String.compare_antisym, Hxy in Hyz. done.
Qed.

#[export] Instance lawful_lex {A} (c d : A -> A -> comparison) :
  LawfulCmp c -> LawfulCmp d -> LawfulCmp (cmp_lex c d).
Proof.
  intros Hc Hd. unfold cmp_lex. split.
  - intros x. by rewrite !cmp_refl.
  - intros x y. rewrite (cmp_antisym x y). destruct (c x y); simpl; auto using cmp_antisym.
  - intros x y z. destruct (c x y) eqn:E; try done. intros E'.
    by rewrite (cmp_eq_l x y z E), (cmp_eq_l x y z E').
  - intros x y z. destruct (c x y) eqn:E; try done.
    + rewrite (cmp_eq_l x y z E). destruct (c y z) eqn:E'; try done. eauto using cmp_lt_trans.
    + intros _. destruct (c y z) eqn:E'; try done.
      * intros _. rewrite cmp_antisym in E'. destruct (c z y) eqn:Ezy; try done.
        rewrite (cmp_antisym z x), (cmp_eq_l z y x Ezy), (cmp_antisym x y), E. done.
      * intros _. by rewrite (cmp_lt_trans x y z).
Qed.

#[export] Instance lawful_on {A B} (f : A -> B) (c : B -> B -> comparison) :
  LawfulCmp c -> LawfulCmp (cmp_on f c).
Proof.
  intros Hc. unfold cmp_on. split; intros.
  - apply cmp_refl.
  - apply cmp_antisym.
  - by apply cmp_eq_l.
  - by eapply cmp_lt_trans.
Qed.

Section CmpOrder.
Context {A} (c : A -> A -> comparison) `{!LawfulCmp c}.

Lemma cmp_le_iff x y : cmp_le c x y <-> c x y <> Gt.
Proof.
  unfold cmp_le, cmp_less. rewrite (cmp_antisym (c:=c) x y). destruct (c x y); naive_solver.
Qed.

#[export] Instance cmp_le_total : Total (cmp_le c).
Proof.
  intros x y. rewrite !cmp_le_iff, (cmp_antisym (c:=c) x y). destruct (c x y); simpl; auto.
Qed.

#[export] Instance cmp_le_trans : Transitive (cmp_le c).
Proof.
  intros x y z. rewrite !cmp_le_iff. intros Hxy Hyz.
  destruct (c x y) eqn:E; [| |done].
  - by rewrite (cmp_eq_l (c:=c) x y z E).
  - destruct (c y z) eqn:E'; [| |done].
    + rewrite (cmp_antisym (c:=c) z x), (cmp_eq_l (c:=c) z y x), <- (cmp_antisym (c:=c)); [congruence|].
      by rewrite (cmp_antisym (c:=c) y z), E'.
    + by rewrite (cmp_lt_trans (c:=c) x y z).
Qed.

(** Sorting is insensitive to the order of the input when elements that
    compare equal are equal. *)
Lemma sort_permutation (l l' : list A) :
  (forall x y, c x y = Eq -> x = y) -> l ≡ₚ l' ->
  merge_sort (cmp_le c) l = merge_sort (cmp_le c) l'.
Proof.
  intros Heq Hp. apply (Sorted_unique_strong (cmp_le c)).
  - intros x y _ _. rewrite !cmp_le_iff, (cmp_antisym (c:=c) x y).
    destruct (c x y) eqn:E; [auto|done|done].
  - apply Sorted_merge_sort, _.
  - apply Sorted_merge_sort, _.
  - by rewrite !merge_sort_Permutation.
Qed.
End CmpOrder.
