(* ===== verification/GoText.v ===== *)
(** * Text operations of the Go standard library

    The part of [unicode/utf8], [unicode] and [strings] the program relies on:
    decoding of a byte string into runes (with Go's treatment of malformed
    sequences), [utf8.Valid], [strings.Map], [strings.Fields],
    [strings.TrimSpace], [strings.Join], [strings.ToLower], [unicode.IsSpace]
    and [unicode.IsControl].  A Go string is a sequence of bytes and is
    modelled by [string].  The case tables beyond ASCII are the data of the
    Unicode standard: they are the class [UnicodeTables]. *)
From S2P Require Import Prelude.

#[local] Open Scope string_scope.
#[local] Open Scope Z_scope.

(** ** Bytes *)

Definition byte_val (a : ascii) : Z := Z.of_N (N_of_ascii a).

Definition byte_of (z : Z) : ascii := ascii_of_N (Z.to_N z).

Definition len (s : string) : Z := Z.of_nat (String.length s).

(** Every byte of [s] satisfies [p]. *)
Fixpoint string_all (p : ascii -> bool) (s : string) : bool :=
  match s with
  | "" => true
  | String a s' => p a && string_all p s'
  end.

Fixpoint string_concat (l : list string) : string :=
  match l with
  | [] => ""
  | s :: l' => s ++s string_concat l'
  end.

(** [fmt]'s [%q] on text without special characters. *)
Definition go_quote (s : string) : string :=
  String (byte_of 34) (s ++s String (byte_of 34) "").

(** [s[:n]] for [n <= len(s)]. *)
Definition string_take (n : nat) (s : string) : string := String.substring 0 n s.

(** ** UTF-8 decoding *)

Definition RuneError : Z := 65533.

Definition is_cont (b : Z) : bool := (128 <=? b) && (b <=? 191).

(** The bounds on the second byte of a three or four byte sequence
    ([acceptRanges] of [unicode/utf8]). *)
Definition second_ok (b0 b1 : Z) : bool :=
  if b0 =? 224 then (160 <=? b1) && (b1 <=? 191)
  else if b0 =? 237 then (128 <=? b1) && (b1 <=? 159)
  else if b0 =? 240 then (144 <=? b1) && (b1 <=? 191)
  else if b0 =? 244 then (128 <=? b1) && (b1 <=? 143)
  else is_cont b1.

Definition lead2 (b : Z) : bool := (194 <=? b) && (b <=? 223).
Definition lead3 (b : Z) : bool := (224 <=? b) && (b <=? 239).
Definition lead4 (b : Z) : bool := (240 <=? b) && (b <=? 244).

(** The runes of a string, each with the bytes it was decoded from; a byte
    that does not start a well-formed sequence gives [RuneError] of width 1. *)
Fixpoint runes (s : string) : list (Z * string) :=
  match s with
  | "" => []
  | String a s1 =>
    let b0 := byte_val a in
    let bad := (RuneError, String a "") in
    if b0 <? 128 then (b0, String a "") :: runes s1
    else
    match s1 with
    | "" => bad :: runes s1
    | String a1 s2 =>
      let b1 := byte_val a1 in
      if lead2 b0 && is_cont b1 then
        ((b0 - 192) * 64 + (b1 - 128), String a (String a1 "")) :: runes s2
      else
      match s2 with
      | "" => bad :: runes s1
      | String a2 s3 =>
        let b2 := byte_val a2 in
        if lead3 b0 && second_ok b0 b1 && is_cont b2 then
          ((b0 - 224) * 4096 + (b1 - 128) * 64 + (b2 - 128),
            String a (String a1 (String a2 ""))) :: runes s3
        else
        match s3 with
        | "" => bad :: runes s1
        | String a3 s4 =>
          let b3 := byte_val a3 in
          if lead4 b0 && second_ok b0 b1 && is_cont b2 && is_cont b3 then
            ((b0 - 240) * 262144 + (b1 - 128) * 4096 + (b2 - 128) * 64 + (b3 - 128),
              String a (String a1 (String a2 (String a3 "")))) :: runes s4
          else bad :: runes s1
        end
      end
    end
  end.

(** [utf8.AppendRune]. *)
Definition utf8_encode (r : Z) : string :=
  let b z := byte_of z in
  if (0 <=? r) && (r <? 128) then String (b r) ""
  else if (128 <=? r) && (r <? 2048) then
    String (b (192 + r / 64)) (String (b (128 + r `mod` 64)) "")
  else if (r <? 0) || (1114111 <? r) || ((55296 <=? r) && (r <=? 57343)) then
    String (b 239) (String (b 191) (String (b 189) ""))
  else if r <? 65536 then
    String (b (224 + r / 4096)) (String (b (128 + (r / 64) `mod` 64))
      (String (b (128 + r `mod` 64)) ""))
  else
    String (b (240 + r / 262144)) (String (b (128 + (r / 4096) `mod` 64))
      (String (b (128 + (r / 64) `mod` 64)) (String (b (128 + r `mod` 64)) ""))).

Definition rune_bad (p : Z * string) : bool :=
  (p.1 =? RuneError) && (len p.2 =? 1).

Definition utf8_valid (s : string) : bool := forallb (fun p => negb (rune_bad p)) (runes s).

(** ** Character classes *)

Definition is_control (r : Z) : bool :=
  ((0 <=? r) && (r <=? 31)) || ((127 <=? r) && (r <=? 159)).

Definition is_space (r : Z) : bool :=
  ((9 <=? r) && (r <=? 13)) || (r =? 32) || (r =? 133) || (r =? 160) ||
  (r =? 5760) || ((8192 <=? r) && (r <=? 8202)) || (r =? 8232) || (r =? 8233) ||
  (r =? 8239) || (r =? 8287) || (r =? 12288).

(** ** [strings] *)

(** [strings.Map]: a negative result drops the rune. *)
Definition strings_Map (f : Z -> Z) (s : string) : string :=
  string_concat (map (fun p => let r := f p.1 in
                               if r <? 0 then "" else utf8_encode r) (runes s)).

Fixpoint fields_go (l : list (Z * string)) (cur : string) : list string :=
  match l with
  | [] => if cur =?s "" then [] else [cur]
  | (r, raw) :: l' =>
    if is_space r then
      (if cur =?s "" then fields_go l' "" else cur :: fields_go l' "")
    else fields_go l' (cur ++s raw)
  end.

(** [strings.Fields]: the maximal runs of non-space runes. *)
Definition strings_Fields (s : string) : list string := fields_go (runes s) "".

Fixpoint strings_Join (l : list string) (sep : string) : string :=
  match l with
  | [] => ""
  | [s] => s
  | s :: l' => s ++s sep ++s strings_Join l' sep
  end.

Fixpoint drop_spaces (l : list (Z * string)) : list (Z * string) :=
  match l with
  | (r, raw) :: l' => if is_space r then drop_spaces l' else l
  | [] => []
  end.

(** [strings.TrimSpace]. *)
Definition strings_TrimSpace (s : string) : string :=
  string_concat (map snd (rev (drop_spaces (rev (drop_spaces (runes s)))))).

Class UnicodeTables := { unicode_lower : Z -> Z; unicode_upper : Z -> Z }.

Definition ascii_lower (r : Z) : Z := if (65 <=? r) && (r <=? 90) then r + 32 else r.
Definition ascii_upper (r : Z) : Z := if (97 <=? r) && (r <=? 122) then r - 32 else r.

Section Case.
Context `{UnicodeTables}.

Definition rune_lower (r : Z) : Z := if r <? 128 then ascii_lower r else unicode_lower r.
Definition rune_upper (r : Z) : Z := if r <? 128 then ascii_upper r else unicode_upper r.
Definition strings_ToLower (s : string) : string := strings_Map rune_lower s.
Definition strings_ToUpper (s : string) : string := strings_Map rune_upper s.
End Case.

Fixpoint strings_HasPrefix (s p : string) : bool :=
  match p, s with
  | "", _ => true
  | String a p', String b s' => Ascii.eqb a b && strings_HasPrefix s' p'
  | String _ _, "" => false
  end.

Fixpoint strings_HasSuffix (s p : string) : bool :=
  (s =?s p) || match s with "" => false | String _ s' => strings_HasSuffix s' p end.

(** ** Lemmas *)

Lemma has_suffix_app f s : strings_HasSuffix (f ++s s) s = true.
Proof.
  induction f as [|a f IH]; cbn [String.append].
  - destruct s; cbn [strings_HasSuffix]; rewrite String.eqb_refl; done.
  - cbn [strings_HasSuffix]. rewrite IH. apply orb_true_r.
Qed.

Lemma has_prefix_app s p : strings_HasPrefix (p ++s s) p = true.
Proof. induction p as [|c p IH]; simpl; [by destruct s|]. by rewrite Ascii.eqb_refl. Qed.

Lemma string_app_nil_r s : (s ++s "") = s.
Proof. induction s as [|a s IH]; simpl; [done|]. by rewrite IH. Qed.

Lemma string_app_assoc (a b c : string) : (a ++s b) ++s c = a ++s b ++s c.
Proof. induction a as [|x a IH]; simpl; [done|]. by rewrite IH. Qed.

Lemma string_all_app p s t : string_all p (s ++s t) = string_all p s && string_all p t.
Proof. induction s as [|a s IH]; simpl; [done|]. by rewrite IH, andb_assoc. Qed.

Lemma string_all_concat p l :
  string_all p (string_concat l) = forallb (string_all p) l.
Proof. induction l as [|s l IH]; simpl; [done|]. by rewrite string_all_app, IH. Qed.

Lemma string_length_app s t :
  String.length (s ++s t) = (String.length s + String.length t)%nat.
Proof. induction s as [|a s IH]; simpl; auto. Qed.

Lemma len_app s t : len (s ++s t) = len s + len t.
Proof. unfold len. rewrite string_length_app. lia. Qed.

Lemma len_nonneg s : 0 <= len s.
Proof. unfold len. lia. Qed.

Lemma byte_val_range a : 0 <= byte_val a < 256.
Proof. unfold byte_val. pose proof (Ascii.N_ascii_bounded a). lia. Qed.

Lemma byte_val_of z : 0 <= z < 256 -> byte_val (byte_of z) = z.
Proof.
  intros. unfold byte_val, byte_of. rewrite Ascii.N_ascii_embedding by lia. lia.
Qed.

Lemma string_take_length n s : (String.length (string_take n s) <= n)%nat.
Proof.
  unfold string_take. revert n.
  induction s as [|a s IH]; intros [|n]; simpl; try lia. specialize (IH n). lia.
Qed.

Lemma string_take_all p n s : string_all p s = true -> string_all p (string_take n s) = true.
Proof.
  unfold string_take. revert n.
  induction s as [|a s IH]; intros [|n]; simpl; try done.
  intros [Ha Hs]%andb_true_iff. rewrite Ha. simpl. auto.
Qed.

(** Two-step-or-more induction along the tails of a string, the shape of the
    recursion of [runes]. *)
Lemma string_len_ind (P : string -> Prop) :
  (forall s, (forall t, (String.length t < String.length s)%nat -> P t) -> P s) ->
  forall s, P s.
Proof.
  intros H s. induction s as [s IH] using
    (well_founded_induction (Wf_nat.well_founded_ltof _ String.length)).
  apply H. intros t Ht. apply IH. exact Ht.
Qed.

(** What one step of the decoder consumes: [runes] of a non-empty string is
    one rune, the bytes it came from, and the runes of the rest. *)
Lemma runes_step a s1 :
  exists r raw rest, String a s1 = raw ++s rest /\ (0 < String.length raw)%nat /\
    runes (String a s1) = (r, raw) :: runes rest /\
    (r < 128 -> raw = String (byte_of r) "" /\ 0 <= r) /\
    (forall p, (forall b, 128 <= byte_val b -> p b = true) ->
       128 <= r -> string_all p raw = true).
Proof.
  assert (Hbyte : forall b, byte_of (byte_val b) = b).
  { intros b. unfold byte_of, byte_val. rewrite N2Z.id. apply Ascii.ascii_N_embedding. }
  assert (Hbad : 128 <= byte_val a -> forall p : ascii -> bool,
    (forall b, 128 <= byte_val b -> p b = true) ->
    string_all p (String a "") = true).
  { intros Ha p Hp. simpl. rewrite Hp by lia. done. }
  cbn [runes]. destruct (byte_val a <? 128) eqn:E0; bool_to_prop.
  { exists (byte_val a), (String a ""), s1. repeat split; simpl; auto; try lia.
    - by rewrite Hbyte.
    - apply byte_val_range. }
  assert (Hlift : exists r raw rest, String a s1 = raw ++s rest /\
    (0 < String.length raw)%nat /\
    (RuneError, String a "") :: runes s1 = (r, raw) :: runes rest /\
    (r < 128 -> raw = String (byte_of r) "" /\ 0 <= r) /\
    (forall p, (forall b, 128 <= byte_val b -> p b = true) ->
       128 <= r -> string_all p raw = true)).
  { exists RuneError, (String a ""), s1. unfold RuneError.
    repeat split; simpl; auto; try lia. intros p Hp _. by apply Hbad. }
  destruct s1 as [|a1 s2]; [done|].
  destruct (lead2 (byte_val a) && is_cont (byte_val a1)) eqn:E2.
  { unfold lead2, is_cont in E2. bool_to_prop.
    eexists _, (String a (String a1 "")), s2. repeat split; simpl; auto; try lia.
    intros p Hp _. rewrite !Hp by lia. done. }
  destruct s2 as [|a2 s3]; [done|].
  destruct (lead3 _ && _ && _) eqn:E3.
  { bool_to_prop. unfold lead3, is_cont in *. bool_to_prop.
    assert (128 <= byte_val a1 /\ (byte_val a = 224 -> 160 <= byte_val a1)) as [? ?].
    { match goal with H : second_ok _ _ = true |- _ => revert H end.
      unfold second_ok, is_cont. repeat split_match; intros; bool_to_prop; lia. }
    eexists _, (String a (String a1 (String a2 ""))), s3.
    repeat split; simpl; auto; try lia.
    intros p Hp _. rewrite !Hp by lia. done. }
  destruct s3 as [|a3 s4]; [done|].
  destruct (lead4 _ && _ && _ && _) eqn:E4; [|done].
  bool_to_prop. unfold lead4, is_cont in *. bool_to_prop.
  assert (128 <= byte_val a1 /\ (byte_val a = 240 -> 144 <= byte_val a1)) as [? ?].
  { match goal with H : second_ok _ _ = true |- _ => revert H end.
    unfold second_ok, is_cont. repeat split_match; intros; bool_to_prop; lia. }
  eexists _, (String a (String a1 (String a2 (String a3 "")))), s4.
  repeat split; simpl; auto; try lia.
  intros p Hp _. rewrite !Hp by lia. done.
Qed.

Lemma runes_concat s : string_concat (map snd (runes s)) = s.
Proof.
  induction s as [s IH] using string_len_ind. destruct s as [|a s1]; [done|].
  destruct (runes_step a s1) as (r & raw & rest & Heq & Hlen & -> & _).
  simpl. rewrite IH; [done|]. rewrite Heq, string_length_app. lia.
Qed.

(** A predicate on bytes that accepts every byte from 128 up. *)
Definition high_ok (p : ascii -> bool) : Prop := forall b, 128 <= byte_val b -> p b = true.

(** The bytes of a string satisfy [p] exactly when its ASCII runes do. *)
Lemma string_all_runes p s : high_ok p ->
  string_all p s = forallb (fun q => negb (q.1 <? 128) || p (byte_of q.1)) (runes s).
Proof.
  intros Hp. induction s as [s IH] using string_len_ind. destruct s as [|a s1]; [done|].
  destruct (runes_step a s1) as (r & raw & rest & Heq & Hlen & -> & Hlow & Hhigh).
  cbn [forallb fst]. rewrite <- IH by (rewrite Heq, string_length_app; lia).
  rewrite Heq, string_all_app. f_equal.
  destruct (r <? 128) eqn:E; bool_to_prop; simpl.
  - destruct (Hlow E) as [-> _]. simpl. by rewrite andb_true_r.
  - by apply Hhigh.
Qed.

Lemma runes_nonneg s : Forall (fun q => 0 <= q.1) (runes s).
Proof.
  induction s as [s IH] using string_len_ind. destruct s as [|a s1]; [constructor|].
  destruct (runes_step a s1) as (r & raw & rest & Heq & Hlen & -> & Hlow & _).
  constructor.
  - simpl. destruct (decide (r < 128)) as [Hr|]; [|lia]. by destruct (Hlow Hr).
  - apply IH. rewrite Heq, string_length_app. lia.
Qed.

Lemma utf8_encode_low p r : 0 <= r < 128 -> p (byte_of r) = true ->
  string_all p (utf8_encode r) = true.
Proof.
  intros Hr Hp. unfold utf8_encode.
  replace ((0 <=? r) && (r <? 128)) with true by (symmetry; lia). simpl. by rewrite Hp.
Qed.

Lemma utf8_encode_high p r : high_ok p -> r < 0 \/ 128 <= r ->
  string_all p (utf8_encode r) = true.
Proof.
  intros Hp Hr. unfold utf8_encode.
  assert (Hb : forall z, 128 <= z < 256 -> p (byte_of z) = true).
  { intros z Hz. apply Hp. rewrite byte_val_of; lia. }
  pose proof (Z.mod_pos_bound r 64). pose proof (Z.mod_pos_bound (r / 64) 64).
  pose proof (Z.mod_pos_bound (r / 4096) 64).
  repeat case_match; bool_to_prop; try lia; simpl;
    repeat match goal with
    | H : (_ && _) = false |- _ => apply andb_false_iff in H as [?|?]
    end; bool_to_prop; try lia;
    rewrite !Hb; try done; Z.to_euclidean_division_equations; lia.
Qed.

Lemma strings_Map_all p f s : high_ok p ->
  (forall r, 0 <= r -> 0 <= f r < 128 -> p (byte_of (f r)) = true) ->
  string_all p (strings_Map f s) = true.
Proof.
  intros Hp Hf. unfold strings_Map. rewrite string_all_concat.
  apply forallb_forall. intros t (q & <- & Hq)%in_map_iff.
  pose proof (runes_nonneg s) as Hpos. rewrite List.Forall_forall in Hpos.
  specialize (Hpos q Hq). simpl.
  destruct (f q.1 <? 0) eqn:E; [done|]. bool_to_prop.
  destruct (decide (f q.1 < 128)).
  - apply utf8_encode_low; [lia|]. apply Hf; lia.
  - apply utf8_encode_high; [done|lia].
Qed.

Lemma fields_go_all p l cur :
  Forall (fun q => string_all p q.2 = true) l -> string_all p cur = true ->
  Forall (fun t => string_all p t = true /\ t <> "") (fields_go l cur).
Proof.
  revert cur. induction l as [|[r raw] l IH]; intros cur Hl Hcur; simpl.
  - case_match; bool_to_prop; repeat constructor; auto.
  - inversion Hl; subst. repeat case_match; bool_to_prop; subst;
      repeat constructor; auto.
    apply IH; auto. rewrite string_all_app. by rewrite Hcur.
Qed.

Lemma runes_raw_all p s :
  string_all p s = true -> Forall (fun q => string_all p q.2 = true) (runes s).
Proof.
  rewrite <- (runes_concat s) at 1. rewrite string_all_concat.
  generalize (runes s) as l. induction l as [|q l IH]; [constructor|].
  simpl. intros [? ?]%andb_true_iff. constructor; auto.
Qed.

Lemma strings_Fields_all p s : string_all p s = true ->
  Forall (fun t => string_all p t = true /\ t <> "") (strings_Fields s).
Proof. intros. apply fields_go_all; [by apply runes_raw_all|done]. Qed.

Lemma strings_Join_all p l sep : string_all p sep = true ->
  Forall (fun t => string_all p t = true) l -> string_all p (strings_Join l sep) = true.
Proof.
  intros Hsep. induction 1 as [|s l Hs Hl IH]; [done|].
  destruct l; simpl in *; [done|]. by rewrite !string_all_app, Hs, Hsep.
Qed.

Lemma string_all_mono (p q : ascii -> bool) s :
  (forall a, p a = true -> q a = true) -> string_all p s = true -> string_all q s = true.
Proof.
  intros Hpq. induction s as [|a s IH]; [done|]. simpl.
  intros [? ?]%andb_true_iff. rewrite Hpq by done. auto.
Qed.

(** ** The longest well-formed prefix

    [for len(bytes) > 0 && !utf8.Valid(bytes) { bytes = bytes[:len(bytes)-1] }]
    applied to [s[:n]]. *)
Fixpoint drop_invalid_tail (n : nat) (s : string) : string :=
  match n with
  | O => ""
  | S n' => if utf8_valid (string_take n s) then string_take n s
            else drop_invalid_tail n' s
  end.

Lemma drop_invalid_tail_length n s : (String.length (drop_invalid_tail n s) <= n)%nat.
Proof.
  induction n as [|n IH]; simpl; [lia|].
  case_match; [apply string_take_length|lia].
Qed.

Lemma drop_invalid_tail_valid n s : utf8_valid (drop_invalid_tail n s) = true.
Proof. induction n as [|n IH]; [done|]. cbn [drop_invalid_tail]. by case_match. Qed.

Lemma drop_invalid_tail_all p n s :
  string_all p s = true -> string_all p (drop_invalid_tail n s) = true.
Proof.
  intros Hs. induction n as [|n IH]; [done|]. cbn [drop_invalid_tail].
  case_match; [by apply string_take_all|done].
Qed.

(** ASCII texts are UTF-8. *)
Lemma utf8_valid_ascii s : string_all (fun c => byte_val c <? 128) s = true -> utf8_valid s = true.
Proof.
  induction s as [|c s IH]; [done|]. cbn [string_all]. intros [Hc Hs]%andb_true_iff.
  unfold utf8_valid in *. cbn [runes]. rewrite Hc. cbn [forallb]. rewrite IH by done.
  unfold rune_bad, RuneError. simpl. apply Z.ltb_lt in Hc. rewrite (proj2 (Z.eqb_neq _ _)) by lia. done.
Qed.

Lemma has_prefix_split s p : strings_HasPrefix s p = true -> exists rest, s = p ++s rest.
Proof.
  revert s. induction p as [|c p IH]; intros s; [by exists s|].
  destruct s as [|c' s]; [done|]. cbn [strings_HasPrefix].
  intros [->%Ascii.eqb_eq (rest & ->)%IH]%andb_true_iff. by exists rest.
Qed.
