(* ===== verification/GoRegexp.v ===== *)
(** * Regular expressions of the Go standard library

    The fragment of [regexp] the program's patterns use, with its
    leftmost-first semantics: an ordered alternation and greedy repetitions
    tried by backtracking, the ASCII word boundary, one capturing group, and
    [ReplaceAllString].  The subject is the list of runes of the string, each
    with the bytes it was decoded from, so the unmatched text is copied byte
    for byte.  Under [(?i)] the letters k and s also match the two non-ASCII
    runes that fold to them. *)
From S2P Require Import Prelude GoText.

#[local] Open Scope string_scope.
#[local] Open Scope Z_scope.

Inductive Regex :=
| RChar (p : Z -> bool)
| REmpty
| RSeq (r1 r2 : Regex)
| RAlt (r1 r2 : Regex)
| RStar (r : Regex)
| RWordB
| RGroup (r : Regex).

Definition RPlus (r : Regex) : Regex := RSeq r (RStar r).
Definition ROpt (r : Regex) : Regex := RAlt r REmpty.

(** A point of the match: the rune before it, the runes after it, the number
    of runes consumed, the text of the capturing group. *)
Record MState := mkMState {
  m_prev : option Z;
  m_rest : list (Z * string);
  m_pos : nat;
  m_group : string
}.

Definition is_word (r : Z) : bool :=
  ((48 <=? r) && (r <=? 57)) || ((65 <=? r) && (r <=? 90)) || (r =? 95) ||
  ((97 <=? r) && (r <=? 122)).

Definition word_at (o : option Z) : bool := match o with Some r => is_word r | None => false end.

Definition raw_text (l : list (Z * string)) : string := string_concat (map snd l).

(** Backtracking: [k] is what remains to be matched after [r].  A repetition
    stops at an iteration that consumes nothing, so the length of the rest
    bounds the number of iterations. *)
Fixpoint rmatch (r : Regex) (st : MState) (k : MState -> option MState) {struct r}
    : option MState :=
  match r with
  | REmpty => k st
  | RChar p =>
    match m_rest st with
    | (c, raw) :: rest =>
      if p c then k (mkMState (Some c) rest (S (m_pos st)) (m_group st)) else None
    | [] => None
    end
  | RSeq r1 r2 => rmatch r1 st (fun st' => rmatch r2 st' k)
  | RAlt r1 r2 =>
    match rmatch r1 st k with
    | Some x => Some x
    | None => rmatch r2 st k
    end
  | RStar r1 =>
    (fix star (n : nat) (st : MState) {struct n} : option MState :=
       match n with
       | O => k st
       | S n' =>
         match rmatch r1 st (fun st' => if (m_pos st' =? m_pos st)%nat then None
                                        else star n' st') with
         | Some x => Some x
         | None => k st
         end
       end) (S (length (m_rest st))) st
  | RWordB =>
    let here := match m_rest st with (c, _) :: _ => Some c | [] => None end in
    if Bool.eqb (word_at (m_prev st)) (word_at here) then None else k st
  | RGroup r1 =>
    rmatch r1 st (fun st' =>
      k (mkMState (m_prev st') (m_rest st') (m_pos st')
           (raw_text (take (m_pos st' - m_pos st)%nat (m_rest st)))))
  end.

(** A replacement template: literal text and [${1}]. *)
Inductive Piece := PText (s : string) | PGroup.

Definition expand (tmpl : list Piece) (group : string) : string :=
  string_concat (map (fun p => match p with PText s => s | PGroup => group end) tmpl).

(** [ReplaceAllString] from a point: the leftmost match is replaced and the
    scan resumes after it. *)
Fixpoint replace_from (r : Regex) (tmpl : list Piece) (n : nat) (prev : option Z)
    (input : list (Z * string)) : string :=
  match n with
  | O => raw_text input
  | S n' =>
    match input with
    | [] => ""
    | (c, raw) :: rest =>
      match rmatch r (mkMState prev input 0 "") Some with
      | Some st =>
        if (m_pos st =? 0)%nat then raw ++s replace_from r tmpl n' (Some c) rest
        else expand tmpl (m_group st) ++s replace_from r tmpl n' (m_prev st) (m_rest st)
      | None => raw ++s replace_from r tmpl n' (Some c) rest
      end
    end
  end.

Definition replace_all (r : Regex) (tmpl : list Piece) (s : string) : string :=
  let input := runes s in replace_from r tmpl (S (length input)) None input.

(** ** Building blocks of patterns *)

(** A literal rune under [(?i)]. *)
Definition fold_char (c : Z) (x : Z) : bool :=
  (ascii_lower x =? ascii_lower c) ||
  ((ascii_lower c =? 107) && (x =? 8490)) || ((ascii_lower c =? 115) && (x =? 383)).

Definition one_of (cs : list Z) (x : Z) : bool := existsb (Z.eqb x) cs.

(** The literal text [s] under [(?i)]. *)
Fixpoint RLit (s : string) : Regex :=
  match s with
  | "" => REmpty
  | String a "" => RChar (fold_char (byte_val a))
  | String a s' => RSeq (RChar (fold_char (byte_val a))) (RLit s')
  end.

Fixpoint RSeqs (l : list Regex) : Regex :=
  match l with [] => REmpty | [r] => r | r :: l' => RSeq r (RSeqs l') end.

Fixpoint RAlts (l : list Regex) : Regex :=
  match l with [] => REmpty | [r] => r | r :: l' => RAlt r (RAlts l') end.

(** [\s] and [\S] of Go's syntax: ASCII only, without the vertical tab. *)
Definition re_space (x : Z) : bool := one_of [9; 10; 12; 13; 32] x.
Definition re_nonspace (x : Z) : bool := negb (re_space x).
