(* ===== verification/TraceRecorder.v ===== *)
(** * The trace recorder ([internal/traceevent/recorder.go])

    The bounded memory of events with its batches, and the trace files of a
    generation with their size limit, their degradation and their pruning.
    The file system, the clock and the JSON encoder answer as they like. *)
From stdpp Require Import pretty.
From S2P Require Import Prelude GoText TraceEvent.

#[local] Open Scope string_scope.
#[local] Open Scope Z_scope.
#[local] Open Scope list_scope.

(** ** Trace file names *)

(** A recognizer consumes a beginning of a name. *)
Definition eat_literal (lit : string) (s : string) : option string :=
  if strings_HasPrefix s lit then Some (String.substring (String.length lit) (String.length s) s)
  else None.

Definition is_digit_byte (a : ascii) : bool := (48 <=? byte_val a) && (byte_val a <=? 57).

Fixpoint eat_digits (n : nat) (s : string) : option string :=
  match n with
  | O => Some s
  | S n' => match s with
            | String a s' => if is_digit_byte a then eat_digits n' s' else None
            | EmptyString => None
            end
  end.

Fixpoint skip_digits (s : string) : string :=
  match s with
  | String a s' => if is_digit_byte a then skip_digits s' else s
  | EmptyString => ""
  end.

(** [\d+]: greedy, which is exact here since a digit cannot start what follows. *)
Definition eat_digits1 (s : string) : option string := s' ← eat_digits 1 s; Some (skip_digits s').

Fixpoint eat_all (fs : list (string -> option string)) (s : string) : option string :=
  match fs with
  | [] => Some s
  | f :: fs' => match f s with Some s' => eat_all fs' s' | None => None end
  end.

Definition trace_head : list (string -> option string) :=
  [eat_literal "trace-"; eat_digits 8; eat_literal "T"; eat_digits 6; eat_literal ".";
   eat_digits 9; eat_literal "Z"].
Definition trace_suffix : list (string -> option string) := [eat_literal "-"; eat_digits 2].
Definition trace_tail : list (string -> option string) :=
  [eat_literal "-g"; eat_digits1; eat_literal ".jsonl"].

(** [^trace-\d{8}T\d{6}\.\d{9}Z(?:-\d{2})?-g\d+\.jsonl$] *)
Definition isTraceFilename (name : string) : bool :=
  bool_decide (eat_all (trace_head ++ trace_tail) name = Some "") ||
  bool_decide (eat_all (trace_head ++ trace_suffix ++ trace_tail) name = Some "").

Example trace_name_plain : isTraceFilename "trace-20250102T030405.000000006Z-g12.jsonl" = true.
Proof. reflexivity. Qed.
Example trace_name_suffix : isTraceFilename "trace-20250102T030405.000000006Z-07-g12.jsonl" = true.
Proof. reflexivity. Qed.
Example trace_name_other : isTraceFilename "trace-20250102T030405.000000006Z-g.jsonl" = false.
Proof. reflexivity. Qed.

(** ** Data *)
Record RecorderConfig := mkRecorderConfig {
  Directory : string;
  MemoryCapacity : Z;
  MaxFileBytes : Z;
  RetainFiles : Z
}.

(** A failed [OpenFile]: whether the file exists, and the error text. *)
Record OpenError := mkOpenError { open_exists : bool; open_text : string }.

Record DirEntry := mkDirEntry { EntryName : string; EntryIsDir : bool; EntryModTime : option Z }.

(** What the recorder asks of the system.  Errors are their texts; [None] is
    success.  [stamp] is the formatted time of a file name. *)
Class TraceSystem := {
  TWorld : Type;
  sys_Now : TWorld -> Z * TWorld;
  sys_stamp : Z -> string;
  sys_Marshal : Event -> string + string;
  sys_OpenFile : string -> TWorld -> option OpenError * TWorld;
  sys_Write : string -> TWorld -> option string * TWorld;
  sys_Sync : TWorld -> option string * TWorld;
  sys_Close : TWorld -> option string * TWorld;
  sys_ReadDir : TWorld -> (list DirEntry + string) * TWorld;
  sys_Remove : string -> TWorld -> option string * TWorld
}.

(** What happens to the trace directory, in order. *)
Inductive FileOp :=
| FOpen (name : string)
| FWrite (bytes : string)
| FRemove (name : string).

Section Recorder.
Context `{TraceSystem} (config : RecorderConfig).

(** [file] is the name of the open file. *)
Record Recorder := mkRecorder {
  sequence : Z;
  events : list Event;
  file : option string;
  fileBytes : Z;
  fileGeneration : Z;
  fileTruncated : bool;
  diskDegraded : bool;
  closed : bool
}.

Record RS := mkRS { rec : Recorder; tworld : TWorld; ops : list FileOp }.

Definition RM : Type -> Type := StateM RS.

Definition on_rec (f : Recorder -> Recorder) : RM unit :=
  puts (fun s => mkRS (f (rec s)) (tworld s) (ops s)).
Definition get_rec {A} (f : Recorder -> A) : RM A := gets (fun s => f (rec s)).
Definition system {A} (op : TWorld -> A * TWorld) : RM A :=
  fun s => let '(x, w) := op (tworld s) in (x, mkRS (rec s) w (ops s)).
Definition did (o : FileOp) : RM unit := puts (fun s => mkRS (rec s) (tworld s) (ops s ++ [o])).

Definition set_sequence (n : Z) (r : Recorder) : Recorder :=
  mkRecorder n (events r) (file r) (fileBytes r) (fileGeneration r) (fileTruncated r)
    (diskDegraded r) (closed r).
Definition set_events (l : list Event) (r : Recorder) : Recorder :=
  mkRecorder (sequence r) l (file r) (fileBytes r) (fileGeneration r) (fileTruncated r)
    (diskDegraded r) (closed r).
Definition set_file (f : option string) (r : Recorder) : Recorder :=
  mkRecorder (sequence r) (events r) f (fileBytes r) (fileGeneration r) (fileTruncated r)
    (diskDegraded r) (closed r).
Definition set_fileBytes (n : Z) (r : Recorder) : Recorder :=
  mkRecorder (sequence r) (events r) (file r) n (fileGeneration r) (fileTruncated r)
    (diskDegraded r) (closed r).
Definition set_truncated (r : Recorder) : Recorder :=
  mkRecorder (sequence r) (events r) (file r) (fileBytes r) (fileGeneration r) true
    (diskDegraded r) (closed r).
Definition set_degraded (r : Recorder) : Recorder :=
  mkRecorder (sequence r) (events r) (file r) (fileBytes r) (fileGeneration r) (fileTruncated r)
    true (closed r).
Definition set_generation (gen : Z) (r : Recorder) : Recorder :=
  mkRecorder (sequence r) (events r) (file r) 0 gen false false (closed r).
Definition set_closed (r : Recorder) : Recorder :=
  mkRecorder (sequence r) [] (file r) (fileBytes r) (fileGeneration r) (fileTruncated r)
    (diskDegraded r) true.

Definition NewRecorder : Recorder := mkRecorder 0 [] None 0 0 false false false.

Definition config_ok : bool :=
  negb (Directory config =?s "") && (0 <? MemoryCapacity config) && (0 <? MaxFileBytes config) &&
  (0 <? RetainFiles config).

(** ** Memory *)
Definition prepareLocked (event : Event) : RM Event :=
  on_rec (fun r => set_sequence (uint64_incr (sequence r)) r) ;;
  seq ← get_rec sequence;
  now ← system sys_Now;
  let message := (SanitizeDetail (EvMessage event) []).1 in
  let '(detail, truncated) := SanitizeDetail (EvDetail event) [] in
  mret (mkEvent SchemaVersion seq now true (EvGeneration event) (EvLevel event)
          (EvComponent event) (EvStage event) (EvEvent event) (EvElapsedMS event) message
          detail truncated (EvResidue event)).

Definition appendMemory (event : Event) (l : list Event) : list Event :=
  if Z.of_nat (length l) =? MemoryCapacity config then tail l ++ [event] else l ++ [event].

Definition appendMemoryLocked (event : Event) : RM unit :=
  on_rec (fun r => set_events (appendMemory event (events r)) r).

Definition loggingFailure (gen : Z) (message detail : string) : Event :=
  mkEvent 0 0 0 false gen LevelError ComponentLogging StageLoggingDegraded EventFailed None
    message detail false None.

Definition truncatedEvent (gen : Z) : Event :=
  mkEvent 0 0 0 false gen LevelWarning ComponentLogging StageLoggingDegraded EventFailed None
    "日志文件达到大小上限，后续磁盘记录已截断" "" false None.

Definition appendLoggingFailureLocked (gen : Z) (message detail : string) : RM unit :=
  degraded ← get_rec diskDegraded;
  if degraded : bool then mret tt
  else
    on_rec set_degraded ;;
    event ← prepareLocked (loggingFailure gen message detail);
    appendMemoryLocked event.

(** The events after [after], at most [limit] of them. *)
Fixpoint batch_loop (after : Z) (limit : nat) (l : list Event) (b : Batch) : Batch :=
  match l with
  | [] => b
  | event :: l' =>
    if EvSequence event <=? after then batch_loop after limit l' b
    else if (length (BatchEvents b) =? limit)%nat
    then mkBatch (BatchEvents b) (BatchNextSequence b) true (BatchOldestSequence b)
    else batch_loop after limit l'
           (mkBatch (BatchEvents b ++ [event]) (EvSequence event) (BatchHasMore b)
              (BatchOldestSequence b))
  end.

Definition Batch_ (r : Recorder) (after limit : Z) : Batch :=
  match events r with
  | [] => mkBatch [] after false 0
  | first :: _ =>
    if limit <=? 0 then mkBatch [] after false 0
    else batch_loop after (Z.to_nat limit) (events r) (mkBatch [] after false (EvSequence first))
  end.

(** ** Files *)
Definition errInvalid : string := "invalid argument".

(** A failed close is an error unless it is [os.ErrInvalid]. *)
Definition real_error (err : option string) : bool :=
  match err with Some e => negb (e =?s errInvalid) | None => false end.

Definition closeFileLocked : RM (option string) :=
  f ← get_rec file;
  match f with
  | None => mret None
  | Some _ =>
    on_rec (set_file None) ;;
    err ← system sys_Sync;
    if real_error err then system sys_Close ;; mret err
    else err ← system sys_Close; mret (if real_error err then err else None)
  end.

Definition candidate_cmp : DirEntry -> DirEntry -> comparison :=
  cmp_lex (cmp_on (fun e => default 0 (EntryModTime e)) Z.compare)
          (cmp_on EntryName String.compare).

(** The trace files of the directory, oldest first; [inl] is the error of the
    first entry whose information cannot be read. *)
Fixpoint prune_candidates (entries : list DirEntry) : string + list DirEntry :=
  match entries with
  | [] => inr []
  | e :: entries' =>
    if EntryIsDir e || negb (isTraceFilename (EntryName e)) then prune_candidates entries'
    else match EntryModTime e with
         | None => inl "entry information is unavailable"
         | Some _ => match prune_candidates entries' with
                     | inl err => inl err
                     | inr l => inr (e :: l)
                     end
         end
  end.

Fixpoint prune_loop (n : nat) (candidates : list DirEntry) : RM (option string) :=
  match candidates with
  | [] => mret None
  | e :: candidates' =>
    match n with
    | O => mret None
    | S n' =>
      err ← system (sys_Remove (EntryName e));
      match err with
      | Some _ => mret err
      | None => did (FRemove (EntryName e)) ;; prune_loop n' candidates'
      end
    end
  end.

Definition pruneLocked : RM (option string) :=
  listing ← system sys_ReadDir;
  match listing with
  | inr err => mret (Some err)
  | inl entries =>
    match prune_candidates entries with
    | inl err => mret (Some err)
    | inr candidates =>
      let candidates := merge_sort (cmp_le candidate_cmp) candidates in
      prune_loop (length candidates - Z.to_nat (RetainFiles config)) candidates
    end
  end.

(** [%02d]. *)
Definition pad2 (n : nat) : string :=
  if (n <? 10)%nat then "0" ++s pretty (Z.of_nat n) else pretty (Z.of_nat n).

Definition trace_name (stamp : string) (suffix : nat) (gen : Z) : string :=
  if (suffix =? 0)%nat then "trace-" ++s stamp ++s "-g" ++s pretty gen ++s ".jsonl"
  else "trace-" ++s stamp ++s "-" ++s pad2 suffix ++s "-g" ++s pretty gen ++s ".jsonl".

(** The attempts [suffix], ..., 99; the error of the last one when all exist. *)
Fixpoint open_loop (n suffix : nat) (stamp : string) (gen : Z) (err : option string)
    : RM (option string) :=
  match n with
  | O => mret err
  | S n' =>
    let name := trace_name stamp suffix gen in
    err ← system (sys_OpenFile name);
    match err with
    | None => on_rec (set_file (Some name)) ;; did (FOpen name) ;; mret None
    | Some e =>
      if open_exists e then open_loop n' (S suffix) stamp gen (Some (open_text e))
      else mret (Some (open_text e))
    end
  end.

Definition openGenerationLocked (gen : Z) : RM (option string) :=
  err ← closeFileLocked;
  match err with
  | Some _ => mret err
  | None =>
    on_rec (set_generation gen) ;;
    now ← system sys_Now;
    err ← open_loop 100 0 (sys_stamp now) gen None;
    match err with
    | Some _ => mret err
    | None => pruneLocked
    end
  end.

Definition newline : string := String (byte_of 10) EmptyString.

(** [r.file.Write]: a nil file refuses. *)
Definition write_file (encoded : string) : RM (option string) :=
  err ← system (sys_Write encoded);
  match err with
  | None =>
    did (FWrite encoded) ;;
    on_rec (fun r => set_fileBytes (fileBytes r + len encoded) r) ;;
    mret None
  | Some _ => mret err
  end.

Definition persist_event (event : Event) : RM unit :=
  degraded ← get_rec diskDegraded;
  truncated ← get_rec fileTruncated;
  if (degraded : bool) || truncated then mret tt
  else
  match sys_Marshal event with
  | inr err => appendLoggingFailureLocked (EvGeneration event) "日志序列化失败" err
  | inl text =>
    let encoded := text ++s newline in
    bytes ← get_rec fileBytes;
    if MaxFileBytes config <? bytes + len encoded then
      on_rec set_truncated ;;
      terminal ← prepareLocked (truncatedEvent (EvGeneration event));
      appendMemoryLocked terminal ;;
      match sys_Marshal terminal with
      | inl text =>
        let encoded := text ++s newline in
        bytes ← get_rec fileBytes;
        if bytes + len encoded <=? MaxFileBytes config then
          err ← write_file encoded;
          match err with
          | None => system sys_Sync ;; mret tt
          | Some _ => mret tt
          end
        else mret tt
      | inr _ => mret tt
      end
    else
      err ← write_file encoded;
      match err with
      | Some e => appendLoggingFailureLocked (EvGeneration event) "日志持久化不可用" e
      | None =>
        if EvEvent event =?s EventStarted then mret tt
        else
          err ← system sys_Sync;
          match err with
          | Some e => appendLoggingFailureLocked (EvGeneration event) "日志持久化不可用" e
          | None => mret tt
          end
      end
  end.

Definition persistLocked (event : Event) : RM unit :=
  f ← get_rec file;
  gen ← get_rec fileGeneration;
  if negb (bool_decide (is_Some f)) || negb (gen =? EvGeneration event) then
    err ← openGenerationLocked (EvGeneration event);
    match err with
    | Some e => appendLoggingFailureLocked (EvGeneration event) "日志持久化不可用" e
    | None => persist_event event
    end
  else persist_event event.

(** ** Operations *)
Definition Record_ (event : Event) : RM unit :=
  isClosed ← get_rec closed;
  if isClosed : bool then mret tt
  else
  event ← prepareLocked event;
  match Validate event with
  | Some err => appendLoggingFailureLocked (EvGeneration event) "无效日志事件已丢弃" err
  | None => appendMemoryLocked event ;; persistLocked event
  end.

Definition Close : RM (option string) :=
  isClosed ← get_rec closed;
  if isClosed : bool then mret None
  else on_rec set_closed ;; closeFileLocked.
End Recorder.

(** ** The memory *)
Section Memory.
Context `{TraceSystem}.

Lemma keeps_system {X A} (view : RS -> X) (op : TWorld -> A * TWorld) :
  (forall s w, view (mkRS (rec s) w (ops s)) = view s) -> keeps view (system op).
Proof. intros Hv s. unfold system. destruct (op (tworld s)). apply Hv. Qed.

(** The sequence numbers and the memory. *)
Definition memory_view (s : RS) : Z * list Event := (sequence (rec s), events (rec s)).
(** The open file, its size and what happened to the directory. *)
Definition disk_view (s : RS) : option string * Z * list FileOp :=
  (file (rec s), fileBytes (rec s), ops s).
End Memory.

(** Walks through a body that only touches files. *)
Ltac keeps_go :=
  repeat match goal with
  | |- forall _, _ => intros ?
  | |- keeps _ _ => progress cbv zeta
  | |- keeps _ (_ ≫= _) => apply keeps_bind
  | |- keeps _ (mret _) => apply keeps_ret
  | |- keeps _ (get_rec _) => apply keeps_gets
  | |- keeps _ (system _) => apply keeps_system; done
  | |- keeps _ (did _) => apply keeps_puts; done
  | |- keeps _ (on_rec _) => apply keeps_puts; done
  | |- keeps _ (if ?b then _ else _) => destruct b
  | |- keeps _ (match ?b with _ => _ end) => destruct b
  | |- keeps _ _ => progress eauto
  end.

Section MemoryInvariant.
Context `{TraceSystem} (config : RecorderConfig).

Lemma keeps_closeFile : keeps memory_view closeFileLocked.
Proof. unfold closeFileLocked. keeps_go. Qed.

Lemma keeps_prune_loop n l : keeps memory_view (prune_loop n l).
Proof. revert n. induction l; intros [|n]; simpl; keeps_go. Qed.

Lemma keeps_prune : keeps memory_view (pruneLocked config).
Proof. unfold pruneLocked. pose proof keeps_prune_loop. keeps_go. Qed.

Lemma keeps_open_loop n suffix stamp gen err : keeps memory_view (open_loop n suffix stamp gen err).
Proof. revert suffix err. induction n; intros; simpl; keeps_go. Qed.

Lemma keeps_openGeneration gen : keeps memory_view (openGenerationLocked config gen).
Proof.
  unfold openGenerationLocked. pose proof keeps_closeFile. pose proof keeps_open_loop.
  pose proof keeps_prune. keeps_go.
Qed.

Lemma keeps_write_file b : keeps memory_view (write_file b).
Proof. unfold write_file. keeps_go. Qed.

Definition seq_lt (e1 e2 : Event) : Prop := EvSequence e1 < EvSequence e2.

(** The memory is bounded; its events are valid, with increasing sequence
    numbers that the recorder has given out. *)
Definition memory_ok (r : Recorder) : Prop :=
  Z.of_nat (length (events r)) <= MemoryCapacity config /\
  StronglySorted seq_lt (events r) /\
  Forall (fun e => 1 <= EvSequence e <= sequence r /\ Validate e = None) (events r) /\
  0 <= sequence r.

(** ... and [k] sequence numbers are left before the counter wraps. *)
Definition budget (k : Z) (s : RS) : Prop := memory_ok (rec s) /\ sequence (rec s) + k < 2 ^ 64.

Lemma budget_weaken k k' s : k' <= k -> budget k s -> budget k' s.
Proof. intros ? [? ?]. split; [done|lia]. Qed.

(** An event prepared last: it has the latest number, and none in memory has it. *)
Definition prepared (k : Z) (e : Event) (s : RS) : Prop :=
  budget k s /\ EvSequence e = sequence (rec s) /\
  Forall (fun e' => EvSequence e' < EvSequence e) (events (rec s)) /\ 1 <= EvSequence e.

Hypothesis capacity_positive : 0 < MemoryCapacity config.

Lemma appendMemory_ok k e s :
  prepared k e s -> Validate e = None ->
  budget k (mkRS (set_events (appendMemory config e (events (rec s))) (rec s)) (tworld s) (ops s)).
Proof.
  intros ([(Hl & Hs & Hf & H0) Hk] & He & Hlt & H1) Hv. split; [|exact Hk].
  assert (Happ : forall l, StronglySorted seq_lt l -> Forall (fun e' => EvSequence e' < EvSequence e) l ->
    StronglySorted seq_lt (l ++ [e])).
  { induction l as [|a l IH]; simpl; intros Hsl Hll; [repeat constructor|].
    inversion Hsl; inversion Hll; subst. constructor; [auto|].
    apply Forall_app. split; [done|]. by repeat constructor. }
  unfold memory_ok, appendMemory. cbn [rec set_events events sequence].
  destruct (events (rec s)) as [|a l] eqn:E.
  { cbn [length tail]. destruct (Z.of_nat 0 =? MemoryCapacity config) eqn:Ec; bool_to_prop; [lia|].
    cbn [app length]. split; [lia|]. split; [repeat constructor|]. split; [|done]. apply Forall_singleton. auto with lia. }
  apply Forall_cons in Hf as [Ha Hf]. apply Forall_cons in Hlt as [Hal Hlt].
  inversion Hs as [|? ? Hsl Hal']; subst.
  destruct (_ =? _) eqn:Ec; bool_to_prop; cbn [tail length] in *.
  - split; [rewrite length_app; simpl; lia|]. split; [auto|]. split; [|done].
    apply Forall_app. split; [done|]. apply Forall_singleton. auto with lia.
  - split; [rewrite length_app; simpl; lia|]. split; [by apply (Happ (a :: l)); constructor|].
    split; [|done]. constructor; [done|]. apply Forall_app. split; [done|].
    apply Forall_singleton. auto with lia.
Qed.

(** What preparing an event leaves of it. *)
Definition prepared_fields (ev e : Event) : Prop :=
  EvSchemaVersion e = SchemaVersion /\ EvTimestamp e <> 0 /\ EvTimestampIsUTC e = true /\
  EvLevel e = EvLevel ev /\ EvComponent e = EvComponent ev /\ EvStage e = EvStage ev /\
  EvEvent e = EvEvent ev /\ EvElapsedMS e = EvElapsedMS ev /\ EvResidue e = EvResidue ev /\
  EvMessage e = (SanitizeDetail (EvMessage ev) []).1 /\
  EvDetail e = (SanitizeDetail (EvDetail ev) []).1.

(** The clock never shows the zero instant. *)
Hypothesis clock_nonzero : forall w, (sys_Now w).1 <> 0.

Lemma prepareLocked_ok k ev :
  0 <= k ->
  triple (budget (k + 1)) (prepareLocked ev) (fun e s => prepared k e s /\ prepared_fields ev e).
Proof.
  intros Hk0 s [(Hl & Hs & Hf & H0) Hk].
  pose proof (clock_nonzero (tworld s)) as Hnow.
  unfold prepareLocked, prepared_fields, on_rec, get_rec, system, puts, gets, mbind, StateM_bind, mret, StateM_ret.
  cbn [rec tworld ops set_sequence sequence].
  destruct (sys_Now (tworld s)) as [now w].
  destruct (SanitizeDetail (EvDetail ev) []) as [d t].
  rewrite uint64_incr_small by lia. cbn [fst snd] in *. unfold prepared, budget, memory_ok.
  cbn [rec tworld ops events sequence set_sequence EvSequence].
  split; [|by auto 12]. split; [|split; [done|split]].
  - split; [|lia]. split; [done|]. split; [done|]. split; [|lia].
    eapply Forall_impl; [exact Hf|]. simpl. intros e [? ?]. split; [lia|done].
  - eapply Forall_impl; [exact Hf|]. simpl. lia.
  - lia.
Qed.

(** A prepared event is valid when its words are approved and its message lasts. *)
Lemma prepared_event_valid e ev :
  1 <= EvSequence e -> prepared_fields ev e ->
  string_in approvedLevels (EvLevel ev) = true -> string_in ApprovedComponents (EvComponent ev) = true ->
  string_in ApprovedStages (EvStage ev) = true -> string_in approvedEvents (EvEvent ev) = true ->
  (EvEvent ev =?s EventStarted) && bool_decide (is_Some (EvElapsedMS ev)) = false ->
  (forall x, EvElapsedMS ev = Some x -> 0 <= x) -> EvResidue ev = None ->
  (strings_TrimSpace (SanitizeDetail (EvMessage ev) []).1 =?s "") = false ->
  Validate e = None.
Proof.
  intros H1 (Hv & Ht & Hu & Hl & Hc & Hst & Hev & Hel & Hr & Hm & Hd) Hlv Hc' Hst' Hev' Hs Hel' Hr' Htr.
  unfold Validate. rewrite Hv, Hu, Hl, Hc, Hst, Hev, Hel, Hr, Hm, Hd, Hlv, Hc', Hst', Hev', Hs, Hr', Htr.
  destruct (SanitizeDetail_ok (EvDetail ev) []) as [Hlen _].
  replace (EvSequence e =? 0) with false by lia.
  unfold time_is_zero. replace (EvTimestamp e =? 0) with false by lia.
  replace (MaxDetailBytes <? len (SanitizeDetail (EvDetail ev) []).1) with false by lia.
  rewrite andb_false_r. destruct (EvElapsedMS ev) as [x|]; [|reflexivity].
  specialize (Hel' x eq_refl). replace (x <? 0) with false by lia. reflexivity.
Qed.

Lemma logging_event_valid e ev :
  1 <= EvSequence e -> prepared_fields ev e ->
  string_in approvedLevels (EvLevel ev) = true -> EvComponent ev = ComponentLogging ->
  EvStage ev = StageLoggingDegraded -> EvEvent ev = EventFailed -> EvElapsedMS ev = None ->
  EvResidue ev = None ->
  (strings_TrimSpace (SanitizeDetail (EvMessage ev) []).1 =?s "") = false ->
  Validate e = None.
Proof.
  intros H1 Hp Hlv Hc Hst Hev Hel Hr Htr.
  apply (prepared_event_valid e ev); rewrite ?Hc, ?Hst, ?Hev, ?Hel; done.
Qed.

(** The messages the recorder writes about itself. *)
Definition logging_messages : list string :=
  ["无效日志事件已丢弃"; "日志持久化不可用"; "日志序列化失败"; "日志文件达到大小上限，后续磁盘记录已截断"].

Lemma logging_messages_kept m :
  m ∈ logging_messages -> (strings_TrimSpace (SanitizeDetail m []).1 =?s "") = false.
Proof.
  unfold logging_messages. rewrite !elem_of_cons, elem_of_nil.
  intros [->|[->|[->|[->|[]]]]]; vm_compute; reflexivity.
Qed.

(** A property of the memory that recording keeps, with the sequence numbers that are
    left: it depends on the memory and the counter only, preparing an event uses one
    number, and appending the prepared event restores it. *)
Class MemoryWalk (Inv : Z -> RS -> Prop) (Prep : Z -> Event -> RS -> Prop) : Prop := {
  walk_view k s s' : memory_view s' = memory_view s -> Inv k s -> Inv k s';
  walk_weaken k k' s : k' <= k -> Inv k s -> Inv k' s;
  walk_prepare k ev : 0 <= k ->
    triple (Inv (k + 1)) (prepareLocked ev) (fun e s => Prep k e s /\ prepared_fields ev e);
  walk_prepared k e s : Prep k e s -> Inv k s /\ 1 <= EvSequence e;
  walk_append k e : Validate e = None -> triple (Prep k e) (appendMemoryLocked config e) (fun _ => Inv k)
}.

Section Walk.
Context (Inv : Z -> RS -> Prop) (Prep : Z -> Event -> RS -> Prop) `{!MemoryWalk Inv Prep}.

Lemma walk_keeps {A} (m : RM A) k : keeps memory_view m -> triple (Inv k) m (fun _ => Inv k).
Proof. intros Hm s. apply walk_view, Hm. Qed.

Lemma walk_read {A B} k (m : RM A) (f : A -> RM B) Q :
  keeps memory_view m -> (forall x, triple (Inv k) (f x) Q) -> triple (Inv k) (m ≫= f) Q.
Proof. intros Hm Hf. eapply triple_bind; [by apply walk_keeps|exact Hf]. Qed.

Lemma walk_ret {A} k k' (x : A) : k' <= k -> triple (Inv k) (mret x) (fun _ => Inv k').
Proof. intros Hk s Hs. simpl. by apply (walk_weaken k). Qed.

Lemma walk_logging k ev :
  0 <= k -> string_in approvedLevels (EvLevel ev) = true -> EvComponent ev = ComponentLogging ->
  EvStage ev = StageLoggingDegraded -> EvEvent ev = EventFailed -> EvElapsedMS ev = None ->
  EvResidue ev = None -> EvMessage ev ∈ logging_messages ->
  triple (Inv (k + 1)) (event ← prepareLocked ev; appendMemoryLocked config event) (fun _ => Inv k).
Proof.
  intros Hk Hl Hc Hst Hev Hel Hr Hm. eapply triple_bind; [by apply walk_prepare|].
  intros e s [Hp Hfields]. destruct (walk_prepared k e s Hp). apply walk_append; [|done].
  eapply logging_event_valid; eauto. by apply logging_messages_kept.
Qed.

Lemma walk_failure k gen message detail :
  0 <= k -> message ∈ logging_messages ->
  triple (Inv (k + 1)) (appendLoggingFailureLocked config gen message detail) (fun _ => Inv k).
Proof.
  intros Hk Hm s Hs. unfold appendLoggingFailureLocked.
  assert (Hgo : triple (Inv (k + 1))
    (on_rec set_degraded ;;
     event ← prepareLocked (loggingFailure gen message detail); appendMemoryLocked config event)
    (fun _ => Inv k)).
  { eapply triple_bind; [apply walk_keeps, keeps_puts; done|].
    intros []. by apply walk_logging. }
  specialize (Hgo s Hs). unfold get_rec, gets, mbind at 1, StateM_bind at 1.
  destruct (diskDegraded (rec s)); [|exact Hgo]. simpl. by apply (walk_weaken (k + 1)); [lia|].
Qed.

Lemma walk_persist_event k event :
  0 <= k ->
  triple (Inv (k + 1)) (persist_event config event) (fun _ => Inv k).
Proof.
  intros Hk. assert (Hmsg : forall m, m ∈ logging_messages -> forall gen d,
    triple (Inv (k + 1)) (appendLoggingFailureLocked config gen m d) (fun _ => Inv k))
    by (intros; by apply walk_failure).
  unfold persist_event.
  apply walk_read; [apply keeps_gets|intros degraded].
  apply walk_read; [apply keeps_gets|intros truncated].
  destruct (degraded || truncated); [apply walk_ret; lia|].
  destruct (sys_Marshal event); [|apply Hmsg; set_solver].
  apply walk_read; [apply keeps_gets|intros bytes].
  destruct (_ <? _).
  - apply walk_read; [by apply keeps_puts|intros _].
    eapply triple_bind; [apply (walk_prepare k); lia|].
    intros e s0 [Hp Hf]. revert s0 Hp Hf.
    assert (Hrest : forall e, triple (Inv k)
      (match sys_Marshal e with
       | inl text =>
         let encoded := text ++s newline in
         bytes ← get_rec fileBytes;
         if bytes + len encoded <=? MaxFileBytes config then
           err ← write_file encoded;
           match err with None => system sys_Sync ;; mret tt | Some _ => mret tt end
         else mret tt
       | inr _ => mret tt
       end) (fun _ => Inv k)).
    { intros e'. apply walk_keeps. pose proof keeps_write_file. keeps_go. }
    intros s0 Hp Hf.
    assert (Hv : Validate e = None).
    { destruct (walk_prepared k e s0 Hp). eapply (logging_event_valid e (truncatedEvent (EvGeneration event))); eauto;
        by apply logging_messages_kept; set_solver. }
    exact (triple_bind _ _ _ _ _ (walk_append k e Hv) (fun _ => Hrest e) s0 Hp).
  - apply walk_read; [apply keeps_write_file|intros [err|]]; [apply Hmsg; set_solver|].
    destruct (_ =?s _); [apply walk_ret; lia|].
    apply walk_read; [by apply keeps_system|intros [err|]]; [apply Hmsg; set_solver|].
    apply walk_ret; lia.
Qed.

Lemma walk_persist k event :
  0 <= k -> triple (Inv (k + 1)) (persistLocked config event) (fun _ => Inv k).
Proof.
  intros Hk. unfold persistLocked.
  apply walk_read; [apply keeps_gets|intros f]. apply walk_read; [apply keeps_gets|intros gen].
  destruct (_ || _); [|by apply walk_persist_event].
  apply walk_read; [apply keeps_openGeneration|intros [err|]]; [|by apply walk_persist_event].
  apply walk_failure; [lia|set_solver].
Qed.

Lemma walk_Record k event :
  0 <= k ->
  triple (Inv (k + 1 + 1)) (Record_ config event) (fun _ => Inv k).
Proof.
  intros Hk. unfold Record_. apply walk_read; [apply keeps_gets|intros [|]]; [apply walk_ret; lia|].
  eapply triple_bind; [apply (walk_prepare (k + 1)); lia|].
  intros e s [Hp _]. destruct (Validate e) eqn:Hv.
  - apply walk_failure; [lia|set_solver|exact (proj1 (walk_prepared (k + 1) e s Hp))].
  - exact (triple_bind _ _ _ _ _ (walk_append (k + 1) e Hv) (fun _ => walk_persist k e Hk) s Hp).
Qed.

End Walk.

#[export] Instance budget_walk : MemoryWalk budget prepared.
Proof.
  split.
  - intros k s s' [= H1 H2] [Hm Hk]. unfold budget, memory_ok. by rewrite H1, H2.
  - intros k k' s. apply budget_weaken.
  - intros k ev. apply prepareLocked_ok.
  - intros k e s Hp. split; apply Hp.
  - intros k e Hv s Hs. by apply (appendMemory_ok k e s).
Qed.

Lemma Record_budget k event :
  0 <= k ->
  triple (budget (k + 1 + 1)) (Record_ config event) (fun _ => budget k).
Proof. apply (walk_Record budget prepared). Qed.

Lemma NewRecorder_ok k w : 0 <= k < 2 ^ 64 -> budget k (mkRS NewRecorder w []).
Proof.
  intros Hk. unfold budget, memory_ok. simpl. split; [|lia].
  split; [lia|]. split; [constructor|]. split; [constructor|lia].
Qed.

Lemma record_all_budget evs k s :
  0 <= k -> budget (k + 2 * Z.of_nat (length evs)) s ->
  budget k (fold_left (fun s ev => (Record_ config ev s).2) evs s).
Proof.
  revert s. induction evs as [|ev evs IH]; intros s Hk Hs; cbn [fold_left].
  - by apply (budget_weaken _ k) in Hs; [|cbn [length]; lia].
  - apply IH; [done|]. apply (Record_budget (k + 2 * Z.of_nat (length evs)) ev); [lia|].
    apply (budget_weaken _ _ s) with (2:=Hs). cbn [length]. lia.
Qed.
End MemoryInvariant.

(** ** The trace files *)

(** The sizes of the files opened so far, the last one first. *)
Definition size_step (l : list Z) (o : FileOp) : list Z :=
  match o, l with
  | FOpen _, _ => 0 :: l
  | FWrite b, n :: l' => (n + len b) :: l'
  | FWrite b, [] => [len b]
  | FRemove _, _ => l
  end.

Definition file_sizes (l : list FileOp) : list Z := fold_left size_step l [].

Section Disk.
Context `{TraceSystem} (config : RecorderConfig).

Hypothesis max_positive : 0 < MaxFileBytes config.

(** Every file is within the limit, and the recorder knows the size of the one
    it has open. *)
Definition disk_ok (s : RS) : Prop :=
  Forall (fun n => n <= MaxFileBytes config) (file_sizes (ops s)) /\
  (is_Some (file (rec s)) -> exists l, file_sizes (ops s) = fileBytes (rec s) :: l).

Definition disk_open (s : RS) : Prop := disk_ok s /\ is_Some (file (rec s)).
Definition disk_shut (s : RS) : Prop := disk_ok s /\ file (rec s) = None.

Lemma keeps_disk {A} (m : RM A) (P : RS -> Prop) :
  keeps disk_view m -> (forall s s', disk_view s' = disk_view s -> P s -> P s') ->
  triple P m (fun _ => P).
Proof. intros Hm HP s Hs. eapply HP; [apply Hm|done]. Qed.

Lemma triple_read {A B} (f : Recorder -> A) (k : A -> RM B) (P : RS -> Prop) Q :
  (forall s, P s -> Q (k (f (rec s)) s).1 (k (f (rec s)) s).2) -> triple P (get_rec f ≫= k) Q.
Proof. intros Hk s Hs. exact (Hk s Hs). Qed.

Lemma disk_ok_view s s' : disk_view s' = disk_view s -> disk_ok s -> disk_ok s'.
Proof. intros [= H1 H2 H3] Hs. unfold disk_ok. by rewrite H1, H2, H3. Qed.
Lemma disk_open_view s s' : disk_view s' = disk_view s -> disk_open s -> disk_open s'.
Proof. intros Hv [Hs Hf]. split; [by eapply disk_ok_view|]. by injection Hv as -> _ _. Qed.

Lemma keeps_prepare ev : keeps disk_view (prepareLocked ev).
Proof.
  unfold prepareLocked. keeps_go.
Qed.
Lemma keeps_append ev : keeps disk_view (appendMemoryLocked config ev).
Proof. unfold appendMemoryLocked. keeps_go. Qed.
Lemma keeps_failure gen message detail :
  keeps disk_view (appendLoggingFailureLocked config gen message detail).
Proof.
  unfold appendLoggingFailureLocked. pose proof keeps_prepare. pose proof keeps_append. keeps_go.
Qed.

Lemma file_sizes_app l o : file_sizes (l ++ [o]) = size_step (file_sizes l) o.
Proof. unfold file_sizes. by rewrite fold_left_app. Qed.

Lemma closeFile_disk : triple disk_ok closeFileLocked (fun _ => disk_shut).
Proof.
  assert (Hshut : forall {A} (m : RM A), keeps disk_view m -> triple disk_shut m (fun _ => disk_shut)).
  { intros A m Hm. apply keeps_disk; [done|]. intros s s' Hv [Hs Hf].
    split; [by eapply disk_ok_view|]. by injection Hv as -> _ _. }
  intros s Hs. unfold closeFileLocked, get_rec, gets, mbind at 1, StateM_bind at 1.
  destruct (file (rec s)) eqn:E; [|by split].
  match goal with |- context [(?m s).2] =>
    enough (Hgo : triple disk_ok m (fun _ => disk_shut)) by exact (Hgo s Hs) end.
  eapply (triple_bind _ _ _ (fun _ => disk_shut)).
  - intros s' [Hf _]. split; [|done]. split; [exact Hf|]. intros [? [=]].
  - intros _. apply Hshut. keeps_go.
Qed.

Lemma open_loop_disk n suffix stamp gen err :
  triple (fun s => disk_shut s /\ fileBytes (rec s) = 0 /\ (n <> O \/ is_Some err))
    (open_loop n suffix stamp gen err)
    (fun r s => disk_ok s /\ (r = None -> is_Some (file (rec s)))).
Proof.
  revert suffix err. induction n as [|n IH]; intros suffix err s ([Hd Hs] & Hb & Hn); simpl.
  - split; [done|]. intros ->. destruct Hn as [?|[? ?]]; done.
  - unfold mbind, StateM_bind, system. destruct (sys_OpenFile _ _) as [r w]. destruct r as [e|].
    + destruct (open_exists e).
      * apply IH. split; [exact (conj Hd Hs)|]. split; [exact Hb|]. by right.
      * split; [exact Hd|]. done.
    + unfold on_rec, puts, did, mret, StateM_ret. simpl. split; [|by eexists].
      destruct Hd as [Hf _]. unfold disk_ok. simpl. rewrite file_sizes_app. simpl.
      split; [constructor; [lia|done]|]. intros _. rewrite Hb. by eexists.
Qed.

Lemma prune_loop_ok n l : triple disk_ok (prune_loop n l) (fun _ => disk_ok) /\
  forall s, file (rec (prune_loop n l s).2) = file (rec s).
Proof.
  assert (Hnil : triple disk_ok (mret None : RM (option string)) (fun _ => disk_ok) /\
    forall s, file (rec ((mret None : RM (option string)) s).2) = file (rec s))
    by (split; [intros s Hs; exact Hs|done]).
  revert n. induction l as [|e l IH]; intros [|n]; simpl; try exact Hnil.
  destruct (IH n) as [IH1 IH2].
  split; intros s; unfold mbind, StateM_bind, system; destruct (sys_Remove _ _) as [[err|] w]; try done.
  - intros Hs. apply IH1. destruct Hs as [Hf Hs]. unfold disk_ok. simpl. by rewrite file_sizes_app.
  - unfold did, puts. by rewrite IH2.
Qed.

Lemma prune_disk : triple disk_open (pruneLocked config) (fun _ => disk_open).
Proof.
  unfold pruneLocked. eapply triple_bind; [apply keeps_disk, disk_open_view; by apply keeps_system|].
  intros [entries|err]; [|apply triple_skip]. destruct (prune_candidates entries); [apply triple_skip|].
  intros s [Hs Hf]. match goal with |- context [prune_loop ?n ?l] => destruct (prune_loop_ok n l) as [H1 H2] end.
  split; [by apply H1|]. by rewrite H2.
Qed.

Lemma openGeneration_disk gen :
  triple disk_ok (openGenerationLocked config gen)
    (fun r s => disk_ok s /\ (r = None -> disk_open s)).
Proof.
  unfold openGenerationLocked. eapply triple_bind; [apply closeFile_disk|]. intros [err|].
  { intros s [Hs _]. by split. }
  eapply (triple_bind _ _ _ (fun _ s => disk_shut s /\ fileBytes (rec s) = 0)).
  { intros s [[Hf Hs] Hn]. split; [|done]. split; [|exact Hn]. split; [exact Hf|].
    intros [f Hfile]. unfold on_rec, puts, set_generation in *. simpl in *. congruence. }
  intros []. eapply (triple_bind _ _ _ (fun _ s => disk_shut s /\ fileBytes (rec s) = 0)).
  { intros s Hs. unfold system. by destruct (sys_Now (tworld s)). }
  intros now. eapply triple_bind.
  { eapply triple_weaken; [apply open_loop_disk| |done]. intros s [Hs Hb]. simpl. by auto. }
  intros [err|]; [intros s [Hs _]; by split|].
  eapply triple_weaken; [apply prune_disk| |]; simpl.
  - intros s [Hs Hf]. split; auto.
  - intros r s Hs. split; [apply Hs|auto].
Qed.

Lemma write_file_disk b :
  triple (fun s => disk_open s /\ fileBytes (rec s) + len b <= MaxFileBytes config)
    (write_file b) (fun _ => disk_open).
Proof.
  intros s [[[Hf Hs] Hopen] Hb]. unfold write_file, mbind, StateM_bind, system.
  destruct (sys_Write b (tworld s)) as [[err|] w]; [by split|].
  unfold did, on_rec, puts, mret, StateM_ret. simpl. destruct (Hs Hopen) as [l Hl].
  split; [|done]. unfold disk_ok. simpl. rewrite file_sizes_app, Hl. simpl. rewrite Hl in Hf.
  apply Forall_cons in Hf as [_ Hf]. split; [by constructor|eauto].
Qed.

Lemma persist_event_disk event : triple disk_open (persist_event config event) (fun _ => disk_open).
Proof.
  assert (Hk : forall {A B} (m : RM A) (f : A -> RM B), keeps disk_view m ->
    (forall x, triple disk_open (f x) (fun _ => disk_open)) ->
    triple disk_open (m ≫= f) (fun _ => disk_open)).
  { intros A B m f Hm Hf. eapply triple_bind; [apply keeps_disk, disk_open_view; exact Hm|exact Hf]. }
  assert (Hkeep : forall {A} (m : RM A), keeps disk_view m -> triple disk_open m (fun _ => disk_open))
    by (intros; apply keeps_disk, disk_open_view; done).
  assert (Hwrite : forall b (k : option string -> RM unit) s,
    (forall r, triple disk_open (k r) (fun _ => disk_open)) ->
    disk_open s -> fileBytes (rec s) + len b <= MaxFileBytes config ->
    disk_open ((write_file b ≫= k) s).2).
  { intros b k s Hkk Hs Hb.
    exact (triple_bind _ _ _ _ _ (write_file_disk b) Hkk s (conj Hs Hb)). }
  unfold persist_event. apply Hk; [apply keeps_gets|intros degraded].
  apply Hk; [apply keeps_gets|intros truncated].
  destruct (degraded || truncated); [apply Hkeep, keeps_ret|].
  destruct (sys_Marshal event) as [text|err]; [|apply Hkeep, keeps_failure].
  apply triple_read. intros s Hs. cbv beta zeta. destruct (_ <? _) eqn:E; bool_to_prop.
  - match goal with |- disk_open (?m s).2 =>
      enough (Hgo : triple disk_open m (fun _ => disk_open)) by exact (Hgo s Hs) end.
    apply Hk; [by apply keeps_puts|intros _]. apply Hk; [apply keeps_prepare|intros e].
    apply Hk; [apply keeps_append|intros _]. destruct (sys_Marshal e) as [text'|]; [|apply triple_skip].
    apply triple_read. intros s' Hs'. cbv beta zeta. destruct (_ <=? _) eqn:E'; bool_to_prop; [|exact Hs'].
    apply Hwrite; [|exact Hs'|exact E']. intros [err|]; [apply triple_skip|].
    apply Hk; [by apply keeps_system|intros _; apply triple_skip].
  - apply Hwrite; [|exact Hs|exact E]. intros [err|]; [apply Hkeep, keeps_failure|].
    destruct (_ =?s _); [apply triple_skip|]. apply Hk; [by apply keeps_system|].
    intros [err|]; [apply Hkeep, keeps_failure|apply triple_skip].
Qed.

Lemma disk_keep {A} (m : RM A) : keeps disk_view m -> triple disk_ok m (fun _ => disk_ok).
Proof. intros Hm. apply keeps_disk; [exact Hm|apply disk_ok_view]. Qed.

Lemma persistLocked_disk event : triple disk_ok (persistLocked config event) (fun _ => disk_ok).
Proof.
  assert (Hreopen : forall gen, triple disk_ok
    (err ← openGenerationLocked config gen;
     match err with
     | Some e => appendLoggingFailureLocked config gen "日志持久化不可用" e
     | None => persist_event config event
     end) (fun _ => disk_ok)).
  { intros gen. eapply triple_bind; [apply openGeneration_disk|]. intros [err|].
    - eapply triple_weaken; [apply disk_keep, keeps_failure| |done]. by intros ? [? _].
    - eapply triple_weaken; [apply persist_event_disk| |]; [by intros ? [_ ?]; auto|by intros ?? [? _]]. }
  unfold persistLocked. apply triple_read. intros s Hs.
  destruct (bool_decide (is_Some (file (rec s)))) eqn:Ef; [|exact (Hreopen _ s Hs)].
  apply bool_decide_eq_true in Ef. revert Hs Ef. simpl.
  enough (Hgo : triple disk_open (gen ← get_rec fileGeneration;
    if negb (gen =? EvGeneration event) then
      err ← openGenerationLocked config (EvGeneration event);
      match err with
      | Some e => appendLoggingFailureLocked config (EvGeneration event) "日志持久化不可用" e
      | None => persist_event config event
      end
    else persist_event config event) (fun _ => disk_ok)) by (intros Hs Ef; exact (Hgo s (conj Hs Ef))).
  apply triple_read. intros s' Hs'. cbv beta. destruct (negb _).
  - apply Hreopen, Hs'.
  - by apply (persist_event_disk event s').
Qed.

Lemma Record_disk event : triple disk_ok (Record_ config event) (fun _ => disk_ok).
Proof.
  unfold Record_. eapply triple_bind; [apply disk_keep, keeps_gets|]. intros [|]; [apply triple_skip|].
  eapply triple_bind; [apply disk_keep, keeps_prepare|]. intros e.
  destruct (TraceEvent.Validate e); [apply disk_keep, keeps_failure|].
  eapply triple_bind; [apply disk_keep, keeps_append|]. intros ?. apply persistLocked_disk.
Qed.

Lemma record_all_disk evs s :
  disk_ok s -> disk_ok (fold_left (fun s ev => (Record_ config ev s).2) evs s).
Proof. revert s. induction evs; intros s Hs; simpl; [done|]. apply IHevs. by apply Record_disk. Qed.
End Disk.

(** ** Reading the memory in batches *)
Section Batches.
Context `{TraceSystem} (config : RecorderConfig).

Definition newer (after : Z) (l : list Event) : list Event :=
  filter (fun e => after < EvSequence e) l.

(** The number of the last event, or [after] when there is none. *)
Definition last_sequence (after : Z) (l : list Event) : Z :=
  match last l with Some e => EvSequence e | None => after end.

Lemma newer_cons after e l :
  newer after (e :: l) = if EvSequence e <=? after then newer after l else e :: newer after l.
Proof.
  unfold newer. rewrite filter_cons. case_decide; destruct (_ <=? _) eqn:E; bool_to_prop; try done; lia.
Qed.

Lemma batch_loop_spec after limit l b :
  (length (BatchEvents b) <= limit)%nat -> BatchHasMore b = false ->
  BatchNextSequence b = last_sequence after (BatchEvents b) ->
  batch_loop after limit l b =
    let taken := BatchEvents b ++ take (limit - length (BatchEvents b)) (newer after l) in
    mkBatch taken (last_sequence after taken)
      (bool_decide (limit - length (BatchEvents b) < length (newer after l))%nat)
      (BatchOldestSequence b).
Proof.
  revert b. induction l as [|e l IH]; intros [evs next more oldest] Hlen Hmore Hnext; simpl in *; subst.
  - change (newer after []) with (@nil Event). by rewrite take_nil, app_nil_r.
  - rewrite newer_cons. destruct (EvSequence e <=? after); [by apply IH|].
    destruct (length evs =? limit)%nat eqn:E.
    + apply Nat.eqb_eq in E. by rewrite E, Nat.sub_diag, app_nil_r.
    + apply Nat.eqb_neq in E. rewrite IH; simpl; [|rewrite length_app; simpl; lia|done|].
      * rewrite length_app. simpl. replace (limit - length evs)%nat with (S (limit - (length evs + 1)))%nat by lia.
        simpl. rewrite <- app_assoc. simpl. f_equal. apply bool_decide_ext. lia.
      * unfold last_sequence. by rewrite last_snoc.
Qed.

Lemma newer_all after l : Forall (fun e => after < EvSequence e) l -> newer after l = l.
Proof.
  induction 1 as [|e l He _ IH]; [done|]. rewrite newer_cons, IH.
  by replace (EvSequence e <=? after) with false by (symmetry; apply Z.leb_gt; lia).
Qed.

(** A batch is the first [limit] events after [after], and says whether there
    are more and where to go on. *)
Lemma Batch_spec r after limit :
  0 < limit ->
  let page := take (Z.to_nat limit) (newer after (events r)) in
  BatchEvents (Batch_ r after limit) = page /\
  BatchNextSequence (Batch_ r after limit) = last_sequence after page /\
  BatchHasMore (Batch_ r after limit) =
    bool_decide (Z.to_nat limit < length (newer after (events r)))%nat.
Proof.
  intros Hl. unfold Batch_. destruct (events r) as [|first l] eqn:E.
  - change (newer after []) with (@nil Event). rewrite take_nil. split; [done|]. split; [done|].
    symmetry. apply bool_decide_eq_false, Nat.nlt_0_r.
  - replace (limit <=? 0) with false by (symmetry; apply Z.leb_gt; lia).
    rewrite batch_loop_spec; simpl; [|lia|done|done]. by rewrite Nat.sub_0_r.
Qed.

(** A reader that follows the batches until there are no more. *)
Fixpoint drain (fuel : nat) (r : Recorder) (after limit : Z) : list Event :=
  match fuel with
  | O => []
  | S fuel' =>
    let b := Batch_ r after limit in
    BatchEvents b ++
    (if BatchHasMore b then drain fuel' r (BatchNextSequence b) limit else [])
  end.

Lemma sorted_newer after l : StronglySorted seq_lt l -> StronglySorted seq_lt (newer after l).
Proof.
  induction 1 as [|e l Hs IH Hf]; [constructor|]. rewrite newer_cons.
  destruct (_ <=? _); [done|]. constructor; [done|].
  apply Forall_forall. intros x Hx. apply list_elem_of_filter in Hx as [_ Hx].
  rewrite Forall_forall in Hf. by apply Hf.
Qed.

Lemma newer_newer after after' l :
  after <= after' -> newer after' (newer after l) = newer after' l.
Proof.
  intros Ha. unfold newer. rewrite list_filter_filter_l; [done|]. intros e He. lia.
Qed.

Lemma take_elem {A} (x : A) n l : x ∈ take n l -> x ∈ l.
Proof. intros (i & Hi & _)%elem_of_take. by eapply list_elem_of_lookup_2. Qed.

(** After a page, the newer events are the rest. *)
Lemma newer_page after n l :
  StronglySorted seq_lt l -> Forall (fun e => after < EvSequence e) l ->
  newer (last_sequence after (take n l)) l = drop n l.
Proof.
  intros Hs Hf. revert n after Hf. induction Hs as [|e l Hs IH He]; intros n after Hf.
  - by rewrite take_nil, drop_nil.
  - apply Forall_cons in Hf as [Hae Hf]. destruct n as [|n]; simpl.
    + apply newer_all. by apply Forall_cons.
    + assert (Hlast : last_sequence after (e :: take n l) = last_sequence (EvSequence e) (take n l)).
      { unfold last_sequence. rewrite last_cons. by destruct (last (take n l)). }
      assert (Hge : EvSequence e <= last_sequence (EvSequence e) (take n l)).
      { unfold last_sequence. destruct (last (take n l)) as [x|] eqn:E; [|lia].
        apply last_Some_elem_of in E. rewrite Forall_forall in He.
        assert (Hx : seq_lt e x) by (apply He; by eapply take_elem).
        unfold seq_lt in Hx. lia. }
      rewrite newer_cons, Hlast. replace (_ <=? _) with true by (symmetry; apply Z.leb_le; lia).
      by apply IH.
Qed.

Lemma newer_after_page after n l :
  StronglySorted seq_lt l ->
  newer (last_sequence after (take n (newer after l))) l = drop n (newer after l).
Proof.
  intros Hs. set (a' := last_sequence _ _).
  assert (Hf : Forall (fun e => after < EvSequence e) (newer after l)).
  { apply Forall_forall. intros e He. by apply list_elem_of_filter in He as [? _]. }
  assert (Ha : after <= a').
  { unfold a', last_sequence. destruct (last _) as [x|] eqn:E; [|lia].
    apply last_Some_elem_of in E. rewrite Forall_forall in Hf.
    assert (after < EvSequence x); [|lia]. apply Hf. by eapply take_elem. }
  rewrite <- (newer_newer after a' l Ha). apply newer_page; [by apply sorted_newer|done].
Qed.

Lemma drain_spec fuel r after limit :
  0 < limit -> StronglySorted seq_lt (events r) -> (length (newer after (events r)) < fuel)%nat ->
  drain fuel r after limit = newer after (events r).
Proof.
  intros Hl Hs. revert after. induction fuel as [|fuel IH]; intros after Hf; [lia|].
  cbn [drain]. destruct (Batch_spec r after limit Hl) as (-> & -> & ->).
  set (n := Z.to_nat limit) in *. assert (Hn : (0 < n)%nat) by lia.
  case_bool_decide as Hmore.
  - rewrite IH; rewrite newer_after_page by done; [apply take_drop|].
    rewrite length_drop. lia.
  - rewrite app_nil_r. apply firstn_all2. lia.
Qed.
End Batches.

(** ** Pruning and degradation *)
Section Files.
Context `{TraceSystem} (config : RecorderConfig).

Definition is_candidate (e : DirEntry) : bool := negb (EntryIsDir e) && isTraceFilename (EntryName e).

Lemma prune_candidates_spec entries l :
  prune_candidates entries = inr l -> l = filter (fun e => is_candidate e = true) entries.
Proof.
  revert l. induction entries as [|e es IH]; intros l; simpl; [by intros [= <-]|].
  rewrite filter_cons. case_decide as Hc; unfold is_candidate in Hc;
    destruct (EntryIsDir e), (isTraceFilename (EntryName e)); simpl in *; try done; auto.
  destruct (EntryModTime e); [|done].
  destruct (prune_candidates es); [done|]. intros [= <-]. f_equal. auto.
Qed.

Lemma prune_loop_spec n l s :
  exists k, (k <= n)%nat /\
    ops (prune_loop n l s).2 = ops s ++ map (fun e => FRemove (EntryName e)) (take k l) /\
    ((prune_loop n l s).1 = None -> k = n \/ (length l <= k)%nat).
Proof.
  revert n s. induction l as [|e l IH]; intros [|n] s; simpl;
    try (exists O; by rewrite ?app_nil_r; auto with lia).
  unfold mbind, StateM_bind, system. destruct (sys_Remove _ _) as [[err|] w]; simpl.
  - exists O. rewrite app_nil_r. split; [lia|done].
  - destruct (IH n (mkRS (rec s) w (ops s ++ [FRemove (EntryName e)]))) as (k & Hk & Ho & Hr).
    exists (S k). split; [lia|]. unfold did, puts. simpl. rewrite Ho. simpl.
    rewrite <- app_assoc. split; [done|]. intros Hn. destruct (Hr Hn); [left|right]; lia.
Qed.

Lemma candidates_sorted l :
  StronglySorted (cmp_le candidate_cmp) (merge_sort (cmp_le candidate_cmp) l).
Proof. apply StronglySorted_merge_sort; apply _. Qed.

(** What pruning removes and keeps of the trace files of a directory. *)
Definition pruned (entries removed kept : list DirEntry) : Prop :=
  filter (fun e => is_candidate e = true) entries ≡ₚ removed ++ kept /\
  forall x y, x ∈ removed -> y ∈ kept -> cmp_le candidate_cmp x y.

Lemma prune_spec s entries w :
  sys_ReadDir (tworld s) = (inl entries, w) ->
  exists removed,
    ops (pruneLocked config s).2 = ops s ++ map (fun e => FRemove (EntryName e)) removed /\
    (removed = [] \/ exists kept, pruned entries removed kept) /\
    ((pruneLocked config s).1 = None -> exists kept, pruned entries removed kept /\
       (length kept <= Z.to_nat (RetainFiles config))%nat /\
       (removed <> [] -> length kept = Z.to_nat (RetainFiles config)%nat)).
Proof.
  intros Hr. unfold pruneLocked, mbind, StateM_bind, system. rewrite Hr.
  destruct (prune_candidates entries) as [err|l] eqn:Hl.
  { exists []. simpl. rewrite app_nil_r. split; [done|]. split; [by left|done]. }
  apply prune_candidates_spec in Hl. subst l. set (l := merge_sort _ _).
  destruct (prune_loop_spec (length l - Z.to_nat (RetainFiles config)) l
    (mkRS (rec s) w (ops s))) as (k & Hk & Ho & Hn).
  assert (Hp : pruned entries (take k l) (drop k l)).
  { split; [rewrite take_drop; unfold l; by rewrite merge_sort_Permutation|].
    intros x y. pose proof (candidates_sorted (filter (fun e => is_candidate e = true) entries)) as Hs.
    fold l in Hs. rewrite <- (take_drop k l) in Hs. intros Hx Hy.
    by apply (StronglySorted_app_1_elem_of _ _ _ _ _ Hs Hx Hy). }
  exists (take k l). split; [exact Ho|]. split; [by right; eexists|].
  intros Hnone. exists (drop k l). split; [done|]. rewrite length_drop.
  split; [destruct (Hn Hnone); lia|]. intros Hne.
  assert (k <> O) by (intros ->; done). destruct (Hn Hnone); lia.
Qed.

(** The part of a state a degraded recorder leaves alone. *)
Definition degraded_view (s : RS) : bool * option string * Z * bool * list FileOp :=
  (diskDegraded (rec s), file (rec s), fileGeneration (rec s), closed (rec s), ops s).

Lemma prepare_fields ev s :
  EvMessage (prepareLocked ev s).1 = (SanitizeDetail (EvMessage ev) []).1 /\
  EvGeneration (prepareLocked ev s).1 = EvGeneration ev /\
  degraded_view (prepareLocked ev s).2 = degraded_view s.
Proof.
  unfold prepareLocked, on_rec, get_rec, system, puts, gets, mbind, StateM_bind, mret, StateM_ret.
  cbn [rec tworld ops]. destruct (sys_Now (tworld s)). by destruct (SanitizeDetail (EvDetail ev) []).
Qed.

Lemma blank_message_invalid e : strings_TrimSpace (EvMessage e) = "" -> Validate e <> None.
Proof.
  intros Hm. unfold Validate. rewrite Hm. simpl. repeat case_match; done.
Qed.

Lemma failure_degrades gen message detail s :
  diskDegraded (rec (appendLoggingFailureLocked config gen message detail s).2) = true /\
  file (rec (appendLoggingFailureLocked config gen message detail s).2) = file (rec s) /\
  fileGeneration (rec (appendLoggingFailureLocked config gen message detail s).2) = fileGeneration (rec s) /\
  closed (rec (appendLoggingFailureLocked config gen message detail s).2) = closed (rec s) /\
  ops (appendLoggingFailureLocked config gen message detail s).2 = ops s.
Proof.
  remember (appendLoggingFailureLocked config gen message detail s) as r eqn:Hr. revert Hr.
  unfold appendLoggingFailureLocked, get_rec, gets. unfold mbind at 1, StateM_bind at 1.
  destruct (diskDegraded (rec s)) eqn:E; [by intros ->|]. unfold mbind, StateM_bind, on_rec at 1, puts at 1.
  set (s1 := mkRS _ _ _). pose proof (prepare_fields (loggingFailure gen message detail) s1) as (_ & _ & Hv).
  destruct (prepareLocked _ s1) as [e s2]. simpl in Hv. injection Hv as H1 H2 H3 H4 H5.
  unfold appendMemoryLocked, on_rec, puts. intros ->. simpl. by rewrite H1, H2, H3, H4, H5.
Qed.

Lemma degraded_record ev s f :
  diskDegraded (rec s) = true -> file (rec s) = Some f -> fileGeneration (rec s) = EvGeneration ev ->
  ops (Record_ config ev s).2 = ops s.
Proof.
  intros Hd Hf Hg. unfold Record_, get_rec, gets. unfold mbind at 1, StateM_bind at 1.
  destruct (closed (rec s)); [done|]. unfold mbind at 1, StateM_bind at 1.
  destruct (prepare_fields ev s) as (_ & Hge & Hv). destruct (prepareLocked ev s) as [e s1].
  simpl in Hge, Hv. injection Hv as H1 H2 H3 _ H5. destruct (Validate e).
  - by rewrite (proj2 (proj2 (proj2 (proj2 (failure_degrades _ _ _ s1))))).
  - unfold mbind, StateM_bind, appendMemoryLocked, on_rec, puts, persistLocked, persist_event,
      get_rec, gets, mbind, StateM_bind. simpl.
    rewrite H2, Hf, H3, Hg, Hge, Z.eqb_refl. simpl. rewrite H1, Hd. simpl. exact H5.
Qed.
End Files.

(** ** Properties *)
Section Properties.
Context `{TraceSystem} (config : RecorderConfig).

(** A run of the recorder over the events it is given. *)
Definition record_all (evs : list Event) (w : TWorld) : RS :=
  fold_left (fun s ev => (Record_ config ev s).2) evs (mkRS NewRecorder w []).

(** Whatever events it is given and whatever the disk does, the recorder's
    memory never exceeds its capacity, and the events in it are valid and carry
    strictly increasing sequence numbers (as long as the 64-bit counter does
    not wrap). *)
Theorem recorder_memory_ok evs w :
  config_ok config = true -> (forall w, (sys_Now w).1 <> 0) ->
  2 * Z.of_nat (length evs) < 2 ^ 64 ->
  memory_ok config (rec (record_all evs w)).
Proof.
  intros Hc Hnow Hn. unfold config_ok in Hc. bool_to_prop.
  refine (proj1 (record_all_budget config _ Hnow evs 0 _ _ _)); [done|done|].
  apply NewRecorder_ok; lia.
Qed.


(** Reading the memory page by page, each page from where the last one ended,
    yields every event after [after] exactly once and in order. *)
Theorem batches_lose_nothing r after limit :
  memory_ok config r -> 0 < limit ->
  drain (S (length (events r))) r after limit = newer after (events r).
Proof.
  intros (_ & Hs & _) Hl. apply drain_spec; [done|done|].
  apply Nat.lt_succ_r. unfold newer. apply length_filter.
Qed.

(** Pruning removes the oldest trace files and nothing else, and when it
    succeeds at most [RetainFiles] are left. *)
Theorem prune_keeps_the_newest s entries w :
  sys_ReadDir (tworld s) = (inl entries, w) ->
  exists removed,
    ops (pruneLocked config s).2 = ops s ++ map (fun e => FRemove (EntryName e)) removed /\
    (removed = [] \/ exists kept, pruned entries removed kept) /\
    ((pruneLocked config s).1 = None -> exists kept, pruned entries removed kept /\
       (length kept <= Z.to_nat (RetainFiles config))%nat /\
       (removed <> [] -> length kept = Z.to_nat (RetainFiles config)%nat)).
Proof. apply prune_spec. Qed.

(** One invalid event stops the persistence of its whole generation: the
    recorder marks the disk as degraded although the disk is fine, and every
    later event of the generation leaves the trace directory untouched. *)
Theorem invalid_event_stops_persistence ev ev' s f :
  closed (rec s) = false -> file (rec s) = Some f ->
  fileGeneration (rec s) = EvGeneration ev' ->
  strings_TrimSpace (SanitizeDetail (EvMessage ev) []).1 = "" ->
  let s1 := (Record_ config ev s).2 in
  ops (Record_ config ev' s1).2 = ops s.
Proof.
  intros Hc Hf Hg Hm s1. assert (Hs1 : diskDegraded (rec s1) = true /\ file (rec s1) = Some f /\
    fileGeneration (rec s1) = EvGeneration ev' /\ ops s1 = ops s).
  { unfold s1. remember (Record_ config ev s) as r eqn:Hr. revert Hr.
    unfold Record_, get_rec, gets. unfold mbind at 1, StateM_bind at 1.
    rewrite Hc. unfold mbind, StateM_bind. destruct (prepare_fields ev s) as (Hmsg & Hge & Hv).
    destruct (prepareLocked ev s) as [e s2]. cbn [fst snd] in Hmsg, Hge, Hv.
    rewrite <- Hmsg in Hm. apply blank_message_invalid in Hm. destruct (Validate e); [|done].
    destruct (failure_degrades config (EvGeneration e) "无效日志事件已丢弃" s0 s2)
      as (H1 & H2 & H3 & _ & H5).
    unfold degraded_view in Hv. injection Hv as _ V2 V3 _ V5. intros ->. rewrite H2, H3, H5, V2, V3, V5. auto. }
  destruct Hs1 as (H1 & H2 & H3 & H4). rewrite <- H4. by apply (degraded_record config ev' s1 f).
Qed.
End Properties.

(** ** A concrete recorder *)
Definition demo_config : RecorderConfig := mkRecorderConfig "traces" 3 4096 2.

(** A world that lists three old trace files and accepts everything. *)
Definition demo_entries : list DirEntry :=
  [mkDirEntry "trace-20250102T030405.000000006Z-g3.jsonl" false (Some 3);
   mkDirEntry "readme.txt" false (Some 1);
   mkDirEntry "trace-20250102T030405.000000006Z-g1.jsonl" false (Some 1);
   mkDirEntry "trace-20250102T030405.000000006Z-g2.jsonl" false (Some 2)].

#[export] Instance demo_traces : TraceSystem := {|
  TWorld := unit;
  sys_Now := fun w => (Second, w);
  sys_stamp := fun _ => "20250102T030405.000000006Z";
  sys_Marshal := fun e => inl (EvMessage e);
  sys_OpenFile := fun _ w => (None, w);
  sys_Write := fun _ w => (None, w);
  sys_Sync := fun w => (None, w);
  sys_Close := fun w => (None, w);
  sys_ReadDir := fun w => (inl demo_entries, w);
  sys_Remove := fun _ w => (None, w)
|}.

Definition demo_world : TWorld := tt.

Definition demo_event (message : string) : Event :=
  mkEvent 0 0 0 false 7 LevelInfo ComponentCore StageCoreStart EventState None message "" false None.

Definition demo_events : list Event := map demo_event ["one"; "two"; "three"; "four"].
Definition demo_run : RS := record_all demo_config demo_events demo_world.

Example demo_memory :
  map EvMessage (events (rec demo_run)) = ["two"; "three"; "four"] /\ map EvSequence (events (rec demo_run)) = [2; 3; 4].
Proof. vm_compute. by split. Qed.

Lemma recorder_memory_ok_witness : memory_ok demo_config (rec demo_run).
Proof.
  apply (recorder_memory_ok demo_config demo_events demo_world); [reflexivity|done|reflexivity].
Defined.


Lemma demo_memory_ok : memory_ok demo_config (rec demo_run).
Proof.
  assert (Hb : budget demo_config 0 demo_run); [|exact (proj1 Hb)].
  apply record_all_budget.
  - reflexivity.
  - done.
  - lia.
  - apply NewRecorder_ok; [reflexivity|]. simpl. lia.
Qed.

Lemma batches_lose_nothing_witness :
  map EvMessage (drain (S (length (events (rec demo_run)))) (rec demo_run) 2 1) = ["three"; "four"].
Proof.
  rewrite (batches_lose_nothing demo_config (rec demo_run) 2 1 demo_memory_ok);
    [vm_compute; reflexivity|reflexivity].
Defined.

Lemma prune_keeps_the_newest_witness :
  exists removed, (pruneLocked demo_config demo_run).1 = None /\   ops (pruneLocked demo_config demo_run).2 =
      ops demo_run ++ map (fun e => FRemove (EntryName e)) removed.
Proof.
  destruct (prune_keeps_the_newest demo_config demo_run demo_entries demo_world eq_refl) as (removed & Ho & _).
  exists removed. split; [vm_compute; reflexivity|exact Ho].
Defined.

Lemma invalid_event_stops_persistence_witness :
  ops (Record_ demo_config (demo_event "five") (Record_ demo_config (demo_event "") demo_run).2).2
  = ops demo_run.
Proof.
  apply (invalid_event_stops_persistence demo_config (demo_event "") (demo_event "five") demo_run
           "trace-20250102T030405.000000006Z-g7.jsonl"); vm_compute; reflexivity.
Defined.
