(* ===== verification/LineProbe.v ===== *)
(** * Line probes ([internal/lineprobe], probe.go, targets.go, aggregate.go)

    One HTTPS probe of a target, and the aggregation of rounds of probes into a
    line quality.  The HTTP client and the clock are parameters; the world
    they act on is threaded through.  An error of the client is the record of
    what [errors.Is] and [errors.As] find in it. *)
From stdpp Require Import sorting.
From S2P Require Import Prelude GoText.

#[local] Open Scope string_scope.
#[local] Open Scope Z_scope.

(** ** Targets (targets.go) *)
Record Target := mkTarget { TargetID : string; TargetURL : string }.

Definition Targets : list Target := [
  mkTarget "google" "https://www.google.com/";
  mkTarget "pinterest" "https://www.pinterest.com/";
  mkTarget "gemini" "https://gemini.google.com/";
  mkTarget "chatgpt" "https://chatgpt.com/";
  mkTarget "claude" "https://claude.ai/";
  mkTarget "tiktok" "https://www.tiktok.com/";
  mkTarget "amazon" "https://www.amazon.com/";
  mkTarget "facebook" "https://www.facebook.com/"
].

(** ** Results (probe.go) *)
Record Result := mkResult {
  ResID : string;
  LatencyMS : Z;
  Reachable : bool;
  HTTPStatus : Z;
  ErrorCode : string;
  CheckedAt : Z;
  ConsecutiveFailures : option Z
}.

Definition RoundBudget : Z := 5 * Second.

(** What the code asks of an error of [client.Do]. *)
Record HttpError := mkHttpError {
  is_EOF : bool;
  is_UnexpectedEOF : bool;
  is_DeadlineExceeded : bool;
  is_Canceled : bool;
  as_CertificateVerification : bool;
  as_UnknownAuthority : bool;
  as_NetError : option bool  (** [errors.As] a [net.Error], and its [Timeout()] *)
}.

(** A request that [http.NewRequestWithContext] built. *)
Record HttpRequest := mkHttpRequest { URLScheme : string; URLHasUser : bool }.

Class ProbeSystem := {
  PWorld : Type;
  prober_now : PWorld -> Z * PWorld;
  http_NewRequest : string -> string -> option HttpRequest;
  client_Do : string -> HttpRequest -> PWorld -> (Z + HttpError) * PWorld
}.

Definition MethodHead : string := "HEAD".
Definition MethodGet : string := "GET".
Definition StatusMethodNotAllowed : Z := 405.

Definition probeError (err : HttpError) : string :=
  if is_DeadlineExceeded err then "timeout"
  else if is_Canceled err then "canceled"
  else if as_CertificateVerification err || as_UnknownAuthority err then "tls_error"
  else match as_NetError err with
       | Some true => "timeout"
       | _ => "network_error"
       end.

(** The measured latency, cut to [0, RoundBudget]. *)
Definition clamp_latency (ms : Z) : Z :=
  let ms := if ms <? 0 then 0 else ms in
  if milliseconds RoundBudget <? ms then milliseconds RoundBudget else ms.

Section Probe.
Context `{ProbeSystem}.

Definition PM : Type -> Type := StateM PWorld.

(** The loop over the methods; a [continue] is the recursive call. *)
Fixpoint probe_loop (target : Target) (methods : list string) (result : Result) : PM Result :=
  match methods with
  | [] => mret result
  | method :: rest =>
      started ← (prober_now : PM Z);
      let result := mkResult (ResID result) (LatencyMS result) (Reachable result)
                      (HTTPStatus result) (ErrorCode result) started (ConsecutiveFailures result) in
      match http_NewRequest method (TargetURL target) with
      | Some request =>
          if negb (URLScheme request =?s "https") || URLHasUser request then
            mret (mkResult (ResID result) (LatencyMS result) (Reachable result)
                    (HTTPStatus result) "invalid_target" started (ConsecutiveFailures result))
          else
          response ← (client_Do method request : PM (Z + HttpError));
          now ← (prober_now : PM Z);
          let latency := clamp_latency (milliseconds (time_sub now started)) in
          match response with
          | inr err =>
              if (method =?s MethodHead) && (is_EOF err || is_UnexpectedEOF err) then
                probe_loop target rest
                  (mkResult (ResID result) latency (Reachable result)
                    (HTTPStatus result) (ErrorCode result) started (ConsecutiveFailures result))
              else
                mret (mkResult (ResID result) latency false
                        (HTTPStatus result) (probeError err) started (ConsecutiveFailures result))
          | inl status =>
              let reachable := (200 <=? status) && (status <? 500) in
              let code := if reachable then ErrorCode result else "http_server_error" in
              let result := mkResult (ResID result) latency reachable status code started
                              (ConsecutiveFailures result) in
              if negb (status =? StatusMethodNotAllowed) || (method =?s MethodGet) then mret result
              else probe_loop target rest result
          end
      | None =>
          mret (mkResult (ResID result) (LatencyMS result) (Reachable result)
                  (HTTPStatus result) "invalid_target" started (ConsecutiveFailures result))
      end
  end.

Definition Probe (target : Target) : PM Result :=
  probe_loop target [MethodHead; MethodGet] (mkResult (TargetID target) 0 false 0 "" 0 None).
End Probe.

(** ** Aggregation of rounds (aggregate.go) *)
Record Aggregate := mkAggregate { failures : gmap string Z; agg_quality : string }.

Definition new_aggregate : Aggregate := mkAggregate ∅ "".

(** Reading a Go map: the zero value when the key is absent. *)
Definition count_of (m : gmap string Z) (id : string) : Z := default 0 (m !! id).

Definition healthy (r : Result) : bool :=
  Reachable r && (200 <=? HTTPStatus r) && (HTTPStatus r <? 500).

(** The counter of one result. *)
Definition count_result (m : gmap string Z) (r : Result) : gmap string Z :=
  if healthy r then <[ResID r := 0]> m
  else if count_of m (ResID r) <? 3 then <[ResID r := count_of m (ResID r) + 1]> m
  else m.

Definition with_failures (r : Result) (n : Z) : Result :=
  mkResult (ResID r) (LatencyMS r) (Reachable r) (HTTPStatus r) (ErrorCode r) (CheckedAt r) (Some n).

(** The loop: the counters, how many targets failed three times, the latencies
    of the healthy ones and the annotated results. *)
Fixpoint update_loop (m : gmap string Z) (results : list Result)
  : gmap string Z * nat * list Z * list Result :=
  match results with
  | [] => (m, 0%nat, [], [])
  | r :: rest =>
      let m := count_result m r in
      let count := count_of m (ResID r) in
      let '(m', sustained, latencies, out) := update_loop m rest in
      (m', (if 3 <=? count then S sustained else sustained),
       (if healthy r then LatencyMS r :: latencies else latencies),
       with_failures r count :: out)
  end.

Definition Update (a : Aggregate) (results : list Result) : string * list Result * Aggregate :=
  let '(m, sustained, latencies, out) := update_loop (failures a) results in
  let half := (length results / 2)%nat in
  if (half <? sustained)%nat then ("failed", out, mkAggregate m "failed")
  else if (length latencies <=? half)%nat then
    ((if agg_quality a =?s "" then "unknown" else agg_quality a), out, mkAggregate m (agg_quality a))
  else
    let latencies := merge_sort Z.le latencies in
    let quality := if 1000 <=? default 0 (latencies !! (length latencies / 2)%nat)
                   then "slow" else "good" in
    (quality, out, mkAggregate m quality).

(** ** What one probe reports *)
Definition probe_codes : list string :=
  ["timeout"; "canceled"; "tls_error"; "network_error"; "invalid_target"; "http_server_error"].

(** The contract of a result: its latency is within the budget, a reachable
    target has a status of 200 to 499 and no error code, an unreachable one has
    one of the fixed codes, and the failure counter is left to the round. *)
Definition probe_result_ok (target : Target) (r : Result) : Prop :=
  ResID r = TargetID target /\
  0 <= LatencyMS r <= 5000 /\
  ConsecutiveFailures r = None /\
  (if Reachable r then 200 <= HTTPStatus r < 500 /\ ErrorCode r = ""
   else ErrorCode r ∈ probe_codes).

Section ProbeProofs.
Context `{ProbeSystem}.

Lemma clamp_latency_range ms : 0 <= clamp_latency ms <= 5000.
Proof.
  unfold clamp_latency. change (milliseconds RoundBudget) with 5000.
  cbv zeta. destruct (ms <? 0) eqn:E; [done|]. case_match; bool_to_prop; lia.
Qed.

Lemma probeError_code err : probeError err ∈ probe_codes.
Proof.
  unfold probeError. repeat case_match; unfold probe_codes; set_solver.
Qed.

(** Whether a request can be built does not depend on which of the two methods
    it has: both are valid tokens, so only the URL matters. *)
Hypothesis NewRequest_method : forall url,
  http_NewRequest MethodGet url = http_NewRequest MethodHead url.

(** The branches of one iteration that return. *)
Lemma probe_get_ok target r w request :
  http_NewRequest MethodGet (TargetURL target) = Some request ->
  negb (URLScheme request =?s "https") || URLHasUser request = false ->
  ResID r = TargetID target -> ConsecutiveFailures r = None -> ErrorCode r = "" ->
  probe_result_ok target (probe_loop target [MethodGet] r w).1.
Proof.
  intros Hr Hu Hid Hc He. cbn [probe_loop]. unfold mbind, StateM_bind.
  destruct (prober_now w) as [started w1]. rewrite Hr, Hu.
  destruct (client_Do _ _ w1) as [response w2]. destruct (prober_now w2) as [now w3].
  cbv zeta. destruct response as [status|err].
  - change (MethodGet =?s MethodGet)%go with true. rewrite orb_true_r.
    unfold probe_result_ok. cbn [ResID LatencyMS Reachable HTTPStatus ErrorCode ConsecutiveFailures fst mret StateM_ret].
    split_and!; [done|apply clamp_latency_range|apply clamp_latency_range|done|].
    destruct ((200 <=? status) && (status <? 500)) eqn:E; [bool_to_prop; auto|].
    unfold probe_codes; set_solver.
  - change (MethodGet =?s MethodHead)%go with false.
    unfold probe_result_ok. cbn [ResID LatencyMS Reachable HTTPStatus ErrorCode ConsecutiveFailures fst mret StateM_ret andb].
    split_and!; [done|apply clamp_latency_range|apply clamp_latency_range|done|apply probeError_code].
Qed.

Lemma Probe_ok target w : probe_result_ok target (Probe target w).1.
Proof.
  unfold Probe. cbn [probe_loop]. unfold mbind, StateM_bind.
  destruct (prober_now w) as [started w1].
  destruct (http_NewRequest MethodHead (TargetURL target)) as [request|] eqn:Hr;
    [|repeat split; try done; unfold probe_codes; set_solver].
  destruct (negb _ || _) eqn:Hu; [repeat split; try done; unfold probe_codes; set_solver|].
  destruct (client_Do _ _ w1) as [response w2]. destruct (prober_now w2) as [now w3].
  cbv zeta. change (MethodHead =?s MethodHead)%go with true. change (MethodHead =?s MethodGet)%go with false.
  destruct response as [status|err].
  - rewrite orb_false_r. destruct (status =? StatusMethodNotAllowed) eqn:Es.
    + apply Z.eqb_eq in Es. subst status.
      apply (probe_get_ok target _ w3 request); [by rewrite NewRequest_method|done|done|done|done].
    + unfold probe_result_ok. cbn [ResID LatencyMS Reachable HTTPStatus ErrorCode ConsecutiveFailures fst mret StateM_ret negb].
      split_and!; [done|apply clamp_latency_range|apply clamp_latency_range|done|].
      destruct ((200 <=? status) && (status <? 500)) eqn:E; [bool_to_prop; auto|].
      unfold probe_codes; set_solver.
  - rewrite andb_true_l. destruct (is_EOF err || is_UnexpectedEOF err).
    + apply (probe_get_ok target _ w3 request); [by rewrite NewRequest_method|done|done|done|done].
    + unfold probe_result_ok. cbn [ResID LatencyMS Reachable HTTPStatus ErrorCode ConsecutiveFailures fst mret StateM_ret].
      split_and!; [done|apply clamp_latency_range|apply clamp_latency_range|done|apply probeError_code].
Qed.
End ProbeProofs.

(** ** What the aggregate remembers

    The reference: the history of a target is the list of its rounds, and its
    streak is the number of failed rounds since the last healthy one. *)
Definition healthy_in (id : string) (round : list Result) : bool :=
  existsb (fun r => (ResID r =?s id) && healthy r) round.

Definition streak (id : string) (rounds : list (list Result)) : Z :=
  fold_left (fun n round => if healthy_in id round then 0 else n + 1) rounds 0.

(** The aggregate after some rounds. *)
Definition updates (rounds : list (list Result)) : Aggregate :=
  fold_left (fun a round => (Update a round).2) rounds new_aggregate.

(** The quality of a round, from the streaks of the targets and the latencies of
    the round alone: failed when more than half of the targets are failing,
    unchanged when at most half of them answered, and otherwise slow exactly
    when at most half of the answers took less than a second. *)
Definition quality_of (previous : string) (failing : nat) (round : list Result) : string :=
  let answered := filter (fun r => healthy r = true) round in
  let fast := filter (fun r => LatencyMS r < 1000) answered in
  if (length round <? 2 * failing)%nat then "failed"
  else if (2 * length answered <=? length round)%nat then previous
  else if (2 * length fast <=? length answered)%nat then "slow"
  else "good".

Section AggregateProofs.

(** The element in the middle of a sorted list is at least [b] exactly when no
    more than that many elements are below [b]. *)
Lemma sorted_middle (b : Z) (l : list Z) k x :
  Sorted Z.le l -> l !! k = Some x ->
  b <= x <-> (length (filter (fun z => (z < b)%Z) l) <= k)%nat.
Proof.
  intros Hs. apply Sorted_StronglySorted in Hs; [|intros ???; lia].
  revert k. induction Hs as [|y l Hl IH Hy]; intros k Hk; [done|].
  destruct k as [|k]; simpl in Hk.
  - injection Hk as ->. destruct (decide (x < b)).
    + rewrite filter_cons_True by done. cbn [length]. lia.
    + rewrite filter_cons_False by done. split; [|lia]. intros _.
      assert (Hn : filter (fun z => z < b) l = []); [|by rewrite Hn].
      clear IH Hl. induction Hy as [|z l' Hz Hy' IH']; [done|].
      rewrite filter_cons_False; [done|]. lia.
  - rewrite (IH k Hk). rewrite Forall_forall in Hy.
    assert (y <= x) by (apply Hy; by eapply list_elem_of_lookup_2).
    destruct (decide (y < b)).
    + rewrite filter_cons_True by done. cbn [length]. lia.
    + rewrite filter_cons_False by done. split; [lia|].
      intros _. apply (IH k Hk). lia.
Qed.

(** The counter of another target. *)
Lemma count_result_other m r id : id <> ResID r -> count_of (count_result m r) id = count_of m id.
Proof.
  intros Hid. unfold count_result, count_of. repeat case_match; by rewrite ?lookup_insert_ne.
Qed.

Definition step_count (n : Z) (ok : bool) : Z := if ok then 0 else if n <? 3 then n + 1 else n.

Lemma count_result_same m r :
  count_of (count_result m r) (ResID r) = step_count (count_of m (ResID r)) (healthy r).
Proof.
  unfold count_result, step_count. destruct (healthy r); [unfold count_of; by rewrite lookup_insert_eq|].
  destruct (count_of m (ResID r) <? 3) eqn:E; [|done]. unfold count_of at 1. by rewrite lookup_insert_eq.
Qed.

(** The loop over a round with distinct targets, one target at a time. *)
Lemma update_loop_spec m rs :
  NoDup (map ResID rs) ->
  let count r := step_count (count_of m (ResID r)) (healthy r) in
  let '(m', sustained, latencies, out) := update_loop m rs in
  (forall id, id ∉ map ResID rs -> count_of m' id = count_of m id) /\
  (forall r, r ∈ rs -> count_of m' (ResID r) = count r) /\
  sustained = length (filter (fun r => 3 <= count r) rs) /\
  latencies = map LatencyMS (filter (fun r => healthy r = true) rs) /\
  out = map (fun r => with_failures r (count r)) rs.
Proof.
  revert m. induction rs as [|r rs IH]; intros m Hd; cbn [update_loop map]; cbv zeta.
  { split_and!; [done|by intros r ?%elem_of_nil|done|done|done]. }
  apply NoDup_cons in Hd as [Hr Hd]. specialize (IH (count_result m r) Hd).
  destruct (update_loop (count_result m r) rs) as [[[m' sustained] latencies] out].
  destruct IH as (Ho & Hs & Hn & Hl & Hout).
  assert (Hc : forall r', r' ∈ rs -> count_of (count_result m r) (ResID r') = count_of m (ResID r')).
  { intros r' Hr'. apply count_result_other. intros Heq. apply Hr. rewrite <- Heq.
    by apply list_elem_of_fmap_2. }
  split_and!.
  - intros id Hid. rewrite Ho by set_solver. apply count_result_other. set_solver.
  - intros r' [->|Hr']%elem_of_cons; [by rewrite Ho, count_result_same|].
    by rewrite Hs, Hc.
  - rewrite count_result_same, filter_cons, Hn.
    rewrite (filter_ext_in _ (fun r' => 3 <= step_count (count_of m (ResID r')) (healthy r')));
      [|intros r' Hr'; by rewrite Hc].
    destruct (3 <=? _) eqn:E; case_decide; bool_to_prop; [done|lia|lia|done].
  - rewrite filter_cons, Hl. destruct (healthy r); [by rewrite decide_True|by rewrite decide_False].
  - rewrite count_result_same, Hout. f_equal. apply map_ext_in.
    intros r' Hr'%list_elem_of_In. by rewrite Hc.
Qed.

Lemma Update_parts a round :
  let '(m, sustained, latencies, out) := update_loop (failures a) round in
  failures (Update a round).2 = m /\ (Update a round).1.2 = out.
Proof.
  unfold Update. destruct (update_loop (failures a) round) as [[[m sustained] latencies] out].
  cbv zeta. repeat case_match; done.
Qed.

Lemma streak_snoc id rounds round :
  streak id (rounds ++ [round]) = if healthy_in id round then 0 else streak id rounds + 1.
Proof. unfold streak. by rewrite fold_left_app. Qed.

Lemma streak_nonneg id rounds : 0 <= streak id rounds.
Proof.
  induction rounds as [|round rounds IH] using rev_ind; [done|].
  rewrite streak_snoc. case_match; lia.
Qed.

Lemma healthy_in_unique r round :
  NoDup (map ResID round) -> r ∈ round -> healthy_in (ResID r) round = healthy r.
Proof.
  intros Hd Hr. induction round as [|r' round IH]; [by apply elem_of_nil in Hr|].
  cbn [map] in Hd. apply NoDup_cons in Hd as [Hr' Hd]. unfold healthy_in in *. cbn [existsb].
  apply elem_of_cons in Hr as [->|Hr].
  - rewrite String.eqb_refl, andb_true_l.
    destruct (existsb _ round) eqn:E; [|apply orb_false_r].
    apply existsb_exists in E as (x & Hx%list_elem_of_In & Hb). bool_to_prop.
    exfalso. apply Hr'. apply list_elem_of_fmap. exists x. done.
  - rewrite (IH Hd Hr). destruct (ResID r' =?s ResID r)%go eqn:E; [|done].
    apply String.eqb_eq in E. exfalso. apply Hr'. apply list_elem_of_fmap. by exists r.
Qed.

Lemma step_count_streak id rounds round :
  step_count (Z.min 3 (streak id rounds)) (healthy_in id round)
    = Z.min 3 (streak id (rounds ++ [round])).
Proof.
  rewrite streak_snoc. unfold step_count. pose proof (streak_nonneg id rounds).
  destruct (healthy_in id round); [done|]. case_match; bool_to_prop; lia.
Qed.

(** The rounds of a scheduler probe the same targets. *)
Definition rounds_of (ids : list string) (rounds : list (list Result)) : Prop :=
  NoDup ids /\ Forall (fun round => map ResID round = ids) rounds.

Lemma counters_are_streaks ids rounds :
  rounds_of ids rounds ->
  forall id, id ∈ ids -> count_of (failures (updates rounds)) id = Z.min 3 (streak id rounds).
Proof.
  intros [Hd Hr]. induction rounds as [|round rounds IH] using rev_ind; intros id Hid; [done|].
  apply Forall_app in Hr as [Hr [Hround _]%Forall_cons_1].
  specialize (IH Hr). unfold updates in *. rewrite fold_left_app. cbn [fold_left].
  set (a := fold_left _ rounds new_aggregate) in *.
  pose proof (Update_parts a round) as Hp. rewrite <- Hround in Hd, Hid.
  pose proof (update_loop_spec (failures a) round Hd) as Hs.
  destruct (update_loop (failures a) round) as [[[m sustained] latencies] out].
  destruct Hp as [-> _]. destruct Hs as (_ & Hs & _).
  apply list_elem_of_fmap in Hid as (r & -> & Hin). rewrite Hs by done.
  rewrite <- (healthy_in_unique r round) by done.
  rewrite IH by (rewrite <- Hround; by apply list_elem_of_fmap_2). apply step_count_streak.
Qed.

(** Counting the targets of a round through its results. *)
Lemma length_filter_ids (P : string -> Prop) `{!forall x, Decision (P x)} round :
  length (filter (fun r => P (ResID r)) round) = length (filter P (map ResID round)).
Proof.
  induction round as [|r round IH]; [done|]. cbn [map]. rewrite !filter_cons.
  case_decide; cbn [length]; by rewrite IH.
Qed.

Lemma filter_latencies round :
  filter (fun z => (z < 1000)%Z) (map LatencyMS round) = map LatencyMS (filter (fun r => LatencyMS r < 1000) round).
Proof.
  induction round as [|r round IH]; [done|]. cbn [map]. rewrite !filter_cons, IH.
  by case_decide.
Qed.

(** The program's median test. *)
Lemma median_slow (latencies : list Z) :
  latencies <> [] ->
  (1000 <=? default 0 (merge_sort Z.le latencies !! (length (merge_sort Z.le latencies) / 2)%nat))
  = (2 * length (filter (fun z => (z < 1000)%Z) latencies) <=? length latencies)%nat.
Proof.
  intros Hn. pose proof (merge_sort_Permutation Z.le latencies) as Hp.
  assert (Hl : (length latencies <> 0)%nat) by (by destruct latencies).
  rewrite (Permutation_length Hp).
  destruct (merge_sort Z.le latencies !! (length latencies / 2)%nat) as [x|] eqn:Hx.
  - apply (sorted_middle 1000) in Hx; [|apply Sorted_merge_sort; intros ??; lia].
    rewrite (Permutation_length (filter_Permutation (fun z => z < 1000) _ _ Hp)) in Hx.
    cbn [default]. apply eq_bool_prop_intro. rewrite !Is_true_true, Z.leb_le, Nat.leb_le.
    rewrite Hx. pose proof (Nat.div_mod (length latencies) 2 ltac:(done)).
    pose proof (Nat.mod_upper_bound (length latencies) 2 ltac:(done)). lia.
  - apply lookup_ge_None in Hx. rewrite (Permutation_length Hp) in Hx.
    pose proof (Nat.div_lt (length latencies) 2). lia.
Qed.

Lemma Update_quality a round :
  NoDup (map ResID round) ->
  (Update a round).1.1
    = quality_of (if agg_quality a =?s "" then "unknown" else agg_quality a)
        (length (filter (fun r => 3 <= step_count (count_of (failures a) (ResID r)) (healthy r)) round))
        round.
Proof.
  intros Hd. pose proof (update_loop_spec (failures a) round Hd) as Hs. unfold Update, quality_of.
  destruct (update_loop (failures a) round) as [[[m sustained] latencies] out].
  destruct Hs as (_ & _ & -> & -> & _). set (answered := filter (fun r => healthy r = true) round).
  set (n := length (filter (fun r => 3 <= _) round)). rewrite length_map. cbv zeta.
  pose proof (Nat.div_mod (length round) 2 ltac:(done)).
  pose proof (Nat.mod_upper_bound (length round) 2 ltac:(done)).
  replace (length round <? 2 * n)%nat with (length round / 2 <? n)%nat
    by (apply eq_bool_prop_intro; rewrite !Is_true_true, !Nat.ltb_lt; lia).
  replace (2 * length answered <=? length round)%nat with (length answered <=? length round / 2)%nat
    by (apply eq_bool_prop_intro; rewrite !Is_true_true, !Nat.leb_le; lia).
  destruct (length round / 2 <? n)%nat; [done|].
  destruct (length answered <=? length round / 2)%nat eqn:E; [done|]. cbn [fst].
  rewrite median_slow, filter_latencies, !length_map; [by destruct (_ <=? _)%nat|].
  apply Nat.leb_gt in E. destruct answered; [cbn in E; lia|done].
Qed.

Lemma quality_history ids rounds round :
  rounds_of ids (rounds ++ [round]) ->
  (Update (updates rounds) round).1.1
    = quality_of (if agg_quality (updates rounds) =?s "" then "unknown" else agg_quality (updates rounds))
        (length (filter (fun id => 3 <= streak id (rounds ++ [round])) ids)) round /\
  (Update (updates rounds) round).1.2
    = map (fun r => with_failures r (Z.min 3 (streak (ResID r) (rounds ++ [round])))) round.
Proof.
  intros [Hd [Hr [Hround _]%Forall_cons_1]%Forall_app]. rewrite <- Hround in Hd.
  assert (Hc : forall r, r ∈ round ->
    step_count (count_of (failures (updates rounds)) (ResID r)) (healthy r)
      = Z.min 3 (streak (ResID r) (rounds ++ [round]))).
  { intros r Hin. rewrite (counters_are_streaks (map ResID round) rounds).
    - rewrite <- (healthy_in_unique r round) by done. apply step_count_streak.
    - split; [done|by rewrite Hround].
    - by apply list_elem_of_fmap_2. }
  split.
  - rewrite (Update_quality _ _ Hd). f_equal.
    rewrite <- Hround, <- (length_filter_ids (fun id => 3 <= streak id (rounds ++ [round]))).
    f_equal. apply filter_ext_in. intros r Hin. rewrite Hc by done. lia.
  - pose proof (Update_parts (updates rounds) round) as Hp.
    pose proof (update_loop_spec (failures (updates rounds)) round Hd) as Hs.
    destruct (update_loop (failures (updates rounds)) round) as [[[m sustained] latencies] out].
    destruct Hp as [_ ->]. destruct Hs as (_ & _ & _ & _ & ->).
    apply map_ext_in. intros r Hin%list_elem_of_In. by rewrite Hc.
Qed.
End AggregateProofs.

(** ** Properties *)

(** Whatever the network answers, a probe reports a result of its target with a
    latency between 0 and 5000 milliseconds, a status of 200 to 499 and no error
    code when the target is reachable and one of the fixed error codes when it is
    not. *)
Theorem Probe_reports_a_valid_result `{ProbeSystem} target w :
  (forall url, http_NewRequest MethodGet url = http_NewRequest MethodHead url) ->
  probe_result_ok target (Probe target w).1.
Proof. intros Hm. by apply Probe_ok. Qed.

(** C29. The quality and the failure counters of a round are those of the history of
    the connection: the counter of a target is its streak of failed rounds cut
    at three, the line has failed when more than half of the targets failed three
    times in a row, keeps its quality when at most half of them answered, and
    otherwise is slow exactly when at most half of the answers took less than a
    second. *)
Theorem quality_follows_history ids rounds round :
  rounds_of ids (rounds ++ [round]) ->
  let before := agg_quality (updates rounds) in
  (Update (updates rounds) round).1 =
    (quality_of (if before =?s "" then "unknown" else before)
       (length (filter (fun id => 3 <= streak id (rounds ++ [round])) ids)) round,
     map (fun r => with_failures r (Z.min 3 (streak (ResID r) (rounds ++ [round])))) round).
Proof.
  intros Hr before. destruct (quality_history ids rounds round Hr) as [Hq Ho].
  unfold before. rewrite <- Hq, <- Ho. apply surjective_pairing.
Qed.

(** ** A concrete network *)

(** It refuses HEAD requests and answers GET requests after a while. *)
Definition demo_network : ProbeSystem := {|
  PWorld := Z;
  prober_now w := (w, w + 300 * Millisecond);
  http_NewRequest _ _ := Some (mkHttpRequest "https" false);
  client_Do method _ w := (inl (if method =?s MethodHead then 405 else 200), w)
|}.

Definition demo_target : Target := mkTarget "google" "https://www.google.com/".

Lemma Probe_reports_a_valid_result_witness :
  (@Probe demo_network demo_target 1).1
    = mkResult "google" 300 true 200 "" 600000001 None /\
  probe_result_ok demo_target (@Probe demo_network demo_target 1).1.
Proof.
  split; [vm_compute; reflexivity|].
  apply (@Probe_reports_a_valid_result demo_network). intros url. reflexivity.
Defined.

Definition demo_result (ok : bool) (target : Target) : Result :=
  mkResult (TargetID target) 5000 ok (if ok then 200 else 0) (if ok then "" else "timeout") 1 None.
Definition demo_round (ok : bool) : list Result := map (demo_result ok) Targets.

(** Three rounds of timeouts: the line has failed only after the third. *)
Lemma quality_follows_history_witness :
  let rounds := [demo_round true; demo_round false; demo_round false] in
  (Update (updates [demo_round true; demo_round false]) (demo_round false)).1.1 = "slow" /\
  (Update (updates rounds) (demo_round false)).1 =
    (quality_of "slow" 8 (demo_round false),
     map (fun r => with_failures r 3) (demo_round false)) /\
  quality_of "slow" 8 (demo_round false) = "failed".
Proof.
  split; [vm_compute; reflexivity|]. split; [|vm_compute; reflexivity].
  rewrite (quality_follows_history (map TargetID Targets)).
  - vm_compute. reflexivity.
  - split; [|repeat constructor]. apply (bool_decide_unpack _). vm_compute. exact I.
Defined.
