(* ===== verification/LineScheduler.v ===== *)
(** * The probe scheduler ([internal/lineprobe/scheduler.go])

    The scheduler runs one round of probes at a time for the current
    connection generation.  Its goroutines are interleaved: every critical
    section of the mutex, every branch of a [select] and every call of the
    publication callback is one action, and [act] performs an action when it is
    enabled.  Sessions and rounds are shared objects; an object is identified
    by its position in the store. *)
From S2P Require Import Prelude GoText LineProbe.

#[local] Open Scope string_scope.
#[local] Open Scope Z_scope.

(** ** State *)
Record Snapshot := mkSnapshot { SnapGeneration : Z; SnapResults : list Result }.

(** A session: [s_done] is [ctx.Err() != nil] of its lifetime context, which
    the controller's context or the session's own cancel function ends. *)
Record session := mkSession {
  s_done : bool;
  s_generation : Z;
  s_active : option nat;
  s_aggregate : Aggregate
}.

(** Where the goroutine of a round is: before its loop, in the loop with
    [waiting] answers missing, before the publication, after it, and returned
    (its [done] channel is closed). *)
Inductive Phase :=
| Begun
| Collecting (results : list Result) (received : list bool) (waiting : nat)
| Updated (results : list Result) (quality : string)
| Published (results : list Result) (accepted : bool)
| Finished.

#[export] Instance phase_finished (p : Phase) : Decision (p = Finished).
Proof. destruct p; (by left) || (right; discriminate). Defined.

Record round := mkRound { r_session : nat; r_phase : Phase }.

Record Scheduler := mkScheduler {
  current : option nat;
  last : Snapshot;
  sessions : list session;
  rounds : list round;
  publications : list (Z * string * bool)
}.

Definition NewScheduler : Scheduler := mkScheduler None (mkSnapshot 0 []) [] [] [].

(** ** Updates of the store *)
Definition set_session (sid : nat) (f : session -> session) (s : Scheduler) : Scheduler :=
  mkScheduler (current s) (last s) (alter f sid (sessions s)) (rounds s) (publications s).
Definition set_phase (rid : nat) (p : Phase) (s : Scheduler) : Scheduler :=
  mkScheduler (current s) (last s) (sessions s)
    (alter (fun r => mkRound (r_session r) p) rid (rounds s)) (publications s).
Definition set_last (snap : Snapshot) (s : Scheduler) : Scheduler :=
  mkScheduler (current s) snap (sessions s) (rounds s) (publications s).

Definition cancelled (e : session) : session :=
  mkSession true (s_generation e) (s_active e) (s_aggregate e).
Definition with_active (a : option nat) (e : session) : session :=
  mkSession (s_done e) (s_generation e) a (s_aggregate e).
Definition with_aggregate (a : Aggregate) (e : session) : session :=
  mkSession (s_done e) (s_generation e) (s_active e) a.

(** [s.current == current && current.ctx.Err() == nil] *)
Definition live (s : Scheduler) (sid : nat) : bool :=
  bool_decide (current s = Some sid) &&
  match sessions s !! sid with Some e => negb (s_done e) | None => false end.

(** ** The critical sections *)

(** The round of the session, started when there is none. *)
Definition beginLocked (sid : nat) (s : Scheduler) : nat * Scheduler :=
  match sessions s !! sid with
  | Some e =>
      match s_active e with
      | Some rid => (rid, s)
      | None =>
          let rid := length (rounds s) in
          (rid, mkScheduler (current s) (last s) (alter (with_active (Some rid)) sid (sessions s))
                  (rounds s ++ [mkRound sid Begun]) (publications s))
      end
  | None => (0%nat, s)
  end.

(** [Start], with [ctxErr] for [ctx.Err() != nil]. *)
Definition Start (ctxErr : bool) (generation : Z) (s : Scheduler) : Scheduler :=
  if ctxErr || match current s with
               | Some sid => match sessions s !! sid with
                             | Some e => generation <=? s_generation e
                             | None => false
                             end
               | None => false
               end
  then s
  else
    let s := match current s with Some sid => set_session sid cancelled s | None => s end in
    let sid := length (sessions s) in
    let s := mkScheduler (Some sid) (mkSnapshot generation [])
               (sessions s ++ [mkSession false generation None new_aggregate])
               (rounds s) (publications s) in
    (beginLocked sid s).2.

(** A tick of the timer of a session. *)
Definition tick (sid : nat) (s : Scheduler) : Scheduler :=
  if live s sid then (beginLocked sid s).2 else s.

Definition snapshotLocked (s : Scheduler) : Snapshot := last s.

(** The first section of [Manual]: the stored snapshot, or the round whose end
    the caller waits for. *)
Definition Manual (ctxErr : bool) (s : Scheduler) : (Snapshot + nat) * Scheduler :=
  match current s with
  | Some sid =>
      if ctxErr || negb (live s sid) then (inl (snapshotLocked s), s)
      else let '(rid, s) := beginLocked sid s in (inr rid, s)
  | None => (inl (snapshotLocked s), s)
  end.

(** ** The goroutine of a round *)
Definition initial_result (target : Target) (stamp : Z) : Result :=
  mkResult (TargetID target) (milliseconds RoundBudget) false 0 "timeout" stamp None.

Definition with_id (id : string) (r : Result) : Result :=
  mkResult id (LatencyMS r) (Reachable r) (HTTPStatus r) (ErrorCode r) (CheckedAt r)
    (ConsecutiveFailures r).

(** The actions of the goroutines and of the world. *)
Inductive Action :=
| AStart (ctxErr : bool) (generation : Z)
| ACancel (sid : nat)
| ATick (sid : nat)
| AManual (ctxErr : bool)
| AInit (rid : nat) (stamps : list Z)
| AAnswer (rid i : nat) (r : Result)
| ABudget (rid : nat)
| ADone (rid : nat)
| AUpdate (rid : nat)
| APublish (rid : nat) (accepted : bool)
| ACommit (rid : nat).

(** [case a := <-answers] *)
Definition take_answer (i : nat) (target : Target) (r : Result)
    (results : list Result) (received : list bool) (waiting : nat) : Phase :=
  if default true (received !! i) then Collecting results received waiting
  else Collecting (<[i := with_id (TargetID target) r]> results) (<[i := true]> received)
         (waiting - 1).

Definition act (a : Action) (s : Scheduler) : option Scheduler :=
  match a with
  | AStart ctxErr generation => Some (Start ctxErr generation s)
  | ACancel sid => Some (set_session sid cancelled s)
  | ATick sid => Some (tick sid s)
  | AManual ctxErr => Some (Manual ctxErr s).2
  | AInit rid stamps =>
      match rounds s !! rid with
      | Some (mkRound _ Begun) =>
          if (length stamps =? length Targets)%nat then
            Some (set_phase rid (Collecting (zip_with initial_result Targets stamps)
                    (replicate (length Targets) false) (length Targets)) s)
          else None
      | _ => None
      end
  | AAnswer rid i r =>
      match rounds s !! rid, Targets !! i with
      | Some (mkRound _ (Collecting results received (S _ as waiting))), Some target =>
          Some (set_phase rid (take_answer i target r results received waiting) s)
      | _, _ => None
      end
  | ABudget rid =>
      match rounds s !! rid with
      | Some (mkRound _ (Collecting results received (S _))) =>
          Some (set_phase rid (Collecting results received 0) s)
      | _ => None
      end
  | ADone rid =>
      match rounds s !! rid with
      | Some (mkRound sid (Collecting _ _ (S _))) =>
          match sessions s !! sid with
          | Some e => if s_done e then Some (set_phase rid Finished s) else None
          | None => None
          end
      | _ => None
      end
  | AUpdate rid =>
      match rounds s !! rid with
      | Some (mkRound sid (Collecting results _ 0)) =>
          if live s sid then
            match sessions s !! sid with
            | Some e =>
                let '(quality, results, aggregate) := Update (s_aggregate e) results in
                Some (set_phase rid (Updated results quality)
                        (set_session sid (with_aggregate aggregate) s))
            | None => None
            end
          else Some (set_phase rid Finished s)
      | _ => None
      end
  | APublish rid accepted =>
      match rounds s !! rid with
      | Some (mkRound sid (Updated results quality)) =>
          match sessions s !! sid with
          | Some e =>
              Some (mkScheduler (current s) (last s) (sessions s)
                (rounds (set_phase rid (Published results accepted) s))
                (publications s ++ [(s_generation e, quality, accepted)]))
          | None => None
          end
      | _ => None
      end
  | ACommit rid =>
      match rounds s !! rid with
      | Some (mkRound sid (Published results accepted)) =>
          if live s sid then
            match sessions s !! sid with
            | Some e =>
                let s := if accepted then set_last (mkSnapshot (s_generation e) results) s else s in
                Some (set_phase rid Finished (set_session sid (with_active None) s))
            | None => None
            end
          else Some (set_phase rid Finished s)
      | _ => None
      end
  end.

(** Executions; [possible] says which answers the network can give. *)
Definition run (actions : list Action) (s : Scheduler) : option Scheduler :=
  fold_left (fun o a => s ← o; act a s) actions (Some s).

(** ** Invariant *)
Definition ids : list string := map TargetID Targets.

Section Invariant.
(** The largest HTTP status a target answers with. *)
Context (max_status : Z) (Hmax : 0 <= max_status).

(** What is known of the result of one target before and after its counter. *)
Definition raw_ok (r : Result) : Prop :=
  0 <= LatencyMS r <= 5000 /\ (ErrorCode r = "" \/ ErrorCode r ∈ probe_codes) /\
  0 <= HTTPStatus r <= max_status /\ CheckedAt r <> 0.
Definition counted_ok (r : Result) : Prop :=
  raw_ok r /\ exists n, ConsecutiveFailures r = Some n /\ 0 <= n <= 3.

Definition raw_round (l : list Result) : Prop := map ResID l = ids /\ Forall raw_ok l.
Definition complete_round (l : list Result) : Prop := map ResID l = ids /\ Forall counted_ok l.

(** The network gives results that satisfy the contract of [Probe], and the
    clock is past the zero time. *)
Definition possible (a : Action) : Prop :=
  match a with
  | AInit _ stamps => Forall (fun t => t <> 0) stamps
  | AAnswer _ i r => forall target, Targets !! i = Some target ->
      probe_result_ok target r /\ 0 <= HTTPStatus r <= max_status /\ CheckedAt r <> 0
  | _ => True
  end.

Definition phase_ok (p : Phase) : Prop :=
  match p with
  | Collecting results _ _ => raw_round results
  | Updated results _ | Published results _ => complete_round results
  | Begun | Finished => True
  end.

Definition generation_of (s : Scheduler) (o : option nat) : Z :=
  match o with
  | Some sid => match sessions s !! sid with Some e => s_generation e | None => 0 end
  | None => 0
  end.

Record Inv (s : Scheduler) : Prop := {
  inv_current : current s = match length (sessions s) with O => None | S n => Some n end;
  inv_generation : SnapGeneration (last s) = generation_of s (current s);
  inv_old sid e : sessions s !! sid = Some e -> current s <> Some sid -> s_done e = true;
  inv_order i j ei ej : sessions s !! i = Some ei -> sessions s !! j = Some ej -> (i < j)%nat ->
    s_generation ei < s_generation ej;
  inv_round rid r : rounds s !! rid = Some r -> r_phase r <> Finished ->
    exists e, sessions s !! r_session r = Some e /\ s_active e = Some rid;
  inv_active sid e rid : sessions s !! sid = Some e -> s_active e = Some rid ->
    exists r, rounds s !! rid = Some r /\ r_session r = sid /\
      (s_done e = false -> r_phase r <> Finished);
  inv_phase rid r : rounds s !! rid = Some r -> phase_ok (r_phase r);
  inv_history sid e : sessions s !! sid = Some e ->
    exists history, s_aggregate e = updates history /\ rounds_of ids history;
  inv_last : SnapResults (last s) = [] \/ complete_round (SnapResults (last s))
}.

Lemma ids_NoDup : NoDup ids.
Proof. apply (bool_decide_unpack _). vm_compute. exact I. Qed.

Lemma NewScheduler_inv : Inv NewScheduler.
Proof.
  split; [done|done|..|by left]; intros *; cbn [sessions rounds NewScheduler];
    rewrite lookup_nil; discriminate.
Qed.

Lemma alter_Some {A} (f : A -> A) (i j : nat) (l : list A) y :
  alter f i l !! j = Some y ->
  exists x, l !! j = Some x /\ y = if decide (i = j) then f x else x.
Proof.
  rewrite list_lookup_alter. case_decide; subst.
  - intros (x & Hx & ->)%fmap_Some. eauto.
  - eauto.
Qed.

Lemma lookup_alter_some {A} (f : A -> A) (i j : nat) (l : list A) x :
  l !! j = Some x -> alter f i l !! j = Some (if decide (i = j) then f x else x).
Proof. rewrite list_lookup_alter. case_decide; subst; by intros ->. Qed.

(** Changing fields of a session other than its generation and active round. *)
Lemma session_inv sid f s :
  Inv s ->
  (forall e, sessions s !! sid = Some e ->
     s_generation (f e) = s_generation e /\ s_active (f e) = s_active e /\
     (s_done e = true -> s_done (f e) = true) /\
     (exists history, s_aggregate (f e) = updates history /\ rounds_of ids history)) ->
  Inv (set_session sid f s).
Proof.
  intros [] Hf. split; unfold set_session; cbn [current last sessions rounds publications].
  - by rewrite length_alter.
  - rewrite inv_generation0. unfold generation_of. destruct (current s) as [c|]; [|done].
    cbn [sessions]. destruct (sessions s !! c) as [e|] eqn:He.
    + rewrite (lookup_alter_some _ _ _ _ _ He). case_decide; [|done]. subst. symmetry. by apply Hf.
    + rewrite list_lookup_alter, He. case_decide; subst; by rewrite ?He.
  - intros j e' (e & He & ->)%alter_Some Hc. case_decide; [subst; apply Hf; eauto|eauto].
  - intros i j ei ej (ei' & Hi & ->)%alter_Some (ej' & Hj & ->)%alter_Some Hij.
    specialize (inv_order0 i j ei' ej' Hi Hj Hij).
    assert (Hg : forall k e, sessions s !! k = Some e ->
      s_generation (if decide (sid = k) then f e else e) = s_generation e).
    { intros k e He. case_decide; [subst; by apply Hf|done]. }
    by rewrite (Hg i ei' Hi), (Hg j ej' Hj).
  - intros rid r Hr Hp. destruct (inv_round0 rid r Hr Hp) as (e & He & Ha).
    rewrite (lookup_alter_some _ _ _ _ _ He). eexists; split; [done|].
    case_decide; [subst|done]. destruct (Hf e He) as (_ & -> & _). done.
  - intros j e' rid (e & He & ->)%alter_Some Ha.
    assert (Ha' : s_active e = Some rid).
    { case_decide; [subst|done]. destruct (Hf e He) as (_ & <- & _). done. }
    destruct (inv_active0 j e rid He Ha') as (r & Hr & Hs & Hp). exists r. split_and!; [done|done|].
    intros Hd. apply Hp. case_decide; [subst|done]. destruct (Hf e He) as (_ & _ & Hdone & _).
    destruct (s_done e); [|done]. by rewrite Hdone in Hd.
  - done.
  - intros j e' (e & He & ->)%alter_Some. case_decide; [subst; by apply Hf|eauto].
  - done.
Qed.

(** Moving a round to a later phase. *)
Lemma phase_inv rid r p s :
  Inv s -> rounds s !! rid = Some r -> phase_ok p -> r_phase r <> Finished ->
  (p = Finished -> forall e, sessions s !! r_session r = Some e -> s_active e = Some rid -> s_done e = true) ->
  Inv (set_phase rid p s).
Proof.
  intros [] Hr Hp Hun Hf. split; unfold set_phase; cbn [current last sessions rounds publications];
    [done|done|done|done|..].
  - intros rid' r' (r0 & Hr0 & ->)%alter_Some Hr'. case_decide; [subst|by eauto].
    rewrite Hr in Hr0. injection Hr0 as <-. cbn [r_session]. by apply inv_round0.
  - intros sid e rid' He Ha. destruct (inv_active0 sid e rid' He Ha) as (r0 & Hr0 & Hs & Hd).
    rewrite (lookup_alter_some _ _ _ _ _ Hr0). eexists; split; [done|].
    case_decide; [|done]. subst rid'. rewrite Hr in Hr0. injection Hr0 as <-. cbn [r_session r_phase].
    split; [done|]. intros Hnd Hfin. subst sid. rewrite (Hf Hfin e He Ha) in Hnd. done.
  - intros rid' r' (r0 & Hr0 & ->)%alter_Some. case_decide; [done|eauto].
  - done.
  - done.
Qed.

(** Starting a round in a session that has none. *)
Lemma begin_inv sid s : Inv s -> Inv (beginLocked sid s).2.
Proof.
  intros HI. unfold beginLocked. destruct (sessions s !! sid) as [e|] eqn:He; [|done].
  destruct (s_active e) as [rid|] eqn:Ha; [done|]. destruct HI.
  split; cbn [current last sessions rounds publications snd].
  - by rewrite length_alter.
  - rewrite inv_generation0. unfold generation_of. destruct (current s) as [c|]; [|done].
    cbn [sessions]. destruct (sessions s !! c) as [e'|] eqn:He'.
    + rewrite (lookup_alter_some _ _ _ _ _ He'). by case_decide.
    + rewrite list_lookup_alter, He'. case_decide; subst; by rewrite ?He'.
  - intros j e' (e0 & He0 & ->)%alter_Some Hc. case_decide; cbn [s_done with_active]; eauto.
  - intros i j ei ej (ei' & Hi & ->)%alter_Some (ej' & Hj & ->)%alter_Some Hij.
    specialize (inv_order0 i j ei' ej' Hi Hj Hij). by repeat case_decide.
  - intros rid r [[_ Hr]|[-> <-]]%lookup_snoc_Some Hp.
    + destruct (inv_round0 rid r Hr Hp) as (e' & He' & Ha').
      rewrite (lookup_alter_some _ _ _ _ _ He'). eexists; split; [done|].
      case_decide; [|done]. congruence.
    + cbn [r_session]. rewrite (lookup_alter_some _ _ _ _ _ He). eexists; split; [done|].
      by rewrite decide_True by done.
  - intros j e' rid (e0 & He0 & ->)%alter_Some Ha'. case_decide; cbn [s_active s_done with_active] in *.
    + injection Ha' as <-. eexists. split; [apply lookup_snoc_Some; by right|]. by subst.
    + destruct (inv_active0 j e0 rid He0 Ha') as (r & Hr & Hs & Hd). exists r. split; [|done].
      by apply lookup_app_l_Some.
  - intros rid r [[_ Hr]|[_ <-]]%lookup_snoc_Some; [eauto|done].
  - intros j e' (e0 & He0 & ->)%alter_Some. case_decide; cbn [s_aggregate with_active]; eauto.
  - done.
Qed.

(** A new session of a later generation, once the old ones are done. *)
Lemma new_session_inv generation s :
  Inv s -> (forall sid e, sessions s !! sid = Some e -> s_done e = true /\ s_generation e < generation) ->
  Inv (mkScheduler (Some (length (sessions s))) (mkSnapshot generation [])
         (sessions s ++ [mkSession false generation None new_aggregate]) (rounds s) (publications s)).
Proof.
  intros [] Hold. split; cbn [current last sessions rounds publications SnapResults SnapGeneration].
  - rewrite length_app, Nat.add_comm. done.
  - unfold generation_of. cbn [sessions]. by rewrite list_lookup_middle by done.
  - intros j e [[_ He]|[-> <-]]%lookup_snoc_Some; [intros _; by eapply Hold|done].
  - intros i j ei ej [[Hli Hi]|[-> <-]]%lookup_snoc_Some [[Hlj Hj]|[-> <-]]%lookup_snoc_Some Hij.
    + eauto.
    + cbn [s_generation]. by eapply Hold.
    + apply lookup_lt_Some in Hj. lia.
    + lia.
  - intros rid r Hr Hp. destruct (inv_round0 rid r Hr Hp) as (e & He & Ha). exists e.
    split; [by apply lookup_app_l_Some|done].
  - intros j e rid [[_ He]|[-> <-]]%lookup_snoc_Some Ha; [eauto|done].
  - done.
  - intros j e [[_ He]|[-> <-]]%lookup_snoc_Some; [eauto|].
    exists []. split; [done|]. split; [apply ids_NoDup|constructor].
  - by left.
Qed.

Lemma cancel_inv sid s : Inv s -> Inv (set_session sid cancelled s).
Proof. intros HI. apply session_inv; [done|]. intros e He. split_and!; [done|done|done|exact (inv_history _ HI sid e He)]. Qed.

(** The current session is the newest one. *)
Lemma current_newest s sid e :
  Inv s -> sessions s !! sid = Some e -> exists c ec,
    current s = Some c /\ sessions s !! c = Some ec /\ s_generation e <= s_generation ec.
Proof.
  intros HI He. pose proof (inv_current _ HI) as Hc. pose proof (lookup_lt_Some _ _ _ He).
  destruct (length (sessions s)) as [|n] eqn:Hl; [lia|].
  destruct (lookup_lt_is_Some_2 (sessions s) n ltac:(lia)) as [ec Hec]. exists n, ec.
  split_and!; [done|done|]. destruct (decide (sid = n)) as [->|Hne].
  - rewrite He in Hec. by injection Hec as ->.
  - pose proof (inv_order _ HI sid n e ec He Hec ltac:(lia)). lia.
Qed.

Lemma Start_inv ctxErr generation s : Inv s -> Inv (Start ctxErr generation s).
Proof.
  intros HI. unfold Start. destruct ctxErr; [done|]. cbn [orb].
  destruct (match current s with Some _ => _ | None => _ end) eqn:Hg; [done|].
  apply begin_inv. set (s1 := match current s with Some sid => _ | None => s end).
  assert (HI1 : Inv s1) by (unfold s1; destruct (current s); [by apply cancel_inv|done]).
  assert (Hall : forall sid e, sessions s1 !! sid = Some e -> s_done e = true /\ s_generation e < generation).
  { intros sid e He. destruct (current s) as [c|] eqn:Hc.
    - unfold s1, set_session in He. cbn [sessions] in He. apply alter_Some in He as (e0 & He0 & ->).
      destruct (current_newest s sid e0 HI He0) as (c' & ec & Hc' & Hec & Hle).
      rewrite Hc in Hc'. injection Hc' as <-. rewrite Hec in Hg. apply Z.leb_gt in Hg.
      case_decide as Hs; cbn [s_done s_generation cancelled]; (split; [|lia]); [done|].
      apply (inv_old _ HI sid); [done|]. rewrite Hc. congruence.
    - destruct (current_newest s sid e HI He) as (c' & _ & Hc' & _). congruence. }
  pose proof (new_session_inv generation s1 HI1 Hall) as Hn.
  unfold s1 in *. destruct (current s); exact Hn.
Qed.

Lemma live_iff s sid : live s sid = true <->
  current s = Some sid /\ exists e, sessions s !! sid = Some e /\ s_done e = false.
Proof.
  unfold live. rewrite andb_true_iff, bool_decide_eq_true. split; intros [Hc He]; split; try done.
  - destruct (sessions s !! sid) as [e|]; [|done]. exists e. split; [done|]. by apply negb_true_iff.
  - destruct He as (e & -> & ->). done.
Qed.

(** A session that is not live is done. *)
Lemma not_live s sid e :
  Inv s -> live s sid = false -> sessions s !! sid = Some e -> s_done e = true.
Proof.
  intros HI Hl He. destruct (decide (current s = Some sid)) as [Hc|Hc]; [|by eapply inv_old].
  unfold live in Hl. rewrite bool_decide_true in Hl by done. rewrite He in Hl.
  by apply negb_false_iff in Hl.
Qed.

(** Storing the snapshot of the current generation. *)
Lemma last_inv s sid e results :
  Inv s -> current s = Some sid -> sessions s !! sid = Some e -> complete_round results ->
  Inv (set_last (mkSnapshot (s_generation e) results) s).
Proof.
  intros [] Hc He Hr. split; unfold set_last; cbn [current last sessions rounds publications SnapGeneration SnapResults];
    [done| |done|done|done|done|done|done|by right].
  unfold generation_of. cbn [sessions]. by rewrite Hc, He.
Qed.

(** The end of a round: its session may start another one. *)
Lemma finish_inv rid sid e p s :
  Inv s -> rounds s !! rid = Some (mkRound sid p) -> p <> Finished -> sessions s !! sid = Some e ->
  Inv (set_phase rid Finished (set_session sid (with_active None) s)).
Proof.
  intros [] Hr Hp He. destruct (inv_round0 rid _ Hr Hp) as (e' & He' & Ha). cbn [r_session] in He'.
  rewrite He in He'. injection He' as <-.
  split; unfold set_phase, set_session; cbn [current last sessions rounds publications].
  - by rewrite length_alter.
  - rewrite inv_generation0. unfold generation_of. destruct (current s) as [c|]; [|done].
    cbn [sessions]. destruct (sessions s !! c) as [e'|] eqn:He'.
    + rewrite (lookup_alter_some _ _ _ _ _ He'). by case_decide.
    + rewrite list_lookup_alter, He'. case_decide; subst; by rewrite ?He'.
  - intros j e' (e0 & He0 & ->)%alter_Some Hc. case_decide; cbn [s_done with_active]; eauto.
  - intros i j ei ej (ei' & Hi & ->)%alter_Some (ej' & Hj & ->)%alter_Some Hij.
    specialize (inv_order0 i j ei' ej' Hi Hj Hij). by repeat case_decide.
  - intros rid' r' (r0 & Hr0 & ->)%alter_Some Hp'. case_decide; [done|].
    destruct (inv_round0 rid' r0 Hr0 Hp') as (e' & He' & Ha').
    rewrite (lookup_alter_some _ _ _ _ _ He'). eexists; split; [done|]. case_decide; [|done]. congruence.
  - intros j e' rid' (e0 & He0 & ->)%alter_Some Ha'. case_decide as Hj; cbn [s_active with_active] in Ha'; [done|].
    destruct (inv_active0 j e0 rid' He0 Ha') as (r & Hr' & Hs & Hd). exists r.
    rewrite (lookup_alter_some _ _ _ _ _ Hr'), decide_False; [done|].
    intros <-. rewrite Hr in Hr'. injection Hr' as <-. done.
  - intros rid' r' (r0 & Hr0 & ->)%alter_Some. case_decide; [done|eauto].
  - intros j e' (e0 & He0 & ->)%alter_Some. case_decide; cbn [s_aggregate with_active]; eauto.
  - done.
Qed.

(** ** The results of a round *)
Lemma initial_round stamps :
  length stamps = length Targets -> Forall (fun t => t <> 0) stamps ->
  raw_round (zip_with initial_result Targets stamps).
Proof.
  intros Hl Hs. split.
  - unfold ids. revert stamps Hl Hs. generalize Targets.
    induction l as [|t l IH]; intros [|x xs] Hl Hs; [done|done|done|].
    cbn. f_equal. apply IH; [by injection Hl|by inversion Hs].
  - apply Forall_lookup. intros i r (t & x & -> & _ & Hx)%lookup_zip_with_Some.
    rewrite Forall_lookup in Hs. split_and!; [done|done| |done|done|by eapply Hs].
    right. unfold probe_codes. cbn. set_solver.
Qed.

Lemma answered_round i target r results :
  Targets !! i = Some target ->
  (probe_result_ok target r /\ 0 <= HTTPStatus r <= max_status /\ CheckedAt r <> 0) ->
  raw_round results -> raw_round (<[i := with_id (TargetID target) r]> results).
Proof.
  intros Ht ((_ & Hl & _ & Hc) & Hst & Hck) [Hids Hr]. split.
  - change (ResID <$> results = ids) in Hids. rewrite list_fmap_insert, Hids. apply list_insert_id. unfold ids. cbn [ResID with_id].
    by rewrite list_lookup_fmap, Ht.
  - apply Forall_insert; [done|]. split_and!; cbn [LatencyMS ErrorCode HTTPStatus CheckedAt with_id]; try lia.
    destruct (Reachable r); [left; apply Hc|by right].
Qed.

Lemma updated_round history results :
  rounds_of ids history -> raw_round results ->
  complete_round (Update (updates history) results).1.2 /\
  exists history', (Update (updates history) results).2 = updates history' /\ rounds_of ids history'.
Proof.
  intros [Hd Hh] [Hids Hr].
  assert (Hro : rounds_of ids (history ++ [results])).
  { split; [done|]. apply Forall_app. split; [done|by repeat constructor]. }
  destruct (quality_history ids history results Hro) as [_ ->]. split.
  - split; [by rewrite map_map|]. rewrite Forall_forall in Hr. apply Forall_forall.
    intros r' (r & -> & Hin)%list_elem_of_fmap. split; [apply (Hr r Hin)|].
    eexists. split; [reflexivity|]. pose proof (streak_nonneg (ResID r) (history ++ [results])). lia.
  - exists (history ++ [results])%list. split; [|exact Hro]. unfold updates. by rewrite fold_left_app.
Qed.

(** ** Every action preserves the invariant *)
Lemma update_inv rid sid e results received s :
  Inv s -> rounds s !! rid = Some (mkRound sid (Collecting results received 0)) ->
  sessions s !! sid = Some e ->
  Inv (set_phase rid (Updated (Update (s_aggregate e) results).1.2 (Update (s_aggregate e) results).1.1)
        (set_session sid (with_aggregate (Update (s_aggregate e) results).2) s)).
Proof.
  intros HI Hr He. destruct (inv_history _ HI sid e He) as (history & Ha & Hh).
  pose proof (inv_phase _ HI rid _ Hr) as Hp. cbn in Hp. rewrite Ha.
  destruct (updated_round history results Hh Hp) as [Hc Hh'].
  eapply phase_inv; [|exact Hr|exact Hc|done|done].
  apply session_inv; [done|]. intros e' He'. rewrite He in He'. injection He' as <-.
  cbn [s_generation s_active s_done s_aggregate with_aggregate]. done.
Qed.

Lemma done_inv rid r s :
  Inv s -> rounds s !! rid = Some r -> r_phase r <> Finished ->
  (forall e, sessions s !! r_session r = Some e -> s_done e = true) ->
  Inv (set_phase rid Finished s).
Proof. intros HI Hr Hp Hd. eapply phase_inv; eauto. done. Qed.

Lemma stop_inv rid sid p s :
  Inv s -> rounds s !! rid = Some (mkRound sid p) -> p <> Finished -> live s sid = false ->
  Inv (set_phase rid Finished s).
Proof. intros HI Hr Hp Hl. eapply done_inv; eauto. intros e He. by eapply not_live. Qed.

Lemma publications_inv s p :
  Inv s -> Inv (mkScheduler (current s) (last s) (sessions s) (rounds s) p).
Proof. by intros []. Qed.

Lemma act_inv a s s' : possible a -> Inv s -> act a s = Some s' -> Inv s'.
Proof.
  intros Hp HI Hact. destruct a; cbn [act possible] in Hp, Hact.
  - injection Hact as <-. by apply Start_inv.
  - injection Hact as <-. by apply cancel_inv.
  - injection Hact as <-. unfold tick. destruct (live s sid); [by apply begin_inv|done].
  - injection Hact as <-. unfold Manual. destruct (current s) as [sid|]; [|done].
    destruct (ctxErr || _); [done|]. pose proof (begin_inv sid s HI). by destruct (beginLocked sid s).
  - destruct (rounds s !! rid) as [[sid []]|] eqn:Hr; try discriminate.
    destruct (length stamps =? length Targets)%nat eqn:Hl; [|discriminate]. apply Nat.eqb_eq in Hl.
    injection Hact as <-. eapply phase_inv; [done|done|by apply initial_round|done|done].
  - destruct (rounds s !! rid) as [[sid []]|] eqn:Hr; try discriminate.
    destruct waiting; [discriminate|]. destruct (Targets !! i) as [target|] eqn:Ht; [|discriminate].
    injection Hact as <-. pose proof (inv_phase _ HI rid _ Hr) as Hph. cbn in Hph.
    eapply phase_inv; [done|exact Hr| |done|]; unfold take_answer; destruct (default true _); try done.
    apply answered_round; auto.
  - destruct (rounds s !! rid) as [[sid [| ? ? [|]| | |]]|] eqn:Hr; try discriminate. injection Hact as <-.
    eapply phase_inv; [done|exact Hr|apply (inv_phase _ HI rid _ Hr)|done|done].
  - destruct (rounds s !! rid) as [[sid [| ? ? [|]| | |]]|] eqn:Hr; try discriminate.
    destruct (sessions s !! sid) as [e|] eqn:He; [|discriminate]. destruct (s_done e) eqn:Hd; [|discriminate].
    injection Hact as <-. eapply done_inv; [done|exact Hr|done|]. cbn [r_session]. congruence.
  - destruct (rounds s !! rid) as [[sid [| ? ? [|]| | |]]|] eqn:Hr; try discriminate.
    destruct (live s sid) eqn:Hl; [|injection Hact as <-; by eapply stop_inv].
    destruct (sessions s !! sid) as [e|] eqn:He; [|discriminate].
    pose proof (update_inv rid sid e _ _ s HI Hr He) as Hu.
    destruct (Update (s_aggregate e) results) as [[quality results'] aggregate]. by injection Hact as <-.
  - destruct (rounds s !! rid) as [[sid []]|] eqn:Hr; try discriminate.
    destruct (sessions s !! sid) as [e|] eqn:He; [|discriminate]. injection Hact as <-.
    apply (publications_inv (set_phase rid (Published results accepted) s)).
    eapply phase_inv; [done|exact Hr|apply (inv_phase _ HI rid _ Hr)|done|done].
  - destruct (rounds s !! rid) as [[sid []]|] eqn:Hr; try discriminate.
    destruct (live s sid) eqn:Hl; [|injection Hact as <-; by eapply stop_inv].
    destruct (sessions s !! sid) as [e|] eqn:He; [|discriminate]. injection Hact as <-.
    apply live_iff in Hl as [Hc _]. pose proof (inv_phase _ HI rid _ Hr) as Hph.
    assert (HI' : Inv (if accepted then set_last (mkSnapshot (s_generation e) results) s else s)).
    { destruct accepted; [by eapply last_inv|done]. }
    eapply (finish_inv rid sid e); [exact HI'|by destruct accepted| |by destruct accepted].
    discriminate.
Qed.

(** ** Reachable schedulers *)
Inductive reachable : Scheduler -> Prop :=
| reach_new : reachable NewScheduler
| reach_act a s s' : reachable s -> possible a -> act a s = Some s' -> reachable s'.

Lemma scheduler_inv s : reachable s -> Inv s.
Proof. induction 1; [apply NewScheduler_inv|by eapply act_inv]. Qed.

Definition unfinished (s : Scheduler) (rid sid : nat) : Prop :=
  exists p, rounds s !! rid = Some (mkRound sid p) /\ p <> Finished.

Lemma one_round_per_session s rid rid' sid :
  Inv s -> unfinished s rid sid -> unfinished s rid' sid -> rid = rid'.
Proof.
  intros HI (p & Hr & Hp) (p' & Hr' & Hp').
  destruct (inv_round _ HI _ _ Hr Hp) as (e & He & Ha).
  destruct (inv_round _ HI _ _ Hr' Hp') as (e' & He' & Ha'). cbn [r_session] in *. congruence.
Qed.

(** [beginLocked] does not touch the snapshot. *)
Lemma begin_last sid s : last (beginLocked sid s).2 = last s.
Proof. unfold beginLocked. by repeat case_match. Qed.

(** The actions of the goroutine of one round. *)
Definition own_action (rid : nat) (a : Action) : Prop :=
  match a with
  | AInit r _ | ABudget r | AUpdate r | APublish r _ | ACommit r => r = rid
  | _ => False
  end.

Definition ends (rid : nat) (s : Scheduler) : Prop :=
  exists actions s', Forall (fun a => own_action rid a /\ possible a) actions /\
    run actions s = Some s' /\
    option_map r_phase (rounds s' !! rid) = Some Finished.

Lemma ends_now rid sid s : rounds s !! rid = Some (mkRound sid Finished) -> ends rid s.
Proof. intros Hr. exists [], s. split_and!; [constructor|done|]. by rewrite Hr. Qed.

Lemma ends_step rid a s s' :
  own_action rid a -> possible a -> act a s = Some s' -> ends rid s' -> ends rid s.
Proof.
  intros Ho Hp Ha (actions & s'' & Hf & Hr & Hd). exists (a :: actions), s''.
  split_and!; [by constructor| |done]. unfold run. cbn [fold_left]. cbn. by rewrite Ha.
Qed.

Lemma phase_lookup rid sid p q s :
  rounds s !! rid = Some (mkRound sid q) -> rounds (set_phase rid p s) !! rid = Some (mkRound sid p).
Proof.
  intros Hr. unfold set_phase. cbn [rounds]. rewrite (lookup_alter_some _ _ _ _ _ Hr).
  by rewrite decide_True by done.
Qed.

Lemma ends_published rid sid results accepted e s :
  rounds s !! rid = Some (mkRound sid (Published results accepted)) ->
  sessions s !! sid = Some e -> ends rid s.
Proof.
  intros Hr He. destruct (live s sid) eqn:Hl.
  - eapply (ends_step rid (ACommit rid)); [done|exact I| |].
    + cbn [act]. rewrite Hr, Hl, He. reflexivity.
    + eapply ends_now, phase_lookup. destruct accepted; exact Hr.
  - eapply (ends_step rid (ACommit rid)); [done|exact I| |].
    + cbn [act]. rewrite Hr, Hl. reflexivity.
    + by eapply ends_now, phase_lookup.
Qed.

Lemma ends_updated rid sid results quality e s :
  rounds s !! rid = Some (mkRound sid (Updated results quality)) ->
  sessions s !! sid = Some e -> ends rid s.
Proof.
  intros Hr He. eapply (ends_step rid (APublish rid true)); [done|exact I| |].
  - cbn [act]. rewrite Hr, He. reflexivity.
  - eapply (ends_published rid sid results true e); [|exact He]. by eapply (phase_lookup rid sid _ _ s).
Qed.

Lemma ends_collected rid sid results received e s :
  rounds s !! rid = Some (mkRound sid (Collecting results received 0)) ->
  sessions s !! sid = Some e -> ends rid s.
Proof.
  intros Hr He. destruct (live s sid) eqn:Hl.
  - destruct (Update (s_aggregate e) results) as [[quality results'] aggregate] eqn:Hu.
    eapply (ends_step rid (AUpdate rid)); [done|exact I| |].
    + cbn [act]. rewrite Hr, Hl, He, Hu. reflexivity.
    + eapply (ends_updated rid sid).
      * eapply phase_lookup. exact Hr.
      * unfold set_session. cbn [sessions set_phase]. by rewrite (lookup_alter_some _ _ _ _ _ He).
  - eapply (ends_step rid (AUpdate rid)); [done|exact I| |].
    + cbn [act]. rewrite Hr, Hl. reflexivity.
    + by eapply ends_now, phase_lookup.
Qed.

Lemma ends_collecting rid sid results received waiting e s :
  rounds s !! rid = Some (mkRound sid (Collecting results received waiting)) ->
  sessions s !! sid = Some e -> ends rid s.
Proof.
  destruct waiting as [|n]; [apply ends_collected|]. intros Hr He.
  eapply (ends_step rid (ABudget rid)); [done|exact I| |].
  - cbn [act]. rewrite Hr. reflexivity.
  - eapply ends_collected; [by eapply phase_lookup|exact He].
Qed.

(** Every round can end on its own. *)
Lemma round_ends s rid r : Inv s -> rounds s !! rid = Some r -> ends rid s.
Proof.
  intros HI Hr. destruct r as [sid p].
  destruct (decide (p = Finished)) as [->|Hp]; [by eapply ends_now|].
  destruct (inv_round _ HI _ _ Hr Hp) as (e & He & _). cbn [r_session] in He.
  destruct p; [|by eapply ends_collecting|by eapply ends_updated|by eapply ends_published|done].
  eapply (ends_step rid (AInit rid (replicate (length Targets) 1))); [done|by repeat constructor| |].
  - cbn [act]. rewrite Hr, length_replicate, Nat.eqb_refl. reflexivity.
  - eapply ends_collecting; [by eapply phase_lookup|exact He].
Qed.

(** ** Properties *)

(** In every interleaving of connections, timer ticks, manual probes and
    cancellations, at most one round of a live session is under way: ticks and
    manual requests join it instead of starting another one. *)
Theorem at_most_one_round_probes s rid rid' sid sid' :
  reachable s -> live s sid = true -> live s sid' = true ->
  unfinished s rid sid -> unfinished s rid' sid' -> rid = rid'.
Proof.
  intros Hs [Hc _]%live_iff [Hc' _]%live_iff Hu Hu'. rewrite Hc in Hc'. injection Hc' as <-.
  eapply one_round_per_session; eauto using scheduler_inv.
Qed.

(** The snapshot that readers get always belongs to the current connection
    generation and is either empty or one complete round: a result for every
    target in order, with a latency within the budget and a failure counter
    between 0 and 3. *)
Theorem snapshots_are_complete_and_current s :
  reachable s ->
  SnapGeneration (snapshotLocked s) = generation_of s (current s) /\
  (SnapResults (snapshotLocked s) = [] \/ complete_round (SnapResults (snapshotLocked s))).
Proof.
  intros HI%scheduler_inv. split; [by apply inv_generation|by apply inv_last].
Qed.

(** The snapshot changes only when a newer connection starts, which empties it, or
    when a round of the live session whose publication was accepted is stored:
    rounds that outlive their connection are dropped. *)
Theorem stale_rounds_publish_nothing s s' a :
  act a s = Some s' -> last s' <> last s ->
  (exists generation, a = AStart false generation /\ last s' = mkSnapshot generation []) \/
  (exists rid sid results, a = ACommit rid /\
     rounds s !! rid = Some (mkRound sid (Published results true)) /\ live s sid = true /\
     last s' = mkSnapshot (generation_of s (Some sid)) results).
Proof.
  intros Ha Hne. destruct a; cbn [act] in Ha.
  1: { injection Ha as <-. left. unfold Start in *. destruct ctxErr; [done|].
       exists generation. destruct (_ || _); [done|]. split; [done|]. by rewrite begin_last. }
  1: by injection Ha as <-.
  1: { injection Ha as <-. unfold tick in Hne. destruct (live s sid); by rewrite ?begin_last in Hne. }
  1: { injection Ha as <-. unfold Manual in Hne. destruct (current s) as [sid|]; [|done].
       destruct (ctxErr || _); [done|]. pose proof (begin_last sid s). by destruct (beginLocked sid s). }
  7: { right. destruct (rounds s !! rid) as [[sid []]|] eqn:Hr; try discriminate.
       destruct (live s sid) eqn:Hl; [|by injection Ha as <-].
       destruct (sessions s !! sid) as [e|] eqn:He; [|discriminate]. injection Ha as <-.
       destruct accepted; [|done]. exists rid, sid, results. split_and!; [done|done|done|].
       cbn. by rewrite He. }
  all: repeat case_match; try discriminate; by injection Ha as <-.
Qed.

(** A manual probe never waits forever: from any state, whatever the network does,
    the goroutine of the round it waits for can run to its end. *)
Theorem manual_wait_ends s ctxErr rid s' :
  reachable s -> Manual ctxErr s = (inr rid, s') -> ends rid s'.
Proof.
  intros Hs Hm. assert (HI : Inv s').
  { apply scheduler_inv. apply (reach_act (AManual ctxErr) s); [done|exact I|]. cbn [act]. by rewrite Hm. }
  unfold Manual in Hm. destruct (current s) as [sid|]; [|done].
  destruct (ctxErr || negb (live s sid)) eqn:Hl; [done|].
  apply orb_false_iff in Hl as [_ Hl%negb_false_iff]. apply live_iff in Hl as (_ & e & He & _).
  assert (Hr : exists r, rounds s' !! rid = Some r).
  { unfold beginLocked in Hm. rewrite He in Hm. destruct (s_active e) as [rid'|] eqn:Ha.
    - injection Hm as <- <-. apply scheduler_inv in Hs.
      destruct (inv_active _ Hs sid e rid' He Ha) as (r & Hr & _). eauto.
    - injection Hm as <- <-. cbn [rounds]. rewrite list_lookup_middle by done. eauto. }
  destruct Hr as [r Hr]. by eapply round_ends.
Qed.
End Invariant.

(** ** A concrete execution

    A connection starts, its round is answered and published; a manual probe
    starts a second round, which a new connection overtakes. *)
Definition demo_answer (rid i : nat) : Action :=
  AAnswer rid i (demo_result (negb (i =? 2)%nat) (default demo_target (Targets !! i))).

Definition demo_first : list Action :=
  [AStart false 7; AInit 0 (replicate 8 1)] ++ map (demo_answer 0) (seq 0 8)
  ++ [AUpdate 0; APublish 0 true; ACommit 0].

Definition demo_second : list Action :=
  [AManual false; ATick 0; AInit 1 (replicate 8 1); ABudget 1; AUpdate 1; AStart false 8;
   APublish 1 true].

Definition after (actions : list Action) : Scheduler := default NewScheduler (run actions NewScheduler).

Lemma reachable_run max_status actions s s' :
  reachable max_status s -> Forall (possible max_status) actions -> run actions s = Some s' ->
  reachable max_status s'.
Proof.
  revert s. induction actions as [|a actions IH]; intros s Hs Hf Hr; [by injection Hr as <-|].
  apply Forall_cons in Hf as [Ha Hf]. unfold run in Hr. cbn [fold_left] in Hr.
  destruct (act a s) as [s1|] eqn:E; cbn in Hr; rewrite E in Hr.
  - apply (IH s1); [by eapply reach_act|done|done].
  - exfalso. clear -Hr. induction actions as [|b l IH]; [discriminate|]. by apply IH.
Qed.

Lemma demo_answer_possible rid i : possible 599 (demo_answer rid i).
Proof.
  cbn [possible demo_answer]. intros target Ht. rewrite Ht. cbn [default from_option].
  destruct (i =? 2)%nat; cbn; (split; [|lia]); repeat split; try done; try (by cbn; lia).
  unfold probe_codes. set_solver.
Qed.

Lemma demo_first_possible : Forall (possible 599) demo_first.
Proof.
  unfold demo_first. apply Forall_app. split; [repeat constructor; done|].
  apply Forall_app. split; [|repeat constructor]. apply Forall_forall.
  intros a (i & -> & _)%list_elem_of_fmap. apply demo_answer_possible.
Qed.

Lemma demo_second_possible : Forall (possible 599) demo_second.
Proof. repeat constructor; done. Qed.

Definition demo_joined : Scheduler := after (demo_first ++ [AManual false; ATick 0]).

Lemma demo_joined_reachable : reachable 599 demo_joined.
Proof.
  apply (reachable_run 599 (demo_first ++ [AManual false; ATick 0]) NewScheduler); [constructor| |vm_compute; reflexivity].
  apply Forall_app. split; [apply demo_first_possible|by repeat constructor].
Qed.

Lemma demo_published_reachable : reachable 599 (after demo_first).
Proof.
  apply (reachable_run 599 demo_first NewScheduler); [constructor| |vm_compute; reflexivity].
  apply demo_first_possible.
Qed.

Lemma at_most_one_round_probes_witness :
  live demo_joined 0 = true /\ length (rounds demo_joined) = 2%nat /\ 1%nat = 1%nat.
Proof.
  split; [vm_compute; reflexivity|]. split; [vm_compute; reflexivity|].
  apply (at_most_one_round_probes 599 ltac:(discriminate) demo_joined 1 1 0 0 demo_joined_reachable);
    try (vm_compute; reflexivity); exists Begun; split; (vm_compute; reflexivity) || discriminate.
Defined.

(** The third target failed, the others answered. *)
Lemma snapshots_are_complete_and_current_witness :
  map Reachable (SnapResults (last (after demo_first))) = [true; true; false; true; true; true; true; true] /\
  SnapGeneration (last (after demo_first)) = 7 /\
  (SnapResults (last (after demo_first)) = [] \/ complete_round 599 (SnapResults (last (after demo_first)))).
Proof.
  split; [vm_compute; reflexivity|].
  apply (snapshots_are_complete_and_current 599 ltac:(discriminate) _ demo_published_reachable).
Defined.

(** The round that the new connection overtook is dropped, the first one was stored. *)
Lemma stale_rounds_publish_nothing_witness :
  option_map last (act (ACommit 1) (after (demo_first ++ demo_second))) = Some (mkSnapshot 8 []) /\
  let before := after (firstn (length demo_first - 1) demo_first) in
  ((exists generation, ACommit 0 = AStart false generation /\ last (after demo_first) = mkSnapshot generation []) \/
   (exists rid sid results, ACommit 0 = ACommit rid /\
     rounds before !! rid = Some (mkRound sid (Published results true)) /\ live before sid = true /\
     last (after demo_first) = mkSnapshot (generation_of before (Some sid)) results)).
Proof.
  split; [vm_compute; reflexivity|]. cbv zeta.
  apply (stale_rounds_publish_nothing _ _ (ACommit 0)); [vm_compute; reflexivity|].
  intros Heq%(f_equal (fun snap => length (SnapResults snap))). vm_compute in Heq. discriminate.
Defined.

Lemma manual_wait_ends_witness :
  let '(wait, s) := Manual false (after demo_first) in
  wait = inr 1%nat /\ ends 599 1 s.
Proof.
  destruct (Manual false (after demo_first)) as [wait s] eqn:Hm.
  assert (Hw : wait = inr 1%nat) by (vm_compute in Hm; by injection Hm as <- _). subst wait.
  split; [reflexivity|]. exact (manual_wait_ends 599 ltac:(discriminate) _ false 1 s demo_published_reachable Hm).
Defined.
