(* ===== verification/Netip.v ===== *)
(** * IP addresses and prefixes of the Go standard library ([net/netip])

    Parsing and printing of IPv4 and IPv6 addresses and CIDR prefixes, with
    the classification methods the program's validators use.  An IPv4 address
    is its 32-bit number, an IPv6 address its 128-bit number and zone. *)
From stdpp Require Import pretty.
From S2P Require Import Prelude GoText.

#[local] Open Scope string_scope.
#[local] Open Scope Z_scope.

Inductive Addr :=
| AddrInvalid
| Addr4 (v : Z)
| Addr6 (v : Z) (zone : string).

#[export] Instance Addr_eq_dec : EqDecision Addr.
Proof. solve_decision. Defined.

Record Prefix := mkPrefix { PrefixAddr : Addr; PrefixBits : Z }.

#[export] Instance Prefix_eq_dec : EqDecision Prefix.
Proof. solve_decision. Defined.

(** ** Parsing *)

Definition dot : ascii := byte_of 46.
Definition colon : ascii := byte_of 58.
Definition is_digit (b : Z) : bool := (48 <=? b) && (b <=? 57).

(** The loop of [parseIPv4Fields]: [val], [digLen] and the finished fields
    (in reverse); [prev_dot] is "at the start or just after a dot". *)
Fixpoint parse4_fields (s : string) (val digLen : Z) (done_ : list Z) : option (list Z) :=
  match s with
  | "" => if Z.of_nat (length done_) <? 3 then None else Some (rev (val :: done_))
  | String a s' =>
    let b := byte_val a in
    if is_digit b then
      if (digLen =? 1) && (val =? 0) then None
      else let val' := val * 10 + (b - 48) in
           if 255 <? val' then None else parse4_fields s' val' (digLen + 1) done_
    else if b =? 46 then
      if (digLen =? 0) || (s' =?s "") then None
      else if Z.of_nat (length done_) =? 3 then None
      else parse4_fields s' 0 0 (val :: done_)
    else None
  end.

Definition bytes_to_Z (l : list Z) : Z := fold_left (fun acc b => acc * 256 + b) l 0.

Definition parseIPv4 (s : string) : option Addr :=
  match parse4_fields s 0 0 [] with
  | Some l => Some (Addr4 (bytes_to_Z l))
  | None => None
  end.

Definition hex_val (b : Z) : option Z :=
  if is_digit b then Some (b - 48)
  else if (97 <=? b) && (b <=? 102) then Some (b - 87)
  else if (65 <=? b) && (b <=? 70) then Some (b - 55)
  else None.

(** One hexadecimal group: its value, its number of digits and the rest;
    [None] when the group has more than four digits. *)
Fixpoint hex_group (s : string) (acc off : Z) : option (Z * Z * string) :=
  match s with
  | "" => Some (acc, off, s)
  | String a s' =>
    match hex_val (byte_val a) with
    | Some d => if 3 <? off then None else hex_group s' (acc * 16 + d) (off + 1)
    | None => Some (acc, off, s)
    end
  end.

Definition starts_with (b : Z) (s : string) : bool :=
  match s with String a _ => byte_val a =? b | "" => false end.

Definition tail (s : string) : string := match s with String _ s' => s' | "" => "" end.

(** The group loop of [parseIPv6].  [ip] holds the bytes written so far, in
    order; the result is those bytes, the ellipsis position and the unparsed
    rest.  Eight groups at most, hence the fuel. *)
Fixpoint parse6_groups (n : nat) (s : string) (ip : list Z) (ellipsis : option nat)
    : option (list Z * option nat * string) :=
  match n with
  | O => Some (ip, ellipsis, s)
  | S n' =>
    if 16 <=? Z.of_nat (length ip) then Some (ip, ellipsis, s) else
    match hex_group s 0 0 with
    | None => None
    | Some (acc, off, rest) =>
      if off =? 0 then None
      else if starts_with 46 rest then
        if bool_decide (ellipsis = None) && negb (Z.of_nat (length ip) =? 12) then None
        else if 16 <? Z.of_nat (length ip) + 4 then None
        else match parse4_fields s 0 0 [] with
             | Some l => Some ((ip ++ l)%list, ellipsis, "")
             | None => None
             end
      else
      let ip' := (ip ++ [acc / 256; acc `mod` 256])%list in
      if rest =?s "" then Some (ip', ellipsis, "")
      else if negb (starts_with 58 rest) then None
      else if len rest =? 1 then None
      else
      let rest := tail rest in
      if starts_with 58 rest then
        match ellipsis with
        | Some _ => None
        | None => let rest := tail rest in
                  if rest =?s "" then Some (ip', Some (length ip'), "")
                  else parse6_groups n' rest ip' (Some (length ip'))
        end
      else parse6_groups n' rest ip' ellipsis
    end
  end.

(** Splits at the first [%]: the text before it and, when present, the zone. *)
Fixpoint split_zone (s : string) : string * option string :=
  match s with
  | "" => ("", None)
  | String a s' => if byte_val a =? 37 then ("", Some s')
                   else let '(t, z) := split_zone s' in (String a t, z)
  end.

Definition parseIPv6 (text : string) : option Addr :=
  let '(s, zone) := split_zone text in
  if match zone with Some "" => true | _ => false end then None else
  let z := match zone with Some z => z | None => "" end in
  let lead := starts_with 58 s && starts_with 58 (tail s) in
  let s := if lead then tail (tail s) else s in
  if lead && (s =?s "") then Some (Addr6 0 z)
  else match parse6_groups 9 s [] (if lead then Some O else None) with
  | None => None
  | Some (ip, ellipsis, rest) =>
    if negb (rest =?s "") then None
    else if Z.of_nat (length ip) <? 16 then
      match ellipsis with
      | None => None
      | Some e => Some (Addr6 (bytes_to_Z (take e ip ++ repeat 0 (16 - length ip)%nat
                                             ++ drop e ip)%list) z)
      end
    else match ellipsis with
         | Some _ => None
         | None => Some (Addr6 (bytes_to_Z ip) z)
         end
  end.

(** The first of [.], [:] and [%] decides the family. *)
Fixpoint addr_family (s : string) : Z :=
  match s with
  | "" => 0
  | String a s' =>
    let b := byte_val a in
    if b =? 46 then 4 else if b =? 58 then 6 else if b =? 37 then 0 else addr_family s'
  end.

Definition ParseAddr (s : string) : option Addr :=
  if addr_family s =? 4 then parseIPv4 s
  else if addr_family s =? 6 then parseIPv6 s else None.

(** ** Printing *)

Definition string4 (v : Z) : string :=
  strings_Join (map pretty [(v / 16777216) `mod` 256; (v / 65536) `mod` 256;
                            (v / 256) `mod` 256; v `mod` 256]) ".".

Definition hex_digit (d : Z) : string :=
  String (byte_of (if d <? 10 then 48 + d else 87 + d)) "".

(** [appendHex]: no leading zeros, at least one digit. *)
Definition hex16 (g : Z) : string :=
  (if 4096 <=? g then hex_digit (g / 4096) else "") ++s
  (if 256 <=? g then hex_digit ((g / 256) `mod` 16) else "") ++s
  (if 16 <=? g then hex_digit ((g / 16) `mod` 16) else "") ++s hex_digit (g `mod` 16).

Definition group16 (v : Z) (i : nat) : Z := (v / 2 ^ (16 * (7 - Z.of_nat i))) `mod` 65536.

(** Length of the run of zero groups starting at [i]. *)
Fixpoint zero_run (n : nat) (v : Z) (i : nat) : nat :=
  match n with
  | O => O
  | S n' => if (i <? 8)%nat && (group16 v i =? 0) then S (zero_run n' v (S i)) else O
  end.

(** The first longest run of at least two zero groups: its start and end. *)
Definition longest_zeros (v : Z) : nat * nat :=
  fold_left (fun best i =>
    let l := zero_run 8 v i in
    if ((2 <=? l) && (snd best - fst best <? l))%nat then (i, (i + l)%nat) else best)
    (seq 0 8) (255%nat, 255%nat).

Fixpoint print6 (n : nat) (v : Z) (zs ze i : nat) : string :=
  match n with
  | O => ""
  | S n' =>
    if (8 <=? i)%nat then ""
    else if (i =? zs)%nat then
      "::" ++s (if (8 <=? ze)%nat then ""
                else hex16 (group16 v ze) ++s print6 n' v zs ze (S ze))
    else (if (0 <? i)%nat then ":" else "") ++s hex16 (group16 v i) ++s print6 n' v zs ze (S i)
  end.

Definition Is4In6 (a : Addr) : bool :=
  match a with Addr6 v _ => v / 2 ^ 32 =? 65535 | _ => false end.

Definition with_zone (z : string) : string := if z =?s "" then "" else "%" ++s z.

Definition Addr_String (a : Addr) : string :=
  match a with
  | AddrInvalid => "invalid IP"
  | Addr4 v => string4 v
  | Addr6 v z =>
    if Is4In6 a then "::ffff:" ++s string4 (v `mod` 2 ^ 32) ++s with_zone z
    else let '(zs, ze) := longest_zeros v in print6 9 v zs ze 0 ++s with_zone z
  end.

(** ** Classification *)

Definition Is4 (a : Addr) : bool := match a with Addr4 _ => true | _ => false end.
Definition Is6 (a : Addr) : bool := match a with Addr6 _ _ => true | _ => false end.
Definition Unmap (a : Addr) : Addr :=
  match a with Addr6 v _ => if Is4In6 a then Addr4 (v `mod` 2 ^ 32) else a | _ => a end.

Definition IsLoopback (a : Addr) : bool :=
  match Unmap a with
  | Addr4 v => v / 16777216 =? 127
  | Addr6 v _ => v =? 1
  | AddrInvalid => false
  end.

Definition IsMulticast (a : Addr) : bool :=
  match Unmap a with
  | Addr4 v => (v / 2 ^ 28) =? 14
  | Addr6 v _ => v / 2 ^ 120 =? 255
  | AddrInvalid => false
  end.

Definition IsUnspecified (a : Addr) : bool :=
  match a with
  | Addr4 v => v =? 0
  | Addr6 v z => (v =? 0) && (z =?s "")
  | AddrInvalid => false
  end.

(** ** Prefixes *)

(** Splits at the last [/]. *)
Fixpoint last_slash (s : string) : option (string * string) :=
  match s with
  | "" => None
  | String a s' =>
    match last_slash s' with
    | Some (l, r) => Some (String a l, r)
    | None => if byte_val a =? 47 then Some ("", s') else None
    end
  end.

Fixpoint atoi_digits (s : string) (acc : Z) : option Z :=
  match s with
  | "" => Some acc
  | String a s' => let b := byte_val a in
    if is_digit b then atoi_digits s' (acc * 10 + (b - 48)) else None
  end.

Definition prefix_bits (s : string) : option Z :=
  match s with
  | "" => None
  | String a s' =>
    let b := byte_val a in
    if negb (s' =?s "") && ((b <? 49) || (57 <? b)) then None
    else atoi_digits s 0
  end.

Definition max_bits (a : Addr) : Z := if Is6 a then 128 else 32.

Definition ParsePrefix (s : string) : option Prefix :=
  match last_slash s with
  | None => None
  | Some (ips, bs) =>
    match ParseAddr ips with
    | None => None
    | Some ip =>
      if match ip with Addr6 _ z => negb (z =?s "") | _ => false end then None
      else match prefix_bits bs with
      | Some bits => if max_bits ip <? bits then None else Some (mkPrefix ip bits)
      | None => None
      end
    end
  end.

Definition Prefix_String (p : Prefix) : string :=
  Addr_String (PrefixAddr p) ++s "/" ++s pretty (PrefixBits p).

(** The address with the bits below the prefix cleared. *)
Definition mask_addr (a : Addr) (bits : Z) : Addr :=
  match a with
  | Addr4 v => Addr4 (v / 2 ^ (32 - bits) * 2 ^ (32 - bits))
  | Addr6 v _ => Addr6 (v / 2 ^ (128 - bits) * 2 ^ (128 - bits)) ""
  | AddrInvalid => AddrInvalid
  end.

Definition Masked (p : Prefix) : Prefix :=
  mkPrefix (mask_addr (PrefixAddr p) (PrefixBits p)) (PrefixBits p).

Definition Contains (p : Prefix) (a : Addr) : bool :=
  match PrefixAddr p, a with
  | Addr4 v, Addr4 w => v / 2 ^ (32 - PrefixBits p) =? w / 2 ^ (32 - PrefixBits p)
  | Addr6 v _, Addr6 w z =>
    (z =?s "") && (v / 2 ^ (128 - PrefixBits p) =? w / 2 ^ (128 - PrefixBits p))
  | _, _ => false
  end.

Definition Overlaps (p o : Prefix) : bool :=
  if bool_decide (p = o) then true
  else if negb (Bool.eqb (Is4 (PrefixAddr p)) (Is4 (PrefixAddr o))) then false
  else let m := Z.min (PrefixBits p) (PrefixBits o) in
       if m =? 0 then true
       else bool_decide (mask_addr (PrefixAddr p) m = mask_addr (PrefixAddr o) m).

Definition reparse (s : string) : option string := Addr_String <$> ParseAddr s.

Example parse_v4 : reparse "172.20.9.15" = Some "172.20.9.15". Proof. vm_compute. reflexivity. Qed.
Example parse_v6 : reparse "2001:DB8:0:0:1:0:0:1" = Some "2001:db8::1:0:0:1".
Proof. vm_compute. reflexivity. Qed.
Example parse_mapped : reparse "::ffff:1.2.3.4" = Some "::ffff:1.2.3.4".
Proof. vm_compute. reflexivity. Qed.
Example parse_zone : reparse "fe80::1%eth0" = Some "fe80::1%eth0". Proof. vm_compute. reflexivity. Qed.
Example parse_bad : map reparse ["1.2.3"; "01.2.3.4"; "256.1.1.1"; "1.2.3.4."; ":::"; "1::2::3"; "::%"]
  = [None; None; None; None; None; None; None].
Proof. vm_compute. reflexivity. Qed.
Example prefix_ok : Prefix_String <$> ParsePrefix "10.0.0.0/8" = Some "10.0.0.0/8".
Proof. vm_compute. reflexivity. Qed.

(** ** Ranges: what is parsed fits its width *)
Definition is_byte (b : Z) : Prop := 0 <= b < 256.

Lemma bytes_to_Z_app l m : bytes_to_Z (l ++ m)%list = bytes_to_Z l * 256 ^ Z.of_nat (length m) + bytes_to_Z m.
Proof.
  unfold bytes_to_Z. rewrite fold_left_app. generalize (fold_left (fun acc b => acc * 256 + b) l 0) as a.
  assert (Hgen : forall a, fold_left (fun acc b => acc * 256 + b) m a =
    a * 256 ^ Z.of_nat (length m) + fold_left (fun acc b => acc * 256 + b) m 0); [|exact Hgen].
  induction m as [|b m IH]; intros a; [simpl; lia|]. cbn [fold_left length]. rewrite (IH (a * 256 + b)), (IH (0 * 256 + b)).
  rewrite Nat2Z.inj_succ, Z.pow_succ_r by lia. lia.
Qed.

Lemma bytes_to_Z_range l : Forall is_byte l -> 0 <= bytes_to_Z l < 256 ^ Z.of_nat (length l).
Proof.
  induction l as [|b l IH] using rev_ind; intros H; [done|]. apply Forall_app in H as [Hl Hb].
  rewrite Forall_singleton in Hb. rewrite bytes_to_Z_app, length_app, Nat2Z.inj_add, Z.pow_add_r by lia.
  specialize (IH Hl). unfold is_byte in Hb. change (bytes_to_Z [b]) with (0 * 256 + b).
  replace (256 ^ Z.of_nat (length [b])) with 256 by done. lia.
Qed.

Lemma parse4_fields_range s val digLen done_ l : is_byte val -> Forall is_byte done_ -> (length done_ <= 3)%nat ->
  parse4_fields s val digLen done_ = Some l -> Forall is_byte l /\ length l = 4%nat.
Proof.
  revert val digLen done_. induction s as [|a s IH]; intros val digLen done_ Hv Hd Hl; cbn [parse4_fields].
  - destruct (_ <? 3) eqn:E; [done|]. intros [= <-]. bool_to_prop. split.
    + apply Forall_app. split; [by apply Forall_rev|by constructor].
    + rewrite length_app, length_rev. simpl. lia.
  - destruct (is_digit (byte_val a)) eqn:Ed.
    + destruct (_ && _); [done|]. destruct (255 <? _) eqn:E; [done|]. apply IH; try done.
      unfold is_digit in Ed. bool_to_prop. unfold is_byte in *. lia.
    + destruct (_ =? 46); [|done]. destruct (_ || _); [done|]. destruct (_ =? 3) eqn:E; [done|]. bool_to_prop.
      apply IH; [done|by constructor|simpl; lia].
Qed.

Lemma hex_group_range s acc off r : 0 <= off -> 0 <= acc < 16 ^ off -> off <= 4 -> hex_group s acc off = Some r ->
  0 <= r.1.1 < 65536.
Proof.
  revert acc off. induction s as [|a s IH]; intros acc off H0 Ha Ho; simpl.
  - intros [= <-]. simpl. pose proof (Z.pow_le_mono_r 16 off 4). lia.
  - destruct (hex_val (byte_val a)) as [d|] eqn:E.
    + destruct (3 <? off) eqn:E3; [done|]. bool_to_prop. apply IH; [lia| |lia].
      assert (0 <= d < 16) by (unfold hex_val, is_digit in E; repeat case_match; simplify_eq; bool_to_prop; lia).
      rewrite Z.pow_add_r by lia. lia.
    + intros [= <-]. simpl. pose proof (Z.pow_le_mono_r 16 off 4). lia.
Qed.

Definition even_bytes (ip : list Z) : Prop := Forall is_byte ip /\ exists k, length ip = (2 * k)%nat.

Lemma parse6_groups_range n s ip ellipsis r : even_bytes ip -> (length ip <= 16)%nat ->
  match ellipsis with Some e => (e <= length ip)%nat | None => True end ->
  parse6_groups n s ip ellipsis = Some r -> even_bytes r.1.1 /\ (length r.1.1 <= 16)%nat /\
    match r.1.2 with Some e => (e <= length r.1.1)%nat | None => True end.
Proof.
  revert s ip ellipsis. induction n as [|n IH]; intros s ip ellipsis Heven Hl He; cbn [parse6_groups].
  { by intros [= <-]. }
  destruct (16 <=? _) eqn:E16; [by intros [= <-]|]. bool_to_prop. destruct Heven as [Hb [k Hk]].
  destruct (hex_group s 0 0) as [[[acc off] rest]|] eqn:Eg; [|done].
  apply hex_group_range in Eg; [|lia..]. simpl in Eg.
  destruct (off =? 0); [done|]. destruct (starts_with 46 rest).
  - destruct (_ && _); [done|]. destruct (16 <? _) eqn:E4; [done|]. bool_to_prop.
    destruct (parse4_fields s 0 0 []) as [l|] eqn:E; [|done]. intros [= <-]. simpl.
    apply parse4_fields_range in E as [Hb4 Hl4]; [|done|done|simpl; lia].
    rewrite length_app, Hl4. split; [split|split]; [by apply Forall_app|exists (k + 2)%nat; rewrite length_app; lia|lia|].
    destruct ellipsis; [lia|done].
  - set (ip' := (ip ++ _)%list).
    assert (Hip' : even_bytes ip' /\ (length ip' <= 16)%nat /\ length ip' = S (S (length ip))).
    { unfold ip'. rewrite length_app. simpl. split; [split|lia].
      - apply Forall_app. split; [done|]. repeat constructor; unfold is_byte.
        all: try (apply Z.div_pos; lia); try (apply Z.div_lt_upper_bound; lia); apply Z.mod_pos_bound; lia.
      - exists (S k). rewrite length_app. simpl. lia. }
    destruct Hip' as (Hip & Hlen & Hlen').
    assert (He' : match ellipsis with Some e => (e <= length ip')%nat | None => True end) by (destruct ellipsis; [lia|done]).
    destruct (rest =?s ""); [intros [= <-]; by split|]. destruct (negb _); [done|]. destruct (_ =? 1); [done|].
    destruct (starts_with 58 (tail rest)).
    + destruct ellipsis; [done|]. destruct (_ =?s ""); [intros [= <-]; split_and!; try done; simpl; lia|]. by apply IH.
    + by apply IH.
Qed.

(** Addresses have the range of their family. *)
Definition addr_range (a : Addr) : Prop :=
  match a with Addr4 v => 0 <= v < 2 ^ 32 | Addr6 v _ => 0 <= v < 2 ^ 128 | AddrInvalid => False end.

Lemma ParseAddr_range s a : ParseAddr s = Some a -> addr_range a.
Proof.
  unfold ParseAddr. destruct (addr_family s =? 4); [|destruct (addr_family s =? 6); [|done]].
  - unfold parseIPv4. destruct (parse4_fields s 0 0 []) as [l|] eqn:E; [|done]. intros [= <-].
    apply parse4_fields_range in E as [Hb Hl]; [|done|done|simpl; lia].
    apply bytes_to_Z_range in Hb. by rewrite Hl in Hb.
  - unfold parseIPv6. destruct (split_zone s) as [t zone]. destruct (match zone with Some "" => true | _ => false end); [done|].
    destruct (_ && (_ =?s "")); [by intros [= <-]|].
    destruct (parse6_groups 9 _ [] _) as [[[ip ellipsis] rest]|] eqn:E; [|done].
    apply parse6_groups_range in E as ([Hb [k Hk]] & Hl & He); [|split; [done|by exists 0%nat]|simpl; lia|by case_match].
    simpl in *. destruct (negb _); [done|]. destruct (_ <? 16) eqn:E16; bool_to_prop.
    + destruct ellipsis as [e|]; [|done]. intros [= <-]. unfold addr_range.
      set (l := (take e ip ++ repeat 0 (16 - length ip) ++ drop e ip)%list).
      assert (Hl16 : length l = 16%nat).
      { unfold l. rewrite !length_app, length_take, length_drop, repeat_length. lia. }
      assert (Hbl : Forall is_byte l).
      { unfold l. repeat (apply Forall_app; split); [by apply Forall_take| |by apply Forall_drop].
        apply Forall_forall. intros x Hx%list_elem_of_In%repeat_spec. by subst. }
      apply bytes_to_Z_range in Hbl. by rewrite Hl16 in Hbl.
    + destruct ellipsis; [done|]. intros [= <-]. apply bytes_to_Z_range in Hb.
      replace (length ip) with 16%nat in Hb by lia. exact Hb.
Qed.

Lemma atoi_digits_nonneg s acc n : 0 <= acc -> atoi_digits s acc = Some n -> 0 <= n.
Proof.
  revert acc. induction s as [|a s IH]; intros acc Ha; simpl; [by intros [= <-]|].
  destruct (is_digit (byte_val a)) eqn:E; [|done]. apply IH. unfold is_digit in E. bool_to_prop. lia.
Qed.

Lemma ParsePrefix_range s p : ParsePrefix s = Some p ->
  addr_range (PrefixAddr p) /\ 0 <= PrefixBits p <= max_bits (PrefixAddr p) /\
  match PrefixAddr p with Addr6 _ z => z = "" | _ => True end.
Proof.
  unfold ParsePrefix. destruct (last_slash s) as [[ips bs]|]; [|done].
  destruct (ParseAddr ips) as [ip|] eqn:E; [|done]. apply ParseAddr_range in E.
  destruct (match ip with Addr6 _ z => negb (z =?s "") | _ => false end) eqn:Ez; [done|].
  destruct (prefix_bits bs) as [bits|] eqn:Eb; [|done]. destruct (max_bits ip <? bits) eqn:Em; [done|].
  intros [= <-]. bool_to_prop. simpl. split; [done|]. split.
  - split; [|lia]. unfold prefix_bits in Eb. destruct bs; [done|]. destruct (_ && _); [done|].
    by apply atoi_digits_nonneg in Eb.
  - destruct ip as [| |? z]; try done. apply negb_false_iff, String.eqb_eq in Ez. done.
Qed.
