(* ===== verification/AccessModel.v ===== *)
(** * Access policies ([internal/accessmodel])

    The policy a client is provisioned with, its validation, the lexical test
    of the Windows credential path and the order-insensitive digest.  Errors
    are their message texts; [None] is a nil error. *)
From stdpp Require Import pretty.
From S2P Require Import Prelude GoText Netip.

#[local] Open Scope string_scope.
#[local] Open Scope Z_scope.

(** ** Data (model.go) *)
Record CredentialRef := mkCredentialRef { CredKind : string; CredPath : string }.

Record Node := mkNode {
  NodeID : string;
  NodeTransport : string;
  NodeAddress : string;
  NodePort : Z;
  NodePriority : Z
}.

Record Policy := mkPolicy {
  SchemaVersion : Z;
  Mode : string;
  Nodes : list Node;
  CorporateCIDRs : list string;
  CorporateDNS : list string;
  InternalSuffixes : list string;
  BlockUDP : bool;
  BlockQUIC : bool;
  PolicyCredential : CredentialRef
}.

#[export] Instance CredentialRef_eq_dec : EqDecision CredentialRef.
Proof. solve_decision. Defined.
#[export] Instance Node_eq_dec : EqDecision Node.
Proof. solve_decision. Defined.

Inductive ConnectionState :=
| StatePreparing | StatePrepared | StateDisconnected | StateConnecting
| StateConnected | StateRestoring | StateFailedSafe | StateFailed.

#[export] Instance ConnectionState_eq_dec : EqDecision ConnectionState.
Proof. solve_decision. Defined.

Definition state_string (s : ConnectionState) : string :=
  match s with
  | StatePreparing => "preparing"
  | StatePrepared => "prepared"
  | StateDisconnected => "disconnected"
  | StateConnecting => "connecting"
  | StateConnected => "connected"
  | StateRestoring => "restoring"
  | StateFailedSafe => "failed_safe"
  | StateFailed => "failed"
  end.

(** ** The credential path (credential_path.go)

    A path is the list of its byte values. *)
Definition path_bytes (s : string) : list Z := map byte_val (String.list_ascii_of_string s).

Definition credentialPathSeparator (c : Z) : bool := (c =? 92) || (c =? 47).

Definition credentialPathUpper (c : Z) : Z :=
  if (97 <=? c) && (c <=? 122) then c - 32 else c.

Definition credentialPathHasPrefixFold (s prefix : list Z) : bool :=
  if (length s <? length prefix)%nat then false
  else if forallb (fun '(p, c) =>
            if credentialPathSeparator p then credentialPathSeparator c
            else credentialPathUpper p =? credentialPathUpper c) (zip prefix s)
  then match s !! length prefix with
       | Some c => credentialPathSeparator c
       | None => true
       end
  else false.

(** The part before the first separator, the part after it, whether there was
    one. *)
Fixpoint cutCredentialPath (path : list Z) : list Z * list Z * bool :=
  match path with
  | [] => ([], [], false)
  | c :: path' =>
    if credentialPathSeparator c then ([], path', true)
    else let '(before, after, found) := cutCredentialPath path' in (c :: before, after, found)
  end.

Fixpoint unc_len_from (path : list Z) (i count : nat) : nat :=
  match path with
  | [] => i
  | c :: path' =>
    if credentialPathSeparator c then
      (if (S count =? 2)%nat then i else unc_len_from path' (S i) (S count))
    else unc_len_from path' (S i) count
  end.

(** [credentialUNCLen(path, prefixLen)]: the scan starts at [prefixLen]; past
    the end it returns [len(path)]. *)
Definition credentialUNCLen (path : list Z) (prefixLen : nat) : nat :=
  if (prefixLen <? length path)%nat then unc_len_from (drop prefixLen path) prefixLen 0
  else length path.

Fixpoint has_dotdot (fuel : nat) (p : list Z) : bool :=
  match fuel, p with
  | O, _ | _, [] => false
  | S fuel', _ =>
    let '(part, rest, _) := cutCredentialPath p in
    bool_decide (part = [46; 46]) || has_dotdot fuel' rest
  end.

Definition validCredentialVolumeNameLen (path : list Z) (n : nat) : nat :=
  if has_dotdot (S n) (take n path) then O else n.

Definition device_prefixes : list (list Z) := [[92; 92; 46]; [92; 92; 63]; [92; 63; 63]].

Definition credentialVolumeNameLen (path : list Z) : nat :=
  if bool_decide (path !! 1%nat = Some 58) then 2%nat
  else match path with
  | [] => O
  | c0 :: _ =>
    if negb (credentialPathSeparator c0) then O
    else if existsb (credentialPathHasPrefixFold path) device_prefixes then
      if (length path =? 3)%nat then 3%nat
      else if credentialPathHasPrefixFold (drop 4 path) [85; 78; 67] then
        validCredentialVolumeNameLen path (credentialUNCLen path 8)
      else let '(_, rest, ok) := cutCredentialPath (drop 4 path) in
           if negb ok then validCredentialVolumeNameLen path (length path)
           else validCredentialVolumeNameLen path (length path - length rest - 1)%nat
    else match path !! 1%nat with
         | Some c1 => if credentialPathSeparator c1
                      then validCredentialVolumeNameLen path (credentialUNCLen path 2) else O
         | None => O
         end
  end.

(** [None] is the run-time panic of an index out of range. *)
Definition windowsCredentialPathIsAbs (text : string) : option bool :=
  let path := path_bytes text in
  let l := credentialVolumeNameLen path in
  if (l =? 0)%nat then Some false
  else match path !! 0%nat with
  | None => None
  | Some c0 =>
    match (if credentialPathSeparator c0 then credentialPathSeparator <$> path !! 1%nat
           else Some false) with
    | None => None
    | Some true => Some true
    | Some false =>
      match drop l path with
      | [] => Some false
      | c :: _ => Some (credentialPathSeparator c)
      end
    end
  end.

(** ** Validation (validate.go) *)
Definition schemaVersionLegacy : Z := 1.
Definition schemaVersionHTTP : Z := 2.
Definition modePoC := "poc".

Definition validateCredential (credential : CredentialRef) : option string :=
  if negb (CredKind credential =?s "dpapi-file") then
    Some ("credential.kind must be " ++s go_quote "dpapi-file")
  else if bool_decide (windowsCredentialPathIsAbs (CredPath credential) = Some true) then None
  else Some "credential.path must be an absolute path".

(** [fmt.Sprintf("%s:%d", addr, port)], the key of the endpoint set. *)
Definition endpoint_key (addr : Addr) (port : Z) : string :=
  Addr_String addr ++s ":" ++s pretty port.

Definition address_rejected (addr : Addr) : bool :=
  IsLoopback addr || IsMulticast addr || IsUnspecified addr.

Definition approved_endpoint (node : Node) (addr : Addr) : bool :=
  (NodeTransport node =?s "http-connect") && (Addr_String addr =?s "172.20.9.15") &&
  (NodePort node =? 8080).

(** The body of the loop of [validateNodes]: the address and port of a node,
    with the errors in the order of the code. *)
Definition check_node_endpoint (schemaVersion : Z) (node : Node) : string + string :=
  match ParseAddr (NodeAddress node) with
  | None => inl "nodes.address must contain valid IP addresses"
  | Some addr =>
    if address_rejected addr then
      inl "nodes.address must not contain loopback, multicast, or unspecified addresses"
    else if NodePort node <? 1024 then inl "nodes.port must be 1024 or higher"
    else if (schemaVersion =? schemaVersionHTTP) && negb (approved_endpoint node addr) then
      inl "schema_version 2 requires the approved http-connect endpoint"
    else inr (endpoint_key addr (NodePort node))
  end.

Fixpoint validate_nodes_loop (schemaVersion : Z) (nodes : list Node)
    (seenIDs seenEndpoints : gset string) : option string :=
  match nodes with
  | [] => None
  | node :: rest =>
    if strings_TrimSpace (NodeID node) =?s "" then Some "nodes.id must not be empty"
    else if decide (NodeID node ∈ seenIDs) then Some "nodes.id must be unique"
    else
    match check_node_endpoint schemaVersion node with
    | inl err => Some err
    | inr endpoint =>
      if decide (endpoint ∈ seenEndpoints) then Some "nodes endpoint must be unique"
      else validate_nodes_loop schemaVersion rest ({[NodeID node]} ∪ seenIDs)
             ({[endpoint]} ∪ seenEndpoints)
    end
  end.

Definition validateNodes (schemaVersion : Z) (nodes : list Node) : option string :=
  if bool_decide (nodes = []) then Some "nodes must not be empty"
  else validate_nodes_loop schemaVersion nodes ∅ ∅.

(** The loop shared by the three list validators: [check] gives the error or
    the key that must not repeat. *)
Fixpoint validate_unique_loop (check : string -> string + string) (duplicate : string)
    (values : list string) (seen : gset string) : option string :=
  match values with
  | [] => None
  | value :: rest =>
    match check value with
    | inl err => Some err
    | inr key =>
      if decide (key ∈ seen) then Some duplicate
      else validate_unique_loop check duplicate rest ({[key]} ∪ seen)
    end
  end.

Definition check_cidr (value : string) : string + string :=
  match ParsePrefix value with
  | None => inl "corporate_cidrs must contain canonical CIDRs"
  | Some prefix =>
    if negb (Prefix_String prefix =?s value) then
      inl "corporate_cidrs must contain canonical CIDRs"
    else if PrefixBits prefix =? 0 then inl "corporate_cidrs must not include a default route"
    else inr value
  end.

Definition validateCorporateCIDRs (values : list string) : option string :=
  if bool_decide (values = []) then Some "corporate_cidrs must not be empty"
  else validate_unique_loop check_cidr "corporate_cidrs must not contain duplicates" values ∅.

Definition check_dns (value : string) : string + string :=
  match ParseAddr value with
  | None => inl "corporate_dns must contain valid IP addresses"
  | Some addr =>
    if address_rejected addr then
      inl "corporate_dns must not contain loopback, multicast, or unspecified addresses"
    else inr (Addr_String addr)
  end.

Definition validateCorporateDNS (values : list string) : option string :=
  validate_unique_loop check_dns "corporate_dns must not contain duplicates" values ∅.

Section Validate.
Context `{UnicodeTables}.

Definition check_suffix (value : string) : string + string :=
  if strings_TrimSpace value =?s "" then
    inl "internal_suffixes must not contain empty values"
  else inr (strings_ToLower value).

Definition validateInternalSuffixes (values : list string) : option string :=
  validate_unique_loop check_suffix "internal_suffixes must not contain duplicates" values ∅.

Definition Validate (policy : Policy) : option string :=
  if negb (SchemaVersion policy =? schemaVersionLegacy) &&
     negb (SchemaVersion policy =? schemaVersionHTTP) then
    Some "schema_version must be 1 or 2"
  else if negb (Mode policy =?s modePoC) then Some ("mode must be " ++s go_quote modePoC)
  else if negb (BlockUDP policy) then Some "block_udp must be true"
  else if negb (BlockQUIC policy) then Some "block_quic must be true"
  else
  let credential_error :=
    if SchemaVersion policy =? schemaVersionLegacy then
      validateCredential (PolicyCredential policy)
    else if bool_decide (PolicyCredential policy = mkCredentialRef "" "") then None
    else Some "credential must be empty for schema_version 2" in
  match credential_error with
  | Some err => Some err
  | None =>
    match validateNodes (SchemaVersion policy) (Nodes policy) with
    | Some err => Some err
    | None =>
      match validateCorporateCIDRs (CorporateCIDRs policy) with
      | Some err => Some err
      | None =>
        match validateCorporateDNS (CorporateDNS policy) with
        | Some err => Some err
        | None => validateInternalSuffixes (InternalSuffixes policy)
        end
      end
    end
  end.
End Validate.

(** ** The canonical digest

    [encoding/json] and [crypto/sha256] are the parameters [json] and
    [sha256]. *)
Definition node_cmp : Node -> Node -> comparison :=
  cmp_lex (cmp_on NodeID String.compare)
  (cmp_lex (cmp_on NodeTransport String.compare)
  (cmp_lex (cmp_on NodeAddress String.compare)
  (cmp_lex (cmp_on NodePort Z.compare) (cmp_on NodePriority Z.compare)))).

Definition sort_strings (l : list string) : list string := merge_sort (cmp_le String.compare) l.
Definition sort_nodes (l : list Node) : list Node := merge_sort (cmp_le node_cmp) l.

Definition canonical (policy : Policy) : Policy :=
  mkPolicy (SchemaVersion policy) (Mode policy) (sort_nodes (Nodes policy))
    (sort_strings (CorporateCIDRs policy)) (sort_strings (CorporateDNS policy))
    (sort_strings (InternalSuffixes policy)) (BlockUDP policy) (BlockQUIC policy)
    (PolicyCredential policy).

Section Digest.
Context `{UnicodeTables} (json : Policy -> string) (sha256 : string -> string).

Definition CanonicalSHA256 (policy : Policy) : string + string :=
  match Validate policy with
  | Some err => inl err
  | None => inr (sha256 (json (canonical policy)))
  end.
End Digest.

(** ** Specifications of the validation loops *)

Definition key_of {A} (check : A -> string + string) (v : A) (k : string) : Prop :=
  check v = inr k.

Lemma validate_unique_loop_spec check dup values seen :
  validate_unique_loop check dup values seen = None <->
  exists ks, Forall2 (key_of check) values ks /\ NoDup ks /\ (forall k, k ∈ ks -> k ∉ seen).
Proof.
  revert seen. induction values as [|v values IH]; intros seen; simpl.
  { split; [|done]. intros _. exists []. repeat constructor. set_solver. }
  unfold key_of in *. split.
  - destruct (check v) as [|k] eqn:Ev; [done|]. case_decide as Hk; [done|].
    intros (ks & Hks & Hnd & Hout)%IH. exists (k :: ks). split_and!.
    + by constructor.
    + constructor; [|done]. intros Hin. apply (Hout k Hin). set_solver.
    + intros k' [->|Hin]%elem_of_cons; [done|]. specialize (Hout k' Hin). set_solver.
  - intros (ks & Hks & Hnd & Hout). inversion Hks as [|? k ? ks' Ev Hks']; subst.
    rewrite Ev. apply NoDup_cons in Hnd as [Hk Hnd]. rewrite decide_False by set_solver.
    apply IH. exists ks'. split_and!; [done|done|]. set_solver.
Qed.

(** A node in isolation: a non-blank ID and an acceptable endpoint. *)
Definition node_ok (schemaVersion : Z) (node : Node) (endpoint : string) : Prop :=
  strings_TrimSpace (NodeID node) <> "" /\
  check_node_endpoint schemaVersion node = inr endpoint.

Lemma validate_nodes_loop_spec sv nodes ids eps :
  validate_nodes_loop sv nodes ids eps = None <->
  exists ks, Forall2 (node_ok sv) nodes ks /\ NoDup ks /\ NoDup (NodeID <$> nodes) /\
    (forall k, k ∈ ks -> k ∉ eps) /\ (forall i, i ∈ NodeID <$> nodes -> i ∉ ids).
Proof.
  revert ids eps. induction nodes as [|n nodes IH]; intros ids eps; simpl.
  { split; [|done]. intros _. exists []. repeat constructor; set_solver. }
  split.
  - destruct (_ =?s "") eqn:Et; [done|]. case_decide as Hi; [done|].
    destruct (check_node_endpoint sv n) as [|k] eqn:Ev; [done|]. case_decide as Hk; [done|].
    intros (ks & Hks & Hnd & Hndi & Hout & Houti)%IH. bool_to_prop.
    exists (k :: ks). split_and!.
    + by repeat constructor.
    + constructor; [|done]. intros Hin. apply (Hout k Hin). set_solver.
    + constructor; [|done]. intros Hin. apply (Houti _ Hin). set_solver.
    + intros k' [->|Hin]%elem_of_cons; [done|]. specialize (Hout k' Hin). set_solver.
    + intros i [->|Hin]%elem_of_cons; [done|]. specialize (Houti i Hin). set_solver.
  - intros (ks & Hks & Hnd & Hndi & Hout & Houti).
    inversion Hks as [|? k ? ks' [Et Ev] Hks']; subst.
    apply NoDup_cons in Hnd as [Hk Hnd]. apply NoDup_cons in Hndi as [Hi Hndi].
    apply String.eqb_neq in Et. rewrite Et, Ev, !decide_False by set_solver.
    apply IH. exists ks'. split_and!; set_solver.
Qed.

(** ** Validate against its declarative reading *)

Section ValidateSpec.
Context `{UnicodeTables}.

(** What a valid policy is, without the order of the checks. *)
Record valid_policy (p : Policy) : Prop := {
  vp_schema : SchemaVersion p = schemaVersionLegacy \/ SchemaVersion p = schemaVersionHTTP;
  vp_mode : Mode p = modePoC;
  vp_udp : BlockUDP p = true;
  vp_quic : BlockQUIC p = true;
  vp_credential :
    if SchemaVersion p =? schemaVersionLegacy
    then CredKind (PolicyCredential p) = "dpapi-file" /\
         windowsCredentialPathIsAbs (CredPath (PolicyCredential p)) = Some true
    else PolicyCredential p = mkCredentialRef "" "";
  vp_nodes : Nodes p <> [] /\ exists endpoints,
    Forall2 (node_ok (SchemaVersion p)) (Nodes p) endpoints /\
    NoDup endpoints /\ NoDup (NodeID <$> Nodes p);
  vp_cidrs : CorporateCIDRs p <> [] /\ exists ks,
    Forall2 (key_of check_cidr) (CorporateCIDRs p) ks /\ NoDup ks;
  vp_dns : exists ks, Forall2 (key_of check_dns) (CorporateDNS p) ks /\ NoDup ks;
  vp_suffixes : exists ks, Forall2 (key_of check_suffix) (InternalSuffixes p) ks /\ NoDup ks
}.

Lemma validate_unique_spec check dup values :
  validate_unique_loop check dup values ∅ = None <->
  exists ks, Forall2 (key_of check) values ks /\ NoDup ks.
Proof.
  rewrite validate_unique_loop_spec. split; intros (ks & ? & ?); exists ks; set_solver.
Qed.

Lemma validateNodes_spec sv nodes :
  validateNodes sv nodes = None <->
  nodes <> [] /\ exists endpoints, Forall2 (node_ok sv) nodes endpoints /\
    NoDup endpoints /\ NoDup (NodeID <$> nodes).
Proof.
  unfold validateNodes. case_bool_decide as Hn; [naive_solver|].
  rewrite validate_nodes_loop_spec. split.
  - intros (ks & ? & ? & ? & _). eauto.
  - intros (_ & ks & ? & ? & ?). exists ks. set_solver.
Qed.

Lemma validateCorporateCIDRs_spec values :
  validateCorporateCIDRs values = None <->
  values <> [] /\ exists ks, Forall2 (key_of check_cidr) values ks /\ NoDup ks.
Proof.
  unfold validateCorporateCIDRs. case_bool_decide as Hn; [naive_solver|].
  rewrite validate_unique_spec. naive_solver.
Qed.

Lemma validateCredential_spec c :
  validateCredential c = None <->
  CredKind c = "dpapi-file" /\ windowsCredentialPathIsAbs (CredPath c) = Some true.
Proof.
  unfold validateCredential. destruct (_ =?s _) eqn:E; bool_to_prop; simpl; [|naive_solver].
  case_bool_decide; naive_solver.
Qed.

Theorem Validate_spec p : Validate p = None <-> valid_policy p.
Proof.
  unfold Validate, validateInternalSuffixes, validateCorporateDNS.
  autorewrite with go.
  rewrite validateNodes_spec, validateCorporateCIDRs_spec, !validate_unique_spec.
  rewrite andb_false_iff, !negb_false_iff, !Z.eqb_eq, String.eqb_eq.
  assert (Hcred : (if SchemaVersion p =? schemaVersionLegacy
                   then validateCredential (PolicyCredential p)
                   else if bool_decide (PolicyCredential p = mkCredentialRef "" "") then None
                        else Some "credential must be empty for schema_version 2") = None <->
                  if SchemaVersion p =? schemaVersionLegacy
                  then CredKind (PolicyCredential p) = "dpapi-file" /\
                       windowsCredentialPathIsAbs (CredPath (PolicyCredential p)) = Some true
                  else PolicyCredential p = mkCredentialRef "" "").
  { case_match; [apply validateCredential_spec|]. case_bool_decide; naive_solver. }
  rewrite Hcred. split.
  - intros (? & ? & ? & ? & ? & ? & ? & ? & ?). by split.
  - intros []. tauto.
Qed.

Lemma schema2_node_approved node ep : node_ok schemaVersionHTTP node ep ->
  ep = "172.20.9.15:8080" /\ NodeTransport node = "http-connect" /\ NodePort node = 8080 /\
  Addr_String <$> ParseAddr (NodeAddress node) = Some "172.20.9.15".
Proof.
  intros [_ H0]. unfold check_node_endpoint in H0.
  destruct (ParseAddr _) as [addr|]; [|done]. repeat split_match_in H0.
  bool_to_prop. match goal with H : approved_endpoint _ _ = true |- _ => rename H into Ha end.
  unfold approved_endpoint in Ha. bool_to_prop.
  match goal with H : NodePort node = 8080 |- _ => rename H into Hport end.
  match goal with H : Addr_String addr = _ |- _ => rename H into Haddr end.
  unfold endpoint_key. rewrite Hport, Haddr. split_and!; done || (simpl; congruence).
Qed.

(** A valid schema 2 policy has exactly one node, the approved endpoint. *)
Theorem schema2_single_node p :
  Validate p = None -> SchemaVersion p = schemaVersionHTTP ->
  exists node, Nodes p = [node] /\ NodeTransport node = "http-connect" /\
    NodePort node = 8080 /\
    Addr_String <$> ParseAddr (NodeAddress node) = Some "172.20.9.15".
Proof.
  intros Hv Hs. apply Validate_spec in Hv as [_ _ _ _ _ (Hne & eps & Hall & Hnd & _) _ _ _].
  rewrite Hs in Hall. inversion Hall as [|n ep ns eps' Hn Hns]; subst; [done|].
  pose proof (schema2_node_approved _ _ Hn) as (-> & ? & ? & ?).
  inversion Hns as [|n' ep' ns' eps'' Hn' _]; subst; [by exists n|].
  pose proof (schema2_node_approved _ _ Hn') as (-> & _).
  apply NoDup_cons in Hnd as [Hin _]. set_solver.
Qed.
End ValidateSpec.

(** ** The digest does not depend on the order of the lists *)

(** Two policies that differ only in the order of their lists. *)
Record policy_equiv (p q : Policy) : Prop := {
  pe_schema : SchemaVersion p = SchemaVersion q;
  pe_mode : Mode p = Mode q;
  pe_nodes : Nodes p ≡ₚ Nodes q;
  pe_cidrs : CorporateCIDRs p ≡ₚ CorporateCIDRs q;
  pe_dns : CorporateDNS p ≡ₚ CorporateDNS q;
  pe_suffixes : InternalSuffixes p ≡ₚ InternalSuffixes q;
  pe_udp : BlockUDP p = BlockUDP q;
  pe_quic : BlockQUIC p = BlockQUIC q;
  pe_credential : PolicyCredential p = PolicyCredential q
}.

#[export] Instance policy_equiv_equivalence : Equivalence policy_equiv.
Proof.
  split.
  - intros p. by split.
  - intros p q []. by split.
  - intros p q r [] []. split; by etrans.
Qed.

Lemma node_cmp_eq x y : node_cmp x y = Eq -> x = y.
Proof.
  destruct x, y. unfold node_cmp, cmp_lex, cmp_on; simpl.
  repeat (case_match; try done).
  repeat match goal with
  | H : String.compare _ _ = Eq |- _ => apply String.compare_eq_iff in H
  | H : (_ ?= _) = Eq |- _ => apply Z.compare_eq_iff in H
  end. intros ?%Z.compare_eq_iff. congruence.
Qed.

#[export] Instance canonical_proper : Proper (policy_equiv ==> eq) canonical.
Proof.
  intros p q []. unfold canonical, sort_nodes, sort_strings.
  f_equal; try done; apply sort_permutation; try apply _; try done;
    auto using node_cmp_eq, String.compare_eq_iff.
Qed.

Section DigestSpec.
Context `{UnicodeTables}.

Lemma keys_perm {A} (R : A -> string -> Prop) l l' : l ≡ₚ l' ->
  (exists ks, Forall2 R l ks /\ NoDup ks) -> exists ks, Forall2 R l' ks /\ NoDup ks.
Proof.
  intros Hp (ks & Hks & Hnd).
  destruct (Permutation_Forall2 Hp Hks) as (ks' & Hp' & Hks').
  exists ks'. split; [done|]. by rewrite <- Hp'.
Qed.

Lemma perm_nonempty {A} (l l' : list A) : l ≡ₚ l' -> l <> [] -> l' <> [].
Proof. intros Hp Hl ->. by apply Permutation_nil_r in Hp. Qed.

#[export] Instance valid_policy_proper : Proper (policy_equiv ==> impl) valid_policy.
Proof.
  intros p q Hpq [Hs ? ? ? Hc [Hn (eps & Hall & Hnd & Hid)] [Hcn Hck] Hd Hx].
  destruct Hpq as [Es ? Pn Pc Pd Px ? ? Ec].
  split; try congruence.
  - by rewrite <- Es, <- Ec.
  - split; [by eapply perm_nonempty|].
    destruct (keys_perm (node_ok (SchemaVersion q)) _ _ Pn) as (ks & ? & ?).
    { rewrite <- Es. eauto. }
    exists ks. split_and!; [done|done|]. by rewrite <- Pn.
  - split; [by eapply perm_nonempty|by eapply keys_perm].
  - by eapply keys_perm.
  - by eapply keys_perm.
Qed.

(** Reordering the lists of a valid policy changes neither its validity nor
    its digest. *)
Theorem CanonicalSHA256_order_insensitive json sha256 p q :
  policy_equiv p q -> Validate p = None ->
  Validate q = None /\ CanonicalSHA256 json sha256 p = CanonicalSHA256 json sha256 q.
Proof.
  intros Hpq Hp. assert (Hq : Validate q = None).
  { apply Validate_spec. rewrite <- Hpq. by apply Validate_spec. }
  split; [done|]. unfold CanonicalSHA256. by rewrite Hp, Hq, Hpq.
Qed.
End DigestSpec.

(** ** The credential path test is total *)

Lemma credentialPathHasPrefixFold_length s prefix :
  credentialPathHasPrefixFold s prefix = true ->
  (length prefix <= length s)%nat /\
  (forall c, s !! length prefix = Some c -> credentialPathSeparator c = true).
Proof.
  unfold credentialPathHasPrefixFold. destruct (length s <? length prefix)%nat eqn:E; [done|].
  apply Nat.ltb_ge in E. case_match; [|done]. case_match; naive_solver.
Qed.

Lemma unc_len_from_le path i count : (unc_len_from path i count <= i + length path)%nat.
Proof.
  revert i count. induction path as [|c path IH]; intros i count; simpl; [lia|].
  repeat case_match; try lia; etrans; try apply IH; lia.
Qed.

Lemma credentialUNCLen_le path n : (credentialUNCLen path n <= length path)%nat.
Proof.
  unfold credentialUNCLen. case_match eqn:E; [|lia]. apply Nat.ltb_lt in E.
  etrans; [apply unc_len_from_le|]. rewrite length_drop. lia.
Qed.

Lemma validCredentialVolumeNameLen_le path n :
  (validCredentialVolumeNameLen path n <= n)%nat.
Proof. unfold validCredentialVolumeNameLen. case_match; lia. Qed.

(** The volume name never extends past the path, and a non-empty volume name
    means the path has at least two bytes. *)
Lemma credentialVolumeNameLen_bounds path :
  (credentialVolumeNameLen path <= length path)%nat /\
  (credentialVolumeNameLen path <> 0 -> 2 <= length path)%nat.
Proof.
  unfold credentialVolumeNameLen.
  pose proof (validCredentialVolumeNameLen_le path) as Hv.
  pose proof (credentialUNCLen_le path) as Hu.
  case_bool_decide as Hc. { apply lookup_lt_Some in Hc. lia. }
  destruct path as [|c0 path'] eqn:Ep; [simpl; lia|]. rewrite <- Ep in *.
  destruct (negb _); [lia|].
  destruct (existsb _ _) eqn:Ex.
  - apply existsb_exists in Ex as (pre & Hin & Hpre).
    apply credentialPathHasPrefixFold_length in Hpre as [Hlen _].
    assert (length pre = 3%nat) as Hl3 by (simpl in Hin; destruct Hin as [<-|[<-|[<-|[]]]]; done).
    repeat case_match; try lia.
    + pose proof (Hv (credentialUNCLen path 8)). pose proof (Hu 8%nat). lia.
    + pose proof (Hv (length path)). lia.
    + match goal with |- context [validCredentialVolumeNameLen path ?n] => pose proof (Hv n) end.
      lia.
  - repeat case_match; try lia.
    match goal with H : _ !! _ = Some _ |- _ => apply lookup_lt_Some in H end.
    pose proof (Hv (credentialUNCLen path 2)). pose proof (Hu 2%nat). lia.
Qed.

(** The test indexes the path only in range: it never panics. *)
Theorem windowsCredentialPathIsAbs_total text :
  is_Some (windowsCredentialPathIsAbs text).
Proof.
  unfold windowsCredentialPathIsAbs. set (path := path_bytes text).
  destruct (credentialVolumeNameLen_bounds path) as [_ H2].
  case_match eqn:El; [eauto|]. apply Nat.eqb_neq in El. specialize (H2 El).
  destruct path as [|c0 [|c1 path']] eqn:Ep; simpl in *; [lia|lia|].
  repeat case_match; eauto; done.
Qed.

(** ** What validation accepts *)


(** ** Concrete policies *)
#[export] Instance demo_tables : UnicodeTables := {| unicode_lower r := r; unicode_upper r := r |}.

Definition demo_legacy (flip : bool) : Policy :=
  let ordered {A} (x y : A) := if flip then [y; x] else [x; y] in
  mkPolicy schemaVersionLegacy modePoC
    (ordered (mkNode "n1" "shadowsocks" "192.0.2.10" 1080 1) (mkNode "n2" "shadowsocks" "192.0.2.11" 1080 2))
    (ordered "10.0.0.0/8" "172.16.0.0/12") (ordered "10.0.0.53" "10.0.0.54") ["corp.example"] true true
    (mkCredentialRef "dpapi-file" "C:\secret\credential.bin").

Definition demo_http : Policy :=
  mkPolicy schemaVersionHTTP modePoC [mkNode "n1" "http-connect" "172.20.9.15" 8080 1]
    ["10.0.0.0/8"] [] [] true true (mkCredentialRef "" "").

Example demo_policies : map Validate [demo_legacy false; demo_legacy true; demo_http] = [None; None; None].
Proof. vm_compute. reflexivity. Qed.

Lemma schema2_single_node_witness :
  Validate demo_http = None /\
  exists node, Nodes demo_http = [node] /\ NodeTransport node = "http-connect" /\
    NodePort node = 8080 /\
    Addr_String <$> ParseAddr (NodeAddress node) = Some "172.20.9.15".
Proof.
  split; [vm_compute; reflexivity|].
  apply (schema2_single_node demo_http); vm_compute; reflexivity.
Defined.

(** A concrete serialiser: it shows the order of the lists it is given. *)
Definition demo_json (p : Policy) : string :=
  String.concat "," (map NodeAddress (Nodes p) ++ CorporateCIDRs p ++ CorporateDNS p)%list.

Lemma demo_legacy_equiv : policy_equiv (demo_legacy false) (demo_legacy true).
Proof. split; try done; apply Permutation_swap. Qed.

Lemma CanonicalSHA256_order_insensitive_witness :
  demo_json (demo_legacy false) <> demo_json (demo_legacy true) /\
  Validate (demo_legacy true) = None /\
  CanonicalSHA256 demo_json id (demo_legacy false) = CanonicalSHA256 demo_json id (demo_legacy true).
Proof.
  split; [done|]. apply (CanonicalSHA256_order_insensitive demo_json id (demo_legacy false)).
  - apply demo_legacy_equiv.
  - vm_compute; reflexivity.
Defined.
