(* ===== verification/Controller.v ===== *)
(** * The connection transaction ([internal/agent/controller.go])

    The controller's state, its dependencies as an interface, and the
    sequential bodies of its operations: [runConnect], [restoreTransaction],
    [runDisconnect] with every call they make, every status and diagnostic they
    record and every trace event they emit.  The interleaving of these bodies
    with other callers and with the runtime monitor is in [Lifecycle.v]. *)
From stdpp Require Import pretty.
From S2P Require Import Prelude GoText TraceEvent AccessModel.

#[local] Open Scope string_scope.
#[local] Open Scope Z_scope.

(** ** Constants *)
Definition ErrorInvalidPolicy := "invalid_policy".
Definition ErrorInvalidBinary := "invalid_binary".
Definition ErrorCredential := "credential_unavailable".
Definition ErrorExpiredCredential := "credential_expired".
Definition ErrorPreparedUnavailable := "prepared_state_unavailable".
Definition ErrorVPNConflict := "vpn_conflict".
Definition ErrorNetworkChanged := "network_changed".
Definition ErrorNetworkCapture := "network_capture_failed".
Definition ErrorFirewallEnable := "firewall_enable_failed".
Definition ErrorFirewallVerify := "firewall_verify_failed".
Definition ErrorPublicTCPBlock := "public_tcp_block_failed".
Definition ErrorRender := "config_render_failed".
Definition ErrorCoreStart := "core_start_failed".
Definition ErrorCoreNotReady := "core_not_ready".
Definition ErrorTUNNotFound := "tun_not_found".
Definition ErrorTUNIdentityMismatch := "tun_identity_mismatch".
Definition ErrorRouteActivationFailed := "route_activation_failed".
Definition ErrorReadinessLost := "readiness_lost".
Definition ErrorRestoreFailed := "restore_failed".
Definition ErrorAutomaticRestore := "automatic_restore_failed".
Definition ErrorCanceled := "canceled".

Definition PhaseFingerprintSnapshot := "fingerprint_snapshot".
Definition PhaseFirewall := "firewall".
Definition PhaseCore := "core".
Definition PhaseTUN := "tun".
Definition PhaseRouteDNS := "route_dns".
Definition PhaseConnected := "connected".
Definition connectionTotalSteps : Z := 6.

Definition LineQualityUnknown := "unknown".
Definition LineQualityGood := "good".
Definition LineQualitySlow := "slow".
Definition LineQualityFailed := "failed".

(** ** Errors

    An error is its text, the sentinels [errors.Is] finds in its chain and the
    stage and detail of the first [stagedDiagnosticError] [errors.As] finds. *)
Inductive Sentinel :=
| ErrTUNNotFound | ErrTUNIdentityMismatch | ErrNetworkChanged | ErrVPNConflict
| ErrFirewallAudit.

#[export] Instance Sentinel_eq_dec : EqDecision Sentinel.
Proof. solve_decision. Defined.

Record GoError := mkError {
  error_text : string;
  error_sentinels : list Sentinel;
  error_diagnostic : option (string * string)
}.

Definition errors_New (text : string) : GoError := mkError text [] None.
Definition errors_Is (err : GoError) (target : Sentinel) : bool :=
  bool_decide (target ∈ error_sentinels err).

(** ** Data *)
Record Status := mkStatus {
  StatusState : ConnectionState;
  StatusErrorCode : string;
  StatusMessage : string;
  StatusPhase : string;
  StatusStep : Z;
  StatusTotalSteps : Z;
  StatusElapsedMS : Z
}.

Record PreparedNetwork := mkPrepared {
  PreparedGeneration : Z;
  PreparedFingerprint : string;
  PreparedAdapterCount : Z;
  PreparedRuleCount : Z
}.

Definition PreparedNetwork_zero : PreparedNetwork := mkPrepared 0 "" 0 0.

Record Credential := mkCredential {
  CredentialMethod : string;
  CredentialPassword : list Z;
  CredentialExpiresAt : Z
}.

Definition Credential_zero : Credential := mkCredential "" [] 0.

(** The context a call is made under: the generation it carries and whether
    its cancellation can be observed ([context.WithoutCancel] hides it). *)
Record Context := mkContext { ctx_generation : Z; ctx_cancellable : bool }.
Definition WithoutCancel (ctx : Context) : Context := mkContext (ctx_generation ctx) false.

Record ProcessTermination := mkTermination { TerminationErr : option GoError; TerminationProven : bool }.
Record ProcessStartResult := mkStartResult { StartErr : option GoError; StartTerminationProven : bool }.

(** ** The dependencies

    Everything the controller does not own, as one interface over an abstract
    world: the injected functions of [Dependencies], the [NetworkManager], the
    [ProcessSupervisor], the clock, the trace sink and the cancellation of the
    operation's context.  Each operation may change the world arbitrarily and
    answers as it likes.  A nil dependency is [None]. *)
Class Environment := {
  World : Type;
  Snapshot : Type;
  ProcessInstance : Type;
  (* The immutable fields of the controller: its policy and [Dependencies] *)
  policy : Policy;
  ExecutablePath : string;
  ConfigPath : string;
  ValidatePolicy : Policy -> World -> option GoError * World;
  VerifyExecutable : option (string -> World -> option GoError * World);
  LoadCredential : option (Context -> CredentialRef -> World -> (Credential * option GoError) * World);
  RenderConfig : option (Policy -> Credential -> World -> (list Z * option GoError) * World);
  WriteConfigAtomic : option (string -> list Z -> World -> option GoError * World);
  Now : World -> Z * World;
  Trace : option (Event -> World -> World);
  contextDone : World -> option GoError * World;
  (* NetworkManager *)
  HasNetwork : bool;
  Prepare : Context -> World -> (PreparedNetwork * option GoError) * World;
  Capture : Context -> PreparedNetwork -> World -> (option Snapshot * option GoError) * World;
  EnableProtection : Context -> PreparedNetwork -> World -> option GoError * World;
  WaitTUNReady : Context -> World -> option GoError * World;
  ActivateTUNRoutes : Context -> World -> option GoError * World;
  Restore : Context -> option Snapshot -> World -> option GoError * World;
  Reconcile : Context -> World -> option GoError * World;
  ResidueReporter : option (Context -> World -> (Residue * option GoError) * World);
  (* ProcessSupervisor and ProcessInstance *)
  HasProcess : bool;
  Start : Context -> string -> string -> World ->
    (option ProcessInstance * ProcessStartResult) * World;
  Ready : ProcessInstance -> Context -> World -> option GoError * World;
  Stop : ProcessInstance -> Context -> World -> ProcessTermination * World
}.

(** Channels are named by numbers in allocation order. *)
Abbreviation Chan := nat.

Record Transition := mkTransition { TransitionKind : string; TransitionDone : Chan }.

Section Controller.
Context `{Environment}.

(** The mutable fields of [Controller].  [monitorCancel] names the cancelled
    lifetime by the channel the monitor closes when it ends. *)
Record Controller := mkController {
  status : Status;
  generation : Z;
  transition : option Transition;
  snapshot : option Snapshot;
  hasSnapshot : bool;
  processStarted : bool;
  processInstance : option ProcessInstance;
  monitorCancel : option Chan;
  monitorDone : option Chan;
  reconciled : bool;
  diagnosticStage : string;
  diagnosticDetail : string;
  lineQuality : string;
  connectedAt : Z
}.

Definition status_of (state : ConnectionState) (code message : string) : Status :=
  mkStatus state code message "" 0 0 0.

Definition NewController : Controller :=
  mkController (status_of StateDisconnected "" "") 0 None None false false None None None
    false "" "" LineQualityUnknown 0.

Definition set_status (s : Status) (c : Controller) : Controller :=
  mkController s (generation c) (transition c) (snapshot c) (hasSnapshot c)
    (processStarted c) (processInstance c) (monitorCancel c) (monitorDone c)
    (reconciled c) (diagnosticStage c) (diagnosticDetail c) (lineQuality c) (connectedAt c).
Definition set_generation (g : Z) (c : Controller) : Controller :=
  mkController (status c) g (transition c) (snapshot c) (hasSnapshot c)
    (processStarted c) (processInstance c) (monitorCancel c) (monitorDone c)
    (reconciled c) (diagnosticStage c) (diagnosticDetail c) (lineQuality c) (connectedAt c).
Definition set_transition (t : option Transition) (c : Controller) : Controller :=
  mkController (status c) (generation c) t (snapshot c) (hasSnapshot c)
    (processStarted c) (processInstance c) (monitorCancel c) (monitorDone c)
    (reconciled c) (diagnosticStage c) (diagnosticDetail c) (lineQuality c) (connectedAt c).
Definition set_snapshot (s : option Snapshot) (has : bool) (c : Controller) : Controller :=
  mkController (status c) (generation c) (transition c) s has
    (processStarted c) (processInstance c) (monitorCancel c) (monitorDone c)
    (reconciled c) (diagnosticStage c) (diagnosticDetail c) (lineQuality c) (connectedAt c).
Definition set_process (started : bool) (i : option ProcessInstance) (c : Controller) : Controller :=
  mkController (status c) (generation c) (transition c) (snapshot c) (hasSnapshot c)
    started i (monitorCancel c) (monitorDone c)
    (reconciled c) (diagnosticStage c) (diagnosticDetail c) (lineQuality c) (connectedAt c).
Definition set_monitor (cancel done : option Chan) (c : Controller) : Controller :=
  mkController (status c) (generation c) (transition c) (snapshot c) (hasSnapshot c)
    (processStarted c) (processInstance c) cancel done
    (reconciled c) (diagnosticStage c) (diagnosticDetail c) (lineQuality c) (connectedAt c).
Definition set_reconciled (b : bool) (c : Controller) : Controller :=
  mkController (status c) (generation c) (transition c) (snapshot c) (hasSnapshot c)
    (processStarted c) (processInstance c) (monitorCancel c) (monitorDone c)
    b (diagnosticStage c) (diagnosticDetail c) (lineQuality c) (connectedAt c).
Definition set_diagnostic (stage detail : string) (c : Controller) : Controller :=
  mkController (status c) (generation c) (transition c) (snapshot c) (hasSnapshot c)
    (processStarted c) (processInstance c) (monitorCancel c) (monitorDone c)
    (reconciled c) stage detail (lineQuality c) (connectedAt c).
Definition set_quality (q : string) (at_ : Z) (c : Controller) : Controller :=
  mkController (status c) (generation c) (transition c) (snapshot c) (hasSnapshot c)
    (processStarted c) (processInstance c) (monitorCancel c) (monitorDone c)
    (reconciled c) (diagnosticStage c) (diagnosticDetail c) q at_.

(** ** The calls a body makes, in order, each with its answer *)
Inductive Call :=
| CallValidatePolicy (p : Policy) (r : option GoError)
| CallVerifyExecutable (path : string) (r : option GoError)
| CallLoadCredential (ctx : Context) (ref : CredentialRef) (r : Credential * option GoError)
| CallRenderConfig (p : Policy) (cr : Credential) (r : list Z * option GoError)
| CallWriteConfig (path : string) (config : list Z) (r : option GoError)
| CallPrepare (ctx : Context) (r : PreparedNetwork * option GoError)
| CallCapture (ctx : Context) (p : PreparedNetwork) (r : option Snapshot * option GoError)
| CallEnableProtection (ctx : Context) (p : PreparedNetwork) (r : option GoError)
| CallStart (ctx : Context) (exe config : string)
    (r : option ProcessInstance * ProcessStartResult)
| CallReady (i : ProcessInstance) (ctx : Context) (r : option GoError)
| CallWaitTUNReady (ctx : Context) (r : option GoError)
| CallActivateTUNRoutes (ctx : Context) (r : option GoError)
| CallMonitorCancel (c : Chan)
| CallMonitorWait (c : Chan)
| CallStop (i : ProcessInstance) (ctx : Context) (r : ProcessTermination)
| CallRestore (ctx : Context) (s : option Snapshot) (r : option GoError)
| CallReconcile (ctx : Context) (r : option GoError)
| CallResidue (ctx : Context) (r : Residue * option GoError)
| CallTrace (ev : Event)
| CallClearConfig (len : nat)
| CallClearPassword (len : nat).

(** ** A state monad over the controller, the world and the call log *)
Record St := mkSt { ctl : Controller; world : World; calls : list Call }.

Definition M (A : Type) : Type := St -> A * St.

#[export] Instance M_ret : MRet M := fun A x s => (x, s).
#[export] Instance M_bind : MBind M := fun A B f m s => let '(x, s') := m s in f x s'.

Definition get : M Controller := fun s => (ctl s, s).
Definition modify (f : Controller -> Controller) : M unit :=
  fun s => (tt, mkSt (f (ctl s)) (world s) (calls s)).
Definition record (c : Call) : M unit :=
  fun s => (tt, mkSt (ctl s) (world s) (calls s ++ [c])).
(** An answer of the environment. *)
Definition ask {A} (op : World -> A * World) : M A :=
  fun s => let '(x, w) := op (world s) in (x, mkSt (ctl s) w (calls s)).
(** A call to the environment, recorded with its answer. *)
Definition call {A} (c : A -> Call) (op : World -> A * World) : M A :=
  x ← ask op;
  record (c x) ;;
  mret x.

(** ** Bodies that may return early: [inl] is the value returned *)
Definition X (R A : Type) : Type := M (R + A).

Definition xbind {R A B} (m : X R A) (f : A -> X R B) : X R B :=
  r ← m; match r with inl r => mret (inl r) | inr x => f x end.
Definition lift {R A} (m : M A) : X R A := x ← m; mret (inr x).
Definition return_ {R A} (m : M R) : X R A := r ← m; mret (inl r).
Definition xret {R A} (x : A) : X R A := mret (inr x).
End Controller.

Notation "x ←? y ; z" := (xbind y (fun x => z))
  (at level 20, y at level 100, z at level 200, only parsing) : go_scope.
Notation "' x ←? y ; z" := (xbind y (fun x => z))
  (at level 20, x pattern, y at level 100, z at level 200, only parsing) : go_scope.
Notation "y ?; z" := (xbind y (fun _ => z))
  (at level 100, z at level 200, only parsing, right associativity) : go_scope.

(** ** Messages and statuses *)
Definition failureMessages : list (string * string) :=
  [ (ErrorInvalidPolicy, "客户端策略无效");
    (ErrorInvalidBinary, "客户端核心验证失败");
    (ErrorCredential, "访问凭据不可用");
    (ErrorExpiredCredential, "访问凭据已过期");
    (ErrorPreparedUnavailable, "网络保护配置不可用");
    (ErrorVPNConflict, "检测到其他 VPN/代理正在运行");
    (ErrorNetworkChanged, "网络环境已变化");
    (ErrorNetworkCapture, "无法读取当前网络配置");
    (ErrorFirewallEnable, "无法启用防泄漏保护");
    (ErrorFirewallVerify, "防泄漏规则核对失败");
    (ErrorPublicTCPBlock, "无法建立防泄漏保护");
    (ErrorRender, "无法生成受控配置");
    (ErrorCoreStart, "无法启动访问核心");
    (ErrorCoreNotReady, "访问服务器不可用");
    (ErrorTUNNotFound, "TUN 网卡未出现");
    (ErrorTUNIdentityMismatch, "TUN 网卡身份异常");
    (ErrorRouteActivationFailed, "无法启用安全路由");
    (ErrorReadinessLost, "安全连接已中断");
    (ErrorRestoreFailed, "无法完整恢复网络状态");
    (ErrorAutomaticRestore, "自动恢复未完成，已保持应急防护");
    (ErrorCanceled, "操作已取消") ].

(** [failureMessages[code]]: a missing key gives the empty string. *)
Definition failureMessage (code : string) : string :=
  match find (fun p => p.1 =?s code) failureMessages with
  | Some p => p.2
  | None => ""
  end.

Definition preparedStatus (message : string) : Status := status_of StatePrepared "" message.
Definition safeFailure (code : string) : Status :=
  status_of StatePrepared code (failureMessage code).
Definition failedSafeStatus : Status :=
  status_of StateFailedSafe ErrorAutomaticRestore (failureMessage ErrorAutomaticRestore).

Definition canceledStatus (current : Status) : Status :=
  status_of (StatusState current) ErrorCanceled (failureMessage ErrorCanceled).

Definition tunFailureMessage (code : string) : string :=
  if code =?s ErrorTUNIdentityMismatch then "TUN 网卡身份与受控定义不符"
  else if code =?s ErrorCanceled then "TUN 等待已取消"
  else "TUN 网卡在截止时间内未出现".

(** ** Diagnostics of an error *)
Definition diagnosticStage_of (err : option GoError) : string :=
  match err with
  | Some e => match error_diagnostic e with Some (stage, _) => stage | None => "" end
  | None => ""
  end.

Definition normalizeDiagnosticStage (stage fallback : string) : string :=
  if string_in
       [StageRequestReceived; StagePolicyValidation; StageBinaryVerification;
        StageCredentialLoad; StageNetworkPrepare; StageNetworkFingerprint;
        StageNetworkCapture; StageAdapterScan; StageFirewallPrepare; StageFirewallEnable;
        StageFirewallVerify; StageFirewallPublish; StageActiveStoreVerify;
        StageEmergencyProtection; StageConfigRender; StageCoreStart; StageCoreReady;
        StageTUNReady; StageRouteActivation; StageConnected; StageMonitorStart;
        StageCoreStop; StageAutomaticRestore; StageNetworkRestore; StageResidueVerify;
        StageServiceRecovery; StageLoggingDegraded] stage then stage
  else if string_in ["ip_interface_scan"; "adapter_identity_join"] stage then StageAdapterScan
  else fallback.

(** The stage and detail [recordDiagnostic] stores. *)
Definition diagnostic_of (fallbackStage : string) (err : option GoError) : string * string :=
  let '(stage, detail) :=
    match err with
    | Some e =>
      match error_diagnostic e with
      | Some (stage, detail) => (normalizeDiagnosticStage stage fallbackStage, detail)
      | None => (fallbackStage, "")
      end
    | None => (fallbackStage, "")
    end in
  let detail := if detail =?s "" then match err with Some e => error_text e | None => detail end
                else detail in
  let detail := if detail =?s "" then "阶段 " ++s stage ++s " 未提供底层错误文本" else detail in
  let detail := (SanitizeDetail detail []).1 in
  let detail := if detail =?s "" then "阶段 " ++s stage ++s " 失败" else detail in
  (stage, detail).

Definition monitorFailureCode (reason : option GoError) : string :=
  let isErr s := match reason with Some e => errors_Is e s | None => false end in
  if isErr ErrNetworkChanged then ErrorNetworkChanged
  else if (diagnosticStage_of reason =?s StageFirewallVerify) || isErr ErrFirewallAudit
  then ErrorFirewallVerify
  else ErrorReadinessLost.

(** ** Trace emission *)
Section Trace.
Context `{Environment}.

Definition mk_trace (gen : Z) (level component stage event : string) (elapsed : option Z)
    (message detail : string) (residue : option Residue) : Event :=
  mkEvent 0 0 0 false gen level component stage event elapsed message detail false residue.

Definition emitTrace (ev : Event) : M unit :=
  match Trace with
  | None => mret tt
  | Some sink =>
    let message := (SanitizeDetail (EvMessage ev) []).1 in
    let '(detail, truncated) := SanitizeDetail (EvDetail ev) [] in
    let ev := mkEvent (EvSchemaVersion ev) (EvSequence ev) (EvTimestamp ev)
      (EvTimestampIsUTC ev) (EvGeneration ev) (EvLevel ev) (EvComponent ev) (EvStage ev)
      (EvEvent ev) (EvElapsedMS ev) message detail truncated (EvResidue ev) in
    call (fun _ => CallTrace ev) (fun w => (tt, sink ev w))
  end.

Definition traceStart (gen : Z) (component stage message : string) : M Z :=
  startedAt ← ask Now;
  emitTrace (mk_trace gen LevelInfo component stage EventStarted None message "" None) ;;
  mret startedAt.

Definition traceTerminal (gen : Z) (level component stage event : string) (startedAt : Z)
    (message detail : string) (residue : option Residue) : M unit :=
  now ← ask Now;
  emitTrace (mk_trace gen level component stage event (Some (elapsed_ms now startedAt))
    message detail residue).

Definition traceSuccess (gen : Z) (component stage : string) (startedAt : Z)
    (message detail : string) (residue : option Residue) : M unit :=
  traceTerminal gen LevelInfo component stage EventSucceeded startedAt message detail residue.

Definition recordDiagnostic (fallbackStage : string) (err : option GoError)
    : M (string * string) :=
  let '(stage, detail) := diagnostic_of fallbackStage err in
  modify (set_diagnostic stage detail) ;;
  mret (stage, detail).

Definition traceFailure (gen : Z) (component stage : string) (startedAt : Z)
    (message : string) (err : option GoError) (residue : option Residue) : M unit :=
  '(_, detail) ← recordDiagnostic stage err;
  traceTerminal gen LevelError component stage EventFailed startedAt message detail residue.

Definition traceStateFailure (gen : Z) (component stage message : string)
    (err : option GoError) (residue : option Residue) : M unit :=
  '(_, detail) ← recordDiagnostic stage err;
  emitTrace (mk_trace gen LevelError component stage EventState None message detail residue).

(** [ctx.Err()]. *)
Definition contextError (ctx : Context) : M (option GoError) :=
  if ctx_cancellable ctx then ask contextDone else mret None.

Definition codeForContext (ctx : Context) (fallback : string) : M string :=
  err ← contextError ctx;
  mret (if bool_decide (is_Some err) then ErrorCanceled else fallback).
End Trace.

(** ** Outcomes *)
Section Bodies.
Context `{Environment}.

Record connectOutcome := mkConnectOutcome {
  co_status : Status;
  co_instance : option ProcessInstance;
  co_processStarted : bool;
  co_restored : bool;
  co_snapshot : option Snapshot;
  co_hasSnapshot : bool;
  co_prepared : PreparedNetwork
}.

Record disconnectOutcome := mkDisconnectOutcome {
  do_status : Status;
  do_restored : bool;
  do_err : option GoError
}.

Definition collapse {R} (m : X R R) : M R :=
  r ← m; match r with inl x => mret x | inr x => mret x end.

(** [defer]: [c] runs when the body that follows returns, on every path. *)
Definition deferred {R A} (c : option Call) (body : X R A) : X R A :=
  r ← body;
  match c with Some c => record c | None => mret tt end ;;
  mret r.

Definition phaseStatus (phase : string) (step startedAt : Z) : M Status :=
  now ← ask Now;
  mret (mkStatus StateConnecting "" "正在建立安全连接" phase step connectionTotalSteps
          (elapsed_ms now startedAt)).

(** [c.setStatusLocked(c.phaseStatus(...))]; it never fails. *)
Definition enterPhase (phase : string) (step startedAt : Z) : M unit :=
  s ← phaseStatus phase step startedAt;
  modify (set_status s).

(** ** Restoration *)

Definition stopLifecycleMonitor : M unit :=
  c ← get;
  modify (set_monitor None None) ;;
  (match monitorCancel c with Some ch => record (CallMonitorCancel ch) | None => mret tt end) ;;
  (match monitorDone c with Some ch => record (CallMonitorWait ch) | None => mret tt end).

Definition stopInstance (ctx : Context) (gen : Z) (instance : ProcessInstance)
    : M ProcessTermination :=
  startedAt ← traceStart gen ComponentCore StageCoreStop "停止访问核心";
  termination ← call (CallStop instance ctx) (Stop instance ctx);
  if negb (TerminationProven termination) then
    let err := match TerminationErr termination with
               | Some e => e
               | None => errors_New "core process tree termination is not proven"
               end in
    traceFailure gen ComponentCore StageCoreStop startedAt "访问核心停止失败" (Some err) None ;;
    mret termination
  else
    let detail := if bool_decide (is_Some (TerminationErr termination)) then "核心返回退出错误，但进程树已确认停止" else "" in
    traceSuccess gen ComponentCore StageCoreStop startedAt "访问核心已停止" detail None ;;
    mret termination.

Definition notRestored (err : option GoError) : disconnectOutcome :=
  mkDisconnectOutcome failedSafeStatus false err.

(** The first part of [restoreTransaction]: the core is proven stopped before
    anything is restored. *)
Definition restore_stop (ctx : Context) (gen : Z) (started : bool)
    (instance : option ProcessInstance) : X disconnectOutcome unit :=
  match instance with
  | Some i =>
    if started then
      termination ←? lift (stopInstance ctx gen i);
      if negb (TerminationProven termination)
      then return_ (mret (notRestored (TerminationErr termination)))
      else xret tt
    else xret tt
  | None => xret tt
  end.

(** The second part: the network is restored from the snapshot, or
    reconciled when there is none. *)
Definition restore_network (ctx : Context) (gen : Z) (snap : option Snapshot)
    (hasSnap : bool) : X disconnectOutcome unit :=
  restoreStarted ←? lift (traceStart gen ComponentRecovery StageNetworkRestore "正在恢复普通网络");
  if negb HasNetwork then
    let err := Some (errors_New "network manager is unavailable") in
    return_ (traceFailure gen ComponentRecovery StageNetworkRestore restoreStarted
               "普通网络恢复失败" err None ;;
             mret (notRestored err))
  else
  restoreErr ←? lift (if hasSnap : bool then call (CallRestore ctx snap) (Restore ctx snap)
                      else call (CallReconcile ctx) (Reconcile ctx));
  match restoreErr with
  | Some _ =>
    return_ (traceFailure gen ComponentRecovery StageNetworkRestore restoreStarted
               "普通网络恢复失败" restoreErr None ;;
             mret (notRestored restoreErr))
  | None =>
    lift (traceSuccess gen ComponentRecovery StageNetworkRestore restoreStarted
            "普通网络已恢复" "" None)
  end.

(** The third part: a reporting network manager must prove zero residue. *)
Definition restore_residue (ctx : Context) (gen : Z) : X disconnectOutcome unit :=
  match ResidueReporter with
  | None => xret tt
  | Some report =>
    residueStarted ←? lift (traceStart gen ComponentRecovery StageResidueVerify "正在检查连接残留");
    '(residue, err) ←? lift (call (CallResidue ctx) (report ctx));
    match err with
    | Some _ =>
      return_ (traceFailure gen ComponentRecovery StageResidueVerify residueStarted
                 "连接残留检查失败" err None ;;
               mret (notRestored err))
    | None =>
      if negb (Residue_IsZero residue) then
        let err := Some (errors_New "product-owned network residue remains") in
        return_ (traceFailure gen ComponentRecovery StageResidueVerify residueStarted
                   "连接残留未清零" err (Some residue) ;;
                 mret (notRestored err))
      else lift (traceSuccess gen ComponentRecovery StageResidueVerify residueStarted
                   "活动残留已清零" "" (Some residue))
    end
  end.

Definition restoreTransaction (ctx : Context) (gen : Z) (started : bool)
    (instance : option ProcessInstance) (snap : option Snapshot) (hasSnap : bool)
    : M disconnectOutcome :=
  collapse (
    lift stopLifecycleMonitor ?;
    restore_stop ctx gen started instance ?;
    restore_network ctx gen snap hasSnap ?;
    restore_residue ctx gen ?;
    xret (mkDisconnectOutcome (preparedStatus "普通网络已恢复") true None)).

Definition restoreAfterFailure (ctx : Context) (gen : Z) (code : string)
    (prepared : PreparedNetwork) (started : bool) (instance : option ProcessInstance)
    (snap : option Snapshot) (hasSnap : bool) : M connectOutcome :=
  startedTrace ← traceStart gen ComponentRecovery StageAutomaticRestore "正在自动恢复普通网络";
  outcome ← restoreTransaction (WithoutCancel ctx) gen started instance snap hasSnap;
  if do_restored outcome then
    traceSuccess gen ComponentRecovery StageAutomaticRestore startedTrace
      "自动恢复完成，活动残留已清零" "" None ;;
    mret (mkConnectOutcome (safeFailure code) None false true None false prepared)
  else
    traceFailure gen ComponentRecovery StageAutomaticRestore startedTrace
      "自动恢复无法证明完成" (do_err outcome) None ;;
    mret (mkConnectOutcome failedSafeStatus instance
            (started && bool_decide (is_Some instance)) false snap hasSnap prepared).

Definition runDisconnect (ctx : Context) (gen : Z) (recovery : bool) : M disconnectOutcome :=
  recoveryStarted ←
    (if recovery : bool then
       traceStart gen ComponentRecovery StageServiceRecovery "恢复服务遗留网络状态"
     else
       emitTrace (mk_trace gen LevelInfo ComponentController StageRequestReceived EventState
                    None "收到断开请求" "" None) ;;
       mret 0);
  c ← get;
  let started := processStarted c in
  let instance := processInstance c in
  let recovered :=
    (if recovery : bool then
       traceSuccess gen ComponentRecovery StageServiceRecovery recoveryStarted
         "服务遗留状态恢复完成" "" None
     else mret tt) in
  if negb (hasSnapshot c) && negb started && reconciled c then
    recovered ;;
    mret (mkDisconnectOutcome (preparedStatus "海外访问已关闭") true None)
  else
  outcome ← restoreTransaction ctx gen started instance (snapshot c) (hasSnapshot c);
  if do_restored outcome then recovered ;; mret outcome
  else
    (if recovery : bool then
       let err := match do_err outcome with
                  | Some e => e
                  | None => errors_New "service recovery could not prove a safe state"
                  end in
       traceFailure gen ComponentRecovery StageServiceRecovery recoveryStarted
         "服务恢复失败" (Some err) None
     else mret tt) ;;
    mret outcome.

(** ** The connection transaction, by its six steps *)

Definition preChecks (code : string) : connectOutcome :=
  mkConnectOutcome (safeFailure code) None false false None false PreparedNetwork_zero.

Definition check_canceled (ctx : Context) (gen : Z) : X connectOutcome unit :=
  err ←? lift (contextError ctx);
  match err with
  | Some _ =>
    return_ (traceStateFailure gen ComponentController StageRequestReceived "连接请求已取消"
               err None ;;
             mret (preChecks ErrorCanceled))
  | None => xret tt
  end.

Definition check_previous_core (ctx : Context) (gen : Z) : X connectOutcome unit :=
  c ←? lift get;
  if processStarted c then
    return_ (
      let err := errors_New "previous core termination is not proven" in
      startedTrace ← traceStart gen ComponentCore StageCoreStart "检查核心进程所有权";
      traceFailure gen ComponentCore StageCoreStart startedTrace "无法启动新的核心进程"
        (Some err) None ;;
      restoreAfterFailure ctx gen ErrorRestoreFailed PreparedNetwork_zero true
        (processInstance c) None false)
  else xret tt.

Definition check_policy (gen : Z) : X connectOutcome unit :=
  startedTrace ←? lift (traceStart gen ComponentController StagePolicyValidation "验证访问策略");
  err ←? lift (call (CallValidatePolicy policy) (ValidatePolicy policy));
  match err with
  | Some _ =>
    return_ (traceFailure gen ComponentController StagePolicyValidation startedTrace
               "访问策略验证失败" err None ;;
             mret (preChecks ErrorInvalidPolicy))
  | None => lift (traceSuccess gen ComponentController StagePolicyValidation startedTrace
                    "访问策略验证通过" "" None)
  end.

Definition check_binary (gen : Z) : X connectOutcome unit :=
  startedTrace ←? lift (traceStart gen ComponentController StageBinaryVerification "验证客户端核心");
  let reject (err : option GoError) : X connectOutcome unit :=
    return_ (traceFailure gen ComponentController StageBinaryVerification startedTrace
               "客户端核心验证失败" err None ;;
             mret (preChecks ErrorInvalidBinary)) in
  match VerifyExecutable with
  | None => reject (Some (errors_New "binary verifier or executable path is unavailable"))
  | Some verify =>
    if ExecutablePath =?s "" then
      reject (Some (errors_New "binary verifier or executable path is unavailable"))
    else
    err ←? lift (call (CallVerifyExecutable ExecutablePath) (verify ExecutablePath));
    match err with
    | Some _ => reject err
    | None => lift (traceSuccess gen ComponentController StageBinaryVerification startedTrace
                      "客户端核心验证通过" "" None)
    end
  end.

(** The credential of a schema 1 policy, loaded and checked; the expiry check
    follows the registration of the deferred clearing of the password, so
    [then_] is the rest of the transaction under that deferral. *)
Definition with_credential (ctx : Context) (gen : Z)
    (then_ : Credential -> X connectOutcome connectOutcome) : X connectOutcome connectOutcome :=
  if negb (SchemaVersion policy =? 1) then then_ Credential_zero
  else
  startedTrace ←? lift (traceStart gen ComponentController StageCredentialLoad "加载受保护凭据");
  let reject (message code : string) (err : option GoError)
      : X connectOutcome connectOutcome :=
    return_ (traceFailure gen ComponentController StageCredentialLoad startedTrace
               message err None ;;
             mret (preChecks code)) in
  match LoadCredential with
  | None => reject "受保护凭据不可用" ErrorCredential
              (Some (errors_New "credential loader is unavailable"))
  | Some load =>
    '(credential, err) ←? lift (call (CallLoadCredential ctx (PolicyCredential policy))
                                  (load ctx (PolicyCredential policy)));
    match err with
    | Some _ => reject "受保护凭据不可用" ErrorCredential err
    | None =>
      deferred (Some (CallClearPassword (length (CredentialPassword credential))))
        (now ←? (if time_is_zero (CredentialExpiresAt credential) then xret None
                 else lift (n ← ask Now; mret (Some n)));
         if match now with
            | None => true
            | Some n => negb (n <? CredentialExpiresAt credential)
            end
         then reject "受保护凭据已过期" ErrorExpiredCredential
                (Some (errors_New "credential expiry is invalid"))
         else
         lift (traceSuccess gen ComponentController StageCredentialLoad startedTrace
                 "受保护凭据加载完成" "" None) ?;
         then_ credential)
    end
  end.

(** Step 1: prepare the baseline and capture the active snapshot. *)
Definition step_capture (ctx : Context) (gen startedAt : Z)
    : X connectOutcome (PreparedNetwork * option Snapshot) :=
  lift (enterPhase PhaseFingerprintSnapshot 1 startedAt) ?;
  startedTrace ←? lift (traceStart gen ComponentNetwork StageNetworkPrepare
                          "正在读取当前网络配置与网卡清单");
  if negb HasNetwork then
    return_ (traceFailure gen ComponentNetwork StageNetworkPrepare startedTrace
               "网络保护配置不可用" (Some (errors_New "network manager is unavailable")) None ;;
             mret (preChecks ErrorPreparedUnavailable))
  else
  '(prepared, err) ←? lift (call (CallPrepare ctx) (Prepare ctx));
  match err with
  | Some e =>
    return_ (traceFailure gen ComponentNetwork StageNetworkPrepare startedTrace
               "网络保护配置不可用" err None ;;
             code ← codeForContext ctx
                      (if errors_Is e ErrVPNConflict then ErrorVPNConflict
                       else ErrorPreparedUnavailable);
             restoreAfterFailure ctx gen code PreparedNetwork_zero false None None false)
  | None =>
    lift (traceSuccess gen ComponentNetwork StageNetworkPrepare startedTrace
            "网络保护配置已就绪"
            ("generation=" ++s pretty (PreparedGeneration prepared) ++s
             " adapters=" ++s pretty (PreparedAdapterCount prepared) ++s
             " rules=" ++s pretty (PreparedRuleCount prepared)) None) ?;
    startedTrace ←? lift (traceStart gen ComponentNetwork StageNetworkCapture
                            "正在读取当前网络配置");
    '(snap, err) ←? lift (call (CallCapture ctx prepared) (Capture ctx prepared));
    match err with
    | Some _ =>
      return_ (traceFailure gen ComponentNetwork StageNetworkCapture startedTrace
                 "无法读取当前网络配置" err None ;;
               code ← codeForContext ctx ErrorNetworkCapture;
               restoreAfterFailure ctx gen code PreparedNetwork_zero false None None false)
    | None =>
      lift (modify (set_snapshot snap true)) ?;
      lift (traceSuccess gen ComponentNetwork StageNetworkCapture startedTrace
              "当前网络配置已确认" "" None) ?;
      xret (prepared, snap)
    end
  end.

(** Step 2: enable and verify the prepared leak protection. *)
Definition step_protect (ctx : Context) (gen startedAt : Z) (prepared : PreparedNetwork)
    (snap : option Snapshot) : X connectOutcome unit :=
  lift (enterPhase PhaseFirewall 2 startedAt) ?;
  startedTrace ←? lift (traceStart gen ComponentNetwork StageFirewallEnable
                          "正在启用防泄漏保护");
  err ←? lift (call (CallEnableProtection ctx prepared) (EnableProtection ctx prepared));
  match err with
  | Some _ =>
    return_ (
      code ← codeForContext ctx
               (if diagnosticStage_of err =?s StageFirewallVerify then ErrorFirewallVerify
                else ErrorFirewallEnable);
      let stage := if code =?s ErrorFirewallVerify then StageFirewallVerify
                   else StageFirewallEnable in
      traceFailure gen ComponentNetwork stage startedTrace "防泄漏保护启用失败" err None ;;
      restoreAfterFailure ctx gen code prepared false None snap true)
  | None =>
    lift (traceSuccess gen ComponentNetwork StageFirewallEnable startedTrace
            "防泄漏保护已启用" ("rules=" ++s pretty (PreparedRuleCount prepared)) None)
  end.

(** Step 3: render the controlled configuration.  The rendered bytes are
    cleared when the transaction returns, so [then_] is the rest of it. *)
Definition with_config (ctx : Context) (gen startedAt : Z) (prepared : PreparedNetwork)
    (snap : option Snapshot) (credential : Credential)
    (then_ : X connectOutcome connectOutcome) : X connectOutcome connectOutcome :=
  lift (enterPhase PhaseCore 3 startedAt) ?;
  startedTrace ←? lift (traceStart gen ComponentController StageConfigRender
                          "生成受控核心配置");
  let reject (message : string) (err : option GoError) : X connectOutcome connectOutcome :=
    return_ (traceFailure gen ComponentController StageConfigRender startedTrace
               message err None ;;
             restoreAfterFailure ctx gen ErrorRender prepared false None snap true) in
  let unavailable :=
    reject "受控核心配置生成失败"
      (Some (errors_New "configuration renderer or destination is unavailable")) in
  match RenderConfig, WriteConfigAtomic with
  | Some render, Some write =>
    if ConfigPath =?s "" then unavailable
    else
    '(config, err) ←? lift (call (CallRenderConfig policy credential)
                              (render policy credential));
    match err with
    | Some _ => reject "受控核心配置生成失败" err
    | None =>
      deferred (Some (CallClearConfig (length config)))
        (err ←? lift (call (CallWriteConfig ConfigPath config) (write ConfigPath config));
         match err with
         | Some _ => reject "受控核心配置写入失败" err
         | None =>
           lift (traceSuccess gen ComponentController StageConfigRender startedTrace
                   "受控核心配置已生成" "" None) ?;
           then_
         end)
    end
  | _, _ => unavailable
  end.

(** Step 3, continued: start the core and wait until it is ready. *)
Definition step_core (ctx : Context) (gen : Z) (prepared : PreparedNetwork)
    (snap : option Snapshot) : X connectOutcome ProcessInstance :=
  startedTrace ←? lift (traceStart gen ComponentCore StageCoreStart "启动访问核心");
  let reject (err : option GoError) (restore : M connectOutcome)
      : X connectOutcome ProcessInstance :=
    return_ (traceFailure gen ComponentCore StageCoreStart startedTrace
               "访问核心启动失败" err None ;; restore) in
  if negb HasProcess then
    reject (Some (errors_New "process supervisor is unavailable"))
      (restoreAfterFailure ctx gen ErrorCoreStart prepared false None snap true)
  else
  '(instance, result) ←? lift (call (CallStart (WithoutCancel ctx) ExecutablePath ConfigPath)
                                 (Start (WithoutCancel ctx) ExecutablePath ConfigPath));
  match StartErr result, instance with
  | Some _, _ =>
    reject (StartErr result)
      (code ← codeForContext ctx ErrorCoreStart;
       restoreAfterFailure ctx gen code prepared (negb (StartTerminationProven result))
         instance snap true)
  | None, None =>
    reject (Some (errors_New "process supervisor returned no instance"))
      (restoreAfterFailure ctx gen ErrorCoreStart prepared false None snap true)
  | None, Some i =>
    lift (traceSuccess gen ComponentCore StageCoreStart startedTrace "访问核心已启动" "" None) ?;
    startedTrace ←? lift (traceStart gen ComponentCore StageCoreReady "等待访问核心就绪");
    err ←? lift (call (CallReady i ctx) (Ready i ctx));
    match err with
    | Some _ =>
      return_ (traceFailure gen ComponentCore StageCoreReady startedTrace
                 "访问核心未就绪" err None ;;
               code ← codeForContext ctx ErrorCoreNotReady;
               restoreAfterFailure ctx gen code prepared true instance snap true)
    | None =>
      lift (traceSuccess gen ComponentCore StageCoreReady startedTrace
              "访问核心已就绪" "" None) ?;
      xret i
    end
  end.

(** Step 4: own the fixed TUN identity created by the core. *)
Definition step_tun (ctx : Context) (gen startedAt : Z) (prepared : PreparedNetwork)
    (snap : option Snapshot) (i : ProcessInstance) : X connectOutcome unit :=
  lift (enterPhase PhaseTUN 4 startedAt) ?;
  startedTrace ←? lift (traceStart gen ComponentNetwork StageTUNReady
                          "正在等待 sing-box TUN 网卡");
  err ←? lift (call (CallWaitTUNReady ctx) (WaitTUNReady ctx));
  match err with
  | Some e =>
    return_ (
      code ← codeForContext ctx
               (if errors_Is e ErrTUNIdentityMismatch then ErrorTUNIdentityMismatch
                else ErrorTUNNotFound);
      traceFailure gen ComponentNetwork StageTUNReady startedTrace
        (tunFailureMessage code) err None ;;
      restoreAfterFailure ctx gen code prepared true (Some i) snap true)
  | None =>
    lift (traceSuccess gen ComponentNetwork StageTUNReady startedTrace
            "TUN 网卡已就绪" "" None)
  end.

(** Step 5: switch DNS, interface metric and the safe routes. *)
Definition step_routes (ctx : Context) (gen startedAt : Z) (prepared : PreparedNetwork)
    (snap : option Snapshot) (i : ProcessInstance) : X connectOutcome unit :=
  lift (enterPhase PhaseRouteDNS 5 startedAt) ?;
  startedTrace ←? lift (traceStart gen ComponentNetwork StageRouteActivation
                          "正在切换 DNS 与安全路由");
  err ←? lift (call (CallActivateTUNRoutes ctx) (ActivateTUNRoutes ctx));
  match err with
  | Some _ =>
    return_ (traceFailure gen ComponentNetwork StageRouteActivation startedTrace
               "安全路由启用失败" err None ;;
             code ← codeForContext ctx ErrorRouteActivationFailed;
             restoreAfterFailure ctx gen code prepared true (Some i) snap true)
  | None =>
    lift (traceSuccess gen ComponentNetwork StageRouteActivation startedTrace
            "安全路由已启用" "" None)
  end.

(** Step 6: connected; the caller starts the runtime monitor. *)
Definition step_connected (gen startedAt : Z) (prepared : PreparedNetwork)
    (snap : option Snapshot) (i : ProcessInstance) : M connectOutcome :=
  now ← ask Now;
  emitTrace (mk_trace gen LevelInfo ComponentController StageConnected EventState None
    "海外访问已连接" "" None) ;;
  mret (mkConnectOutcome
          (mkStatus StateConnected "" "海外访问已连接" PhaseConnected connectionTotalSteps
             connectionTotalSteps (elapsed_ms now startedAt))
          (Some i) true false snap true prepared).

Definition runConnect (ctx : Context) (gen startedAt : Z) : M connectOutcome :=
  collapse (
    check_canceled ctx gen ?;
    check_previous_core ctx gen ?;
    check_policy gen ?;
    check_binary gen ?;
    with_credential ctx gen (fun credential =>
      '(prepared, snap) ←? step_capture ctx gen startedAt;
      step_protect ctx gen startedAt prepared snap ?;
      with_config ctx gen startedAt prepared snap credential
        (i ←? step_core ctx gen prepared snap;
         step_tun ctx gen startedAt prepared snap i ?;
         step_routes ctx gen startedAt prepared snap i ?;
         lift (step_connected gen startedAt prepared snap i)))).
End Bodies.
