(* ===== verification/ControllerSpec.v ===== *)
(** * What the connection transaction promises

    An abstract protocol of operating-system operations ([restore_run],
    [connect_run]) and the proof that the transaction of [Controller.v]
    refines it, whatever the network manager, the process supervisor, the
    clock and the cancellation of the caller do. *)
From S2P Require Import Prelude GoText TraceEvent AccessModel Controller.

#[local] Open Scope string_scope.
#[local] Open Scope Z_scope.
#[local] Open Scope list_scope.

(** ** Operations on the machine *)
Inductive Op :=
| OpPrepare | OpCapture | OpProtect | OpStart | OpReady | OpTUN | OpRoutes
| OpStop | OpRestore | OpReconcile | OpResidue.

#[export] Instance Op_eq_dec : EqDecision Op.
Proof. solve_decision. Defined.

(** How an operation ended.  A core that failed to start may leave a process
    behind whose termination is not proven: [Leftover]. *)
Inductive Result := Done | Failed | Leftover.

#[export] Instance Result_eq_dec : EqDecision Result.
Proof. solve_decision. Defined.

(** A step of a plan: an operation, and whether the caller can cancel it. *)
Abbreviation Step := (Op * bool)%type.

(** An execution of a plan performs its steps in order, goes on only after
    [Done], and reports [true] exactly when every step was performed and
    succeeded. *)
Inductive runs : list Step -> list (Step * Result) -> bool -> Prop :=
| runs_done : runs [] [] true
| runs_step o p t b : runs p t b -> runs (o :: p) ((o, Done) :: t) b
| runs_fail o p r : r <> Done -> runs (o :: p) [(o, r)] false
| runs_abort o p : runs (o :: p) [] false.

(** The order in which a connection is built.  The core is started outside
    the caller's cancellation. *)
Definition forward (cancellable : bool) : list Step :=
  [(OpPrepare, cancellable); (OpCapture, cancellable); (OpProtect, cancellable);
   (OpStart, false); (OpReady, cancellable); (OpTUN, cancellable); (OpRoutes, cancellable)].

(** What an execution has done that a rollback must undo. *)
Definition has_event (o : Op) (r : Result) (t : list (Step * Result)) : bool :=
  existsb (fun e => bool_decide (e.1.1 = o /\ e.2 = r)) t.
Definition captured (t : list (Step * Result)) : bool := has_event OpCapture Done t.
Definition core_running (t : list (Step * Result)) : bool :=
  has_event OpStart Done t || has_event OpStart Leftover t.

Section Logic.
Context `{Environment}.

(** The reverse order: the core first, then the network, then the proof that
    nothing is left. *)
Definition restore_plan (cancellable stop snap : bool) : list Step :=
  (if stop then [(OpStop, cancellable)] else []) ++
  [(if snap then OpRestore else OpReconcile, cancellable)] ++
  (if bool_decide (is_Some ResidueReporter) then [(OpResidue, cancellable)] else []).

Definition result_of (err : option GoError) : Result :=
  match err with None => Done | Some _ => Failed end.

Definition event_of (c : Call) : option (Step * Result) :=
  match c with
  | CallPrepare ctx r => Some (OpPrepare, ctx_cancellable ctx, result_of r.2)
  | CallCapture ctx _ r => Some (OpCapture, ctx_cancellable ctx, result_of r.2)
  | CallEnableProtection ctx _ r => Some (OpProtect, ctx_cancellable ctx, result_of r)
  | CallStart ctx _ _ r =>
    Some (OpStart, ctx_cancellable ctx,
      match StartErr r.2, r.1 with
      | None, Some _ => Done
      | Some _, Some _ => if StartTerminationProven r.2 then Failed else Leftover
      | _, None => Failed
      end)
  | CallReady _ ctx r => Some (OpReady, ctx_cancellable ctx, result_of r)
  | CallWaitTUNReady ctx r => Some (OpTUN, ctx_cancellable ctx, result_of r)
  | CallActivateTUNRoutes ctx r => Some (OpRoutes, ctx_cancellable ctx, result_of r)
  | CallStop _ ctx r =>
    Some (OpStop, ctx_cancellable ctx, if TerminationProven r then Done else Failed)
  | CallRestore ctx _ r => Some (OpRestore, ctx_cancellable ctx, result_of r)
  | CallReconcile ctx r => Some (OpReconcile, ctx_cancellable ctx, result_of r)
  | CallResidue ctx r =>
    Some (OpResidue, ctx_cancellable ctx,
      match r.2 with
      | Some _ => Failed
      | None => if Residue_IsZero r.1 then Done else Failed
      end)
  | _ => None
  end.

(** The operations performed so far. *)
Definition events (s : St) : list (Step * Result) := omap event_of (calls s).

(** ** Weakest preconditions of the state monad *)
Definition wp {A} (m : M A) (Q : A -> St -> Prop) (s : St) : Prop := Q (m s).1 (m s).2.

Definition wpx {R A} (m : X R A) (QR : R -> St -> Prop) (QA : A -> St -> Prop) : St -> Prop :=
  wp m (fun r s => match r with inl r => QR r s | inr a => QA a s end).

Lemma wp_mono {A} (m : M A) (Q Q' : A -> St -> Prop) s :
  wp m Q s -> (forall x s', Q x s' -> Q' x s') -> wp m Q' s.
Proof. unfold wp. auto. Qed.

Lemma wp_ret {A} (x : A) Q s : Q x s -> wp (mret x) Q s.
Proof. done. Qed.

Lemma wp_bind {A B} (m : M A) (f : A -> M B) Q s :
  wp m (fun x => wp (f x) Q) s -> wp (m ≫= f) Q s.
Proof. unfold wp, mbind, M_bind. by destruct (m s). Qed.

Lemma wp_get Q s : Q (ctl s) s -> wp get Q s.
Proof. done. Qed.

Lemma wp_modify f Q s : Q tt (mkSt (f (ctl s)) (world s) (calls s)) -> wp (modify f) Q s.
Proof. done. Qed.

Lemma wp_record c Q s : Q tt (mkSt (ctl s) (world s) (calls s ++ [c])) -> wp (record c) Q s.
Proof. done. Qed.

Lemma wp_ask {A} (op : World -> A * World) Q s :
  (forall x w, Q x (mkSt (ctl s) w (calls s))) -> wp (ask op) Q s.
Proof. unfold wp, ask. destruct (op (world s)). simpl. auto. Qed.

Lemma wp_call {A} (c : A -> Call) (op : World -> A * World) Q s :
  (forall x w, Q x (mkSt (ctl s) w (calls s ++ [c x]))) -> wp (call c op) Q s.
Proof. intros HQ. apply wp_bind, wp_ask. intros x w. apply wp_bind, wp_record, HQ. Qed.

Lemma wpx_mono {R A} (m : X R A) (QR QR' : R -> St -> Prop) (QA QA' : A -> St -> Prop) s :
  wpx m QR QA s -> (forall r s', QR r s' -> QR' r s') -> (forall x s', QA x s' -> QA' x s') ->
  wpx m QR' QA' s.
Proof. intros Hm ? ?. unfold wpx in *. apply (wp_mono _ _ _ _ Hm). intros [] ? ; auto. Qed.

Lemma wpx_bind {R A B} (m : X R A) (f : A -> X R B) QR QB s :
  wpx m QR (fun x => wpx (f x) QR QB) s -> wpx (xbind m f) QR QB s.
Proof.
  unfold wpx. intros Hm. apply wp_bind, (wp_mono _ _ _ _ Hm). by intros [] ?.
Qed.

Lemma wpx_lift {R A} (m : M A) (QR : R -> St -> Prop) QA s :
  wp m QA s -> wpx (lift m) QR QA s.
Proof. unfold wpx in *. intros Hm. apply wp_bind, (wp_mono _ _ _ _ Hm). auto. Qed.

Lemma wpx_return {R A} (m : M R) QR (QA : A -> St -> Prop) s :
  wp m QR s -> wpx (return_ m) QR QA s.
Proof. unfold wpx in *. intros Hm. apply wp_bind, (wp_mono _ _ _ _ Hm). auto. Qed.

Lemma wpx_ret {R A} (x : A) (QR : R -> St -> Prop) QA s : QA x s -> wpx (xret x) QR QA s.
Proof. done. Qed.

Lemma wp_collapse {R} (m : X R R) Q s : wpx m Q Q s -> wp (collapse m) Q s.
Proof. unfold wpx in *. intros Hm. apply wp_bind, (wp_mono _ _ _ _ Hm). by intros [] ?. Qed.

Lemma wpx_deferred {R A} c (m : X R A) QR QA s :
  wpx m (fun r s => wp (match c with Some c => record c | None => mret tt end)
                       (fun _ => QR r) s)
        (fun a s => wp (match c with Some c => record c | None => mret tt end)
                       (fun _ => QA a) s) s ->
  wpx (deferred c m) QR QA s.
Proof.
  unfold wpx. intros Hm. apply wp_bind, (wp_mono _ _ _ _ Hm).
  intros [] ? Hr; apply wp_bind, (wp_mono _ _ _ _ Hr); auto.
Qed.

(** ** Quiet steps: traces, diagnostics, phases and clock readings

    They leave the machine and the transaction fields of the controller
    alone. *)
Inductive Core :=
| mkCore (generation : Z) (transition : option Transition)
    (snapshot : option Snapshot) (hasSnapshot : bool)
    (processStarted : bool) (processInstance : option ProcessInstance)
    (monitorCancel monitorDone : option Chan) (reconciled : bool)
    (lineQuality : string) (connectedAt : Z).

Definition core (c : Controller) : Core :=
  mkCore (generation c) (transition c) (snapshot c) (hasSnapshot c)
    (processStarted c) (processInstance c) (monitorCancel c) (monitorDone c)
    (reconciled c) (lineQuality c) (connectedAt c).

Definition quiet (s s' : St) : Prop := events s' = events s /\ core (ctl s') = core (ctl s).

Lemma core_set_monitor m d c c' :
  core c = core c' -> core (set_monitor m d c) = core (set_monitor m d c').
Proof. unfold core; simpl. intros [=]. congruence. Qed.

Lemma core_set_snapshot sn h c c' :
  core c = core c' -> core (set_snapshot sn h c) = core (set_snapshot sn h c').
Proof. unfold core; simpl. intros [=]. congruence. Qed.

Lemma core_fields c c' :
  core c = core c' ->
  generation c = generation c' /\ transition c = transition c' /\
  snapshot c = snapshot c' /\ hasSnapshot c = hasSnapshot c' /\
  processStarted c = processStarted c' /\ processInstance c = processInstance c' /\
  monitorCancel c = monitorCancel c' /\ monitorDone c = monitorDone c' /\
  reconciled c = reconciled c' /\ lineQuality c = lineQuality c' /\
  connectedAt c = connectedAt c'.
Proof. unfold core. intros [=]. auto 20. Qed.

Lemma core_set_snapshot_self c : core c = core (set_snapshot (snapshot c) (hasSnapshot c) c).
Proof. done. Qed.

#[export] Instance quiet_preorder : PreOrder quiet.
Proof. split; [by split|]. intros s1 s2 s3 [] []. split; by etrans. Qed.

(** [m] is quiet: any postcondition that holds after a quiet step holds. *)
Definition quietM {A} (m : M A) : Prop :=
  forall Q s, (forall x s', quiet s s' -> Q x s') -> wp m Q s.

Lemma quiet_bind {A B} (m : M A) (f : A -> M B) :
  quietM m -> (forall x, quietM (f x)) -> quietM (m ≫= f).
Proof.
  intros Hm Hf Q s HQ. apply wp_bind, Hm. intros x s' Hs. apply Hf.
  intros y s'' Hs'. apply HQ. by etrans.
Qed.

Lemma quiet_ret {A} (x : A) : quietM (mret x).
Proof. intros Q s HQ. apply wp_ret, HQ. reflexivity. Qed.

Lemma quiet_ask {A} (op : World -> A * World) : quietM (ask op).
Proof. intros Q s HQ. apply wp_ask. intros x w. by apply HQ. Qed.

Lemma quiet_record c : event_of c = None -> quietM (record c).
Proof.
  intros Hc Q s HQ. apply wp_record, HQ. split; [|done].
  unfold events. simpl. rewrite omap_app. simpl. by rewrite Hc, app_nil_r.
Qed.

Lemma quiet_modify f : (forall c, core (f c) = core c) -> quietM (modify f).
Proof. intros Hf Q s HQ. apply wp_modify, HQ. split; [done|]. apply Hf. Qed.

#[local] Hint Resolve quiet_bind quiet_ret quiet_ask quiet_record quiet_modify : core.

Lemma quiet_call {A} (c : A -> Call) (op : World -> A * World) :
  (forall x, event_of (c x) = None) -> quietM (call c op).
Proof. intros. apply quiet_bind; auto. Qed.

Lemma quiet_emitTrace ev : quietM (emitTrace ev).
Proof.
  unfold emitTrace. destruct Trace; [|auto].
  destruct (SanitizeDetail (EvDetail ev) []). by apply quiet_call.
Qed.
#[local] Hint Resolve quiet_emitTrace : core.

Lemma quiet_traceStart gen cm st msg : quietM (traceStart gen cm st msg).
Proof. unfold traceStart. auto. Qed.

Lemma quiet_traceTerminal gen lv cm st ev t msg d r :
  quietM (traceTerminal gen lv cm st ev t msg d r).
Proof. unfold traceTerminal. auto. Qed.

Lemma quiet_recordDiagnostic st err : quietM (recordDiagnostic st err).
Proof. unfold recordDiagnostic. destruct (diagnostic_of st err). auto. Qed.
#[local] Hint Resolve quiet_traceStart quiet_traceTerminal quiet_recordDiagnostic : core.

Lemma quiet_traceSuccess gen cm st t msg d r : quietM (traceSuccess gen cm st t msg d r).
Proof. apply quiet_traceTerminal. Qed.

Lemma quiet_traceFailure gen cm st t msg e r : quietM (traceFailure gen cm st t msg e r).
Proof. apply quiet_bind; [auto|]. intros []. auto. Qed.

Lemma quiet_traceStateFailure gen cm st msg e r : quietM (traceStateFailure gen cm st msg e r).
Proof. apply quiet_bind; [auto|]. intros []. auto. Qed.

Lemma quiet_contextError ctx : quietM (contextError ctx).
Proof. unfold contextError. destruct (ctx_cancellable ctx); auto. Qed.
#[local] Hint Resolve quiet_contextError : core.

Lemma quiet_codeForContext ctx code : quietM (codeForContext ctx code).
Proof. unfold codeForContext. auto. Qed.

Lemma wp_codeForContext ctx code Q s :
  (forall x s', quiet s s' -> x = ErrorCanceled \/ x = code -> Q x s') ->
  wp (codeForContext ctx code) Q s.
Proof.
  intros HQ. unfold codeForContext. apply wp_bind, quiet_contextError. intros err s' Hs.
  apply wp_ret. case_bool_decide; auto.
Qed.

Lemma quiet_enterPhase ph st t : quietM (enterPhase ph st t).
Proof. unfold enterPhase, phaseStatus. auto. Qed.
End Logic.

#[global] Opaque core.

Create HintDb quiet.
#[export] Hint Resolve quiet_bind quiet_ret quiet_ask quiet_record quiet_modify quiet_call
  quiet_emitTrace quiet_traceStart quiet_traceTerminal quiet_recordDiagnostic
  quiet_traceSuccess quiet_traceFailure quiet_traceStateFailure quiet_contextError
  quiet_codeForContext quiet_enterPhase : quiet.

(** One step of symbolic execution: a structural rule, or a quiet step. *)
Ltac wp_step :=
  match goal with
  | |- wpx (xbind _ _) _ _ _ => apply wpx_bind
  | |- wpx (lift _) _ _ _ => apply wpx_lift
  | |- wpx (return_ _) _ _ _ => apply wpx_return
  | |- wpx (xret _) _ _ _ => apply wpx_ret
  | |- wp (mret _) _ _ => apply wp_ret
  | |- wp get _ _ => apply wp_get
  | |- wp (_ ≫= _) _ _ => apply wp_bind
  | |- wp (collapse _) _ _ => apply wp_collapse
  | |- wp (call _ _) _ _ => apply wp_call; intros ? ?
  | |- wp (codeForContext _ _) _ _ => apply wp_codeForContext; intros ? ? ? ?
  | |- wp ?m _ _ =>
    let Hq := fresh "Hq" in
    assert (Hq : quietM m) by (eauto 10 with quiet nocore); apply Hq; clear Hq; intros ? ? ?
  | |- wp (modify _) _ _ => apply wp_modify
  | |- wp (record _) _ _ => apply wp_record
  end; cbn beta.

(** ** Plans *)
Section Plans.
Lemma runs_all_done (p : list Step) : runs p (map (fun o => (o, Done)) p) true.
Proof. induction p; constructor; auto. Qed.

Lemma runs_true_iff p t : runs p t true <-> t = map (fun o => (o, Done)) p.
Proof.
  split; [|intros ->; apply runs_all_done].
  remember true as b eqn:Hb. induction 1; simpl; naive_solver.
Qed.

Lemma runs_fail_app p1 p2 t : runs p1 t false -> runs (p1 ++ p2) t false.
Proof.
  remember false as b eqn:Hb. induction 1; simplify_eq/=; constructor; auto.
Qed.

Lemma runs_app p1 p2 t b :
  runs p2 t b -> runs (p1 ++ p2) (map (fun o => (o, Done)) p1 ++ t) b.
Proof. induction p1; simpl; [auto|]. intros. constructor. auto. Qed.

(** An execution is at most as long as its plan and stops at the first step
    that is not done. *)
Lemma runs_prefix p t b : runs p t b -> map fst t `prefix_of` p.
Proof.
  induction 1; simpl; [done|by apply prefix_cons| |apply prefix_nil].
  apply prefix_cons, prefix_nil.
Qed.
End Plans.

(** ** Restoration refines its plan *)
Section Restore.
Context `{Environment}.

(** [m] performs [p] and goes on, or stops within [p] with a result that
    satisfies [fail]; it leaves the controller's transaction fields alone. *)
Definition part {R A} (m : X R A) (p : list Step) (fail : R -> Prop) (ok : A -> Prop) : Prop :=
  forall (QR : R -> St -> Prop) (QA : A -> St -> Prop) s,
  (forall r s' t, runs p t false -> events s' = events s ++ t ->
     core (ctl s') = core (ctl s) -> fail r -> QR r s') ->
  (forall x s', events s' = events s ++ map (fun o => (o, Done)) p ->
     core (ctl s') = core (ctl s) -> ok x -> QA x s') ->
  wpx m QR QA s.

Lemma part_bind {R A B} (m : X R A) (f : A -> X R B) p1 p2 fail ok ok' :
  part m p1 fail ok -> (forall x, part (f x) p2 fail ok') ->
  part (xbind m f) (p1 ++ p2) fail ok'.
Proof.
  intros Hm Hf QR QA s Hfail Hok. apply wpx_bind, Hm.
  - intros r s' t Ht He Hc Hr. eapply Hfail; eauto using runs_fail_app.
  - intros x s' He Hc _. apply Hf.
    + intros r s'' t Ht He' Hc' Hr.
      eapply Hfail; [by apply runs_app| |congruence|done]. by rewrite He', He, app_assoc.
    + intros y s'' He' Hc' Hy. apply Hok; [|congruence|done].
      by rewrite He', He, map_app, app_assoc.
Qed.

Lemma part_ret {R A} (x : A) fail (ok : A -> Prop) : ok x -> part (xret x : X R A) [] fail ok.
Proof. intros Hx QR QA s _ Hok. apply wpx_ret, Hok; [by rewrite app_nil_r|done|done]. Qed.

Lemma events_call c e l ctl' w :
  event_of c = Some e ->
  events (mkSt ctl' w (l ++ [c])) = events (mkSt ctl' w l) ++ [e].
Proof. intros Hc. unfold events. simpl. rewrite omap_app. simpl. by rewrite Hc. Qed.

Lemma events_calls s ctl' w : events (mkSt ctl' w (calls s)) = events s.
Proof. done. Qed.

Lemma events_silent c l ctl' w :
  event_of c = None -> events (mkSt ctl' w (l ++ [c])) = events (mkSt ctl' w l).
Proof. intros Hc. unfold events. simpl. rewrite omap_app. simpl. by rewrite Hc, app_nil_r. Qed.
End Restore.

(** Rewrites the events and the core of the current state back to those of the
    state the quiet steps started from. *)
Ltac quiet_rewrite :=
  repeat match goal with
  | H : quiet _ ?s |- context [events ?s] => rewrite (proj1 H)
  | H : quiet _ ?s |- context [core (ctl ?s)] => rewrite (proj2 H)
  | |- context [events (mkSt _ _ (calls _))] => rewrite events_calls
  | |- context [events (mkSt _ _ (_ ++ [_]))] =>
    first [erewrite events_call by reflexivity | rewrite events_silent by reflexivity]
  | |- context [ctl (mkSt _ _ _)] => progress cbn [ctl]
  | |- context [calls (mkSt _ _ _)] => progress cbn [calls]
  end.

(** Case analysis on the test the current body branches on. *)
Ltac wp_case b :=
  match goal with
  | H : b = _ |- _ => rewrite H
  | _ => let E := fresh "E" in destruct b eqn:E
  end; simpl.

Ltac wp_go :=
  repeat first
    [ wp_step
    | match goal with
      | |- wp (if negb ?b then _ else _) _ _ => wp_case b
      | |- wpx (if negb ?b then _ else _) _ _ _ => wp_case b
      | |- wp (if ?b then _ else _) _ _ => wp_case b
      | |- wpx (if ?b then _ else _) _ _ _ => wp_case b
      | |- wp (match ?b with _ => _ end) _ _ => wp_case b
      | |- wpx (match ?b with _ => _ end) _ _ _ => wp_case b
      end ].

(** Closes the events and core obligations of the end of a body. *)
Ltac wp_end :=
  quiet_rewrite; rewrite <- ?app_assoc; simpl;
  repeat match goal with H : ?b = _ |- context [if ?b then _ else _] => rewrite H
                       | H : ?b = _ |- context [match ?b with _ => _ end] => rewrite H end;
  try done; try reflexivity; try (symmetry; apply app_nil_r).

Ltac runs_tac := repeat first [apply runs_abort | apply runs_fail; done | apply runs_step].

Section RestoreParts.
Context `{Environment}.

Definition restore_failed (out : disconnectOutcome) : Prop :=
  do_restored out = false /\ do_status out = failedSafeStatus.

Lemma stop_part ctx gen started instance :
  part (restore_stop ctx gen started instance)
    (if started && bool_decide (is_Some instance) then [(OpStop, ctx_cancellable ctx)] else [])
    restore_failed (fun _ => True).
Proof.
  intros QR QA s Hfail Hok. unfold restore_stop.
  destruct instance as [i|], started; simpl in *;
    [|by apply (part_ret tt restore_failed (fun _ => True))..].
  unfold stopInstance. wp_go.
  all: try (apply Hok; [wp_end|wp_end|done]).
  all: eapply Hfail; [|wp_end| |done]; [runs_tac|wp_end].
Qed.

Lemma network_part ctx gen snap hasSnap :
  part (restore_network ctx gen snap hasSnap)
    [(if hasSnap : bool then OpRestore else OpReconcile, ctx_cancellable ctx)] restore_failed
    (fun _ => True).
Proof.
  intros QR QA s Hfail Hok. unfold restore_network. wp_go.
  all: try (apply Hok; [wp_end|wp_end|done]).
  all: eapply Hfail; [|wp_end| |done]; [runs_tac|wp_end].
Qed.

Lemma residue_part ctx gen :
  part (restore_residue ctx gen)
    (if bool_decide (is_Some ResidueReporter) then [(OpResidue, ctx_cancellable ctx)] else [])
    restore_failed (fun _ => True).
Proof.
  intros QR QA s Hfail Hok. unfold restore_residue.
  destruct ResidueReporter; simpl in *; [|by apply (part_ret tt restore_failed (fun _ => True))].
  wp_go.
  all: try (apply Hok; [wp_end|wp_end|done]).
  all: eapply Hfail; [|wp_end| |done]; [runs_tac|wp_end].
Qed.

Lemma wp_stopLifecycleMonitor Q s :
  (forall s', events s' = events s -> core (ctl s') = core (set_monitor None None (ctl s)) ->
     Q tt s') ->
  wp stopLifecycleMonitor Q s.
Proof.
  intros HQ. unfold stopLifecycleMonitor. wp_go.
  all: apply HQ; [unfold events; cbn; rewrite ?omap_app; cbn; by rewrite ?app_nil_r|done].
Qed.

Lemma restore_part ctx gen started instance snap hasSnap out :
  part (restore_stop ctx gen started instance ?; restore_network ctx gen snap hasSnap ?;
        restore_residue ctx gen ?; xret out : X disconnectOutcome disconnectOutcome)
    (restore_plan (ctx_cancellable ctx) (started && bool_decide (is_Some instance)) hasSnap)
    restore_failed (eq out).
Proof.
  unfold restore_plan.
  eapply part_bind; [apply stop_part|intros _].
  eapply part_bind; [apply network_part|intros _].
  rewrite <- (app_nil_r (if bool_decide _ then _ else _)).
  eapply part_bind; [apply residue_part|intros _]. by apply part_ret.
Qed.

Lemma wp_restoreTransaction ctx gen started instance snap hasSnap Q s :
  (forall out s' t,
     runs (restore_plan (ctx_cancellable ctx) (started && bool_decide (is_Some instance)) hasSnap)
       t (do_restored out) ->
     events s' = events s ++ t ->
     core (ctl s') = core (set_monitor None None (ctl s)) ->
     do_status out = (if do_restored out then preparedStatus "普通网络已恢复"
                      else failedSafeStatus) ->
     Q out s') ->
  wp (restoreTransaction ctx gen started instance snap hasSnap) Q s.
Proof.
  intros HQ. apply wp_collapse, wpx_bind, wpx_lift, wp_stopLifecycleMonitor.
  intros s1 He Hc.
  apply restore_part.
  - intros out s' t Ht He' Hc' [Hr Hs]. eapply HQ; rewrite ?Hr; [exact Ht|..]; congruence.
  - intros ? s' He' Hc' <-. eapply HQ; [apply runs_all_done|..]; simpl; congruence.
Qed.

(** The error codes with a message for the user. *)
Definition known_code (code : string) : bool :=
  existsb (fun p => p.1 =?s code) failureMessages.

(** The outcome of a rollback: everything undone, or the failed safe state
    that still owns what could not be undone. *)
Definition rolled_back (stop snap restored : bool) (out : connectOutcome) : Prop :=
  co_restored out = restored /\
  if restored then
    (exists code, known_code code = true /\ co_status out = safeFailure code) /\
    co_processStarted out = false /\ co_instance out = None /\ co_hasSnapshot out = false
  else
    co_status out = failedSafeStatus /\ co_processStarted out = stop /\
    (stop = true -> is_Some (co_instance out)) /\ co_hasSnapshot out = snap.

Lemma wp_restoreAfterFailure ctx gen code prepared started instance snap hasSnap Q s :
  known_code code = true ->
  (forall out s' t r,
     runs (restore_plan false (started && bool_decide (is_Some instance)) hasSnap) t r ->
     events s' = events s ++ t ->
     core (ctl s') = core (set_monitor None None (ctl s)) ->
     rolled_back (started && bool_decide (is_Some instance)) hasSnap r out ->
     Q out s') ->
  wp (restoreAfterFailure ctx gen code prepared started instance snap hasSnap) Q s.
Proof.
  intros Hcode HQ. unfold restoreAfterFailure. apply wp_bind. wp_step.
  apply wp_bind, wp_restoreTransaction. intros out s2 t Ht He Hc _.
  assert (Hc' : core (ctl s2) = core (set_monitor None None (ctl s))).
  { rewrite Hc. apply core_set_monitor. by quiet_rewrite. }
  wp_go; (eapply HQ; [exact Ht| | |]); wp_end; try (rewrite He; wp_end); try exact Hc'.
  - split; [done|]. split; [by exists code|done].
  - split; [done|]. repeat split. simpl.
    intros [_ Hi]%andb_true_iff. by apply bool_decide_eq_true in Hi.
Qed.
End RestoreParts.

(** ** The connection transaction refines its plan *)
Section Connect.
Context `{Environment}.

Definition established (out : connectOutcome) : Prop :=
  StatusState (co_status out) = StateConnected /\ StatusErrorCode (co_status out) = "" /\
  co_processStarted out = true /\ is_Some (co_instance out) /\
  co_hasSnapshot out = true /\ co_restored out = false.

(** [connect_run c previous t out]: the executions of the transaction, where
    [previous] tells whether a core of an earlier connection is still owned
    ([Some true] when its instance is known). *)
Inductive connect_run (c : bool) : option bool -> list (Step * Result) -> connectOutcome -> Prop :=
| connect_refused previous code :
    known_code code = true -> connect_run c previous [] (preChecks code)
| connect_previous known back r out :
    runs (restore_plan false known false) back r ->
    rolled_back known false r out ->
    connect_run c (Some known) back out
| connect_established t out :
    runs (forward c) t true -> established out -> connect_run c None t out
| connect_rolled_back t back r out :
    t <> [] -> runs (forward c) t false ->
    runs (restore_plan false (core_running t) (captured t)) back r ->
    rolled_back (core_running t) (captured t) r out ->
    connect_run c None (t ++ back) out.

Definition previous_core (c : Controller) : option bool :=
  if processStarted c then Some (bool_decide (is_Some (processInstance c))) else None.

(** What the transaction leaves of the controller's transaction fields. *)
Definition connect_frame (out : connectOutcome) (c c' : Controller) : Prop :=
  exists sn h,
    core c' = core (set_snapshot sn h c) \/
    core c' = core (set_monitor None None (set_snapshot sn h c)) /\
    StatusState (co_status out) <> StateConnected.

Definition refines (ctx : Context) (s0 : St) (out : connectOutcome) (s : St) : Prop :=
  exists t, events s = events s0 ++ t /\
    connect_run (ctx_cancellable ctx) (previous_core (ctl s0)) t out /\
    connect_frame out (ctl s0) (ctl s).

Lemma refines_quiet ctx s0 out s s' :
  quiet s s' -> refines ctx s0 out s -> refines ctx s0 out s'.
Proof.
  intros [He Hc] (t & Ht & Hr & Hf). exists t. rewrite He. do 2 (split; [done|]).
  unfold connect_frame in *. by rewrite Hc.
Qed.

(** [k] steps of the plan are done. *)
Definition advanced (ctx : Context) (s0 s : St) (k : nat) : Prop :=
  processStarted (ctl s0) = false /\
  events s = events s0 ++ map (fun o => (o, Done)) (take k (forward (ctx_cancellable ctx))) /\
  exists sn h, core (ctl s) = core (set_snapshot sn h (ctl s0)).

Lemma rollback_refines ctx s0 s gen code prepared started instance snap hasSnap t :
  known_code code = true ->
  processStarted (ctl s0) = false ->
  events s = events s0 ++ t ->
  (exists sn h, core (ctl s) = core (set_snapshot sn h (ctl s0))) ->
  t <> [] -> runs (forward (ctx_cancellable ctx)) t false ->
  started && bool_decide (is_Some instance) = core_running t -> hasSnap = captured t ->
  wp (restoreAfterFailure ctx gen code prepared started instance snap hasSnap)
    (refines ctx s0) s.
Proof.
  intros Hcode Hp He (sn & h & Hc) Ht Hr Hrun ->.
  apply wp_restoreAfterFailure; [done|]. rewrite Hrun. intros out s' back r Hb He' Hc' Ho.
  exists (t ++ back). split; [by rewrite He', He, app_assoc|]. split.
  - unfold previous_core. rewrite Hp. by econstructor.
  - exists sn, h. right. split; [rewrite Hc'; by apply core_set_monitor|].
    destruct Ho as [_ Ho]. destruct r; [destruct Ho as [(? & _ & ->) _]|destruct Ho as [-> _]]; done.
Qed.

Lemma core_recaptured sn h sn' h' c c' :
  core c = core (set_snapshot sn h c') ->
  core (set_snapshot sn' h' c) = core (set_snapshot sn' h' c').
Proof. intros Hc. by rewrite (core_set_snapshot sn' h' _ _ Hc). Qed.

Lemma refused_refines ctx s0 s code :
  known_code code = true ->
  events s = events s0 ->
  (exists sn h, core (ctl s) = core (set_snapshot sn h (ctl s0))) ->
  refines ctx s0 (preChecks code) s.
Proof.
  intros Hcode He (sn & h & Hc). exists []. rewrite app_nil_r. split; [done|].
  split; [by constructor|]. exists sn, h. by left.
Qed.
End Connect.

Ltac events_tac He := wp_end; rewrite ?He; simpl; rewrite <- ?app_assoc; simpl; try reflexivity.
Ltac core_tac Hc :=
  wp_end; do 2 eexists; first [exact Hc | eapply core_recaptured; wp_end; exact Hc].
Ltac known_tac :=
  repeat match goal with H : _ = ErrorCanceled \/ _ |- _ => destruct H; subst end;
  repeat case_match; reflexivity.
Ltac rollback_tac Hp He Hc :=
  eapply rollback_refines;
    [known_tac | exact Hp | events_tac He | core_tac Hc | done | runs_tac | try reflexivity | try reflexivity].
Ltac advance_tac Hp He Hc HQ := apply HQ; split; [exact Hp|split; [events_tac He|core_tac Hc]].
Ltac refused_tac He Hc :=
  apply refused_refines; [reflexivity|events_tac He; by rewrite ?app_nil_r|core_tac Hc].

Section ConnectSteps.
Context `{Environment}.

Lemma step_capture_refines ctx gen startedAt s0 s QA :
  advanced ctx s0 s 0 ->
  (forall x s', advanced ctx s0 s' 2 -> QA x s') ->
  wpx (step_capture ctx gen startedAt) (refines ctx s0) QA s.
Proof.
  intros (Hp & He & sn & h & Hc) HQ. unfold step_capture. wp_go.
  all: first [rollback_tac Hp He Hc | refused_tac He Hc | advance_tac Hp He Hc HQ].
Qed.

Lemma step_protect_refines ctx gen startedAt prepared snap s0 s QA :
  advanced ctx s0 s 2 ->
  (forall x s', advanced ctx s0 s' 3 -> QA x s') ->
  wpx (step_protect ctx gen startedAt prepared snap) (refines ctx s0) QA s.
Proof.
  intros (Hp & He & sn & h & Hc) HQ. unfold step_protect. wp_go.
  all: first [rollback_tac Hp He Hc | advance_tac Hp He Hc HQ].
Qed.

Lemma step_core_refines ctx gen prepared snap s0 s QA :
  advanced ctx s0 s 3 ->
  (forall i s', advanced ctx s0 s' 5 -> QA i s') ->
  wpx (step_core ctx gen prepared snap) (refines ctx s0) QA s.
Proof.
  intros (Hp & He & sn & h & Hc) HQ. unfold step_core. wp_go.
  all: try match goal with
       | |- wp (restoreAfterFailure _ _ _ _ (negb (StartTerminationProven ?p)) ?o _ _) _ _ =>
         destruct o, (StartTerminationProven p) eqn:?
       end.
  all: first [rollback_tac Hp He Hc | advance_tac Hp He Hc HQ].
Qed.

Lemma step_tun_refines ctx gen startedAt prepared snap i s0 s QA :
  advanced ctx s0 s 5 ->
  (forall x s', advanced ctx s0 s' 6 -> QA x s') ->
  wpx (step_tun ctx gen startedAt prepared snap i) (refines ctx s0) QA s.
Proof.
  intros (Hp & He & sn & h & Hc) HQ. unfold step_tun. wp_go.
  all: first [rollback_tac Hp He Hc | advance_tac Hp He Hc HQ].
Qed.

Lemma step_routes_refines ctx gen startedAt prepared snap i s0 s QA :
  advanced ctx s0 s 6 ->
  (forall x s', advanced ctx s0 s' 7 -> QA x s') ->
  wpx (step_routes ctx gen startedAt prepared snap i) (refines ctx s0) QA s.
Proof.
  intros (Hp & He & sn & h & Hc) HQ. unfold step_routes. wp_go.
  all: first [rollback_tac Hp He Hc | advance_tac Hp He Hc HQ].
Qed.

Lemma step_connected_refines ctx gen startedAt prepared snap i s0 s :
  advanced ctx s0 s 7 ->
  wp (step_connected gen startedAt prepared snap i) (refines ctx s0) s.
Proof.
  intros (Hp & He & sn & h & Hc). unfold step_connected. wp_go.
  eexists. split; [events_tac He|]. split.
  - unfold previous_core. rewrite Hp. apply connect_established; [apply runs_all_done|].
    repeat split; simpl; eauto.
  - exists sn, h. left. by wp_end.
Qed.

(** A deferred clearing does not change what the body refines. *)
Lemma deferred_refines c ctx s0 s (m : X connectOutcome connectOutcome) :
  event_of c = None ->
  wpx m (refines ctx s0) (refines ctx s0) s ->
  wpx (deferred (Some c) m) (refines ctx s0) (refines ctx s0) s.
Proof.
  intros Hc Hm. apply wpx_deferred, (wpx_mono m _ _ _ _ s Hm);
    intros out s' Ho; by apply quiet_record; [|intros ? s'' Hq; apply (refines_quiet _ _ _ s')].
Qed.

Lemma with_config_refines ctx gen startedAt prepared snap credential then_ s0 s :
  advanced ctx s0 s 3 ->
  (forall s', advanced ctx s0 s' 3 -> wpx then_ (refines ctx s0) (refines ctx s0) s') ->
  wpx (with_config ctx gen startedAt prepared snap credential then_)
    (refines ctx s0) (refines ctx s0) s.
Proof.
  intros (Hp & He & sn & h & Hc) HQ. unfold with_config. wp_go.
  all: try (apply deferred_refines; [done|]; wp_go).
  all: first [rollback_tac Hp He Hc | advance_tac Hp He Hc HQ].
Qed.

Lemma with_credential_refines ctx gen then_ s0 s :
  advanced ctx s0 s 0 ->
  (forall cr s', advanced ctx s0 s' 0 -> wpx (then_ cr) (refines ctx s0) (refines ctx s0) s') ->
  wpx (with_credential ctx gen then_) (refines ctx s0) (refines ctx s0) s.
Proof.
  intros (Hp & He & sn & h & Hc) HQ. unfold with_credential. wp_go.
  all: try (apply deferred_refines; [done|]; wp_go).
  all: first [refused_tac He Hc | advance_tac Hp He Hc HQ].
Qed.

Lemma check_policy_refines ctx gen s0 s QA :
  advanced ctx s0 s 0 ->
  (forall x s', advanced ctx s0 s' 0 -> QA x s') ->
  wpx (check_policy gen) (refines ctx s0) QA s.
Proof.
  intros (Hp & He & sn & h & Hc) HQ. unfold check_policy. wp_go.
  all: first [refused_tac He Hc | advance_tac Hp He Hc HQ].
Qed.

Lemma check_binary_refines ctx gen s0 s QA :
  advanced ctx s0 s 0 ->
  (forall x s', advanced ctx s0 s' 0 -> QA x s') ->
  wpx (check_binary gen) (refines ctx s0) QA s.
Proof.
  intros (Hp & He & sn & h & Hc) HQ. unfold check_binary. wp_go.
  all: first [refused_tac He Hc | advance_tac Hp He Hc HQ].
Qed.

Lemma check_previous_core_refines ctx gen s QA s0 :
  quiet s0 s ->
  (forall x s', advanced ctx s0 s' 0 -> QA x s') ->
  wpx (check_previous_core ctx gen) (refines ctx s0) QA s.
Proof.
  intros Hs HQ. unfold check_previous_core.
  destruct (core_fields _ _ (proj2 Hs)) as (_ & _ & _ & _ & Hp & Hi & _).
  wp_go.
  - apply wp_restoreAfterFailure; [reflexivity|]. intros out s2 t r Ht He Hc Hr. exists t.
    split; [rewrite He; by wp_end|]. split.
    + unfold previous_core. rewrite E, <- Hi. by eapply connect_previous.
    + exists (snapshot (ctl s0)), (hasSnapshot (ctl s0)). right. split.
      * rewrite Hc. apply core_set_monitor. by wp_end.
      * destruct Hr as [_ Hr]. by destruct r; [destruct Hr as [(? & _ & ->) _]|destruct Hr as [-> _]].
  - apply HQ. split; [congruence|]. split; [by rewrite app_nil_r, (proj1 Hs)|].
    do 2 eexists. rewrite (proj2 Hs). apply core_set_snapshot_self.
Qed.

Lemma runConnect_wp ctx gen startedAt s :
  wp (runConnect ctx gen startedAt) (refines ctx s) s.
Proof.
  apply wp_collapse, wpx_bind. unfold check_canceled.
  apply wpx_bind, wpx_lift, quiet_contextError. intros err s1 Hs1.
  destruct err as [e|]; wp_go.
  { apply refused_refines; [reflexivity|by wp_end|]. do 2 eexists. wp_end. apply core_set_snapshot_self. }
  apply wpx_bind, check_previous_core_refines; [done|]. intros _ s2 H2.
  apply wpx_bind, (check_policy_refines ctx); [done|]. intros _ s3 H3.
  apply wpx_bind, (check_binary_refines ctx); [done|]. intros _ s4 H4.
  apply with_credential_refines; [done|]. intros cr s5 H5.
  apply wpx_bind, step_capture_refines; [done|]. intros [prepared snap] s6 H6.
  apply wpx_bind, step_protect_refines; [done|]. intros _ s7 H7.
  apply with_config_refines; [done|]. intros s8 H8.
  apply wpx_bind, step_core_refines; [done|]. intros i s9 H9.
  apply wpx_bind, step_tun_refines; [done|]. intros _ s10 H10.
  apply wpx_bind, step_routes_refines; [done|]. intros _ s11 H11.
  apply wpx_lift. by apply step_connected_refines.
Qed.
End ConnectSteps.

(** ** Disconnecting *)
Section Disconnect.
Context `{Environment}.

(** A disconnect has nothing to do when the controller owns nothing and an
    earlier restoration was proven complete. *)
Definition nothing_owned (c : Controller) : bool :=
  negb (hasSnapshot c) && negb (processStarted c) && reconciled c.

Definition disconnect_plan (ctx : Context) (c : Controller) : list Step :=
  if nothing_owned c then []
  else restore_plan (ctx_cancellable ctx)
         (processStarted c && bool_decide (is_Some (processInstance c))) (hasSnapshot c).

Definition disconnected (ctx : Context) (s0 : St) (out : disconnectOutcome) (s : St) : Prop :=
  exists t, events s = events s0 ++ t /\
    runs (disconnect_plan ctx (ctl s0)) t (do_restored out) /\
    (core (ctl s) = core (ctl s0) \/ core (ctl s) = core (set_monitor None None (ctl s0))) /\
    do_status out = (if do_restored out then preparedStatus (StatusMessage (do_status out))
                     else failedSafeStatus).

Lemma nothing_owned_quiet s s1 :
  quiet s s1 -> nothing_owned (ctl s1) = nothing_owned (ctl s).
Proof.
  intros Hq. destruct (core_fields _ _ (proj2 Hq)) as (_ & _ & _ & Hh & Hp & _ & _ & _ & Hr & _).
  unfold nothing_owned. congruence.
Qed.

Lemma disconnect_restores ctx gen s1 s (Q : disconnectOutcome -> St -> Prop) :
  quiet s s1 -> nothing_owned (ctl s) = false ->
  (forall out s2, disconnected ctx s out s2 -> Q out s2) ->
  wp (restoreTransaction ctx gen (processStarted (ctl s1)) (processInstance (ctl s1))
        (snapshot (ctl s1)) (hasSnapshot (ctl s1))) Q s1.
Proof.
  intros Hq Hn Hk. destruct (core_fields _ _ (proj2 Hq)) as (_ & _ & _ & Hh & Hp & Hi & _).
  apply wp_restoreTransaction. intros out s2 t Ht He Hc Hs. apply Hk.
  exists t. split; [by rewrite He, (proj1 Hq)|]. split.
  { unfold disconnect_plan. by rewrite Hn, <- Hp, <- Hi, <- Hh. }
  split; [right; rewrite Hc; apply core_set_monitor, Hq|].
  rewrite Hs. by destruct (do_restored out).
Qed.

Lemma disconnected_quiet ctx s0 out s s' :
  quiet s s' -> disconnected ctx s0 out s -> disconnected ctx s0 out s'.
Proof.
  intros [He Hc] (t & Ht & Hr & Hf & Hs). exists t. by rewrite He, Hc.
Qed.

Lemma runDisconnect_wp ctx gen recovery s :
  wp (runDisconnect ctx gen recovery) (disconnected ctx s) s.
Proof.
  assert (Hnone : forall out s1, quiet s s1 -> nothing_owned (ctl s1) = true ->
    do_status out = preparedStatus (StatusMessage (do_status out)) -> do_restored out = true ->
    disconnected ctx s out s1).
  { intros out s1 Hq Hn Hs Hr. exists []. rewrite app_nil_r. split; [apply Hq|].
    unfold disconnect_plan. rewrite (nothing_owned_quiet s s1 Hq) in Hn. rewrite Hn, Hr.
    split; [constructor|]. split; [left; apply Hq|exact Hs]. }
  unfold runDisconnect. destruct recovery; wp_go.
  all: try (apply Hnone; [first [done|by etrans]| |reflexivity|reflexivity];
            first [exact E|erewrite nothing_owned_quiet by done; exact E]).
  all: eapply disconnect_restores;
    [done|rewrite <- (nothing_owned_quiet s s'); done|intros out s2 Ho; wp_go].
  all: try done; eapply disconnected_quiet; eauto.
Qed.
End Disconnect.

(** ** Consequences *)
Section Consequences.
Lemma runs_ops p t b e : runs p t b -> e ∈ t -> e.1 ∈ p.
Proof.
  intros Hr He. apply runs_prefix in Hr. eapply elem_of_prefix; [|exact Hr].
  by apply list_elem_of_fmap_2.
Qed.

Lemma runs_head_done o p t1 e t2 b :
  runs (o :: p) (t1 ++ e :: t2) b -> t1 <> [] -> (o, Done) ∈ t1.
Proof.
  destruct t1 as [|e1 t1]; [done|]. intros Hr _. inversion Hr; simplify_eq.
  - apply list_elem_of_here.
  - by destruct t1.
Qed.

Lemma has_event_elem o r t : has_event o r t = true <-> exists c, ((o, c), r) ∈ t.
Proof.
  unfold has_event. rewrite existsb_exists. setoid_rewrite <- list_elem_of_In. split.
  - intros ([[o' c] r'] & Hin & H). apply bool_decide_eq_true in H. simpl in H. destruct H as [-> ->]. eauto.
  - intros [c Hc]. eexists. split; [exact Hc|]. by apply bool_decide_eq_true.
Qed.

Lemma core_running_elem t :
  core_running t = true <-> exists c r, ((OpStart, c), r) ∈ t /\ r <> Failed.
Proof.
  unfold core_running. rewrite orb_true_iff, !has_event_elem. split.
  - intros [[c Hc]|[c Hc]]; eauto.
  - intros (c & r & Hc & Hr). destruct r; eauto. done.
Qed.
End Consequences.

Section Safety.
Context `{Environment}.

Definition is_network_restore (o : Op) : Prop := o = OpRestore \/ o = OpReconcile.

Lemma forward_no_rollback c o b :
  (o, b) ∈ forward c -> ~ is_network_restore o /\ o <> OpStop /\ o <> OpResidue /\ (o = OpStart -> b = false).
Proof.
  unfold forward, is_network_restore. rewrite !elem_of_cons, elem_of_nil. naive_solver.
Qed.

Lemma restore_plan_rollback c stop snap o b :
  (o, b) ∈ restore_plan c stop snap ->
  b = c /\ (is_network_restore o \/ o = OpStop \/ o = OpResidue).
Proof.
  unfold restore_plan, is_network_restore.
  rewrite !elem_of_app. destruct stop, snap; case_bool_decide;
    rewrite ?elem_of_cons, ?elem_of_nil; naive_solver.
Qed.

Lemma restore_plan_stop_first c stop snap t1 o r t2 b :
  runs (restore_plan c stop snap) (t1 ++ (o, r) :: t2) b ->
  is_network_restore o.1 -> stop = true -> ((OpStop, c), Done) ∈ t1.
Proof.
  intros Hr Ho ->. eapply runs_head_done; [exact Hr|]. intros ->.
  inversion Hr; simplify_eq/=; by destruct Ho.
Qed.

(** A core that may be running is proven stopped before the network is
    restored. *)
Definition stopped_before_restored (t : list (Step * Result)) : Prop :=
  forall t1 o c r t2, t = t1 ++ ((o, c), r) :: t2 -> is_network_restore o ->
    core_running t1 = true -> exists c', ((OpStop, c'), Done) ∈ t1.

Lemma core_running_prefix t1 t2 t : t = t1 ++ t2 -> core_running t1 = true -> core_running t = true.
Proof.
  rewrite !core_running_elem. intros -> (c & r & Hc & Hr). exists c, r. rewrite elem_of_app. auto.
Qed.

Lemma restore_run_no_start c stop snap t b :
  runs (restore_plan c stop snap) t b -> core_running t = false.
Proof.
  intros Hr. apply not_true_is_false. rewrite core_running_elem. intros (c' & r & Hc & _).
  apply (runs_ops _ _ _ _ Hr), restore_plan_rollback in Hc as [_ [[]|[]]]; done.
Qed.

Lemma connect_run_stopped_before_restored c previous t out :
  connect_run c previous t out -> stopped_before_restored t.
Proof.
  intros Hrun t1 o c' r t2 Heq Ho Hcore. destruct Hrun as
    [?? |known back r' out Hb Hro|t out Hr He|t back r' out Hne Hr Hb Hro].
  - by destruct t1.
  - apply restore_run_no_start in Hb. by rewrite (core_running_prefix _ _ _ Heq Hcore) in Hb.
  - assert (Hin : ((o, c'), r) ∈ t) by (rewrite Heq; set_solver).
    apply (runs_ops _ _ _ _ Hr), forward_no_rollback in Hin. naive_solver.
  - apply app_eq_app in Heq as [l [[-> Hl]|[-> ->]]].
    + destruct l as [|e l]; simplify_eq/=.
      * rewrite app_nil_r in *. exists false. by eapply restore_plan_stop_first with (t1:=[]) in Hb; [set_solver| |].
      * assert (Hin : ((o, c'), r) ∈ t1 ++ ((o, c'), r) :: l) by set_solver.
        apply (runs_ops _ _ _ _ Hr), forward_no_rollback in Hin. naive_solver.
    + exists false. rewrite elem_of_app. right.
      eapply restore_plan_stop_first; [exact Hb|done|].
      apply core_running_elem in Hcore as (c2 & r2 & Hc2 & Hr2).
      apply core_running_elem. exists c2, r2. split; [|done].
      apply elem_of_app in Hc2 as [?|Hin]; [done|].
      assert (Hin' : ((OpStart, c2), r2) ∈ l ++ ((o, c'), r) :: t2) by (rewrite elem_of_app; auto).
      apply (runs_ops _ _ _ _ Hb), restore_plan_rollback in Hin' as [_ [[]|[]]]; done.
Qed.

(** The steps whose interruption would leave the machine half changed. *)
Definition shielded (t : list (Step * Result)) : Prop :=
  forall o c r, ((o, c), r) ∈ t -> o ∈ [OpStart; OpStop; OpRestore; OpReconcile; OpResidue] ->
    c = false.

Lemma connect_run_shielded c previous t out : connect_run c previous t out -> shielded t.
Proof.
  assert (Hback : forall stop snap back b, runs (restore_plan false stop snap) back b -> shielded back).
  { intros stop snap back b Hb o c' r Hin _.
    by apply (runs_ops _ _ _ _ Hb), restore_plan_rollback in Hin as [-> _]. }
  assert (Hfwd : forall t b, runs (forward c) t b -> shielded t).
  { intros t' b Hr o c' r Hin Ho.
    apply (runs_ops _ _ _ _ Hr), forward_no_rollback in Hin as (Hn & Hs & Hd & Hst).
    unfold is_network_restore in Hn. rewrite !elem_of_cons, elem_of_nil in Ho. naive_solver. }
  destruct 1 as [?? |????? |???? |???? Hne Hr Hb]; [|by eapply Hback|by eapply Hfwd|].
  - intros o c' r' Hin. by apply elem_of_nil in Hin.
  - intros o c' r' [Hin|Hin]%elem_of_app Ho;
      [eapply Hfwd|eapply Hback]; eauto.
Qed.

Lemma all_done_full c t : runs (forward c) t false -> t <> map (fun o => (o, Done)) (forward c).
Proof.
  intros Hr ->. assert (Hf : forall p b, runs p (map (fun o => (o, Done)) p) b -> b = true).
  { induction p; inversion 1; simplify_eq/=; auto. }
  by apply Hf in Hr.
Qed.

Lemma connect_run_connected c previous t out :
  connect_run c previous t out -> StatusState (co_status out) = StateConnected ->
  previous = None /\ t = map (fun o => (o, Done)) (forward c) /\ established out.
Proof.
  destruct 1 as [?? |? ? r ? ? [_ Hro]|?? Hr|? ? r ? ? ? ? [_ Hro]]; intros Hs.
  - done.
  - by destruct r; [destruct Hro as [(? & _ & Hro) _]|destruct Hro as [Hro _]]; rewrite Hro in Hs.
  - apply runs_true_iff in Hr. done.
  - by destruct r; [destruct Hro as [(? & _ & Hro) _]|destruct Hro as [Hro _]]; rewrite Hro in Hs.
Qed.
End Safety.

Section Properties.
Context `{Environment}.

(** C1. Whatever its dependencies answer, the connection transaction performs an
    execution of the abstract protocol: nothing, or the seven steps of the
    plan in order, or a beginning of the plan followed by the rollback of
    what that beginning did; its outcome is the protocol's. *)
Theorem runConnect_refines_plan ctx gen startedAt s :
  refines ctx s (runConnect ctx gen startedAt s).1 (runConnect ctx gen startedAt s).2.
Proof. apply runConnect_wp. Qed.

(** The operations the transaction performs. *)
Definition connect_events ctx gen startedAt s t : Prop :=
  events (runConnect ctx gen startedAt s).2 = events s ++ t.

(** A connection is reported only when no earlier core was owned and every
    step succeeded, in order, with nothing undone; the outcome then owns the
    running core and the snapshot. *)
Theorem connected_only_after_every_step ctx gen startedAt s :
  let out := (runConnect ctx gen startedAt s).1 in
  StatusState (co_status out) = StateConnected ->
  processStarted (ctl s) = false /\
  connect_events ctx gen startedAt s (map (fun o => (o, Done)) (forward (ctx_cancellable ctx))) /\
  established out.
Proof.
  intros out Hs. destruct (runConnect_wp ctx gen startedAt s) as (t & He & Hr & _).
  apply connect_run_connected in Hr as (Hp & -> & Ho); [|done].
  split; [|by split]. unfold previous_core in Hp. by destruct (processStarted (ctl s)).
Qed.


(** A caller that gives up cannot interrupt the start of the core nor any
    step of the rollback. *)
Theorem rollback_survives_cancellation ctx gen startedAt s :
  exists t, connect_events ctx gen startedAt s t /\ shielded t.
Proof.
  destruct (runConnect_wp ctx gen startedAt s) as (t & He & Hr & _).
  eauto using connect_run_shielded.
Qed.

(** C3. A disconnect performs the restoration plan for what the controller owns,
    nothing when it owns nothing and an earlier restoration was proven; it
    reports restored exactly when the whole plan succeeded, and the failed
    safe state otherwise. *)
Theorem runDisconnect_refines_plan ctx gen recovery s :
  disconnected ctx s (runDisconnect ctx gen recovery s).1 (runDisconnect ctx gen recovery s).2.
Proof. apply runDisconnect_wp. Qed.
End Properties.
