(* ===== verification/ControllerWrites.v ===== *)
(** * What the bodies of the controller write, and what they return

    Every field a body of [Controller.v] may write, as a relation
    ([restore_write], [connect_write]); the proof that the bodies only make such writes, in any
    environment; and the shape of the outcomes they return.  [Lifecycle.v]
    interleaves these writes with the other users of the controller. *)
From stdpp Require Import relations.
From S2P Require Import Prelude GoText TraceEvent AccessModel Controller ControllerSpec.

#[local] Open Scope string_scope.
#[local] Open Scope Z_scope.
#[local] Open Scope list_scope.

Section Writes.
Context `{Environment}.

(** One write under the controller's lock, of a restoration and of a
    connection. *)
Inductive restore_write : Controller -> Controller -> Prop :=
| write_diagnostic stage err c :
    string_in ApprovedStages stage = true ->
    restore_write c (set_diagnostic (diagnostic_of stage err).1 (diagnostic_of stage err).2 c)
| write_monitor c : restore_write c (set_monitor None None c).

Inductive connect_write : Controller -> Controller -> Prop :=
| write_restore c c' : restore_write c c' -> connect_write c c'
| write_phase phase step elapsed c :
    0 <= elapsed -> 1 <= step <= 5 ->
    connect_write c (set_status (mkStatus StateConnecting "" "正在建立安全连接" phase step
                                   connectionTotalSteps elapsed) c)
| write_snapshot sn c : connect_write c (set_snapshot sn true c).

(** A set of writes that has those of the restoration. *)
Class Includes (W : Controller -> Controller -> Prop) : Prop :=
  includes : forall c c', restore_write c c' -> W c c'.

#[export] Instance restore_includes : Includes restore_write.
Proof. by intros ?. Qed.
#[export] Instance connect_includes : Includes connect_write.
Proof. intros ??. apply write_restore. Qed.

Definition writesM (W : Controller -> Controller -> Prop) {A} (m : M A) : Prop :=
  forall s, rtc W (ctl s) (ctl (m s).2).

Context (W : Controller -> Controller -> Prop).

Lemma writes_bind {A B} (m : M A) (f : A -> M B) :
  writesM W m -> (forall x, writesM W (f x)) -> writesM W (m ≫= f).
Proof.
  intros Hm Hf s. specialize (Hm s). unfold mbind, M_bind. destruct (m s) as [x s1].
  by etrans; [exact Hm|apply Hf].
Qed.

Lemma writes_ret {A} (x : A) : writesM W (mret x).
Proof. intros s. apply rtc_refl. Qed.
Lemma writes_get : writesM W get.
Proof. intros s. apply rtc_refl. Qed.
Lemma writes_record c : writesM W (record c).
Proof. intros s. apply rtc_refl. Qed.
Lemma writes_ask {A} (op : World -> A * World) : writesM W (ask op).
Proof. intros s. unfold ask. destruct (op (world s)). apply rtc_refl. Qed.
Lemma writes_modify f : (forall c, W c (f c)) -> writesM W (modify f).
Proof. intros Hf s. apply rtc_once, Hf. Qed.
Lemma writes_xbind {R A B} (m : X R A) (f : A -> X R B) :
  writesM W m -> (forall x, writesM W (f x)) -> writesM W (xbind m f).
Proof. intros Hm Hf. apply writes_bind; [done|]. intros []; auto using writes_ret. Qed.
Lemma writes_lift {R A} (m : M A) : writesM W m -> writesM W (lift m : X R A).
Proof. intros. apply writes_bind; auto using writes_ret. Qed.
Lemma writes_return {R A} (m : M R) : writesM W m -> writesM W (return_ m : X R A).
Proof. intros. apply writes_bind; auto using writes_ret. Qed.
Lemma writes_xret {R A} (x : A) : writesM W (xret x : X R A).
Proof. apply writes_ret. Qed.
Lemma writes_collapse {R} (m : X R R) : writesM W m -> writesM W (collapse m).
Proof. intros. apply writes_bind; [done|]. intros []; apply writes_ret. Qed.
Lemma writes_call {A} (c : A -> Call) (op : World -> A * World) : writesM W (call c op).
Proof.
  apply writes_bind; [apply writes_ask|]. intros x.
  apply writes_bind; [apply writes_record|]. intros _. apply writes_ret.
Qed.
Lemma writes_deferred {R A} c (m : X R A) : writesM W m -> writesM W (deferred c m).
Proof.
  intros. apply writes_bind; [done|]. intros r. apply writes_bind; [|intros; apply writes_ret].
  destruct c; [apply writes_record|apply writes_ret].
Qed.
End Writes.

Create HintDb writes.
#[export] Hint Resolve writes_bind writes_ret writes_get writes_record writes_ask writes_xbind
  writes_lift writes_return writes_xret writes_collapse writes_call writes_deferred : writes.

(** Walks through a body; the writes that remain are the ones to justify. *)
Ltac writes_go :=
  repeat first
    [ progress cbn beta zeta
    | solve [auto 2 with writes nocore]
    | match goal with
      | |- forall _, _ => intros ?
      | |- writesM _ (_ ≫= _) => apply writes_bind
      | |- writesM _ (xbind _ _) => apply writes_xbind
      | |- writesM _ (lift _) => apply writes_lift
      | |- writesM _ (return_ _) => apply writes_return
      | |- writesM _ (deferred _ _) => apply writes_deferred
      | |- writesM _ (collapse _) => apply writes_collapse
      | |- writesM _ (if ?b then _ else _) => destruct b
      | |- writesM _ (match ?b with _ => _ end) => destruct b
      end ].

Section Bodies.
Context `{Environment} (W : Controller -> Controller -> Prop) `{!Includes W}.

Lemma writes_emitTrace ev : writesM W (emitTrace ev).
Proof. unfold emitTrace. writes_go. Qed.

Lemma writes_traceStart gen cm st msg : writesM W (traceStart gen cm st msg).
Proof. unfold traceStart. pose proof writes_emitTrace. writes_go. Qed.

Lemma writes_traceTerminal gen lv cm st ev t msg d r :
  writesM W (traceTerminal gen lv cm st ev t msg d r).
Proof. unfold traceTerminal. pose proof writes_emitTrace. writes_go. Qed.

Lemma writes_traceSuccess gen cm st t msg d r : writesM W (traceSuccess gen cm st t msg d r).
Proof. apply writes_traceTerminal. Qed.

Lemma writes_recordDiagnostic st err :
  string_in ApprovedStages st = true -> writesM W (recordDiagnostic st err).
Proof.
  intros Hst. unfold recordDiagnostic. destruct (diagnostic_of st err) as [a b] eqn:E.
  apply writes_bind; [|intros; apply writes_ret].
  intros s. apply rtc_once. simpl. apply includes.
  pose proof (write_diagnostic st err (ctl s) Hst) as Hw. by rewrite E in Hw.
Qed.

Lemma writes_traceFailure gen cm st t msg err r :
  string_in ApprovedStages st = true -> writesM W (traceFailure gen cm st t msg err r).
Proof.
  intros Hst. apply writes_bind; [by apply writes_recordDiagnostic|].
  intros [??]. apply writes_traceTerminal.
Qed.

Lemma writes_traceStateFailure gen cm st msg err r :
  string_in ApprovedStages st = true -> writesM W (traceStateFailure gen cm st msg err r).
Proof.
  intros Hst. apply writes_bind; [by apply writes_recordDiagnostic|].
  intros [??]. apply writes_emitTrace.
Qed.

Lemma writes_contextError ctx : writesM W (contextError ctx).
Proof. unfold contextError. writes_go. Qed.

Lemma writes_codeForContext ctx code : writesM W (codeForContext ctx code).
Proof. unfold codeForContext. pose proof writes_contextError. writes_go. Qed.

Lemma writes_enterPhase ph st t : 1 <= st <= 5 -> writesM connect_write (enterPhase ph st t).
Proof.
  intros Hst s. unfold enterPhase, phaseStatus, mbind, M_bind, ask. simpl.
  destruct (Now (world s)). apply rtc_once. simpl. by apply write_phase; [apply elapsed_ms_nonneg|].
Qed.

Lemma writes_clear_monitor : writesM W (modify (set_monitor None None)).
Proof. apply writes_modify. intros c. apply includes, write_monitor. Qed.

Lemma writes_set_snapshot sn : writesM connect_write (modify (set_snapshot sn true)).
Proof. apply writes_modify, write_snapshot. Qed.
End Bodies.

#[export] Hint Resolve writes_emitTrace writes_traceStart writes_traceTerminal writes_traceSuccess
  writes_contextError writes_codeForContext writes_clear_monitor writes_set_snapshot : writes.
#[export] Hint Extern 1 (writesM _ (traceFailure _ _ _ _ _ _ _)) =>
  (apply writes_traceFailure; first [apply _ | repeat case_match; reflexivity]) : writes.
#[export] Hint Extern 1 (writesM _ (traceStateFailure _ _ _ _ _ _)) =>
  (apply writes_traceStateFailure; first [apply _ | reflexivity]) : writes.
#[export] Hint Extern 0 (Includes _) => apply _ : writes.
#[export] Hint Extern 1 (writesM _ (enterPhase _ _ _)) =>
  (apply writes_enterPhase; lia) : writes.

Section Bodies2.
Context `{Environment} (W : Controller -> Controller -> Prop) `{!Includes W}.

Lemma writes_stopLifecycleMonitor : writesM W stopLifecycleMonitor.
Proof. unfold stopLifecycleMonitor. writes_go. Qed.

Lemma writes_restoreTransaction ctx gen started instance snap hasSnap :
  writesM W (restoreTransaction ctx gen started instance snap hasSnap).
Proof.
  pose proof writes_stopLifecycleMonitor.
  unfold restoreTransaction, restore_stop, stopInstance, restore_network, restore_residue.
  writes_go.
Qed.

Lemma writes_restoreAfterFailure ctx gen code prepared started instance snap hasSnap :
  writesM W (restoreAfterFailure ctx gen code prepared started instance snap hasSnap).
Proof. pose proof (writes_restoreTransaction). unfold restoreAfterFailure. writes_go. Qed.

End Bodies2.

Section BodyWrites.
Context `{Environment}.

(** The bodies write the controller only by these writes. *)
Lemma runConnect_writes ctx gen startedAt : writesM connect_write (runConnect ctx gen startedAt).
Proof.
  pose proof (writes_restoreAfterFailure connect_write).
  unfold runConnect, check_canceled, check_previous_core, check_policy, check_binary,
    with_credential, step_capture, step_protect, with_config, step_core, step_tun, step_routes,
    step_connected.
  writes_go.
Qed.

Lemma runDisconnect_writes ctx gen recovery : writesM restore_write (runDisconnect ctx gen recovery).
Proof. pose proof (writes_restoreTransaction restore_write). unfold runDisconnect. writes_go. Qed.
End BodyWrites.

(** ** The outcomes *)
Section Outcomes.
Context `{Environment}.

(** [out] is what a connection started on [c] may return. *)
Definition connect_returns (c : Controller) (out : connectOutcome) : Prop :=
  exists ctx gen startedAt s,
    processStarted (ctl s) = processStarted c /\
    processInstance (ctl s) = processInstance c /\
    (runConnect ctx gen startedAt s).1 = out.

Definition disconnect_returns (recovery : bool) (c : Controller) (out : disconnectOutcome) : Prop :=
  exists ctx gen s, core (ctl s) = core c /\ (runDisconnect ctx gen recovery s).1 = out.

(** What an automatic restoration captures when it takes the slot. *)
Record Captured := mkCaptured {
  cap_instance : option ProcessInstance;
  cap_started : bool;
  cap_snapshot : option Snapshot;
  cap_hasSnapshot : bool
}.

Definition restore_returns (k : Captured) (out : disconnectOutcome) : Prop :=
  exists ctx gen s,
    (restoreTransaction ctx gen (cap_started k) (cap_instance k) (cap_snapshot k)
       (cap_hasSnapshot k) s).1 = out.

(** Nothing is owned any more. *)
Definition released (out : connectOutcome) : Prop :=
  StatusState (co_status out) = StatePrepared /\ co_processStarted out = false /\
  co_instance out = None /\ co_hasSnapshot out = false.

Definition connect_shape (out : connectOutcome) : Prop :=
  established out \/ released out \/ co_status out = failedSafeStatus.

Definition disconnect_shape (out : disconnectOutcome) : Prop :=
  StatusState (do_status out) = (if do_restored out then StatePrepared else StateFailedSafe).

Lemma connect_returns_shape c out :
  processStarted c = false -> connect_returns c out -> connect_shape out.
Proof.
  intros Hp (ctx & gen & t0 & s & Hps & _ & <-).
  destruct (runConnect_wp ctx gen t0 s) as (t & _ & Hr & _).
  unfold previous_core in Hr. rewrite Hps, Hp in Hr. unfold connect_shape, released.
  revert Hr. generalize (runConnect ctx gen t0 s).1. intros out Hr.
  remember None as prev eqn:Hprev.
  destruct Hr as [| |? ? ? He|? ? r ? ? ? ? [_ Hro]]; [by right; left|done|by left|].
  destruct r; [|naive_solver].
  destruct Hro as ((code & _ & Hs) & ? & ? & ?). right; left. by rewrite Hs.
Qed.

Lemma disconnect_returns_shape recovery c out :
  disconnect_returns recovery c out -> disconnect_shape out.
Proof.
  intros (ctx & gen & s & _ & <-).
  destruct (runDisconnect_wp ctx gen recovery s) as (t & _ & _ & _ & Hs). unfold disconnect_shape.
  rewrite Hs. by destruct (do_restored _).
Qed.

Lemma restore_returns_shape k out : restore_returns k out -> disconnect_shape out.
Proof.
  intros (ctx & gen & s & <-).
  apply (wp_restoreTransaction ctx gen (cap_started k) (cap_instance k) (cap_snapshot k)
           (cap_hasSnapshot k) (fun out _ => disconnect_shape out)).
  intros out s' t _ _ _ Hs. unfold disconnect_shape. rewrite Hs. by destruct (do_restored out).
Qed.
End Outcomes.
