(* ===== verification/Lifecycle.v ===== *)
(** * The lifecycle of the controller under concurrent use

    The callers of [internal/agent/controller.go] as threads over one shared
    controller: [Connect], [Disconnect]/[Recover], [UpdateLineQuality], the
    runtime monitor and the automatic restoration.  Every critical section of
    the code is one atomic step; between them the bodies make the single writes
    of [ControllerWrites.v], and every interleaving is allowed.  Channels are
    numbers in allocation order, with the set of the closed ones. *)
From S2P Require Import Prelude GoText TraceEvent AccessModel Controller ControllerSpec ControllerWrites.

#[local] Open Scope string_scope.
#[local] Open Scope Z_scope.
#[local] Open Scope list_scope.

Section Sections.
Context `{Environment}.

(** ** The critical sections *)

(** What [Connect] does with the state it finds: return it, wait for the
    active transition, or take the slot. *)
Inductive Entry := EntryReturn (s : Status) | EntryWait (t : Transition) | EntryTake.

Definition connect_entry (c : Controller) : Entry :=
  match transition c with
  | None =>
    match StatusState (status c) with
    | StateConnected | StateFailedSafe => EntryReturn (status c)
    | _ => EntryTake
    end
  | Some t => EntryWait t
  end.

Definition connect_begin (ch : Chan) (c : Controller) : Controller :=
  let c := set_generation (uint64_incr (generation c)) c in
  let c := set_quality LineQualityUnknown 0 c in
  let c := set_transition (Some (mkTransition "connect" ch)) c in
  let c := set_status (mkStatus StateConnecting "" "正在建立安全连接" PhaseFingerprintSnapshot 1
                         connectionTotalSteps 0) c in
  set_diagnostic "" "" c.

(** The end of [Connect] at time [now]; [mon] is the channel of the monitor
    it creates when it is connected. *)
Definition connect_finish (gen : Z) (out : connectOutcome) (now : Z) (mon : Chan)
    (c : Controller) : Controller * bool :=
  let isConnected :=
    match StatusState (co_status out) with StateConnected => true | _ => false end in
  let same := generation c =? gen in
  let c :=
    if same then
      let c := set_status (co_status out) c in
      let c := if isConnected then set_quality (lineQuality c) now c else c in
      let c := set_process (co_processStarted out) (co_instance out) c in
      let c := set_snapshot (co_snapshot out) (co_hasSnapshot out) c in
      if co_restored out then set_reconciled true c else c
    else c in
  let connected := isConnected && same in
  let c := if connected then set_monitor (Some mon) (Some mon) c else c in
  (set_transition None c, connected).

Definition disconnect_entry (recovery : bool) (c : Controller) : Entry :=
  match transition c with
  | Some t => EntryWait t
  | None =>
    if recovery && reconciled c && negb (hasSnapshot c) && negb (processStarted c)
    then EntryReturn (status c)
    else EntryTake
  end.

Definition disconnect_begin (ch : Chan) (c : Controller) : Controller :=
  let c := set_generation (uint64_incr (generation c)) c in
  let c := set_quality LineQualityUnknown 0 c in
  let c := set_transition (Some (mkTransition "disconnect" ch)) c in
  set_status (status_of StateRestoring "" "正在恢复普通网络") c.

Definition disconnect_finish (gen : Z) (out : disconnectOutcome) (c : Controller) : Controller :=
  let c :=
    if generation c =? gen then
      let c := set_status (do_status out) c in
      if do_restored out then
        let c := set_snapshot None false c in
        let c := set_process false None c in
        let c := set_reconciled true c in
        set_diagnostic "" "" c
      else c
    else c in
  set_transition None c.

(** The guard and the first critical section of [automaticRestore]. *)
Definition restore_entry (gen : Z) (c : Controller) : bool :=
  match StatusState (status c), transition c with
  | StateConnected, None => generation c =? gen
  | _, _ => false
  end.

Definition restore_begin (ch : Chan) (c : Controller) : Controller * Captured :=
  let k := mkCaptured (processInstance c) (processStarted c) (snapshot c) (hasSnapshot c) in
  let c := set_transition (Some (mkTransition "restore" ch)) c in
  let c := set_status (status_of StateRestoring "" "正在恢复普通网络") c in
  let c := set_quality LineQualityUnknown 0 c in
  (set_monitor None None c, k).

Definition restore_finish (gen : Z) (code : string) (out : disconnectOutcome)
    (c : Controller) : Controller :=
  let c :=
    if generation c =? gen then
      let c := set_status (do_status out) c in
      if do_restored out then
        let c := set_status (safeFailure code) c in
        let c := set_snapshot None false c in
        let c := set_process false None c in
        set_reconciled true c
      else c
    else c in
  set_transition None c.

Definition UpdateLineQuality (gen : Z) (quality : string) (c : Controller) : Controller * bool :=
  if string_in [LineQualityUnknown; LineQualityGood; LineQualitySlow; LineQualityFailed] quality
  then
    match StatusState (status c) with
    | StateConnected =>
      if gen =? generation c then (set_quality quality (connectedAt c) c, true) else (c, false)
    | _ => (c, false)
    end
  else (c, false).

(** ** Threads *)
Inductive Thread :=
| TConnect
| TConnectJoin (ch : Chan)
| TConnectWait (ch : Chan)
| TConnectRun (gen : Z) (ch : Chan)
| TConnectDone (gen : Z) (ch : Chan) (out : connectOutcome)
| TStartMonitor (gen : Z) (mon : Chan) (s : Status)
| TDisconnect (recovery : bool)
| TDisconnectWait (recovery : bool) (ch : Chan)
| TDisconnectRun (gen : Z) (recovery : bool) (ch : Chan)
| TDisconnectStop (gen : Z) (recovery : bool) (ch : Chan) (mon : option Chan)
| TDisconnectRestore (gen : Z) (recovery : bool) (ch : Chan)
| TDisconnectDone (gen : Z) (ch : Chan) (out : disconnectOutcome)
| TMonitor (gen : Z) (mon : Chan)
| TRestore (gen : Z) (code : string) (mon : option Chan)
| TRestoreRun (gen : Z) (code : string) (ch : Chan) (k : Captured) (mon : option Chan)
| TRestoreDone (gen : Z) (code : string) (ch : Chan) (out : disconnectOutcome) (mon : option Chan)
| TClose (mon : Chan)
| TQuality (gen : Z) (quality : string)
| TReturned (s : Status)
| TFinished.

Record Shared := mkShared {
  ctrl : Controller;
  next : Chan;
  closed : gset nat;
  cancelled : gset nat
}.

Definition with_ctrl (c : Controller) (g : Shared) : Shared :=
  mkShared c (next g) (closed g) (cancelled g).
Definition alloc (c : Controller) (g : Shared) : Shared :=
  mkShared c (S (next g)) (closed g) (cancelled g).
Definition close_chan (ch : Chan) (g : Shared) : Shared :=
  mkShared (ctrl g) (next g) ({[ch]} ∪ closed g) (cancelled g).
Definition cancel_monitor (m : option Chan) (g : Shared) : Shared :=
  mkShared (ctrl g) (next g) (closed g)
    (match m with Some ch => {[ch]} ∪ cancelled g | None => cancelled g end).

(** [after_restore mon]: [automaticRestore] returned; the monitor that called
    it closes its channel. *)
Definition after_restore (mon : option Chan) : Thread :=
  match mon with Some ch => TClose ch | None => TFinished end.

(** One atomic step of a thread: the thread it becomes, the shared state it
    leaves and the threads it starts.  [monitor_fails] tells whether the
    network manager's [StartMonitor] may return an error. *)
Inductive tstep (monitor_fails : bool) : Thread -> Shared -> Thread -> Shared -> list Thread -> Prop :=
| connect_return_step g s :
    connect_entry (ctrl g) = EntryReturn s -> tstep _ TConnect g (TReturned s) g []
| connect_wait_step g t :
    connect_entry (ctrl g) = EntryWait t ->
    tstep _ TConnect g (if TransitionKind t =?s "connect" then TConnectJoin (TransitionDone t)
                        else TConnectWait (TransitionDone t)) g []
| connect_take_step g :
    connect_entry (ctrl g) = EntryTake ->
    tstep _ TConnect g (TConnectRun (uint64_incr (generation (ctrl g))) (next g))
      (alloc (connect_begin (next g) (ctrl g)) g) []
| connect_joined_step g ch :
    ch ∈ closed g -> tstep _ (TConnectJoin ch) g (TReturned (status (ctrl g))) g []
| connect_join_canceled_step g ch :
    tstep _ (TConnectJoin ch) g (TReturned (canceledStatus (status (ctrl g)))) g []
| connect_waited_step g ch : ch ∈ closed g -> tstep _ (TConnectWait ch) g TConnect g []
| connect_wait_canceled_step g ch :
    tstep _ (TConnectWait ch) g (TReturned (canceledStatus (status (ctrl g)))) g []
| connect_write_step g gen ch c :
    connect_write (ctrl g) c -> tstep _ (TConnectRun gen ch) g (TConnectRun gen ch) (with_ctrl c g) []
| connect_run_step g gen ch out :
    connect_returns (ctrl g) out -> tstep _ (TConnectRun gen ch) g (TConnectDone gen ch out) g []
| connect_connected_step g gen ch out now c :
    0 < now ->
    connect_finish gen out now (next g) (ctrl g) = (c, true) ->
    tstep _ (TConnectDone gen ch out) g (TStartMonitor gen (next g) (co_status out))
      (close_chan ch (alloc c g)) []
| connect_finished_step g gen ch out now c :
    connect_finish gen out now (next g) (ctrl g) = (c, false) ->
    tstep _ (TConnectDone gen ch out) g (TReturned (co_status out)) (close_chan ch (with_ctrl c g)) []
| monitor_started_step g gen mon s :
    tstep _ (TStartMonitor gen mon s) g (TReturned s) g [TMonitor gen mon]
| monitor_failed_step g gen mon err c s :
    monitor_fails = true ->
    c = set_diagnostic (diagnostic_of StageMonitorStart err).1
          (diagnostic_of StageMonitorStart err).2 (ctrl g) ->
    tstep _ (TStartMonitor gen mon s) g (TReturned s) (with_ctrl c g)
      [TRestore gen ErrorReadinessLost None]
| disconnect_return_step g recovery s :
    disconnect_entry recovery (ctrl g) = EntryReturn s ->
    tstep _ (TDisconnect recovery) g (TReturned s) g []
| disconnect_wait_step g recovery t :
    disconnect_entry recovery (ctrl g) = EntryWait t ->
    tstep _ (TDisconnect recovery) g (TDisconnectWait recovery (TransitionDone t)) g []
| disconnect_take_step g recovery :
    disconnect_entry recovery (ctrl g) = EntryTake ->
    tstep _ (TDisconnect recovery) g
      (TDisconnectRun (uint64_incr (generation (ctrl g))) recovery (next g))
      (alloc (disconnect_begin (next g) (ctrl g)) g) []
| disconnect_waited_step g recovery ch :
    ch ∈ closed g -> tstep _ (TDisconnectWait recovery ch) g (TDisconnect recovery) g []
| disconnect_wait_canceled_step g recovery ch :
    tstep _ (TDisconnectWait recovery ch) g (TReturned (canceledStatus (status (ctrl g)))) g []
| disconnect_nothing_step g gen recovery ch out :
    nothing_owned (ctrl g) = true ->
    disconnect_returns recovery (ctrl g) out ->
    tstep _ (TDisconnectRun gen recovery ch) g (TDisconnectDone gen ch out) g []
| disconnect_stop_step g gen recovery ch :
    nothing_owned (ctrl g) = false ->
    tstep _ (TDisconnectRun gen recovery ch) g
      (TDisconnectStop gen recovery ch (monitorDone (ctrl g)))
      (cancel_monitor (monitorCancel (ctrl g)) (with_ctrl (set_monitor None None (ctrl g)) g)) []
| disconnect_stopped_step g gen recovery ch mon :
    (forall m, mon = Some m -> m ∈ closed g) ->
    tstep _ (TDisconnectStop gen recovery ch mon) g (TDisconnectRestore gen recovery ch) g []
| disconnect_write_step g gen recovery ch c :
    restore_write (ctrl g) c ->
    tstep _ (TDisconnectRestore gen recovery ch) g (TDisconnectRestore gen recovery ch) (with_ctrl c g) []
| disconnect_run_step g gen recovery ch out :
    disconnect_returns recovery (ctrl g) out ->
    tstep _ (TDisconnectRestore gen recovery ch) g (TDisconnectDone gen ch out) g []
| disconnect_finished_step g gen ch out :
    tstep _ (TDisconnectDone gen ch out) g (TReturned (do_status out))
      (close_chan ch (with_ctrl (disconnect_finish gen out (ctrl g)) g)) []
| monitor_canceled_step g gen mon :
    mon ∈ cancelled g -> tstep _ (TMonitor gen mon) g (TClose mon) g []
| monitor_failure_step g gen mon reason :
    tstep _ (TMonitor gen mon) g (TRestore gen (monitorFailureCode (Some reason)) (Some mon)) g []
| close_step g mon : tstep _ (TClose mon) g TFinished (close_chan mon g) []
| restore_refused_step g gen code mon :
    restore_entry gen (ctrl g) = false ->
    tstep _ (TRestore gen code mon) g (after_restore mon) g []
| restore_take_step g gen code mon c k :
    restore_entry gen (ctrl g) = true ->
    restore_begin (next g) (ctrl g) = (c, k) ->
    tstep _ (TRestore gen code mon) g (TRestoreRun gen code (next g) k mon)
      (cancel_monitor (monitorCancel (ctrl g)) (alloc c g)) []
| restore_write_step g gen code ch k mon c :
    restore_write (ctrl g) c ->
    tstep _ (TRestoreRun gen code ch k mon) g (TRestoreRun gen code ch k mon) (with_ctrl c g) []
| restore_run_step g gen code ch k mon out :
    restore_returns k out ->
    tstep _ (TRestoreRun gen code ch k mon) g (TRestoreDone gen code ch out mon) g []
| restore_finished_step g gen code ch out mon :
    tstep _ (TRestoreDone gen code ch out mon) g (after_restore mon)
      (close_chan ch (with_ctrl (restore_finish gen code out (ctrl g)) g)) []
| quality_step g gen quality :
    tstep _ (TQuality gen quality) g TFinished
      (with_ctrl (UpdateLineQuality gen quality (ctrl g)).1 g) [].

(** A request of a client may arrive at any time. *)
Definition is_request (t : Thread) : Prop :=
  match t with TConnect | TDisconnect _ | TQuality _ _ => True | _ => False end.

Definition Config : Type := Shared * list Thread.

Inductive step (monitor_fails : bool) : Config -> Config -> Prop :=
| step_thread g l1 t l2 g' t' spawned :
    tstep monitor_fails t g t' g' spawned ->
    step _ (g, l1 ++ t :: l2) (g', l1 ++ t' :: l2 ++ spawned)
| step_request g ts t : is_request t -> step _ (g, ts) (g, ts ++ [t]).

Definition initial : Config := (mkShared NewController 0%nat ∅ ∅, []).

Definition reachable (monitor_fails : bool) (k : Config) : Prop := rtc (step monitor_fails) initial k.
End Sections.

(** ** The invariant *)
Section Invariant.
Context `{Environment}.

(** The transition a thread holds, with its generation. *)
Definition holds (t : Thread) : option (Transition * Z) :=
  match t with
  | TConnectRun gen ch | TConnectDone gen ch _ => Some (mkTransition "connect" ch, gen)
  | TDisconnectRun gen _ ch | TDisconnectStop gen _ ch _ | TDisconnectRestore gen _ ch
  | TDisconnectDone gen ch _ => Some (mkTransition "disconnect" ch, gen)
  | TRestoreRun gen _ ch _ _ | TRestoreDone gen _ ch _ _ => Some (mkTransition "restore" ch, gen)
  | _ => None
  end.

Definition holders (ts : list Thread) : list (Transition * Z) := omap holds ts.

Definition slot (c : Controller) : list (Transition * Z) :=
  match transition c with Some t => [(t, generation c)] | None => [] end.

Definition owns_nothing (c : Controller) : Prop :=
  processStarted c = false /\ processInstance c = None /\ hasSnapshot c = false.

Definition owns_connection (c : Controller) : Prop :=
  processStarted c = true /\ is_Some (processInstance c) /\ hasSnapshot c = true.

Definition no_monitor (c : Controller) : Prop := monitorCancel c = None /\ monitorDone c = None.

(** What the controller looks like when no transition is active. *)
Definition idle_ok (c : Controller) : Prop :=
  match StatusState (status c) with
  | StateConnected => owns_connection c
  | StateFailedSafe => no_monitor c
  | StateDisconnected | StatePrepared => owns_nothing c /\ no_monitor c
  | _ => False
  end.

(** What it looks like to the thread that holds the slot. *)
Definition thread_ok (c : Controller) (t : Thread) : Prop :=
  match t with
  | TConnectRun _ _ =>
    StatusState (status c) = StateConnecting /\ processStarted c = false /\ no_monitor c
  | TConnectDone _ _ out =>
    StatusState (status c) = StateConnecting /\ processStarted c = false /\ no_monitor c /\
    connect_shape out
  | TDisconnectRun _ _ _ =>
    StatusState (status c) = StateRestoring /\ (nothing_owned c = true -> no_monitor c)
  | TDisconnectStop _ _ _ _ | TDisconnectRestore _ _ _ | TRestoreRun _ _ _ _ _ =>
    StatusState (status c) = StateRestoring /\ no_monitor c
  | TDisconnectDone _ _ out | TRestoreDone _ _ _ out _ =>
    StatusState (status c) = StateRestoring /\ no_monitor c /\ disconnect_shape out
  | _ => True
  end.

(** Line quality and connection time belong to an established connection. *)
Definition quality_ok (c : Controller) : Prop :=
  StatusState (status c) = StateConnected \/
  lineQuality c = LineQualityUnknown /\ connectedAt c = 0.

Record inv (k : Config) : Prop := {
  inv_slot : holders k.2 = slot (ctrl k.1);
  inv_idle : transition (ctrl k.1) = None -> idle_ok (ctrl k.1);
  inv_threads : Forall (thread_ok (ctrl k.1)) k.2;
  inv_quality : quality_ok (ctrl k.1)
}.

Lemma nonholder_ok t c : holds t = None -> thread_ok c t.
Proof. by destruct t. Qed.

Lemma nonholders_ok ts c : holders ts = [] -> Forall (thread_ok c) ts.
Proof.
  unfold holders. induction ts as [|t ts IH]; simpl; [done|].
  destruct (holds t) eqn:E; simpl; [done|]. auto using nonholder_ok.
Qed.

Lemma holders_split l1 t l2 :
  holders (l1 ++ t :: l2) =
  holders l1 ++ (match holds t with Some h => [h] | None => [] end) ++ holders l2.
Proof. unfold holders. rewrite omap_app. simpl. by destruct (holds t). Qed.

Lemma holders_others l1 t l2 h c :
  holders (l1 ++ t :: l2) = slot c -> holds t = Some h ->
  holders l1 = [] /\ holders l2 = [] /\ transition c = Some h.1 /\ generation c = h.2.
Proof.
  rewrite holders_split. intros Hs Ht. rewrite Ht in Hs. unfold slot in Hs.
  destruct (transition c) as [t0|]; destruct (holders l1), (holders l2); simplify_eq/=; try done;
    by repeat match goal with H : _ ++ _ :: _ = _ |- _ => apply (f_equal length) in H; simpl in H;
      rewrite length_app in H; simpl in H; lia end.
Qed.

Lemma threads_split c l1 t l2 :
  Forall (thread_ok c) (l1 ++ t :: l2) <->
  Forall (thread_ok c) l1 /\ thread_ok c t /\ Forall (thread_ok c) l2.
Proof. by rewrite Forall_app, Forall_cons. Qed.

Lemma inv_hold g l1 t l2 h g' t' :
  inv (g, l1 ++ t :: l2) -> holds t = Some h -> holds t' = Some h ->
  transition (ctrl g') = transition (ctrl g) -> generation (ctrl g') = generation (ctrl g) ->
  thread_ok (ctrl g') t' -> quality_ok (ctrl g') ->
  inv (g', l1 ++ t' :: l2 ++ []).
Proof.
  intros [Hs _ _ _] Ht Ht' Htr Hg Hok Hq. simpl in *.
  destruct (holders_others _ _ _ _ _ Hs Ht) as (H1 & H2 & Htr' & _).
  rewrite app_nil_r. split; simpl; [|congruence| |done].
  - rewrite holders_split, Ht in Hs. rewrite holders_split, Ht', Hs. unfold slot. by rewrite Htr, Hg.
  - apply threads_split. auto using nonholders_ok.
Qed.

Lemma inv_release g l1 t l2 h g' t' sp :
  inv (g, l1 ++ t :: l2) -> holds t = Some h -> holds t' = None -> holders sp = [] ->
  transition (ctrl g') = None -> idle_ok (ctrl g') -> quality_ok (ctrl g') ->
  inv (g', l1 ++ t' :: l2 ++ sp).
Proof.
  intros [Hs _ _ _] Ht Ht' Hsp Htr Hi Hq. simpl in *.
  destruct (holders_others _ _ _ _ _ Hs Ht) as (H1 & H2 & _ & _).
  assert (Hn : holders (l1 ++ t' :: l2 ++ sp) = []).
  { rewrite holders_split, Ht', H1. simpl. unfold holders in *. by rewrite omap_app, H2, Hsp. }
  split; simpl; [|done| |done].
  - unfold slot. by rewrite Htr.
  - by apply nonholders_ok.
Qed.

Lemma inv_take g l1 t l2 tr gen g' t' :
  inv (g, l1 ++ t :: l2) -> holds t = None -> holds t' = Some (tr, gen) ->
  transition (ctrl g) = None -> transition (ctrl g') = Some tr -> generation (ctrl g') = gen ->
  thread_ok (ctrl g') t' -> quality_ok (ctrl g') ->
  inv (g', l1 ++ t' :: l2 ++ []).
Proof.
  intros [Hs _ _ _] Ht Ht' Hn Htr <- Hok Hq. simpl in *. rewrite app_nil_r.
  rewrite holders_split, Ht in Hs. unfold slot in Hs. rewrite Hn in Hs.
  apply app_nil in Hs as [H1 H2]. simpl in H2.
  split; simpl; [|congruence| |done].
  - rewrite holders_split, Ht', H1, H2. unfold slot. by rewrite Htr.
  - apply threads_split. auto using nonholders_ok.
Qed.

Lemma inv_other g l1 t l2 g' t' sp :
  inv (g, l1 ++ t :: l2) -> holds t = None -> holds t' = None -> holders sp = [] ->
  transition (ctrl g') = transition (ctrl g) -> generation (ctrl g') = generation (ctrl g) ->
  (forall u, thread_ok (ctrl g) u -> thread_ok (ctrl g') u) ->
  (transition (ctrl g) = None -> idle_ok (ctrl g) -> idle_ok (ctrl g')) -> quality_ok (ctrl g') ->
  inv (g', l1 ++ t' :: l2 ++ sp).
Proof.
  intros [Hs Hi Ho _] Ht Ht' Hsp Htr Hg Hok Hid Hq. simpl in *.
  rewrite holders_split, Ht in Hs. apply threads_split in Ho as (Ho1 & _ & Ho2).
  split; simpl; [|rewrite Htr; auto| |done].
  - rewrite holders_split, Ht'. unfold holders in *. rewrite omap_app, Hsp, app_nil_r, Hs.
    unfold slot. by rewrite Htr, Hg.
  - rewrite app_comm_cons, app_assoc. apply Forall_app. split; [|by apply nonholders_ok].
    apply threads_split. split; [|split]; [|by apply nonholder_ok|];
      eapply Forall_impl; eauto.
Qed.

(** A thread that reads and does not hold the slot. *)
Lemma inv_idle_step g l1 t l2 g' t' sp :
  inv (g, l1 ++ t :: l2) -> holds t = None -> holds t' = None -> holders sp = [] ->
  ctrl g' = ctrl g -> inv (g', l1 ++ t' :: l2 ++ sp).
Proof.
  intros Hinv ??? Hc. pose proof (inv_quality _ Hinv). eapply inv_other; eauto; by rewrite Hc.
Qed.


Lemma inv_thread g l1 t l2 : inv (g, l1 ++ t :: l2) -> thread_ok (ctrl g) t.
Proof. intros [_ _ Ho _]. simpl in Ho. by apply threads_split in Ho as (_ & ? & _). Qed.

Lemma inv_held g l1 t l2 h :
  inv (g, l1 ++ t :: l2) -> holds t = Some h ->
  transition (ctrl g) = Some h.1 /\ generation (ctrl g) = h.2.
Proof. intros [Hs _ _ _] Ht. by destruct (holders_others _ _ _ _ _ Hs Ht) as (_ & _ & ? & ?). Qed.

Lemma restore_write_frame c c' :
  restore_write c c' ->
  transition c' = transition c /\ generation c' = generation c /\ status c' = status c /\
  lineQuality c' = lineQuality c /\ connectedAt c' = connectedAt c /\
  processStarted c' = processStarted c /\ (no_monitor c -> no_monitor c').
Proof. destruct 1; simpl; by auto 10. Qed.

Lemma connect_write_frame c c' :
  connect_write c c' ->
  transition c' = transition c /\ generation c' = generation c /\
  (StatusState (status c) = StateConnecting -> StatusState (status c') = StateConnecting) /\
  lineQuality c' = lineQuality c /\ connectedAt c' = connectedAt c /\
  processStarted c' = processStarted c /\ (no_monitor c -> no_monitor c').
Proof.
  destruct 1 as [c c' Hw| |]; [|simpl; by auto 10..].
  destruct (restore_write_frame _ _ Hw) as (? & ? & Hs & ? & ? & ? & ?). rewrite Hs. auto 10.
Qed.

Lemma quality_unchanged c c' :
  quality_ok c -> StatusState (status c) <> StateConnected ->
  lineQuality c' = lineQuality c -> connectedAt c' = connectedAt c -> quality_ok c'.
Proof. intros [?|[??]] ? Hl Hc; [done|right]. by rewrite Hl, Hc. Qed.

Lemma connect_finish_idle gen out now mon c c' b :
  generation c = gen -> processStarted c = false -> no_monitor c -> connect_shape out ->
  quality_ok c -> StatusState (status c) <> StateConnected ->
  connect_finish gen out now mon c = (c', b) ->
  transition c' = None /\ idle_ok c' /\ quality_ok c'.
Proof.
  intros <- Hp [Hm1 Hm2] Ho Hq Hs. unfold connect_finish. rewrite Z.eqb_refl.
  destruct Hq as [?|[Hl Hc]]; [done|]. intros [= <- <-]. unfold idle_ok, quality_ok, owns_connection,
    owns_nothing, no_monitor.
  destruct Ho as [(Hst & _ & Hp' & Hi & Hh & Hr)|[(Hst & Hp' & Hi & Hh)|Hst]];
    rewrite Hst; simpl; [rewrite Hr|destruct (co_restored out)..];
    simpl; rewrite ?Hst; simpl; auto 10.
Qed.

Lemma disconnect_finish_idle gen out c :
  generation c = gen -> no_monitor c -> disconnect_shape out ->
  quality_ok c -> StatusState (status c) <> StateConnected ->
  transition (disconnect_finish gen out c) = None /\
  idle_ok (disconnect_finish gen out c) /\ quality_ok (disconnect_finish gen out c).
Proof.
  intros <- Hm Ho Hq Hs. unfold disconnect_finish. rewrite Z.eqb_refl.
  destruct Hq as [?|[Hl Hc]]; [done|]. unfold idle_ok, quality_ok, owns_nothing, no_monitor in *.
  unfold disconnect_shape in Ho. destruct (do_restored out); simpl; rewrite Ho; simpl; auto 10.
Qed.

Lemma restore_finish_idle gen code out c :
  generation c = gen -> no_monitor c -> disconnect_shape out ->
  quality_ok c -> StatusState (status c) <> StateConnected ->
  transition (restore_finish gen code out c) = None /\
  idle_ok (restore_finish gen code out c) /\ quality_ok (restore_finish gen code out c).
Proof.
  intros <- Hm Ho Hq Hs. unfold restore_finish. rewrite Z.eqb_refl.
  destruct Hq as [?|[Hl Hc]]; [done|]. unfold idle_ok, quality_ok, owns_nothing, no_monitor in *.
  unfold disconnect_shape in Ho. destruct (do_restored out); simpl; [|rewrite Ho; simpl]; auto 10.
Qed.

Lemma idle_nothing_owned c : idle_ok c -> nothing_owned c = true -> no_monitor c.
Proof.
  unfold idle_ok, nothing_owned, owns_connection. destruct (StatusState (status c)); try tauto.
  intros (-> & _ & ->). done.
Qed.

Lemma connect_take_ok c ch :
  connect_entry c = EntryTake -> (transition c = None -> idle_ok c) ->
  transition c = None /\ thread_ok (connect_begin ch c) (TConnectRun (uint64_incr (generation c)) ch).
Proof.
  unfold connect_entry. destruct (transition c); [done|]. intros Hc Hi. specialize (Hi eq_refl).
  unfold idle_ok, owns_nothing, no_monitor in *. split; [done|].
  destruct (StatusState (status c)); try done; destruct Hi as [[? _] [? ?]]; by repeat split.
Qed.

Lemma disconnect_take_ok recovery c ch :
  disconnect_entry recovery c = EntryTake -> (transition c = None -> idle_ok c) ->
  transition c = None /\
  thread_ok (disconnect_begin ch c) (TDisconnectRun (uint64_incr (generation c)) recovery ch).
Proof.
  unfold disconnect_entry. destruct (transition c); [done|]. intros Hc Hi. specialize (Hi eq_refl).
  split; [done|]. split; [done|]. exact (idle_nothing_owned c Hi).
Qed.

Lemma restore_take_ok gen c ch c' k :
  restore_entry gen c = true -> restore_begin ch c = (c', k) ->
  transition c = None /\ generation c = gen /\ transition c' = Some (mkTransition "restore" ch) /\
  generation c' = gen /\ StatusState (status c') = StateRestoring /\ no_monitor c' /\ quality_ok c'.
Proof.
  unfold restore_entry, restore_begin. destruct (StatusState (status c)), (transition c); try done.
  intros Hg%Z.eqb_eq [= <- <-]. unfold quality_ok, no_monitor. simpl. auto 10.
Qed.

Lemma UpdateLineQuality_frame gen q c :
  quality_ok c ->
  transition (UpdateLineQuality gen q c).1 = transition c /\
  generation (UpdateLineQuality gen q c).1 = generation c /\
  (forall u, thread_ok c u -> thread_ok (UpdateLineQuality gen q c).1 u) /\
  (idle_ok c -> idle_ok (UpdateLineQuality gen q c).1) /\
  quality_ok (UpdateLineQuality gen q c).1.
Proof.
  intros Hq. unfold UpdateLineQuality.
  destruct (string_in _ _); [|done]. destruct (StatusState (status c)) eqn:E; try done.
  destruct (gen =? generation c); [|done]. unfold idle_ok, quality_ok in *. simpl. rewrite E.
  split; [done|]. split; [done|]. split; [|by auto].
  intros []; simpl; rewrite ?E; naive_solver.
Qed.

Lemma connect_done_inv g l1 l2 gen ch out now c b t' g' :
  inv (g, l1 ++ TConnectDone gen ch out :: l2) ->
  connect_finish gen out now (next g) (ctrl g) = (c, b) ->
  ctrl g' = c -> holds t' = None -> inv (g', l1 ++ t' :: l2 ++ []).
Proof.
  intros Hinv Hf Hc Ht. destruct (inv_thread _ _ _ _ Hinv) as (Hs & Hp & Hm & Ho).
  destruct (inv_held _ _ _ _ _ Hinv eq_refl) as [_ Hg].
  destruct (connect_finish_idle _ _ _ _ _ _ _ Hg Hp Hm Ho (inv_quality _ Hinv) ltac:(by rewrite Hs) Hf)
    as (? & ? & ?).
  subst c. by eapply inv_release.
Qed.

Lemma restoring_inv g l1 t l2 h c t' :
  inv (g, l1 ++ t :: l2) -> holds t = Some h -> holds t' = Some h ->
  StatusState (status (ctrl g)) = StateRestoring -> restore_write (ctrl g) c ->
  (StatusState (status c) = StateRestoring -> no_monitor c -> thread_ok c t') ->
  no_monitor (ctrl g) -> inv (with_ctrl c g, l1 ++ t' :: l2 ++ []).
Proof.
  intros Hinv Ht Ht' Hs Hw Hok Hm.
  destruct (restore_write_frame _ _ Hw) as (? & ? & Hs' & Hl & Hc & _ & Hm').
  eapply inv_hold; [exact Hinv|done|done|done|done| |].
  - apply Hok; [by simpl; rewrite Hs'|auto].
  - apply (quality_unchanged (ctrl g)); [apply (inv_quality _ Hinv)|by rewrite Hs|done|done].
Qed.

(** Every step of every thread preserves the invariant. *)
Lemma tstep_inv fail g l1 t l2 g' t' sp :
  inv (g, l1 ++ t :: l2) -> tstep fail t g t' g' sp -> inv (g', l1 ++ t' :: l2 ++ sp).
Proof.
  intros Hinv Hstep. pose proof (inv_thread _ _ _ _ Hinv) as Hok.
  pose proof (fun h => inv_held _ _ _ _ h Hinv) as Hheld. pose proof (inv_quality _ Hinv) as Hq.
  pose proof (inv_idle _ Hinv) as Hidle. simpl in Hq, Hidle.
  destruct Hstep; simpl in Hok;
    try (solve [eapply inv_idle_step; [exact Hinv|done..]]);
    try (destruct (Hheld _ eq_refl) as [Htr Hgen]; simpl in Htr, Hgen).
  - eapply inv_idle_step; [exact Hinv|done|by destruct (_ =?s _)|done|done].
  - destruct (connect_take_ok _ (next g) H0 Hidle) as [Hn Ho].
    eapply inv_take; [exact Hinv|done|done|done|done|done|exact Ho|]. right. done.
  - destruct (connect_write_frame _ _ H0) as (Ht & Hg & Hs & Hl & Hc & Hp & Hm).
    destruct Hok as (? & ? & ?). eapply inv_hold; [exact Hinv|done|done|done|done| |].
    + simpl. rewrite Hp. auto.
    + apply (quality_unchanged (ctrl g)); auto. congruence.
  - eapply inv_hold; [exact Hinv|done|done|done|done| |done].
    destruct Hok as (? & ? & ?). simpl. eauto using connect_returns_shape.
  - eapply connect_done_inv; eauto.
  - eapply connect_done_inv; eauto.
  - eapply inv_other; [exact Hinv|done|done|done|by subst c..|by subst c].
  - destruct (disconnect_take_ok recovery _ (next g) H0 Hidle) as [Hn Ho].
    eapply inv_take; [exact Hinv|done|done|done|done|done|exact Ho|]. by right.
  - destruct Hok as [? Hm]. eapply inv_hold; [exact Hinv|done|done|done|done| |done].
    simpl. eauto using disconnect_returns_shape.
  - destruct Hok as [Hs _]. eapply inv_hold; [exact Hinv|done|done|done|done|done|].
    apply (quality_unchanged (ctrl g)); auto. congruence.
  - by eapply inv_hold.
  - destruct Hok. eapply restoring_inv; eauto. by split.
  - destruct Hok. eapply inv_hold; [exact Hinv|done|done|done|done| |done].
    simpl. eauto using disconnect_returns_shape.
  - destruct Hok as (Hs & Hm & Ho).
    destruct (disconnect_finish_idle _ _ _ Hgen Hm Ho Hq ltac:(by rewrite Hs)) as (? & ? & ?).
    by eapply inv_release.
  - eapply inv_idle_step; [exact Hinv|done|by destruct mon|done|done].
  - destruct (restore_take_ok _ _ _ _ _ H0 H1) as (? & ? & ? & ? & ? & ? & ?).
    eapply inv_take; [exact Hinv|done|done|done|done|done|by split|done].
  - destruct Hok. eapply restoring_inv; eauto. by split.
  - destruct Hok. eapply inv_hold; [exact Hinv|done|done|done|done| |done].
    simpl. eauto using restore_returns_shape.
  - destruct Hok as (Hs & Hm & Ho).
    destruct (restore_finish_idle gen code out _ Hgen Hm Ho Hq ltac:(by rewrite Hs)) as (? & ? & ?).
    eapply inv_release; [exact Hinv|done|by destruct mon|done|done|done|done].
  - destruct (UpdateLineQuality_frame gen quality _ Hq) as (? & ? & ? & ? & ?).
    by eapply inv_other.
Qed.
End Invariant.

(** ** Reachable configurations *)
Section Reachable.
Context `{Environment}.

Lemma initial_inv : inv initial.
Proof. by split; [|intros _; repeat split| |right]. Qed.

Lemma request_inv k t : inv k -> is_request t -> inv (k.1, k.2 ++ [t]).
Proof.
  intros [Hs Hi Ho Hq] Ht. assert (Hn : holds t = None) by by destruct t.
  split; simpl; [|done| |done].
  - unfold holders in *. rewrite omap_app, Hs. simpl. by rewrite Hn, app_nil_r.
  - apply Forall_app. split; [done|]. constructor; [by apply nonholder_ok|constructor].
Qed.

Lemma step_inv fail k k' : step fail k k' -> inv k -> inv k'.
Proof.
  destruct 1 as [g l1 t l2 g' t' sp Ht|g ts t Ht]; intros Hinv.
  - by eapply tstep_inv.
  - by apply (request_inv (g, ts)).
Qed.

Lemma steps_inv fail k k' : rtc (step fail) k k' -> inv k -> inv k'.
Proof. induction 1; eauto using step_inv. Qed.

Lemma reachable_inv fail k : reachable fail k -> inv k.
Proof. intros Hr. eapply steps_inv; [exact Hr|apply initial_inv]. Qed.

(** ** Who closes the channel of a monitor *)
Definition serves (m : Chan) (t : Thread) : Prop :=
  match t with
  | TStartMonitor _ mon _ | TMonitor _ mon | TClose mon => mon = m
  | TRestore _ _ mon | TRestoreRun _ _ _ _ mon | TRestoreDone _ _ _ _ mon => mon = Some m
  | _ => False
  end.

Definition served (m : Chan) (k : Config) : Prop := m ∈ closed k.1 \/ Exists (serves m) k.2.

Definition waits_for (m : Chan) (t : Thread) : Prop :=
  match t with TDisconnectStop _ _ _ mon => mon = Some m | _ => False end.

Record monitor_inv (k : Config) : Prop := {
  minv_cancel : monitorCancel (ctrl k.1) = monitorDone (ctrl k.1);
  minv_owned m : monitorDone (ctrl k.1) = Some m -> served m k;
  minv_waited m : Exists (waits_for m) k.2 -> m ∈ cancelled k.1 /\ served m k
}.

Lemma after_restore_serves m mon : serves m (after_restore mon) <-> mon = Some m.
Proof. destruct mon; simpl; naive_solver. Qed.

Lemma tstep_closed fail t g t' g' sp :
  tstep fail t g t' g' sp -> closed g ⊆ closed g' /\ cancelled g ⊆ cancelled g'.
Proof.
  destruct 1; simpl; try destruct (monitorCancel _); simpl; set_solver.
Qed.

(** Without a failing [StartMonitor], a served monitor stays served. *)
Lemma tstep_serves t g t' g' sp m :
  tstep false t g t' g' sp -> serves m t ->
  serves m t' \/ Exists (serves m) sp \/ m ∈ closed g'.
Proof.
  destruct 1; simpl; try done; rewrite ?after_restore_serves; rewrite ?Exists_cons; simpl; auto.
  intros ->. set_solver.
Qed.

Lemma step_served m k k' : step false k k' -> served m k -> served m k'.
Proof.
  unfold served. destruct 1 as [g l1 t l2 g' t' sp Ht|g ts t Ht]; simpl.
  - destruct (tstep_closed _ _ _ _ _ _ Ht) as [Hcl _]. intros [?|Hs]; [set_solver|].
    rewrite !Exists_app, !Exists_cons, !Exists_app in *. destruct Hs as [?|[Hs|?]]; [tauto| |tauto].
    apply (tstep_serves _ _ _ _ _ _ Ht) in Hs. tauto.
  - rewrite Exists_app. tauto.
Qed.

Definition monitor_frame (c c' : Controller) : Prop :=
  monitorCancel c' = monitorCancel c /\ monitorDone c' = monitorDone c.

Lemma connect_finish_monitor gen out now mon c c' b :
  connect_finish gen out now mon c = (c', b) ->
  if b then monitorCancel c' = Some mon /\ monitorDone c' = Some mon else monitor_frame c c'.
Proof.
  unfold connect_finish, monitor_frame. intros [= <- <-].
  destruct (generation c =? gen), (StatusState (co_status out)), (co_restored out); simpl; auto.
Qed.

Lemma restore_write_monitor c c' : restore_write c c' -> monitor_frame c c' \/ no_monitor c'.
Proof. destruct 1; [left|right]; done. Qed.

Lemma connect_write_monitor c c' : connect_write c c' -> monitor_frame c c' \/ no_monitor c'.
Proof. destruct 1; eauto using restore_write_monitor; by left. Qed.

Lemma finish_monitor gen code out c :
  monitor_frame c (disconnect_finish gen out c) /\ monitor_frame c (restore_finish gen code out c).
Proof.
  unfold disconnect_finish, restore_finish. by destruct (generation c =? gen), (do_restored out).
Qed.

Lemma UpdateLineQuality_monitor gen q c : monitor_frame c (UpdateLineQuality gen q c).1.
Proof.
  unfold UpdateLineQuality. destruct (string_in _ _); [|done].
  destruct (StatusState (status c)); try done. by destruct (_ =? _).
Qed.

Lemma tstep_monitor fail t g t' g' sp :
  tstep fail t g t' g' sp ->
  monitor_frame (ctrl g) (ctrl g') \/ no_monitor (ctrl g') \/
  monitorCancel (ctrl g') = Some (next g) /\ monitorDone (ctrl g') = Some (next g) /\
  serves (next g) t'.
Proof.
  destruct 1; subst; simpl; try (by left);
    try match goal with
    | Hw : connect_write _ _ |- _ => apply connect_write_monitor in Hw; tauto
    | Hw : restore_write _ _ |- _ => apply restore_write_monitor in Hw; tauto
    | Hf : connect_finish _ _ _ _ _ = _ |- _ => apply connect_finish_monitor in Hf; tauto
    | Hf : restore_begin _ _ = _ |- _ => injection Hf as <- <-; right; left; done
    end.
  - by right; left.
  - left. apply (finish_monitor gen ""%string).
  - left. apply finish_monitor.
  - left. apply UpdateLineQuality_monitor.
Qed.

Lemma tstep_waits fail t g t' g' sp m :
  tstep fail t g t' g' sp ->
  (waits_for m t' -> waits_for m t \/
     monitorDone (ctrl g) = Some m /\ (monitorCancel (ctrl g) = Some m -> m ∈ cancelled g')) /\
  ~ Exists (waits_for m) sp.
Proof.
  destruct 1; simpl; split; rewrite ?Exists_cons, ?Exists_nil; simpl; try tauto.
  - destruct (_ =?s _); simpl; tauto.
  - intros Hm. right. split; [done|]. intros ->. set_solver.
  - destruct mon; simpl; tauto.
  - destruct mon; simpl; tauto.
Qed.

Lemma step_monitor_inv k k' : step false k k' -> monitor_inv k -> monitor_inv k'.
Proof.
  intros Hstep [H1 H2 H3]. pose proof (fun m => step_served m _ _ Hstep) as Hserved.
  destruct Hstep as [g l1 t l2 g' t' sp Ht|g ts t Ht]; simpl in *.
  - destruct (tstep_closed _ _ _ _ _ _ Ht) as [_ Hcan]. split; simpl.
    + destruct (tstep_monitor _ _ _ _ _ _ Ht) as [[-> ->]|[[-> ->]|(-> & -> & _)]]; done.
    + intros m Hm. destruct (tstep_monitor _ _ _ _ _ _ Ht) as [[_ Hd]|[[_ Hd]|(_ & Hd & Hs)]];
        rewrite Hd in Hm; [auto|done|]. simplify_eq. right. simpl.
      rewrite Exists_app, Exists_cons. auto.
    + intros m Hw. rewrite !Exists_app, !Exists_cons, Exists_app in Hw.
      destruct (tstep_waits _ _ _ _ _ _ m Ht) as [Hw1 Hw2].
      assert (Hor : Exists (waits_for m) (l1 ++ t :: l2) \/
        monitorDone (ctrl g) = Some m /\ (monitorCancel (ctrl g) = Some m -> m ∈ cancelled g')).
      { rewrite Exists_app, Exists_cons. tauto. }
      destruct Hor as [Hw'|[Hd Hc]].
      * destruct (H3 _ Hw'). split; [set_solver|auto].
      * split; [apply Hc; congruence|auto].
  - split; simpl; [done|auto|]. intros m. rewrite Exists_app, Exists_cons, Exists_nil.
    intros [?|[Hw|[]]]; [|by destruct t]. split; [by apply H3|]. apply Hserved, H3. done.
Qed.

Lemma reachable_monitor_inv k : reachable false k -> monitor_inv k.
Proof.
  intros Hr. assert (Hi : monitor_inv initial) by (split; [done|done|intros ? Hw; by inversion Hw]).
  revert Hi. induction Hr; eauto using step_monitor_inv.
Qed.

(** One step of a thread in the middle of the others. *)
Lemma run_thread fail g l1 t l2 g' t' :
  tstep fail t g t' g' [] -> step fail (g, l1 ++ t :: l2) (g', l1 ++ t' :: l2).
Proof.
  intros Ht. pose proof (step_thread fail g l1 t l2 g' t' [] Ht) as Hs. by rewrite app_nil_r in Hs.
Qed.

(** [k] can reach a configuration where [m] is closed, with the same
    controller and every thread that does not serve [m]. *)
Definition can_close (m : Chan) (k : Config) : Prop :=
  exists k', rtc (step false) k k' /\ m ∈ closed k'.1 /\ ctrl k'.1 = ctrl k.1 /\
    forall u, u ∈ k.2 -> ~ serves m u -> u ∈ k'.2.

Lemma can_close_step m g ts t g' t' sp :
  t ∈ ts -> serves m t -> tstep false t g t' g' sp -> ctrl g' = ctrl g ->
  (forall ts', t' ∈ ts' -> Forall (.∈ ts') sp -> m ∈ closed g' \/ can_close m (g', ts')) ->
  can_close m (g, ts).
Proof.
  intros Hin Hs Ht Hc Hk. apply list_elem_of_split in Hin as (l1 & l2 & ->).
  pose proof (step_thread false g l1 t l2 g' t' sp Ht) as Hstep.
  assert (Hkeep : forall u, u ∈ l1 ++ t :: l2 -> ~ serves m u -> u ∈ l1 ++ t' :: l2 ++ sp).
  { intros u Hu Hn. rewrite elem_of_app, elem_of_cons, elem_of_app in *. naive_solver. }
  destruct (Hk (l1 ++ t' :: l2 ++ sp)) as [Hcl|(k' & Hr & Hcl & Hc' & Hkeep')].
  - set_solver.
  - rewrite Forall_forall. set_solver.
  - eexists. split; [by apply rtc_once|]. done.
  - exists k'. split; [by eapply rtc_l|]. split; [done|]. split; [by rewrite Hc'|]. auto.
Qed.

Lemma close_can_close m g ts : TClose m ∈ ts -> can_close m (g, ts).
Proof.
  intros Hin. eapply can_close_step; [exact Hin|done|apply close_step|done|].
  intros. left. simpl. set_solver.
Qed.

Lemma monitor_can_close m gen g ts : TMonitor gen m ∈ ts -> m ∈ cancelled g -> can_close m (g, ts).
Proof.
  intros Hin Hc. eapply can_close_step; [exact Hin|done|by apply monitor_canceled_step|done|].
  intros ts' Hin' _. right. by apply close_can_close.
Qed.

Lemma served_can_close m t g ts :
  t ∈ ts -> serves m t -> holds t = None -> m ∈ cancelled g -> transition (ctrl g) <> None ->
  can_close m (g, ts).
Proof.
  intros Hin Hs Hh Hc Htr. destruct t; simpl in Hs; try done; subst.
  - eapply can_close_step; [exact Hin|done|apply monitor_started_step|done|].
    intros ts' _ Hsp. right. eapply monitor_can_close; [|done]. by inversion Hsp.
  - by eapply monitor_can_close.
  - eapply can_close_step; [exact Hin|done|apply restore_refused_step|done|].
    + unfold restore_entry. destruct (StatusState _); try done. by destruct (transition _).
    + intros ts' Hin' _. right. by apply close_can_close.
  - by apply close_can_close.
Qed.

Lemma waiting_can_close m k :
  inv k -> monitor_inv k -> Exists (waits_for m) k.2 ->
  can_close m k.
Proof.
  destruct k as [g ts]. simpl. intros Hinv Hm Hw. destruct (minv_waited _ Hm m Hw) as [Hc [Hcl|Hs]].
  - exists (g, ts). split; [apply rtc_refl|]. done.
  - apply Exists_exists in Hs as (t & Hin & Ht), Hw as (w & Hinw & Hw).
    apply list_elem_of_split in Hinw as (l1 & l2 & ->).
    destruct w as [| | | | | | | | |gen0 r0 ch0 mon0| | | | | | | | | |]; try done.
    destruct (holders_others _ _ _ _ _ (inv_slot _ Hinv) eq_refl) as (H1 & H2 & Htr & _).
    simpl in Htr.
    eapply served_can_close; [exact Hin|done| |done|by rewrite Htr].
    assert (Hno : forall l, holders l = [] -> t ∈ l -> holds t = None).
    { intros l Hl Htl. apply list_elem_of_split in Htl as (x & y & ->).
      rewrite holders_split in Hl. destruct (holds t); [|done].
      destruct (holders x); discriminate. }
    apply elem_of_app in Hin as [Hin|[->|Hin]%elem_of_cons]; eauto. done.
Qed.
End Reachable.

(** ** A monitor nobody closes *)
Section Blocked.
Context `{Environment}.

(** A disconnect waits for the channel [m], which is open, and no thread will
    ever close it. *)
Definition blocked (m : Chan) (k : Config) : Prop :=
  Exists (waits_for m) k.2 /\ (m ∉ closed k.1) /\ (~ Exists (serves m) k.2) /\
  (m < next k.1)%nat.

Lemma tstep_serves_back fail t g t' g' sp m :
  tstep fail t g t' g' sp -> (m < next g)%nat ->
  serves m t' \/ Exists (serves m) sp -> serves m t.
Proof.
  destruct 1; simpl; intros Hm; rewrite ?Exists_cons, ?Exists_nil; simpl;
    rewrite ?after_restore_serves; try tauto.
  - destruct (_ =?s _); simpl; tauto.
  - intros [Hx|[]]. subst m. by apply Nat.lt_irrefl in Hm.
  - naive_solver.
  - naive_solver.
Qed.

Lemma tstep_closes fail t g t' g' sp m :
  tstep fail t g t' g' sp -> m ∈ closed g' -> m ∈ closed g \/ t = TClose m \/ is_Some (holds t).
Proof.
  destruct 1; simpl; try destruct (monitorCancel _); simpl; rewrite ?elem_of_union, ?elem_of_singleton;
    intros Hm; try tauto; try (right; right; by eexists). naive_solver.
Qed.

Lemma tstep_next fail t g t' g' sp : tstep fail t g t' g' sp -> (next g <= next g')%nat.
Proof. destruct 1; simpl; try destruct (monitorCancel _); simpl; lia. Qed.

Lemma waiter_holds m t : waits_for m t -> is_Some (holds t).
Proof. destruct t; simpl; try done; by eexists. Qed.

Lemma waiter_stuck fail m t g t' g' sp :
  waits_for m t -> m ∉ closed g -> ~ (tstep fail t g t' g' sp).
Proof. intros Hw Hm Ht. destruct Ht; simpl in Hw; try done. by apply Hm, H0. Qed.

Lemma inv_one_holder g l1 t l2 u :
  inv (g, l1 ++ t :: l2) -> is_Some (holds t) -> u ∈ l1 ++ l2 -> holds u = None.
Proof.
  intros Hinv [h Ht] Hu. destruct (holders_others _ _ _ _ _ (inv_slot _ Hinv) Ht) as (H1 & H2 & _).
  assert (Hn : holders (l1 ++ l2) = []) by (unfold holders in *; by rewrite omap_app, H1, H2).
  apply list_elem_of_split in Hu as (x & y & Hxy). rewrite Hxy in Hn.
  rewrite holders_split in Hn. destruct (holds u), (holders x); simplify_eq/=; done.
Qed.

Lemma step_blocked fail m k k' : step fail k k' -> inv k -> blocked m k -> blocked m k'.
Proof.
  intros Hstep Hinv (Hw & Hc & Hs & Hn).
  destruct Hstep as [g l1 t l2 g' t' sp Ht|g ts t Ht]; simpl in *.
  - assert (Hnw : ~ waits_for m t) by (intros Hwt; by eapply waiter_stuck).
    rewrite Exists_app, Exists_cons in Hw, Hs.
    assert (Hother : exists w, w ∈ l1 ++ l2 /\ waits_for m w).
    { setoid_rewrite elem_of_app. destruct Hw as [Hw|[Hw|Hw]]; [|done|];
        apply Exists_exists in Hw as (w & ? & ?); eauto. }
    destruct Hother as (w & Hin & Hww).
    assert (Hht : holds t = None).
    { destruct (holds t) eqn:E; [|done]. exfalso. destruct (waiter_holds _ _ Hww) as [h Hh].
      rewrite (inv_one_holder _ _ _ _ w Hinv (mk_is_Some _ _ E) Hin) in Hh. done. }
    repeat split; simpl.
    + apply elem_of_app in Hin. rewrite !Exists_app, Exists_cons, Exists_app, !Exists_exists.
      destruct Hin; [left|right; right; left]; eauto.
    + intros Hcl. apply (tstep_closes _ _ _ _ _ _ _ Ht) in Hcl as [?|[-> |[h Hh]]]; [done| |congruence].
      apply Hs. simpl. tauto.
    + rewrite !Exists_app, Exists_cons, Exists_app.
      pose proof (tstep_serves_back _ _ _ _ _ _ _ Ht Hn). tauto.
    + pose proof (tstep_next _ _ _ _ _ _ Ht). lia.
  - repeat split; simpl; [|done| |done].
    + rewrite Exists_app. auto.
    + rewrite Exists_app, Exists_cons, Exists_nil. intros [?|[?|[]]]; [done|by destruct t].
Qed.

Lemma blocked_forever fail m k k' :
  rtc (step fail) k k' -> inv k -> blocked m k -> blocked m k' /\ inv k'.
Proof. induction 1; eauto using step_blocked, step_inv. Qed.

Lemma blocked_restoring m k :
  inv k -> blocked m k ->
  StatusState (status (ctrl k.1)) = StateRestoring /\ is_Some (transition (ctrl k.1)).
Proof.
  destruct k as [g ts]. intros Hinv ((w & Hin & Hw)%Exists_exists & _). simpl in *.
  apply list_elem_of_split in Hin as (l1 & l2 & ->).
  destruct (waiter_holds _ _ Hw) as [h Hh].
  destruct (inv_held _ _ _ _ _ Hinv Hh) as [Htr _]. split; [|by rewrite Htr].
  pose proof (inv_thread _ _ _ _ Hinv) as Hok. destruct w; try done. apply Hok.
Qed.

Lemma reach_step fail g l1 t l2 g' t' sp :
  reachable fail (g, l1 ++ t :: l2) -> tstep fail t g t' g' sp ->
  reachable fail (g', l1 ++ t' :: l2 ++ sp).
Proof. intros Hr Ht. eapply rtc_r; [exact Hr|]. by apply step_thread. Qed.

Lemma reach_request fail g ts t :
  reachable fail (g, ts) -> is_request t -> reachable fail (g, ts ++ [t]).
Proof. intros Hr Ht. eapply rtc_r; [exact Hr|]. by apply step_request. Qed.

(** The run that gets there: a connection is established, a disconnect takes
    the slot before the runtime monitor is started, and starting it fails. *)
Lemma blocked_reachable out :
  connect_returns (connect_begin 0%nat NewController) out -> established out ->
  exists k m, reachable true k /\ blocked m k.
Proof.
  intros Hret Hest. destruct Hest as (Hst & _ & Hp & _ & _ & Hr).
  pose (c1 := connect_begin 0%nat NewController).
  destruct (connect_finish 1 out 1 1%nat c1) as [c2 b] eqn:Hf.
  assert (Hc2 : b = true /\ transition c2 = None /\ processStarted c2 = true /\
    monitorDone c2 = Some 1%nat).
  { revert Hf. unfold connect_finish. rewrite Hst, Hr. intros [= <- <-]. by simpl. }
  destruct Hc2 as (-> & Htr & Hps & Hmon).
  assert (R0 : reachable true initial) by apply rtc_refl.
  apply (reach_request _ _ _ TConnect) in R0; [|done].
  eapply (reach_step _ _ []) in R0; [|by apply connect_take_step].
  eapply (reach_step _ _ []) in R0; [|by apply connect_run_step].
  eapply (reach_step _ _ []) in R0; [|by apply (connect_connected_step _ _ _ _ _ 1 c2)].
  apply (reach_request _ _ _ (TDisconnect false)) in R0; [|done].
  eapply (reach_step _ _ [_]) in R0; [|apply disconnect_take_step; simpl; unfold disconnect_entry; by rewrite Htr].
  eapply (reach_step _ _ [_]) in R0; [|apply disconnect_stop_step; simpl; unfold nothing_owned; simpl;
    rewrite Hps; by rewrite andb_false_r].
  change (monitorDone (ctrl _)) with (monitorDone c2) in R0. rewrite Hmon in R0.
  eapply (reach_step _ _ []) in R0; [|by apply (monitor_failed_step _ _ _ _ None)].
  eapply (reach_step _ _ [_; _]) in R0; [|by apply restore_refused_step].
  eexists _, 1%nat. split; [exact R0|]. cbn [app]. split; [|split; [|split]]; cbn [fst snd].
  - rewrite !Exists_cons. by right; left.
  - clear. cbn [closed close_chan with_ctrl alloc cancel_monitor]. set_solver.
  - rewrite !Exists_cons, Exists_nil. cbn [serves after_restore]. tauto.
  - cbn [next close_chan with_ctrl alloc cancel_monitor]. lia.
Qed.
End Blocked.

(** ** Properties *)
Section Properties.
Context `{Environment}.

(** C21. At most one transition is in progress at any time, in any interleaving
    of the callers, the monitors and the automatic restorations; it is the
    one the controller records, and the generation its thread started under
    is still the current one, so the generation guards that protect the
    publication of its result always hold. *)
Theorem one_transition_at_a_time fail k :
  reachable fail k ->
  holders k.2 = match transition (ctrl k.1) with
                | Some t => [(t, generation (ctrl k.1))]
                | None => []
                end.
Proof. intros Hr. apply (inv_slot _ (reachable_inv _ _ Hr)). Qed.

(** C22. Between transitions the controller is disconnected, prepared, connected
    or failed safe; a disconnected or prepared controller owns no core and no
    snapshot and runs no monitor, and a connected one owns both a core and
    the snapshot to restore. *)
Theorem idle_controller_owns_what_its_state_says fail k :
  reachable fail k -> transition (ctrl k.1) = None -> idle_ok (ctrl k.1).
Proof. intros Hr. apply (inv_idle _ (reachable_inv _ _ Hr)). Qed.

(** A connection is never started while an earlier core or monitor is owned:
    the branch of [runConnect] that finds a previous core is defensive. *)
Theorem connect_starts_clean fail k gen ch :
  reachable fail k -> TConnectRun gen ch ∈ k.2 ->
  processStarted (ctrl k.1) = false /\ monitorDone (ctrl k.1) = None.
Proof.
  intros Hr Hin. pose proof (inv_threads _ (reachable_inv _ _ Hr)) as Hok.
  rewrite Forall_forall in Hok. by destruct (Hok _ Hin) as (_ & ? & _ & ?).
Qed.

(** A line quality or a connection time is published only while connected. *)
Theorem quality_only_while_connected fail k :
  reachable fail k -> StatusState (status (ctrl k.1)) <> StateConnected ->
  lineQuality (ctrl k.1) = LineQualityUnknown /\ connectedAt (ctrl k.1) = 0.
Proof. intros Hr Hs. by destruct (inv_quality _ (reachable_inv _ _ Hr)). Qed.

(** A probe result is accepted exactly for the current generation of an
    established connection and a known quality, and changes nothing but the
    quality. *)
Theorem UpdateLineQuality_spec gen q c :
  (UpdateLineQuality gen q c).2 =
    string_in [LineQualityUnknown; LineQualityGood; LineQualitySlow; LineQualityFailed] q &&
    bool_decide (StatusState (status c) = StateConnected) && (gen =? generation c) /\
  (UpdateLineQuality gen q c).1 =
    (if (UpdateLineQuality gen q c).2 then set_quality q (connectedAt c) c else c).
Proof.
  unfold UpdateLineQuality. destruct (string_in _ _); simpl; [|done].
  destruct (StatusState (status c)); simpl; try done. by destruct (gen =? generation c).
Qed.

(** When the runtime monitor can always be started, a disconnect that waits
    for it can always go on: the thread that closes its channel exists and
    is not blocked. *)
Theorem disconnect_can_always_proceed k gen recovery ch mon :
  reachable false k -> TDisconnectStop gen recovery ch mon ∈ k.2 ->
  exists k', rtc (step false) k k' /\ TDisconnectRestore gen recovery ch ∈ k'.2.
Proof.
  intros Hr Hin.
  assert (Hgo : forall g ts, TDisconnectStop gen recovery ch mon ∈ ts ->
    (forall m, mon = Some m -> m ∈ closed g) ->
    exists ts', step false (g, ts) (g, ts') /\ TDisconnectRestore gen recovery ch ∈ ts').
  { intros g ts Hts Hm. apply list_elem_of_split in Hts as (l1 & l2 & ->).
    eexists. split; [by apply run_thread, disconnect_stopped_step|].
    rewrite elem_of_app, elem_of_cons. auto. }
  destruct mon as [m|].
  - destruct (waiting_can_close m k) as ([g ts] & Hsteps & Hcl & _ & Hkeep);
      [by eapply reachable_inv|by apply reachable_monitor_inv|
       apply Exists_exists; by eexists|].
    destruct (Hgo g ts) as (ts' & Hs & Hin'); [by apply Hkeep; [|simpl; tauto]|naive_solver|].
    exists (g, ts'). split; [|done]. by eapply rtc_r.
  - destruct k as [g ts]. destruct (Hgo g ts) as (ts' & Hs & Hin'); [done|done|].
    exists (g, ts'). split; [by apply rtc_once|done].
Qed.

End Properties.
