(* ===== verification/ControllerDemo.v ===== *)
(** * The controller's theorems at a concrete machine

    A small environment in which every dependency answers, used to show that
    the hypotheses of the theorems of [ControllerSpec.v] and [Lifecycle.v] can
    hold: the model is executed on it. *)
From S2P Require Import Prelude GoText TraceEvent AccessModel Controller ControllerSpec ControllerWrites Lifecycle.

#[local] Open Scope string_scope.
#[local] Open Scope Z_scope.
#[local] Open Scope list_scope.

Definition demo_policy : Policy :=
  mkPolicy 2 "exclude_corp_cidrs" [mkNode "n1" "socks5" "192.0.2.10" 1080 1]
    ["10.0.0.0/8"] [] [] true true (mkCredentialRef "" "").

(** A machine whose world is the number of calls still answered with success;
    when it reaches zero the next call of the network fails. *)
Definition demo_answer (w : nat) : option GoError * nat :=
  match w with
  | O => (Some (errors_New "network failure"), O)
  | S w' => (None, w')
  end.

#[export] Instance Demo : Environment := {|
  World := nat;
  Snapshot := unit;
  ProcessInstance := nat;
  policy := demo_policy;
  ExecutablePath := "core.exe";
  ConfigPath := "config.json";
  ValidatePolicy := fun _ w => (None, w);
  VerifyExecutable := Some (fun _ w => (None, w));
  LoadCredential := None;
  RenderConfig := Some (fun _ _ w => (([123; 125], None), w));
  WriteConfigAtomic := Some (fun _ _ w => (None, w));
  Now := fun w => (Second, w);
  Trace := None;
  contextDone := fun w => (None, w);
  HasNetwork := true;
  Prepare := fun _ w => let '(e, w) := demo_answer w in ((mkPrepared 1 "fp" 1 4, e), w);
  Capture := fun _ _ w => let '(e, w) := demo_answer w in ((Some tt, e), w);
  EnableProtection := fun _ _ w => demo_answer w;
  WaitTUNReady := fun _ w => demo_answer w;
  ActivateTUNRoutes := fun _ w => demo_answer w;
  Restore := fun _ _ w => (None, w);
  Reconcile := fun _ w => (None, w);
  ResidueReporter := Some (fun _ w => ((mkResidue 0 0 0 0 0 false "", None), w));
  HasProcess := true;
  Start := fun _ _ _ w => ((Some 7%nat, mkStartResult None false), w);
  Ready := fun _ _ w => demo_answer w;
  Stop := fun _ _ w => (mkTermination None true, w)
|}.

Definition demo_ctx : Context := mkContext 1 true.
Definition demo_state (w : nat) : St := mkSt (connect_begin 0%nat NewController) w [].
Definition demo_connect (w : nat) := runConnect demo_ctx 1 Second (demo_state w).

(** A complete connection, and one whose TUN adapter does not appear. *)
Example demo_connects :
  events (demo_connect 10).2 = map (fun o => (o, Done)) (forward true).
Proof. vm_compute. reflexivity. Qed.

Example demo_rolls_back :
  events (demo_connect 4).2 =
    map (fun o => (o, Done))
      [(OpPrepare, true); (OpCapture, true); (OpProtect, true); (OpStart, false); (OpReady, true)] ++
    [((OpTUN, true), Failed)] ++
    map (fun o => (o, Done)) [(OpStop, false); (OpRestore, false); (OpResidue, false)] /\
  co_status (demo_connect 4).1 = safeFailure ErrorTUNNotFound.
Proof. vm_compute. by split. Qed.

Lemma demo_returns : connect_returns (connect_begin 0%nat NewController) (demo_connect 10).1.
Proof. unfold demo_connect. exists demo_ctx, 1, Second, (demo_state 10). repeat split. Qed.

Lemma connected_only_after_every_step_witness :
  StatusState (co_status (demo_connect 10).1) = StateConnected /\
  established (demo_connect 10).1.
Proof.
  split; [vm_compute; reflexivity|].
  apply (connected_only_after_every_step demo_ctx 1 Second (demo_state 10)).
  vm_compute. reflexivity.
Defined.


(** ** Reachable configurations *)
Definition demo_begun : Config :=
  (mkShared (connect_begin 0%nat NewController) 1%nat ∅ ∅, [TConnectRun 1 0%nat]).

Lemma demo_begun_reachable fail : reachable fail demo_begun.
Proof.
  assert (R0 : reachable fail initial) by apply rtc_refl.
  apply (reach_request _ _ _ TConnect) in R0; [|done].
  eapply (reach_step _ _ []) in R0; [|by apply connect_take_step]. exact R0.
Qed.

Lemma one_transition_at_a_time_witness :
  holders demo_begun.2 = [(mkTransition "connect" 0%nat, 1)].
Proof. apply (one_transition_at_a_time false demo_begun), demo_begun_reachable. Defined.

Lemma connect_starts_clean_witness :
  processStarted (ctrl demo_begun.1) = false /\ monitorDone (ctrl demo_begun.1) = None.
Proof.
  apply (connect_starts_clean false demo_begun 1 0%nat); [apply demo_begun_reachable|].
  apply list_elem_of_here.
Defined.

Lemma quality_only_while_connected_witness :
  lineQuality (ctrl demo_begun.1) = LineQualityUnknown /\ connectedAt (ctrl demo_begun.1) = 0.
Proof.
  apply (quality_only_while_connected false demo_begun); [apply demo_begun_reachable|done].
Defined.

(** The run of the wedge, up to the disconnect that waits for the monitor. *)
Lemma demo_waiting :
  exists (k : Config) gen ch mon, reachable false k /\ TDisconnectStop gen false ch mon ∈ k.2.
Proof.
  destruct (connect_finish 1 (demo_connect 10).1 1 1%nat (connect_begin 0%nat NewController))
    as [c2 b] eqn:Hf.
  assert (Hc2 : b = true /\ transition c2 = None /\ processStarted c2 = true).
  { vm_compute in Hf. by injection Hf as <- <-. }
  destruct Hc2 as (-> & Htr & Hps).
  assert (R0 : reachable false initial) by apply rtc_refl.
  apply (reach_request _ _ _ TConnect) in R0; [|done].
  eapply (reach_step _ _ []) in R0; [|by apply connect_take_step].
  eapply (reach_step _ _ []) in R0; [|apply connect_run_step, demo_returns].
  eapply (reach_step _ _ []) in R0; [|by apply (connect_connected_step _ _ _ _ _ 1 c2)].
  apply (reach_request _ _ _ (TDisconnect false)) in R0; [|done].
  eapply (reach_step _ _ [_]) in R0;
    [|apply disconnect_take_step; simpl; unfold disconnect_entry; by rewrite Htr].
  eapply (reach_step _ _ [_]) in R0;
    [|apply disconnect_stop_step; simpl; unfold nothing_owned; simpl; rewrite Hps; by rewrite andb_false_r].
  eexists _, _, _, _. split; [exact R0|]. cbn [app snd]. right. left.
Defined.

Lemma disconnect_can_always_proceed_witness :
  exists k k' gen ch, reachable false k /\ rtc (step false) k k' /\
    TDisconnectRestore gen false ch ∈ k'.2.
Proof.
  destruct demo_waiting as (k & gen & ch & mon & Hr & Hin).
  destruct (disconnect_can_always_proceed k gen false ch mon Hr Hin) as (k' & Hs & Hin').
  by exists k, k', gen, ch.
Defined.

Lemma idle_controller_owns_what_its_state_says_witness :
  transition (ctrl (fst initial)) = None /\ idle_ok (ctrl (fst initial)).
Proof.
  split; [reflexivity|].
  apply (idle_controller_owns_what_its_state_says false initial); [apply rtc_refl|reflexivity].
Defined.
