(* ===== verification/LocalApi.v ===== *)
(** * The local API contract ([internal/localapi])

    Requests, responses and their validation (protocol.go), the projection of
    controller states onto public states (projection.go) and the status cache.
    The JSON codec is a parameter: decoding reads one value and leaves the rest
    of the input, encoding gives one line or an error. *)
From stdpp Require Import gmap.
From S2P Require Import Prelude GoText LineProbe.

#[local] Open Scope string_scope.
#[local] Open Scope Z_scope.

(** ** Constants *)
Definition Version : Z := 1.
Definition MaxFrameBytes : Z := 64 * 1024.
Definition ActionStatus : string := "status".
Definition ActionConnect : string := "connect".
Definition ActionDisconnect : string := "disconnect".
Definition ActionProbe : string := "probe".
Definition ActionDiagnosticEnable : string := "diagnostic-enable".

Definition StateIdle : string := "idle".
Definition StatePreparing : string := "preparing".
Definition StateConnecting : string := "connecting".
Definition StateConnected : string := "connected".
Definition StateRestoring : string := "restoring".
Definition StateNeedsAction : string := "needs_action".

Definition QualityUnknown : string := "unknown".
Definition QualityGood : string := "good".
Definition QualitySlow : string := "slow".
Definition QualityFailed : string := "failed".

(** ** Data *)
Inductive ApiError :=
| ErrFrameTooLarge
| ErrInvalidRequest (detail : string)
| ErrUnsupportedVersion
| ErrUnsupportedAction
| ErrInvalidResponse (detail : string)
| ErrMismatchedResponseID
| ErrEncoding (text : string).

Record Request := mkRequest {
  ReqVersion : Z;
  ReqID : string;
  ReqAction : string;
  DurationMinutes : Z
}.

Record Status := mkStatus {
  State : string;
  Quality : string;
  StErrorCode : string;
  ConnectedAt : string;
  Generation : Z
}.

Record Response := mkResponse {
  RespVersion : Z;
  RespID : string;
  RespStatus : Status;
  RespErrorCode : string;
  ProbeGeneration : Z;
  ProbeHistorical : bool;
  ProbeResults : list Result
}.

(** ** Projection of the controller's states (projection.go) *)
Record ProjectionInput := mkInput {
  InState : string;
  InQuality : string;
  InErrorCode : string;
  InConnectedAt : string;
  InGeneration : Z
}.

Definition ProjectStatus (input : ProjectionInput) : Status :=
  let state :=
    if (InState input =?s "prepared") || (InState input =?s "disconnected") then StateIdle
    else if (InState input =?s "failed_safe") || (InState input =?s "failed") then StateNeedsAction
    else InState input in
  let quality := if InQuality input =?s "" then QualityUnknown else InQuality input in
  mkStatus state quality (InErrorCode input) (InConnectedAt input) (InGeneration input).

Definition valid_states : list string :=
  [StateIdle; StatePreparing; StateConnecting; StateConnected; StateRestoring; StateNeedsAction].
Definition valid_qualities : list string := [QualityUnknown; QualityGood; QualitySlow; QualityFailed].

(** [switch x { case l...: }] on strings. *)
Definition one_of (x : string) (l : list string) : bool := existsb (String.eqb x) l.

Definition ValidStatus (status : Status) : bool :=
  if one_of (State status) valid_states then one_of (Quality status) valid_qualities else false.

(** ** Validation (protocol.go) *)
Definition validID (id : string) : bool :=
  negb (id =?s "") && (len id <=? 128)
  && negb (existsb (fun p => (p.1 <? 32) || (p.1 =? 127)) (runes id)).

Definition result_codes : list string :=
  [""; "timeout"; "canceled"; "tls_error"; "network_error"; "http_server_error"; "invalid_target"].

(** The checks of one result, its identifier apart. *)
Definition valid_result (r : Result) : bool :=
  negb ((LatencyMS r <? 0) || (5000 <? LatencyMS r) || (HTTPStatus r <? 0) || (599 <? HTTPStatus r)
        || time_is_zero (CheckedAt r))
  && match ConsecutiveFailures r with
     | Some n => negb ((n <? 0) || (3 <? n))
     | None => true
     end
  && one_of (ErrorCode r) result_codes.

(** The loop over the results; [ids] are the targets not seen yet. *)
Fixpoint valid_results (ids : gset string) (l : list Result) : bool :=
  match l with
  | [] => true
  | r :: rest =>
      if bool_decide (ResID r ∈ ids) && valid_result r then valid_results (ids ∖ {[ResID r]}) rest
      else false
  end.

Definition validProbeResults (response : Response) : bool :=
  match ProbeResults response with
  | [] => (ProbeGeneration response =? 0) && negb (ProbeHistorical response)
  | results =>
      if (length Targets <? length results)%nat || (Generation (RespStatus response) <? ProbeGeneration response)
      then false
      else if (if State (RespStatus response) =?s StateConnected
               then ProbeHistorical response
                    || negb (ProbeGeneration response =? Generation (RespStatus response))
               else negb (ProbeHistorical response))
      then false
      else valid_results (list_to_set (map TargetID Targets)) results
  end.

(** ** The codec (protocol.go) *)

(** What a second [Decode] finds after the first value. *)
Inductive Extra := ExtraEOF | ExtraValue | ExtraError (text : string).

Class Json := {
  json_Decode_request : string -> (Request * string) + string;
  json_Decode_response : string -> (Response * string) + string;
  json_Decode_extra : string -> Extra;
  json_Marshal_response : Response -> string + string
}.

Definition newline : string := String (byte_of 10) EmptyString.

Section Codec.
Context `{Json}.

Definition decodeOne {A} (decode : string -> (A * string) + string) (frame : string) : A + string :=
  match decode frame with
  | inr err => inr err
  | inl (value, rest) =>
      match json_Decode_extra rest with
      | ExtraEOF => inl value
      | ExtraValue => inr "multiple JSON values"
      | ExtraError err => inr err
      end
  end.

Definition DecodeRequest (frame : string) : Request + ApiError :=
  if MaxFrameBytes <? len frame then inr ErrFrameTooLarge
  else match decodeOne json_Decode_request frame with
  | inr err => inr (ErrInvalidRequest err)
  | inl request =>
      if negb (ReqVersion request =? Version) then inr ErrUnsupportedVersion
      else if negb (validID (ReqID request)) then inr (ErrInvalidRequest "")
      else if one_of (ReqAction request) [ActionStatus; ActionConnect; ActionDisconnect; ActionProbe] then
        if negb (DurationMinutes request =? 0) then inr (ErrInvalidRequest "") else inl request
      else if ReqAction request =?s ActionDiagnosticEnable then
        if negb (DurationMinutes request =? 15) && negb (DurationMinutes request =? 30)
           && negb (DurationMinutes request =? 60)
        then inr (ErrInvalidRequest "") else inl request
      else inr ErrUnsupportedAction
  end.

Definition DecodeResponse (frame requestID : string) : Response + ApiError :=
  if MaxFrameBytes <? len frame then inr ErrFrameTooLarge
  else match decodeOne json_Decode_response frame with
  | inr err => inr (ErrInvalidResponse err)
  | inl response =>
      if negb (RespVersion response =? Version) || negb (validID (RespID response))
         || negb (ValidStatus (RespStatus response)) || negb (validProbeResults response)
      then inr (ErrInvalidResponse "")
      else if negb (RespID response =?s requestID) then inr ErrMismatchedResponseID
      else inl response
  end.

Definition EncodeResponse (response : Response) : string + ApiError :=
  if negb (validProbeResults response) then inr (ErrInvalidResponse "")
  else match json_Marshal_response response with
  | inr err => inr (ErrEncoding err)
  | inl data =>
      if MaxFrameBytes <? len data + 1 then inr ErrFrameTooLarge else inl (data ++s newline)
  end.
End Codec.

(** ** The status cache (protocol.go)

    A nil cache is [None]. *)
Record StatusCache := mkCache { cached : Status; present : bool }.

Definition new_cache : StatusCache := mkCache (mkStatus "" "" "" "" 0) false.

Definition Apply (c : option StatusCache) (status : Status) : bool * option StatusCache :=
  match c with
  | None => (false, c)
  | Some cache =>
      if negb (ValidStatus status) then (false, c)
      else if present cache && (Generation status <? Generation (cached cache)) then (false, c)
      else (true, Some (mkCache status true))
  end.

Definition Load (c : option StatusCache) : Status * bool :=
  match c with
  | None => (mkStatus "" "" "" "" 0, false)
  | Some cache => (cached cache, present cache)
  end.

(** ** Properties *)
Lemma one_of_elem x l : one_of x l = true <-> x ∈ l.
Proof.
  unfold one_of. rewrite existsb_exists, list_elem_of_In. split.
  - intros (y & Hy & ->%String.eqb_eq). done.
  - intros Hx. exists x. split; [done|]. apply String.eqb_refl.
Qed.

(** What the loop over the results checks: distinct targets and valid results. *)
Lemma valid_results_spec ids l :
  valid_results ids l = true <->
  NoDup (map ResID l) /\ Forall (fun r => ResID r ∈ ids /\ valid_result r = true) l.
Proof.
  revert ids. induction l as [|r l IH]; intros ids; cbn [valid_results map].
  { split; [|done]. intros _. split; constructor. }
  destruct (bool_decide (ResID r ∈ ids) && valid_result r) eqn:E.
  - apply andb_true_iff in E as [Hr%bool_decide_eq_true Hv]. rewrite IH, NoDup_cons, Forall_cons.
    assert (Hiff : Forall (fun r' => ResID r' ∈ ids ∖ {[ResID r]} /\ valid_result r' = true) l <->
      (ResID r ∉ map ResID l) /\ Forall (fun r' => ResID r' ∈ ids /\ valid_result r' = true) l).
    { rewrite !Forall_forall. split.
      - intros Hl. split; [|intros r' Hr'; specialize (Hl r' Hr'); set_solver].
        intros (r' & Heq & Hr')%list_elem_of_fmap. specialize (Hl r' Hr'). set_solver.
      - intros [Hn Hl] r' Hr'. specialize (Hl r' Hr').
        assert (ResID r' <> ResID r); [|set_solver]. intros Heq. apply Hn. rewrite <- Heq.
        by apply list_elem_of_fmap_2. }
    tauto.
  - split; [done|]. intros [_ [[Hr Hv] _]%Forall_cons]. rewrite bool_decide_true, Hv in E; done.
Qed.

Lemma validProbeResults_spec response :
  ProbeResults response <> [] ->
  validProbeResults response = true <->
  (length (ProbeResults response) <= length Targets)%nat /\
  ProbeGeneration response <= Generation (RespStatus response) /\
  (if State (RespStatus response) =?s StateConnected
   then ProbeHistorical response = false /\ ProbeGeneration response = Generation (RespStatus response)
   else ProbeHistorical response = true) /\
  NoDup (map ResID (ProbeResults response)) /\
  Forall (fun r => ResID r ∈ map TargetID Targets /\ valid_result r = true) (ProbeResults response).
Proof.
  intros Hn. unfold validProbeResults. destruct (ProbeResults response) as [|r l] eqn:Hl; [done|].
  rewrite <- Hl. clear Hn.
  assert (Hset : Forall (fun r => ResID r ∈ list_to_set (C:=gset string) (map TargetID Targets) /\ valid_result r = true) (ProbeResults response)
    <-> Forall (fun r => ResID r ∈ map TargetID Targets /\ valid_result r = true) (ProbeResults response)).
  { rewrite !Forall_forall. by setoid_rewrite elem_of_list_to_set. }
  destruct ((length Targets <? length (ProbeResults response))%nat || (Generation (RespStatus response) <? ProbeGeneration response)) eqn:E1.
  { split; [done|]. intros (H1 & H2 & _). apply orb_true_iff in E1 as [H|H].
    - apply Nat.ltb_lt in H. lia.
    - apply Z.ltb_lt in H. lia. }
  apply orb_false_iff in E1 as [H1%Nat.ltb_ge H2%Z.ltb_ge].
  destruct (State (RespStatus response) =?s StateConnected)%go.
  - destruct (ProbeHistorical response); cbn [orb negb]; [split; [done|]; naive_solver|].
    destruct (ProbeGeneration response =? Generation (RespStatus response)) eqn:E; cbn [negb].
    + apply Z.eqb_eq in E. rewrite valid_results_spec, Hset. naive_solver.
    + apply Z.eqb_neq in E. naive_solver.
  - destruct (ProbeHistorical response); cbn [negb]; [|naive_solver].
    rewrite valid_results_spec, Hset. naive_solver.
Qed.

(** The public status of any controller state is valid. *)
Lemma ProjectStatus_ok input :
  InState input ∈ ["preparing"; "prepared"; "disconnected"; "connecting"; "connected"; "restoring";
                   "failed_safe"; "failed"] ->
  InQuality input ∈ "" :: valid_qualities ->
  ValidStatus (ProjectStatus input) = true.
Proof.
  intros Hs Hq. destruct input as [state quality code at_ gen]. cbn [InState InQuality] in *.
  repeat (apply elem_of_cons in Hs as [->|Hs]); [..|by apply elem_of_nil in Hs];
  repeat (apply elem_of_cons in Hq as [->|Hq]); try (by vm_compute); by apply elem_of_nil in Hq.
Qed.

Section Requests.
Context `{Json}.

(** A request is accepted exactly when its frame has at most [MaxFrameBytes]
    bytes and holds a single JSON value of version 1 with a valid identifier, one
    of the five actions and a duration that fits the action. *)
Theorem DecodeRequest_accepts frame request :
  DecodeRequest frame = inl request <->
  len frame <= MaxFrameBytes /\ decodeOne json_Decode_request frame = inl request /\
  ReqVersion request = 1 /\ validID (ReqID request) = true /\
  ((ReqAction request ∈ [ActionStatus; ActionConnect; ActionDisconnect; ActionProbe]
      /\ DurationMinutes request = 0) \/
   (ReqAction request = ActionDiagnosticEnable /\ DurationMinutes request ∈ [15; 30; 60])).
Proof.
  unfold DecodeRequest. destruct (MaxFrameBytes <? len frame) eqn:El; bool_to_prop; [split; [done|lia]|].
  destruct (decodeOne json_Decode_request frame) as [r|err]; [|split; [done|]; intros (_ & [=] & _)].
  destruct (ReqVersion r =? Version) eqn:Ev; cbn [negb]; bool_to_prop;
    [|split; [done|]; intros (_ & [= ->] & Hv & _); by rewrite Hv in Ev].
  destruct (validID (ReqID r)) eqn:Ei; cbn [negb];
    [|split; [done|]; intros (_ & [= ->] & _ & Hv & _); congruence].
  destruct (one_of (ReqAction r) _) eqn:Ea.
  - apply one_of_elem in Ea. destruct (DurationMinutes r =? 0) eqn:Ed; cbn [negb]; bool_to_prop.
    + split; [intros [= ->]; split_and!; auto|intros (_ & [= ->] & _); done].
    + split; [done|]. intros (_ & [= ->] & _ & _ & [[_ ?]|[Hd _]]); [done|]. rewrite Hd in Ea. by apply one_of_elem in Ea.
  - assert (Hna : ReqAction r ∉ [ActionStatus; ActionConnect; ActionDisconnect; ActionProbe]).
    { intros Hin%one_of_elem. congruence. }
    destruct (ReqAction r =?s ActionDiagnosticEnable)%go eqn:Eg; bool_to_prop;
      [|split; [done|]; intros (_ & [= ->] & _ & _ & [[? _]|[? _]]); congruence].
    destruct (DurationMinutes r =? 15) eqn:E1, (DurationMinutes r =? 30) eqn:E2, (DurationMinutes r =? 60) eqn:E3;
      cbn [negb andb]; bool_to_prop;
      try (split; [intros [= ->]; split_and!; auto; right; split; [done|]; set_solver|intros (_ & [= ->] & _); done]).
    split; [done|]. intros (_ & [= ->] & _ & _ & [[? _]|[_ Hd]]); [done|].
    repeat (apply elem_of_cons in Hd as [Hd|Hd]; [done|]). by apply elem_of_nil in Hd.
Qed.
End Requests.

Lemma Apply_step c status : exists c', (Apply (Some c) status).2 = Some c' /\
  (c' = c \/ (ValidStatus status = true /\ c' = mkCache status true)).
Proof.
  unfold Apply. destruct (ValidStatus status); cbn [negb]; [|eauto].
  destruct (_ && _); cbn [snd]; eauto.
Qed.

Definition apply_all (l : list Status) (c : option StatusCache) : option StatusCache :=
  fold_left (fun c status => (Apply c status).2) l c.

(** Whatever the order in which statuses arrive, the cache holds a valid one of
    the newest generation among them, and it is empty only when none was valid. *)
Theorem cache_holds_the_newest l :
  let '(status, found) := Load (apply_all l (Some new_cache)) in
  if found then status ∈ l /\ ValidStatus status = true /\
    forall status', status' ∈ l -> ValidStatus status' = true -> Generation status' <= Generation status
  else forall status', status' ∈ l -> ValidStatus status' = false.
Proof.
  unfold apply_all. induction l as [|s l IH] using rev_ind; [by intros status' ?%elem_of_nil|].
  rewrite fold_left_app. cbn [fold_left].
  set (c := fold_left _ l (Some new_cache)) in *.
  assert (Hc : exists c0, c = Some c0).
  { unfold c. clear IH. revert c. generalize new_cache. induction l as [|x l IHl]; intros c0; cbn [fold_left]; [eauto|].
    destruct (Apply_step c0 x) as (c1 & -> & _). apply IHl. }
  destruct Hc as [c0 ->]. destruct c0 as [st found]. cbn [Load cached present Apply] in *.
  destruct (ValidStatus s) eqn:Hv; cbn [negb].
  - destruct found; cbn [andb].
    + destruct IH as (Hin & Hvs & Hmax). destruct (Generation s <? Generation st) eqn:Hg; bool_to_prop;
        cbn [Load cached present snd].
      * split_and!; [set_solver|done|]. intros s' [Hs'|Hs']%elem_of_app Hv'; [auto|].
        apply list_elem_of_singleton in Hs' as ->. lia.
      * split_and!; [set_solver|done|]. intros s' [Hs'|Hs']%elem_of_app Hv'; [specialize (Hmax s' Hs' Hv'); lia|].
        apply list_elem_of_singleton in Hs' as ->. lia.
    + cbn [Load cached present snd]. split_and!; [set_solver|done|].
      intros s' [Hs'|Hs']%elem_of_app Hv'; [by rewrite (IH s' Hs') in Hv'|].
      apply list_elem_of_singleton in Hs' as ->. lia.
  - cbn [Load cached present snd]. destruct found.
    + destruct IH as (Hin & Hvs & Hmax). split_and!; [set_solver|done|].
      intros s' [Hs'|Hs']%elem_of_app Hv'; [auto|]. apply list_elem_of_singleton in Hs' as ->. congruence.
    + intros s' [Hs'|Hs']%elem_of_app; [auto|]. by apply list_elem_of_singleton in Hs' as ->.
Qed.
