(* ===== verification/PipeServer.v ===== *)
(** * The local endpoint of the service ([internal/agent])

    The pipe protocol (pipe_contract.go), the server of one connection
    (pipe_windows.go) and the handler of the versioned API (local_dispatch.go).
    The controller is an interface, as in the code; its world, the JSON
    codec, the administrator test of the transport and the time format are
    parameters.  A connection is the bytes it delivers and the error that ends
    them; what the server writes to it is its result. *)
From S2P Require Import Prelude GoText TraceEvent AccessModel Controller.
From S2P Require LineProbe LineScheduler LocalApi TraceRecorder.

#[local] Open Scope string_scope.
#[local] Open Scope Z_scope.

(** ** The contract (pipe_contract.go) *)
Definition PipeName : string := "\\.\pipe\RegenBioOverseasAccess".
Definition MaxPipeFrameBytes : Z := 64 * 1024.
Definition PipeOperationTimeout : Z := 5 * Second.
Definition PipeDisconnectTimeout : Z := 90 * Second.
Definition PipeConnectTimeout : Z := 120 * Second.

Definition ActionConnect : string := "connect".
Definition ActionDisconnect : string := "disconnect".
Definition ActionStatus : string := "status".
Definition ActionDiagnostics : string := "diagnostics".
Definition ActionTrace : string := "trace".
Definition TraceDefaultLimit : Z := 32.
Definition TraceMaxLimit : Z := 64.
Definition ErrorInvalidAction : string := "invalid_action".
Definition ErrorInvalidRequest : string := "invalid_request".

Record Request := mkRequest {
  ReqID : string;
  ReqAction : string;
  AfterSequence : Z;
  Limit : Z
}.

Record Response := mkResponse {
  RespID : string;
  RespState : string;
  RespErrorCode : string;
  RespMessage : string;
  RespPhase : string;
  RespStep : Z;
  RespTotalSteps : Z;
  RespElapsedMS : Z
}.

(** A response without the progress fields. *)
Definition short_response (id state code message : string) : Response :=
  mkResponse id state code message "" 0 0 0.

Definition responseFromStatus (id : string) (s : Status) : Response :=
  mkResponse id (state_string (StatusState s)) (StatusErrorCode s) (StatusMessage s)
    (StatusPhase s) (StatusStep s) (StatusTotalSteps s) (StatusElapsedMS s).

Definition PipeTimeoutForAction (action : string) : Z :=
  if action =?s ActionConnect then PipeConnectTimeout
  else if action =?s ActionDisconnect then PipeDisconnectTimeout
  else if action =?s LocalApi.ActionProbe then LineProbe.RoundBudget + PipeOperationTimeout
  else PipeOperationTimeout.

(** ** What the controller shows (controller.go) *)
Record LocalStatusSnapshot := mkLocalStatus {
  LSStatus : Status;
  LSGeneration : Z;
  LSQuality : string;
  LSConnectedAt : Z
}.

Record Diagnostics := mkDiagnostics {
  DiagState : ConnectionState;
  DiagErrorCode : string;
  DiagMessage : string;
  DiagGeneration : Z;
  DiagStage : string;
  DiagDetail : string
}.

Definition Diagnostics_of `{Environment} (c : Controller) : Diagnostics :=
  mkDiagnostics (StatusState (status c)) (StatusErrorCode (status c)) (StatusMessage (status c))
    (generation c) (diagnosticStage c) (diagnosticDetail c).

Definition LocalStatusSnapshot_of `{Environment} (c : Controller) : LocalStatusSnapshot :=
  mkLocalStatus (status c) (generation c) (lineQuality c) (connectedAt c).

(** ** The interfaces the server calls *)
Class PipeController := {
  PW : Type;
  pc_Connect : StateM PW Status;
  pc_Disconnect : StateM PW Status;
  pc_Status : StateM PW Status;
  pc_Diagnostics : StateM PW Diagnostics;
  pc_LocalStatusSnapshot : option (StateM PW LocalStatusSnapshot)
}.

Class PipeJson := {
  json_Decode_pipe_request : string -> (Request * string) + string;
  json_Unmarshal_keys : string -> option (list string);
  json_Marshal_pipe_response : Response -> string + string;
  json_Marshal_diagnostics : Diagnostics -> string + string;
  json_Marshal_batch : Batch -> string + string;
  time_RFC3339 : Z -> string
}.

(** A probe scheduler and a diagnostic mode, as the handler uses them. *)
Record ProbeOps (W : Type) := mkProbeOps {
  probe_Manual : StateM W unit;
  probe_Snapshot : StateM W LineScheduler.Snapshot
}.
Arguments mkProbeOps {W}.
Arguments probe_Manual {W}.
Arguments probe_Snapshot {W}.

Section Server.
Context `{PC : PipeController, PJ : PipeJson, LJ : LocalApi.Json}.

Definition HM : Type -> Type := StateM PW.

(** ** The versioned API (local_dispatch.go) *)
Record LocalHandler := mkHandler {
  lineProbe : option (ProbeOps PW);
  diagnosticMode : option (Z -> HM (option string))
}.

Definition v1SnapshotFor : HM LocalStatusSnapshot :=
  match pc_LocalStatusSnapshot with
  | Some snapshot => snapshot
  | None =>
      d ← (pc_Diagnostics : HM Diagnostics);
      mret (mkLocalStatus (status_of (DiagState d) (DiagErrorCode d) "") (DiagGeneration d)
              LineQualityUnknown 0)
  end.

(** The action of a request and the error code it leaves in the response. *)
Definition perform (h : LocalHandler) (request : LocalApi.Request) (administrator : bool) : HM string :=
  let action := LocalApi.ReqAction request in
  if action =?s LocalApi.ActionConnect then _ ← (pc_Connect : HM Status); mret ""
  else if action =?s LocalApi.ActionDisconnect then _ ← (pc_Disconnect : HM Status); mret ""
  else if action =?s LocalApi.ActionStatus then mret ""
  else if action =?s LocalApi.ActionProbe then
    match lineProbe h with
    | None => mret "probe_unavailable"
    | Some ops =>
        snapshot ← v1SnapshotFor;
        if bool_decide (StatusState (LSStatus snapshot) = StateConnected)
        then _ ← probe_Manual ops; mret ""
        else mret "probe_unavailable"
    end
  else if action =?s LocalApi.ActionDiagnosticEnable then
    if negb administrator then mret "permission_denied"
    else match diagnosticMode h with
         | None => mret "diagnostic_unavailable"
         | Some enable =>
             err ← enable (LocalApi.DurationMinutes request * Minute);
             mret (match err with Some _ => "diagnostic_unavailable" | None => "" end)
         end
  else mret "".

(** Whether the stored probe results go into the response. *)
Definition attach_probes (snapshot : LocalStatusSnapshot) (probes : LineScheduler.Snapshot)
    (response : LocalApi.Response) : LocalApi.Response :=
  let connected := bool_decide (StatusState (LSStatus snapshot) = StateConnected) in
  if (0 <? length (LineScheduler.SnapResults probes))%nat
     && (LineScheduler.SnapGeneration probes <=? LSGeneration snapshot)
     && (negb connected || (LineScheduler.SnapGeneration probes =? LSGeneration snapshot))
  then LocalApi.mkResponse (LocalApi.RespVersion response) (LocalApi.RespID response)
         (LocalApi.RespStatus response) (LocalApi.RespErrorCode response)
         (LineScheduler.SnapGeneration probes) (negb connected) (LineScheduler.SnapResults probes)
  else response.

Definition set_error (code : string) (r : LocalApi.Response) : LocalApi.Response :=
  LocalApi.mkResponse (LocalApi.RespVersion r) (LocalApi.RespID r) (LocalApi.RespStatus r) code
    (LocalApi.ProbeGeneration r) (LocalApi.ProbeHistorical r) (LocalApi.ProbeResults r).

Definition Dispatch (h : LocalHandler) (request : LocalApi.Request) (administrator : bool)
  : HM LocalApi.Response :=
  responseError ← perform h request administrator;
  snapshot ← v1SnapshotFor;
  let connectedAt := if time_is_zero (LSConnectedAt snapshot) then "" else time_RFC3339 (LSConnectedAt snapshot) in
  let response := LocalApi.mkResponse LocalApi.Version (LocalApi.ReqID request)
    (LocalApi.ProjectStatus (LocalApi.mkInput (state_string (StatusState (LSStatus snapshot)))
       (LSQuality snapshot) (StatusErrorCode (LSStatus snapshot)) connectedAt (LSGeneration snapshot)))
    responseError 0 false [] in
  response ← match lineProbe h with
             | Some ops =>
                 if bool_decide (StatusState (LSStatus snapshot) = StateConnecting) then mret response
                 else probes ← probe_Snapshot ops; mret (attach_probes snapshot probes response)
             | None => mret response
             end;
  mret (if (LocalApi.ReqAction request =?s LocalApi.ActionProbe)
           && (length (LocalApi.ProbeResults response) =? 0)%nat
        then set_error "probe_unavailable" response else response).

(** ** The pipe server (pipe_windows.go) *)
Record PipeServer := mkServer {
  redactions : list string;
  traceSource : option (Z -> Z -> HM Batch);
  handler : LocalHandler
}.

(** [WithPipeRedactions] drops the empty values. *)
Definition WithPipeRedactions (values : list string) (s : PipeServer) : PipeServer :=
  mkServer (redactions s ++ filter (fun v => len v <> 0) values) (traceSource s) (handler s).

(** [bytes.ReplaceAll]; [skip] is the rest of the occurrence that was replaced. *)
Fixpoint replace_go (old new : string) (skip : nat) (s : string) : string :=
  match s with
  | EmptyString => EmptyString
  | String a rest =>
      match skip with
      | S k => replace_go old new k rest
      | O =>
          if strings_HasPrefix s old then new ++s replace_go old new (String.length old - 1) rest
          else String a (replace_go old new 0 rest)
      end
  end.

Definition bytes_ReplaceAll (s old new : string) : string :=
  if old =?s "" then new ++s string_concat (map (fun p => p.2 ++s new) (runes s))
  else replace_go old new 0 s.

Definition redact_message (s : PipeServer) (message : string) : string :=
  fold_left (fun m secret => bytes_ReplaceAll m secret "[REDACTED]") (redactions s) message.

Definition isVersionedPipeRequest (frame : string) : bool :=
  match json_Unmarshal_keys frame with
  | Some keys => LocalApi.one_of "version" keys
  | None => false
  end.

Definition decodePipeRequest (frame : string) : Request + string :=
  match json_Decode_pipe_request frame with
  | inr err => inr err
  | inl (request, rest) =>
      match LocalApi.json_Decode_extra rest with
      | LocalApi.ExtraValue => inr "multiple JSON values in one frame"
      | LocalApi.ExtraError err => inr err
      | LocalApi.ExtraEOF =>
          if (ReqID request =?s "") || (128 <? len (ReqID request))
             || existsb (fun p => (p.1 <? 32) || (p.1 =? 127)) (runes (ReqID request))
          then inr "invalid request ID"
          else if ReqAction request =?s ActionTrace then
            if (Limit request <? 0) || (TraceMaxLimit <? Limit request) then inr "invalid trace limit"
            else inl request
          else if negb (AfterSequence request =? 0) || negb (Limit request =? 0)
          then inr "trace fields require trace action"
          else inl request
      end
  end.

(** The loop over the events of a batch. *)
Fixpoint valid_trace_events (oldest previous : Z) (l : list Event) : option Z :=
  match l with
  | [] => Some previous
  | ev :: rest =>
      if negb (bool_decide (TraceEvent.Validate ev = None)) || (EvSequence ev <=? previous) then None
      else if (oldest =? 0) || (EvSequence ev <? oldest) then None
      else valid_trace_events oldest (EvSequence ev) rest
  end.

Definition validTraceBatch (batch : Batch) (after limit : Z) : bool :=
  if limit <? Z.of_nat (length (BatchEvents batch)) then false
  else match valid_trace_events (BatchOldestSequence batch) after (BatchEvents batch) with
       | None => false
       | Some _ =>
           match last (BatchEvents batch) with
           | None => (BatchNextSequence batch =? after) && negb (BatchHasMore batch)
           | Some ev => BatchNextSequence batch =? EvSequence ev
           end
       end.

(** The batch with only its first [count] events. *)
Definition trimmed (batch : Batch) (after : Z) (count : nat) : Batch :=
  let evs := take count (BatchEvents batch) in
  mkBatch evs
    (match last evs with Some ev => EvSequence ev | None => after end)
    (if (count <? length (BatchEvents batch))%nat then true else BatchHasMore batch)
    (BatchOldestSequence batch).

Definition batch_unavailable (request : Request) : Response :=
  short_response (ReqID request) (state_string StatePrepared) ErrorInvalidRequest "日志批次不可用".

(** [for count := len(batch.Events); count >= 0; count--] *)
Fixpoint fit_loop (redact : string -> string) (request : Request) (state : Status) (batch : Batch) (count : nat)
  : Response :=
  match json_Marshal_batch (trimmed batch (AfterSequence request) count) with
  | inr _ => batch_unavailable request
  | inl message =>
      let response := short_response (ReqID request) (state_string (StatusState state))
                        (StatusErrorCode state) (redact message) in
      let fits := match json_Marshal_pipe_response response with
                  | inl encoded => len encoded + 1 <=? MaxPipeFrameBytes
                  | inr _ => false
                  end in
      if fits then response
      else match count with
           | O => batch_unavailable request
           | S count => fit_loop redact request state batch count
           end
  end.

Definition fitTraceResponse (s : PipeServer) (request : Request) (batch : Batch) : HM Response :=
  state ← (pc_Status : HM Status);
  mret (fit_loop (redact_message s) request state batch (length (BatchEvents batch))).

Definition dispatch (s : PipeServer) (request : Request) : HM Response :=
  let action := ReqAction request in
  if action =?s ActionConnect then
    st ← (pc_Connect : HM Status); mret (responseFromStatus (ReqID request) st)
  else if action =?s ActionDisconnect then
    st ← (pc_Disconnect : HM Status); mret (responseFromStatus (ReqID request) st)
  else if action =?s ActionStatus then
    st ← (pc_Status : HM Status); mret (responseFromStatus (ReqID request) st)
  else if action =?s ActionDiagnostics then
    d ← (pc_Diagnostics : HM Diagnostics);
    mret (match json_Marshal_diagnostics d with
          | inr _ => short_response (ReqID request) (state_string (DiagState d)) ErrorInvalidRequest "诊断信息不可用"
          | inl message => short_response (ReqID request) (state_string (DiagState d)) (DiagErrorCode d)
                             (redact_message s message)
          end)
  else if action =?s ActionTrace then
    match traceSource s with
    | None => mret (short_response (ReqID request) (state_string StatePrepared) ErrorInvalidRequest "日志通道不可用")
    | Some source =>
        let limit := if Limit request =? 0 then TraceDefaultLimit else Limit request in
        batch ← source (AfterSequence request) limit;
        if validTraceBatch batch (AfterSequence request) limit then fitTraceResponse s request batch
        else mret (batch_unavailable request)
    end
  else mret (short_response (ReqID request) (state_string StatePrepared) ErrorInvalidAction "不支持的操作").

(** *** Connections *)
Record Connection := mkConnection {
  stream : string;           (** the bytes it delivers *)
  stream_error : string;     (** the error after them *)
  deadline_ok : nat -> bool  (** whether the n-th [SetDeadline] succeeds *)
}.

Definition newline_byte : ascii := byte_of 10.

(** The bytes up to and including the first newline. *)
Fixpoint line_of (s : string) : option string :=
  match s with
  | EmptyString => None
  | String a rest =>
      if Ascii.eqb a newline_byte then Some (String a EmptyString)
      else match line_of rest with Some l => Some (String a l) | None => None end
  end.

(** [bufio.NewReader(io.LimitReader(connection, limit+1)).ReadBytes('\n')] *)
Definition ReadBytes (limit : Z) (c : Connection) : string * option string :=
  let available := string_take (Z.to_nat (limit + 1)) (stream c) in
  match line_of available with
  | Some line => (line, None)
  | None => (available, Some (if limit <? len (stream c) then "EOF" else stream_error c))
  end.

Definition ends_in_newline (frame : string) : bool := strings_HasSuffix frame (String newline_byte EmptyString).
Definition without_last (frame : string) : string := string_take (String.length frame - 1) frame.

Definition readPipeFrame (c : Connection) : string + string :=
  let '(frame, err) := ReadBytes MaxPipeFrameBytes c in
  match err with
  | Some e => inr e
  | None =>
      if (MaxPipeFrameBytes <? len frame) || (len frame =? 0) || negb (ends_in_newline frame)
      then inr "invalid pipe frame size"
      else inl (without_last frame)
  end.

(** [serveV1]: what is written to the connection. *)
Definition serveV1 (s : PipeServer) (c : Connection) (admin : bool) (frame : string) : HM (option string) :=
  match LocalApi.DecodeRequest frame with
  | inr _ => mret None
  | inl request =>
      if negb (deadline_ok c 1) then mret None
      else
          let administrator := (LocalApi.ReqAction request =?s LocalApi.ActionDiagnosticEnable) && admin in
          response ← Dispatch (handler s) request administrator;
          mret (match LocalApi.EncodeResponse response with
                | inl data => if deadline_ok c 2 then Some data else None
                | inr _ => None
                end)
  end.

(** [serveConnection], with the administrator test [admin] of the transport. *)
Definition serveConnection (s : PipeServer) (c : Connection) (admin : bool) : HM (option string) :=
  if negb (deadline_ok c 0) then mret None
  else match readPipeFrame c with
  | inr _ => mret None
  | inl frame =>
      if isVersionedPipeRequest frame then serveV1 s c admin frame
      else match decodePipeRequest frame with
      | inr _ => mret None
      | inl request =>
          if negb (deadline_ok c 1) then mret None
          else
            response ← dispatch s request;
            mret (match json_Marshal_pipe_response response with
                  | inl data => if MaxPipeFrameBytes <? len data + 1 then None
                                else if negb (deadline_ok c 2) then None
                                else Some (data ++s LocalApi.newline)
                  | inr _ => None
                  end)
      end
  end.
End Server.

(** ** The frames of a connection *)
Lemma line_of_spec s l :
  line_of s = Some l <->
  exists f rest, s = f ++s String newline_byte rest /\ l = f ++s String newline_byte EmptyString /\
    string_all (fun a => negb (Ascii.eqb a newline_byte)) f = true.
Proof.
  revert l. induction s as [|a s IH]; intros l; cbn [line_of].
  { split; [done|]. intros (f & rest & Hs & _). by destruct f. }
  destruct (Ascii.eqb a newline_byte) eqn:Ea.
  - apply Ascii.eqb_eq in Ea as ->. split.
    + intros [= <-]. by exists EmptyString, s.
    + intros (f & rest & Hs & -> & Hf). destruct f as [|b f]; [done|]. injection Hs as <- Hs.
      cbn [string_all] in Hf. rewrite Ascii.eqb_refl in Hf. done.
  - destruct (line_of s) as [l'|] eqn:El.
    + destruct (proj1 (IH l') eq_refl) as (f & rest & -> & -> & Hf). split.
      * intros [= <-]. exists (String a f), rest. cbn [string_all String.append]. by rewrite Ea, Hf.
      * intros (f' & rest' & Hs & -> & Hf'). destruct f' as [|b f'].
        { injection Hs as -> _. by rewrite Ascii.eqb_refl in Ea. }
        injection Hs as <- Hs. cbn [string_all] in Hf'. apply andb_true_iff in Hf' as [_ Hf'].
        assert (Heq : Some (f ++s String newline_byte EmptyString) = Some (f' ++s String newline_byte EmptyString)).
        { apply IH. exists f', rest'. done. }
        injection Heq as ->. done.
    + split; [done|]. intros (f & rest & Hs & -> & Hf). destruct f as [|b f].
      { injection Hs as -> _. by rewrite Ascii.eqb_refl in Ea. }
      injection Hs as <- Hs. cbn [string_all] in Hf. apply andb_true_iff in Hf as [_ Hf].
      assert (Heq : None = Some (f ++s String newline_byte EmptyString)); [|done].
      apply IH. exists f, rest. done.
Qed.

Lemma string_take_app n s t :
  (String.length s <= n)%nat -> string_take n (s ++s t) = s ++s string_take (n - String.length s) t.
Proof.
  revert n. induction s as [|a s IH]; intros n Hn; cbn [String.length String.append] in *.
  { by rewrite Nat.sub_0_r. }
  destruct n as [|n]; [lia|]. unfold string_take in *. cbn [String.substring]. f_equal. apply IH. lia.
Qed.

Lemma string_take_self s : string_take (String.length s) s = s.
Proof. unfold string_take. induction s as [|a s IH]; [done|]. cbn. by rewrite IH. Qed.

(** The part of a string that a bound lets through. *)
Lemma string_take_split n s : exists rest, s = string_take n s ++s rest.
Proof.
  revert n. induction s as [|a s IH]; intros n; [exists EmptyString; by destruct n|].
  destruct n as [|n]; [by exists (String a s)|]. destruct (IH n) as [rest Hr]. exists rest.
  unfold string_take in *. cbn [String.substring String.append]. by rewrite <- Hr.
Qed.

(** What a bounded read gives: the first line, when it fits. *)
Lemma ReadBytes_line limit c f rest :
  0 <= limit -> stream c = f ++s String newline_byte rest ->
  string_all (fun a => negb (Ascii.eqb a newline_byte)) f = true -> len f + 1 <= limit + 1 ->
  ReadBytes limit c = (f ++s String newline_byte EmptyString, None).
Proof.
  intros Hl Hs Hf Hn. unfold ReadBytes. rewrite Hs, string_take_app by (unfold len in *; lia).
  unfold len in Hn. destruct (Z.to_nat (limit + 1) - String.length f)%nat eqn:E; [lia|].
  unfold string_take at 1. cbn [String.substring].
  destruct (line_of _) as [l|] eqn:El.
  - apply line_of_spec in El as Hl'. f_equal.
    assert (Hsome : Some l = Some (f ++s String newline_byte EmptyString)); [|by injection Hsome].
    rewrite <- El. apply line_of_spec. by eexists f, _.
  - assert (Hsome : None = Some (f ++s String newline_byte EmptyString)); [|done].
    rewrite <- El. apply line_of_spec. by eexists f, _.
Qed.

(** A frame is read exactly when the connection delivers it, without a newline
    inside, followed by one, within the limit. *)
Lemma readPipeFrame_iff c f :
  readPipeFrame c = inl f <->
  (exists rest, stream c = f ++s String newline_byte rest) /\
  string_all (fun a => negb (Ascii.eqb a newline_byte)) f = true /\ len f + 1 <= MaxPipeFrameBytes.
Proof.
  assert (Hline : forall g : string, without_last (g ++s String newline_byte EmptyString) = g).
  { intros g. unfold without_last. rewrite string_length_app. cbn [String.length].
    replace (String.length g + 1 - 1)%nat with (String.length g) by lia.
    rewrite string_take_app, Nat.sub_diag by done. unfold string_take. cbn. apply string_app_nil_r. }
  assert (Hll : forall g, len (g ++s String newline_byte EmptyString) = len g + 1) by (intros g; by rewrite len_app).
  split.
  - unfold readPipeFrame. destruct (ReadBytes MaxPipeFrameBytes c) as [frame err] eqn:Er.
    destruct err; [done|]. unfold ReadBytes in Er.
    destruct (line_of (string_take _ (stream c))) as [l|] eqn:El; [|done]. injection Er as <-.
    apply line_of_spec in El as (g & rest & Hs & -> & Hg).
    destruct (_ || _ || _) eqn:Eb; [done|]. intros [= <-]. rewrite Hline. bool_to_prop.
    split_and!; [|done|].
    + destruct (string_take_split (Z.to_nat (MaxPipeFrameBytes + 1)) (stream c)) as [rest' Hr].
      rewrite Hs, string_app_assoc in Hr. eauto.
    + rewrite Hll in *. lia.
  - intros ([rest Hs] & Hf & Hn). unfold readPipeFrame.
    rewrite (ReadBytes_line MaxPipeFrameBytes c f rest) by (done || lia).
    pose proof (len_nonneg f). unfold ends_in_newline. rewrite has_suffix_app, Hline, Hll.
    destruct (MaxPipeFrameBytes <? len f + 1) eqn:E1; bool_to_prop; [lia|].
    destruct (len f + 1 =? 0) eqn:E2; bool_to_prop; [lia|]. done.
Qed.

(** ** What the server promises, given what its controller and scheduler promise *)

(** The results of a snapshot are empty or valid results of distinct targets. *)
Definition probes_ok (snap : LineScheduler.Snapshot) : Prop :=
  LineScheduler.SnapResults snap = [] \/
  LineScheduler.complete_round 599 (LineScheduler.SnapResults snap).

(** The laws of the handler's collaborators, over an invariant of their world. *)
Class HandlerLaws `{PC : PipeController} (inv : PW -> Prop) (lineProbe : option (ProbeOps PW))
    (diagnosticMode : option (Z -> StateM PW (option string))) : Prop := {
  law_connect : triple inv pc_Connect (fun _ => inv);
  law_disconnect : triple inv pc_Disconnect (fun _ => inv);
  law_snapshot : triple inv v1SnapshotFor (fun snap w =>
    inv w /\ LSQuality snap ∈ "" :: LocalApi.valid_qualities);
  law_manual ops : lineProbe = Some ops -> triple inv (probe_Manual ops) (fun _ => inv);
  law_probes ops : lineProbe = Some ops ->
    triple inv (probe_Snapshot ops) (fun snap w => inv w /\ probes_ok snap);
  law_enable enable d : diagnosticMode = Some enable -> triple inv (enable d) (fun _ => inv)
}.

Lemma valid_complete_round l :
  LineScheduler.complete_round 599 l ->
  (length l <= length LineProbe.Targets)%nat /\ NoDup (map LineProbe.ResID l) /\
  Forall (fun r => LineProbe.ResID r ∈ map LineProbe.TargetID LineProbe.Targets /\ LocalApi.valid_result r = true) l.
Proof.
  intros [Hids Hr]. assert (Hlen : length l = length LineProbe.Targets).
  { rewrite <- (length_map LineProbe.ResID l), Hids. apply length_map. }
  split_and!; [lia|rewrite Hids; apply LineScheduler.ids_NoDup|].
  apply Forall_forall. intros r Hin. split.
  { change (map LineProbe.TargetID LineProbe.Targets) with LineScheduler.ids. rewrite <- Hids.
    by apply list_elem_of_fmap_2. }
  rewrite Forall_forall in Hr. destruct (Hr r Hin) as ((Hl & Hc & Hs & Hck) & n & Hn & Hn3).
  unfold LocalApi.valid_result. rewrite Hn. unfold time_is_zero.
  repeat match goal with |- context [?x <? ?y] => rewrite (proj2 (Z.ltb_ge x y)) by lia end.
  rewrite (proj2 (Z.eqb_neq _ _) Hck). cbn [orb negb andb]. apply LocalApi.one_of_elem.
  destruct Hc as [->|Hc]; [set_solver|]. unfold LineProbe.probe_codes in Hc. unfold LocalApi.result_codes. set_solver.
Qed.

(** A response that both sides accept. *)
Definition reply_ok (request : LocalApi.Request) (response : LocalApi.Response) : Prop :=
  LocalApi.RespVersion response = LocalApi.Version /\
  LocalApi.RespID response = LocalApi.ReqID request /\
  LocalApi.ValidStatus (LocalApi.RespStatus response) = true /\
  LocalApi.validProbeResults response = true.

Section Replies.
Context `{PJ : PipeJson}.

(** The response before the probe results are added. *)
Definition base_response (request : LocalApi.Request) (snapshot : LocalStatusSnapshot) (code : string)
  : LocalApi.Response :=
  let connectedAt := if time_is_zero (LSConnectedAt snapshot) then "" else time_RFC3339 (LSConnectedAt snapshot) in
  LocalApi.mkResponse LocalApi.Version (LocalApi.ReqID request)
    (LocalApi.ProjectStatus (LocalApi.mkInput (state_string (StatusState (LSStatus snapshot)))
       (LSQuality snapshot) (StatusErrorCode (LSStatus snapshot)) connectedAt (LSGeneration snapshot)))
    code 0 false [].

Lemma project_connected (s : ConnectionState) q code at_ gen :
  (LocalApi.State (LocalApi.ProjectStatus (LocalApi.mkInput (state_string s) q code at_ gen)) =?s LocalApi.StateConnected)%go
  = bool_decide (s = StateConnected).
Proof. destruct s; vm_compute; reflexivity. Qed.

Lemma base_response_ok request snapshot code :
  LSQuality snapshot ∈ "" :: LocalApi.valid_qualities -> reply_ok request (base_response request snapshot code).
Proof.
  intros Hq. split_and!; [done|done| |done].
  apply LocalApi.ProjectStatus_ok; [|exact Hq]. cbn [LocalApi.InState].
  destruct (StatusState (LSStatus snapshot)); cbn [state_string]; set_solver.
Qed.

Lemma attach_probes_ok request snapshot probes code :
  LSQuality snapshot ∈ "" :: LocalApi.valid_qualities -> probes_ok probes ->
  reply_ok request (attach_probes snapshot probes (base_response request snapshot code)).
Proof.
  intros Hq Hp. pose proof (base_response_ok request snapshot code Hq) as Hb. unfold attach_probes. cbv zeta.
  destruct (_ && _ && _) eqn:E; [|done]. bool_to_prop. destruct Hb as (Hv & Hid & Hs & _).
  split_and!; [done|done|done|]. destruct Hp as [Hp|Hp]; [rewrite Hp in *; discriminate|].
  destruct (valid_complete_round _ Hp) as (Hlen & Hnd & Hr).
  apply LocalApi.validProbeResults_spec; cbn [LocalApi.ProbeResults LocalApi.ProbeGeneration LocalApi.RespStatus LocalApi.ProbeHistorical].
  { intros Hnil. rewrite Hnil in *. discriminate. }
  unfold base_response. cbv zeta. cbn [LocalApi.RespStatus].
  rewrite project_connected. cbn [LocalApi.ProjectStatus LocalApi.Generation LocalApi.InGeneration].
  split_and!; [done|done| |done|done].
  destruct (bool_decide _); [|done]. cbn [negb orb] in *. split; [done|]. by apply Z.eqb_eq.
Qed.

Lemma set_error_ok request response code : reply_ok request response -> reply_ok request (set_error code response).
Proof. by intros (?&?&?&?). Qed.

End Replies.

Section Promises.
Context `{PC : PipeController, PJ : PipeJson, LJ : LocalApi.Json} (inv : PW -> Prop) (h : LocalHandler)
  `{HL : !HandlerLaws inv (lineProbe h) (diagnosticMode h)}.

Lemma perform_inv request administrator :
  triple inv (perform h request administrator) (fun _ => inv).
Proof.
  unfold perform. cbv zeta. destruct (_ =?s LocalApi.ActionConnect)%go.
  { eapply triple_bind; [apply law_connect|]. intros ?. apply triple_skip. }
  destruct (_ =?s LocalApi.ActionDisconnect)%go.
  { eapply triple_bind; [apply law_disconnect|]. intros ?. apply triple_skip. }
  destruct (_ =?s LocalApi.ActionStatus)%go; [apply triple_skip|].
  destruct (_ =?s LocalApi.ActionProbe)%go.
  { destruct (lineProbe h) as [ops|] eqn:Ho; [|apply triple_skip].
    eapply triple_bind; [apply law_snapshot|]. intros snap. cbv beta.
    apply (triple_weaken _ inv _ _ (fun _ => inv)); [|by intros w [??]|done].
    destruct (bool_decide _); [|apply triple_skip].
    eapply triple_bind; [by apply law_manual|]. intros ?. apply triple_skip. }
  destruct (_ =?s LocalApi.ActionDiagnosticEnable)%go; [|apply triple_skip].
  destruct administrator; [|apply triple_skip]. cbn [negb].
  destruct (diagnosticMode h) as [enable|] eqn:He; [|apply triple_skip].
  eapply triple_bind; [by apply law_enable|]. intros ?. apply triple_skip.
Qed.

Lemma Dispatch_ok request administrator :
  triple inv (Dispatch h request administrator) (fun response w => inv w /\ reply_ok request response).
Proof.
  pose proof (law_probes (HandlerLaws := HL)) as Hlp.
  unfold Dispatch. eapply triple_bind; [apply perform_inv|]. intros code.
  eapply triple_bind; [apply law_snapshot|]. intros snapshot. cbv beta zeta.
  fold (base_response request snapshot code).
  eapply (triple_bind _ _ _ (fun response w => inv w /\ reply_ok request response)).
  - destruct (lineProbe h) as [ops|] eqn:Ho.
    + destruct (bool_decide _).
      * intros w [Hw Hq]. split; [done|]. by apply base_response_ok.
      * intros w [Hw Hq]. pose proof (Hlp ops eq_refl w Hw) as Hp.
        unfold mbind, StateM_bind. destruct (probe_Snapshot ops w) as [probes w'].
        destruct Hp as [Hw' Hp]. split; [done|]. by apply attach_probes_ok.
    + intros w [Hw Hq]. split; [done|]. by apply base_response_ok.
  - intros response w [Hw Hr]. split; [done|]. destruct (_ && _); [by apply set_error_ok|done].
Qed.
End Promises.

(** ** Trace batches *)
Lemma valid_trace_events_take oldest previous l k p :
  valid_trace_events oldest previous l = Some p ->
  valid_trace_events oldest previous (take k l)
    = Some (match last (take k l) with Some ev => EvSequence ev | None => previous end).
Proof.
  revert previous k. induction l as [|ev l IH]; intros previous k; [by destruct k|].
  destruct k as [|k]; [done|]. cbn [take valid_trace_events]. destruct (negb _ || _); [done|].
  destruct (_ || _); [done|]. intros Hl. rewrite (IH _ _ Hl), last_cons.
  by destruct (last (take k l)).
Qed.

Lemma valid_trace_events_last oldest previous l p :
  valid_trace_events oldest previous l = Some p ->
  p = match last l with Some ev => EvSequence ev | None => previous end.
Proof.
  intros Hl. pose proof (valid_trace_events_take _ _ _ (length l) _ Hl) as Ht.
  rewrite firstn_all, Hl in Ht. by injection Ht.
Qed.

Lemma trimmed_valid batch after limit count :
  validTraceBatch batch after limit = true -> (0 < count)%nat ->
  validTraceBatch (trimmed batch after count) after limit = true.
Proof.
  intros Hv Hc. unfold validTraceBatch in Hv.
  destruct (limit <? Z.of_nat (length (BatchEvents batch))) eqn:El; [done|]. bool_to_prop.
  destruct (valid_trace_events _ _ (BatchEvents batch)) as [p|] eqn:Ev; [|done].
  unfold validTraceBatch, trimmed. cbv zeta. cbn [BatchEvents BatchOldestSequence BatchNextSequence BatchHasMore].
  rewrite (proj2 (Z.ltb_ge _ _)); [|rewrite length_take; lia].
  rewrite (valid_trace_events_take _ _ _ _ _ Ev).
  destruct (last (take count (BatchEvents batch))) as [ev|] eqn:Elast; [apply Z.eqb_refl|].
  apply last_None in Elast. destruct (BatchEvents batch) as [|e l]; [|destruct count; [lia|discriminate]].
  cbn [last] in Hv. cbn [length]. rewrite Z.eqb_refl. destruct (count <? 0)%nat eqn:E; [by apply Nat.ltb_lt in E; lia|].
  bool_to_prop. by rewrite H0.
Qed.

Section Fitting.
Context `{PC : PipeController, PJ : PipeJson}.

(** The response made of the first [count] events, when it fits into a frame. *)
Definition fitting (redact : string -> string) (request : Request) (state : Status) (batch : Batch) (count : nat)
  : option Response :=
  match json_Marshal_batch (trimmed batch (AfterSequence request) count) with
  | inr _ => None
  | inl message =>
      let response := short_response (ReqID request) (state_string (StatusState state))
                        (StatusErrorCode state) (redact message) in
      match json_Marshal_pipe_response response with
      | inl encoded => if len encoded + 1 <=? MaxPipeFrameBytes then Some response else None
      | inr _ => None
      end
  end.

Lemma fit_loop_spec redact request state batch n :
  fit_loop redact request state batch n = batch_unavailable request \/
  exists count, (count <= n)%nat /\
    fitting redact request state batch count = Some (fit_loop redact request state batch n) /\
    forall k, (count < k <= n)%nat -> fitting redact request state batch k = None.
Proof.
  induction n as [|n IH]; cbn [fit_loop]; cbv zeta.
  - destruct (json_Marshal_batch _) as [message|err] eqn:Em; [|by left].
    destruct (json_Marshal_pipe_response _) as [encoded|err] eqn:Er; [|by left].
    destruct (len encoded + 1 <=? MaxPipeFrameBytes) eqn:Ef; [|by left].
    right. exists 0%nat. unfold fitting. rewrite Em, Er, Ef. split_and!; [done|done|lia].
  - destruct (json_Marshal_batch _) as [message|err] eqn:Em; [|by left].
    destruct (match json_Marshal_pipe_response _ with inl _ => _ | inr _ => _ end) eqn:Ef.
    + right. exists (S n). unfold fitting. rewrite Em. cbv zeta.
      destruct (json_Marshal_pipe_response _); [rewrite Ef|done]. split_and!; [done|done|lia].
    + destruct IH as [->|(count & Hle & Hfit & Hmax)]; [by left|]. right. exists count.
      split_and!; [lia|done|]. intros k Hk. destruct (decide (k = S n)) as [->|]; [|apply Hmax; lia].
      unfold fitting. rewrite Em. cbv zeta. destruct (json_Marshal_pipe_response _); [by rewrite Ef|done].
Qed.
End Fitting.

Section ServerProperties.
Context `{PC : PipeController, PJ : PipeJson, LJ : LocalApi.Json}.

(** ** Properties *)

(** A connection delivers a frame to the server exactly when its bytes start
    with the frame and a newline, the frame has no newline inside and is shorter
    than [MaxPipeFrameBytes]: nothing else is ever decoded. *)
Theorem readPipeFrame_spec c f :
  readPipeFrame c = inl f <->
  (exists rest, stream c = f ++s String newline_byte rest) /\
  string_all (fun a => negb (Ascii.eqb a newline_byte)) f = true /\ len f + 1 <= MaxPipeFrameBytes.
Proof. apply readPipeFrame_iff. Qed.

(** Whatever the request and whatever the controller, the scheduler and the
    diagnostic mode do within their laws, the reply of the versioned API answers the
    request, has a valid status and passes the validation that the server applies
    before it sends the reply and the client after it receives it. *)
Theorem Dispatch_reply_is_valid inv h request administrator :
  HandlerLaws inv (lineProbe h) (diagnosticMode h) ->
  triple inv (Dispatch h request administrator) (fun response w => inv w /\ reply_ok request response).
Proof. intros HL. by apply Dispatch_ok. Qed.

Definition with_diagnostic (d : option (Z -> HM (option string))) (s : PipeServer) : PipeServer :=
  mkServer (redactions s) (traceSource s) (mkHandler (lineProbe (handler s)) d).

(** A client that the transport does not know as an administrator cannot reach
    the diagnostic mode: the connection is served as if there were another
    one, whatever is requested. *)
Theorem diagnostics_need_an_administrator s d c w :
  serveConnection (with_diagnostic d s) c false w = serveConnection s c false w.
Proof.
  assert (Hd : forall h request, Dispatch (mkHandler (lineProbe h) d) request false = Dispatch h request false).
  { intros h request. done. }
  unfold serveConnection. destruct (negb _); [done|]. destruct (readPipeFrame c) as [frame|]; [|done].
  destruct (isVersionedPipeRequest frame); [|done].
  unfold serveV1. destruct (LocalApi.DecodeRequest frame) as [request|]; [|done].
  destruct (negb _); [done|]. rewrite andb_false_r. cbv zeta. cbn [handler with_diagnostic]. by rewrite Hd.
Qed.

(** A trace reply carries a prefix of the batch, the longest one whose response
    fits into a frame; a non-empty prefix is a valid batch that continues
    where the request asked. *)
Theorem trace_reply_is_the_longest_prefix redact request st batch limit :
  validTraceBatch batch (AfterSequence request) limit = true ->
  let n := length (BatchEvents batch) in
  let reply := fit_loop redact request st batch n in
  reply = batch_unavailable request \/
  exists count, (count <= n)%nat /\
    fitting redact request st batch count = Some reply /\
    (forall k, (count < k <= n)%nat -> fitting redact request st batch k = None) /\
    ((0 < count)%nat ->
      validTraceBatch (trimmed batch (AfterSequence request) count) (AfterSequence request) limit = true).
Proof.
  intros Hv n reply. destruct (fit_loop_spec redact request st batch n) as [H|(count & H1 & H2 & H3)]; [by left|].
  right. exists count. split_and!; [done|done|done|]. by apply trimmed_valid.
Qed.

(** One probed site that answers with a status above 599 (Go accepts 600 to 999)
    silences the versioned API: the reply that would carry the result fails its
    own validation, and the client of a status request gets no answer. *)
Theorem one_high_status_silences_the_reply s c admin frame request w r :
  LocalApi.DecodeRequest frame = inl request ->
  let administrator := (LocalApi.ReqAction request =?s LocalApi.ActionDiagnosticEnable) && admin in
  r ∈ LocalApi.ProbeResults (Dispatch (handler s) request administrator w).1 ->
  599 < LineProbe.HTTPStatus r ->
  (serveV1 s c admin frame w).1 = None.
Proof.
  intros Hd administrator Hr Hs. unfold serveV1. rewrite Hd. destruct (negb _); [done|]. cbv zeta.
  fold administrator. unfold mbind, StateM_bind.
  destruct (Dispatch (handler s) request administrator w) as [response w'] eqn:E. cbn [fst] in *.
  unfold LocalApi.EncodeResponse.
  assert (Hf : LocalApi.validProbeResults response = false); [|by rewrite Hf].
  apply not_true_is_false. intros Ht. apply LocalApi.validProbeResults_spec in Ht as (_ & _ & _ & _ & Hf).
  - rewrite Forall_forall in Hf. destruct (Hf r Hr) as [_ Hv]. unfold LocalApi.valid_result in Hv.
    bool_to_prop. lia.
  - intros Hn. rewrite Hn in Hr. by apply elem_of_nil in Hr.
Qed.

(** What the server writes is one line of at most [MaxPipeFrameBytes] bytes. *)
Lemma reply_is_one_frame s c admin w data w' :
  serveConnection s c admin w = (Some data, w') ->
  len data <= MaxPipeFrameBytes /\ exists body, data = body ++s LocalApi.newline.
Proof.
  unfold serveConnection. destruct (negb _); [done|]. destruct (readPipeFrame c) as [frame|]; [|done].
  destruct (isVersionedPipeRequest frame).
  - unfold serveV1. destruct (LocalApi.DecodeRequest frame) as [request|]; [|done].
    destruct (negb _); [done|]. cbv zeta. unfold mbind, StateM_bind.
    destruct (Dispatch _ _ _ w) as [response w1]. unfold LocalApi.EncodeResponse.
    destruct (negb (LocalApi.validProbeResults _)); [done|]. destruct (LocalApi.json_Marshal_response _) as [body|]; [|done].
    destruct (LocalApi.MaxFrameBytes <? len body + 1) eqn:El; [done|]. destruct (deadline_ok c 2); [|done].
    intros [= <- <-]. bool_to_prop. split; [|eauto]. by rewrite len_app.
  - destruct (decodePipeRequest frame) as [request|]; [|done]. destruct (negb _); [done|].
    unfold mbind, StateM_bind. destruct (dispatch s request w) as [response w1].
    destruct (json_Marshal_pipe_response _) as [body|]; [|done].
    destruct (MaxPipeFrameBytes <? len body + 1) eqn:El; [done|]. destruct (deadline_ok c 2); [|done].
    intros [= <- <-]. bool_to_prop. split; [|eauto]. by rewrite len_app.
Qed.
End ServerProperties.

(** ** A concrete service

    A connected controller whose scheduler has published a round. *)
Definition demo_connected : Status := status_of StateConnected "" "".

Definition demo_controller : PipeController := {|
  PW := LineScheduler.Snapshot;
  pc_Connect := fun w => (demo_connected, w);
  pc_Disconnect := fun w => (demo_connected, w);
  pc_Status := fun w => (demo_connected, w);
  pc_Diagnostics := fun w => (mkDiagnostics StateConnected "" "" 7 "" "", w);
  pc_LocalStatusSnapshot := Some (fun w => (mkLocalStatus demo_connected 7 "good" 1, w))
|}.

Definition demo_pipe_json : PipeJson := {|
  json_Decode_pipe_request _ := inr "not a pipe request";
  json_Unmarshal_keys _ := Some ["version"; "id"; "action"];
  json_Marshal_pipe_response r := inl (RespMessage r);
  json_Marshal_diagnostics _ := inl "{}";
  json_Marshal_batch b := inl (string_concat (map (fun _ => "event ") (BatchEvents b)));
  time_RFC3339 _ := "2026-01-01T00:00:00Z"
|}.

Definition demo_json : LocalApi.Json := {|
  LocalApi.json_Decode_request _ := inl (LocalApi.mkRequest 1 "r1" "status" 0, "");
  LocalApi.json_Decode_response _ := inr "no response";
  LocalApi.json_Decode_extra _ := LocalApi.ExtraEOF;
  LocalApi.json_Marshal_response _ := inl "{}"
|}.

Definition demo_ops : ProbeOps (@PW demo_controller) :=
  mkProbeOps (fun w => (tt, w)) (fun w => (w, w)).

Definition demo_handler : @LocalHandler demo_controller := mkHandler (Some demo_ops) None.

Definition demo_probes : LineScheduler.Snapshot := LineScheduler.last (LineScheduler.after LineScheduler.demo_first).

Lemma demo_probes_ok : probes_ok demo_probes.
Proof.
  apply (LineScheduler.inv_last 599 (LineScheduler.after LineScheduler.demo_first)).
  apply LineScheduler.scheduler_inv; [discriminate|]. apply LineScheduler.demo_published_reachable.
Qed.

Lemma demo_laws : @HandlerLaws demo_controller probes_ok (Some demo_ops) None.
Proof.
  split; try by intros w.
  - intros w Hw. split; [done|]. cbn. set_solver.
  - intros ops [= <-] w Hw. exact Hw.
  - intros ops [= <-] w Hw. by split.
Qed.

Definition demo_request (action : string) : LocalApi.Request := LocalApi.mkRequest 1 "r1" action 0.

Lemma Dispatch_reply_is_valid_witness :
  let reply := (@Dispatch demo_controller demo_pipe_json demo_handler (demo_request "probe") false demo_probes).1 in
  length (LocalApi.ProbeResults reply) = 8%nat /\ reply_ok (demo_request "probe") reply.
Proof.
  split; [vm_compute; reflexivity|].
  apply (@Dispatch_reply_is_valid demo_controller demo_pipe_json probes_ok demo_handler
           (demo_request "probe") false demo_laws demo_probes demo_probes_ok).
Defined.

Definition demo_batch : Batch := TraceRecorder.Batch_ (TraceRecorder.rec TraceRecorder.demo_run) 0 32.
Definition demo_trace_request : Request := mkRequest "r2" "trace" 0 32.

Lemma trace_reply_is_the_longest_prefix_witness :
  validTraceBatch demo_batch 0 32 = true /\
  let reply := @fit_loop demo_pipe_json (fun m => m) demo_trace_request demo_connected demo_batch 3 in
  RespMessage reply = "event event event " /\
  (reply = batch_unavailable demo_trace_request \/
   exists count, (count <= 3)%nat /\
     @fitting demo_pipe_json (fun m => m) demo_trace_request demo_connected demo_batch count = Some reply /\
     (forall k, (count < k <= 3)%nat ->
        @fitting demo_pipe_json (fun m => m) demo_trace_request demo_connected demo_batch k = None) /\
     ((0 < count)%nat -> validTraceBatch (trimmed demo_batch 0 count) 0 32 = true)).
Proof.
  split; [vm_compute; reflexivity|]. split; [vm_compute; reflexivity|].
  apply (@trace_reply_is_the_longest_prefix demo_pipe_json (fun m => m) demo_trace_request demo_connected
           demo_batch 32). vm_compute. reflexivity.
Defined.

(** A site that answers 999. *)
Definition demo_999 : LineProbe.Result := LineProbe.mkResult "tiktok" 80 false 999 "http_server_error" 1 (Some 1).
Definition demo_server : @PipeServer demo_controller := mkServer [] None demo_handler.

Lemma one_high_status_silences_the_reply_witness :
  LineProbe.healthy demo_999 = false /\
  (@serveV1 demo_controller demo_pipe_json demo_json demo_server (mkConnection "" "" (fun _ => true)) false "{}"
    (LineScheduler.mkSnapshot 7 [demo_999])).1 = None /\
  (@serveV1 demo_controller demo_pipe_json demo_json demo_server (mkConnection "" "" (fun _ => true)) false "{}"
    (LineScheduler.mkSnapshot 7 [])).1 = Some ("{}" ++s LocalApi.newline).
Proof.
  split; [reflexivity|]. split; [|vm_compute; reflexivity].
  apply (@one_high_status_silences_the_reply demo_controller demo_pipe_json demo_json demo_server _ false "{}"
           (LocalApi.mkRequest 1 "r1" "status" 0) _ demo_999); [vm_compute; reflexivity| |vm_compute; reflexivity].
  vm_compute. left.
Defined.
