(* ===== verification/ClientApi.v ===== *)
(** * The client of the service ([internal/clientapi])

    One exchange over the local endpoint: the request is written, one bounded
    frame is read back and decoded strictly, and the answer must echo the
    identifier and hold only approved states, error codes and diagnostics.  The
    transport, the identifier source and the JSON codec are parameters; a
    context's cancellation closes the connection, which the transport shows as an
    error. *)
From S2P Require Import Prelude GoText TraceEvent AccessModel.
From S2P Require Controller LineProbe LocalApi PipeServer TraceRecorder.

#[local] Open Scope string_scope.
#[local] Open Scope Z_scope.

Definition ErrorUnauthorized : string := "account_unauthorized".

Inductive ClientError :=
| ErrServiceUnavailable (detail : string)
| ErrRequestID (detail : string)
| ErrResponseTooLarge
| ErrInvalidResponseShape
| ErrMismatchedResponseID
| ErrRequestRejected (code : string)
| ErrInvalidResponseState
| ErrInvalidResponseCode
| ErrInvalidRequest
| ErrContext (text : string)
| ErrMarshal (text : string).

Record Status := mkStatus {
  State : string;
  ErrorCode : string;
  Message : string;
  Phase : string;
  Step : Z;
  TotalSteps : Z;
  ElapsedMS : Z
}.

Record Diagnostics := mkDiagnostics {
  DState : string;
  DErrorCode : string;
  DMessage : string;
  DGeneration : Z;
  DStage : string;
  DDetail : string
}.

(** ** Approval of what the service answers *)
Definition isApprovedState (state : string) : bool :=
  LocalApi.one_of state (map state_string
    [StatePreparing; StatePrepared; StateConnecting; StateConnected; StateRestoring; StateFailedSafe]).

Definition approved_codes : list string := [
  ""; PipeServer.ErrorInvalidAction; PipeServer.ErrorInvalidRequest; Controller.ErrorInvalidPolicy;
  Controller.ErrorInvalidBinary; Controller.ErrorCredential; Controller.ErrorExpiredCredential;
  Controller.ErrorPreparedUnavailable; Controller.ErrorVPNConflict; Controller.ErrorNetworkChanged;
  Controller.ErrorNetworkCapture; Controller.ErrorFirewallEnable; Controller.ErrorFirewallVerify;
  Controller.ErrorPublicTCPBlock; Controller.ErrorRender; Controller.ErrorCoreStart;
  Controller.ErrorCoreNotReady; Controller.ErrorTUNNotFound; Controller.ErrorTUNIdentityMismatch;
  Controller.ErrorRouteActivationFailed; Controller.ErrorReadinessLost; Controller.ErrorRestoreFailed;
  Controller.ErrorAutomaticRestore; Controller.ErrorCanceled; ErrorUnauthorized].

Definition isApprovedErrorCode (code : string) : bool := LocalApi.one_of code approved_codes.

Definition isApprovedDiagnostic (stage detail : string) : bool :=
  if stage =?s "" then detail =?s ""
  else
    if negb (existsb (fun candidate => stage =?s candidate) ApprovedStages) || (detail =?s "")
       || (MaxDetailBytes <? len detail)
    then false
    else negb (existsb (fun p => (p.1 <? 32) || (p.1 =? 127)) (runes detail)).

(** The events of a received batch; the result is the last sequence number. *)
Fixpoint accept_events (oldest previous : Z) (l : list Event) : option Z :=
  match l with
  | [] => Some previous
  | ev :: rest =>
      if negb (bool_decide (TraceEvent.Validate ev = None)) || (EvSequence ev <=? previous) then None
      else if negb (oldest =? 0) && (EvSequence ev <? oldest) then None
      else accept_events oldest (EvSequence ev) rest
  end.

(** The checks of [decodeTraceMessage] on the decoded batch. *)
Definition accept_batch (batch : Batch) (after : Z) : bool :=
  match accept_events (BatchOldestSequence batch) after (BatchEvents batch) with
  | None => false
  | Some _ =>
      match last (BatchEvents batch) with
      | None => (BatchNextSequence batch =? after) && negb (BatchHasMore batch)
      | Some ev => BatchNextSequence batch =? EvSequence ev
      end
  end.

(** ** The exchange *)
Class ClientSystem := {
  CWorld : Type;
  CHandle : Type;
  client_requestID : CWorld -> (string + string) * CWorld;
  client_dial : bool -> CWorld -> (CHandle + string) * CWorld;
  client_SetDeadline : CHandle -> CWorld -> option string * CWorld;
  client_Write : CHandle -> string -> CWorld -> option string * CWorld;
  client_stream : CHandle -> CWorld -> PipeServer.Connection * CWorld;
  client_ctx_Err : CWorld -> option string * CWorld;
  json_Marshal_v1_request : LocalApi.Request -> string + string;
  json_Marshal_pipe_request : PipeServer.Request -> string + string;
  json_Decode_pipe_response : string -> (PipeServer.Response * string) + string;
  json_Decode_batch : string -> (Batch * string) + string;
  json_Decode_diagnostics : string -> (Diagnostics * string) + string
}.

Definition readBoundedFrame (c : PipeServer.Connection) (limit : Z) : string + ClientError :=
  let '(frame, err) := PipeServer.ReadBytes limit c in
  if limit <? len frame then inr ErrResponseTooLarge
  else match err with
  | Some e => inr (ErrServiceUnavailable e)
  | None =>
      if (len frame =? 0) || negb (PipeServer.ends_in_newline frame) then inr ErrInvalidResponseShape
      else inl (PipeServer.without_last frame)
  end.

Section Client.
Context `{CS : ClientSystem, LJ : LocalApi.Json}.

Definition CM : Type -> Type := StateM CWorld.

(** A single JSON value, decoded strictly. *)
Definition decode_strict {A} (decode : string -> (A * string) + string) (text : string) : option A :=
  match decode text with
  | inr _ => None
  | inl (value, rest) =>
      match LocalApi.json_Decode_extra rest with LocalApi.ExtraEOF => Some value | _ => None end
  end.

Definition decodeResponse (frame : string) : PipeServer.Response + ClientError :=
  match decode_strict json_Decode_pipe_response frame with
  | Some response => inl response
  | None => inr ErrInvalidResponseShape
  end.

Definition decodeTraceMessage (message : string) (after : Z) : Batch + ClientError :=
  match decode_strict json_Decode_batch message with
  | Some batch => if accept_batch batch after then inl batch else inr ErrInvalidResponseShape
  | None => inr ErrInvalidResponseShape
  end.

Definition decodeDiagnosticsMessage (message : string) : Diagnostics + ClientError :=
  match decode_strict json_Decode_diagnostics message with
  | None => inr ErrInvalidResponseShape
  | Some d =>
      if negb (isApprovedState (DState d)) then inr ErrInvalidResponseState
      else if negb (isApprovedErrorCode (DErrorCode d)) then inr ErrInvalidResponseCode
      else if negb (isApprovedDiagnostic (DStage d) (DDetail d)) then inr ErrInvalidResponseShape
      else inl d
  end.

(** An exchange of one frame each way, up to the bounded frame that came back;
    [failure] chooses the error of a failed read. *)
Definition exchange (connection : CHandle) (limit : Z) (frame : string)
    (failure : ClientError -> CM ClientError) : CM (string + ClientError) :=
  if limit <? len frame + 1 then mret (inr ErrInvalidResponseShape)
  else
    err ← (client_Write connection (frame ++s LocalApi.newline) : CM (option string));
    match err with
    | Some e => mret (inr (ErrServiceUnavailable e))
    | None =>
        c ← (client_stream connection : CM PipeServer.Connection);
        match readBoundedFrame c limit with
        | inl response => mret (inl response)
        | inr e => e' ← failure e; mret (inr e')
        end
    end.

Definition requestV1Response (action : string) (durationMinutes : Z)
  : CM (LocalApi.Response + ClientError) :=
  id ← (client_requestID : CM (string + string));
  match id with
  | inr e => mret (inr (ErrRequestID e))
  | inl id =>
      connection ← (client_dial (action =?s LocalApi.ActionDiagnosticEnable) : CM (CHandle + string));
      match connection with
      | inr e => mret (inr (ErrServiceUnavailable e))
      | inl connection =>
          err ← (client_SetDeadline connection : CM (option string));
          match err with
          | Some e => mret (inr (ErrServiceUnavailable e))
          | None =>
              match json_Marshal_v1_request (LocalApi.mkRequest LocalApi.Version id action durationMinutes) with
              | inr e => mret (inr (ErrMarshal e))
              | inl frame =>
                  answer ← exchange connection LocalApi.MaxFrameBytes frame
                    (fun e => ctx ← (client_ctx_Err : CM (option string));
                              mret (match ctx with Some text => ErrContext text | None => e end));
                  mret (match answer with
                        | inr e => inr e
                        | inl responseFrame =>
                            match LocalApi.DecodeResponse responseFrame id with
                            | inr LocalApi.ErrMismatchedResponseID => inr ErrMismatchedResponseID
                            | inr _ => inr ErrInvalidResponseShape
                            | inl response =>
                                if LocalApi.RespErrorCode response =?s "" then inl response
                                else inr (ErrRequestRejected (LocalApi.RespErrorCode response))
                            end
                        end)
              end
          end
      end
  end.

Definition DiagnosticEnableV1 (minutes : Z) : CM (option ClientError) :=
  if negb (minutes =? 15) && negb (minutes =? 30) && negb (minutes =? 60) then mret (Some ErrInvalidRequest)
  else answer ← requestV1Response LocalApi.ActionDiagnosticEnable minutes;
       mret (match answer with inl _ => None | inr e => Some e end).

(** The identifier and the approvals of an answer of the pipe protocol. *)
Definition accept_response (requestID : string) (response : PipeServer.Response)
  : PipeServer.Response + ClientError :=
  if negb (PipeServer.RespID response =?s requestID) then inr ErrMismatchedResponseID
  else if negb (isApprovedState (PipeServer.RespState response)) then inr ErrInvalidResponseState
  else if negb (isApprovedErrorCode (PipeServer.RespErrorCode response)) then inr ErrInvalidResponseCode
  else inl response.

Definition request (req : PipeServer.Request) : CM (PipeServer.Response + ClientError) :=
  id ← (client_requestID : CM (string + string));
  match id with
  | inr e => mret (inr (ErrRequestID e))
  | inl requestID =>
      connection ← (client_dial false : CM (CHandle + string));
      match connection with
      | inr e => mret (inr (ErrServiceUnavailable e))
      | inl connection =>
          err ← (client_SetDeadline connection : CM (option string));
          match err with
          | Some e => mret (inr (ErrServiceUnavailable e))
          | None =>
              let req := PipeServer.mkRequest requestID (PipeServer.ReqAction req)
                           (PipeServer.AfterSequence req) (PipeServer.Limit req) in
              match json_Marshal_pipe_request req with
              | inr e => mret (inr (ErrMarshal e))
              | inl frame =>
                  answer ← exchange connection PipeServer.MaxPipeFrameBytes frame mret;
                  mret (match answer with
                        | inr e => inr e
                        | inl responseFrame =>
                            match decodeResponse responseFrame with
                            | inr e => inr e
                            | inl response => accept_response requestID response
                            end
                        end)
              end
          end
      end
  end.

Definition requestStatus (action : string) : CM (Status + ClientError) :=
  answer ← request (PipeServer.mkRequest "" action 0 0);
  mret (match answer with
        | inr e => inr e
        | inl r => inl (mkStatus (PipeServer.RespState r) (PipeServer.RespErrorCode r)
                          (PipeServer.RespMessage r) "" 0 0 0)
        end).

Definition GetDiagnostics : CM (Diagnostics + ClientError) :=
  answer ← request (PipeServer.mkRequest "" PipeServer.ActionDiagnostics 0 0);
  mret (match answer with
        | inr e => inr e
        | inl r =>
            match decodeDiagnosticsMessage (PipeServer.RespMessage r) with
            | inr e => inr e
            | inl d =>
                if negb (PipeServer.RespState r =?s DState d) || negb (PipeServer.RespErrorCode r =?s DErrorCode d)
                then inr ErrInvalidResponseShape else inl d
            end
        end).

Definition Trace (after limit : Z) : CM (Batch + ClientError) :=
  if (limit <? 0) || (PipeServer.TraceMaxLimit <? limit) then mret (inr ErrInvalidResponseShape)
  else
    answer ← request (PipeServer.mkRequest "" PipeServer.ActionTrace after limit);
    mret (match answer with
          | inr e => inr e
          | inl r => decodeTraceMessage (PipeServer.RespMessage r) after
          end).
End Client.

(** ** Trace batches from the recorder to the client *)
Lemma valid_events_ok oldest previous l :
  oldest <> 0 -> StronglySorted TraceRecorder.seq_lt l ->
  Forall (fun e => TraceEvent.Validate e = None /\ previous < EvSequence e /\ oldest <= EvSequence e) l ->
  exists p, PipeServer.valid_trace_events oldest previous l = Some p.
Proof.
  intros Ho Hs. revert previous. induction Hs as [|e l Hs IH He]; intros previous Hf; [by exists previous|].
  apply Forall_cons in Hf as [(Hv & Hp & Hge) Hf]. cbn [PipeServer.valid_trace_events].
  rewrite Hv, (proj2 (Z.leb_gt _ _)), (proj2 (Z.eqb_neq _ _)), (proj2 (Z.ltb_ge _ _)) by done.
  cbn [bool_decide negb orb]. apply IH. rewrite Forall_forall in Hf, He |- *.
  intros x Hx. destruct (Hf x Hx) as (H1 & H2 & H3). split_and!; [done|by apply He|done].
Qed.

(** The client checks no more than the server. *)
Lemma accept_events_valid oldest previous l p :
  PipeServer.valid_trace_events oldest previous l = Some p -> accept_events oldest previous l = Some p.
Proof.
  revert previous. induction l as [|e l IH]; intros previous; [done|].
  cbn [PipeServer.valid_trace_events accept_events]. destruct (negb _ || _); [done|].
  destruct (oldest =? 0); [done|]. cbn [negb andb orb]. destruct (EvSequence e <? oldest); [done|]. apply IH.
Qed.

Lemma valid_accepted batch after limit :
  PipeServer.validTraceBatch batch after limit = true -> accept_batch batch after = true.
Proof.
  unfold PipeServer.validTraceBatch, accept_batch. destruct (_ <? _); [done|].
  destruct (PipeServer.valid_trace_events _ _ _) as [p|] eqn:E; [|done].
  by rewrite (accept_events_valid _ _ _ _ E).
Qed.

Lemma recorder_batch_valid config r after limit :
  TraceRecorder.memory_ok config r -> 0 < limit ->
  PipeServer.validTraceBatch (TraceRecorder.Batch_ r after limit) after limit = true.
Proof.
  intros (_ & Hs & Hf & _) Hl.
  destruct (TraceRecorder.events r) as [|first l] eqn:E.
  { unfold TraceRecorder.Batch_. rewrite E. unfold PipeServer.validTraceBatch. cbn.
    rewrite (proj2 (Z.ltb_ge _ _)), Z.eqb_refl by lia. done. }
  assert (Ho : BatchOldestSequence (TraceRecorder.Batch_ r after limit) = EvSequence first).
  { unfold TraceRecorder.Batch_. rewrite E, (proj2 (Z.leb_gt _ _)) by done.
    rewrite TraceRecorder.batch_loop_spec; cbn; [done|lia|done|done]. }
  destruct (TraceRecorder.Batch_spec r after limit Hl) as (He & Hn & Hm).
  set (page := take (Z.to_nat limit) (TraceRecorder.newer after (TraceRecorder.events r))) in *.
  unfold PipeServer.validTraceBatch. rewrite He, Hn, Ho.
  replace (limit <? Z.of_nat (length page)) with false
    by (symmetry; apply Z.ltb_ge; unfold page; rewrite length_take; lia).
  assert (Hpage : forall e, e ∈ page -> after < EvSequence e /\ e ∈ first :: l).
  { intros e He'. apply TraceRecorder.take_elem in He'. unfold TraceRecorder.newer in He'.
    rewrite E in He'. by apply list_elem_of_filter in He'. }
  rewrite <- E in Hs. pose proof (TraceRecorder.sorted_newer after _ Hs) as Hsn.
  assert (Hsp : StronglySorted TraceRecorder.seq_lt page).
  { unfold page. revert Hsn. generalize (TraceRecorder.newer after (TraceRecorder.events r)). intros k Hk.
    revert Hk. generalize (Z.to_nat limit) as n. induction k as [|x k IH]; intros n Hk; [rewrite take_nil; constructor|].
    destruct n as [|n]; [constructor|]. inversion Hk as [|? ? Hk' Hx]; subst. cbn [take]. constructor; [by apply IH|].
    rewrite Forall_forall in Hx |- *. intros y Hy. by apply Hx, (TraceRecorder.take_elem _ n). }
  rewrite Forall_forall in Hf. rewrite E in Hs. apply StronglySorted_inv in Hs as [_ Hfirst].
  rewrite Forall_forall in Hfirst.
  destruct (valid_events_ok (EvSequence first) after page) as [p Hp].
  - destruct (Hf first ltac:(set_solver)) as [[? _] _]. lia.
  - done.
  - apply Forall_forall. intros e He'. destruct (Hpage e He') as [Ha Hin].
    split_and!; [by apply Hf|done|]. apply elem_of_cons in Hin as [->|Hin]; [lia|].
    specialize (Hfirst e Hin). unfold TraceRecorder.seq_lt in Hfirst. lia.
  - rewrite Hp. unfold TraceRecorder.last_sequence. destruct (last page) as [ev|] eqn:El; [apply Z.eqb_refl|].
    apply last_None in El. rewrite Hm, Z.eqb_refl.
    rewrite bool_decide_false; [done|]. unfold page in El. intros Hlt.
    destruct (TraceRecorder.newer after _) as [|x k]; [cbn in Hlt; lia|].
    destruct (Z.to_nat limit) eqn:En; [lia|discriminate].
Qed.

(** Every batch that a recorder hands out passes the check of the server, and it
    and every non-empty prefix of it pass the check of the client. *)
Theorem recorder_batches_are_accepted config r after limit count :
  TraceRecorder.memory_ok config r -> 0 < limit -> (0 < count)%nat ->
  let batch := TraceRecorder.Batch_ r after limit in
  PipeServer.validTraceBatch batch after limit = true /\ accept_batch batch after = true /\
  accept_batch (PipeServer.trimmed batch after count) after = true.
Proof.
  intros Hr Hl Hc batch. pose proof (recorder_batch_valid config r after limit Hr Hl) as Hv.
  split_and!; [done|by eapply valid_accepted|].
  eapply valid_accepted. by apply (PipeServer.trimmed_valid batch after limit count).
Qed.

Section ClientProperties.
Context `{CS : ClientSystem, LJ : LocalApi.Json}.

(** What an answer must be for the client to use it: it echoes the identifier
    that this exchange sent and holds an approved state and error code. *)
Definition approved_answer (id : string) (r : PipeServer.Response) : Prop :=
  PipeServer.RespID r = id /\ isApprovedState (PipeServer.RespState r) = true /\
  isApprovedErrorCode (PipeServer.RespErrorCode r) = true.

Lemma accept_response_spec id response r :
  accept_response id response = inl r <-> response = r /\ approved_answer id r.
Proof.
  unfold accept_response, approved_answer.
  destruct (PipeServer.RespID response =?s id)%go eqn:E1; cbn [negb]; bool_to_prop.
  2: { split; [done|]. intros [-> [? _]]. done. }
  destruct (isApprovedState _) eqn:E2; cbn [negb].
  2: { split; [done|]. intros [-> (_ & ? & _)]. congruence. }
  destruct (isApprovedErrorCode _) eqn:E3; cbn [negb].
  - split; [by intros [= ->]|by intros [-> _]].
  - split; [done|]. intros [-> (_ & _ & ?)]. congruence.
Qed.

(** Whatever the other end of the pipe sends, a request returns either an error or
    an answer to itself, with an approved state and an approved error code. *)
Theorem request_returns_approved_answers req w :
  match (request req w).1 with
  | inl r => exists id, (client_requestID w).1 = inl id /\ approved_answer id r
  | inr _ => True
  end.
Proof.
  unfold request, mbind, StateM_bind. destruct (client_requestID w) as [[id|e] w1]; [|done].
  destruct (client_dial false w1) as [[connection|e] w2]; [|done].
  destruct (client_SetDeadline connection w2) as [[e|] w3]; [done|].
  cbv zeta. destruct (json_Marshal_pipe_request _) as [frame|e]; [|done].
  destruct (exchange connection _ frame mret w3) as [[responseFrame|e] w4]; [|done].
  cbn [fst mret StateM_ret]. destruct (decodeResponse responseFrame) as [response|e]; [|done].
  destruct (accept_response id response) as [r|e] eqn:Ea; [|done].
  apply accept_response_spec in Ea as [_ Ha]. eauto.
Qed.

Lemma readBoundedFrame_line c f rest limit :
  0 <= limit -> PipeServer.stream c = f ++s String PipeServer.newline_byte rest ->
  string_all (fun a => negb (Ascii.eqb a PipeServer.newline_byte)) f = true -> len f + 1 <= limit ->
  readBoundedFrame c limit = inl f.
Proof.
  intros Hl Hs Hf Hn. unfold readBoundedFrame. rewrite (PipeServer.ReadBytes_line limit c f rest) by (done || lia).
  assert (Hll : len (f ++s String PipeServer.newline_byte EmptyString) = len f + 1) by (by rewrite len_app).
  rewrite Hll, (proj2 (Z.ltb_ge _ _)) by lia. pose proof (len_nonneg f).
  rewrite (proj2 (Z.eqb_neq _ _)) by lia. unfold PipeServer.ends_in_newline. rewrite has_suffix_app.
  cbn [orb negb]. unfold PipeServer.without_last. rewrite string_length_app. cbn [String.length].
  replace (String.length f + 1 - 1)%nat with (String.length f) by lia.
  rewrite PipeServer.string_take_app, Nat.sub_diag by done. unfold string_take. cbn. by rewrite string_app_nil_r.
Qed.

(** A reply that the server encodes reaches the client unchanged: the bytes it
    writes are read as one frame and decoded to the same response, for the
    request with the identifier that the server answered. *)
Theorem encoded_reply_reaches_the_client request response body data c rest :
  PipeServer.reply_ok request response -> LocalApi.validID (LocalApi.ReqID request) = true ->
  LocalApi.json_Marshal_response response = inl body ->
  LocalApi.json_Decode_response body = inl (response, "") ->
  LocalApi.json_Decode_extra "" = LocalApi.ExtraEOF ->
  string_all (fun a => negb (Ascii.eqb a PipeServer.newline_byte)) body = true ->
  LocalApi.EncodeResponse response = inl data ->
  PipeServer.stream c = data ++s rest ->
  readBoundedFrame c LocalApi.MaxFrameBytes = inl body /\
  LocalApi.DecodeResponse body (LocalApi.ReqID request) = inl response.
Proof.
  intros (Hv & Hid & Hs & Hp) Hvid Hm Hd He Hnl Henc Hc.
  unfold LocalApi.EncodeResponse in Henc. rewrite Hp, Hm in Henc. cbn [negb] in Henc.
  destruct (LocalApi.MaxFrameBytes <? len body + 1) eqn:El; [done|]. injection Henc as <-. bool_to_prop.
  split.
  - apply (readBoundedFrame_line c body rest); [done| |done|done].
    rewrite Hc, string_app_assoc. done.
  - unfold LocalApi.DecodeResponse, LocalApi.decodeOne. rewrite (proj2 (Z.ltb_ge _ _)) by lia.
    rewrite Hd, He, Hv, Hid, Hvid, Hs, Hp. cbn [negb orb]. by rewrite String.eqb_refl.
Qed.
End ClientProperties.

(** ** A concrete client *)
Definition demo_pipe_response : PipeServer.Response :=
  PipeServer.short_response "id-1" "connected" "" "".

Definition demo_client : ClientSystem := {|
  CWorld := string;
  CHandle := unit;
  client_requestID w := (inl "id-1", w);
  client_dial _ w := (inl tt, w);
  client_SetDeadline _ w := (None, w);
  client_Write _ _ w := (None, w);
  client_stream _ w := (PipeServer.mkConnection w "EOF" (fun _ => true), w);
  client_ctx_Err w := (None, w);
  json_Marshal_v1_request _ := inl "{}";
  json_Marshal_pipe_request _ := inl "{}";
  json_Decode_pipe_response f := if f =?s "ok" then inl (demo_pipe_response, "") else inr "syntax";
  json_Decode_batch _ := inr "syntax";
  json_Decode_diagnostics _ := inr "syntax"
|}.

(** It accepts the answer to its own request and nothing else. *)
Example demo_request :
  let get s := (@request demo_client PipeServer.demo_json (PipeServer.mkRequest "" "status" 0 0) s).1 in
  get ("ok" ++s LocalApi.newline) = inl demo_pipe_response /\
  get "ok" = inr (ErrServiceUnavailable "EOF") /\
  get ("no" ++s LocalApi.newline) = inr ErrInvalidResponseShape.
Proof. vm_compute. done. Qed.

Lemma recorder_batches_are_accepted_witness :
  let batch := PipeServer.demo_batch in
  length (BatchEvents batch) = 3%nat /\
  (PipeServer.validTraceBatch batch 0 32 = true /\ accept_batch batch 0 = true /\
   accept_batch (PipeServer.trimmed batch 0 2) 0 = true).
Proof.
  split; [vm_compute; reflexivity|].
  apply (recorder_batches_are_accepted TraceRecorder.demo_config (TraceRecorder.rec TraceRecorder.demo_run) 0 32 2);
    [exact TraceRecorder.demo_memory_ok|reflexivity|lia].
Defined.

Definition demo_v1_response : LocalApi.Response :=
  LocalApi.mkResponse 1 "r1" (LocalApi.mkStatus "idle" "unknown" "" "" 0) "" 0 false [].

Definition demo_codec : LocalApi.Json := {|
  LocalApi.json_Decode_request _ := inr "syntax";
  LocalApi.json_Decode_response _ := inl (demo_v1_response, "");
  LocalApi.json_Decode_extra _ := LocalApi.ExtraEOF;
  LocalApi.json_Marshal_response _ := inl "{}"
|}.

Lemma encoded_reply_reaches_the_client_witness :
  let c := PipeServer.mkConnection ("{}" ++s LocalApi.newline) "EOF" (fun _ => true) in
  readBoundedFrame c LocalApi.MaxFrameBytes = inl "{}" /\
  @LocalApi.DecodeResponse demo_codec "{}" "r1" = inl demo_v1_response.
Proof.
  apply (@encoded_reply_reaches_the_client demo_codec (PipeServer.demo_request "status") demo_v1_response "{}"
           ("{}" ++s LocalApi.newline) _ ""); try (vm_compute; reflexivity).
  split; [reflexivity|]. split; [reflexivity|]. split; vm_compute; reflexivity.
Defined.
