(* ===== verification/ControllerView.v ===== *)
(** * What the controller shows to its clients

    In every interleaving of [Lifecycle.v] the status, the diagnostics and the
    line quality of the controller are values that the clients of the service
    accept ([ClientApi.v], [LocalApi.v]); the instance of [HandlerLaws] at the
    end discharges the promises on which the server of [PipeServer.v] relies. *)
From stdpp Require Import relations.
From S2P Require Import Prelude GoText TraceEvent AccessModel Controller ControllerSpec ControllerWrites Lifecycle.
From S2P Require LocalApi PipeServer ClientApi LineScheduler ControllerDemo.

#[local] Open Scope string_scope.
#[local] Open Scope Z_scope.
#[local] Open Scope list_scope.

(** ** Statuses *)
Lemma known_code_approved code : known_code code = true -> ClientApi.isApprovedErrorCode code = true.
Proof.
  unfold known_code. rewrite existsb_exists. intros ([c m] & Hin & Heq). apply String.eqb_eq in Heq. cbn [fst] in Heq. subst c. revert Hin.
  unfold failureMessages. cbn [In]. intros Hin.
  repeat (destruct Hin as [[= <- <-]|Hin]; [vm_compute; reflexivity|]). destruct Hin.
Qed.

Section View.
Context `{Environment}.

(** The code of a status is one that clients approve, and so is its state,
    except before the first transition. *)
Definition status_ok (s : Status) : Prop :=
  ClientApi.isApprovedErrorCode (StatusErrorCode s) = true /\
  (StatusState s = StateDisconnected \/ ClientApi.isApprovedState (state_string (StatusState s)) = true).

Definition ctl_ok (c : Controller) : Prop :=
  status_ok (status c) /\
  ClientApi.isApprovedDiagnostic (diagnosticStage c) (diagnosticDetail c) = true /\
  lineQuality c ∈ LocalApi.valid_qualities.

Lemma safeFailure_ok code : known_code code = true -> status_ok (safeFailure code).
Proof. intros Hc. split; [by apply known_code_approved|right; reflexivity]. Qed.

Lemma failedSafe_ok : status_ok failedSafeStatus.
Proof. split; [reflexivity|right; reflexivity]. Qed.

Lemma prepared_ok message : status_ok (preparedStatus message).
Proof. split; [reflexivity|right; reflexivity]. Qed.

Lemma canceled_ok s : status_ok s -> status_ok (canceledStatus s).
Proof. intros [_ Hs]. split; [reflexivity|exact Hs]. Qed.

Lemma connect_returns_ok c out : connect_returns c out -> status_ok (co_status out).
Proof.
  intros (ctx & gen & t0 & s & _ & _ & <-).
  destruct (runConnect_wp ctx gen t0 s) as (t & _ & Hr & _). revert Hr.
  generalize (runConnect ctx gen t0 s).1. intros out Hr.
  assert (Hrb : forall stop snap r, rolled_back stop snap r out -> status_ok (co_status out)).
  { intros stop snap r [_ Hro]. destruct r.
    - destruct Hro as ((code & Hk & ->) & _). by apply safeFailure_ok.
    - destruct Hro as (-> & _). apply failedSafe_ok. }
  destruct Hr as [? code Hk| |? ? ? (He & Hcode & _)|]; [by apply safeFailure_ok|eauto| |eauto].
  split; [by rewrite Hcode|right; by rewrite He].
Qed.

Lemma disconnect_returns_ok recovery c out : disconnect_returns recovery c out -> status_ok (do_status out).
Proof.
  intros (ctx & gen & s & _ & <-).
  destruct (runDisconnect_wp ctx gen recovery s) as (t & _ & _ & _ & ->).
  destruct (do_restored _); [apply prepared_ok|apply failedSafe_ok].
Qed.

Lemma restore_returns_ok k out : restore_returns k out -> status_ok (do_status out).
Proof.
  intros (ctx & gen & s & <-).
  apply (wp_restoreTransaction ctx gen (cap_started k) (cap_instance k) (cap_snapshot k)
           (cap_hasSnapshot k) (fun out _ => status_ok (do_status out))).
  intros out s' t _ _ _ ->. destruct (do_restored out); [apply prepared_ok|apply failedSafe_ok].
Qed.

Lemma monitorFailureCode_known reason : known_code (monitorFailureCode reason) = true.
Proof. unfold monitorFailureCode. repeat case_match; reflexivity. Qed.

(** ** Diagnostics *)
Lemma clean_no_control s :
  string_all clean_byte s = true -> existsb (fun p => (p.1 <? 32) || (p.1 =? 127)) (runes s) = false.
Proof.
  intros Hs. rewrite string_all_runes in Hs.
  2: apply clean_byte_high.
  apply not_true_is_false. intros Hex. apply existsb_exists in Hex as ([r raw] & Hin & Hr).
  rewrite forallb_forall in Hs. specialize (Hs _ Hin). cbn [fst] in *.
  pose proof (runes_nonneg s) as Hn. rewrite Forall_forall in Hn.
  apply list_elem_of_In in Hin. specialize (Hn _ Hin). cbn [fst] in Hn.
  assert (Hlow : r < 128) by (apply orb_true_iff in Hr as [?|?]; bool_to_prop; lia).
  rewrite (proj2 (Z.ltb_lt r 128)) in Hs by done. cbn [negb orb] in Hs.
  unfold clean_byte in Hs. rewrite byte_val_of in Hs by lia.
  apply orb_true_iff in Hr as [?|?]; bool_to_prop; lia.
Qed.

Lemma approved_stage_cases (P : string -> Prop) :
  Forall P ApprovedStages -> forall stage, string_in ApprovedStages stage = true -> P stage.
Proof.
  rewrite Forall_forall. intros HP stage Hs. unfold string_in in Hs. apply existsb_exists in Hs as (x & Hx & Heq).
  apply String.eqb_eq in Heq as ->. by apply HP, list_elem_of_In.
Qed.

(** The detail used when the sanitizer leaves nothing. *)
Lemma fallback_detail_approved stage :
  string_in ApprovedStages stage = true ->
  ClientApi.isApprovedDiagnostic stage ("阶段 " ++s stage ++s " 失败") = true.
Proof. revert stage. apply approved_stage_cases. repeat constructor; vm_compute; reflexivity. Qed.

Lemma approved_stage_nonempty stage : string_in ApprovedStages stage = true -> stage <> "".
Proof. revert stage. apply (approved_stage_cases (fun stage => stage <> "")). repeat (constructor; [intros [=]|]). constructor. Qed.

Lemma sanitized_detail_approved stage detail :
  string_in ApprovedStages stage = true -> sanitized_ok detail -> detail <> "" ->
  ClientApi.isApprovedDiagnostic stage detail = true.
Proof.
  intros Hst [Hl Hc] Hd. unfold ClientApi.isApprovedDiagnostic.
  apply approved_stage_nonempty in Hst as Hne. apply String.eqb_neq in Hne as ->.
  change (existsb (fun candidate => stage =?s candidate)%go ApprovedStages) with (string_in ApprovedStages stage).
  rewrite Hst. apply String.eqb_neq in Hd as ->. rewrite (proj2 (Z.ltb_ge _ _)) by done.
  cbn [negb orb]. by rewrite clean_no_control.
Qed.

Lemma normalize_approved stage fallback :
  string_in ApprovedStages fallback = true ->
  string_in ApprovedStages (normalizeDiagnosticStage stage fallback) = true.
Proof.
  intros Hf. unfold normalizeDiagnosticStage.
  match goal with |- context [if string_in ?l stage then _ else _] => change l with ApprovedStages end.
  destruct (string_in ApprovedStages stage) eqn:E; [done|].
  destruct (string_in ["ip_interface_scan"; "adapter_identity_join"] stage); [reflexivity|exact Hf].
Qed.

Lemma diagnostic_of_approved fallback err :
  string_in ApprovedStages fallback = true ->
  ClientApi.isApprovedDiagnostic (diagnostic_of fallback err).1 (diagnostic_of fallback err).2 = true.
Proof.
  intros Hf. unfold diagnostic_of.
  set (p := match err with Some e => _ | None => (fallback, "") end).
  assert (Hp : string_in ApprovedStages p.1 = true).
  { unfold p. destruct err as [e|]; [|done]. destruct (error_diagnostic e) as [[stage detail]|]; [|done].
    by apply normalize_approved. }
  destruct p as [stage detail]. cbn [fst] in Hp. cbv zeta. cbn [fst snd].
  match goal with |- context [SanitizeDetail ?d []] => generalize d end. intros d.
  pose proof (SanitizeDetail_ok d []) as Hs.
  destruct ((SanitizeDetail d []).1 =?s "")%go eqn:E; bool_to_prop.
  - by apply fallback_detail_approved.
  - by apply sanitized_detail_approved.
Qed.

(** ** The invariant *)
Definition payload_ok (t : Thread) : Prop :=
  match t with
  | TConnectDone _ _ out => status_ok (co_status out)
  | TStartMonitor _ _ s | TReturned s => status_ok s
  | TDisconnectDone _ _ out => status_ok (do_status out)
  | TRestore _ code _ | TRestoreRun _ code _ _ _ => known_code code = true
  | TRestoreDone _ code _ out _ => known_code code = true /\ status_ok (do_status out)
  | _ => True
  end.

Definition view_ok (k : Config) : Prop := ctl_ok (ctrl k.1) /\ Forall payload_ok k.2.

Lemma restore_write_ok c c' : restore_write c c' -> ctl_ok c -> ctl_ok c'.
Proof.
  intros [stage err c0 Hst|c0] (Hs & Hd & Hq); [|done]. split_and!; [done| |done].
  by apply diagnostic_of_approved.
Qed.

Lemma connect_write_ok c c' : connect_write c c' -> ctl_ok c -> ctl_ok c'.
Proof.
  intros [c0 c1 Hw|phase step elapsed c0 _ _|sn c0] Hc; [by eapply restore_write_ok|..|done].
  destruct Hc as (_ & Hd & Hq). split_and!; [|done|done]. split; [reflexivity|right; reflexivity].
Qed.

Lemma unknown_valid : LineQualityUnknown ∈ LocalApi.valid_qualities.
Proof. left. Qed.

Lemma UpdateLineQuality_ok gen q c : ctl_ok c -> ctl_ok (UpdateLineQuality gen q c).1.
Proof.
  intros (Hs & Hd & Hq). unfold UpdateLineQuality. destruct (string_in _ q) eqn:E; [|done].
  destruct (StatusState (status c)); try done. destruct (gen =? generation c); [|done].
  split_and!; [done|done|]. apply LocalApi.one_of_elem. exact E.
Qed.

Lemma connect_finish_ok gen out now mon c c' b :
  connect_finish gen out now mon c = (c', b) -> ctl_ok c -> status_ok (co_status out) -> ctl_ok c'.
Proof.
  intros Hf (Hs & Hd & Hq) Ho. unfold connect_finish in Hf. cbv zeta in Hf. injection Hf as <- _.
  destruct (StatusState (co_status out)), (generation c =? gen), (co_restored out); cbn [andb]; done.
Qed.

Lemma disconnect_finish_ok gen out c :
  ctl_ok c -> status_ok (do_status out) -> ctl_ok (disconnect_finish gen out c).
Proof.
  intros (Hs & Hd & Hq) Ho. unfold disconnect_finish.
  destruct (generation c =? gen), (do_restored out); split_and!; done.
Qed.

Lemma restore_finish_ok gen code out c :
  ctl_ok c -> known_code code = true -> status_ok (do_status out) -> ctl_ok (restore_finish gen code out c).
Proof.
  intros (Hs & Hd & Hq) Hk Ho. unfold restore_finish.
  destruct (generation c =? gen), (do_restored out); split_and!; try done. by apply safeFailure_ok.
Qed.


Lemma connect_begin_ok ch c : ctl_ok (connect_begin ch c).
Proof. split_and!; [split; [reflexivity|right; reflexivity]|reflexivity|apply unknown_valid]. Qed.

Lemma disconnect_begin_ok ch c : ctl_ok c -> ctl_ok (disconnect_begin ch c).
Proof. intros (_ & Hd & _). split_and!; [split; [reflexivity|right; reflexivity]|done|apply unknown_valid]. Qed.

Lemma restore_begin_ok ch c : ctl_ok c -> ctl_ok (restore_begin ch c).1.
Proof. intros (_ & Hd & _). split_and!; [split; [reflexivity|right; reflexivity]|done|apply unknown_valid]. Qed.

Lemma after_restore_ok mon : payload_ok (after_restore mon).
Proof. by destruct mon. Qed.

Lemma entry_status c s :
  connect_entry c = EntryReturn s \/ (exists recovery, disconnect_entry recovery c = EntryReturn s) -> s = status c.
Proof.
  intros [He|[recovery He]].
  - unfold connect_entry in He. destruct (transition c); [done|].
    destruct (StatusState (status c)); congruence.
  - unfold disconnect_entry in He. destruct (transition c); [done|]. destruct (_ && _ && _ && _); congruence.
Qed.

Lemma tstep_view fail t g t' g' sp :
  tstep fail t g t' g' sp -> ctl_ok (ctrl g) -> payload_ok t ->
  ctl_ok (ctrl g') /\ payload_ok t' /\ Forall payload_ok sp.
Proof.
  intros Ht Hc Hp.
  destruct Ht; cbn [ctrl with_ctrl alloc close_chan cancel_monitor payload_ok] in *;
    split_and!; try exact I; try exact Hc; try exact Hp; try (apply Forall_nil; exact I);
    try apply after_restore_ok.
  - erewrite (entry_status (ctrl g) s) by eauto. apply Hc.
  - by destruct (TransitionKind t =?s "connect")%go.
  - apply connect_begin_ok.
  - apply Hc.
  - apply canceled_ok, Hc.
  - apply canceled_ok, Hc.
  - by eapply connect_write_ok.
  - by eapply connect_returns_ok.
  - by eapply connect_finish_ok.
  - by eapply connect_finish_ok.
  - by repeat constructor.
  - subst c. destruct Hc as (Hs & _ & Hq). split_and!; [done|by apply diagnostic_of_approved|done].
  - by repeat constructor.
  - erewrite (entry_status (ctrl g) s) by eauto. apply Hc.
  - by apply disconnect_begin_ok.
  - apply canceled_ok, Hc.
  - by eapply disconnect_returns_ok.
  - by eapply restore_write_ok.
  - by eapply disconnect_returns_ok.
  - by apply disconnect_finish_ok.
  - apply monitorFailureCode_known.
  - replace c with (restore_begin (next g) (ctrl g)).1 by (by rewrite H1). by apply restore_begin_ok.
  - by eapply restore_write_ok.
  - by eapply restore_returns_ok.
  - destruct Hp. by apply restore_finish_ok.
  - by apply UpdateLineQuality_ok.
Qed.

Lemma step_view fail k k' : step fail k k' -> view_ok k -> view_ok k'.
Proof.
  intros [g l1 t l2 g' t' sp Ht|g ts t Hr] [Hc Hts]; cbn [fst snd] in *.
  - apply Forall_app in Hts as [H1 [Hp H2]%Forall_cons_1].
    destruct (tstep_view fail t g t' g' sp Ht Hc Hp) as (Hc' & Hp' & Hsp). split; [done|].
    cbn [snd]. apply Forall_app. split; [done|]. apply Forall_cons. split; [done|]. by apply Forall_app.
  - split; [done|]. cbn [snd]. apply Forall_app. split; [done|]. repeat constructor. by destruct t.
Qed.

Lemma reachable_view fail k : reachable fail k -> view_ok k.
Proof.
  intros Hr. unfold reachable in Hr.
  assert (Hi : view_ok initial).
  { split; [|constructor]. split_and!; [split; [reflexivity|by left]|reflexivity|apply unknown_valid]. }
  revert Hi. induction Hr as [|k1 k2 k3 Hs _ IH]; [done|]. intros Hv. apply IH. by eapply step_view.
Qed.
End View.

(** ** The service as its clients see it

    The server reads the controller and the scheduler at different moments, while
    their threads go on: what it will observe is a list of configurations, of
    which every read takes the next one. *)
Section Service.
Context `{Environment} (fail : bool).

Definition Observed : Type := Config * LineScheduler.Scheduler.

Definition observe {A} (f : Observed -> A) : StateM (list Observed) A :=
  fun w => match w with
           | [] => (f (initial, LineScheduler.NewScheduler), [])
           | x :: w => (f x, w)
           end.

Definition shown_status (x : Observed) : Status := status (ctrl x.1.1).

Definition observed_controller : PipeServer.PipeController := {|
  PipeServer.PW := list Observed;
  PipeServer.pc_Connect := observe shown_status;
  PipeServer.pc_Disconnect := observe shown_status;
  PipeServer.pc_Status := observe shown_status;
  PipeServer.pc_Diagnostics := observe (fun x => PipeServer.Diagnostics_of (ctrl x.1.1));
  PipeServer.pc_LocalStatusSnapshot := Some (observe (fun x => PipeServer.LocalStatusSnapshot_of (ctrl x.1.1)))
|}.

Definition observed_probes : PipeServer.ProbeOps (@PipeServer.PW observed_controller) :=
  PipeServer.mkProbeOps (observe (fun _ => tt)) (observe (fun x => LineScheduler.snapshotLocked x.2)).

Definition possible_history (w : @PipeServer.PW observed_controller) : Prop :=
  Forall (fun x : Observed => reachable fail x.1 /\ LineScheduler.reachable 599 x.2) w.

Lemma observe_possible {A} (f : Observed -> A) (Q : A -> Prop) :
  (forall x : Observed, reachable fail x.1 -> LineScheduler.reachable 599 x.2 -> Q (f x)) ->
  triple possible_history (observe f) (fun a w => possible_history w /\ Q a).
Proof.
  intros HQ w Hw. destruct w as [|x w]; cbn.
  - split; [done|]. apply HQ; [apply rtc_refl|constructor].
  - apply Forall_cons in Hw as [[Hx Hx'] Hw]. split; [done|by apply HQ].
Qed.

Lemma observe_keeps {A} (f : Observed -> A) : triple possible_history (observe f) (fun _ => possible_history).
Proof.
  eapply triple_weaken; [apply (observe_possible f (fun _ => True)); done|done|]. by intros a w [? _].
Qed.

#[export] Instance observed_laws (probe : bool) (enable : option (Z -> Observed -> option string)) :
  @PipeServer.HandlerLaws observed_controller possible_history
    (if probe then Some observed_probes else None)
    (option_map (fun e d => observe (e d)) enable).
Proof.
  split.
  - apply observe_keeps.
  - apply observe_keeps.
  - apply (observe_possible (fun x => PipeServer.LocalStatusSnapshot_of (ctrl x.1.1))
             (fun snap => PipeServer.LSQuality snap ∈ "" :: LocalApi.valid_qualities)).
    intros x Hx _. apply reachable_view in Hx as [(_ & _ & Hq) _]. by right.
  - intros ops Ho. destruct probe; [|done]. injection Ho as <-. apply observe_keeps.
  - intros ops Ho. destruct probe; [|done]. injection Ho as <-.
    apply (observe_possible (fun x => LineScheduler.snapshotLocked x.2) PipeServer.probes_ok).
    intros x _ Hx. apply LineScheduler.scheduler_inv in Hx; [|done]. apply (LineScheduler.inv_last _ _ Hx).
  - intros e d He. destruct enable as [e0|]; [|done]. injection He as <-. apply observe_keeps.
Qed.
End Service.

(** ** Properties *)
Section Properties.
Context `{Environment}.

(** In every interleaving, the client approves the answer to a status, connect or
    disconnect request of a service whose controller has done a first
    transition; before that the answer is refused, because "disconnected"
    is not among the approved states. *)
Theorem clients_accept_the_controller fail k id s :
  reachable fail k -> s = status (ctrl k.1) \/ TReturned s ∈ k.2 ->
  ClientApi.accept_response id (PipeServer.responseFromStatus id s) =
    if bool_decide (StatusState s = StateDisconnected) then inr ClientApi.ErrInvalidResponseState
    else inl (PipeServer.responseFromStatus id s).
Proof.
  intros Hr Hs. apply reachable_view in Hr as [[Hc _] Ht].
  assert (Hok : status_ok s).
  { destruct Hs as [->|Hs]; [done|]. rewrite Forall_forall in Ht. exact (Ht _ Hs). }
  destruct Hok as [Hcode Hstate]. unfold ClientApi.accept_response. cbn [PipeServer.responseFromStatus
    PipeServer.RespID PipeServer.RespState PipeServer.RespErrorCode].
  rewrite String.eqb_refl. cbn [negb]. case_bool_decide as Hd.
  - rewrite Hd. reflexivity.
  - destruct Hstate as [?|Hstate]; [done|]. by rewrite Hstate, Hcode.
Qed.

(** In every interleaving, the diagnostics that the controller shows are the ones a
    client accepts: an approved error code, and either no stage and no detail or an
    approved stage with a bounded detail free of control characters. *)
Theorem diagnostics_are_always_presentable fail k :
  reachable fail k ->
  let d := PipeServer.Diagnostics_of (ctrl k.1) in
  ClientApi.isApprovedErrorCode (PipeServer.DiagErrorCode d) = true /\
  ClientApi.isApprovedDiagnostic (PipeServer.DiagStage d) (PipeServer.DiagDetail d) = true.
Proof. intros Hr d. apply reachable_view in Hr as [([Hc _] & Hd & _) _]. by split. Qed.

End Properties.

(** ** Witnesses *)
Lemma clients_accept_the_controller_witness :
  ClientApi.accept_response "r" (PipeServer.responseFromStatus "r" (status (ctrl ControllerDemo.demo_begun.1)))
    = inl (PipeServer.responseFromStatus "r" (status (ctrl ControllerDemo.demo_begun.1))) /\
  ClientApi.accept_response "r" (PipeServer.responseFromStatus "r" (status (ctrl (@initial ControllerDemo.Demo).1)))
    = inr ClientApi.ErrInvalidResponseState.
Proof.
  split.
  - apply (clients_accept_the_controller false ControllerDemo.demo_begun "r"
             (status (ctrl ControllerDemo.demo_begun.1)) (ControllerDemo.demo_begun_reachable false)). by left.
  - apply (clients_accept_the_controller false (@initial ControllerDemo.Demo) "r"
             (status (ctrl (@initial ControllerDemo.Demo).1)) (rtc_refl _ _)). by left.
Defined.

Lemma diagnostics_are_always_presentable_witness :
  let d := PipeServer.Diagnostics_of (ctrl ControllerDemo.demo_begun.1) in
  ClientApi.isApprovedErrorCode (PipeServer.DiagErrorCode d) = true /\
  ClientApi.isApprovedDiagnostic (PipeServer.DiagStage d) (PipeServer.DiagDetail d) = true.
Proof.
  apply (diagnostics_are_always_presentable false ControllerDemo.demo_begun (ControllerDemo.demo_begun_reachable false)).
Defined.

Definition demo_history : list (Config * LineScheduler.Scheduler) :=
  [(ControllerDemo.demo_begun, LineScheduler.after LineScheduler.demo_first)].

