(* ===== verification/DiagnosticGate.v ===== *)
(** * The diagnostic mode ([internal/diagnosticmode/gate.go])

    A temporary recorder of trace events that an administrator enables for 15, 30
    or 60 minutes, and the line framing of the output of the core.  The gate
    runs on the recorder of [TraceRecorder.v]; what the file system answers when
    a recorder is created is a parameter.  The output states are shared objects,
    identified by their position in a store; position 0 is the gate's own. *)
From S2P Require Import Prelude GoText TraceEvent TraceRecorder.

#[local] Open Scope string_scope.
#[local] Open Scope Z_scope.
#[local] Open Scope list_scope.

(** ** State *)
Record outputState := mkOutput { pending : string; dropping : bool }.

(** What [os.Stat] finds: a directory or not, or an error. *)
Inductive StatResult := StatIs (directory : bool) | StatNotExist | StatError (text : string).

Class DirSystem `{TraceSystem} := {
  sys_stat_parent : TWorld -> StatResult * TWorld;
  sys_stat_directory : TWorld -> StatResult * TWorld;
  sys_Mkdir : TWorld -> option string * TWorld
}.

(** [expiry] is the epoch for which the timer was started. *)
Record Gate := mkGate {
  recorder : option Recorder;
  deadline : Z;
  expiry : option Z;
  epoch : Z;
  gate_closed : bool;
  store : list outputState;
  streams : list nat
}.

Definition gate_newline : ascii := byte_of 10.

(** ** Framing of the output *)
Definition clear (s : outputState) : outputState :=
  mkOutput "" (dropping s || (0 <? len (pending s))).

(** A write while the mode is off keeps only whether it ended a line. *)
Fixpoint last_byte (s : string) : option ascii :=
  match s with
  | EmptyString => None
  | String a EmptyString => Some a
  | String _ rest => last_byte rest
  end.

Definition off_write (s : outputState) (data : string) : outputState :=
  match last_byte data with
  | Some b => mkOutput (pending s) (negb (Ascii.eqb b gate_newline))
  | None => s
  end.

(** One byte while the mode is on: the state and the line that it completes. *)
Definition on_byte (s : outputState) (b : ascii) : outputState * option string :=
  if Ascii.eqb b gate_newline then
    (mkOutput "" false, if negb (dropping s) && (0 <? len (pending s)) then Some (pending s) else None)
  else if negb (dropping s) then
    if MaxDetailBytes <=? len (pending s) then (mkOutput "" true, None)
    else (mkOutput (pending s ++s String b EmptyString) (dropping s), None)
  else (s, None).

(** The event of a line. *)
Definition output_event (line : string) : Event :=
  mkEvent 0 0 0 true 0 LevelInfo ComponentCore StageCoreReady EventState None
    "数据面进程输出" line false None.

Section Gate.
Context `{DS : DirSystem} (config : RecorderConfig).

Record GS := mkGS { gate : Gate; gworld : TWorld; gops : list FileOp }.

Definition GM : Type -> Type := StateM GS.

Definition on_gate (f : Gate -> Gate) : GM unit := puts (fun s => mkGS (f (gate s)) (gworld s) (gops s)).
Definition get_gate {A} (f : Gate -> A) : GM A := gets (fun s => f (gate s)).
Definition gsystem {A} (op : TWorld -> A * TWorld) : GM A :=
  fun s => let '(x, w) := op (gworld s) in (x, mkGS (gate s) w (gops s)).

Definition set_recorder (r : option Recorder) (g : Gate) : Gate :=
  mkGate r (deadline g) (expiry g) (epoch g) (gate_closed g) (store g) (streams g).
Definition set_store (l : list outputState) (g : Gate) : Gate :=
  mkGate (recorder g) (deadline g) (expiry g) (epoch g) (gate_closed g) l (streams g).
Definition set_streams (l : list nat) (g : Gate) : Gate :=
  mkGate (recorder g) (deadline g) (expiry g) (epoch g) (gate_closed g) (store g) l.
Definition set_gate_closed (g : Gate) : Gate :=
  mkGate (recorder g) (deadline g) (expiry g) (epoch g) true (store g) (streams g).

(** Runs an operation of a recorder on the world of the gate. *)
Definition with_recorder {A} (r : Recorder) (m : RM A) (s : GS) : A * RS :=
  m (mkRS r (gworld s) (gops s)).

(** [g.recorder.op()] *)
Definition call_recorder {A} (none : A) (m : RM A) : GM A :=
  fun s => match recorder (gate s) with
           | Some r => let '(x, rs) := with_recorder r m s in
                       (x, mkGS (set_recorder (Some (rec rs)) (gate s)) (tworld rs) (ops rs))
           | None => (none, s)
           end.

(** [New] is inert: nothing but the configuration. *)
Definition New : Gate := mkGate None 0 None 0 false [mkOutput "" false] [].

(** [traceevent.NewRecorder]: the checks of the configuration and of the
    directory. *)
Definition new_recorder : GM (Recorder + string) :=
  if negb (config_ok config) then mret (inr "trace recorder configuration is invalid")
  else
    parent ← gsystem sys_stat_parent;
    match parent with
    | StatIs true =>
        info ← gsystem sys_stat_directory;
        match info with
        | StatIs true => mret (inl NewRecorder)
        | StatIs false => mret (inr "trace path is not a directory")
        | StatError err => mret (inr err)
        | StatNotExist =>
            err ← gsystem sys_Mkdir;
            mret (match err with Some e => inr e | None => inl NewRecorder end)
        end
    | _ => mret (inr "trace directory parent is unavailable")
    end.

Definition clear_streams (g : Gate) : Gate :=
  set_store (foldr (fun i l => alter clear i l) (alter clear 0%nat (store g)) (streams g)) g.

Definition offLocked : GM (option string) :=
  on_gate (fun g => mkGate (recorder g) (deadline g) None (uint64_incr (epoch g)) (gate_closed g)
                      (store g) (streams g)) ;;
  on_gate clear_streams ;;
  err ← call_recorder None Close;
  on_gate (set_recorder None) ;;
  mret err.

Definition enabledLocked (now : Z) : GM bool :=
  g ← get_gate (fun g => g);
  (if bool_decide (is_Some (recorder g)) && negb (now <? deadline g)
   then _ ← offLocked; mret tt else mret tt) ;;
  g ← get_gate (fun g => g);
  mret (negb (gate_closed g) && bool_decide (is_Some (recorder g))).

Definition Enable (now duration : Z) : GM (option string) :=
  if negb (duration =? 15 * Minute) && negb (duration =? 30 * Minute) && negb (duration =? 60 * Minute)
  then mret (Some "diagnostic duration must be 15, 30, or 60 minutes")
  else
    isClosed ← get_gate gate_closed;
    if isClosed : bool then mret (Some "diagnostic mode is closed")
    else
      _ ← enabledLocked now;
      r ← get_gate recorder;
      err ← match r with
            | Some _ => mret None
            | None =>
                made ← new_recorder;
                match made with
                | inl r => on_gate (set_recorder (Some r)) ;; mret None
                | inr err => mret (Some err)
                end
            end;
      match err with
      | Some e => mret (Some e)
      | None =>
          on_gate (fun g => mkGate (recorder g) (now + duration) (Some (uint64_incr (epoch g)))
                              (uint64_incr (epoch g)) (gate_closed g) (store g) (streams g)) ;;
          mret None
      end.

(** The function of the timer started for epoch [e]; it may run late. *)
Definition expire (e : Z) : GM unit :=
  current ← get_gate epoch;
  if current =? e then _ ← offLocked; mret tt else mret tt.

Definition Enabled (now : Z) : GM bool := enabledLocked now.

Definition gate_Record (event : Event) : GM unit :=
  now ← gsystem sys_Now;
  on ← enabledLocked now;
  if on : bool then call_recorder tt (Record_ config event) else mret tt.

Definition gate_Batch (after limit : Z) : GM Batch :=
  now ← gsystem sys_Now;
  on ← enabledLocked now;
  if on : bool then
    r ← get_gate recorder;
    mret (match r with Some r => Batch_ r after limit | None => mkBatch [] after false 0 end)
  else mret (mkBatch [] after false 0).

(** The loop over the bytes of a write. *)
Fixpoint write_loop (s : outputState) (data : string) : GM outputState :=
  match data with
  | EmptyString => mret s
  | String b rest =>
      let '(s', line) := on_byte s b in
      match line with
      | Some line => call_recorder tt (Record_ config (output_event line))
      | None => mret tt
      end ;;
      write_loop s' rest
  end.

Definition writeLocked (i : nat) (data : string) : GM Z :=
  now ← gsystem sys_Now;
  on ← enabledLocked now;
  s ← get_gate (fun g => default (mkOutput "" false) (store g !! i));
  s' ← (if on : bool then write_loop s data else mret (off_write s data));
  on_gate (fun g => set_store (<[i := s']> (store g)) g) ;;
  mret (len data).

(** [g.Write] writes to the gate's own state, an output stream to its own. *)
Definition Write (data : string) : GM Z := writeLocked 0 data.

Definition NewOutputStream : GM nat :=
  i ← get_gate (fun g => length (store g));
  on_gate (fun g => set_streams (streams g ++ [i]) (set_store (store g ++ [mkOutput "" false]) g)) ;;
  mret i.

(** The first occurrence is removed. *)
Fixpoint remove_first (i : nat) (l : list nat) : list nat :=
  match l with
  | [] => []
  | j :: rest => if (j =? i)%nat then rest else j :: remove_first i rest
  end.

Definition CloseStream (i : nat) : GM unit :=
  on_gate (fun g => set_streams (remove_first i (streams g)) (set_store (alter clear i (store g)) g)).

Definition gate_Close : GM (option string) := on_gate set_gate_closed ;; offLocked.
End Gate.

(** ** What is recorded of the output

    A stream is observed with its history: the bytes written to it while the mode
    was on or off, and the moments when the mode was switched on and off.
    [session] counts the switches off. *)
Inductive StreamStep := TurnOn | TurnOff | Wrote (data : string).

(** The tag of a byte: the session in which it was written, if the mode was on. *)
Definition Tagged : Type := ascii * option nat.

Definition tag_of (on : bool) (session : nat) : option nat := if on then Some session else None.

Fixpoint feed (s : outputState) (data : string) : outputState * list string :=
  match data with
  | EmptyString => (s, [])
  | String b rest =>
      let '(s', line) := on_byte s b in
      let '(s'', lines) := feed s' rest in
      (s'', match line with Some l => l :: lines | None => lines end)
  end.

(** The lines that are recorded along a history. *)
Fixpoint recorded (on : bool) (s : outputState) (history : list StreamStep) : list string :=
  match history with
  | [] => []
  | TurnOn :: rest => recorded true s rest
  | TurnOff :: rest => recorded false (clear s) rest
  | Wrote data :: rest =>
      if on then let '(s', lines) := feed s data in lines ++ recorded on s' rest
      else recorded on (off_write s data) rest
  end.

(** All the bytes of a history, with their tags. *)
Fixpoint bytes_of (on : bool) (session : nat) (history : list StreamStep) : list Tagged :=
  match history with
  | [] => []
  | TurnOn :: rest => bytes_of true session rest
  | TurnOff :: rest => bytes_of false (S session) rest
  | Wrote data :: rest =>
      map (fun b => (b, tag_of on session)) (String.list_ascii_of_string data) ++ bytes_of on session rest
  end.

(** The complete lines of a sequence of bytes, each with the tag of its newline. *)
Fixpoint lines_of (cur : list Tagged) (l : list Tagged) : list (list Tagged * option nat) :=
  match l with
  | [] => []
  | (b, t) :: rest =>
      if Ascii.eqb b gate_newline then (cur, t) :: lines_of [] rest else lines_of (cur ++ [(b, t)]) rest
  end.

Definition line_text (l : list Tagged) : string := String.string_of_list_ascii (map fst l).

(** A line to record: not empty, within the bound, and written, newline
    included, during one session. *)
Definition whole_line (line : list Tagged * option nat) : bool :=
  negb (length line.1 =? 0)%nat && (Z.of_nat (length line.1) <=? MaxDetailBytes)
  && bool_decide (is_Some line.2) && forallb (fun p => bool_decide (p.2 = line.2)) line.1.

Definition recordable (l : list (list Tagged * option nat)) : list string :=
  map (fun line => line_text line.1) (filter (fun line => whole_line line = true) l).

(** A line that can never be recorded any more. *)
Definition doomed (session : nat) (cur : list Tagged) : Prop :=
  MaxDetailBytes < Z.of_nat (length cur) \/
  exists p, p ∈ cur /\ match p.2 with None => True | Some t => (t < session)%nat end.

Definition tags_until (session : nat) (cur : list Tagged) : Prop :=
  Forall (fun p => match p.2 with None => True | Some t => (t <= session)%nat end) cur.

Definition stream_inv (on : bool) (session : nat) (s : outputState) (cur : list Tagged) : Prop :=
  tags_until session cur /\
  if dropping s then pending s = "" /\ doomed session cur
  else pending s = line_text cur /\ Z.of_nat (length cur) <= MaxDetailBytes /\
       (cur = [] \/ on = true /\ Forall (fun p => p.2 = Some session) cur).

Section Streams.
Lemma line_text_length cur : len (line_text cur) = Z.of_nat (length cur).
Proof.
  unfold line_text, len. induction cur as [|p cur IH]; [done|]. cbn [map String.string_of_list_ascii String.length length]. lia.
Qed.

Lemma line_text_snoc cur b t : line_text (cur ++ [(b, t)]) = line_text cur ++s String b EmptyString.
Proof.
  unfold line_text. induction cur as [|p cur IH]; [done|].
  cbn [app map String.string_of_list_ascii String.append]. by rewrite IH.
Qed.

Lemma doomed_snoc session cur p : doomed session cur -> doomed session (cur ++ [p]).
Proof.
  intros [Hl|(q & Hq & Ht)]; [left; rewrite length_app; cbn; lia|]. right. exists q. split; [set_solver|done].
Qed.

Lemma doomed_mono session session' cur : (session <= session')%nat -> doomed session cur -> doomed session' cur.
Proof.
  intros Hs [Hl|(q & Hq & Ht)]; [by left|]. right. exists q. split; [done|]. destruct q.2; [lia|done].
Qed.

(** A doomed line is not recorded, whatever the tag of its newline. *)
Lemma doomed_not_whole on session cur : doomed session cur -> whole_line (cur, tag_of on session) = false.
Proof.
  intros Hd. apply not_true_is_false. unfold whole_line. cbn [fst snd]. intros Hw. bool_to_prop.
  destruct Hd as [Hl|(q & Hq & Ht)]; [lia|]. rewrite forallb_forall in H0.
  apply list_elem_of_In in Hq. specialize (H0 q Hq). apply bool_decide_eq_true in H0. rewrite H0 in Ht.
  apply bool_decide_eq_true in H1. destruct on; cbn in *; [lia|by destruct H1].
Qed.

Lemma on_byte_inv session s cur b :
  stream_inv true session s cur ->
  let '(s', line) := on_byte s b in
  if Ascii.eqb b gate_newline then
    stream_inv true session s' [] /\
    line = (if whole_line (cur, Some session) then Some (line_text cur) else None)
  else stream_inv true session s' (cur ++ [(b, Some session)]) /\ line = None.
Proof.
  intros [Ht Hs]. unfold on_byte. destruct (Ascii.eqb b gate_newline).
  - split; [split; [constructor|]; cbn; split_and!; [done|done|by left]|].
    destruct (dropping s); cbn [negb andb].
    + change (Some session) with (tag_of true session). by rewrite doomed_not_whole by apply Hs.
    + destruct Hs as (-> & Hl & Hcur). rewrite line_text_length. unfold whole_line. cbn [fst snd].
      rewrite bool_decide_true by eauto. destruct Hcur as [->|[_ Hf]]; [done|].
      rewrite (proj2 (Z.leb_le _ _)) by done. destruct cur as [|p cur]; [done|].
      rewrite (proj2 (forallb_forall _ _)); [done|]. intros q Hq. apply bool_decide_eq_true.
      rewrite Forall_forall in Hf. by apply Hf, list_elem_of_In.
  - assert (Ht' : tags_until session (cur ++ [(b, Some session)])).
    { apply Forall_app. split; [done|]. by repeat constructor. }
    destruct (dropping s) eqn:Ed; cbn [negb].
    + split; [|done]. split; [done|]. rewrite Ed. split; [apply Hs|]. apply doomed_snoc, Hs.
    + destruct Hs as (Hp & Hl & Hcur). rewrite Hp, line_text_length.
      destruct (MaxDetailBytes <=? _) eqn:El; bool_to_prop; (split; [|done]); (split; [done|]); cbn [dropping pending].
      * split; [done|]. left. rewrite length_app. cbn. lia.
      * split_and!; [by rewrite line_text_snoc|rewrite length_app; cbn; lia|].
        right. split; [done|]. apply Forall_app. split; [|by repeat constructor].
        destruct Hcur as [->|[_ Hf]]; [constructor|done].
Qed.

Lemma feed_inv session s cur data :
  stream_inv true session s cur ->
  let tagged := map (fun b => (b, Some session)) (String.list_ascii_of_string data) in
  let '(s', lines) := feed s data in
  exists cur', stream_inv true session s' cur' /\ lines = recordable (lines_of cur tagged) /\
    forall rest, lines_of cur (tagged ++ rest) = lines_of cur tagged ++ lines_of cur' rest.
Proof.
  revert s cur. induction data as [|b data IH]; intros s cur Hs; cbn [feed String.list_ascii_of_string map]; cbv zeta.
  { exists cur. done. }
  pose proof (on_byte_inv session s cur b Hs) as Hb. destruct (on_byte s b) as [s1 line].
  destruct (Ascii.eqb b gate_newline) eqn:Eb; destruct Hb as [Hs1 ->].
  - specialize (IH s1 [] Hs1). destruct (feed s1 data) as [s2 lines]. destruct IH as (cur' & Hs2 & -> & Hr).
    exists cur'. split; [done|]. cbn [lines_of app]. rewrite Eb. split.
    + unfold recordable. rewrite filter_cons. destruct (whole_line (cur, Some session)) eqn:Ew;
        [rewrite decide_True by done|rewrite decide_False by congruence]; done.
    + intros rest. cbn [app]. by rewrite Hr.
  - specialize (IH s1 _ Hs1). destruct (feed s1 data) as [s2 lines]. destruct IH as (cur' & Hs2 & -> & Hr).
    exists cur'. cbn [lines_of app]. rewrite Eb. split; [done|]. split; [done|]. intros rest. by rewrite Hr.
Qed.
End Streams.

(** *** Writes while the mode is off *)
Section OffStreams.
Lemma last_byte_some c s : exists b, last_byte (String c s) = Some b.
Proof. revert c. induction s as [|d s IH]; intros c; [by exists c|]. destruct (IH d) as [b Hb]. by exists b. Qed.

(** The bytes of a line left open by a write that the mode did not see. *)
Lemma off_lines session cur data :
  let tagged := map (fun b => (b, None : option nat)) (String.list_ascii_of_string data) in
  recordable (lines_of cur tagged) = [] /\
  exists cur',
    (forall rest, lines_of cur (tagged ++ rest) = lines_of cur tagged ++ lines_of cur' rest) /\
    (tags_until session cur -> tags_until session cur') /\
    match last_byte data with
    | None => cur' = cur
    | Some b => if Ascii.eqb b gate_newline then cur' = [] else doomed session cur'
    end.
Proof.
  revert cur. induction data as [|b data IH]; intros cur; cbn [String.list_ascii_of_string map lines_of]; cbv zeta.
  { split; [done|]. by exists cur. }
  destruct (Ascii.eqb b gate_newline) eqn:Eb.
  - destruct (IH []) as (Hr & cur' & Hl & Ht & Hd). split.
    + assert (Hw : whole_line (cur, None) = false).
      { unfold whole_line. cbn [fst snd]. rewrite bool_decide_false by (intros [? [=]]). by rewrite andb_false_r. }
      unfold recordable. rewrite filter_cons, decide_False by congruence. exact Hr.
    + exists cur'. cbn [app lines_of]. rewrite Eb. split; [intros rest; cbn [app]; by rewrite Hl|].
      split; [intros _; apply Ht; constructor|].
      destruct data as [|c data]; [cbn [last_byte] in Hd |- *; rewrite ?Eb; exact Hd|].
      change (last_byte (String b (String c data))) with (last_byte (String c data)).
      destruct (last_byte_some c data) as [x Hx]. by rewrite Hx in Hd |- *.
  - destruct (IH (cur ++ [(b, None)])) as (Hr & cur' & Hl & Ht & Hd). split; [exact Hr|].
    exists cur'. cbn [app lines_of]. rewrite Eb. split; [exact Hl|]. split.
    + intros Hc. apply Ht. apply Forall_app. split; [done|]. by repeat constructor.
    + destruct data as [|c data].
      2: { change (last_byte (String b (String c data))) with (last_byte (String c data)).
           destruct (last_byte_some c data) as [x Hx]. by rewrite Hx in Hd |- *. }
      cbn [last_byte] in Hd |- *. rewrite ?Eb. subst cur'.
      right. exists (b, None). split; [set_solver|done].
Qed.

Lemma clear_inv on session s cur :
  stream_inv on session s cur -> stream_inv false (S session) (clear s) cur.
Proof.
  intros [Ht Hs]. split.
  { eapply Forall_impl; [exact Ht|]. intros [b [t|]]; cbn; lia. }
  unfold clear. cbn [dropping pending]. destruct (dropping s); cbn [orb].
  - split; [done|]. eapply doomed_mono; [|apply Hs]. lia.
  - destruct Hs as (-> & Hl & Hcur). rewrite line_text_length.
    destruct (0 <? Z.of_nat (length cur)) eqn:E; bool_to_prop.
    + split; [done|]. destruct Hcur as [->|[_ Hf]]; [cbn in E; lia|]. right.
      destruct cur as [|p cur]; [cbn in E; lia|]. exists p. split; [left|].
      apply Forall_cons in Hf as [-> _]. lia.
    + destruct cur as [|p cur]; [|cbn in E; lia]. split_and!; [done|done|by left].
Qed.

Lemma off_write_inv session s cur data :
  stream_inv false session s cur ->
  let tagged := map (fun b => (b, None : option nat)) (String.list_ascii_of_string data) in
  exists cur', stream_inv false session (off_write s data) cur' /\
    recordable (lines_of cur tagged) = [] /\
    forall rest, lines_of cur (tagged ++ rest) = lines_of cur tagged ++ lines_of cur' rest.
Proof.
  intros [Ht Hs] tagged. destruct (off_lines session cur data) as (Hr & cur' & Hl & Ht' & Hd).
  exists cur'. split; [|by split]. unfold off_write.
  assert (Hp : pending s = "").
  { destruct (dropping s); [apply Hs|]. destruct Hs as (-> & _ & [->|[? _]]); done. }
  destruct (last_byte data) as [b|]; [|subst cur'; by split].
  split; [by apply Ht'|]. cbn [dropping pending]. destruct (Ascii.eqb b gate_newline); cbn [negb].
  - subst cur'. split_and!; [done|done|by left].
  - by split.
Qed.

Lemma turn_on_inv on session s cur : stream_inv on session s cur -> stream_inv true session s cur.
Proof. intros [Ht Hs]. split; [done|]. destruct (dropping s); [done|]. naive_solver. Qed.

Lemma recordable_app l l' : recordable (l ++ l') = recordable l ++ recordable l'.
Proof. unfold recordable. by rewrite filter_app, map_app. Qed.

Lemma recorded_spec history on session s cur :
  stream_inv on session s cur ->
  recorded on s history = recordable (lines_of cur (bytes_of on session history)).
Proof.
  revert on session s cur. induction history as [|h history IH]; intros on session s cur Hs; [done|].
  destruct h as [| |data]; cbn [recorded bytes_of].
  - apply IH. by eapply turn_on_inv.
  - apply IH. by eapply clear_inv.
  - destruct on; cbn [tag_of].
    + pose proof (feed_inv session s cur data Hs) as Hf. cbv zeta in Hf. destruct (feed s data) as [s' lines].
      destruct Hf as (cur' & Hs' & -> & Hl). rewrite Hl, recordable_app. f_equal. by apply IH.
    + destruct (off_write_inv session s cur data Hs) as (cur' & Hs' & Hr & Hl).
      rewrite Hl, recordable_app, Hr. cbn [app]. by apply IH.
Qed.
End OffStreams.

Section GateProofs.
Context `{DS : DirSystem} (config : RecorderConfig).

(** ** The code records what [feed] says *)
Definition record_lines (lines : list string) : GM unit :=
  fun s => (tt, fold_left (fun s line => (call_recorder tt (Record_ config (output_event line)) s).2) lines s).

Lemma write_loop_feed st data s :
  write_loop config st data s = ((feed st data).1, (record_lines (feed st data).2 s).2).
Proof.
  revert st s. induction data as [|b data IH]; intros st s; cbn [write_loop feed]; [done|].
  destruct (on_byte st b) as [st1 line]. specialize (IH st1).
  destruct (feed st1 data) as [st2 lines]. unfold mbind, StateM_bind.
  destruct line as [line|].
  - destruct (call_recorder tt (Record_ config (output_event line)) s) as [[] s1] eqn:E.
    rewrite IH. cbn [fst snd record_lines fold_left]. by rewrite E.
  - cbn [mret StateM_ret]. by rewrite IH.
Qed.
End GateProofs.

Section GateProperties.
Context `{DS : DirSystem} (config : RecorderConfig).

Lemma stream_new on session : stream_inv on session (mkOutput "" false) [].
Proof. split; [constructor|]. cbn. split_and!; [done|done|by left]. Qed.

(** Closing the recorder does not touch the trace directory. *)
Lemma Close_ops : keeps ops Close.
Proof.
  unfold Close, closeFileLocked, get_rec, on_rec. apply keeps_bind; [apply keeps_gets|]. intros [|]; [apply keeps_ret|].
  apply keeps_bind; [by apply keeps_puts|]. intros [].
  apply keeps_bind; [apply keeps_gets|]. intros [f|]; [|apply keeps_ret].
  assert (Hsys : forall A (op : TWorld -> A * TWorld), keeps ops (system op)).
  { intros A op s. unfold system. by destruct (op (tworld s)). }
  apply keeps_bind; [by apply keeps_puts|]. intros [].
  apply keeps_bind; [apply Hsys|]. intros err. destruct (real_error err).
  - apply keeps_bind; [apply Hsys|]. intros ?. apply keeps_ret.
  - apply keeps_bind; [apply Hsys|]. intros ?. apply keeps_ret.
Qed.

Lemma offLocked_spec s :
  let s' := (offLocked s).2 in
  recorder (gate s') = None /\ expiry (gate s') = None /\ gops s' = gops s /\
  gate_closed (gate s') = gate_closed (gate s) /\ streams (gate s') = streams (gate s) /\
  store (gate s') = store (clear_streams (gate s)).
Proof.
  unfold offLocked, on_gate, call_recorder, with_recorder, mbind, StateM_bind, puts. cbv zeta. cbn [gate gworld gops].
  pose proof Close_ops as Hops.
  destruct (recorder (clear_streams _)) as [r|] eqn:Er; [|done].
  specialize (Hops (mkRS r (gworld s) (gops s))). destruct (Close _) as [err rs]. cbn in Hops |- *.
  by rewrite Hops.
Qed.

Lemma enabled_spec now s :
  let on := match recorder (gate s) with Some _ => now <? deadline (gate s) | None => false end in
  (enabledLocked now s).1 = negb (gate_closed (gate s)) && on /\
  (enabledLocked now s).2 = if on || negb (bool_decide (is_Some (recorder (gate s)))) then s else (offLocked s).2.
Proof.
  unfold enabledLocked, get_gate, gets, mbind, StateM_bind. cbv zeta.
  destruct (recorder (gate s)) as [r|] eqn:Er.
  - rewrite bool_decide_true by eauto. cbn [andb]. destruct (now <? deadline (gate s)) eqn:En; cbn [negb orb].
    + cbn. rewrite Er. by rewrite bool_decide_true by eauto.
    + destruct (offLocked_spec s) as (Hr & _ & _ & Hc & _). destruct (offLocked s) as [err s1]. cbn in *.
      by rewrite Hr, Hc, bool_decide_false by (by intros [? [=]]).
  - rewrite bool_decide_false by (by intros [? [=]]). cbn. by rewrite Er, bool_decide_false by (by intros [? [=]]).
Qed.

(** ** Properties *)

(** The output of the core is recorded by whole lines only: whatever the
    boundaries of the writes and the moments when the mode goes on and off, the
    recorded lines are exactly the non-empty lines of at most [MaxDetailBytes]
    bytes that were written, newline included, during one session of the mode.
    The loop of the program hands out these lines as events, in order. *)
Theorem output_is_recorded_by_whole_lines :
  (forall on history,
     recorded on (mkOutput "" false) history = recordable (lines_of [] (bytes_of on 0 history))) /\
  (forall st data s,
     write_loop config st data s = ((feed st data).1, (record_lines config (feed st data).2 s).2)).
Proof.
  split.
  - intros on history. apply recorded_spec, stream_new.
  - intros st data s. apply write_loop_feed.
Qed.

(** The mode ends at its deadline, whether or not its timer has run: from then on an
    event is not recorded, no trace file is written and readers get nothing; the
    unfinished lines of the output are forgotten. *)
Theorem mode_ends_at_its_deadline s event after limit :
  deadline (gate s) <= (sys_Now (gworld s)).1 ->
  let s' := (gate_Record config event s).2 in
  recorder (gate s') = None /\ gops s' = gops s /\
  (is_Some (recorder (gate s)) -> store (gate s') = store (clear_streams (gate s))) /\
  (gate_Batch after limit s).1 = mkBatch [] after false 0.
Proof.
  intros Hd. unfold gate_Record, gate_Batch, gsystem, mbind, StateM_bind.
  destruct (sys_Now (gworld s)) as [now w]. cbn [fst] in Hd.
  set (s1 := mkGS (gate s) w (gops s)).
  destruct (enabled_spec now s1) as [H1 H2]. cbn [gate s1] in H1, H2.
  rewrite (proj2 (Z.ltb_ge _ _) Hd) in H1, H2.
  assert (Hoff : (enabledLocked now s1).1 = false).
  { rewrite H1. destruct (recorder (gate s)); apply andb_false_r. }
  destruct (enabledLocked now s1) as [on s2]. cbn [fst snd] in *. clear H1. subst on. cbn [mret StateM_ret fst snd].
  destruct (offLocked_spec s1) as (Hr & _ & Ho & _ & _ & Hs).
  destruct (recorder (gate s)) as [r|] eqn:Er.
  - rewrite bool_decide_true in H2 by eauto. cbn in H2. subst s2. split_and!; [exact Hr|exact Ho|intros _; exact Hs|reflexivity].
  - rewrite bool_decide_false in H2 by (by intros [? [=]]). cbn in H2. subst s2.
    split_and!; [done|done|by intros [? [=]]|done].
Qed.
End GateProperties.

Section Restart.
Context `{DS : DirSystem} (config : RecorderConfig).

(** The sequence number counts at most two per event. *)
Lemma record_all_sequence evs w :
  config_ok config = true -> (forall w, (sys_Now w).1 <> 0) -> 2 * Z.of_nat (length evs) < 2 ^ 64 ->
  sequence (rec (record_all config evs w)) <= 2 * Z.of_nat (length evs).
Proof.
  intros Hc Hnow Hn. unfold config_ok in Hc. bool_to_prop.
  assert (Hb : budget config (2 ^ 64 - 1 - 2 * Z.of_nat (length evs)) (record_all config evs w)).
  { apply (record_all_budget config); [done|done|lia|]. apply NewRecorder_ok; lia. }
  destruct Hb. lia.
Qed.

Lemma new_recorder_fresh s r s' : new_recorder config s = (inl r, s') -> r = NewRecorder.
Proof.
  unfold new_recorder, gsystem, mbind, StateM_bind, mret, StateM_ret. intros En.
  repeat (case_match; cbn in En; try congruence).
Qed.

(** A reader whose cursor is past everything the recorder holds gets nothing, and
    is not told that there is anything. *)
Lemma batch_behind_cursor r after limit :
  memory_ok config r -> sequence r <= after -> 0 < limit ->
  BatchEvents (Batch_ r after limit) = [] /\ BatchHasMore (Batch_ r after limit) = false /\
  BatchNextSequence (Batch_ r after limit) = after.
Proof.
  intros (_ & _ & Hf & _) Ha Hl. destruct (Batch_spec r after limit Hl) as (-> & -> & ->).
  assert (Hn : newer after (events r) = []).
  { unfold newer. induction Hf as [|e l [[_ He] _] _ IH]; [done|]. rewrite filter_cons_False by lia. exact IH. }
  rewrite Hn, take_nil. split_and!; [done| |done]. apply bool_decide_eq_false. cbn. lia.
Qed.

(** A mode that was off and is enabled again numbers its events from 1.  A reader
    that keeps its cursor from the session before does not see them until the
    new session has recorded as many events as the old one. *)
Theorem restarted_mode_hides_its_events s now duration evs w after limit :
  config_ok config = true -> (forall w, (sys_Now w).1 <> 0) -> after < 2 ^ 64 -> 0 < limit ->
  recorder (gate s) = None -> (Enable config now duration s).1 = None ->
  recorder (gate (Enable config now duration s).2) = Some NewRecorder /\
  (2 * Z.of_nat (length evs) <= after ->
   let batch := Batch_ (rec (record_all config evs w)) after limit in
   BatchEvents batch = [] /\ BatchHasMore batch = false /\ BatchNextSequence batch = after).
Proof.
  intros Hc Hnow Ha Hl Hr He. split.
  - revert He. unfold Enable. destruct (negb _ && _ && _); [done|].
    unfold get_gate, gets, mbind, StateM_bind. destruct (gate_closed (gate s)); [done|].
    destruct (enabled_spec now s) as [_ H2]. rewrite Hr in H2.
    rewrite bool_decide_false in H2 by (by intros [? [=]]). cbn [negb orb] in H2.
    destruct (enabledLocked now s) as [on s1]. cbn [snd] in H2. subst s1. rewrite Hr.
    destruct (new_recorder config s) as [[r|err] s2] eqn:En; [|done].
    intros _. unfold on_gate, puts. cbn.
    f_equal. by eapply new_recorder_fresh.
  - intros Hlen batch. apply batch_behind_cursor; [|pose proof (record_all_sequence evs w Hc Hnow); lia|done].
    unfold config_ok in Hc. bool_to_prop.
    refine (proj1 (record_all_budget config _ Hnow evs 0 _ _ _)); [done|done|]. apply NewRecorder_ok; lia.
Qed.
End Restart.

(** ** A concrete gate *)
#[export] Instance demo_dirs : DirSystem := {|
  sys_stat_parent w := (StatIs true, w);
  sys_stat_directory w := (StatNotExist, w);
  sys_Mkdir w := (None, w)
|}.

Definition demo_gate : GS := mkGS New demo_world [].

(** A secret split over two writes and a session boundary is not recorded. *)
Example demo_lines :
  recorded false (mkOutput "" false)
    [Wrote "early "; TurnOn; Wrote ("line" ++s newline ++s "pass"); Wrote ("word=1" ++s newline);
     Wrote "cut "; TurnOff; TurnOn; Wrote ("here" ++s newline)] = ["password=1"].
Proof. vm_compute. reflexivity. Qed.

Lemma mode_ends_at_its_deadline_witness :
  let on := mkGS (mkGate (Some (rec demo_run)) 0 (Some 1) 1 false [mkOutput "abc" false] []) demo_world [] in
  let off := (gate_Record demo_config (demo_event "late") on).2 in
  store (gate off) = [mkOutput "" true] /\
  (recorder (gate off) = None /\ gops off = [] /\
   (is_Some (recorder (gate on)) -> store (gate off) = store (clear_streams (gate on))) /\
   (gate_Batch 0 32 on).1 = mkBatch [] 0 false 0).
Proof.
  split; [vm_compute; reflexivity|].
  apply (mode_ends_at_its_deadline demo_config
    (mkGS (mkGate (Some (rec demo_run)) 0 (Some 1) 1 false [mkOutput "abc" false] []) demo_world [])
    (demo_event "late") 0 32). vm_compute. discriminate.
Defined.

Lemma restarted_mode_hides_its_events_witness :
  recorder (gate (Enable demo_config 5 (15 * Minute) demo_gate).2) = Some NewRecorder /\
  BatchEvents (Batch_ (rec demo_run) 8 32) = [] /\ BatchHasMore (Batch_ (rec demo_run) 8 32) = false.
Proof.
  destruct (restarted_mode_hides_its_events demo_config demo_gate 5 (15 * Minute) demo_events demo_world 8 32)
    as (H1 & H2); try reflexivity.
  - intros w. discriminate.
  - destruct (H2 ltac:(discriminate)) as (H3 & H4 & _). split; [exact H1|]. split; [exact H3|exact H4].
Defined.
