(* ===== verification/FilePath.v ===== *)
(** * Paths ([path/filepath] of the portable builds)

    [Clean], [Base], [Dir] and [Join] with the separator ['/'], as the component
    lists the standard library's algorithms compute, and the lemmas for a file
    name directly below a clean directory. *)
From S2P Require Import Prelude GoText.

#[local] Open Scope string_scope.
#[local] Open Scope Z_scope.
#[local] Open Scope list_scope.

Definition slash : ascii := byte_of 47.

(** The pieces between separators; there is always at least one. *)
Fixpoint split_slash (s : string) : list string :=
  match s with
  | "" => [""]
  | String c r =>
      if Ascii.eqb c slash then "" :: split_slash r
      else match split_slash r with
           | [] => [String c ""]
           | piece :: rest => String c piece :: rest
           end
  end.

Definition rooted (path : string) : bool :=
  match path with String c _ => Ascii.eqb c slash | "" => false end.

(** The pieces that remain, the last one first: empty ones and ["."] are dropped
    and [".."] takes back the piece before it, at the root nothing. *)
Fixpoint clean_go (root : bool) (stack : list string) (l : list string) : list string :=
  match l with
  | [] => stack
  | c :: rest =>
      if ((c =?s "") || (c =?s "."))%go then clean_go root stack rest
      else if (c =?s "..")%go then
        match stack with
        | top :: below => if (top =?s "..")%go then clean_go root (".." :: stack) rest
                          else clean_go root below rest
        | [] => if root then clean_go root [] rest else clean_go root [".."] rest
        end
      else clean_go root (c :: stack) rest
  end.

Definition Clean (path : string) : string :=
  let root := rooted path in
  let out := strings_Join (rev (clean_go root [] (split_slash path))) "/" in
  let cleaned := if root then String slash out else out in
  if (cleaned =?s "")%go then "." else cleaned.

(** The last piece, trailing separators aside. *)
Definition Base (path : string) : string :=
  if (path =?s "")%go then "."
  else match last (filter (fun c => c <> "") (split_slash path)) with Some c => c | None => "/" end.

(** Everything up to and including the last separator, cleaned. *)
Definition Dir (path : string) : string :=
  Clean (string_concat (map (fun c => c ++s "/") (removelast (split_slash path)))).

Definition Join (a b : string) : string :=
  if (a =?s "")%go then if (b =?s "")%go then "" else Clean b
  else if (b =?s "")%go then Clean a else Clean (a ++s "/" ++s b).

(** ** Names below a directory *)

(** A single piece that [Clean] keeps. *)
Definition plain_name (n : string) : Prop :=
  string_all (fun c => negb (Ascii.eqb c slash)) n = true /\ n <> "" /\ n <> "." /\ n <> "..".

#[export] Instance plain_name_dec n : Decision (plain_name n).
Proof. unfold plain_name. apply _. Defined.

(** A clean directory other than the root and the current one. *)
Definition clean_dir (d : string) : Prop := Clean d = d /\ d <> "/" /\ d <> ".".

#[export] Instance clean_dir_dec d : Decision (clean_dir d).
Proof. unfold clean_dir. apply _. Defined.

Lemma split_slash_nonempty s : split_slash s <> [].
Proof. destruct s as [|c s]; simpl; [done|]. repeat case_match; done. Qed.

Lemma split_slash_app a b : split_slash (a ++s "/" ++s b) = split_slash a ++ split_slash b.
Proof.
  induction a as [|c a IH]; simpl; [done|].
  simpl in IH. rewrite IH.
  destruct (Ascii.eqb c slash); [done|].
  destruct (split_slash a) eqn:E; [by apply split_slash_nonempty in E|done].
Qed.

Lemma split_slash_plain n :
  string_all (fun c => negb (Ascii.eqb c slash)) n = true -> split_slash n = [n].
Proof.
  induction n as [|c n IH]; simpl; [done|].
  intros [->%negb_true_iff Hn]%andb_true_iff. by rewrite IH.
Qed.

Lemma clean_go_app root stack l l' :
  clean_go root stack (l ++ l') = clean_go root (clean_go root stack l) l'.
Proof.
  revert stack. induction l as [|c l IH]; intros stack; simpl; [done|].
  repeat case_match; apply IH.
Qed.

Lemma clean_go_plain root stack n : plain_name n -> clean_go root stack [n] = n :: stack.
Proof.
  intros (_ & H0 & H1 & H2). simpl.
  by rewrite (proj2 (String.eqb_neq _ _) H0), (proj2 (String.eqb_neq _ _) H1), (proj2 (String.eqb_neq _ _) H2).
Qed.

Lemma strings_Join_snoc l x : l <> [] -> strings_Join (l ++ [x]) "/" = strings_Join l "/" ++s "/" ++s x.
Proof.
  induction l as [|a [|b l] IH]; intros Hl; [done|done|].
  change (a ++s "/" ++s strings_Join ((b :: l) ++ [x]) "/" = (a ++s "/" ++s strings_Join (b :: l) "/") ++s "/" ++s x).
  rewrite IH by done. by rewrite !string_app_assoc.
Qed.

Lemma rooted_app a b : a <> "" -> rooted (a ++s b) = rooted a.
Proof. by destruct a. Qed.

Lemma clean_dir_nonempty d : clean_dir d -> d <> "".
Proof. intros (H & _) ->. done. Qed.

Lemma clean_dir_stack d : clean_dir d -> clean_go (rooted d) [] (split_slash d) <> [].
Proof.
  intros (H & H1 & H2) E. unfold Clean in H. rewrite E in H. simpl in H.
  by destruct (rooted d); simpl in H.
Qed.

Lemma Clean_below d n : clean_dir d -> plain_name n -> Clean (d ++s "/" ++s n) = d ++s "/" ++s n.
Proof.
  intros Hd Hn. pose proof (clean_dir_stack d Hd) as Hs.
  unfold Clean. rewrite rooted_app by by apply clean_dir_nonempty.
  rewrite split_slash_app, (split_slash_plain n) by apply Hn.
  rewrite clean_go_app, (clean_go_plain _ _ _ Hn). simpl.
  rewrite strings_Join_snoc by (by intros E; apply (f_equal (@rev string)) in E; rewrite rev_involutive in E).
  assert (Hout : (if rooted d then String slash (strings_Join (rev (clean_go (rooted d) [] (split_slash d))) "/")
                  else strings_Join (rev (clean_go (rooted d) [] (split_slash d))) "/") = d).
  { destruct Hd as (Hc & Hroot & Hdot). unfold Clean in Hc.
    destruct (String.eqb _ _) eqn:E in Hc; [by subst|]. exact Hc. }
  destruct (rooted d); simpl; [|].
  - rewrite <- Hout at 2. done.
  - rewrite Hout. apply clean_dir_nonempty in Hd. by destruct d.
Qed.

Lemma Join_below d n : clean_dir d -> plain_name n -> Join d n = d ++s "/" ++s n.
Proof.
  intros Hd Hn. unfold Join. rewrite (proj2 (String.eqb_neq _ _) (clean_dir_nonempty d Hd)).
  destruct Hn as (Hn & H0 & Hn'). rewrite (proj2 (String.eqb_neq _ _) H0). by apply Clean_below.
Qed.

Lemma Base_below d n : plain_name n -> Base (d ++s "/" ++s n) = n.
Proof.
  intros (Hn & H0 & _). unfold Base.
  rewrite (proj2 (String.eqb_neq _ _)) by (by destruct d).
  rewrite split_slash_app, (split_slash_plain n Hn), filter_app, filter_cons_True by done.
  rewrite (filter_nil (fun c => c <> "")). by rewrite last_snoc.
Qed.

Lemma Base_plain n : plain_name n -> Base n = n.
Proof.
  intros (Hn & H0 & _). unfold Base. rewrite (proj2 (String.eqb_neq _ _) H0), (split_slash_plain n Hn).
  by rewrite filter_cons_True, filter_nil.
Qed.

Lemma pieces_concat d : string_concat (map (fun c => c ++s "/") (split_slash d)) = d ++s "/".
Proof.
  induction d as [|c d IH]; [done|]. simpl. destruct (Ascii.eqb c slash) eqn:E.
  - simpl. rewrite IH. apply Ascii.eqb_eq in E as ->. done.
  - destruct (split_slash d) eqn:Es; [by apply split_slash_nonempty in Es|].
    simpl in *. by rewrite IH.
Qed.

Lemma Clean_trailing d : d <> "" -> Clean (d ++s "/") = Clean d.
Proof.
  intros Hd. unfold Clean. rewrite rooted_app by done.
  pose proof (split_slash_app d "") as Hs. simpl in Hs.
  rewrite Hs, clean_go_app. done.
Qed.

Lemma Dir_below d n : clean_dir d -> plain_name n -> Dir (d ++s "/" ++s n) = d.
Proof.
  intros Hd Hn. unfold Dir.
  rewrite split_slash_app, (split_slash_plain n) by apply Hn.
  rewrite removelast_last, pieces_concat, Clean_trailing by by apply clean_dir_nonempty. apply Hd.
Qed.

Lemma below_inj d n n' : (d ++s "/" ++s n) = (d ++s "/" ++s n') -> n = n'.
Proof. induction d as [|c d IH]; simpl; intros H; simplify_eq; auto. Qed.

Example clean_paths :
  map Clean ["/var/lib/../lib//regen/./"; ""; "a/../.."; "/.."; "//"; "a/b/../../c"] =
  ["/var/lib/regen"; "."; ".."; "/"; "/"; "c"].
Proof. reflexivity. Qed.
Example base_paths : map Base ["/var/lib/x.bin"; "x/"; "//"; ""] = ["x.bin"; "x"; "/"; "."].
Proof. reflexivity. Qed.
Example dir_paths : map Dir ["/var/lib/x.bin"; "x"; "/x"; "x/y/"] = ["/var/lib"; "."; "/"; "x/y"].
Proof. reflexivity. Qed.

