(* ===== verification/RuntimeOwner.v ===== *)
(** * Ownership of the sensitive runtime files ([internal/runtimeowner])

    [Publish] replaces the credential or the configuration of the core while a
    durable ledger names every path that may hold a secret.  The directory is a
    finite map; every system call asks the oracle [answers] whether it works, and
    every state of the directory is recorded in [trail], the states in which the
    process may be killed.  The calls that [ownerOps] injects are a record of
    operations, as in the code; [portableOps] are those of the non-Windows build
    and [windowsOps] those of the Windows build, where [ReplaceFileW] is a
    parameter.  A handle is its path: the lock keeps other writers away.  The
    directory holds regular files and (non-empty) directories. *)
From Equations Require Import Equations.
From S2P Require Import Prelude GoText FilePath.

#[local] Open Scope string_scope.
#[local] Open Scope Z_scope.
#[local] Open Scope list_scope.

(** ** Data *)
Definition LedgerPath : string := "C:\ProgramData\RegenBio\OverseasAccess\runtime-owned.json".

Record ownershipIntent := mkIntent {
  Target : string; Temporary : string; Backup : string; Replaced : string; Phase : string
}.

Record ownershipLedger := mkLedger {
  SchemaVersion : Z; Intents : list ownershipIntent; Finalized : list string
}.

Record intentPaths := mkPaths { temporary : string; backup : string; replaced : string }.

#[export] Instance ownershipIntent_eq_dec : EqDecision ownershipIntent.
Proof. solve_decision. Defined.
#[export] Instance ownershipLedger_eq_dec : EqDecision ownershipLedger.
Proof. solve_decision. Defined.

(** Errors: a text, [os.ErrNotExist], an error wrapped with a text ([%w]), and
    [errors.Join]. *)
Inductive GoError :=
  | ErrText (text : string)
  | ErrNotExist
  | ErrWrap (prefix : string) (cause : GoError)
  | ErrJoin (errs : list GoError).

(** [errors.Is(err, os.ErrNotExist)] *)
Fixpoint is_not_exist (e : GoError) : bool :=
  match e with
  | ErrText _ => false
  | ErrNotExist => true
  | ErrWrap _ c => is_not_exist c
  | ErrJoin l => existsb is_not_exist l
  end.

(** [errors.Join]: nil when every argument is nil. *)
Definition errors_Join (l : list (option GoError)) : option GoError :=
  match omap id l with [] => None | errs => Some (ErrJoin errs) end.

(** ** The directory and its system calls *)
Inductive Entry := Regular (content : string) | Directory.

#[export] Instance Entry_eq_dec : EqDecision Entry.
Proof. solve_decision. Defined.

Abbreviation Disk := (gmap string Entry).

(** What a call answers: it works, or it fails with an error; a failing write has
    written some bytes before. *)
Inductive Answer := Works | Fails (text : string) (written : nat).

Record OS := mkOS { disk : Disk; trail : list Disk; answers : list Answer; drawn : nat }.

Definition OM : Type -> Type := StateM OS.

Class OwnerSystem := {
  random16 : nat -> string;
  temp_infix : Disk -> string -> string;
  ledger_Marshal : ownershipLedger -> string + string;
  ledger_Unmarshal : string -> option ownershipLedger
}.

Definition next_answer (s : OS) : Answer * list Answer :=
  match answers s with [] => (Works, []) | a :: rest => (a, rest) end.

(** The disk after a call is one of the states of the trail. *)
Definition sys {A} (effect : Disk -> (A + GoError) * Disk) (failed : nat -> Disk -> Disk) : OM (A + GoError) :=
  fun s =>
    let '(a, rest) := next_answer s in
    let '(r, d) := match a with
                   | Works => effect (disk s)
                   | Fails text n => (inr (ErrText text), failed n (disk s))
                   end in
    (r, mkOS d (d :: trail s) rest (drawn s)).

Definition no_effect (n : nat) (d : Disk) : Disk := d.

(** The error of a call that returns nothing else. *)
Definition err_of {A} (r : A + GoError) : option GoError :=
  match r with inl _ => None | inr e => Some e end.

Definition failing (m : OM (unit + GoError)) : OM (option GoError) := r ← m; mret (err_of r).

Definition os_ReadFile (path : string) : OM (string + GoError) :=
  sys (fun d => (match d !! path with
                 | Some (Regular b) => inl b
                 | Some Directory => inr (ErrText "is a directory")
                 | None => inr ErrNotExist
                 end, d)) no_effect.

(** [os.Stat] and [os.Lstat]: is it a regular file, and how long. *)
Definition os_Lstat (path : string) : OM (bool * Z + GoError) :=
  sys (fun d => (match d !! path with
                 | Some (Regular b) => inl (true, len b)
                 | Some Directory => inl (false, 0)
                 | None => inr ErrNotExist
                 end, d)) no_effect.

(** [os.OpenFile(path, os.O_WRONLY, 0)] *)
Definition os_OpenWrite (path : string) : OM (option GoError) :=
  failing (sys (fun d => (match d !! path with
                          | Some (Regular _) => inl tt
                          | Some Directory => inr (ErrText "is a directory")
                          | None => inr ErrNotExist
                          end, d)) no_effect).

(** [os.OpenFile(path, os.O_WRONLY|os.O_CREATE|os.O_EXCL, perm)] *)
Definition os_Create (path : string) : OM (option GoError) :=
  failing (sys (fun d => match d !! path with
                         | Some _ => (inr (ErrText "file exists"), d)
                         | None => (inl tt, <[path := Regular ""]> d)
                         end) no_effect).

(** Overwrites the bytes of a file from an offset on. *)
Definition overwrite (content : string) (offset : Z) (data : string) : string :=
  string_take (Z.to_nat offset) content ++s data ++s
  String.substring (Z.to_nat (offset + len data)) (String.length content) content.

Definition write_at (path : string) (offset : Z) (data : string) (d : Disk) : Disk :=
  match d !! path with
  | Some (Regular b) => <[path := Regular (overwrite b offset data)]> d
  | _ => d
  end.

(** [File.Write] at the offset of the handle. *)
Definition os_Write (path : string) (offset : Z) (data : string) : OM (option GoError) :=
  failing (sys (fun d => (inl tt, write_at path offset data d))
               (fun n => write_at path offset (string_take n data))).

(** [Chmod], [Seek], [Sync] and [Close] leave the directory as it is. *)
Definition os_handle_call : OM (option GoError) := failing (sys (fun d => (inl tt, d)) no_effect).

Definition os_Remove (path : string) : OM (option GoError) :=
  failing (sys (fun d => match d !! path with
                         | Some (Regular _) => (inl tt, delete path d)
                         | Some Directory => (inr (ErrText "directory not empty"), d)
                         | None => (inr ErrNotExist, d)
                         end) no_effect).

Definition os_Rename (source destination : string) : OM (option GoError) :=
  failing (sys (fun d => match d !! source, d !! destination with
                         | None, _ => (inr ErrNotExist, d)
                         | Some _, Some Directory => (inr (ErrText "file exists"), d)
                         | Some Directory, Some (Regular _) => (inr (ErrText "not a directory"), d)
                         | Some e, _ => (inl tt, <[destination := e]> (delete source d))
                         end) no_effect).

Definition rand_Read `{OwnerSystem} : OM (string + GoError) :=
  fun s => let '(a, rest) := next_answer s in
    let s' := mkOS (disk s) (trail s) rest (S (drawn s)) in
    match a with
    | Works => (inl (random16 (drawn s)), s')
    | Fails text _ => (inr (ErrText text), s')
    end.

(** ** The ledger *)
Definition supported (name : string) : bool := ((name =?s "credential.bin") || (name =?s "sing-box.json"))%go.

Definition contains (v : list string) (s : string) : bool := existsb (String.eqb s) v.

(** The elements not seen before. *)
Fixpoint unique_from (seen : list string) (v : list string) : list string :=
  match v with
  | [] => []
  | x :: rest => if contains seen x then unique_from seen rest else x :: unique_from (x :: seen) rest
  end.

Definition sort_strings (v : list string) : list string := merge_sort (cmp_le String.compare) v.

Definition sortedUnique (v : list string) : list string := sort_strings (unique_from [] v).

Definition sortedAdd (v : list string) (s : string) : list string :=
  sortedUnique (if contains v s then v else v ++ [s]).

Definition intent_cmp : ownershipIntent -> ownershipIntent -> comparison := cmp_on Target String.compare.

(** Slices this short are sorted by insertion, which is stable. *)
Definition normalizeLedger (v : ownershipLedger) : ownershipLedger :=
  mkLedger 2 (merge_sort (cmp_le intent_cmp) (Intents v)) (sortedUnique (Finalized v)).

Definition hasIntent (v : list ownershipIntent) (target : string) : bool :=
  existsb (fun x => Target x =?s target)%go v.

Definition removeIntent (v : list ownershipIntent) (target : string) : list ownershipIntent :=
  filter (fun x => Target x <> target) v.

(** Only the first intent of the target changes. *)
Fixpoint setPhase (v : list ownershipIntent) (target phase : string) : list ownershipIntent :=
  match v with
  | [] => []
  | x :: rest =>
      if (Target x =?s target)%go then mkIntent (Target x) (Temporary x) (Backup x) (Replaced x) phase :: rest
      else x :: setPhase rest target phase
  end.

Definition ErrIntent : GoError := ErrText "invalid runtime ownership intent".
Definition ErrPhase : GoError := ErrText "invalid runtime ownership intent phase".
Definition ErrTransient : GoError := ErrText "invalid runtime ownership transient path".
Definition ErrDuplicate : GoError := ErrText "duplicate runtime ownership transient path".
Definition ErrEntry : GoError := ErrText "invalid runtime ownership entry".
Definition ErrLedger : GoError := ErrText "invalid runtime ownership ledger".

Definition phases : list string := ["prepared"; "temporary-written"; "publishing"; "published"].

Definition transient_prefix (target kind : string) : string := "." ++s target ++s "." ++s kind ++s "-".

Definition bad_transient (target kind name : string) : bool :=
  negb (Base name =?s name)%go || negb (strings_HasPrefix name (transient_prefix target kind)) ||
  negb (strings_HasSuffix name ".tmp").

Definition check_intent (seen : list string) (i : ownershipIntent) : option GoError :=
  if negb (supported (Target i)) || contains seen (Target i) then Some ErrIntent
  else if negb (contains phases (Phase i)) then Some ErrPhase
  else if bad_transient (Target i) "publish" (Temporary i) || bad_transient (Target i) "backup" (Backup i)
          || bad_transient (Target i) "replaced" (Replaced i) then Some ErrTransient
  else if ((Temporary i =?s Backup i) || (Temporary i =?s Replaced i) || (Backup i =?s Replaced i))%go
  then Some ErrDuplicate
  else None.

Fixpoint validate_intents_from (seen : list string) (v : list ownershipIntent) : option GoError :=
  match v with
  | [] => None
  | i :: rest =>
      match check_intent seen i with
      | Some e => Some e
      | None => validate_intents_from (Target i :: seen) rest
      end
  end.
Definition validateIntents (v : list ownershipIntent) : option GoError := validate_intents_from [] v.

Fixpoint validate_names_from (seen v : list string) : option GoError :=
  match v with
  | [] => None
  | n :: rest =>
      if negb (supported n) || contains seen n then Some ErrEntry else validate_names_from (n :: seen) rest
  end.
Definition validateNames (v : list string) : option GoError := validate_names_from [] v.

Section Ops.
Context `{OwnerSystem}.

(** ** Reading and writing the ledger *)

(** What the bytes of a ledger stand for. *)
Definition parse_ledger (b : string) : ownershipLedger + GoError :=
  match ledger_Unmarshal b with
  | None => inr ErrLedger
  | Some v =>
      if negb (SchemaVersion v =? 2) then inr ErrLedger
      else match validateIntents (Intents v) with
           | Some e => inr e
           | None => match validateNames (Finalized v) with
                     | Some e => inr e
                     | None => inl (normalizeLedger v)
                     end
           end
  end.

Definition empty_ledger : ownershipLedger := mkLedger 2 [] [].

(** The ledger and whether it existed. *)
Definition loadLedger (path : string) : OM (ownershipLedger * bool + GoError) :=
  r ← os_ReadFile path;
  mret (match r with
        | inr e => if is_not_exist e then inl (empty_ledger, false) else inr e
        | inl b => match parse_ledger b with inl v => inl (v, true) | inr e => inr e end
        end).

Definition readLedger (path : string) : OM (ownershipLedger + GoError) :=
  r ← loadLedger path;
  mret (match r with
        | inr e => inr e
        | inl (v, true) => inl v
        | inl (_, false) => inr ErrNotExist
        end).

Definition temp_name (d : Disk) (dir : string) : string :=
  dir ++s "/" ++s ".runtime-owned-" ++s temp_infix d dir ++s ".tmp".

(** [os.CreateTemp(dir, ".runtime-owned-*.tmp")] draws names until one is free. *)
Definition os_CreateTemp (dir : string) : OM (string + GoError) :=
  sys (fun d => let name := temp_name d dir in (inl name, <[name := Regular ""]> d)) no_effect.

(** The deferred close, and the removal of a temporary file that was not kept. *)
Definition discard (tmp : string) (e : GoError) : OM (option GoError) :=
  os_handle_call ;; os_Remove tmp ;; mret (Some e).

Definition writeLedgerAtomic (replaceFile : string -> string -> OM (option GoError))
    (path : string) (value : ownershipLedger) : OM (option GoError) :=
  match ledger_Marshal (normalizeLedger value) with
  | inr text => mret (Some (ErrText text))
  | inl b =>
      created ← os_CreateTemp (Dir path);
      match created with
      | inr e => mret (Some e)
      | inl tmp =>
          chmod ← os_handle_call;
          match chmod with Some e => discard tmp e | None =>
          written ← os_Write tmp 0 b;
          match written with Some e => discard tmp e | None =>
          synced ← os_handle_call;
          match synced with Some e => discard tmp e | None =>
          closed ← os_handle_call;
          match closed with Some e => discard tmp e | None =>
          moved ← replaceFile tmp path;
          match moved with Some e => discard tmp e | None => os_handle_call ;; mret None end
          end end end end
      end
  end.

(** ** Wiping a file *)
Definition chunk : Z := 64 * 1024.

Fixpoint zeros (n : nat) : string := match n with O => "" | S n => String (byte_of 0) (zeros n) end.

Equations zero_loop (path : string) (offset remaining : Z) : OM (option GoError)
  by wf (Z.to_nat remaining) lt :=
  zero_loop path offset remaining with decide (0 < remaining) := {
    | left Hpos =>
        let n := if remaining <? chunk then remaining else chunk in
        written ← os_Write path offset (zeros (Z.to_nat n));
        match written with
        | Some e => mret (Some e)
        | None => zero_loop path (offset + n) (remaining - n)
        end
    | right _ => mret None }.
Next Obligation. intros; unfold n; case_match; bool_to_prop; unfold chunk in *; lia. Qed.

(** Seeks to the start, writes zeros over the whole file and flushes them. *)
Definition zero_file (path : string) (size : Z) : OM (option GoError) :=
  sought ← os_handle_call;
  match sought with Some e => mret (Some e) | None =>
  zeroed ← zero_loop path 0 size;
  match zeroed with Some e => mret (Some e) | None => os_handle_call end end.

Definition secureRemove (path : string) : OM (option GoError) :=
  opened ← os_OpenWrite path;
  match opened with
  | Some e => mret (if is_not_exist e then None else Some e)
  | None =>
      info ← os_Lstat path;
      zeroed ← match info with
               | inl (true, size) => zero_file path size
               | _ => mret None
               end;
      match zeroed with
      | Some e => os_handle_call ;; mret (Some e)
      | None =>
          closed ← os_handle_call;
          match closed with
          | Some e => mret (Some e)
          | None =>
              removed ← os_Remove path;
              mret (match removed with
                    | Some e => if is_not_exist e then None else Some e
                    | None => None
                    end)
          end
      end
  end.

(** ** Intents *)
Definition hex_digit (n : Z) : ascii := byte_of (if n <? 10 then 48 + n else 87 + n).

(** [hex.EncodeToString] *)
Fixpoint hex_encode (b : string) : string :=
  match b with
  | "" => ""
  | String c r => String (hex_digit (byte_val c / 16)) (String (hex_digit (byte_val c mod 16)) (hex_encode r))
  end.

Definition sibling_name (path kind random : string) : string :=
  transient_prefix (Base path) kind ++s hex_encode random ++s ".tmp".

Definition uniqueSibling (path kind : string) : OM (string + GoError) :=
  r ← rand_Read;
  mret (match r with inr e => inr e | inl b => inl (Join (Dir path) (sibling_name path kind b)) end).

Definition newIntent (path : string) : OM (ownershipIntent * intentPaths + GoError) :=
  t ← uniqueSibling path "publish";
  match t with inr e => mret (inr e) | inl t =>
  b ← uniqueSibling path "backup";
  match b with inr e => mret (inr e) | inl b =>
  r ← uniqueSibling path "replaced";
  match r with inr e => mret (inr e) | inl r =>
  mret (inl (mkIntent (Base path) (Base t) (Base b) (Base r) "prepared", mkPaths t b r)) end end end.

(** ** The transaction *)
Record ownerOps := mkOps {
  writeLedger : string -> ownershipLedger -> OM (option GoError);
  publish : string -> string -> string -> OM (bool * option GoError);
  restore : string -> string -> string -> OM (option GoError);
  wipe : string -> OM (option GoError);
  lock : OM (unit + GoError);
  unlock : OM unit
}.

Definition wipePaths (p : intentPaths) (ops : ownerOps) : OM (option GoError) :=
  a ← wipe ops (temporary p); b ← wipe ops (backup p); c ← wipe ops (replaced p);
  mret (errors_Join [a; b; c]).

Definition restoreLedger (path : string) (previous : ownershipLedger) (existed : bool) (ops : ownerOps) :
    OM (option GoError) :=
  if existed || negb (Nat.eqb (length (Intents previous)) 0) || negb (Nat.eqb (length (Finalized previous)) 0)
  then writeLedger ops path previous
  else
    removed ← os_Remove path;
    mret (match removed with
          | Some e => if is_not_exist e then None else Some e
          | None => None
          end).

Definition compensateBeforePublish (ledgerPath : string) (paths : intentPaths) (previous : ownershipLedger)
    (existed : bool) (cause : GoError) (ops : ownerOps) : OM (option GoError) :=
  wiped ← wipePaths paths ops;
  match wiped with
  | Some e => mret (errors_Join [Some cause; Some e])
  | None => restored ← restoreLedger ledgerPath previous existed ops; mret (errors_Join [Some cause; restored])
  end.

Definition compensateAfterPublish (ledgerPath path : string) (paths : intentPaths) (previous : ownershipLedger)
    (existed hadPrevious : bool) (ops : ownerOps) : OM (option GoError) :=
  undone ← (if hadPrevious then
              restored ← restore ops (backup paths) path (replaced paths);
              wiped ← wipe ops (replaced paths);
              mret (errors_Join [restored; wiped])
            else wipe ops path);
  t ← wipe ops (temporary paths);
  b ← wipe ops (backup paths);
  match errors_Join [undone; t; b] with
  | Some e => mret (Some e)
  | None => restoreLedger ledgerPath previous existed ops
  end.

Definition with_intents (v : ownershipLedger) (l : list ownershipIntent) : ownershipLedger :=
  mkLedger (SchemaVersion v) l (Finalized v).

(** The steps after the intent is durable; [intended] is the ledger that names it. *)
Definition publish_file (ledgerPath path name : string) (paths : intentPaths) (previous intended : ownershipLedger)
    (existed : bool) (ops : ownerOps) : OM (option GoError) :=
  published ← publish ops (temporary paths) path (backup paths);
  match published with
  | (_, Some e) => compensateBeforePublish ledgerPath paths previous existed e ops
  | (had, None) =>
      let intended := with_intents intended (setPhase (Intents intended) name "published") in
      recorded ← writeLedger ops ledgerPath intended;
      match recorded with
      | Some e =>
          c ← compensateAfterPublish ledgerPath path paths previous existed had ops;
          mret (errors_Join [Some (ErrWrap "record published runtime ownership: " e); c])
      | None =>
          let withFinalized := mkLedger (SchemaVersion intended) (Intents intended) (sortedAdd (Finalized intended) name) in
          finalized ← writeLedger ops ledgerPath withFinalized;
          match finalized with
          | Some e =>
              c ← compensateAfterPublish ledgerPath path paths previous existed had ops;
              mret (errors_Join [Some (ErrWrap "finalize runtime ownership: " e); c])
          | None =>
              wiped ← wipePaths paths ops;
              match wiped with
              | Some e => mret (Some (ErrWrap "remove transient sensitive runtime file: " e))
              | None =>
                  completed ← writeLedger ops ledgerPath (with_intents withFinalized (removeIntent (Intents withFinalized) name));
                  mret (ErrWrap "complete runtime ownership finalization: " <$> completed)
              end
          end
      end
  end.

(** Writing the temporary file, checking it and recording both phases. *)
Definition write_and_publish (ledgerPath path name : string) (writeTemporary : string -> OM (option GoError))
    (paths : intentPaths) (previous intended : ownershipLedger) (existed : bool) (ops : ownerOps) : OM (option GoError) :=
  let fail e := compensateBeforePublish ledgerPath paths previous existed e ops in
  written ← writeTemporary (temporary paths);
  match written with Some e => fail e | None =>
  info ← os_Lstat (temporary paths);
  match info with
  | inr e => fail e
  | inl (false, _) => fail (ErrText "temporary runtime file is not regular")
  | inl (true, _) =>
      let intended := with_intents intended (setPhase (Intents intended) name "temporary-written") in
      recorded ← writeLedger ops ledgerPath intended;
      match recorded with Some e => fail e | None =>
      let intended := with_intents intended (setPhase (Intents intended) name "publishing") in
      recorded ← writeLedger ops ledgerPath intended;
      match recorded with Some e => fail e | None =>
      publish_file ledgerPath path name paths previous intended existed ops
      end end
  end end.

(** The transaction under the lock. *)
Definition publish_locked (ledgerPath path : string) (writeTemporary : string -> OM (option GoError))
    (ops : ownerOps) : OM (option GoError) :=
  let name := Base path in
  if negb (supported name) || negb (Clean (Dir path) =?s Clean (Dir ledgerPath))%go
  then mret (Some (ErrText "unsupported runtime-owned file"))
  else
    loaded ← loadLedger ledgerPath;
    match loaded with
    | inr e => mret (Some e)
    | inl (previous, existed) =>
        if hasIntent (Intents previous) name then mret (Some (ErrText "unresolved runtime ownership intent"))
        else
          created ← newIntent path;
          match created with
          | inr e => mret (Some e)
          | inl (intent, paths) =>
              let intended := normalizeLedger (with_intents previous (Intents previous ++ [intent])) in
              recorded ← writeLedger ops ledgerPath intended;
              match recorded with
              | Some e => mret (Some (ErrWrap "record runtime ownership intent: " e))
              | None => write_and_publish ledgerPath path name writeTemporary paths previous intended existed ops
              end
          end
    end.

Definition publishAt (ledgerPath path : string) (writeTemporary : string -> OM (option GoError))
    (ops : ownerOps) : OM (option GoError) :=
  locked ← lock ops;
  match locked with
  | inr e => mret (Some (ErrWrap "lock runtime ownership transaction: " e))
  | inl _ => r ← publish_locked ledgerPath path writeTemporary ops; unlock ops ;; mret r
  end.

(** ** The portable operations ([replace_stub.go]) *)

(** [os.Open] *)
Definition os_Open (path : string) : OM (option GoError) :=
  failing (sys (fun d => (match d !! path with Some _ => inl tt | None => inr ErrNotExist end, d)) no_effect).

(** The copy is one read and one write here. *)
Definition copyFile (source destination : string) : OM (option GoError) :=
  opened ← os_Open source;
  match opened with Some e => mret (Some e) | None =>
  out ← os_Create destination;
  match out with
  | Some e => os_handle_call ;; mret (Some e)
  | None =>
      content ← os_ReadFile source;
      copied ← match content with
               | inr e => mret (Some e)
               | inl b => os_Write destination 0 b
               end;
      match copied with
      | Some e => os_handle_call ;; os_handle_call ;; mret (Some e)
      | None => closed ← os_handle_call; os_handle_call ;; mret closed
      end
  end end.

Definition publishFile (source destination bak : string) : OM (bool * option GoError) :=
  found ← os_Lstat destination;
  match found with
  | inr e =>
      if is_not_exist e then moved ← os_Rename source destination; mret (false, moved)
      else mret (false, Some e)
  | inl _ =>
      copied ← copyFile destination bak;
      match copied with
      | Some e => mret (true, Some e)
      | None => moved ← os_Rename source destination; mret (true, moved)
      end
  end.

Definition restoreFile (bak destination rep : string) : OM (option GoError) :=
  moved ← os_Rename destination rep;
  match moved with Some e => mret (Some e) | None => os_Rename bak destination end.

(** The mutex of the process: nobody else is modelled, so it is free. *)
Definition portableOps : ownerOps := {|
  writeLedger := writeLedgerAtomic os_Rename;
  publish := publishFile;
  restore := restoreFile;
  wipe := secureRemove;
  lock := mret (inl tt);
  unlock := mret tt
|}.

(** [Publish] of the portable build. *)
Definition Publish (path : string) (writeTemporary : string -> OM (option GoError)) : OM (option GoError) :=
  publishAt LedgerPath path writeTemporary portableOps.

(** ** The Windows operations ([replace_windows.go])

    [MoveFileEx], [ReplaceFileW] and the calls on the named mutex are parameters. *)
Inductive MutexError := MutexAlreadyExists | MutexFailed (e : GoError).
Inductive WaitStatus := WaitObject | WaitAbandoned | WaitOther.

Class WindowsFiles := {
  MoveFileEx : string -> string -> OM (option GoError);
  ReplaceFileW : string -> string -> string -> OM (option GoError);
  CreateMutex : OM (option MutexError);
  WaitForSingleObject : OM (WaitStatus + GoError);
  ReleaseMutex : OM unit;
  CloseHandle : OM unit
}.

(** A mutex that exists is as good as a new one, and so is an abandoned one.  The
    locking of the thread has no effect on the model. *)
Definition lockRuntimeOwnership `{WindowsFiles} : OM (unit + GoError) :=
  created ← CreateMutex;
  match created with
  | Some (MutexFailed e) => mret (inr e)
  | _ =>
      waited ← WaitForSingleObject;
      match waited with
      | inr e => CloseHandle ;; mret (inr e)
      | inl WaitOther => CloseHandle ;; mret (inr (ErrText "could not acquire runtime ownership mutex"))
      | inl _ => mret (inl tt)
      end
  end.

Definition unlockRuntimeOwnership `{WindowsFiles} : OM unit := ReleaseMutex ;; CloseHandle.

(** [windows.UTF16PtrFromString] refuses a text with a NUL byte. *)
Definition utf16_refuses (s : string) : bool :=
  negb (string_all (fun c => negb (Ascii.eqb c (byte_of 0))) s).

Definition callReplaceFile `{WindowsFiles} (destination replacement bak : string) : OM (option GoError) :=
  if utf16_refuses destination || utf16_refuses replacement || utf16_refuses bak
  then mret (Some (ErrText "invalid argument"))
  else ReplaceFileW destination replacement bak.

Definition publishFile_windows `{WindowsFiles} (source destination bak : string) : OM (bool * option GoError) :=
  found ← os_Lstat destination;
  match found with
  | inr e =>
      if is_not_exist e then moved ← MoveFileEx source destination; mret (false, moved)
      else mret (false, Some e)
  | inl _ => r ← callReplaceFile destination source bak; mret (true, r)
  end.

Definition restoreFile_windows `{WindowsFiles} (bak destination rep : string) : OM (option GoError) :=
  callReplaceFile destination bak rep.

Definition windowsOps `{WindowsFiles} : ownerOps := {|
  writeLedger := writeLedgerAtomic MoveFileEx;
  publish := publishFile_windows;
  restore := restoreFile_windows;
  wipe := secureRemove;
  lock := lockRuntimeOwnership;
  unlock := unlockRuntimeOwnership
|}.
End Ops.

(** What the code relies on: [os.CreateTemp] returns a name that was free and
    differs from its pattern by a string of digits, and [encoding/json]
    gives back the ledgers whose texts are UTF-8, the only ones it produces. *)
Definition ledger_text (v : ownershipLedger) : Prop :=
  Forall (fun i => Forall (fun t => utf8_valid t = true) [Target i; Temporary i; Backup i; Replaced i; Phase i]) (Intents v) /\
  Forall (fun t => utf8_valid t = true) (Finalized v).

Definition is_digit (c : ascii) : bool := (48 <=? byte_val c) && (byte_val c <=? 57).

Class OwnerSystemLaws `{OwnerSystem} : Prop := {
  temp_name_free d dir : d !! temp_name d dir = None;
  temp_infix_digits d dir : string_all is_digit (temp_infix d dir) = true;
  ledger_round_trip v : ledger_text v -> exists b, ledger_Marshal v = inl b /\ ledger_Unmarshal b = Some v;
  ledger_parsed_text b v : ledger_Unmarshal b = Some v -> ledger_text v
}.

