(* ===== verification/RuntimeOwnerSpec.v ===== *)
(** * Crash safety of the runtime ownership transaction

    A weakest precondition for the calls of [RuntimeOwner.v] with a crash
    condition: it holds of every state of the directory in which the process may be
    killed, whatever calls fail.  [OwnerOpsLaws] is what the transaction needs of
    its operations; the portable ones keep it. *)
From Equations Require Import Equations.
From S2P Require Import Prelude GoText FilePath RuntimeOwner.

#[local] Open Scope string_scope.
#[local] Open Scope Z_scope.
#[local] Open Scope list_scope.

(** ** Weakest preconditions with a crash condition *)

Definition wpc {A} (C : Disk -> Prop) (m : OM A) (Q : A -> Disk -> Prop) (d : Disk) : Prop :=
  forall s, disk s = d ->
    Q (m s).1 (disk (m s).2) /\ exists l, trail (m s).2 = l ++ trail s /\ Forall C l.

(** [d] and [d0] differ at most in the files of [X]. *)
Definition upto (X : string -> Prop) (d0 d : Disk) : Prop := forall f, ~ X f -> d !! f = d0 !! f.

Lemma wpc_ret {A} C (x : A) (Q : A -> Disk -> Prop) d : Q x d -> wpc C (mret x) Q d.
Proof. intros HQ s <-. split; [done|]. by exists []. Qed.

Lemma wpc_bind {A B} C (m : OM A) (f : A -> OM B) Q d :
  wpc C m (fun x => wpc C (f x) Q) d -> wpc C (m ≫= f) Q d.
Proof.
  intros Hm s Hs. destruct (Hm s Hs) as (Hq & l & Hl & HC).
  unfold mbind, StateM_bind. destruct (m s) as [x s'] eqn:E; simpl in *.
  destruct (Hq s' eq_refl) as (Hq' & l' & Hl' & HC'). split; [done|].
  exists (l' ++ l). split; [by rewrite Hl', Hl, app_assoc|]. by apply Forall_app.
Qed.

Lemma wpc_mono {A} (C C' : Disk -> Prop) (m : OM A) (Q Q' : A -> Disk -> Prop) d :
  (forall d', C' d' -> C d') -> (forall x d', Q' x d' -> Q x d') -> wpc C' m Q' d -> wpc C m Q d.
Proof.
  intros HC HQ Hm s Hs. destruct (Hm s Hs) as (Hq & l & Hl & Hall). split; [auto|].
  exists l. split; [done|]. eapply Forall_impl; eauto.
Qed.

Section Calls.
Context `{OwnerSystem}.
Context (C : Disk -> Prop).

Lemma wpc_sys {A} effect failed (Q : A + GoError -> Disk -> Prop) d :
  C (effect d).2 -> Q (effect d).1 (effect d).2 ->
  (forall n t, C (failed n d) /\ Q (inr (ErrText t)) (failed n d)) ->
  wpc C (sys effect failed) Q d.
Proof.
  intros HC HQ Hf s <-. unfold sys, next_answer.
  destruct (answers s) as [|[|t n] rest].
  - destruct (effect (disk s)) as [r d] eqn:E; simpl in *. split; [done|].
    exists [d]. auto.
  - destruct (effect (disk s)) as [r d] eqn:E; simpl in *. split; [done|].
    exists [d]. auto.
  - destruct (Hf n t). simpl. split; [done|]. exists [failed n (disk s)]. auto.
Qed.

Lemma wpc_failing m (Q : option GoError -> Disk -> Prop) d :
  wpc C m (fun r => Q (err_of r)) d -> wpc C (failing m) Q d.
Proof.
  intros Hm. unfold failing. apply wpc_bind. eapply wpc_mono; [done| |done].
  intros r d' HQ. by apply wpc_ret.
Qed.

Lemma wpc_handle (Q : option GoError -> Disk -> Prop) d : C d -> (forall r, Q r d) -> wpc C os_handle_call Q d.
Proof. intros. apply wpc_failing, wpc_sys; simpl; auto. Qed.

(** An error of a call is [os.ErrNotExist] only when the file does not exist. *)
Definition missing_ok (d : Disk) (f : string) (e : GoError) : Prop := is_not_exist e = true -> d !! f = None.

Ltac call := apply wpc_sys; simpl; repeat case_match; simpl; unfold missing_ok in *; simpl; eauto; try done.

Lemma wpc_OpenWrite f (Q : option GoError -> Disk -> Prop) d : C d ->
  (forall b, d !! f = Some (Regular b) -> Q None d) ->
  (forall e, missing_ok d f e -> Q (Some e) d) ->
  wpc C (os_OpenWrite f) Q d.
Proof. intros ? Hb He. apply wpc_failing. call; try (intros; split); try apply He; done. Qed.

Lemma wpc_Lstat f (Q : bool * Z + GoError -> Disk -> Prop) d : C d ->
  (forall b, d !! f = Some (Regular b) -> Q (inl (true, len b)) d) ->
  (d !! f = Some Directory -> Q (inl (false, 0)) d) ->
  (forall e, missing_ok d f e -> Q (inr e) d) ->
  wpc C (os_Lstat f) Q d.
Proof. intros ? Hb Hd He. call; try (intros; split); try apply He; done. Qed.

Lemma wpc_ReadFile f (Q : string + GoError -> Disk -> Prop) d : C d ->
  (forall b, d !! f = Some (Regular b) -> Q (inl b) d) ->
  (forall e, missing_ok d f e -> Q (inr e) d) ->
  wpc C (os_ReadFile f) Q d.
Proof. intros ? Hb He. call; try (intros; split); try apply He; done. Qed.

Lemma wpc_Open f (Q : option GoError -> Disk -> Prop) d : C d ->
  (forall x, d !! f = Some x -> Q None d) -> (forall e, missing_ok d f e -> Q (Some e) d) ->
  wpc C (os_Open f) Q d.
Proof. intros ? Hb He. apply wpc_failing. call; try (intros; split); try apply He; done. Qed.

Lemma wpc_Create f (Q : option GoError -> Disk -> Prop) d : C d ->
  (d !! f = None -> C (<[f := Regular ""]> d) /\ Q None (<[f := Regular ""]> d)) ->
  (forall e, Q (Some e) d) ->
  wpc C (os_Create f) Q d.
Proof. intros ? Hb He. apply wpc_failing. call; by apply Hb. Qed.

Lemma wpc_Write f off data (Q : option GoError -> Disk -> Prop) d :
  (forall n, C (write_at f off (string_take n data) d) /\ forall e, Q (Some e) (write_at f off (string_take n data) d)) ->
  C (write_at f off data d) -> Q None (write_at f off data d) ->
  wpc C (os_Write f off data) Q d.
Proof. intros Hn ? ?. apply wpc_failing. call. intros n t. split; apply Hn. Qed.

Lemma wpc_Remove f (Q : option GoError -> Disk -> Prop) d : C d ->
  (forall b, d !! f = Some (Regular b) -> C (delete f d) /\ Q None (delete f d)) ->
  (forall e, missing_ok d f e -> Q (Some e) d) ->
  wpc C (os_Remove f) Q d.
Proof.
  intros ? Hb He. apply wpc_failing. call; try (intros; split); try apply He; try done; by eapply Hb.
Qed.

Lemma wpc_Rename f g (Q : option GoError -> Disk -> Prop) d : C d ->
  (forall e, d !! f = Some e -> C (<[g := e]> (delete f d)) /\ Q None (<[g := e]> (delete f d))) ->
  (forall e, Q (Some e) d) ->
  wpc C (os_Rename f g) Q d.
Proof. intros ? Hb He. apply wpc_failing. call; by apply Hb. Qed.

Lemma wpc_CreateTemp dir (Q : string + GoError -> Disk -> Prop) d : C d ->
  C (<[temp_name d dir := Regular ""]> d) ->
  Q (inl (temp_name d dir)) (<[temp_name d dir := Regular ""]> d) ->
  (forall e, Q (inr e) d) ->
  wpc C (os_CreateTemp dir) Q d.
Proof. intros. call. Qed.

Lemma wpc_rand (Q : string + GoError -> Disk -> Prop) d :
  (forall n, Q (inl (random16 n)) d) -> (forall e, Q (inr e) d) -> wpc C rand_Read Q d.
Proof.
  intros Hr He s <-. unfold rand_Read, next_answer.
  destruct (answers s) as [|[|t n] rest]; simpl; (split; [done|by exists []]).
Qed.
End Calls.


(** ** Files outside a set are untouched *)

Lemma upto_refl X d : upto X d d.
Proof. done. Qed.
Lemma upto_trans X d0 d1 d2 : upto X d0 d1 -> upto X d1 d2 -> upto X d0 d2.
Proof. intros H1 H2 f Hf. by rewrite H2, H1. Qed.
Lemma upto_mono (X Y : string -> Prop) d0 d : (forall f, X f -> Y f) -> upto X d0 d -> upto Y d0 d.
Proof. intros HXY H f Hf. apply H. auto. Qed.
Lemma upto_insert (X : string -> Prop) d0 d f e : X f -> upto X d0 d -> upto X d0 (<[f := e]> d).
Proof. intros Hf Hd g Hg. rewrite lookup_insert_ne by congruence. by apply Hd. Qed.
Lemma upto_delete (X : string -> Prop) d0 d f : X f -> upto X d0 d -> upto X d0 (delete f d).
Proof. intros Hf Hd g Hg. rewrite lookup_delete_ne by congruence. by apply Hd. Qed.
Lemma upto_write (X : string -> Prop) d0 d f off data : X f -> upto X d0 d -> upto X d0 (write_at f off data d).
Proof. intros Hf Hd. unfold write_at. repeat case_match; auto using upto_insert. Qed.
#[local] Hint Resolve upto_refl upto_insert upto_delete upto_write : go.

Lemma write_at_None f off data d : d !! f = None -> write_at f off data d !! f = None.
Proof. intros E. unfold write_at. by rewrite E. Qed.
#[local] Hint Resolve write_at_None : go.

(** ** Wiping *)

(** Only [f] may have changed, and it was not created. *)
Definition only_shrinks (f : string) (d0 d : Disk) : Prop :=
  upto (eq f) d0 d /\ (d0 !! f = None -> d !! f = None).

Lemma only_shrinks_write f d0 d off data : only_shrinks f d0 d -> only_shrinks f d0 (write_at f off data d).
Proof. intros []. split; auto with go. Qed.

Section Wipe.
Context `{OwnerSystem}.

Lemma zero_loop_safe f d0 offset remaining d :
  only_shrinks f d0 d ->
  wpc (only_shrinks f d0) (zero_loop f offset remaining) (fun _ => only_shrinks f d0) d.
Proof.
  revert d. funelim (zero_loop f offset remaining); intros d Hd.
  all: [> | by apply wpc_ret].
  apply wpc_bind. apply wpc_Write; [split; intros; try apply wpc_ret|..];
    auto using only_shrinks_write.
  intros s Hs. refine (H0 None s d0 _ _ s Hs). auto using only_shrinks_write.
Qed.

(** A wipe that reports success has removed the file; whatever happens, no other
    file changes and the wiped one does not appear. *)
Lemma secureRemove_safe f d0 d : only_shrinks f d0 d ->
  wpc (only_shrinks f d0) (secureRemove f) (fun r d => only_shrinks f d0 d /\ (r = None -> d !! f = None)) d.
Proof.
  intros Hd. unfold secureRemove. apply wpc_bind. apply wpc_OpenWrite; [done| |].
  2: { intros e He. apply wpc_ret. split; [done|]. case_match; [auto|done]. }
  intros b Hb. apply wpc_bind.
  assert (Hrest : forall zeroed d, only_shrinks f d0 d ->
    wpc (only_shrinks f d0)
      (match zeroed : option GoError with
       | Some e => os_handle_call ;; mret (Some e)
       | None =>
           closed ← os_handle_call;
           match closed with
           | Some e => mret (Some e)
           | None =>
               removed ← os_Remove f;
               mret (match removed with
                     | Some e => if is_not_exist e then None else Some e
                     | None => None
                     end)
           end
       end) (fun r d => only_shrinks f d0 d /\ (r = None -> d !! f = None)) d).
  { intros [e|] d' Hd'; apply wpc_bind, wpc_handle; try done; intros r.
    { by apply wpc_ret. }
    destruct r as [e|]; [by apply wpc_ret|]. apply wpc_bind, wpc_Remove; [done| |].
    - intros b' Hb'. assert (only_shrinks f d0 (delete f d')).
      { destruct Hd'. split; auto with go. intros. by rewrite lookup_delete_eq. }
      split; [done|]. apply wpc_ret. split; [done|]. by rewrite lookup_delete_eq.
    - intros e He. apply wpc_ret. split; [done|]. case_match; [auto|done]. }
  apply wpc_Lstat; [done| | |].
  - intros b' Hb'. apply wpc_bind. unfold zero_file. apply wpc_bind, wpc_handle; [done|]. intros [e|].
    { apply wpc_ret. by apply (Hrest (Some e)). }
    apply wpc_bind. eapply wpc_mono; [done| |by apply zero_loop_safe].
    intros [e|] d' Hd'; [apply wpc_ret; by apply (Hrest (Some e))|].
    apply wpc_handle; [done|]. intros r. by apply (Hrest r).
  - intros. apply wpc_bind, wpc_ret. by apply (Hrest None).
  - intros. apply wpc_bind, wpc_ret. by apply (Hrest None).
Qed.
End Wipe.

(** ** What the transaction needs of its operations *)

Definition ledger_temp (dir f : string) : Prop :=
  exists infix, string_all is_digit infix = true /\ f = dir ++s "/" ++s ".runtime-owned-" ++s infix ++s ".tmp".

(** Writing the ledger [L] touches it and temporary files of its own. *)
Definition ledger_files (L : string) (f : string) : Prop := f = L \/ ledger_temp (Dir L) f.

Section Laws.
Context `{OwnerSystem}.

Definition written (L : string) (v : ownershipLedger) (d : Disk) : Prop :=
  exists b, d !! L = Some (Regular b) /\ ledger_Unmarshal b = Some (normalizeLedger v).

(** What the result of [publish] says of the three files. *)
Definition publish_result (src dst bak : string) (d0 : Disk) (r : bool * option GoError) (d : Disk) : Prop :=
  match r with
  | (had, None) =>
      d !! dst = d0 !! src /\ d0 !! src <> None /\
      if had then d !! bak = d0 !! dst /\ d0 !! dst <> None else d0 !! dst = None
  | (_, Some _) => d !! dst = d0 !! dst
  end.

Class OwnerOpsLaws (ops : ownerOps) : Prop := {
  lock_law C d : C d -> wpc C (lock ops) (fun _ d' => d' = d) d;
  unlock_law C d : C d -> wpc C (unlock ops) (fun _ d' => d' = d) d;
  wipe_law f d : wpc (only_shrinks f d) (wipe ops f) (fun r d' => only_shrinks f d d' /\ (r = None -> d' !! f = None)) d;
  writeLedger_law L v d : ~ ledger_temp (Dir L) L -> ledger_text v ->
    wpc (fun d' => upto (ledger_files L) d d' /\ (d' !! L = d !! L \/ written L v d')) (writeLedger ops L v)
       (fun r d' => upto (ledger_files L) d d' /\
                    match r with None => written L v d' | Some _ => d' !! L = d !! L end) d;
  publish_law src dst bak d : src <> dst -> src <> bak -> dst <> bak ->
    wpc (upto (fun f => f ∈ [src; dst; bak]) d) (publish ops src dst bak)
       (fun r d' => upto (fun f => f ∈ [src; dst; bak]) d d' /\ publish_result src dst bak d r d') d;
  restore_law bak dst rep d : bak <> dst -> bak <> rep -> dst <> rep ->
    wpc (upto (fun f => f ∈ [bak; dst; rep]) d) (restore ops bak dst rep)
       (fun r d' => upto (fun f => f ∈ [bak; dst; rep]) d d' /\ (r = None -> d' !! dst = d !! bak)) d
}.
End Laws.

(** ** The portable operations keep the laws *)

Lemma overwrite_empty b : overwrite "" 0 b = b.
Proof.
  unfold overwrite, string_take. simpl. destruct (Z.to_nat _); simpl; apply string_app_nil_r.
Qed.

Lemma Forall_filter_keep {A} (P Q : A -> Prop) `{!forall x, Decision (Q x)} l : Forall P l -> Forall P (filter Q l).
Proof. rewrite !Forall_forall. intros Hl x [_ Hx]%list_elem_of_filter. auto. Qed.

Lemma unique_from_Forall (P : string -> Prop) seen l : Forall P l -> Forall P (unique_from seen l).
Proof.
  intros Hl. revert seen. induction Hl as [|x l Hx Hl IH]; intros seen; simpl; [constructor|].
  case_match; [apply IH|constructor; [done|apply IH]].
Qed.

Lemma sort_strings_perm l : sort_strings l ≡ₚ l.
Proof. apply merge_sort_Permutation. Qed.

Lemma sortedUnique_Forall (P : string -> Prop) l : Forall P l -> Forall P (sortedUnique l).
Proof. intros Hl. unfold sortedUnique. rewrite sort_strings_perm. by apply unique_from_Forall. Qed.

Lemma normalize_text v : ledger_text v -> ledger_text (normalizeLedger v).
Proof.
  intros [Hi Hf]. split; simpl; [by rewrite merge_sort_Permutation|by apply sortedUnique_Forall].
Qed.

Section Portable.
Context `{OwnerSystem, !OwnerSystemLaws}.

Lemma temp_name_temp d dir : ledger_temp dir (temp_name d dir).
Proof. exists (temp_infix d dir). split; [apply temp_infix_digits|done]. Qed.

Lemma discard_safe (C : Disk -> Prop) tmp e d (Q : option GoError -> Disk -> Prop) :
  C d -> C (delete tmp d) -> Q (Some e) d -> Q (Some e) (delete tmp d) -> wpc C (discard tmp e) Q d.
Proof.
  intros. unfold discard. apply wpc_bind, wpc_handle; [done|]. intros _.
  apply wpc_bind, wpc_Remove; [done|intros b _; split; [done|]|intros e' _]; by apply wpc_ret.
Qed.

Lemma writeLedgerAtomic_safe L v d : ~ ledger_temp (Dir L) L -> ledger_text v ->
  wpc (fun d' => upto (ledger_files L) d d' /\ (d' !! L = d !! L \/ written L v d')) (writeLedgerAtomic os_Rename L v)
     (fun r d' => upto (ledger_files L) d d' /\
                  match r with None => written L v d' | Some _ => d' !! L = d !! L end) d.
Proof.
  intros HL Hv. unfold writeLedgerAtomic.
  destruct (ledger_round_trip (normalizeLedger v)) as (b & -> & Hb); [by apply normalize_text|].
  set (tmp := temp_name d (Dir L)).
  assert (Ht : ledger_files L tmp) by (right; apply temp_name_temp).
  assert (Hne : tmp <> L) by (intros E; apply HL; rewrite <- E at 2; apply temp_name_temp).
  set (C := fun d' => upto (ledger_files L) d d' /\ (d' !! L = d !! L \/ written L v d')).
  (* the temporary file may hold anything *)
  set (Mid := fun d' => upto (ledger_files L) d d' /\ d' !! L = d !! L).
  assert (HMC : forall d', Mid d' -> C d') by (intros d' []; split; auto).
  assert (Hdel : forall d', Mid d' -> Mid (delete tmp d')).
  { intros d' []. split; auto with go. by rewrite lookup_delete_ne. }
  assert (Hwr : forall d' data, Mid d' -> Mid (write_at tmp 0 data d')).
  { intros d' data []. split; auto with go. unfold write_at. repeat case_match; try done.
    by rewrite lookup_insert_ne. }
  assert (Hdis : forall e d', Mid d' ->
    wpc C (discard tmp e) (fun r d' => upto (ledger_files L) d d' /\
                  match r with None => written L v d' | Some _ => d' !! L = d !! L end) d').
  { intros e d' Hd'. apply discard_safe; auto; by apply Hdel. }
  assert (Hd0 : Mid d) by (split; auto with go).
  assert (Hd1 : Mid (<[tmp := Regular ""]> d)).
  { split; auto with go. by rewrite lookup_insert_ne. }
  set (d1 := <[tmp := Regular ""]> d) in *.
  apply wpc_bind, wpc_CreateTemp; auto; [|intros e; by apply wpc_ret]. fold tmp d1.
  apply wpc_bind, wpc_handle; [auto|]. intros [e|]; [auto|].
  apply wpc_bind, wpc_Write; [intros n; split; [auto|intros e; apply Hdis; auto]|auto|].
  set (d2 := write_at tmp 0 b d1). assert (Hd2 : Mid d2) by by apply Hwr.
  assert (Hb2 : d2 !! tmp = Some (Regular b)).
  { unfold d2, write_at, d1. rewrite lookup_insert_eq. rewrite lookup_insert_eq.
    by rewrite overwrite_empty. }
  apply wpc_bind, wpc_handle; [auto|]. intros [e|]; [auto|].
  apply wpc_bind, wpc_handle; [auto|]. intros [e|]; [auto|].
  apply wpc_bind, wpc_Rename; [auto| |intros e; auto].
  intros e He. change (d2 !! tmp = Some e) in He. rewrite Hb2 in He. simplify_eq.
  assert (Hd3 : upto (ledger_files L) d (<[L := Regular b]> (delete tmp d2)) /\
                written L v (<[L := Regular b]> (delete tmp d2))).
  { split.
    - apply upto_insert; [by left|]. apply upto_delete; [done|]. apply Hd2.
    - exists b. by rewrite lookup_insert_eq. }
  split; [destruct Hd3; split; auto|].
  apply wpc_bind, wpc_handle; [destruct Hd3; split; auto|]. intros r. by apply wpc_ret.
Qed.

Lemma copyFile_safe src dst d (Q : option GoError -> Disk -> Prop) : src <> dst ->
  (forall e d', upto (eq dst) d d' -> Q (Some e) d') ->
  (forall d', upto (eq dst) d d' -> d' !! dst = d !! src -> d !! src <> None -> Q None d') ->
  wpc (upto (eq dst) d) (copyFile src dst) Q d.
Proof.
  intros Hne He Hok. unfold copyFile.
  apply wpc_bind, wpc_Open; [done| |intros e _; apply wpc_ret; auto with go].
  intros x Hx. apply wpc_bind, wpc_Create; [done| |].
  2: { intros e. apply wpc_bind, wpc_handle; [done|]. intros _. apply wpc_ret. auto with go. }
  intros Hd. assert (H1 : upto (eq dst) d (<[dst := Regular ""]> d)) by auto with go.
  set (d1 := <[dst := Regular ""]> d) in *. split; [done|].
  assert (Hfail : forall e d', upto (eq dst) d d' ->
    wpc (upto (eq dst) d) (os_handle_call ;; os_handle_call ;; mret (Some e)) Q d').
  { intros e d' Hd'. apply wpc_bind, wpc_handle; [done|]. intros _. apply wpc_bind, wpc_handle; [done|].
    intros _. apply wpc_ret. auto. }
  apply wpc_bind, wpc_ReadFile; [done| |].
  2: { intros e _. apply wpc_bind, wpc_ret. by apply Hfail. }
  intros b Hb. unfold d1 in Hb. rewrite lookup_insert_ne in Hb by congruence.
  apply wpc_bind, wpc_Write; [intros n; split; [auto with go|intros e; apply Hfail; auto with go]|auto with go|].
  set (d2 := write_at dst 0 b d1). assert (H2 : upto (eq dst) d d2) by (apply upto_write; done).
  apply wpc_bind, wpc_handle; [done|]. intros r. apply wpc_bind, wpc_handle; [done|]. intros _. apply wpc_ret.
  destruct r as [e|]; [by apply He|]. apply Hok; [done| |by rewrite Hb].
  unfold d2, write_at, d1. rewrite lookup_insert_eq, lookup_insert_eq, overwrite_empty. done.
Qed.

Lemma publishFile_safe src dst bak d : src <> dst -> src <> bak -> dst <> bak ->
  wpc (upto (fun f => f ∈ [src; dst; bak]) d) (publishFile src dst bak)
     (fun r d' => upto (fun f => f ∈ [src; dst; bak]) d d' /\ publish_result src dst bak d r d') d.
Proof.
  intros H1 H2 H3. unfold publishFile.
  set (X := fun f => f ∈ [src; dst; bak]).
  assert (Xs : X src) by (unfold X; set_solver). assert (Xd : X dst) by (unfold X; set_solver).
  assert (Xb : forall f, bak = f -> X f) by (intros f <-; unfold X; set_solver).
  assert (Hhad : wpc (upto X d)
    (copied ← copyFile dst bak;
     match copied with
     | Some e => mret (true, Some e)
     | None => moved ← os_Rename src dst; mret (true, moved)
     end) (fun r d' => upto X d d' /\ publish_result src dst bak d r d') d).
  { apply wpc_bind. eapply (wpc_mono (upto X d) (upto (eq bak) d));
      [intros d'; by apply upto_mono|intros x d' HQ; exact HQ|apply copyFile_safe; [congruence| |]].
    - intros e d' Hd'. apply wpc_ret. split; [by eapply upto_mono|]. simpl. apply Hd'. congruence.
    - intros d1 Hd1 Hb Hn. pose proof (upto_mono _ X _ _ Xb Hd1) as Hd1X.
      apply wpc_bind, wpc_Rename; [done| |].
      + intros e He. assert (Hs : d1 !! src = d !! src) by (apply Hd1; congruence).
        split; [auto with go|]. apply wpc_ret. split; [auto with go|]. simpl.
        rewrite lookup_insert_eq, lookup_insert_ne, lookup_delete_ne by done.
        rewrite <- Hs, He. done.
      + intros e. apply wpc_ret. split; [done|]. simpl. apply Hd1. congruence. }
  apply wpc_bind, wpc_Lstat; [done|intros; apply Hhad|intros; apply Hhad|].
  intros e He. destruct (is_not_exist e) eqn:En.
  - apply wpc_bind, wpc_Rename; [done| |].
    + intros x Hx. split; [auto with go|]. apply wpc_ret. split; [auto with go|]. simpl.
      rewrite lookup_insert_eq, Hx. auto.
    + intros e'. apply wpc_ret. by split.
  - apply wpc_ret. by split.
Qed.

Lemma restoreFile_safe bak dst rep d : bak <> dst -> bak <> rep -> dst <> rep ->
  wpc (upto (fun f => f ∈ [bak; dst; rep]) d) (restoreFile bak dst rep)
     (fun r d' => upto (fun f => f ∈ [bak; dst; rep]) d d' /\ (r = None -> d' !! dst = d !! bak)) d.
Proof.
  intros H1 H2 H3. unfold restoreFile. set (X := fun f => f ∈ [bak; dst; rep]).
  assert (Xb : X bak) by (unfold X; set_solver). assert (Xd : X dst) by (unfold X; set_solver).
  assert (Xr : X rep) by (unfold X; set_solver).
  apply wpc_bind, wpc_Rename; [done| |intros e; by apply wpc_ret].
  intros x Hx. split; [auto with go|].
  apply wpc_Rename; [auto with go| |].
  - intros y Hy. split; [auto with go|]. split; [auto with go|]. intros _.
    rewrite lookup_insert_ne, lookup_delete_ne in Hy by done. by rewrite lookup_insert_eq.
  - intros e. split; [auto with go|done].
Qed.

#[export] Instance portable_laws : OwnerOpsLaws portableOps.
Proof.
  split; simpl.
  - intros C d HC. by apply wpc_ret.
  - intros C d HC. by apply wpc_ret.
  - intros f d. apply secureRemove_safe. split; auto with go.
  - apply writeLedgerAtomic_safe.
  - apply publishFile_safe.
  - apply restoreFile_safe.
Qed.
End Portable.

(** ** Ledgers *)

(** The list conditions the two validators check. *)
Definition intents_ok (l : list ownershipIntent) : Prop :=
  Forall (fun i => check_intent [] i = None) l /\ NoDup (map Target l).

Definition names_ok (l : list string) : Prop := Forall (fun n => supported n = true) l /\ NoDup l.

Definition ledger_ok (v : ownershipLedger) : Prop := intents_ok (Intents v) /\ names_ok (Finalized v).

(** The file names a ledger owns. *)
Definition intent_names (i : ownershipIntent) : list string := [Target i; Temporary i; Backup i; Replaced i].
Definition names_of (v : ownershipLedger) : list string := Finalized v ++ concat (map intent_names (Intents v)).

Lemma contains_iff l x : contains l x = true <-> x ∈ l.
Proof.
  unfold contains. rewrite existsb_exists. setoid_rewrite <- list_elem_of_In. setoid_rewrite String.eqb_eq.
  naive_solver.
Qed.

Lemma contains_false l x : contains l x = false <-> x ∉ l.
Proof. rewrite <- contains_iff. by destruct (contains l x). Qed.

Lemma hasIntent_iff l n : hasIntent l n = true <-> n ∈ map Target l.
Proof.
  unfold hasIntent. rewrite existsb_exists, list_elem_of_In, in_map_iff. setoid_rewrite String.eqb_eq.
  naive_solver.
Qed.

Lemma check_intent_seen seen i : check_intent seen i = None <-> check_intent [] i = None /\ Target i ∉ seen.
Proof.
  unfold check_intent. rewrite !err_if_none, !orb_false_iff, contains_false. simpl. tauto.
Qed.

Lemma validate_intents_spec seen l :
  validate_intents_from seen l = None <->
  intents_ok l /\ Forall (fun i => Target i ∉ seen) l.
Proof.
  unfold intents_ok. revert seen. induction l as [|i l IH]; intros seen; simpl.
  { repeat split; constructor. }
  rewrite err_seq_none, IH, check_intent_seen, !Forall_cons, NoDup_cons.
  setoid_rewrite not_elem_of_cons. rewrite Forall_and.
  assert (Forall (fun x => Target x <> Target i) l <-> Target i ∉ map Target l) as ->.
  { rewrite Forall_forall, list_elem_of_In, in_map_iff. setoid_rewrite <- list_elem_of_In.
    split; [intros Hl (x & Hx & Hin); by apply (Hl x)|intros Hn x Hx E; apply Hn; eauto]. }
  tauto.
Qed.

Lemma validate_names_spec seen l :
  validate_names_from seen l = None <-> names_ok l /\ Forall (fun n => n ∉ seen) l.
Proof.
  unfold names_ok. revert seen. induction l as [|n l IH]; intros seen; simpl.
  { repeat split; constructor. }
  rewrite err_if_none, orb_false_iff, negb_false_iff, contains_false, IH, !Forall_cons, NoDup_cons.
  setoid_rewrite not_elem_of_cons. rewrite Forall_and.
  assert (Forall (fun x => x <> n) l <-> n ∉ l) as ->.
  { rewrite Forall_forall. split; [intros Hl Hn; by apply (Hl n)|intros Hn x Hx ->; done]. }
  tauto.
Qed.

Lemma validateIntents_spec l : validateIntents l = None <-> intents_ok l.
Proof.
  unfold validateIntents. rewrite validate_intents_spec.
  assert (Forall (fun i => Target i ∉ []) l) by (apply Forall_true; intros; apply not_elem_of_nil). tauto.
Qed.

Lemma validateNames_spec l : validateNames l = None <-> names_ok l.
Proof.
  unfold validateNames. rewrite validate_names_spec.
  assert (Forall (fun n : string => n ∉ []) l) by (apply Forall_true; intros; apply not_elem_of_nil). tauto.
Qed.

Lemma elem_of_unique_from seen l x : x ∈ unique_from seen l <-> x ∈ l /\ x ∉ seen.
Proof.
  revert seen. induction l as [|y l IH]; intros seen; simpl; [set_solver|].
  destruct (contains seen y) eqn:E.
  - apply contains_iff in E. rewrite IH. set_solver.
  - apply contains_false in E. rewrite !elem_of_cons, IH, not_elem_of_cons.
    destruct (decide (x = y)) as [->|]; tauto.
Qed.

Lemma unique_from_NoDup seen l : NoDup (unique_from seen l).
Proof.
  revert seen. induction l as [|y l IH]; intros seen; simpl; [constructor|].
  case_match; [apply IH|]. constructor; [rewrite elem_of_unique_from; set_solver|apply IH].
Qed.

Lemma unique_from_id seen l : NoDup l -> Forall (fun x => x ∉ seen) l -> unique_from seen l = l.
Proof.
  intros Hnd. revert seen. induction Hnd as [|y l Hy Hnd IH]; intros seen; simpl; [done|].
  intros [Hs Hl]%Forall_cons. rewrite (proj2 (contains_false _ _)) by done. f_equal.
  apply IH. rewrite Forall_forall in *. set_solver.
Qed.

Lemma elem_of_sortedUnique l x : x ∈ sortedUnique l <-> x ∈ l.
Proof. unfold sortedUnique. rewrite sort_strings_perm, elem_of_unique_from. set_solver. Qed.

Lemma sort_strings_sorted l : Sorted (cmp_le String.compare) (sort_strings l).
Proof. apply Sorted_merge_sort, _. Qed.

Lemma sortedUnique_NoDup l : NoDup (sortedUnique l).
Proof. unfold sortedUnique. rewrite sort_strings_perm. apply unique_from_NoDup. Qed.

Lemma sortedUnique_idem l : sortedUnique (sortedUnique l) = sortedUnique l.
Proof.
  unfold sortedUnique at 1. rewrite unique_from_id.
  - unfold sortedUnique. apply (sort_permutation String.compare _ _ String.compare_eq_iff), sort_strings_perm.
  - apply sortedUnique_NoDup.
  - apply Forall_true. intros. apply not_elem_of_nil.
Qed.

Lemma sort_intents_idem l : NoDup (map Target l) ->
  merge_sort (cmp_le intent_cmp) (merge_sort (cmp_le intent_cmp) l) = merge_sort (cmp_le intent_cmp) l.
Proof.
  intros Hnd. apply (Sorted_unique_strong (cmp_le intent_cmp)).
  - intros x y Hx Hy. rewrite !merge_sort_Permutation in Hx. rewrite merge_sort_Permutation in Hy.
    rewrite !cmp_le_iff by apply _. intros H1 H2. unfold intent_cmp, cmp_on in *.
    assert (E : Target x = Target y).
    { apply String.compare_eq_iff. rewrite String.compare_antisym in H2.
      destruct (String.compare (Target x) (Target y)); simpl in *; congruence. }
    apply list_elem_of_lookup in Hx as [i Hi], Hy as [j Hj].
    assert (i = j).
    { apply (NoDup_lookup (Target <$> l) i j (Target x)); [done| |].
      - by rewrite list_lookup_fmap, Hi.
      - by rewrite list_lookup_fmap, Hj, E. }
    congruence.
  - apply Sorted_merge_sort, _.
  - apply Sorted_merge_sort, _.
  - apply merge_sort_Permutation.
Qed.

Lemma normalize_idem v : ledger_ok v -> normalizeLedger (normalizeLedger v) = normalizeLedger v.
Proof.
  intros [[_ Hnd] _]. unfold normalizeLedger. simpl.
  by rewrite sort_intents_idem, sortedUnique_idem.
Qed.

Lemma normalize_ok v : ledger_ok v -> ledger_ok (normalizeLedger v).
Proof.
  intros [[Hi Hnd] [Hf _]]. split; split; simpl.
  - by rewrite merge_sort_Permutation.
  - by rewrite merge_sort_Permutation.
  - by apply sortedUnique_Forall.
  - apply sortedUnique_NoDup.
Qed.

Lemma normalize_names v n : n ∈ names_of (normalizeLedger v) <-> n ∈ names_of v.
Proof.
  unfold names_of. simpl. rewrite !elem_of_app, elem_of_sortedUnique, <- !flat_map_concat_map.
  assert (n ∈ flat_map intent_names (merge_sort (cmp_le intent_cmp) (Intents v)) <->
          n ∈ flat_map intent_names (Intents v)) as ->; [|done].
  rewrite !list_elem_of_In, !in_flat_map. setoid_rewrite <- list_elem_of_In.
  by setoid_rewrite (merge_sort_Permutation _ (Intents v)).
Qed.

Lemma normalize_hasIntent v n : hasIntent (Intents (normalizeLedger v)) n = hasIntent (Intents v) n.
Proof.
  apply eq_true_iff_eq. rewrite !hasIntent_iff. simpl. by rewrite merge_sort_Permutation.
Qed.

Lemma setPhase_names l n p : map intent_names (setPhase l n p) = map intent_names l.
Proof. induction l as [|x l IH]; simpl; [done|]. case_match; simpl; [done|]. by rewrite IH. Qed.

Lemma setPhase_targets l n p : map Target (setPhase l n p) = map Target l.
Proof. induction l as [|x l IH]; simpl; [done|]. case_match; simpl; [done|]. by rewrite IH. Qed.

Lemma setPhase_ok l n p : p ∈ phases -> intents_ok l -> intents_ok (setPhase l n p).
Proof.
  intros Hp [Hi Hnd]. split; [|by rewrite setPhase_targets].
  clear Hnd. induction Hi as [|x l Hx Hl IH]; simpl; [constructor|].
  case_match; constructor; try done. unfold check_intent in *. rewrite !err_if_none in *. cbn [Target Temporary Backup Replaced Phase].
  destruct Hx as (? & _ & ?). repeat split; try tauto. by rewrite (proj2 (contains_iff _ _) Hp).
Qed.

(** ** The names of one transaction *)

Definition kinds : list string := ["publish"; "backup"; "replaced"].

Definition sibling (name kind random : string) : string :=
  transient_prefix name kind ++s hex_encode random ++s ".tmp".

Lemma supported_cases n : supported n = true -> n = "credential.bin" \/ n = "sing-box.json".
Proof. unfold supported. intros [->%String.eqb_eq | ->%String.eqb_eq]%orb_true_iff; auto. Qed.

(** The characters of a hexadecimal text are ASCII and no separators. *)
Definition name_char (c : ascii) : bool := (byte_val c <? 128) && negb (Ascii.eqb c slash).

Lemma hex_digit_char n : 0 <= n < 16 -> name_char (hex_digit n) = true.
Proof.
  intros Hn. assert (exists k, n = Z.of_nat k /\ (k < 16)%nat) as (k & -> & Hk) by (exists (Z.to_nat n); lia).
  do 16 (destruct k as [|k]; [reflexivity|]). lia.
Qed.

Lemma hex_encode_chars b : string_all name_char (hex_encode b) = true.
Proof.
  induction b as [|c b IH]; [done|]. cbn [hex_encode string_all].
  pose proof (byte_val_range c). rewrite !hex_digit_char, IH; [done| |].
  - apply Z.mod_pos_bound. lia.
  - split; [apply Z.div_pos; lia|apply Z.div_lt_upper_bound; lia].
Qed.

Lemma sibling_chars name kind r : supported name = true -> kind ∈ kinds ->
  string_all name_char (sibling name kind r) = true.
Proof.
  intros Hn Hk. unfold sibling. rewrite !string_all_app, hex_encode_chars.
  apply supported_cases in Hn. unfold kinds in Hk. rewrite !elem_of_cons in Hk.
  destruct Hn as [-> | ->], Hk as [-> |[-> |[-> |Hk]]]; try reflexivity; by apply not_elem_of_nil in Hk.
Qed.

Lemma name_chars_plain n : string_all name_char n = true ->
  string_all (fun c => negb (Ascii.eqb c slash)) n = true /\ utf8_valid n = true.
Proof.
  intros Hn. split; [|apply utf8_valid_ascii]; (eapply string_all_mono; [|exact Hn]);
    intros c [? ?]%andb_true_iff; done.
Qed.

Lemma supported_chars n : supported n = true -> string_all name_char n = true.
Proof. intros [-> | ->]%supported_cases; reflexivity. Qed.

Lemma supported_plain n : supported n = true -> plain_name n.
Proof. intros [-> | ->]%supported_cases; by apply (bool_decide_unpack _), I. Qed.

Lemma sibling_plain name kind r : supported name = true -> kind ∈ kinds -> plain_name (sibling name kind r).
Proof.
  intros Hn Hk. split; [by apply name_chars_plain, sibling_chars|].
  unfold sibling, transient_prefix. apply supported_cases in Hn.
  destruct Hn as [-> | ->]; repeat split; discriminate.
Qed.

(** Names of different kinds differ, and from the target. *)
Lemma sibling_distinct name k1 k2 r1 r2 : supported name = true -> k1 ∈ kinds -> k2 ∈ kinds ->
  sibling name k1 r1 = sibling name k2 r2 -> k1 = k2.
Proof.
  intros Hn Hk1 Hk2. apply supported_cases in Hn. unfold kinds, sibling, transient_prefix in *.
  rewrite !elem_of_cons in Hk1, Hk2.
  destruct Hn as [-> | ->], Hk1 as [-> |[-> |[-> |[]%not_elem_of_nil]]], Hk2 as [-> |[-> |[-> |[]%not_elem_of_nil]]];
    simpl; intros; simplify_eq; done.
Qed.

Lemma sibling_not_target name n kind r : supported name = true -> supported n = true -> sibling name kind r <> n.
Proof.
  intros [-> | ->]%supported_cases [-> | ->]%supported_cases; discriminate.
Qed.

(** ** Sensitive files and coverage *)

Definition ledger_name : string := "runtime-owned.json".

(** The names that may hold a secret: the targets and their transient copies. *)
Definition sensitive_name (n : string) : Prop :=
  supported n = true \/
  exists name kind, supported name = true /\ kind ∈ kinds /\
    strings_HasPrefix n (transient_prefix name kind) = true /\ strings_HasSuffix n ".tmp" = true.

Lemma sensitive_head n : sensitive_name n ->
  exists c rest, n = String c rest /\ (c = byte_of 99 \/ c = byte_of 115 \/
    c = byte_of 46 /\ exists c' rest', rest = String c' rest' /\ (c' = byte_of 99 \/ c' = byte_of 115)).
Proof.
  intros [[-> | ->]%supported_cases|(name & kind & [-> | ->]%supported_cases & _ & Hp & _)].
  - by eexists _, _; split; [|left].
  - by eexists _, _; split; [|right; left].
  - apply has_prefix_split in Hp as (rest & ->).
    eexists _, _. split; [reflexivity|]. right; right. split; [done|]. eexists _, _. split; [reflexivity|by left].
  - apply has_prefix_split in Hp as (rest & ->).
    eexists _, _. split; [reflexivity|]. right; right. split; [done|]. eexists _, _. split; [reflexivity|by right].
Qed.

Lemma ledger_name_not_sensitive : ~ sensitive_name ledger_name.
Proof. intros (c & rest & [= <- <-] & [H|[H|[H _]]])%sensitive_head; done. Qed.

Lemma temp_not_sensitive infix : ~ sensitive_name (".runtime-owned-" ++s infix ++s ".tmp").
Proof.
  intros (c & rest & [= <- <-] & [H|[H|[_ (c' & rest' & [= <- <-] & [H|H])]]])%sensitive_head; done.
Qed.

Section Coverage.
Context `{OwnerSystem}.

(** What a directory says the ledger is; nothing when it cannot be read. *)
Definition ledger_at (L : string) (d : Disk) : option ownershipLedger :=
  match d !! L with
  | None => Some empty_ledger
  | Some (Regular b) => match parse_ledger b with inl v => Some v | inr _ => None end
  | Some Directory => None
  end.

(** Every sensitive file of the directory is named by its ledger. *)
Definition covered (dir : string) (d : Disk) : Prop :=
  exists v, ledger_at (dir ++s "/" ++s ledger_name) d = Some v /\
    forall n, sensitive_name n -> d !! (dir ++s "/" ++s n) <> None -> n ∈ names_of v.

Lemma written_ledger_at L v d : ledger_ok v -> written L v d -> ledger_at L d = Some (normalizeLedger v).
Proof.
  intros Hv (b & Hb & Hu). unfold ledger_at, parse_ledger. rewrite Hb, Hu.
  pose proof (normalize_ok v Hv) as [Hi Hf]. simpl (SchemaVersion _ =? 2).
  rewrite (proj2 (validateIntents_spec _) Hi), (proj2 (validateNames_spec _) Hf).
  cbn [negb]. by rewrite normalize_idem.
Qed.

Lemma parse_ledger_ok `{!OwnerSystemLaws} b v : parse_ledger b = inl v -> ledger_ok v /\ ledger_text v /\ normalizeLedger v = v.
Proof.
  unfold parse_ledger. destruct (ledger_Unmarshal b) as [w|] eqn:Hu; [|done].
  destruct (negb _); [done|].
  destruct (validateIntents _) eqn:Hi; [done|]. destruct (validateNames _) eqn:Hf; [done|]. intros [= <-].
  apply validateIntents_spec in Hi. apply validateNames_spec in Hf.
  split; [by apply normalize_ok|]. split; [by eapply normalize_text, ledger_parsed_text|].
  by apply normalize_idem.
Qed.

Lemma ledger_at_ok `{!OwnerSystemLaws} L d v : ledger_at L d = Some v ->
  ledger_ok v /\ ledger_text v /\ normalizeLedger v = v.
Proof.
  unfold ledger_at. destruct (d !! L) as [[b|]|]; [|done|].
  - destruct (parse_ledger b) eqn:E; [|done]. intros [= <-]. by eapply parse_ledger_ok.
  - intros [= <-]. repeat split; constructor.
Qed.
End Coverage.

(** ** The transaction *)

Lemma errors_Join_none l : errors_Join l = None <-> Forall (fun e => e = None) l.
Proof.
  unfold errors_Join. split.
  - intros E. induction l as [|[e|] l IH]; simpl in *; [constructor|done|]. constructor; auto.
  - intros Hl. induction Hl as [|e l -> Hl IH]; [done|]. done.
Qed.

Lemma kinds_in : "publish" ∈ kinds /\ "backup" ∈ kinds /\ "replaced" ∈ kinds.
Proof. unfold kinds. set_solver. Qed.

Section Transaction.
Context `{OwnerSystem, !OwnerSystemLaws} (ops : ownerOps) `{!OwnerOpsLaws ops}.
Context (dir name : string) (Hdir : clean_dir dir) (Hname : supported name = true).

Definition in_dir (n : string) : string := dir ++s "/" ++s n.
Definition ledger_path : string := in_dir ledger_name.
Definition target_path : string := in_dir name.

(** The state the transaction starts from, the ledger it loads and the names it draws. *)
Context (d0 : Disk) (previous : ownershipLedger) (existed : bool) (rt rb rr : string).
Context (Hprev : ledger_at ledger_path d0 = Some previous).
Context (Hexisted : existed = false -> d0 !! ledger_path = None).

Definition tmp_name : string := sibling name "publish" rt.
Definition bak_name : string := sibling name "backup" rb.
Definition rep_name : string := sibling name "replaced" rr.
Definition paths : intentPaths := mkPaths (in_dir tmp_name) (in_dir bak_name) (in_dir rep_name).
Definition transients : list string := [in_dir tmp_name; in_dir bak_name; in_dir rep_name].
Context (Hfree : forall f, f ∈ transients -> d0 !! f = None).

(** A ledger that names what the previous one names and the files of this transaction. *)
Record owns (v : ownershipLedger) : Prop := {
  owns_ok : ledger_ok v;
  owns_text : ledger_text v;
  owns_intent : hasIntent (Intents v) name = true;
  owns_previous n : n ∈ names_of previous -> n ∈ names_of v;
  owns_names n : n ∈ [name; tmp_name; bak_name; rep_name] -> n ∈ names_of v;
  owns_others i : Target i <> name -> i ∈ Intents v <-> i ∈ Intents previous;
  owns_final n : n <> name -> n ∈ Finalized v <-> n ∈ Finalized previous
}.

Definition touched (f : string) : Prop := ledger_files ledger_path f \/ f ∈ target_path :: transients.

(** During the transaction: only its files differ, and the ledger owns them. *)
Definition Mid (d : Disk) : Prop :=
  upto touched d0 d /\ exists v, owns v /\ ledger_at ledger_path d = Some (normalizeLedger v).

(** The state before the transaction, up to the bytes of the ledger. *)
Definition RolledBack (d : Disk) : Prop :=
  upto (ledger_files ledger_path) d0 d /\ ledger_at ledger_path d = ledger_at ledger_path d0.

Definition Crash (d : Disk) : Prop := covered dir d0 -> covered dir d.

Lemma ledger_dir : Dir ledger_path = dir.
Proof. apply Dir_below; [done|]. by apply (bool_decide_unpack _), I. Qed.

Lemma ledger_files_sensitive n : sensitive_name n -> ~ ledger_files ledger_path (in_dir n).
Proof.
  intros Hs [E|(infix & _ & E)].
  - apply below_inj in E as ->. by apply ledger_name_not_sensitive.
  - rewrite ledger_dir in E. apply below_inj in E as ->. by eapply temp_not_sensitive.
Qed.

Lemma ledger_not_temp : ~ ledger_temp (Dir ledger_path) ledger_path.
Proof. intros (infix & _ & E). rewrite ledger_dir in E. by apply below_inj in E. Qed.

Lemma name_sensitive : sensitive_name name.
Proof. by left. Qed.

Lemma sibling_sensitive kind r : kind ∈ kinds -> sensitive_name (sibling name kind r).
Proof.
  intros Hk. right. exists name, kind. split_and!; [done|done|apply has_prefix_app|].
  unfold sibling. rewrite <- string_app_assoc. apply has_suffix_app.
Qed.

Lemma touched_sensitive f : f ∈ target_path :: transients -> exists n, sensitive_name n /\ f = in_dir n.
Proof.
  destruct kinds_in as (? & ? & ?). unfold transients.
  rewrite !elem_of_cons. intros [-> |[-> |[-> |[-> |[]%not_elem_of_nil]]]]; eexists; (split; [|reflexivity]).
  1: apply name_sensitive. all: by apply sibling_sensitive.
Qed.

(** The four files differ from each other, and from those of the ledger. *)
Lemma paths_distinct : NoDup (target_path :: transients).
Proof.
  destruct kinds_in as (Hp & Hb & Hr).
  assert (Hs : forall k1 k2 r1 r2, k1 ∈ kinds -> k2 ∈ kinds -> k1 <> k2 ->
            in_dir (sibling name k1 r1) <> in_dir (sibling name k2 r2)).
  { intros k1 k2 r1 r2 H1 H2 Hne E%below_inj. by apply Hne, (sibling_distinct name k1 k2 r1 r2). }
  assert (Ht : forall k r, in_dir name <> in_dir (sibling name k r)).
  { intros k r E%below_inj. by apply (sibling_not_target name name k r). }
  repeat constructor; unfold transients; rewrite ?not_elem_of_cons; repeat split;
    try apply not_elem_of_nil; try apply Ht; apply Hs; done.
Qed.

Lemma ledger_untouched f : f ∈ target_path :: transients -> ~ ledger_files ledger_path f.
Proof. intros (n & Hn & ->)%touched_sensitive. by apply ledger_files_sensitive. Qed.

Lemma ledger_at_eq d d' : d' !! ledger_path = d !! ledger_path -> ledger_at ledger_path d' = ledger_at ledger_path d.
Proof. intros E. unfold ledger_at. by rewrite E. Qed.

Lemma Mid_crash d : Mid d -> Crash d.
Proof.
  intros (Hu & v & Hv & Hat) (v0 & Hv0 & Hc). exists (normalizeLedger v). split; [done|].
  intros n Hn Hd. apply normalize_names. change (ledger_at ledger_path d0 = Some v0) in Hv0. simplify_eq.
  destruct (decide (in_dir n ∈ target_path :: transients)) as [Hin|Hout].
  - apply (owns_names v Hv). unfold transients, target_path in Hin. rewrite !elem_of_cons in Hin.
    rewrite !elem_of_cons. destruct Hin as [E|[E|[E|[E|[]%not_elem_of_nil]]]]; apply below_inj in E; auto.
  - apply (owns_previous v Hv), (Hc n Hn). fold (in_dir n) in *. rewrite <- (Hu (in_dir n)); [done|].
    intros [Hl|?]; [|done]. by apply ledger_files_sensitive in Hl.
Qed.

Lemma RolledBack_crash d : RolledBack d -> Crash d.
Proof.
  intros (Hu & Hat) (v0 & Hv0 & Hc). exists v0. split; [unfold ledger_path in Hat; by rewrite <- Hv0|].
  intros n Hn Hd. apply (Hc n Hn). fold (in_dir n) in *. rewrite <- (Hu (in_dir n)); [done|]. by apply ledger_files_sensitive.
Qed.

Lemma Mid_step d d' (Y : string -> Prop) : Mid d -> upto Y d d' -> (forall f, Y f -> f ∈ target_path :: transients) -> Mid d'.
Proof.
  intros (Hu & v & Hv & Hat) Hd HY. split.
  - eapply upto_trans; [done|]. eapply upto_mono; [|done]. intros f Hf. right. auto.
  - exists v. split; [done|]. rewrite <- Hat. apply ledger_at_eq, Hd. intros Hl%HY.
    apply (ledger_untouched _ Hl). by left.
Qed.

Lemma Mid_ledger d d' v : Mid d -> owns v -> upto (ledger_files ledger_path) d d' ->
  d' !! ledger_path = d !! ledger_path \/ written ledger_path v d' -> Mid d'.
Proof.
  intros (Hu & v0 & Hv0 & Hat) Hv Hd Hw. split.
  - eapply upto_trans; [done|]. eapply upto_mono; [|done]. intros f Hf. by left.
  - destruct Hw as [E|Hw].
    + exists v0. split; [done|]. rewrite <- Hat. by apply ledger_at_eq.
    + exists v. split; [done|]. apply written_ledger_at; [apply Hv|done].
Qed.

(** The calls of the transaction keep the invariant. *)
Lemma write_Mid v d : Mid d -> owns v ->
  wpc Crash (writeLedger ops ledger_path v)
     (fun r d' => Mid d' /\ upto (ledger_files ledger_path) d d' /\
        (r = None -> ledger_at ledger_path d' = Some (normalizeLedger v))) d.
Proof.
  intros Hd Hv. eapply wpc_mono; [| |apply (writeLedger_law ledger_path v d ledger_not_temp (owns_text v Hv))].
  - intros d' [Hu Hw]. eapply Mid_crash, Mid_ledger; eauto.
  - intros [e|] d' [Hu Hw]; (split; [eapply Mid_ledger; eauto|split; [done|]]); [done|].
    intros _. apply written_ledger_at; [apply Hv|done].
Qed.

Lemma wipe_Mid f d : f ∈ target_path :: transients -> Mid d ->
  wpc Crash (wipe ops f) (fun r d' => Mid d' /\ upto (eq f) d d' /\ (r = None -> d' !! f = None)) d.
Proof.
  intros Hf Hd. eapply wpc_mono; [| |apply wipe_law].
  - intros d' [Hu _]. eapply Mid_crash, Mid_step; [done|done|]. by intros g <-.
  - intros r d' [[Hu _] Hr]. split; [|by split]. eapply Mid_step; [done|done|]. by intros g <-.
Qed.

(** The inequalities among the four files. *)
Lemma paths_ne : target_path <> in_dir tmp_name /\ target_path <> in_dir bak_name /\ target_path <> in_dir rep_name /\
  in_dir tmp_name <> in_dir bak_name /\ in_dir tmp_name <> in_dir rep_name /\ in_dir bak_name <> in_dir rep_name.
Proof.
  pose proof paths_distinct as [Hn [Htb [Hbr _]%NoDup_cons]%NoDup_cons]%NoDup_cons.
  unfold transients in Hn, Htb, Hbr. rewrite !not_elem_of_cons in Hn, Htb. rewrite not_elem_of_cons in Hbr.
  destruct Hn as (? & ? & Hn). rewrite list_elem_of_singleton in Hn. tauto.
Qed.

(** The failure of a transaction leaves the earlier state or an owned one. *)
Definition Failed (d : Disk) : Prop := RolledBack d \/ Mid d.

Lemma Failed_crash d : Failed d -> Crash d.
Proof. intros [?|?]; auto using RolledBack_crash, Mid_crash. Qed.

Lemma in_transients : in_dir tmp_name ∈ transients /\ in_dir bak_name ∈ transients /\ in_dir rep_name ∈ transients.
Proof. unfold transients. set_solver. Qed.

Lemma wipePaths_Mid d : Mid d ->
  wpc Crash (wipePaths paths ops)
    (fun r d' => Mid d' /\ upto (fun f => f ∈ transients) d d' /\
       (r = None -> forall f, f ∈ transients -> d' !! f = None)) d.
Proof.
  intros Hd. destruct in_transients as (Ht & Hb & Hr).
  destruct paths_ne as (D1 & D2 & D3 & D4 & D5 & D6).
  unfold wipePaths. simpl.
  apply wpc_bind. eapply wpc_mono; [done| |apply wipe_Mid; [by right|done]]. intros a d1 (M1 & U1 & N1).
  apply wpc_bind. eapply wpc_mono; [done| |apply wipe_Mid; [by right|done]]. intros b d2 (M2 & U2 & N2).
  apply wpc_bind. eapply wpc_mono; [done| |apply wipe_Mid; [by right|done]]. intros c d3 (M3 & U3 & N3).
  apply wpc_ret. split; [done|]. split.
  - eapply upto_trans; [|eapply upto_trans]; (eapply upto_mono; [|eassumption]); by intros f <-.
  - intros HJ. apply errors_Join_none in HJ. inversion HJ as [|? ? E1 HJ']; subst.
    inversion HJ' as [|? ? E2 HJ'']; subst. inversion HJ'' as [|? ? E3 _]; subst.
    intros f. unfold transients. rewrite !elem_of_cons. intros [-> |[-> |[-> |[]%not_elem_of_nil]]].
    + rewrite U3, U2 by congruence. auto.
    + rewrite U3 by congruence. auto.
    + auto.
Qed.

(** Restoring the ledger of a directory whose files are as before. *)
Lemma restoreLedger_safe d : Mid d -> upto (ledger_files ledger_path) d0 d ->
  wpc Crash (restoreLedger ledger_path previous existed ops)
    (fun r d' => match r with None => RolledBack d' | Some _ => Mid d' end) d.
Proof.
  intros Hd Hu. destruct (ledger_at_ok _ _ _ Hprev) as (Hok & Htext & Hnorm).
  assert (Hrb : forall d', upto (ledger_files ledger_path) d d' -> written ledger_path previous d' -> RolledBack d').
  { intros d' Hd' Hw. split; [by eapply upto_trans|].
    rewrite (written_ledger_at _ _ _ Hok Hw), Hnorm. done. }
  assert (Hmid : forall d', upto (ledger_files ledger_path) d d' -> d' !! ledger_path = d !! ledger_path -> Mid d').
  { intros d' Hd' E. destruct Hd as (Hu0 & v & Hv & Hat). split.
    - eapply upto_trans; [done|]. eapply upto_mono; [|done]. intros f Hf. by left.
    - exists v. split; [done|]. rewrite <- Hat. by apply ledger_at_eq. }
  unfold restoreLedger. destruct (existed || _ || _) eqn:Eg.
  - eapply wpc_mono; [| |apply (writeLedger_law ledger_path previous d ledger_not_temp Htext)].
    + intros d' [Hd' [E|Hw]]; apply Failed_crash; [right|left]; auto.
    + intros [e|] d' [Hd' Hw]; auto.
  - rewrite !orb_false_iff in Eg. destruct Eg as [[Ee Ei] Ef]. bool_to_prop.
    assert (Hrb' : forall d', upto (ledger_files ledger_path) d d' -> d' !! ledger_path = None -> RolledBack d').
    { intros d' Hd' E. split; [by eapply upto_trans|]. apply ledger_at_eq. by rewrite E, Hexisted. }
    apply wpc_bind, wpc_Remove; [by apply Mid_crash| |].
    + intros b Hb. assert (RolledBack (delete ledger_path d)).
      { apply Hrb'; [apply upto_delete; [by left|done]|by rewrite lookup_delete_eq]. }
      split; [by apply RolledBack_crash|]. by apply wpc_ret.
    + intros e He. apply wpc_ret. destruct (is_not_exist e) eqn:En; [|done]. apply Hrb'; auto with go.
Qed.

Lemma upto_restored d : upto touched d0 d -> (forall f, f ∈ target_path :: transients -> d !! f = d0 !! f) ->
  upto (ledger_files ledger_path) d0 d.
Proof.
  intros Hu Hf f Hn. destruct (decide (f ∈ target_path :: transients)) as [Hin|Hout]; [auto|].
  apply Hu. intros [?|?]; done.
Qed.

Lemma compensateBefore_safe d e : Mid d -> d !! target_path = d0 !! target_path ->
  wpc Crash (compensateBeforePublish ledger_path paths previous existed e ops)
    (fun r d' => r <> None /\ Failed d') d.
Proof.
  intros Hd Ht. unfold compensateBeforePublish. apply wpc_bind.
  eapply wpc_mono; [done| |by apply wipePaths_Mid]. intros [e'|] d1 (M1 & U1 & N1).
  { apply wpc_ret. split; [done|by right]. }
  apply wpc_bind. eapply wpc_mono; [done| |apply restoreLedger_safe; [done|]].
  - intros [e'|] d2 Hd2; apply wpc_ret; (split; [done|]); [by right|by left].
  - apply upto_restored; [apply M1|]. intros f [-> |Hf]%elem_of_cons.
    + rewrite U1; [done|]. pose proof paths_distinct as [Hn _]%NoDup_cons. done.
    + by rewrite N1, Hfree.
Qed.

(** What a publication with or without a previous file left behind. *)
Definition Published (had : bool) (d : Disk) : Prop :=
  if had then d !! in_dir bak_name = d0 !! target_path else d0 !! target_path = None.

Lemma Published_upto had d d' Y : Published had d -> upto Y d d' -> ~ Y (in_dir bak_name) -> Published had d'.
Proof. intros HP Hu HY. unfold Published in *. destruct had; [|done]. by rewrite Hu. Qed.

(** Undoing the publication: with success the target is the previous file. *)
Lemma undo_safe had d : Mid d -> Published had d ->
  wpc Crash (if had then
              restored ← restore ops (in_dir bak_name) target_path (in_dir rep_name);
              wiped ← wipe ops (in_dir rep_name);
              mret (errors_Join [restored; wiped])
            else wipe ops target_path)
    (fun r d' => Mid d' /\ (r = None -> d' !! target_path = d0 !! target_path /\
       (had = true -> d' !! in_dir rep_name = None) /\
       (had = false -> d' !! in_dir rep_name = d !! in_dir rep_name))) d.
Proof.
  intros Hd HP. destruct in_transients as (Ht & Hb & Hr).
  destruct paths_ne as (D1 & D2 & D3 & D4 & D5 & D6).
  destruct had.
  - apply wpc_bind. eapply wpc_mono; [| |apply (restore_law (in_dir bak_name) target_path (in_dir rep_name)); congruence].
    { intros d' Hd'. eapply Mid_crash, Mid_step; [done|done|].
      unfold transients. intros f. rewrite !elem_of_cons. tauto. }
    intros r d1 [U1 E1]. assert (M1 : Mid d1).
    { eapply Mid_step; [done|done|]. unfold transients. intros f. rewrite !elem_of_cons. tauto. }
    apply wpc_bind. eapply wpc_mono; [done| |apply wipe_Mid; [by right|done]]. intros w d2 (M2 & U2 & N2).
    apply wpc_ret. split; [done|]. intros HJ. apply errors_Join_none in HJ.
    inversion HJ as [|? ? Er HJ']; subst. inversion HJ' as [|? ? Ew _]; subst.
    split; [|split; [auto|done]]. rewrite U2 by congruence. rewrite E1 by done. exact HP.
  - eapply wpc_mono; [done| |apply wipe_Mid; [by left|done]]. intros r d1 (M1 & U1 & N1).
    split; [done|]. intros E. split; [by rewrite (N1 E)|]. split; [done|]. intros _. apply U1. congruence.
Qed.

Lemma compensateAfter_safe had d : Mid d -> Published had d ->
  (had = false -> d !! in_dir rep_name = None) ->
  wpc Crash (compensateAfterPublish ledger_path target_path paths previous existed had ops) (fun _ d' => Failed d') d.
Proof.
  intros Hd HP Hrep. destruct in_transients as (Ht & Hb & Hr).
  destruct paths_ne as (D1 & D2 & D3 & D4 & D5 & D6).
  unfold compensateAfterPublish. simpl (replaced paths). simpl (backup paths). simpl (temporary paths).
  apply wpc_bind. eapply wpc_mono; [done| |by apply undo_safe]. intros r d1 (M1 & E1).
  apply wpc_bind. eapply wpc_mono; [done| |apply wipe_Mid; [by right|done]]. intros t d2 (M2 & U2 & N2).
  apply wpc_bind. eapply wpc_mono; [done| |apply wipe_Mid; [by right|done]]. intros b d3 (M3 & U3 & N3).
  destruct (errors_Join [r; t; b]) eqn:EJ; [apply wpc_ret; by right|].
  apply errors_Join_none in EJ. inversion EJ as [|? ? Er EJ']; subst.
  inversion EJ' as [|? ? Et EJ'']; subst. inversion EJ'' as [|? ? Eb _]; subst.
  destruct (E1 eq_refl) as (Etgt & Hyes & Hno).
  eapply wpc_mono; [done| |apply restoreLedger_safe; [done|]].
  { intros [e|] d4 Hd4; [by right|by left]. }
  apply upto_restored; [apply M3|]. intros f. unfold transients. rewrite !elem_of_cons.
  intros [-> |[-> |[-> |[-> |[]%not_elem_of_nil]]]].
  - rewrite U3, U2 by congruence. done.
  - rewrite U3 by congruence. rewrite N2 by done. symmetry. by apply Hfree.
  - rewrite N3 by done. symmetry. by apply Hfree.
  - rewrite U3, U2 by congruence. rewrite (Hfree _ Hr). destruct had; [auto|]. rewrite Hno by done. auto.
Qed.

(** *** The successive ledgers *)

Lemma setPhase_text l n p : utf8_valid p = true ->
  Forall (fun i => Forall (fun t => utf8_valid t = true) [Target i; Temporary i; Backup i; Replaced i; Phase i]) l ->
  Forall (fun i => Forall (fun t => utf8_valid t = true) [Target i; Temporary i; Backup i; Replaced i; Phase i]) (setPhase l n p).
Proof.
  intros Hp Hl. induction Hl as [|x l Hx Hl IH]; simpl; [constructor|].
  case_match; constructor; try done. simpl in *. rewrite !Forall_cons in *. tauto.
Qed.

Lemma setPhase_others l n p i : Target i <> n -> i ∈ setPhase l n p <-> i ∈ l.
Proof.
  intros Hi. induction l as [|x l IH]; simpl; [done|]. case_match; bool_to_prop.
  - rewrite !elem_of_cons. split; intros [-> |?]; auto; simpl in *; done.
  - rewrite !elem_of_cons, IH. done.
Qed.

Lemma setPhase_owns v p : p ∈ phases -> utf8_valid p = true -> owns v ->
  owns (with_intents v (setPhase (Intents v) name p)).
Proof.
  intros Hp Hu [[Hi Hf] [Hti Htf] Hin Hpr Hn Ho Hfi]. split; simpl.
  - split; [by apply setPhase_ok|done].
  - split; [by apply setPhase_text|done].
  - apply hasIntent_iff. rewrite setPhase_targets. by apply hasIntent_iff.
  - intros n Hn'%Hpr. unfold names_of in *. simpl. by rewrite setPhase_names.
  - intros n Hn'%Hn. unfold names_of in *. simpl. by rewrite setPhase_names.
  - intros i Hne. rewrite setPhase_others by done. by apply Ho.
  - done.
Qed.

Lemma elem_of_sortedAdd l x y : x ∈ sortedAdd l y <-> x = y \/ x ∈ l.
Proof.
  unfold sortedAdd. rewrite elem_of_sortedUnique. destruct (contains l y) eqn:E.
  - apply contains_iff in E. naive_solver.
  - rewrite elem_of_app, list_elem_of_singleton. tauto.
Qed.

Lemma sortedAdd_names_ok l : names_ok l -> names_ok (sortedAdd l name).
Proof.
  intros [Hl _]. split; [|apply sortedUnique_NoDup].
  apply Forall_forall. intros x [-> |Hx]%elem_of_sortedAdd; [done|]. rewrite Forall_forall in Hl. by apply Hl.
Qed.

Lemma finalize_owns v : owns v -> owns (mkLedger (SchemaVersion v) (Intents v) (sortedAdd (Finalized v) name)).
Proof.
  intros [[Hi Hf] [Hti Htf] Hin Hpr Hn Ho Hfi]. split; simpl.
  - split; [done|by apply sortedAdd_names_ok].
  - split; [done|]. apply Forall_forall. intros x [-> |Hx]%elem_of_sortedAdd.
    + by apply name_chars_plain, supported_chars.
    + rewrite Forall_forall in Htf. by apply Htf.
  - done.
  - intros n Hn'%Hpr. unfold names_of in *. simpl. rewrite elem_of_app, elem_of_sortedAdd in *. tauto.
  - intros n Hn'%Hn. unfold names_of in *. simpl. rewrite elem_of_app, elem_of_sortedAdd in *. tauto.
  - done.
  - intros n Hne. rewrite elem_of_sortedAdd, <- Hfi by done. tauto.
Qed.

(** The ledger of a finished transaction: the target is finalized, no intent names
    it, and everything else is as in the previous ledger. *)
Record final_ledger (v : ownershipLedger) : Prop := {
  final_ok : ledger_ok v;
  final_text : ledger_text v;
  final_none : hasIntent (Intents v) name = false;
  final_others i : i ∈ Intents v <-> i ∈ Intents previous;
  final_names n : n ∈ Finalized v <-> n = name \/ n ∈ Finalized previous
}.

Context (Hnone : hasIntent (Intents previous) name = false).

Lemma previous_targets i : i ∈ Intents previous -> Target i <> name.
Proof.
  intros Hi E. assert (hasIntent (Intents previous) name = true); [|congruence].
  apply hasIntent_iff. rewrite <- E. apply list_elem_of_In, in_map, list_elem_of_In, Hi.
Qed.

Lemma complete_final v : owns v -> name ∈ Finalized v ->
  final_ledger (with_intents v (removeIntent (Intents v) name)).
Proof.
  intros [[[Hi Hnd] Hf] [Hti Htf] Hin Hpr Hn Ho Hfi] Hname'. unfold removeIntent. split; simpl.
  - split; [|done]. split; [by apply Forall_filter_keep|]. clear -Hnd.
    induction (Intents v) as [|x l IH]; simpl in *; [constructor|]. apply NoDup_cons in Hnd as [Hx Hnd].
    rewrite filter_cons. case_decide; [|auto]. simpl. constructor; [|auto].
    rewrite list_elem_of_In, in_map_iff in *. setoid_rewrite <- list_elem_of_In in Hx. setoid_rewrite <- list_elem_of_In.
    intros (y & Hy & [_ Hin]%list_elem_of_filter). eauto.
  - split; [by apply Forall_filter_keep|done].
  - apply not_true_iff_false. rewrite hasIntent_iff, list_elem_of_In, in_map_iff.
    intros (x & Hx & Hin'). rewrite <- list_elem_of_In, list_elem_of_filter in Hin'. tauto.
  - intros i. rewrite list_elem_of_filter. split.
    + intros [Hne Hi']. by apply Ho.
    + intros Hi'. split; [by apply previous_targets|]. apply Ho; [by apply previous_targets|done].
  - intros n. destruct (decide (n = name)) as [-> |Hne]; [tauto|]. rewrite Hfi by done. tauto.
Qed.

Definition new_intent : ownershipIntent := mkIntent name tmp_name bak_name rep_name "prepared".

Lemma new_intent_ok : check_intent [] new_intent = None /\
  Forall (fun t => utf8_valid t = true) [Target new_intent; Temporary new_intent; Backup new_intent; Replaced new_intent; Phase new_intent].
Proof.
  destruct kinds_in as (Hp & Hb & Hr).
  assert (Hgood : forall kind r, kind ∈ kinds -> bad_transient name kind (sibling name kind r) = false).
  { intros kind r Hk. unfold bad_transient. rewrite Base_plain by by apply sibling_plain.
    rewrite String.eqb_refl. unfold sibling at 1. rewrite has_prefix_app.
    unfold sibling. rewrite <- string_app_assoc. by rewrite has_suffix_app. }
  assert (Hne : forall k1 k2 r1 r2, k1 ∈ kinds -> k2 ∈ kinds -> k1 <> k2 ->
    (sibling name k1 r1 =?s sibling name k2 r2)%go = false).
  { intros k1 k2 r1 r2 H1 H2 Hne. apply String.eqb_neq. intros E. by apply Hne, (sibling_distinct name k1 k2 r1 r2). }
  split.
  - unfold check_intent. simpl Target. simpl Phase. simpl Temporary. simpl Backup. simpl Replaced.
    rewrite Hname. simpl (contains [] name). simpl (contains phases _). cbn [negb orb].
    unfold tmp_name, bak_name, rep_name. by rewrite !Hgood, !Hne.
  - simpl. repeat constructor; try (by apply name_chars_plain, sibling_chars).
    by apply name_chars_plain, supported_chars.
Qed.

Lemma intended_owns : owns (normalizeLedger (with_intents previous (Intents previous ++ [new_intent]))).
Proof.
  destruct (ledger_at_ok _ _ _ Hprev) as ([[Hi Hnd] Hf] & [Hti Htf] & _). destruct new_intent_ok as [Hok Htext].
  set (v := with_intents previous (Intents previous ++ [new_intent])).
  assert (Hv : ledger_ok v).
  { split; [|done]. split; simpl.
    - apply Forall_app. split; [done|]. by apply Forall_singleton.
    - rewrite map_app, NoDup_app. split_and!; [done| |repeat constructor; apply not_elem_of_nil].
      intros x Hx Hx'. simpl in Hx'. apply list_elem_of_singleton in Hx' as ->.
      apply hasIntent_iff in Hx. congruence. }
  assert (Hnames : forall n, n ∈ names_of v <-> n ∈ names_of previous \/ n ∈ [name; tmp_name; bak_name; rep_name]).
  { intros n. unfold names_of, v. simpl. rewrite map_app, concat_app, !elem_of_app. simpl. tauto. }
  split.
  - by apply normalize_ok.
  - apply normalize_text. split; simpl; [|done]. apply Forall_app. split; [done|]. by apply Forall_singleton.
  - rewrite normalize_hasIntent. apply hasIntent_iff. simpl. rewrite map_app, elem_of_app. right. simpl. set_solver.
  - intros n Hn. apply normalize_names, Hnames. auto.
  - intros n Hn. apply normalize_names, Hnames. auto.
  - intros i Hne. simpl. rewrite merge_sort_Permutation, elem_of_app, list_elem_of_singleton.
    split; [intros [?|E]; [done|]; by subst i|auto].
  - intros n Hne. simpl. by rewrite elem_of_sortedUnique.
Qed.

(** *** Publication *)

(** The contract of the writer: it touches the temporary file only, and with success
    leaves there what [W] describes. *)
Context (W : option Entry -> Prop).

Definition Finished (d : Disk) : Prop :=
  upto (fun f => ledger_files ledger_path f \/ f = target_path) d0 d /\ W (d !! target_path) /\
  exists v, final_ledger v /\ ledger_at ledger_path d = Some (normalizeLedger v).

Definition outcome (r : option GoError) (d : Disk) : Prop :=
  match r with None => Finished d | Some _ => Failed d end.

Lemma final_crash v d : final_ledger v ->
  upto (fun f => ledger_files ledger_path f \/ f = target_path) d0 d ->
  ledger_at ledger_path d = Some (normalizeLedger v) -> Crash d.
Proof.
  intros Hv Hu Hat (v0 & Hv0 & Hc). exists (normalizeLedger v). split; [done|].
  change (ledger_at ledger_path d0 = Some v0) in Hv0. simplify_eq.
  intros n Hn Hd. apply normalize_names. destruct (decide (n = name)) as [-> |Hne].
  { unfold names_of. apply elem_of_app. left. apply (final_names v Hv). auto. }
  assert (Hp : n ∈ names_of previous).
  { apply (Hc n Hn). fold (in_dir n) in *. rewrite <- (Hu (in_dir n)); [done|].
    intros [Hl|E]; [by apply ledger_files_sensitive in Hl|by apply below_inj in E]. }
  unfold names_of in *. rewrite elem_of_app in *. destruct Hp as [Hp|Hp].
  - left. apply (final_names v Hv). auto.
  - right. rewrite <- flat_map_concat_map, list_elem_of_In, in_flat_map in *.
    destruct Hp as (i & Hi & Hp). exists i. split; [|done].
    rewrite <- list_elem_of_In in *. by apply (final_others v Hv).
Qed.

(** Completing: the transient files are gone and the last ledger is written. *)
Lemma complete_safe v d : Mid d -> owns v -> name ∈ Finalized v ->
  (forall f, f ∈ transients -> d !! f = None) -> W (d !! target_path) ->
  wpc Crash (completed ← writeLedger ops ledger_path (with_intents v (removeIntent (Intents v) name));
            mret (ErrWrap "complete runtime ownership finalization: " <$> completed)) outcome d.
Proof.
  intros Hd Hv Hin Hgone HW. pose proof (complete_final v Hv Hin) as Hfin.
  set (v' := with_intents v (removeIntent (Intents v) name)) in *.
  assert (Hu0 : upto (fun f => ledger_files ledger_path f \/ f = target_path) d0 d).
  { intros f Hf. destruct (decide (f ∈ transients)) as [Hin'|Hout].
    - by rewrite Hgone, Hfree.
    - apply Hd. intros [?|[?|?]%elem_of_cons]; tauto. }
  assert (Hu : forall d', upto (ledger_files ledger_path) d d' -> upto (fun f => ledger_files ledger_path f \/ f = target_path) d0 d').
  { intros d' Hd'. eapply upto_trans; [done|]. eapply upto_mono; [|done]. tauto. }
  assert (Hsame : forall d', upto (ledger_files ledger_path) d d' -> d' !! ledger_path = d !! ledger_path -> Mid d').
  { intros d' Hd' E. eapply Mid_ledger; eauto. }
  apply wpc_bind.
  eapply wpc_mono; [| |apply (writeLedger_law ledger_path v' d ledger_not_temp (final_text v' Hfin))].
  - intros d' [Hd' [E|Hw]]; [by apply Mid_crash, Hsame|].
    eapply final_crash; [done|by apply Hu|]. apply written_ledger_at; [apply Hfin|done].
  - intros [e|] d' [Hd' Hw]; apply wpc_ret; simpl; [right; auto|].
    split; [by apply Hu|]. split.
    + rewrite Hd'; [done|]. apply ledger_untouched. by left.
    + exists v'. split; [done|]. apply written_ledger_at; [apply Hfin|done].
Qed.

(** A failed record after the publication: the compensation's outcome, with an error. *)
Lemma after_error had d e : Mid d -> Published had d -> (had = false -> d !! in_dir rep_name = None) ->
  wpc Crash (c ← compensateAfterPublish ledger_path target_path paths previous existed had ops;
            mret (errors_Join [Some e; c])) outcome d.
Proof.
  intros Hd HP Hr. apply wpc_bind. eapply wpc_mono; [done| |by apply compensateAfter_safe].
  intros r d' Hd'. by apply wpc_ret.
Qed.

Lemma ledger_keeps d d' f : upto (ledger_files ledger_path) d d' -> f ∈ target_path :: transients -> d' !! f = d !! f.
Proof. intros Hu Hf. by apply Hu, ledger_untouched. Qed.

Lemma publish_file_safe v d : Mid d -> owns v -> W (d !! in_dir tmp_name) ->
  d !! target_path = d0 !! target_path -> d !! in_dir rep_name = None ->
  wpc Crash (publish_file ledger_path target_path name paths previous v existed ops) outcome d.
Proof.
  intros Hd Hv HW Htgt Hrep. destruct in_transients as (Ht & Hb & Hr).
  destruct paths_ne as (D1 & D2 & D3 & D4 & D5 & D6). unfold publish_file. simpl (temporary _). simpl (backup _).
  assert (Hsub : forall f, f ∈ [in_dir tmp_name; target_path; in_dir bak_name] -> f ∈ target_path :: transients).
  { intros f. unfold transients. rewrite !elem_of_cons. tauto. }
  apply wpc_bind.
  eapply wpc_mono; [| |apply (publish_law (in_dir tmp_name) target_path (in_dir bak_name)); congruence].
  { intros d' Hd'. eapply Mid_crash, Mid_step; eauto. }
  intros [had [e|]] d1 [U1 R1]; assert (M1 : Mid d1) by (eapply Mid_step; eauto); simpl in R1.
  { eapply wpc_mono; [done| |apply compensateBefore_safe; [done|by rewrite R1]].
    intros [e'|] d2 [? ?]; done. }
  destruct R1 as (Rt & Rn & Rh).
  assert (HP : Published had d1).
  { unfold Published. destruct had; [destruct Rh as [-> _]; done|]. by rewrite <- Htgt. }
  assert (Hr1 : d1 !! in_dir rep_name = None).
  { rewrite U1; [done|]. rewrite !elem_of_cons. pose proof (not_elem_of_nil (in_dir rep_name)).
    intros [E|[E|[E|E]]]; congruence. }
  pose proof (setPhase_owns v "published" ltac:(unfold phases; set_solver) eq_refl Hv) as Hv1.
  apply wpc_bind. eapply wpc_mono; [done| |by apply write_Mid]. intros [e|] d2 (M2 & U2 & _).
  { apply after_error; [done|eapply Published_upto; [done|done|apply ledger_untouched; by right]|].
    intros _. erewrite ledger_keeps; [exact Hr1|done|by right]. }
  pose proof (finalize_owns _ Hv1) as Hv2.
  apply wpc_bind. eapply wpc_mono; [done| |by apply write_Mid]. intros [e|] d3 (M3 & U3 & _).
  { apply after_error; [done|do 2 (eapply Published_upto; [|done|apply ledger_untouched; by right]); done|].
    intros _. erewrite ledger_keeps; [|done|by right]. erewrite ledger_keeps; [exact Hr1|done|by right]. }
  apply wpc_bind. eapply wpc_mono; [done| |by apply wipePaths_Mid]. intros [e|] d4 (M4 & U4 & N4).
  { apply wpc_ret. by right. }
  apply complete_safe; [done|done| |auto|].
  - apply elem_of_sortedAdd. auto.
  - rewrite U4 by (intros Hf; pose proof paths_distinct as [Hn _]%NoDup_cons; done).
    erewrite ledger_keeps; [|done|by left]. erewrite ledger_keeps; [|done|by left]. by rewrite Rt.
Qed.

Context (writeTemporary : string -> OM (option GoError)).
Context (Hwriter : forall d, wpc (upto (eq (in_dir tmp_name)) d) (writeTemporary (in_dir tmp_name))
  (fun r d' => upto (eq (in_dir tmp_name)) d d' /\ (r = None -> W (d' !! in_dir tmp_name))) d).

Lemma write_and_publish_safe v d : Mid d -> owns v ->
  d !! target_path = d0 !! target_path -> d !! in_dir rep_name = None ->
  wpc Crash (write_and_publish ledger_path target_path name writeTemporary paths previous v existed ops) outcome d.
Proof.
  intros Hd Hv Htgt Hrep. destruct in_transients as (Ht & Hb & Hr).
  destruct paths_ne as (D1 & D2 & D3 & D4 & D5 & D6). unfold write_and_publish. simpl (temporary _).
  assert (Hback : forall e d', Mid d' -> d' !! target_path = d0 !! target_path ->
    wpc Crash (compensateBeforePublish ledger_path paths previous existed e ops) outcome d').
  { intros e d' Hd' E. eapply wpc_mono; [done| |by apply compensateBefore_safe]. intros [e'|] d2 [? ?]; done. }
  assert (HY : forall f, in_dir tmp_name = f -> f ∈ target_path :: transients) by (intros f <-; by right).
  apply wpc_bind. eapply wpc_mono; [| |apply Hwriter].
  { intros d' Hd'. eapply Mid_crash, Mid_step; eauto. }
  intros w d1 [U1 HW]. assert (M1 : Mid d1) by (eapply Mid_step; eauto).
  assert (E1 : d1 !! target_path = d0 !! target_path) by (rewrite U1; congruence).
  assert (R1 : d1 !! in_dir rep_name = None) by (rewrite U1; congruence).
  destruct w as [e|]; [by apply Hback|].
  apply wpc_bind, wpc_Lstat; [by apply Mid_crash| |intros _; by apply Hback|intros e _; by apply Hback].
  intros b Hb'.
  pose proof (setPhase_owns v "temporary-written" ltac:(unfold phases; set_solver) eq_refl Hv) as Hv1.
  apply wpc_bind. eapply wpc_mono; [done| |by apply write_Mid]. intros r d2 (M2 & U2 & _).
  assert (E2 : forall f, f ∈ target_path :: transients -> d2 !! f = d1 !! f) by (intros; by apply ledger_keeps).
  destruct r as [e|]; [apply Hback; [done|rewrite E2; [done|by left]]|].
  pose proof (setPhase_owns _ "publishing" ltac:(unfold phases; set_solver) eq_refl Hv1) as Hv2.
  apply wpc_bind. eapply wpc_mono; [done| |by apply write_Mid]. intros r d3 (M3 & U3 & _).
  assert (E3 : forall f, f ∈ target_path :: transients -> d3 !! f = d2 !! f) by (intros; by apply ledger_keeps).
  destruct r as [e|]; [apply Hback; [done|rewrite E3, E2; [done|by left|by left]]|].
  apply publish_file_safe; [done|done| | |].
  - rewrite E3, E2; [by apply HW|by right|by right].
  - rewrite E3, E2; [done|by left|by left].
  - rewrite E3, E2; [done|by right|by right].
Qed.

Lemma outcome_crash r d : outcome r d -> Crash d.
Proof.
  destruct r; [apply Failed_crash|]. intros (Hu & _ & v & Hv & Hat). by eapply final_crash.
Qed.

(** From the first write of the intent on. *)
Lemma record_safe :
  let intended := normalizeLedger (with_intents previous (Intents previous ++ [new_intent])) in
  wpc Crash (recorded ← writeLedger ops ledger_path intended;
            match recorded with
            | Some e => mret (Some (ErrWrap "record runtime ownership intent: " e))
            | None => write_and_publish ledger_path target_path name writeTemporary paths previous intended existed ops
            end) outcome d0.
Proof.
  intros intended. pose proof intended_owns as Hv. fold intended in Hv.
  assert (Hsame : forall d', upto (ledger_files ledger_path) d0 d' -> d' !! ledger_path = d0 !! ledger_path -> RolledBack d').
  { intros d' Hd' E. split; [done|]. by apply ledger_at_eq. }
  assert (Hmid : forall d', upto (ledger_files ledger_path) d0 d' -> written ledger_path intended d' -> Mid d').
  { intros d' Hd' Hw. split; [eapply upto_mono; [|done]; by left|].
    exists intended. split; [done|]. apply written_ledger_at; [apply Hv|done]. }
  apply wpc_bind.
  eapply wpc_mono; [| |apply (writeLedger_law ledger_path intended d0 ledger_not_temp (owns_text _ Hv))].
  - intros d' [Hd' [E|Hw]]; apply Failed_crash; [left|right]; auto.
  - intros [e|] d1 [Hd1 Hw]; [apply wpc_ret; left; auto|].
    destruct in_transients as (Ht & Hb & Hr).
    apply write_and_publish_safe; [auto|done| |].
    + eapply ledger_keeps; [done|by left].
    + erewrite ledger_keeps; [by apply Hfree|done|by right].
Qed.
End Transaction.

(** ** The theorems *)

Section Theorems.
Context `{OwnerSystem, !OwnerSystemLaws} (ops : ownerOps) `{!OwnerOpsLaws ops}.
Context (dir name : string) (Hdir : clean_dir dir) (Hname : supported name = true).

(** What is assumed of the writer, and of the names that are drawn. *)
Definition writer_keeps (W : option Entry -> Prop) (writeTemporary : string -> OM (option GoError)) : Prop :=
  forall tmp d, wpc (upto (eq tmp) d) (writeTemporary tmp)
    (fun r d' => upto (eq tmp) d d' /\ (r = None -> W (d' !! tmp))) d.

Definition unused_names (d : Disk) : Prop :=
  forall kind n, kind ∈ kinds -> d !! in_dir dir (sibling name kind (random16 n)) = None.

Lemma loadLedger_safe (C : Disk -> Prop) L d : C d ->
  wpc C (loadLedger L) (fun r d' => d' = d /\
    match r with
    | inl (v, existed) => ledger_at L d = Some v /\ (existed = false -> d !! L = None)
    | inr _ => True
    end) d.
Proof.
  intros HC. unfold loadLedger. apply wpc_bind, wpc_ReadFile; [done| |].
  - intros b Hb. apply wpc_ret. split; [done|]. unfold ledger_at. rewrite Hb. by destruct (parse_ledger b).
  - intros e He. apply wpc_ret. split; [done|]. destruct (is_not_exist e) eqn:En; [|done].
    unfold ledger_at. by rewrite He.
Qed.

Lemma uniqueSibling_safe (C : Disk -> Prop) kind (Q : string + GoError -> Disk -> Prop) d : kind ∈ kinds ->
  (forall n, Q (inl (in_dir dir (sibling name kind (random16 n)))) d) -> (forall e, Q (inr e) d) ->
  wpc C (uniqueSibling (in_dir dir name) kind) Q d.
Proof.
  intros Hk Hok He. unfold uniqueSibling. apply wpc_bind, wpc_rand; intros; apply wpc_ret; [|done].
  unfold in_dir. rewrite Dir_below by (try apply supported_plain; done).
  unfold sibling_name. rewrite Base_below by by apply supported_plain.
  rewrite Join_below; [apply Hok|done|by apply sibling_plain].
Qed.

Lemma newIntent_safe (C : Disk -> Prop) (Q : ownershipIntent * intentPaths + GoError -> Disk -> Prop) d :
  (forall nt nb nr, Q (inl (new_intent name (random16 nt) (random16 nb) (random16 nr),
                            paths dir name (random16 nt) (random16 nb) (random16 nr))) d) ->
  (forall e, Q (inr e) d) -> wpc C (newIntent (in_dir dir name)) Q d.
Proof.
  intros Hok He. destruct kinds_in as (Hp & Hb & Hr). unfold newIntent.
  apply wpc_bind, uniqueSibling_safe; [done| |intros; by apply wpc_ret]. intros nt.
  apply wpc_bind, uniqueSibling_safe; [done| |intros; by apply wpc_ret]. intros nb.
  apply wpc_bind, uniqueSibling_safe; [done| |intros; by apply wpc_ret]. intros nr.
  apply wpc_ret. unfold in_dir. rewrite !Base_below by first [by apply supported_plain|by apply sibling_plain].
  exact (Hok nt nb nr).
Qed.

(** The result of [publishAt] on a directory [d0]. *)
Definition publish_outcome (W : option Entry -> Prop) (d0 : Disk) (r : option GoError) (d : Disk) : Prop :=
  match r with
  | None => exists previous, ledger_at (ledger_path dir) d0 = Some previous /\
      hasIntent (Intents previous) name = false /\ Finished dir name d0 previous W d
  | Some _ =>
      RolledBack dir d0 d \/
      exists v, ledger_at (ledger_path dir) d = Some v /\ hasIntent (Intents v) name = true
  end.

Lemma same_outcome W d0 e : publish_outcome W d0 (Some e) d0.
Proof. left. by split. Qed.

Lemma same_crash d0 : Crash dir d0 d0.
Proof. by intros ?. Qed.

Lemma publish_locked_safe W writeTemporary d0 : writer_keeps W writeTemporary -> unused_names d0 ->
  wpc (Crash dir d0) (publish_locked (ledger_path dir) (in_dir dir name) writeTemporary ops)
     (fun r d => publish_outcome W d0 r d /\ Crash dir d0 d) d0.
Proof.
  intros HW Hfree. unfold publish_locked.
  assert (Hbase : Base (in_dir dir name) = name) by by apply Base_below, supported_plain.
  rewrite Hbase, Hname, ledger_dir by done.
  unfold in_dir at 1. rewrite Dir_below, String.eqb_refl by (try apply supported_plain; done). simpl orb.
  apply wpc_bind. eapply wpc_mono; [done| |by apply loadLedger_safe, same_crash]. intros r d [-> Hr].
  destruct r as [[previous existed]|e]; [|apply wpc_ret; split; [apply same_outcome|apply same_crash]].
  destruct Hr as [Hprev Hex]. destruct (hasIntent _ _) eqn:Hint.
  { apply wpc_ret. split; [apply same_outcome|apply same_crash]. }
  apply wpc_bind, newIntent_safe; [|intros e; apply wpc_ret; split; [apply same_outcome|apply same_crash]].
  intros nt nb nr. set (rt := random16 nt). set (rb := random16 nb). set (rr := random16 nr).
  assert (Hf : forall f, f ∈ transients dir name rt rb rr -> d0 !! f = None).
  { intros f. unfold transients. rewrite !elem_of_cons. destruct kinds_in as (? & ? & ?).
    intros [-> |[-> |[-> |[]%not_elem_of_nil]]]; by apply Hfree. }
  eapply wpc_mono; [done| |apply (record_safe ops dir name Hdir Hname d0 previous existed rt rb rr Hprev Hex Hf Hint W writeTemporary)].
  - intros r d Hd. split; [|by eapply outcome_crash]. destruct r as [e|]; simpl in *; [|by eauto].
    destruct Hd as [?|(_ & v & Hv & Hat)]; [by left|]. right. exists (normalizeLedger v). split; [done|].
    rewrite normalize_hasIntent. by eapply owns_intent.
  - intros d. apply HW.
Qed.

Lemma publishAt_safe W writeTemporary d0 : writer_keeps W writeTemporary -> unused_names d0 ->
  wpc (Crash dir d0) (publishAt (ledger_path dir) (in_dir dir name) writeTemporary ops)
     (fun r d => publish_outcome W d0 r d /\ Crash dir d0 d) d0.
Proof.
  intros HW Hfree. unfold publishAt. apply wpc_bind.
  eapply wpc_mono; [done| |apply (lock_law (Crash dir d0) d0), same_crash]. intros [u|e] d ->.
  - apply wpc_bind. eapply wpc_mono; [done| |by apply publish_locked_safe]. intros r d [Hr HC].
    apply wpc_bind. eapply wpc_mono; [done| |by apply (unlock_law (Crash dir d0))]. intros _ d' ->.
    by apply wpc_ret.
  - apply wpc_ret. split; [apply same_outcome|apply same_crash].
Qed.

(** C25. Crash safety: starting from a directory whose sensitive files (targets and
    transient copies) are all named by the durable ledger, every state of the directory in which the
    process may be killed during a publication, and the state it ends in, is again such a directory,
    whatever calls fail. *)
Theorem publish_is_crash_safe W writeTemporary s :
  writer_keeps W writeTemporary -> unused_names (disk s) -> covered dir (disk s) ->
  let s' := (publishAt (ledger_path dir) (in_dir dir name) writeTemporary ops s).2 in
  covered dir (disk s') /\ exists l, trail s' = l ++ trail s /\ Forall (covered dir) l.
Proof.
  intros HW Hfree Hc s'. destruct (publishAt_safe W writeTemporary _ HW Hfree s eq_refl) as [[_ Hend] (l & Hl & Hall)].
  split; [by apply Hend|]. exists l. split; [done|]. eapply Forall_impl; [done|]. intros d Hd. by apply Hd.
Qed.


(** While the ledger holds an intent of the target, whatever its phase, every publication of it is refused,
    and the directory stays as it is. *)
Theorem unresolved_intent_blocks writeTemporary s v :
  ledger_at (ledger_path dir) (disk s) = Some v -> hasIntent (Intents v) name = true ->
  let run := publishAt (ledger_path dir) (in_dir dir name) writeTemporary ops s in
  is_Some run.1 /\ disk run.2 = disk s.
Proof.
  intros Hv Hint. set (d0 := disk s) in *.
  assert (Hwp : wpc (fun d => d = d0) (publishAt (ledger_path dir) (in_dir dir name) writeTemporary ops)
    (fun r d => is_Some r /\ d = d0) d0).
  { unfold publishAt. apply wpc_bind.
    eapply wpc_mono; [intros d Hd; exact Hd| |by apply (lock_law (fun d => d = d0))].
    intros [u|e] d ->; [|by apply wpc_ret].
    apply wpc_bind. unfold publish_locked.
    assert (Hbase : Base (in_dir dir name) = name) by by apply Base_below, supported_plain.
    assert (Hunlock : forall e : GoError, wpc (fun d => d = d0) (unlock ops ;; mret (Some e))
      (fun r d => is_Some r /\ d = d0) d0).
    { intros e. apply wpc_bind. eapply wpc_mono; [intros d Hd; exact Hd| |by apply (unlock_law (fun d => d = d0))].
      intros _ d ->. by apply wpc_ret. }
    rewrite Hbase, Hname, ledger_dir by done.
    unfold in_dir at 1. rewrite Dir_below, String.eqb_refl by (try apply supported_plain; done). simpl orb.
    apply wpc_bind. eapply wpc_mono; [intros d Hd; exact Hd| |by apply (loadLedger_safe (fun d => d = d0))].
    intros [[previous existed]|e] d [-> Hr]; [|apply wpc_ret, Hunlock].
    destruct Hr as [Hprev _]. rewrite Hv in Hprev. injection Hprev as <-. rewrite Hint. apply wpc_ret, Hunlock. }
  by destruct (Hwp s eq_refl).
Qed.
End Theorems.

(** ** Round trip of the ledger, wiping *)

Section Files.
Context `{OwnerSystem, !OwnerSystemLaws}.


End Files.

Section Wiping.
Context `{OwnerSystem}.

Lemma trail_Write f off data s : exists d, trail (os_Write f off data s).2 = d :: trail s.
Proof.
  unfold os_Write, failing, sys, mbind, StateM_bind, next_answer.
  destruct (answers s) as [|[|text n] rest]; simpl; eauto.
Qed.

(** The wiping loop ends: whatever the writes answer, it makes at most one write for
    every started chunk of the file. *)
Theorem wiping_ends f offset remaining s : 0 <= remaining ->
  exists l, trail (zero_loop f offset remaining s).2 = l ++ trail s /\
    Z.of_nat (length l) <= (remaining + chunk - 1) / chunk.
Proof.
  revert s. funelim (zero_loop f offset remaining); intros s Hr; rewrite <- ?Heqcall.
  - unfold mbind, StateM_bind. destruct (os_Write path offset _ s) as [[e|] s1] eqn:E;
      (match type of E with os_Write ?a ?b ?c ?d = _ => destruct (trail_Write a b c d) as [d1 Hd1] end);
      rewrite E in Hd1; simpl in Hd1.
    + exists [d1]. split; [done|]. simpl. unfold chunk in *.
      apply Z.div_le_lower_bound; lia.
    + destruct (H0 None s s1) as (l & Hl & Hlen); [case_match; bool_to_prop; lia|].
      exists (l ++ [d1]). split; [by rewrite Hl, Hd1, <- app_assoc|].
      rewrite length_app. simpl. destruct (remaining <? chunk) eqn:Ec; bool_to_prop; unfold chunk in *.
      * replace (remaining - remaining + 64 * 1024 - 1) with (64 * 1024 - 1) in Hlen by lia.
        change ((64 * 1024 - 1) / (64 * 1024)) with 0 in Hlen.
        assert (1 <= (remaining + 64 * 1024 - 1) / (64 * 1024)) by (apply Z.div_le_lower_bound; lia). lia.
      * replace (remaining + 64 * 1024 - 1) with ((remaining - 64 * 1024 + 64 * 1024 - 1) + 1 * (64 * 1024)) by lia.
        rewrite Z.div_add by lia. lia.
  - exists []. split; [done|]. simpl. apply Z.div_pos; unfold chunk; lia.
Qed.
End Wiping.
