(* ===== verification/RuntimeOwnerDemo.v ===== *)
(** * Runs of the runtime ownership transaction

    A concrete system that keeps the laws of [RuntimeOwner.v], the witnesses of the
    theorems of [RuntimeOwnerSpec.v], and runs that lose the previous file. *)
From S2P Require Import Prelude GoText FilePath RuntimeOwner RuntimeOwnerSpec.

#[local] Open Scope string_scope.
#[local] Open Scope Z_scope.
#[local] Open Scope list_scope.

(** ** A concrete system *)

(** Ledgers as numbers, numbers as texts of binary digits. *)
#[export] Instance ownershipIntent_countable : Countable ownershipIntent.
Proof.
  refine (inj_countable' (fun i => (Target i, Temporary i, Backup i, Replaced i, Phase i))
    (fun '(a, b, c, d, e) => mkIntent a b c d e) _). by intros [].
Defined.
#[export] Instance ownershipLedger_countable : Countable ownershipLedger.
Proof.
  refine (inj_countable' (fun v => (SchemaVersion v, Intents v, Finalized v))
    (fun '(a, b, c) => mkLedger a b c) _). by intros [].
Defined.

Fixpoint text_of_pos (p : positive) : string :=
  match p with xH => "" | xO p => String (byte_of 48) (text_of_pos p) | xI p => String (byte_of 49) (text_of_pos p) end.
Fixpoint pos_of_text (s : string) : positive :=
  match s with
  | "" => xH
  | String c s => if Ascii.eqb c (byte_of 48) then xO (pos_of_text s) else xI (pos_of_text s)
  end.
Lemma pos_of_text_of_pos p : pos_of_text (text_of_pos p) = p.
Proof. induction p as [p IH|p IH|]; simpl; by rewrite ?IH. Qed.

#[export] Instance ledger_text_dec v : Decision (ledger_text v).
Proof. unfold ledger_text. apply _. Defined.

Fixpoint ones (n : nat) : string := match n with O => "" | S n => String (byte_of 49) (ones n) end.

Lemma ones_length n : String.length (ones n) = n.
Proof. induction n; simpl; auto. Qed.

(** Longer than the name of any file of the directory. *)
Definition longest (d : Disk) : nat := map_fold (fun f _ n => Nat.max (String.length f) n) O d.

Lemma longest_bound d f e : d !! f = Some e -> (String.length f <= longest d)%nat.
Proof.
  unfold longest. revert f e. apply (map_fold_weak_ind (fun n (d : Disk) => forall f e, d !! f = Some e -> (String.length f <= n)%nat)).
  - intros f e. by rewrite lookup_empty.
  - intros g x m n _ IH f e. rewrite lookup_insert_Some. intros [[<- _]|[_ Hf]]; [lia|].
    specialize (IH f e Hf). lia.
Qed.

#[export] Instance demo_system : OwnerSystem := {|
  random16 n := ones n;
  temp_infix d dir := ones (longest d);
  ledger_Marshal v := inl (text_of_pos (encode v));
  ledger_Unmarshal b := match decode (pos_of_text b) with
                        | Some v => if decide (ledger_text v) then Some v else None
                        | None => None
                        end
|}.

Lemma ones_digits n : string_all is_digit (ones n) = true.
Proof. induction n; simpl; [done|]. by rewrite IHn. Qed.

#[export] Instance demo_laws : OwnerSystemLaws.
Proof.
  split.
  - intros d dir. destruct (d !! temp_name d dir) as [e|] eqn:E; [|done]. exfalso.
    apply longest_bound in E. unfold temp_name in E. rewrite !string_length_app in E. simpl in E.
    rewrite ones_length in E. lia.
  - intros d dir. apply ones_digits.
  - intros v Hv. exists (text_of_pos (encode v)). split; [done|]. simpl.
    rewrite pos_of_text_of_pos, decode_encode. by rewrite decide_True.
  - intros b v. simpl. destruct (decode _) as [w|]; [|done]. case_decide; [|done]. by intros [= <-].
Qed.

(** ** A publication over an existing file *)
Definition demo_dir : string := "/var/lib/regen".
Definition demo_file (n : string) : string := demo_dir ++s "/" ++s n.
Definition demo_ledger : ownershipLedger := mkLedger 2 [] ["credential.bin"].
Definition demo_disk : Disk :=
  list_to_map [(demo_file "credential.bin", Regular "old");
               (demo_file "runtime-owned.json", Regular (text_of_pos (encode demo_ledger)))].

Definition demo_writer (tmp : string) : OM (option GoError) :=
  created ← os_Create tmp;
  match created with Some e => mret (Some e) | None => os_Write tmp 0 "new" end.

Definition demo_state (failing : list nat) : OS :=
  mkOS demo_disk [] (map (fun i => if decide (i ∈ failing) then Fails "i/o error" 0 else Works) (seq 0 100)) 0.

Definition demo_publish (failing : list nat) : option GoError * OS :=
  publishAt (ledger_path demo_dir) (in_dir demo_dir "credential.bin") demo_writer portableOps (demo_state failing).

Definition demo_summary (r : option GoError * OS) : bool * option Entry * nat :=
  (bool_decide (r.1 = None), disk r.2 !! demo_file "credential.bin", size (disk r.2)).

Lemma demo_dir_clean : clean_dir demo_dir.
Proof. by apply (bool_decide_unpack _), I. Qed.

Example demo_success : demo_summary (demo_publish []) = (true, Some (Regular "new"), 2%nat).
Proof. vm_compute. reflexivity. Qed.

Lemma demo_writer_keeps : writer_keeps (fun e => e = Some (Regular "new")) demo_writer.
Proof.
  intros tmp d. unfold demo_writer. apply wpc_bind, wpc_Create; [apply upto_refl| |].
  2: { intros e. apply wpc_ret. by split. }
  intros Hn. split; [by apply upto_insert|]. set (d1 := <[tmp := Regular ""]> d).
  assert (Hu : forall data, upto (eq tmp) d (write_at tmp 0 data d1)).
  { intros data. apply upto_write; [done|]. by apply upto_insert. }
  apply wpc_Write; [intros n; split; [done|intros e; by split]|done|].
  split; [done|]. intros _. unfold write_at, d1. rewrite lookup_insert_eq, lookup_insert_eq. done.
Qed.

Lemma demo_unused failing : unused_names demo_dir "credential.bin" (disk (demo_state failing)).
Proof.
  intros kind n Hk. simpl. unfold demo_disk. simpl. unfold in_dir.
  rewrite !lookup_insert_ne; [apply lookup_empty| |]; intros E; apply below_inj in E; discriminate E.
Qed.

Lemma demo_covered failing : covered demo_dir (disk (demo_state failing)).
Proof.
  exists demo_ledger. split; [vm_compute; reflexivity|].
  intros n Hn Hd. destruct (decide (n = "credential.bin")) as [-> |Hne]; [vm_compute; set_solver|]. exfalso.
  apply Hd. simpl. unfold demo_disk. simpl. unfold demo_file.
  rewrite lookup_insert_ne by (intros E; apply (below_inj demo_dir "credential.bin" n) in E; congruence).
  rewrite lookup_insert_ne; [apply lookup_empty|]. intros E. apply (below_inj demo_dir ledger_name n) in E. subst n.
  by apply ledger_name_not_sensitive.
Qed.

Lemma publish_is_crash_safe_witness :
  size (disk (demo_publish [30%nat]).2) = 2%nat /\
  let s' := (demo_publish [30%nat]).2 in
  covered demo_dir (disk s') /\
  exists l, trail s' = l ++ trail (demo_state [30%nat]) /\ Forall (covered demo_dir) l.
Proof.
  split; [vm_compute; reflexivity|].
  unfold demo_publish. exact (publish_is_crash_safe portableOps demo_dir "credential.bin" demo_dir_clean eq_refl
    _ demo_writer (demo_state [30%nat]) demo_writer_keeps (demo_unused _) (demo_covered _)).
Defined.



Lemma wiping_ends_witness :
  let f := demo_file "credential.bin" in
  0 <= 150000 /\
  exists l, trail (zero_loop f 0 150000 (demo_state [])).2 = l ++ trail (demo_state []) /\
    Z.of_nat (length l) <= (150000 + chunk - 1) / chunk.
Proof.
  assert (Hsize : 0 <= 150000) by lia. intros f. split; [exact Hsize|].
  exact (wiping_ends f 0 150000 (demo_state []) Hsize).
Defined.

(** ** Runs that lose the previous file *)

(** When the record of a publication fails and the second rename of the restoration
    fails too, the compensation still wipes the backup and the set-aside new file: the
    published file is gone, and no copy of the old or of the new content is left. *)
Theorem failed_restore_destroys_the_file :
  let r := (demo_publish [40%nat; 44%nat]).1 in
  let s' := (demo_publish [40%nat; 44%nat]).2 in
  disk (demo_state []) !! demo_file "credential.bin" = Some (Regular "old") /\
  is_Some r /\ disk s' !! demo_file "credential.bin" = None /\
  Forall (fun fe => fe.2 <> Regular "old" /\ fe.2 <> Regular "new") (map_to_list (disk s')).
Proof.
  intros r s'. split_and!; apply (bool_decide_unpack _); vm_compute; exact I.
Qed.

(** [ReplaceFileW] may fail after it has moved the replaced file to the backup name
    (ERROR_UNABLE_TO_MOVE_REPLACEMENT_2); the replacement keeps its name. *)
#[local] Instance partial_replacement : WindowsFiles := {|
  MoveFileEx := os_Rename;
  ReplaceFileW destination replacement bak :=
    moved ← os_Rename destination bak;
    mret (Some (ErrText "ERROR_UNABLE_TO_MOVE_REPLACEMENT_2"));
  CreateMutex := mret None;
  WaitForSingleObject := mret (inl WaitObject);
  ReleaseMutex := mret tt;
  CloseHandle := mret tt
|}.

(** On Windows such a failure is taken for one that changed nothing: the backup, the only
    copy of the published file, is wiped, and the ledger is restored as if the file were
    still there. *)
Theorem partial_replacement_destroys_the_file :
  let run := publishAt (ledger_path demo_dir) (in_dir demo_dir "credential.bin") demo_writer windowsOps (demo_state []) in
  let r := run.1 in let s' := run.2 in
  is_Some r /\ disk s' !! demo_file "credential.bin" = None /\
  Forall (fun fe => fe.2 <> Regular "old" /\ fe.2 <> Regular "new") (map_to_list (disk s')) /\
  ledger_at (demo_file "runtime-owned.json") (disk s') = Some demo_ledger.
Proof.
  intros run r s'. split_and!; apply (bool_decide_unpack _); vm_compute; exact I.
Qed.

Lemma unresolved_intent_blocks_witness :
  let s := (demo_publish [40%nat; 44%nat]).2 in
  exists v, ledger_at (ledger_path demo_dir) (disk s) = Some v /\ hasIntent (Intents v) "credential.bin" = true /\
  let run := publishAt (ledger_path demo_dir) (in_dir demo_dir "credential.bin") demo_writer portableOps s in
  is_Some run.1 /\ disk run.2 = disk s.
Proof.
  intros s. destruct (ledger_at (ledger_path demo_dir) (disk s)) as [v|] eqn:E.
  - exists v. assert (Hint : hasIntent (Intents v) "credential.bin" = true).
    { assert (Hall : match ledger_at (ledger_path demo_dir) (disk s) with
                     | Some w => hasIntent (Intents w) "credential.bin" = true | None => True end)
        by (vm_compute; reflexivity).
      by rewrite E in Hall. }
    split; [done|]. split; [done|].
    exact (unresolved_intent_blocks portableOps demo_dir "credential.bin" demo_dir_clean eq_refl demo_writer s v E Hint).
  - exfalso. assert (Hsome : bool_decide (is_Some (ledger_at (ledger_path demo_dir) (disk s))) = true)
      by (vm_compute; reflexivity).
    rewrite E in Hsome. discriminate Hsome.
Defined.
