(* ===== verification/Timeline.v ===== *)
(** * The texts of the desktop client ([cmd/overseas-client/traceview.go] and the
    text functions of [viewmodel.go])

    The timeline of trace events, the summaries above it, and the texts for the
    phases and error codes.  The clock text of an event in the local time zone is a
    parameter: the time zone is data of the machine. *)
From stdpp Require Import pretty.
From S2P Require Import Prelude GoText TraceEvent.
From S2P Require AccessModel Controller PipeServer ClientApi.

#[local] Open Scope string_scope.
#[local] Open Scope Z_scope.
#[local] Open Scope list_scope.

(** ** [fmt.Sprintf("%.1f", float64(ms)/1000.0)] *)

(** The quotient rounded to the nearest integer, ties to even. *)
Definition round_half_even (num den : Z) : Z :=
  let q := num / den in
  match 2 * (num mod den) ?= den with
  | Lt => q
  | Gt => q + 1
  | Eq => if Z.even q then q else q + 1
  end.

(** The nearest [float64] of a positive fraction: a mantissa of 53 bits and an
    exponent. *)
Definition nearest_double (num den : Z) : Z * Z :=
  let scaled e := if 0 <=? e then (num, den * 2 ^ e) else (num * 2 ^ (- e), den) in
  let e0 := Z.log2 num - Z.log2 den - 53 in
  let '(n, d) := scaled e0 in
  let e := if n / d <? 2 ^ 53 then e0 else e0 + 1 in
  let '(n, d) := scaled e in (round_half_even n d, e).

(** A mantissa and an exponent as a fraction. *)
Definition fraction (v : Z * Z) : Z * Z :=
  let '(m, e) := v in if 0 <=? e then (m * 2 ^ e, 1) else (m, 2 ^ (- e)).

(** One decimal, the exact value of the double rounded half to even. *)
Definition seconds_text (ms : Z) : string :=
  if ms =? 0 then "0.0"
  else
    let '(n, d) := fraction (nearest_double (Z.abs ms) 1) in
    let '(n, d) := fraction (nearest_double n (d * 1000)) in
    let tenths := round_half_even (n * 10) d in
    (if ms <? 0 then "-" else "") ++s pretty (tenths / 10) ++s "." ++s pretty (tenths mod 10).

Example seconds_texts : map seconds_text [2100; 50; 150; 250; 350; 1; 0; -40; 61949] =
  ["2.1"; "0.1"; "0.1"; "0.2"; "0.3"; "0.0"; "0.0"; "-0.0"; "61.9"].
Proof. vm_compute. reflexivity. Qed.

(** ** The timeline *)
Definition crlf : string := String (byte_of 13) (String (byte_of 10) EmptyString).

Definition level_text (level : string) : string :=
  if level =?s LevelInfo then "INFO"
  else if level =?s LevelWarning then "WARN"
  else if level =?s LevelError then "ERROR" else "".

Definition event_symbol (event : string) : string :=
  if event =?s EventStarted then "→"
  else if event =?s EventSucceeded then "✓"
  else if event =?s EventFailed then "✕"
  else if event =?s EventState then "!" else "".

Definition bool_text (b : bool) : string := if b then "true" else "false".

Definition event_line (clock : Z -> string) (e : Event) : string :=
  clock (EvTimestamp e) ++s " [" ++s level_text (EvLevel e) ++s "] " ++s event_symbol (EvEvent e) ++s
  " [" ++s EvComponent e ++s "] " ++s EvStage e ++s "/" ++s EvEvent e ++s
  match EvElapsedMS e with Some ms => " (" ++s pretty ms ++s " ms)" | None => "" end ++s
  " " ++s EvMessage e.

Definition residue_line (r : Residue) : string :=
  "    residue: managed_rules=" ++s pretty (ManagedRules r) ++s
  " product_routes=" ++s pretty (ProductRoutes r) ++s
  " product_tuns=" ++s pretty (ProductTUNs r) ++s
  " core_processes=" ++s pretty (CoreProcesses r) ++s
  " disabled_prepared_rules=" ++s pretty (DisabledPreparedRules r) ++s
  " snapshot=" ++s bool_text (ResidueSnapshot r) ++s
  " snapshot_phase=" ++s SnapshotPhase r.

Definition event_lines (clock : Z -> string) (e : Event) : list string :=
  [event_line clock e] ++
  (if EvDetail e =?s "" then [] else ["    " ++s EvDetail e]) ++
  match EvResidue e with Some r => [residue_line r] | None => [] end.

Definition generation_header (gen : Z) : string := "===== Generation " ++s pretty gen ++s " =====".

(** The loop: an event whose number was seen is skipped, and a header opens each
    run of events of one generation. *)
Fixpoint timeline_lines (clock : Z -> string) (seen : list Z) (generation : option Z) (events : list Event) : list string :=
  match events with
  | [] => []
  | e :: rest =>
      if bool_decide (EvSequence e ∈ seen) then timeline_lines clock seen generation rest
      else
        (if bool_decide (generation = Some (EvGeneration e)) then [] else [generation_header (EvGeneration e)]) ++
        event_lines clock e ++
        timeline_lines clock (EvSequence e :: seen) (Some (EvGeneration e)) rest
  end.

Definition formatTraceTimeline (clock : Z -> string) (events : list Event) (gap warning : bool) : string :=
  strings_Join
    ((if gap then ["[WARN] ! 部分早期日志已被内存缓冲覆盖，磁盘仍保留"] else []) ++
     (if warning then ["[WARN] ! 日志通道暂不可用，正在重试"] else []) ++
     timeline_lines clock [] None events) crlf.

(** ** Summaries *)
Definition latestGeneration (events : list Event) : Z :=
  fold_left (fun generation e => if generation <? EvGeneration e then EvGeneration e else generation) events 0.

Definition generationSummary (events : list Event) : string :=
  match events with
  | [] => "Generation: —"
  | _ => "Generation: " ++s pretty (latestGeneration events)
  end.

Definition stageSummary (events : list Event) : string :=
  match last events with
  | None => "当前阶段：等待操作"
  | Some e => "当前阶段：" ++s EvStage e ++s " / " ++s EvEvent e
  end.

(** The latest event that carries a residue decides. *)
Fixpoint last_residue (events : list Event) : option Residue :=
  match events with
  | [] => None
  | e :: rest => match last_residue rest with Some r => Some r | None => EvResidue e end
  end.

Definition is_state (s : string) (c : AccessModel.ConnectionState) : bool := s =?s AccessModel.state_string c.

Definition protectionSummary (events : list Event) (status : ClientApi.Status) : string :=
  match last_residue events with
  | Some r =>
      if Residue_IsZero r then "防泄漏状态：无连接残留"
      else "防泄漏状态：" ++s pretty (ManagedRules r) ++s " 条规则；" ++s pretty (ProductRoutes r) ++s " 路由；" ++s
           pretty (ProductTUNs r) ++s " TUN；" ++s pretty (CoreProcesses r) ++s " 核心进程；快照=" ++s
           bool_text (ResidueSnapshot r) ++s "（" ++s SnapshotPhase r ++s "）"
  | None =>
      let state := ClientApi.State status in
      if is_state state AccessModel.StateFailedSafe then "防泄漏状态：应急防护已启用，等待 IT 处理"
      else if is_state state AccessModel.StateConnecting || is_state state AccessModel.StateConnected ||
              is_state state AccessModel.StateRestoring
      then "防泄漏状态：防泄漏保护已启用"
      else "防泄漏状态：尚无残留摘要"
  end.

(** ** Phases and messages *)
Definition phase_name (phase : string) : option string :=
  if phase =?s Controller.PhaseFingerprintSnapshot then Some "正在读取当前网络配置"
  else if phase =?s Controller.PhaseFirewall then Some "正在启用防泄漏保护"
  else if phase =?s Controller.PhaseCore then Some "正在启动访问核心"
  else if phase =?s Controller.PhaseTUN then Some "正在等待 TUN 网卡"
  else if phase =?s Controller.PhaseRouteDNS then Some "正在切换 DNS 与安全路由"
  else if phase =?s Controller.PhaseConnected then Some "已连接"
  else None.

Definition connectionPhaseText (status : ClientApi.Status) : string :=
  let name := default "正在建立安全连接" (phase_name (ClientApi.Phase status)) in
  if (0 <? ClientApi.Step status) && (ClientApi.Step status <=? ClientApi.TotalSteps status)
  then name ++s " · " ++s seconds_text (ClientApi.ElapsedMS status) ++s " 秒 · 第 " ++s
       pretty (ClientApi.Step status) ++s "/" ++s pretty (ClientApi.TotalSteps status) ++s " 步"
  else name.

Definition approvedMessage (status : ClientApi.Status) : string :=
  let code := ClientApi.ErrorCode status in
  let among l := string_in l code in
  if code =?s "" then ""
  else if among [ClientApi.ErrorUnauthorized] then "当前账号未获授权"
  else if among [Controller.ErrorReadinessLost] then "连接中断后已自动恢复普通网络，可重试"
  else if among [Controller.ErrorNetworkChanged] then "网络环境发生变化，已自动恢复，可重试"
  else if among [Controller.ErrorNetworkCapture; Controller.ErrorPublicTCPBlock; Controller.ErrorFirewallEnable;
                 Controller.ErrorFirewallVerify; Controller.ErrorRouteActivationFailed; Controller.ErrorRestoreFailed]
  then "本机安全网络配置失败，已自动恢复，可重试"
  else if among [Controller.ErrorTUNNotFound; Controller.ErrorTUNIdentityMismatch] then "TUN 网卡创建异常，已自动恢复，可重试"
  else if among [Controller.ErrorPreparedUnavailable] then "网络保护配置暂不可用，请稍后重试或联系 IT"
  else if among [Controller.ErrorVPNConflict] then "检测到其他 VPN/代理（如 Clash 系工具）正在运行，请先退出后再连接"
  else if among [Controller.ErrorInvalidPolicy; Controller.ErrorInvalidBinary; Controller.ErrorCredential;
                 Controller.ErrorExpiredCredential; Controller.ErrorRender]
  then "客户端配置需要修复，请联系 IT"
  else if among [Controller.ErrorCoreStart; Controller.ErrorCoreNotReady] then "无法启动访问核心，已自动恢复，可重试"
  else "连接未成功，已自动恢复普通网络，可重试".
