(* ===== verification/ViewModel.v ===== *)
(** * The desktop client's state ([cmd/overseas-client/viewmodel.go],
    [proxy_windows.go])

    The view model with the proxy guard and the registry it takes over.  Every
    operation is cut where the code gives up [v.mu] to wait for the service: what
    happens before the call and what happens with its answer are two atomic
    sections, and [vstep] interleaves the sections of any number of calls.  The
    measurement of the speed test is the environment's: it reports texts. *)
From S2P Require Import Prelude GoText TraceEvent Timeline.
From S2P Require AccessModel Controller PipeServer ClientApi.

#[local] Open Scope string_scope.
#[local] Open Scope Z_scope.
#[local] Open Scope list_scope.

(** ** The proxy guard *)
Record Registry := mkRegistry {
  ProxyEnable : option Z; ProxyServer : option string; AutoConfigURL : option string
}.

Record proxyGuard := mkGuard {
  taken : bool;
  hadProxyEnable : bool;
  hadProxyServer : bool; proxyServer : string;
  hadAutoConfig : bool; autoConfigURL : string
}.

(** The guard, the registry, and whether the next calls on the registry work. *)
Record PS := mkPS { pguard : proxyGuard; registry : Registry; registry_answers : list bool }.

Definition PM : Type -> Type := StateM PS.

Definition free_guard : proxyGuard := mkGuard false false false "" false "".

Definition registry_call : PM bool := fun s =>
  match registry_answers s with
  | [] => (true, s)
  | b :: rest => (b, mkPS (pguard s) (registry s) rest)
  end.

(** A value is read when it exists and the call works. *)
Definition get_value {A} (f : Registry -> option A) : PM (option A) :=
  works ← registry_call; r ← gets (fun s => f (registry s)); mret (if works : bool then r else None).

(** A value is set or deleted when the call works; its error is ignored. *)
Definition set_value (f : Registry -> Registry) : PM unit :=
  works ← registry_call;
  if works : bool then puts (fun s => mkPS (pguard s) (f (registry s)) (registry_answers s)) else mret tt.

Definition set_enable (v : option Z) (r : Registry) : Registry := mkRegistry v (ProxyServer r) (AutoConfigURL r).
Definition set_server (v : option string) (r : Registry) : Registry := mkRegistry (ProxyEnable r) v (AutoConfigURL r).
Definition set_auto (v : option string) (r : Registry) : Registry := mkRegistry (ProxyEnable r) (ProxyServer r) v.

Definition set_guard (g : proxyGuard) : PM unit := puts (fun s => mkPS g (registry s) (registry_answers s)).

Definition when (b : bool) (m : PM unit) : PM unit := if b then m else mret tt.

Definition Take : PM bool :=
  g ← gets pguard;
  if taken g then mret false
  else
    opened ← registry_call;
    if negb opened then mret false
    else
      enabled ← get_value ProxyEnable;
      let active := match enabled with Some v => negb (v =? 0) | None => false end in
      server ← get_value ProxyServer;
      auto ← get_value AutoConfigURL;
      let hasServer := bool_decide (is_Some server) in
      let hasAuto := bool_decide (is_Some auto) in
      if negb active && negb hasServer && negb hasAuto then mret false
      else
        set_guard (mkGuard true active hasServer (default "" server) hasAuto (default "" auto)) ;;
        when active (set_value (set_enable (Some 0))) ;;
        when hasServer (set_value (set_server None)) ;;
        when hasAuto (set_value (set_auto None)) ;;
        mret true.

Definition Restore_proxies : PM unit :=
  g ← gets pguard;
  if negb (taken g) then mret tt
  else
    set_guard (mkGuard false (hadProxyEnable g) (hadProxyServer g) (proxyServer g) (hadAutoConfig g) (autoConfigURL g)) ;;
    opened ← registry_call;
    if negb opened then mret tt
    else
      set_value (set_enable (Some (if hadProxyEnable g then 1 else 0))) ;;
      when (hadProxyServer g) (set_value (set_server (Some (proxyServer g)))) ;;
      when (hadAutoConfig g) (set_value (set_auto (Some (autoConfigURL g)))).

(** ** The view *)
Definition traceBatchLimit : Z := 32.
Definition maxTimelineEvents : nat := 2048.

Definition busyActionConnect : string := "connect".
Definition busyActionDisconnect : string := "disconnect".
Definition busyActionRestore : string := "restore".

Record ViewState := mkViewState {
  SpeedText : string; StatusText : string; DetailText : string; GenerationText : string; StageText : string;
  ProtectionText : string; LogText : string; PrimaryButtonText : string;
  PrimaryEnabled : bool; RestoreEnabled : bool; CopyEnabled : bool; ButtonText : string; ButtonEnabled : bool
}.

Record ViewModel := mkVM {
  status : ClientApi.Status;
  proxies : PS;
  busy : bool;
  busyAction : string;
  retryBlocked : bool;
  traceCursor : Z;
  traceEvents : list Event;
  traceGap : bool;
  traceWarning : bool;
  speedRunning : bool;
  speedText : string
}.

Definition status_of (c : AccessModel.ConnectionState) (code : string) : ClientApi.Status :=
  ClientApi.mkStatus (AccessModel.state_string c) code "" "" 0 0 0.

Definition NewViewModel (r : Registry) (answers : list bool) : ViewModel :=
  mkVM (status_of AccessModel.StatePrepared "") (mkPS free_guard r answers) false "" false 0 [] false false false "".

Definition view_state (v : ViewModel) : string := ClientApi.State (status v).

(** The texts and buttons that depend on the status; [withCompatibility] repeats the primary
    button. *)
Definition with_buttons (s : ViewState) (statusText detail primary : string) (enabled restore : bool) : ViewState :=
  mkViewState (SpeedText s) statusText detail (GenerationText s) (StageText s) (ProtectionText s) (LogText s)
    primary enabled restore (CopyEnabled s) primary enabled.

Definition renderLocked (clock : Z -> string) (v : ViewModel) : ViewState :=
  let state := mkViewState (speedText v) "" "" (generationSummary (traceEvents v)) (stageSummary (traceEvents v))
    (protectionSummary (traceEvents v) (status v))
    (formatTraceTimeline clock (traceEvents v) (traceGap v) (traceWarning v)) "" false false
    (negb (Nat.eqb (length (traceEvents v)) 0)) "" false in
  let st := view_state v in
  if busy v then
    if busyAction v =?s busyActionDisconnect then with_buttons state "正在关闭" "" "正在关闭" false false
    else if busyAction v =?s busyActionRestore then with_buttons state "正在恢复" "" "正在恢复" false false
    else with_buttons state (connectionPhaseText (status v)) "" "正在连接" false false
  else if is_state st AccessModel.StateConnecting then
    with_buttons state (connectionPhaseText (status v)) "" "正在连接" false false
  else if is_state st AccessModel.StatePreparing then
    with_buttons state "正在准备网络保护配置" "" "正在准备网络保护配置" false false
  else if is_state st AccessModel.StateRestoring then
    with_buttons state "正在恢复普通网络" "" "正在恢复普通网络" false false
  else if is_state st AccessModel.StateConnected then with_buttons state "已连接" "" "关闭海外访问" true true
  else if is_state st AccessModel.StateFailedSafe then
    with_buttons state "已进入应急防护"
      "自动恢复未能证明完成，应急防护已启用。请重启本机 RegenBio 服务或联系 IT 处理，期间不会发生公网直连。" "连接不可用" false true
  else if is_state st AccessModel.StatePrepared then
    let failed := negb (ClientApi.ErrorCode (status v) =?s "") in
    with_buttons state "未连接" (approvedMessage (status v)) (if failed then "重试连接" else "开启海外访问") true failed
  else with_buttons state "未连接" "" "开启海外访问" true false.

Definition stateBlocksToggle (state : string) : bool :=
  is_state state AccessModel.StateConnecting || is_state state AccessModel.StatePreparing ||
  is_state state AccessModel.StateRestoring || is_state state AccessModel.StateFailedSafe.

(** ** The atomic sections *)
Definition set_busy (b : bool) (action : string) (v : ViewModel) : ViewModel :=
  mkVM (status v) (proxies v) b action (retryBlocked v) (traceCursor v) (traceEvents v) (traceGap v)
    (traceWarning v) (speedRunning v) (speedText v).

Definition set_trace (cursor : Z) (events : list Event) (gap warning : bool) (v : ViewModel) : ViewModel :=
  mkVM (status v) (proxies v) (busy v) (busyAction v) (retryBlocked v) cursor events gap warning
    (speedRunning v) (speedText v).

Definition set_speed (running : bool) (text : string) (v : ViewModel) : ViewModel :=
  mkVM (status v) (proxies v) (busy v) (busyAction v) (retryBlocked v) (traceCursor v) (traceEvents v)
    (traceGap v) (traceWarning v) running text.

Definition set_proxies (p : PS) (v : ViewModel) : ViewModel :=
  mkVM (status v) p (busy v) (busyAction v) (retryBlocked v) (traceCursor v) (traceEvents v)
    (traceGap v) (traceWarning v) (speedRunning v) (speedText v).

Definition is_connected (v : ViewModel) : bool := is_state (view_state v) AccessModel.StateConnected.

Definition update (next : ClientApi.Status) (nowBusy blocked : bool) (v : ViewModel) : ViewModel :=
  let wasConnected := is_connected v in
  let v := mkVM next (proxies v) nowBusy (if nowBusy then busyAction v else "") blocked (traceCursor v)
             (traceEvents v) (traceGap v) (traceWarning v) (speedRunning v) (speedText v) in
  let connected := is_connected v in
  if connected && negb wasConnected then set_proxies (Take (proxies v)).2 v
  else if negb connected && wasConnected then set_proxies (Restore_proxies (proxies v)).2 v
  else v.

Definition is_unavailable (e : ClientApi.ClientError) : bool :=
  match e with ClientApi.ErrServiceUnavailable _ => true | _ => false end.

Definition statusForClientError (e : ClientApi.ClientError) : ClientApi.Status :=
  if is_unavailable e then status_of AccessModel.StatePrepared Controller.ErrorCoreNotReady
  else status_of AccessModel.StatePrepared Controller.ErrorInvalidBinary.

(** [Refresh]: it asks for the status unless the view is busy. *)
Definition Refresh_begin (v : ViewModel) : bool := negb (busy v).

Definition Refresh_end (answer : ClientApi.Status + ClientApi.ClientError) (v : ViewModel) : ViewModel :=
  match answer with
  | inl s => update s false false v
  | inr e =>
      if is_unavailable e then update (status_of AccessModel.StateDisconnected "") false false v
      else update (status_of AccessModel.StateFailed Controller.ErrorInvalidBinary) false false v
  end.

(** [RefreshTrace]: it asks for the events after the cursor. *)
Definition RefreshTrace_begin (v : ViewModel) : Z := traceCursor v.

Fixpoint append_events (cursor : Z) (events new : list Event) : Z * list Event :=
  match new with
  | [] => (cursor, events)
  | e :: rest =>
      if EvSequence e <=? cursor then append_events cursor events rest
      else append_events (EvSequence e) (events ++ [e]) rest
  end.

Definition RefreshTrace_end (after : Z) (answer : Batch + ClientApi.ClientError) (v : ViewModel) : ViewModel :=
  match answer with
  | inr _ => set_trace (traceCursor v) (traceEvents v) (traceGap v) true v
  | inl batch =>
      let gap := traceGap v ||
        ((0 <? BatchOldestSequence batch) && (wrap_uint64 (after + 1) <? BatchOldestSequence batch)) in
      let '(cursor, events) := append_events (traceCursor v) (traceEvents v) (BatchEvents batch) in
      let cursor := if cursor <? BatchNextSequence batch then BatchNextSequence batch else cursor in
      if (maxTimelineEvents <? length events)%nat
      then set_trace cursor (drop (length events - maxTimelineEvents) events) true false v
      else set_trace cursor events gap false v
  end.

(** [Toggle]: the request it makes, if any. *)
Inductive Call := CallConnect | CallDisconnect.

Definition Toggle_begin (v : ViewModel) : ViewModel * option Call :=
  if busy v || stateBlocksToggle (view_state v) then (v, None)
  else if is_connected v then (set_busy true busyActionDisconnect v, Some CallDisconnect)
  else (set_busy true busyActionConnect v, Some CallConnect).

Definition Toggle_end (answer : ClientApi.Status + ClientApi.ClientError) (v : ViewModel) : ViewModel :=
  update (match answer with inl s => s | inr e => statusForClientError e end) false false v.

Definition Restore_begin (v : ViewModel) : ViewModel * option Call :=
  if busy v then (v, None) else (set_busy true busyActionRestore v, Some CallDisconnect).

Definition Restore_end (answer : ClientApi.Status + ClientApi.ClientError) (v : ViewModel) : ViewModel :=
  let next := match answer with inl s => s | inr e => statusForClientError e end in
  update next false (is_state (ClientApi.State next) AccessModel.StateFailedSafe) v.

(** [RunSpeedTest]: it runs once at a time and only while connected. *)
Definition SpeedTest_begin (v : ViewModel) : ViewModel * bool :=
  if speedRunning v || negb (is_connected v) then (v, false) else (set_speed true (speedText v) v, true).
Definition SpeedTest_report (text : string) (v : ViewModel) : ViewModel := set_speed (speedRunning v) text v.
Definition SpeedTest_end (v : ViewModel) : ViewModel := set_speed false (speedText v) v.

(** [Close], after the pollers have ended. *)
Definition Close (v : ViewModel) : ViewModel := set_proxies (Restore_proxies (proxies v)).2 v.

(** What is copied: the texts, and the events of the newest generation. *)
Definition CopyLogs (clock : Z -> string) (v : ViewModel) : string :=
  let generation := latestGeneration (traceEvents v) in
  let state := renderLocked clock v in
  "状态：" ++s StatusText state ++s crlf ++s "保护：" ++s ProtectionText state ++s crlf ++s
  formatTraceTimeline clock (filter (fun e => EvGeneration e = generation) (traceEvents v)) false (traceWarning v).

(** ** Interleavings *)
Inductive VThread :=
  | Refreshing
  | Toggling (call : Call)
  | Restoring
  | Tracing (after : Z)
  | Measuring.

Record World := mkWorld { view : ViewModel; threads : list VThread }.

(** [served] says what a request for the events after a number may be answered. *)
Inductive vstep (served : Z -> Batch + ClientApi.ClientError -> Prop) : World -> World -> Prop :=
  | step_refresh_skip w : Refresh_begin (view w) = false -> vstep served w w
  | step_refresh w : Refresh_begin (view w) = true -> vstep served w (mkWorld (view w) (threads w ++ [Refreshing]))
  | step_refreshed w l r answer : threads w = l ++ Refreshing :: r ->
      vstep served w (mkWorld (Refresh_end answer (view w)) (l ++ r))
  | step_toggle_skip w : (Toggle_begin (view w)).2 = None -> vstep served w w
  | step_toggle w v call : Toggle_begin (view w) = (v, Some call) -> vstep served w (mkWorld v (threads w ++ [Toggling call]))
  | step_toggled w l call r answer : threads w = l ++ Toggling call :: r ->
      vstep served w (mkWorld (Toggle_end answer (view w)) (l ++ r))
  | step_restore_skip w : (Restore_begin (view w)).2 = None -> vstep served w w
  | step_restore w v call : Restore_begin (view w) = (v, Some call) -> vstep served w (mkWorld v (threads w ++ [Restoring]))
  | step_restored w l r answer : threads w = l ++ Restoring :: r ->
      vstep served w (mkWorld (Restore_end answer (view w)) (l ++ r))
  | step_trace w : vstep served w (mkWorld (view w) (threads w ++ [Tracing (RefreshTrace_begin (view w))]))
  | step_traced w l after r answer : threads w = l ++ Tracing after :: r -> served after answer ->
      vstep served w (mkWorld (RefreshTrace_end after answer (view w)) (l ++ r))
  | step_measure w v : SpeedTest_begin (view w) = (v, true) -> vstep served w (mkWorld v (threads w ++ [Measuring]))
  | step_report w text : Measuring ∈ threads w -> vstep served w (mkWorld (SpeedTest_report text (view w)) (threads w))
  | step_measured w l r : threads w = l ++ Measuring :: r -> vstep served w (mkWorld (SpeedTest_end (view w)) (l ++ r)).

Inductive vreachable (served : Z -> Batch + ClientApi.ClientError -> Prop) (w0 : World) : World -> Prop :=
  | vreach_start : vreachable served w0 w0
  | vreach_step w w' : vreachable served w0 w -> vstep served w w' -> vreachable served w0 w'.

Definition new_world (r : Registry) (answers : list bool) : World := mkWorld (NewViewModel r answers) [].
