(* ===== verification/ViewModelSpec.v ===== *)
(** * What the desktop client shows and asks for

    Invariants of [ViewModel.v] in every interleaving: the buttons agree with the
    guards, the proxy settings come back, the timeline is complete or flagged when it
    follows the recorder of [TraceRecorder.v]; and the races of the polling. *)
From S2P Require Import Prelude GoText TraceEvent TraceRecorder Timeline ViewModel.
From S2P Require AccessModel Controller LocalApi PipeServer ClientApi.
From stdpp Require Import relations.

#[local] Open Scope string_scope.
#[local] Open Scope Z_scope.
#[local] Open Scope list_scope.

(** ** Buttons *)

Lemma is_state_iff s c : is_state s c = true <-> s = AccessModel.state_string c.
Proof. apply String.eqb_eq. Qed.

(** The primary button is enabled exactly when [Toggle] would make a request, its older
    copy agrees, and an enabled restore button is one that [Restore] obeys. *)
Theorem buttons_agree_with_the_guards clock v :
  let shown := renderLocked clock v in
  (PrimaryEnabled shown = true <-> is_Some (Toggle_begin v).2) /\
  (RestoreEnabled shown = true -> is_Some (Restore_begin v).2) /\
  ButtonEnabled shown = PrimaryEnabled shown /\ ButtonText shown = PrimaryButtonText shown.
Proof.
  assert (Hno : is_Some (@None Call) <-> False) by (split; [by intros []|done]).
  assert (Hyes : forall c : Call, is_Some (Some c) <-> True) by (intros c; split; [done|by exists c]).
  unfold renderLocked, Toggle_begin, Restore_begin, stateBlocksToggle, is_connected.
  destruct (busy v); simpl.
  { repeat case_match; simpl; rewrite ?Hno; intuition congruence. }
  destruct (is_state (view_state v) AccessModel.StateConnecting) eqn:E1; simpl; [rewrite Hno; intuition congruence|].
  destruct (is_state (view_state v) AccessModel.StatePreparing) eqn:E2; simpl; [rewrite Hno; intuition congruence|].
  destruct (is_state (view_state v) AccessModel.StateRestoring) eqn:E3; simpl; [rewrite Hno; intuition congruence|].
  destruct (is_state (view_state v) AccessModel.StateConnected) eqn:E4.
  { apply is_state_iff in E4. rewrite E4. simpl. rewrite !Hyes. tauto. }
  destruct (is_state (view_state v) AccessModel.StateFailedSafe) eqn:E5; simpl.
  { rewrite Hno, Hyes. intuition congruence. }
  destruct (is_state (view_state v) AccessModel.StatePrepared) eqn:E6; simpl; rewrite !Hyes; intuition congruence.
Qed.

(** ** The phases of a transition *)

(** The status that the service client returns never carries a phase, so the header of
    a running transition has one text: neither its phase, nor its step, nor its
    duration is ever shown. *)
Theorem phases_are_never_shown `{ClientApi.ClientSystem, LocalApi.Json} action w s :
  (ClientApi.requestStatus action w).1 = inl s -> connectionPhaseText s = "正在建立安全连接".
Proof.
  unfold ClientApi.requestStatus, mbind, StateM_bind, mret, StateM_ret.
  destruct (ClientApi.request _ w) as [[r|e] w']; intros [= <-]. reflexivity.
Qed.

(** ** The proxy settings *)

(** A property of the view that depends on the status and the guard only, kept by every
    step that keeps it through [update] and [set_proxies]. *)
Lemma update_proxies next b blocked v :
  proxies (update next b blocked v) =
    if is_state (ClientApi.State next) AccessModel.StateConnected
    then if is_connected v then proxies v else (Take (proxies v)).2
    else if is_connected v then (Restore_proxies (proxies v)).2 else proxies v.
Proof.
  unfold update, is_connected at 1 3, view_state at 1 2. cbn [status].
  destruct (is_state (ClientApi.State next) _), (is_connected v); reflexivity.
Qed.

Lemma update_status next b blocked v : status (update next b blocked v) = next.
Proof. unfold update. by repeat case_match. Qed.

Lemma trace_end_frame after answer v :
  status (RefreshTrace_end after answer v) = status v /\ proxies (RefreshTrace_end after answer v) = proxies v /\
  busy (RefreshTrace_end after answer v) = busy v.
Proof. unfold RefreshTrace_end. by repeat case_match. Qed.

Lemma begin_frame v v' call :
  (Toggle_begin v = (v', Some call) \/ Restore_begin v = (v', Some call)) ->
  status v' = status v /\ proxies v' = proxies v /\ busy v = false /\ busy v' = true.
Proof.
  unfold Toggle_begin, Restore_begin. destruct (busy v); simpl; [by intros [[=]|[=]]|].
  intros [E|[= <- _]]; [|done]. destruct (stateBlocksToggle _); [done|].
  destruct (is_connected v); by injection E as <- _.
Qed.

Lemma speed_frame v v' : SpeedTest_begin v = (v', true) -> status v' = status v /\ proxies v' = proxies v /\ busy v' = busy v.
Proof. unfold SpeedTest_begin. case_match; [done|]. by intros [= <-]. Qed.

(** Rule induction for a property of the status and the guard. *)
Lemma proxies_invariant (P : bool -> PS -> Prop) served w0 w :
  (forall p, P false p -> P true (Take p).2) -> (forall p, P true p -> P false (Restore_proxies p).2) ->
  P (is_connected (view w0)) (proxies (view w0)) -> vreachable served w0 w -> P (is_connected (view w)) (proxies (view w)).
Proof.
  intros Htake Hrestore H0 Hr. induction Hr as [|w w' Hr IH Hstep]; [done|].
  assert (Hup : forall next b blocked, P (is_connected (update next b blocked (view w))) (proxies (update next b blocked (view w)))).
  { intros next b blocked. rewrite update_proxies. unfold is_connected at 1, view_state. rewrite update_status.
    destruct (is_state (ClientApi.State next) _), (is_connected (view w)); auto. }
  assert (Hframe : forall v, status v = status (view w) -> proxies v = proxies (view w) -> P (is_connected v) (proxies v)).
  { intros v Hs Hp. unfold is_connected, view_state. by rewrite Hs, Hp. }
  destruct Hstep as [|? ?|? ? ? ? ?|? ?|? ? ? Hb|? ? ? ? ? ?|? ?|? ? ? Hb|? ? ? ? ?|?|? ? after ? answer ? ?|? ? Hb|? ? ?|? ? ? ?];
    simpl in *; try done; try apply Hup.
  - unfold Refresh_end. repeat case_match; apply Hup.
  - destruct (begin_frame _ _ _ (or_introl Hb)) as (? & ? & _). auto.
  - destruct (begin_frame _ _ _ (or_intror Hb)) as (? & ? & _). auto.
  - destruct (trace_end_frame after answer (view w)) as (? & ? & _). auto.
  - destruct (speed_frame _ _ Hb) as (? & ? & _). auto.
Qed.

Lemma keeps_registry_call : keeps pguard registry_call.
Proof. intros s. unfold registry_call. by destruct (registry_answers s). Qed.

Lemma keeps_set_value f : keeps pguard (set_value f).
Proof. apply keeps_bind; [apply keeps_registry_call|]. intros []; [by apply keeps_puts|apply keeps_ret]. Qed.

Lemma keeps_when b m : keeps pguard m -> keeps pguard (when b m).
Proof. destruct b; [done|intros _; apply keeps_ret]. Qed.

Lemma Restore_released p : taken (pguard (Restore_proxies p).2) = false.
Proof.
  unfold Restore_proxies, gets. unfold mbind at 1, StateM_bind at 1.
  destruct (taken (pguard p)) eqn:E; [|done]. cbn [negb]. unfold mbind at 1, StateM_bind at 1, set_guard, puts.
  match goal with |- context [pguard (?m ?s).2] => assert (Hk : keeps pguard m) end; [|by rewrite Hk].
  apply keeps_bind; [apply keeps_registry_call|]. intros []; [|apply keeps_ret].
  apply keeps_bind; [apply keeps_set_value|intros _].
  apply keeps_bind; [apply keeps_when, keeps_set_value|intros _]. apply keeps_when, keeps_set_value.
Qed.

(** The settings before they are taken, in the form in which they are put back. *)
Definition proxy_active (r : Registry) : bool := match ProxyEnable r with Some v => negb (v =? 0) | None => false end.
Definition normal (r : Registry) : Registry :=
  mkRegistry (Some (if proxy_active r then 1 else 0)) (ProxyServer r) (AutoConfigURL r).

Section Settings.
Context (r0 : Registry).

Definition settled (r : Registry) : Prop := r = r0 \/ r = normal r0.

Definition settings_ok (connected : bool) (p : PS) : Prop :=
  registry_answers p = [] /\
  if taken (pguard p)
  then connected = true /\ hadProxyEnable (pguard p) = proxy_active r0 /\
       (if hadProxyServer (pguard p) then Some (proxyServer (pguard p)) else None) = ProxyServer r0 /\
       (if hadAutoConfig (pguard p) then Some (autoConfigURL (pguard p)) else None) = AutoConfigURL r0 /\
       (hadProxyServer (pguard p) = false -> ProxyServer (registry p) = None) /\
       (hadAutoConfig (pguard p) = false -> AutoConfigURL (registry p) = None)
  else settled (registry p).

Lemma Take_settings p : settings_ok false p -> settings_ok true (Take p).2.
Proof.
  intros [Ha Hs]. destruct p as [g r ans]. simpl in *. subst ans.
  destruct (taken g) eqn:Et; [by destruct Hs|].
  assert (Hr : proxy_active r = proxy_active r0 /\ ProxyServer r = ProxyServer r0 /\ AutoConfigURL r = AutoConfigURL r0).
  { destruct Hs as [-> | ->]; [done|]. unfold normal, proxy_active. simpl.
    repeat case_match; simplify_eq/=; bool_to_prop; try done; lia. }
  destruct Hr as (Hact & Hserver & Hauto).
  unfold Take, get_value, registry_call, set_guard, set_value, when, gets, puts, mbind, StateM_bind, mret, StateM_ret.
  cbn [pguard registry registry_answers]. rewrite Et. cbn [pguard registry registry_answers negb].
  fold (proxy_active r). unfold settings_ok. rewrite <- Hact, <- Hserver, <- Hauto.
  destruct (proxy_active r) eqn:Ea, (ProxyServer r) as [sv|] eqn:Es, (AutoConfigURL r) as [au|] eqn:Eu; simpl;
    rewrite ?Et, ?Es, ?Eu; split_and!; try done; exact Hs.
Qed.

Lemma Restore_settings p : settings_ok true p -> settings_ok false (Restore_proxies p).2.
Proof.
  intros [Ha Hs]. destruct p as [g r ans]. simpl in *. subst ans.
  unfold Restore_proxies, registry_call, set_guard, set_value, when, gets, puts, mbind, StateM_bind, mret, StateM_ret.
  cbv beta iota zeta. cbn [pguard registry registry_answers taken].
  destruct (taken g) eqn:Et; cbn [negb]; [|split; [done|]; simpl; by rewrite Et].
  destruct Hs as (_ & Hact & Hserver & Hauto & Hns & Hna). simpl.
  unfold settings_ok. destruct r as [e sv au]. simpl in *.
  destruct (hadProxyServer g), (hadAutoConfig g); simpl; split; try done; right; unfold normal; simpl;
    rewrite <- Hserver, <- Hauto, Hact; unfold set_server, set_auto, set_enable; simpl; f_equal; auto.
Qed.
End Settings.

(** Whatever the service answers and however calls overlap, while the registry works:
    whenever the client does not show a connection, the user's proxy settings are
    untouched or put back, [ProxyEnable] as 0 or 1. *)
Theorem proxy_settings_come_back r0 served w :
  vreachable served (new_world r0 []) w -> is_connected (view w) = false ->
  registry (proxies (view w)) = r0 \/ registry (proxies (view w)) = normal r0.
Proof.
  intros Hr Hc.
  assert (Hinv : settings_ok r0 (is_connected (view w)) (proxies (view w))).
  { apply (proxies_invariant (settings_ok r0) served (new_world r0 []) w);
      [apply Take_settings|apply Restore_settings|by split; [|left]|done]. }
  destruct Hinv as [_ Hs]. destruct (taken _); [destruct Hs as [Hs _]; congruence|exact Hs].
Qed.

(** A registry without the value is given one: what is put back is not exactly what was
    there. *)
Example absent_ProxyEnable_becomes_zero :
  let r0 := mkRegistry None (Some "127.0.0.1:7890") None in
  registry (Restore_proxies (Take (mkPS free_guard r0 [])).2).2 = mkRegistry (Some 0) (Some "127.0.0.1:7890") None.
Proof. reflexivity. Qed.

(** ** Requests in flight *)
Definition is_request (t : VThread) : bool := match t with Toggling _ | Restoring => true | _ => false end.
Definition is_refresh (t : VThread) : bool := match t with Refreshing => true | _ => false end.
Definition requests (w : World) : nat := length (filter (fun t => is_request t = true) (threads w)).

(** Worlds reached without a status answer outstanding while a request is. *)
Definition calm (w : World) : Prop := existsb is_refresh (threads w) = true -> requests w = 0%nat.

Inductive calm_reachable (served : Z -> Batch + ClientApi.ClientError -> Prop) (w0 : World) : World -> Prop :=
  | calm_start : calm w0 -> calm_reachable served w0 w0
  | calm_step w w' : calm_reachable served w0 w -> vstep served w w' -> calm w' -> calm_reachable served w0 w'.

Lemma requests_app l r : length (filter (fun t => is_request t = true) (l ++ r)) =
  (length (filter (fun t => is_request t = true) l) + length (filter (fun t => is_request t = true) r))%nat.
Proof. by rewrite filter_app, length_app. Qed.

Lemma requests_cons t r : length (filter (fun t => is_request t = true) (t :: r)) =
  ((if is_request t then 1 else 0) + length (filter (fun t => is_request t = true) r))%nat.
Proof. rewrite filter_cons. case_decide; destruct (is_request t); done. Qed.

Lemma update_busy next b blocked v : busy (update next b blocked v) = b.
Proof. unfold update. by repeat case_match. Qed.

Lemma Refresh_end_busy answer v : busy (Refresh_end answer v) = false.
Proof. unfold Refresh_end. destruct answer as [s|e]; [|destruct (is_unavailable e)]; apply update_busy. Qed.

(** The view is busy exactly while one request is in flight, as long as no answer to
    [Status] is outstanding at the same time. *)
Theorem one_request_at_a_time r0 answers served w :
  calm_reachable served (new_world r0 answers) w -> requests w = if busy (view w) then 1%nat else 0%nat.
Proof.
  induction 1 as [_|w w' Hr IH Hstep Hcalm]; [done|].
  assert (Hc : calm w) by (by destruct Hr).
  assert (Hdrop : forall l t r, threads w = l ++ t :: r ->
    requests w = (requests (mkWorld (view w) (l ++ r)) + if is_request t then 1 else 0)%nat).
  { intros l t r E. unfold requests. rewrite E. cbn [threads]. rewrite !requests_app, requests_cons. lia. }
  destruct Hstep as [|? ?|? l r ? Et|? ?|? ? ? Hb|? l ? r ? Et|? ?|? ? ? Hb|? l r ? Et|?|? l after r answer Et ?|? ? Hb|? ? ?|? l r Et];
    simpl in *; try done; try (specialize (Hdrop _ _ _ Et); simpl in Hdrop).
  - unfold requests in *. cbn [threads]. rewrite requests_app. simpl. lia.
  - assert (H0 : requests w = 0%nat).
    { apply Hc. rewrite Et, existsb_app. simpl. apply orb_true_r. }
    unfold requests in *. cbn [threads] in *. rewrite Refresh_end_busy. lia.
  - destruct (begin_frame _ _ _ (or_introl Hb)) as (_ & _ & Hf & Ht). rewrite Hf in IH. rewrite Ht.
    unfold requests in *. cbn [threads]. rewrite requests_app, IH. done.
  - unfold requests in *. cbn [threads] in *. unfold Toggle_end. rewrite update_busy.
    destruct (busy (view w)); lia.
  - destruct (begin_frame _ _ _ (or_intror Hb)) as (_ & _ & Hf & Ht). rewrite Hf in IH. rewrite Ht.
    unfold requests in *. cbn [threads]. rewrite requests_app, IH. done.
  - unfold requests in *. cbn [threads] in *. unfold Restore_end. rewrite update_busy.
    destruct (busy (view w)); lia.
  - unfold requests in *. cbn [threads]. rewrite requests_app. simpl. lia.
  - destruct (trace_end_frame after answer (view w)) as (_ & _ & ->). unfold requests in *. cbn [threads] in *. lia.
  - destruct (speed_frame _ _ Hb) as (_ & _ & ->). unfold requests in *. cbn [threads]. rewrite requests_app. simpl. lia.
  - unfold requests in *. cbn [threads] in *. lia.
Qed.

(** [Refresh] tests [busy] before it asks for the status and writes it when the answer
    arrives: a click in between makes a request, the answer clears [busy], and a second
    click starts a second [Connect] while the first is in flight. *)
Theorem refresh_lets_a_second_connect_start r0 answers served :
  exists w, vreachable served (new_world r0 answers) w /\ threads w = [Toggling CallConnect; Toggling CallConnect].
Proof.
  set (w0 := new_world r0 answers).
  set (v1 := set_busy true busyActionConnect (view w0)).
  set (v2 := Refresh_end (inl (status_of AccessModel.StatePrepared "")) v1).
  set (v3 := set_busy true busyActionConnect v2).
  exists (mkWorld v3 [Toggling CallConnect; Toggling CallConnect]). split; [|done].
  apply (vreach_step _ _ (mkWorld v2 [Toggling CallConnect])); [|by apply (step_toggle served (mkWorld v2 [Toggling CallConnect]))].
  apply (vreach_step _ _ (mkWorld v1 [Refreshing; Toggling CallConnect]));
    [|by apply (step_refreshed served (mkWorld v1 [Refreshing; Toggling CallConnect]) [])].
  apply (vreach_step _ _ (mkWorld (view w0) [Refreshing])); [|by apply (step_toggle served (mkWorld (view w0) [Refreshing]))].
  apply (vreach_step _ _ w0); [apply vreach_start|by apply (step_refresh served w0)].
Qed.

(** ** Runs *)
Lemma phases_are_never_shown_witness :
  let w := "ok" ++s LocalApi.newline in
  exists s, (@ClientApi.requestStatus ClientApi.demo_client PipeServer.demo_json "status" w).1 = inl s /\
    ClientApi.State s = "connected" /\ connectionPhaseText s = "正在建立安全连接".
Proof.
  eexists. split; [vm_compute; reflexivity|]. split; [reflexivity|].
  apply (@phases_are_never_shown ClientApi.demo_client PipeServer.demo_json "status" ("ok" ++s LocalApi.newline)).
  vm_compute. reflexivity.
Defined.

Definition demo_registry : Registry := mkRegistry (Some 1) (Some "127.0.0.1:7890") None.
Definition demo_answer (c : AccessModel.ConnectionState) : ClientApi.Status + ClientApi.ClientError := inl (status_of c "").
Definition demo_refreshed (c : AccessModel.ConnectionState) (w : World) : World :=
  mkWorld (Refresh_end (demo_answer c) (view w)) (threads w).

Lemma demo_refresh served w0 w c : threads w = [] -> busy (view w) = false ->
  vreachable served w0 w -> vreachable served w0 (demo_refreshed c w).
Proof.
  intros Ht Hb Hr. destruct w as [v l]. simpl in *. subst l.
  eapply vreach_step; [eapply vreach_step; [exact Hr|]|].
  - apply step_refresh. unfold Refresh_begin. simpl. by rewrite Hb.
  - exact (step_refreshed served (mkWorld v [Refreshing]) [] [] (demo_answer c) eq_refl).
Qed.

(** The proxy is taken while connected, and comes back. *)
Lemma proxy_settings_come_back_witness :
  let w1 := demo_refreshed AccessModel.StateConnected (new_world demo_registry []) in
  let w2 := demo_refreshed AccessModel.StatePrepared w1 in
  registry (proxies (view w1)) = mkRegistry (Some 0) None None /\
  (registry (proxies (view w2)) = demo_registry \/ registry (proxies (view w2)) = normal demo_registry).
Proof.
  intros w1 w2. split; [reflexivity|].
  apply (proxy_settings_come_back demo_registry (fun _ _ => True) w2); [|reflexivity].
  apply demo_refresh; [reflexivity..|]. apply demo_refresh; [reflexivity..|]. apply vreach_start.
Defined.

Lemma one_request_at_a_time_witness :
  let w := mkWorld (set_busy true busyActionConnect (NewViewModel demo_registry [])) [Toggling CallConnect] in
  busy (view w) = true /\ requests w = 1%nat.
Proof.
  intros w. split; [reflexivity|].
  apply (one_request_at_a_time demo_registry [] (fun _ _ => True) w).
  apply (calm_step _ _ (new_world demo_registry [])).
  - apply calm_start. discriminate.
  - exact (step_toggle (fun _ _ => True) (new_world demo_registry []) _ CallConnect eq_refl).
  - discriminate.
Defined.
