(* ===== verification/TimelineFollow.v ===== *)
(** * The client's timeline against the recorder of the service

    The view of [ViewModel.v] polls, through the pipe server's trimming, the recorder
    of [TraceRecorder.v] while it records.  [mem_step] is what recording does to the
    memory and to the history of everything ever appended; the timeline is that history
    up to its cursor, or shows the gap. *)
From S2P Require Import Prelude GoText TraceEvent TraceRecorder Timeline ViewModel ViewModelSpec.
From S2P Require AccessModel PipeServer ClientApi.
From stdpp Require Import relations.

#[local] Open Scope string_scope.
#[local] Open Scope Z_scope.
#[local] Open Scope list_scope.

(** ** What recording does to the memory *)
Section History.
Context `{TraceSystem} (config : RecorderConfig).

(** The counter and the memory, with the history of the appended events. *)
Definition Mem : Type := Z * list Event * list Event.

Inductive mem_step : Mem -> Mem -> Prop :=
  | mem_tick n mem hist : n + 1 < 2 ^ 64 -> mem_step (n, mem, hist) (n + 1, mem, hist)
  | mem_append n mem hist e : 0 < n -> EvSequence e = n -> Forall (fun e' => EvSequence e' < n) hist ->
      mem_step (n, mem, hist) (n, appendMemory config e mem, hist ++ [e]).

Definition mem_of (s : RS) (hist : list Event) : Mem := (sequence (rec s), events (rec s), hist).

Definition given_out (n : Z) (hist : list Event) : Prop := Forall (fun e => EvSequence e <= n) hist.

Context (capacity_positive : 0 < MemoryCapacity config) (clock_nonzero : forall w, (sys_Now w).1 <> 0).
Context (m0 : Mem).

Definition stepped (k : Z) (s : RS) : Prop :=
  budget config k s /\ exists hist, rtc mem_step m0 (mem_of s hist) /\ given_out (sequence (rec s)) hist.

Definition about_to_append (k : Z) (e : Event) (s : RS) : Prop :=
  prepared config k e s /\
  exists hist, rtc mem_step m0 (mem_of s hist) /\ Forall (fun e' => EvSequence e' < EvSequence e) hist.

Lemma prepareLocked_counter ev s : sequence (rec s) + 1 < 2 ^ 64 -> 0 <= sequence (rec s) ->
  sequence (rec (prepareLocked ev s).2) = sequence (rec s) + 1 /\ events (rec (prepareLocked ev s).2) = events (rec s).
Proof.
  intros Hs H0. unfold prepareLocked, on_rec, get_rec, system, puts, gets, mbind, StateM_bind, mret, StateM_ret.
  cbn [rec tworld ops set_sequence sequence]. destruct (sys_Now (tworld s)) as [now w].
  destruct (SanitizeDetail (EvDetail ev) []) as [d t]. simpl. by rewrite uint64_incr_small by lia.
Qed.

#[local] Instance stepped_walk : MemoryWalk config stepped about_to_append.
Proof.
  split.
  - intros k s s' [= E1 E2] [Hb (hist & Hr & Hg)].
    split; [unfold budget, memory_ok in *; by rewrite E1, E2|].
    exists hist. unfold mem_of. by rewrite E1, E2.
  - intros k k' s Hk [Hb He]. split; [by eapply budget_weaken|done].
  - intros k ev Hk s [Hb (hist & Hr & Hg)].
    destruct (prepareLocked_ok config clock_nonzero k ev Hk s Hb) as [Hp Hf]. split; [split; [done|]|done].
    destruct Hb as [(_ & _ & _ & H0) Hb]. destruct (prepareLocked_counter ev s) as [E1 E2]; [lia|done|].
    destruct Hp as (_ & He & _). exists hist. split.
    + eapply rtc_r; [done|]. unfold mem_of. rewrite E1, E2. apply mem_tick. lia.
    + rewrite He, E1. eapply Forall_impl; [done|]. simpl. lia.
  - intros k e s [Hp (hist & Hr & Hl)]. split; [|apply Hp]. split; [apply Hp|]. exists hist. split; [done|].
    destruct Hp as (_ & He & _). rewrite <- He. eapply Forall_impl; [done|]. simpl. lia.
  - intros k e Hv s [Hp (hist & Hr & Hl)]. split; [by apply (appendMemory_ok config capacity_positive k e s)|].
    destruct Hp as (_ & He & _ & H1). exists (hist ++ [e]). split.
    + eapply rtc_r; [done|]. unfold mem_of. simpl. apply mem_append; [lia|done|]. by rewrite <- He.
    + simpl. apply Forall_app. split; [|apply Forall_singleton; lia].
      eapply Forall_impl; [done|]. simpl. lia.
Qed.
End History.

(** Recording an event is a sequence of such steps. *)
Lemma Record_steps `{TraceSystem} config event s hist :
  0 < MemoryCapacity config -> (forall w, (sys_Now w).1 <> 0) ->
  budget config 2 s -> given_out (sequence (rec s)) hist ->
  let s' := (Record_ config event s).2 in
  exists hist', rtc (mem_step config) (mem_of s hist) (mem_of s' hist').
Proof.
  intros Hc Hn Hb Hg s'.
  pose proof (stepped_walk config Hc Hn (mem_of s hist)) as Hwalk.
  pose proof (walk_Record config Hc Hn (stepped config (mem_of s hist)) (about_to_append config (mem_of s hist))
    0 event ltac:(lia) s) as Hw.
  destruct Hw as [_ (hist' & Hr & _)]; [|by exists hist'].
  split; [done|]. exists hist. split; [constructor|done].
Qed.

(** ** Polling *)

Definition mem_ok (hist mem : list Event) (n : Z) : Prop :=
  (exists old, hist = old ++ mem) /\ StronglySorted seq_lt hist /\ given_out n hist /\ 0 <= n < 2 ^ 64.

Lemma sorted_snoc l e : StronglySorted seq_lt l -> Forall (fun e' => EvSequence e' < EvSequence e) l ->
  StronglySorted seq_lt (l ++ [e]).
Proof.
  induction 1 as [|x l Hs IH Hx]; simpl; intros Hl; [repeat constructor|].
  apply Forall_cons in Hl as [Hxe Hl]. constructor; [auto|]. apply Forall_app. split; [done|]. by apply Forall_singleton.
Qed.

(** The numbers up to which a reader may have read. *)
Definition read_up_to (hist : list Event) (cursor : Z) : Prop :=
  cursor = 0 \/ exists e, e ∈ hist /\ EvSequence e = cursor.

(** Events that come after everything in the history. *)
Definition later (hist new : list Event) : Prop := forall cursor, read_up_to hist cursor -> Forall (fun e => cursor < EvSequence e) new.

Lemma read_up_to_app hist new cursor : read_up_to hist cursor -> read_up_to (hist ++ new) cursor.
Proof. intros [->|(e & He & E)]; [by left|]. right. exists e. set_solver. Qed.

Lemma mem_step_ok config n mem hist n' mem' hist' : mem_ok hist mem n ->
  mem_step config (n, mem, hist) (n', mem', hist') ->
  mem_ok hist' mem' n' /\ exists new, hist' = hist ++ new /\ later hist new.
Proof.
  intros ((old & Ho) & Hs & Hg & Hn) Hstep. inversion Hstep; subst.
  - split; [|exists []; rewrite app_nil_r; by split; [|constructor]].
    split; [by exists old|]. split; [done|]. split; [|lia]. eapply Forall_impl; [done|]. simpl. lia.
  - split.
    + split; [|split; [|split; [|done]]].
      * unfold appendMemory. destruct (_ =? _).
        -- destruct mem as [|x mem]; [by exists old; rewrite <- app_assoc|].
           exists (old ++ [x]). simpl. by rewrite <- !app_assoc.
        -- exists old. by rewrite <- app_assoc.
      * by apply sorted_snoc.
      * apply Forall_app. split; [done|]. by apply Forall_singleton.
    + eexists. split; [reflexivity|]. intros cursor Hc. apply Forall_singleton.
      destruct Hc as [->|(e' & He' & <-)]; [lia|].
      match goal with H : Forall _ (old ++ mem) |- _ => rewrite Forall_forall in H; by apply H end.
Qed.

Lemma mem_steps_ok config m m' : rtc (mem_step config) m m' ->
  mem_ok m.2 m.1.2 m.1.1 -> mem_ok m'.2 m'.1.2 m'.1.1 /\ exists new, m'.2 = m.2 ++ new /\ later m.2 new.
Proof.
  induction 1 as [[[n mem] hist]|[[n mem] hist] [[n1 mem1] hist1] [[n2 mem2] hist2] Hstep Hr IH]; intros Hok; simpl in *.
  { split; [done|]. exists []. rewrite app_nil_r. by split; [|constructor]. }
  destruct (mem_step_ok _ _ _ _ _ _ _ Hok Hstep) as (Hok1 & new1 & -> & Hl1).
  destruct (IH Hok1) as (Hok2 & new2 & -> & Hl2). split; [done|]. exists (new1 ++ new2). split; [by rewrite app_assoc|].
  intros cursor Hc. apply Forall_app. split; [by apply Hl1|]. apply Hl2. by apply read_up_to_app.
Qed.

(** *** One answer *)

(** The answers to a request for the events after [after]: an error, or a batch of the
    recorder that the pipe server may have shortened. *)
Definition served_by (r : Recorder) (after : Z) (answer : Batch + ClientApi.ClientError) : Prop :=
  match answer with
  | inl b => exists count, b = PipeServer.trimmed (Batch_ r after traceBatchLimit) after count
  | inr _ => True
  end.

Definition up_to (cursor : Z) (hist : list Event) : list Event := filter (fun e => EvSequence e <= cursor) hist.

(** The timeline is the history up to the cursor, or the gap is shown. *)
Definition complete (v : ViewModel) (hist : list Event) : Prop :=
  read_up_to hist (traceCursor v) /\ (traceGap v = true \/ traceEvents v = up_to (traceCursor v) hist).

Lemma sorted_NoDup l : StronglySorted seq_lt l -> NoDup l.
Proof.
  induction 1 as [|x l Hs IH Hx]; constructor; [|done]. intros Hin.
  rewrite Forall_forall in Hx. specialize (Hx _ Hin). unfold seq_lt in Hx. lia.
Qed.

#[local] Instance seq_lt_trans : Transitive seq_lt.
Proof. intros x y z. unfold seq_lt. lia. Qed.

Lemma sorted_ext l l' : StronglySorted seq_lt l -> StronglySorted seq_lt l' -> (forall e, e ∈ l <-> e ∈ l') -> l = l'.
Proof.
  intros Hl Hl' He. apply (Sorted_unique_strong seq_lt).
  - unfold seq_lt. intros. lia.
  - by apply StronglySorted_Sorted.
  - by apply StronglySorted_Sorted.
  - apply NoDup_Permutation; auto using sorted_NoDup.
Qed.

Lemma sorted_filter (P : Event -> Prop) `{!forall x, Decision (P x)} l : StronglySorted seq_lt l -> StronglySorted seq_lt (filter P l).
Proof.
  induction 1 as [|x l Hs IH Hx]; [constructor|]. rewrite filter_cons. case_decide; [|done].
  constructor; [done|]. rewrite Forall_forall in *. intros e [_ He]%list_elem_of_filter. auto.
Qed.

Lemma append_events_spec cursor events page : StronglySorted seq_lt page ->
  append_events cursor events page = (last_sequence cursor (newer cursor page), events ++ newer cursor page).
Proof.
  intros Hs. revert cursor events. induction Hs as [|e page Hs IH He]; intros cursor events; simpl.
  { unfold newer. simpl. by rewrite app_nil_r. }
  rewrite newer_cons. destruct (EvSequence e <=? cursor) eqn:E; [by rewrite IH|]. bool_to_prop.
  assert (Hall : forall c, c <= EvSequence e -> newer c page = page).
  { intros c Hc. apply newer_all. eapply Forall_impl; [done|]. unfold seq_lt. simpl. lia. }
  rewrite IH, !Hall by lia. rewrite <- app_assoc. simpl. f_equal.
  unfold last_sequence. change (e :: page) with ([e] ++ page). rewrite last_app. by destruct (last page).
Qed.

Lemma last_newer c page : StronglySorted seq_lt page -> newer c page = [] \/ last (newer c page) = last page.
Proof.
  induction 1 as [|e page Hs IH He]; [by left|]. rewrite newer_cons.
  destruct (EvSequence e <=? c) eqn:E; bool_to_prop.
  - destruct IH as [->|IH]; [by left|]. destruct page as [|y page]; [by left|]. right. by rewrite IH.
  - right. rewrite newer_all; [done|]. eapply Forall_impl; [done|]. unfold seq_lt. simpl. lia.
Qed.

Lemma sorted_last page : StronglySorted seq_lt page ->
  forall e x, e ∈ page -> last page = Some x -> EvSequence e <= EvSequence x.
Proof.
  induction 1 as [|y page Hs IH Hy]; intros e x; [by intros ?%not_elem_of_nil|].
  intros [->|He]%elem_of_cons Hl.
  - destruct page as [|z page]; [by injection Hl as <-|]. change (last (z :: page) = Some x) in Hl.
    apply last_Some_elem_of in Hl. rewrite Forall_forall in Hy. specialize (Hy _ Hl). unfold seq_lt in Hy. lia.
  - destruct page as [|z page]; [by apply not_elem_of_nil in He|]. by apply IH.
Qed.

Lemma Batch_oldest r after limit :
  BatchOldestSequence (Batch_ r after limit) = 0 /\ (events r = [] \/ limit <= 0) \/
  exists first l, events r = first :: l /\ BatchOldestSequence (Batch_ r after limit) = EvSequence first.
Proof.
  unfold Batch_. destruct (events r) as [|first l]; [left; auto|].
  destruct (limit <=? 0) eqn:E; bool_to_prop; [left; auto|]. right. exists first, l. split; [done|].
  by rewrite batch_loop_spec by (simpl; auto; lia).
Qed.

(** The new cursor is the old one or the number the batch ends with, whichever is greater. *)
Definition next_cursor (cursor after : Z) (page : list Event) : Z :=
  let cursor1 := last_sequence cursor (newer cursor page) in
  if cursor1 <? last_sequence after page then last_sequence after page else cursor1.

Lemma next_cursor_cases cursor after page : StronglySorted seq_lt page -> after <= cursor ->
  cursor <= next_cursor cursor after page /\ last_sequence after page <= next_cursor cursor after page /\
  (next_cursor cursor after page = cursor \/ next_cursor cursor after page = last_sequence after page).
Proof.
  intros Hs Ha. unfold next_cursor, last_sequence.
  assert (Hn : forall e, last (newer cursor page) = Some e -> cursor < EvSequence e).
  { intros e He%last_Some_elem_of. unfold newer in He. by apply list_elem_of_filter in He as [? _]. }
  destruct (last_newer cursor page Hs) as [->|E]; simpl.
  - case_match; bool_to_prop; lia.
  - rewrite <- E. destruct (last (newer cursor page)) as [e|]; [|].
    + specialize (Hn e eq_refl). rewrite Z.ltb_irrefl. lia.
    + case_match; bool_to_prop; lia.
Qed.

Lemma take_sorted n (l : list Event) : StronglySorted seq_lt l -> StronglySorted seq_lt (take n l).
Proof.
  intros Hs. revert n. induction Hs as [|x l Hs IH Hx]; intros [|n]; simpl; try constructor; auto.
  rewrite Forall_forall in *. intros e He. apply Hx. by eapply subseteq_take.
Qed.

(** Everything that may have been read is in the history. *)
Lemma next_cursor_read hist cursor after page : page ⊆ hist -> read_up_to hist cursor -> read_up_to hist after ->
  read_up_to hist (next_cursor cursor after page).
Proof.
  intros Hp Hc Ha. assert (Hl : forall c l, l ⊆ hist -> read_up_to hist c -> read_up_to hist (last_sequence c l)).
  { intros c l Hsub Hr. unfold last_sequence. destruct (last l) as [e|] eqn:E; [|done].
    right. exists e. split; [by apply Hsub, last_Some_elem_of|done]. }
  unfold next_cursor. case_match; apply Hl; try done.
  intros e [_ He]%list_elem_of_filter. by apply Hp.
Qed.

(** The events that one page adds to a complete timeline, when the memory still reaches
    back to the number the request started from. *)
Lemma page_extends hist mem old cursor after page rest :
  hist = old ++ mem -> StronglySorted seq_lt hist -> 0 <= after <= cursor ->
  newer after mem = page ++ rest ->
  match mem with [] => True | first :: _ => EvSequence first <= after + 1 \/ EvSequence first <= 0 end ->
  up_to cursor hist ++ newer cursor page = up_to (next_cursor cursor after page) hist.
Proof.
  intros Hh Hs Ha Hn Hold.
  assert (Hsm : StronglySorted seq_lt (page ++ rest)).
  { rewrite <- Hn. apply sorted_filter. rewrite Hh in Hs. by eapply StronglySorted_app_1_r. }
  assert (Hsp : StronglySorted seq_lt page) by (apply (take_sorted (length page)) in Hsm; by rewrite take_app_length in Hsm).
  destruct (next_cursor_cases cursor after page Hsp ltac:(lia)) as (Hc1 & Hc2 & Hc3).
  assert (Hpage : forall e, e ∈ page -> e ∈ hist /\ EvSequence e <= last_sequence after page).
  { intros e He. assert (Hin : e ∈ newer after mem) by (rewrite Hn; set_solver).
    apply list_elem_of_filter in Hin as [_ Hin]. split; [rewrite Hh; set_solver|].
    unfold last_sequence. destruct (last page) as [x|] eqn:El; [by apply (sorted_last page Hsp)|].
    apply last_None in El. subst page. by apply not_elem_of_nil in He. }
  apply sorted_ext.
  - assert (Hleft : StronglySorted seq_lt (up_to cursor hist)) by by apply sorted_filter.
    assert (Hright : StronglySorted seq_lt (newer cursor page)) by by apply sorted_filter.
    apply StronglySorted_app_2; [|done|done]. intros x y [Hx _]%list_elem_of_filter [Hy _]%list_elem_of_filter.
    unfold seq_lt. lia.
  - by apply sorted_filter.
  - intros e. unfold up_to, newer. rewrite elem_of_app, !list_elem_of_filter. split.
    + intros [[He Hin]|[He Hin]]; [split; [lia|done]|]. destruct (Hpage e Hin). split; [lia|done].
    + intros [He Hin]. destruct (decide (EvSequence e <= cursor)) as [?|Hgt]; [by left|]. right. split; [lia|].
      assert (Hmem : e ∈ mem).
      { rewrite Hh, elem_of_app in Hin. destruct Hin as [Hin|?]; [|done]. destruct mem as [|first mem].
        - unfold newer in Hn. simpl in Hn. symmetry in Hn. apply app_eq_nil in Hn as [-> _].
          unfold last_sequence in Hc2, Hc3. simpl in *. lia.
        - exfalso. rewrite Hh in Hs. assert (seq_lt e first) as Hlt by (eapply (StronglySorted_app_1_elem_of _ old (first :: mem)); [done|done|set_solver]).
          rewrite newer_cons in Hn. unfold seq_lt in Hlt. lia. }
      assert (Hin' : e ∈ page ++ rest) by (rewrite <- Hn; apply list_elem_of_filter; split; [lia|done]).
      apply elem_of_app in Hin' as [?|Hr]; [done|]. exfalso.
      unfold last_sequence in Hc3. destruct (last page) as [x|] eqn:El; [|lia].
      assert (seq_lt x e) as Hlt by (eapply (StronglySorted_app_1_elem_of _ page rest); [done|by apply last_Some_elem_of|done]).
      unfold seq_lt in Hlt. lia.
Qed.

(** *** Polling while recording *)

Lemma served_page r hist after count : mem_ok hist (events r) (sequence r) ->
  let b := PipeServer.trimmed (Batch_ r after traceBatchLimit) after count in
  exists rest, newer after (events r) = BatchEvents b ++ rest /\ StronglySorted seq_lt (BatchEvents b) /\
    BatchNextSequence b = last_sequence after (BatchEvents b) /\
    BatchOldestSequence b = BatchOldestSequence (Batch_ r after traceBatchLimit).
Proof.
  intros ((old & Hh) & Hs & _). destruct (Batch_spec r after traceBatchLimit ltac:(by unfold traceBatchLimit)) as (He & _).
  unfold PipeServer.trimmed. cbn [BatchEvents BatchNextSequence BatchOldestSequence]. rewrite He, take_take.
  set (n := (count `min` _)%nat). exists (drop n (newer after (events r))). split; [by rewrite take_drop|].
  split; [|done]. apply take_sorted, sorted_filter. rewrite Hh in Hs. by eapply StronglySorted_app_1_r.
Qed.

Lemma refreshed_trace r hist after count v : mem_ok hist (events r) (sequence r) -> after <= traceCursor v ->
  let b := PipeServer.trimmed (Batch_ r after traceBatchLimit) after count in
  let v' := RefreshTrace_end after (inl b) v in
  let all := traceEvents v ++ newer (traceCursor v) (BatchEvents b) in
  traceCursor v' = next_cursor (traceCursor v) after (BatchEvents b) /\
  (traceGap v' = false -> traceEvents v' = all /\ traceGap v = false /\
     ((0 <? BatchOldestSequence b) && (wrap_uint64 (after + 1) <? BatchOldestSequence b)) = false).
Proof.
  intros Hm Ha b v'. destruct (served_page r hist after count Hm) as (rest & _ & Hsp & Hnext & _).
  fold b in Hsp, Hnext. unfold v', RefreshTrace_end. rewrite append_events_spec, Hnext by done.
  fold (next_cursor (traceCursor v) after (BatchEvents b)).
  destruct (maxTimelineEvents <? _)%nat; split; try done. simpl. by intros [-> ->]%orb_false_iff.
Qed.

Lemma answer_keeps_complete r hist after answer v :
  mem_ok hist (events r) (sequence r) -> complete v hist ->
  0 <= after <= traceCursor v -> read_up_to hist after -> served_by r after answer ->
  complete (RefreshTrace_end after answer v) hist /\ traceCursor v <= traceCursor (RefreshTrace_end after answer v).
Proof.
  intros Hm [Hr Hc] Ha Hra Hserved. destruct answer as [b|e]; [|by split]. destruct Hserved as (count & ->).
  destruct (served_page r hist after count Hm) as (rest & Hn & Hsp & Hnext & Hold).
  destruct (refreshed_trace r hist after count v Hm ltac:(lia)) as [Hcur Hev].
  set (b := PipeServer.trimmed _ _ _) in *. destruct Hm as ((old & Hh) & Hs & _).
  destruct (next_cursor_cases (traceCursor v) after (BatchEvents b) Hsp ltac:(lia)) as (Hc1 & _).
  split; [|lia]. split; rewrite Hcur.
  - apply next_cursor_read; [|done|done]. intros e Hin.
    assert (Hin' : e ∈ newer after (events r)) by (rewrite Hn; apply elem_of_app; auto).
    apply list_elem_of_filter in Hin' as [_ ?]. rewrite Hh. apply elem_of_app. auto.
  - destruct (traceGap (RefreshTrace_end after (inl b) v)); [by left|]. right.
    destruct (Hev eq_refl) as (-> & Hg & Eg). destruct Hc as [Hc|Hc]; [congruence|]. rewrite Hc.
    eapply page_extends; [exact Hh|done|done|exact Hn|]. rewrite Hold in Eg.
    destruct (Batch_oldest r after traceBatchLimit) as [[_ [->|Hl]]|(first & l & -> & Hfirst)]; [done|done|].
    rewrite Hfirst in Eg. assert (Hwrap : wrap_uint64 (after + 1) <= after + 1) by (apply Z.mod_le; lia).
    apply andb_false_iff in Eg as [Eg|Eg]; bool_to_prop; lia.
Qed.

(** A recorder that starts again, for a second diagnostic session or after a restart
    of the service, counts from one: until it has counted past the cursor of a client
    that stayed open, its events are not shown and no gap is. *)
Theorem restarted_recorder_is_not_shown config r v count :
  memory_ok config r -> sequence r <= traceCursor v -> traceCursor v + 1 < 2 ^ 64 ->
  (length (traceEvents v) <= maxTimelineEvents)%nat ->
  let after := RefreshTrace_begin v in
  let v' := RefreshTrace_end after (inl (PipeServer.trimmed (Batch_ r after traceBatchLimit) after count)) v in
  traceEvents v' = traceEvents v /\ traceGap v' = traceGap v /\ traceCursor v' = traceCursor v.
Proof.
  intros (_ & _ & Hev & H0) Hle Hc Hlen. unfold RefreshTrace_begin. cbv zeta. set (after := traceCursor v).
  destruct (Batch_spec r after traceBatchLimit ltac:(by unfold traceBatchLimit)) as (He & _).
  assert (Hnew : newer after (events r) = []).
  { unfold newer, after. clear He. induction Hev as [|e l [? _] _ IH]; [done|]. rewrite filter_cons_False; [apply IH|lia]. }
  rewrite Hnew, take_nil in He. unfold PipeServer.trimmed, RefreshTrace_end. cbn [BatchEvents BatchNextSequence BatchOldestSequence].
  rewrite He, take_nil. cbn [append_events last_sequence last]. unfold last_sequence. simpl.
  rewrite (proj2 (Nat.ltb_ge _ _) Hlen), Z.ltb_irrefl. simpl. split; [done|]. split; [|done].
  assert (Hold : BatchOldestSequence (Batch_ r after traceBatchLimit) <= after).
  { destruct (Batch_oldest r after traceBatchLimit) as [[-> _]|(first & l & E & ->)]; [unfold after; lia|].
    rewrite E in Hev. apply Forall_cons in Hev as [[? _] _]. unfold after. lia. }
  unfold wrap_uint64. rewrite Z.mod_small by (unfold after in *; lia). rewrite (proj2 (Z.ltb_ge (after + 1) _)) by lia.
  by rewrite andb_false_r, orb_false_r.
Qed.

Lemma update_trace next b blocked v :
  traceCursor (update next b blocked v) = traceCursor v /\ traceGap (update next b blocked v) = traceGap v /\
  traceEvents (update next b blocked v) = traceEvents v.
Proof. unfold update. by repeat case_match. Qed.

Lemma begin_trace v v' call :
  (Toggle_begin v = (v', Some call) \/ Restore_begin v = (v', Some call)) ->
  traceCursor v' = traceCursor v /\ traceGap v' = traceGap v /\ traceEvents v' = traceEvents v.
Proof.
  unfold Toggle_begin, Restore_begin. intros [E|E]; repeat case_match; simplify_eq; done.
Qed.

Section Follow.
Context `{TraceSystem} (config : RecorderConfig).

Record FState := mkF { f_rec : RS; f_history : list Event; f_world : World }.

(** The recorder records an event, which appends some events to the history; or the
    client takes a step, where a trace request is answered from the recorder. *)
Inductive fstep : FState -> FState -> Prop :=
  | f_record s hist w event hist' :
      rtc (mem_step config) (mem_of s hist) (mem_of (Record_ config event s).2 hist') ->
      fstep (mkF s hist w) (mkF (Record_ config event s).2 hist' w)
  | f_client s hist w w' : vstep (served_by (rec s)) w w' -> fstep (mkF s hist w) (mkF s hist w').

Definition start_of (s : RS) (r : Registry) (answers : list bool) : FState :=
  mkF s (events (rec s)) (new_world r answers).

Definition follow_ok (f : FState) : Prop :=
  mem_ok (f_history f) (events (rec (f_rec f))) (sequence (rec (f_rec f))) /\
  complete (view (f_world f)) (f_history f) /\ 0 <= traceCursor (view (f_world f)) /\
  (forall after, Tracing after ∈ threads (f_world f) ->
     0 <= after <= traceCursor (view (f_world f)) /\ read_up_to (f_history f) after).

Lemma up_to_later cursor hist new : Forall (fun e => cursor < EvSequence e) new -> up_to cursor (hist ++ new) = up_to cursor hist.
Proof.
  intros Hn. unfold up_to. rewrite filter_app.
  replace (filter _ new) with (@nil Event); [by rewrite app_nil_r|].
  induction Hn as [|e new He Hn IH]; [done|]. rewrite filter_cons_False; [done|lia].
Qed.

Lemma record_follow_ok s hist w event hist' :
  rtc (mem_step config) (mem_of s hist) (mem_of (Record_ config event s).2 hist') ->
  follow_ok (mkF s hist w) -> follow_ok (mkF (Record_ config event s).2 hist' w).
Proof.
  intros Hr (Hm & [Hread Hc] & H0 & Ht). simpl in *.
  destruct (mem_steps_ok _ _ _ Hr Hm) as (Hm' & new & E & Hl). simpl in E. subst hist'.
  split; [done|]. split; [|split; [done|]]; simpl.
  - split; [by apply read_up_to_app|]. destruct Hc as [?|Hc]; [by left|]. right.
    by rewrite up_to_later by by apply Hl.
  - intros after Hin. destruct (Ht after Hin). split; [done|]. by apply read_up_to_app.
Qed.
Lemma frame_follow_ok s hist w v l :
  traceCursor v = traceCursor (view w) -> traceGap v = traceGap (view w) -> traceEvents v = traceEvents (view w) ->
  (forall after, Tracing after ∈ l -> Tracing after ∈ threads w) ->
  follow_ok (mkF s hist w) -> follow_ok (mkF s hist (mkWorld v l)).
Proof.
  intros E1 E2 E3 Hl (Hm & [Hread Hc] & H0 & Ht). simpl in *.
  split; [done|]. unfold complete. simpl. rewrite E1, E2, E3. split_and!; auto.
Qed.

Lemma step_follow_ok f f' : fstep f f' -> follow_ok f -> follow_ok f'.
Proof.
  intros [s hist w event hist' Hr|s hist w w' Hstep] Hok; [by eapply record_follow_ok|].
  assert (Hup : forall next b blocked l, (forall after, Tracing after ∈ l -> Tracing after ∈ threads w) ->
    follow_ok (mkF s hist (mkWorld (update next b blocked (view w)) l))).
  { intros next b blocked l Hl. destruct (update_trace next b blocked (view w)) as (? & ? & ?).
    by apply (frame_follow_ok s hist w). }
  assert (Hdrop : forall l t r, threads w = l ++ t :: r -> forall after, Tracing after ∈ l ++ r -> Tracing after ∈ threads w).
  { intros l t r -> after. rewrite !elem_of_app, elem_of_cons. tauto. }
  assert (Hadd : forall t, (forall after, t <> Tracing after) -> forall after, Tracing after ∈ threads w ++ [t] -> Tracing after ∈ threads w).
  { intros t Ht after. rewrite elem_of_app, list_elem_of_singleton. intros [?|E]; [done|]. by destruct (Ht after). }
  destruct Hstep as [|? ?|? l r answer Et|? ?|? v call Hb|? l ? r ? Et|? ?|? v ? Hb|? l r ? Et|w|w l after r answer Et Hserved|? v Hb|w text ?|w l r Et];
    try done.
  - apply (frame_follow_ok s hist w); auto. by apply Hadd.
  - unfold Refresh_end. repeat case_match; apply Hup; eauto.
  - destruct (begin_trace _ _ _ (or_introl Hb)) as (? & ? & ?). apply (frame_follow_ok s hist w); auto. by apply Hadd.
  - apply Hup; eauto.
  - destruct (begin_trace _ _ _ (or_intror Hb)) as (? & ? & ?). apply (frame_follow_ok s hist w); auto. by apply Hadd.
  - apply Hup; eauto.
  - destruct Hok as (Hm & Hc & H0 & Ht). simpl in *. split; [done|]. split; [done|]. split; [done|]. simpl.
    intros after [?|E]%elem_of_app; [by apply Ht|]. apply list_elem_of_singleton in E as [= ->].
    unfold RefreshTrace_begin. split; [lia|]. by destruct Hc.
  - destruct Hok as (Hm & Hc & H0 & Ht). simpl in *.
    destruct (Ht after ltac:(rewrite Et; set_solver)) as [Hle Hra].
    destruct (answer_keeps_complete (rec s) hist after answer (view w) Hm Hc Hle Hra Hserved) as [Hc' Hmono].
    split; [done|]. split; [done|]. simpl. split; [lia|].
    intros after' Hin. destruct (Ht after' ltac:(by eapply Hdrop)). split; [lia|done].
  - assert (E : exists b text, v = set_speed b text (view w)).
    { unfold SpeedTest_begin in Hb. case_match; [done|]. injection Hb as <-. by eexists _, _. }
    destruct E as (b & text & ->). apply (frame_follow_ok s hist w); auto. by apply Hadd.
  - apply (frame_follow_ok s hist w); eauto.
Qed.

(** While the recorder goes on recording, discarding what is too old, and the client
    polls it through the trimming pipe server, with any interleaving of overlapping
    polls and lost answers: the timeline is the history of the recorded events up to the
    cursor, in order and each once, or the gap is shown. *)
Theorem timeline_is_complete_or_flagged s r0 answers f :
  memory_ok config (rec s) -> sequence (rec s) < 2 ^ 64 -> rtc fstep (start_of s r0 answers) f ->
  traceGap (view (f_world f)) = true \/
  traceEvents (view (f_world f)) = up_to (traceCursor (view (f_world f))) (f_history f).
Proof.
  intros Hm Hlt Hr. assert (H0 : follow_ok (start_of s r0 answers)).
  { destruct Hm as (_ & Hs & Hev & H1). split; [|split; [|split; [done|]]].
    - split; [by exists []|]. split; [done|]. split; [|done]. eapply Forall_impl; [done|]. simpl. lia.
    - split; [by left|]. right. simpl. unfold up_to. symmetry.
      induction Hev as [|e l [He _] _ IH]; [done|]. apply StronglySorted_inv in Hs as [Hs _].
      rewrite filter_cons_False; [auto|lia].
    - simpl. by intros after ?%not_elem_of_nil. }
  assert (Hok : follow_ok f). { clear Hm Hlt. induction Hr; [done|]. eauto using step_follow_ok. }
  by destruct Hok as (_ & [_ ?] & _).
Qed.
End Follow.

(** ** A run: two events, a poll, a third event, a poll *)
Definition demo_two : RS := record_all demo_config (map demo_event ["one"; "two"]) demo_world.
Definition demo_three : RS := (Record_ demo_config (demo_event "three") demo_two).2.
Lemma demo_two_ok : memory_ok demo_config (rec demo_two).
Proof.
  assert (Hb : budget demo_config 0 demo_two); [|exact (proj1 Hb)].
  apply record_all_budget; [reflexivity|done|lia|]. apply NewRecorder_ok; [reflexivity|]. simpl. lia.
Qed.

Definition no_registry : Registry := mkRegistry None None None.

Definition demo_poll (s : RS) (w : World) : World :=
  let after := RefreshTrace_begin (view w) in
  mkWorld (RefreshTrace_end after (inl (PipeServer.trimmed (Batch_ (rec s) after traceBatchLimit) after 2)) (view w)) (threads w).

Lemma demo_poll_steps s hist w : threads w = [] ->
  rtc (fstep demo_config) (mkF s hist w) (mkF s hist (demo_poll s w)).
Proof.
  intros Ht. eapply rtc_l; [apply f_client, step_trace|]. eapply rtc_l; [|apply rtc_refl]. apply f_client.
  set (w1 := mkWorld _ _).
  replace (demo_poll s w) with (mkWorld (RefreshTrace_end (RefreshTrace_begin (view w))
    (inl (PipeServer.trimmed (Batch_ (rec s) (RefreshTrace_begin (view w)) traceBatchLimit) (RefreshTrace_begin (view w)) 2)) (view w1)) ([] ++ []))
    by (unfold demo_poll; by rewrite Ht).
  apply step_traced; [unfold w1; cbn [threads]; by rewrite Ht|]. by eexists.
Qed.

Lemma timeline_is_complete_or_flagged_witness : exists f,
  rtc (fstep demo_config) (start_of demo_two no_registry []) f /\
  traceGap (view (f_world f)) = false /\ map EvMessage (traceEvents (view (f_world f))) = ["one"; "two"; "three"] /\
  traceEvents (view (f_world f)) = up_to (traceCursor (view (f_world f))) (f_history f).
Proof.
  set (w1 := demo_poll demo_two (new_world no_registry [])). set (w2 := demo_poll demo_three w1).
  set (hist := events (rec demo_two)). set (f := mkF demo_three (hist ++ drop 2 (events (rec demo_three))) w2).
  assert (Hr : rtc (fstep demo_config) (start_of demo_two no_registry []) f).
  { etrans; [by apply (demo_poll_steps demo_two hist (new_world no_registry []))|]. fold w1.
    eapply rtc_l; [|by apply (demo_poll_steps demo_three _ w1)].
    apply f_record. eapply rtc_l; [apply mem_tick|eapply rtc_l; [|apply rtc_refl]].
    - reflexivity.
    - change (mem_step demo_config (3, hist, hist)
        (3, appendMemory demo_config (nth 2 (events (rec demo_three)) (demo_event "")) hist,
         hist ++ [nth 2 (events (rec demo_three)) (demo_event "")])).
      apply mem_append; [done|reflexivity|]. repeat constructor; reflexivity. }
  exists f. split; [exact Hr|]. split; [vm_compute; reflexivity|]. split; [vm_compute; reflexivity|].
  pose proof (timeline_is_complete_or_flagged demo_config demo_two no_registry [] f) as Ht.
  destruct Ht as [Hg|Ht]; [|reflexivity|exact Hr| |exact Ht].
  - exact demo_two_ok.
  - exfalso. vm_compute in Hg. discriminate Hg.
Defined.
