(* ===== verification/NetPrefixes.v ===== *)
(** * The prefix plan of the network manager ([internal/agent/network_windows.go])

    The lists of prefixes that the firewall rules block: what is left of the IPv4
    address space, and of the public IPv6 space, once the excluded prefixes are
    subtracted one after the other.  A covered address is one that some prefix of the
    list contains. *)
From stdpp Require Import pretty.
From S2P Require Import Prelude GoText Netip AccessModel.

#[local] Open Scope string_scope.
#[local] Open Scope Z_scope.
#[local] Open Scope list_scope.

(** ** Subtraction *)

(** [subtractIPv4Prefix] and [subtractIPv6Prefix] differ in the number of bits and in
    how they set the bit of the second half.  [depth] is the number of bits that are
    still free: it runs out exactly when the source returns nothing. *)
Fixpoint subtract (max : Z) (second : Addr -> Z -> Addr) (depth : nat) (candidate exclusion : Prefix) : list Prefix :=
  if negb (Overlaps candidate exclusion) then [candidate]
  else if (PrefixBits exclusion <=? PrefixBits candidate) && Contains exclusion (PrefixAddr candidate) then []
  else if max <=? PrefixBits candidate then []
  else
    match depth with
    | O => []
    | S depth =>
        let childBits := PrefixBits candidate + 1 in
        subtract max second depth (mkPrefix (PrefixAddr candidate) childBits) exclusion ++
        subtract max second depth (mkPrefix (second (PrefixAddr candidate) (PrefixBits candidate)) childBits) exclusion
    end.

(** [address | uint32(1<<(32-childBits))] *)
Definition second4 (a : Addr) (bits : Z) : Addr :=
  match a with
  | Addr4 v => Addr4 (Z.lor v (Z.shiftl 1 (32 - (bits + 1))))
  | _ => AddrInvalid
  end.

(** [bytes[newBit/8] |= byte(1 << (7 - newBit%8))], the bytes most significant first. *)
Definition second6 (a : Addr) (newBit : Z) : Addr :=
  match a with
  | Addr6 v _ => Addr6 (Z.lor v (Z.shiftl (Z.shiftl 1 (7 - newBit `mod` 8)) (8 * (15 - newBit / 8)))) ""
  | _ => AddrInvalid
  end.

Definition subtractIPv4Prefix (candidate exclusion : Prefix) : list Prefix :=
  subtract 32 second4 (Z.to_nat (32 - PrefixBits candidate)) candidate exclusion.
Definition subtractIPv6Prefix (candidate exclusion : Prefix) : list Prefix :=
  subtract 128 second6 (Z.to_nat (128 - PrefixBits candidate)) candidate exclusion.

(** ** Complements *)
Definition addr_value (a : Addr) : Z := match a with Addr4 v => v | Addr6 v _ => v | AddrInvalid => 0 end.

Definition prefix_cmp : Prefix -> Prefix -> comparison :=
  cmp_lex (cmp_on (fun p => addr_value (PrefixAddr p)) Z.compare) (cmp_on PrefixBits Z.compare).

Definition remaining4 (start : list Prefix) (excluded : list Prefix) : list Prefix :=
  fold_left (fun remaining exclusion =>
    if negb (Is4 (PrefixAddr exclusion)) then remaining
    else flat_map (fun candidate => subtractIPv4Prefix candidate (Masked exclusion)) remaining) excluded start.

Definition all_ipv4 : Prefix := mkPrefix (Addr4 0) 0.

Definition complementIPv4Prefixes (excluded : list Prefix) : list string :=
  map Prefix_String (merge_sort (cmp_le prefix_cmp) (remaining4 [all_ipv4] excluded)).

Definition remaining6 (start : list Prefix) (excluded : list Prefix) : list Prefix :=
  fold_left (fun remaining exclusion =>
    if negb (Is6 (PrefixAddr exclusion)) || Is4In6 (PrefixAddr exclusion) then remaining
    else flat_map (fun candidate => subtractIPv6Prefix candidate (Masked exclusion)) remaining) excluded start.

Definition complementIPv6From (base : Prefix) (excluded : list Prefix) : list string :=
  sort_strings (map Prefix_String (remaining6 [base] excluded)).

Definition public_ipv6 : Prefix := mkPrefix (Addr6 (Z.shiftl 1 125) "") 3.
Definition complementIPv6Prefixes (excluded : list Prefix) : list string := complementIPv6From public_ipv6 excluded.

(** [netip.MustParsePrefix] of the program's own texts, none of which is refused. *)
Definition must_prefix (s : string) : Prefix := default (mkPrefix AddrInvalid 0) (ParsePrefix s).

Definition canonicalNonGlobalIPv4Prefixes : list Prefix :=
  map must_prefix
    ["0.0.0.0/8"; "10.0.0.0/8"; "100.64.0.0/10"; "127.0.0.0/8";
     "169.254.0.0/16"; "172.16.0.0/12"; "192.0.2.0/24"; "192.88.99.0/24";
     "192.168.0.0/16"; "198.18.0.0/15"; "198.51.100.0/24"; "203.0.113.0/24";
     "224.0.0.0/4"; "240.0.0.0/4"] ++
  fold_left (fun assignments globallyReachable =>
    flat_map (fun candidate => subtractIPv4Prefix candidate (must_prefix globallyReachable)) assignments)
    ["192.0.0.9/32"; "192.0.0.10/32"] [must_prefix "192.0.0.0/24"].

Definition standardNonPublicIPv6Prefixes : list Prefix :=
  map must_prefix ["::/128"; "::1/128"; "100::/64"; "2001:2::/48"; "2001:db8::/32"; "fc00::/7"; "fe80::/10"; "ff00::/8"].

(** [::/0] is written as its two halves, and repeated texts are dropped. *)
Definition append_unique (result : list string) (value : string) : list string :=
  if bool_decide (value ∈ result) then result else result ++ [value].

Definition normalizeWindowsFirewallPrefixes (values : list string) : list string :=
  fold_left (fun result value =>
    if value =?s "::/0" then append_unique (append_unique result "::/1") "8000::/1" else append_unique result value)
    values [].

(** ** The plan of a policy ([newWindowsNetworkManager]) *)
Definition windowsTUNDNS : string := "172.19.0.2".

Definition plan_node_cmp : Node -> Node -> comparison :=
  cmp_lex (cmp_on NodePriority Z.compare) (cmp_on NodeID String.compare).

Definition sort_plan_nodes (nodes : list Node) : list Node := merge_sort (cmp_le plan_node_cmp) nodes.

Fixpoint node_prefixes (nodes : list Node) : option (list string * list Prefix) :=
  match nodes with
  | [] => Some ([], [])
  | n :: rest =>
      match ParseAddr (NodeAddress n) with
      | Some a =>
          if Is4 a then r ← node_prefixes rest; Some (Addr_String a :: r.1, mkPrefix a 32 :: r.2) else None
      | None => None
      end
  end.

Fixpoint parse_all {A} (parse : string -> option A) (values : list string) : option (list A) :=
  match values with
  | [] => Some []
  | v :: rest => x ← parse v; r ← parse_all parse rest; Some (x :: r)
  end.

Definition parse_ipv4 (s : string) : option Prefix :=
  a ← ParseAddr s; if Is4 a then Some (mkPrefix a 32) else None.

Record Plan := mkPlan { nodeAddresses : list string; blockedPrefixes : list string; dnsBlockedPrefixes : list string }.

Definition excluded4 (nodes cidrs dns : list Prefix) : list Prefix :=
  canonicalNonGlobalIPv4Prefixes ++ nodes ++ map Masked (filter (fun p => Is4 (PrefixAddr p) = true) cidrs) ++ dns.
Definition excluded6 (cidrs : list Prefix) : list Prefix :=
  standardNonPublicIPv6Prefixes ++ map Masked (filter (fun p => Is4 (PrefixAddr p) = false) cidrs).

Definition blocked_of (nodes cidrs dns : list Prefix) : list string :=
  complementIPv4Prefixes (excluded4 nodes cidrs dns) ++ complementIPv6Prefixes (excluded6 cidrs).
Definition tun_dns : Prefix := mkPrefix (default AddrInvalid (ParseAddr windowsTUNDNS)) 32.
Definition dns_blocked_of (dns : list Prefix) : list string :=
  normalizeWindowsFirewallPrefixes (complementIPv4Prefixes (tun_dns :: dns) ++ complementIPv6From (mkPrefix (Addr6 0 "") 0) []).

Definition prefix_plan (policy : Policy) : Plan + string :=
  match node_prefixes (sort_plan_nodes (Nodes policy)) with
  | None => inr "Windows network manager requires IPv4 nodes"
  | Some (addresses, nodes) =>
  match parse_all ParsePrefix (CorporateCIDRs policy) with
  | None => inr "Windows network manager requires valid corporate CIDRs"
  | Some cidrs =>
  match parse_all parse_ipv4 (CorporateDNS policy) with
  | None => inr "Windows network manager requires IPv4 corporate DNS addresses"
  | Some dns => inl (mkPlan addresses (blocked_of nodes cidrs dns) (dns_blocked_of dns))
  end end end.

(** ** How often an address is covered *)
Definition times (ps : list Prefix) (a : Addr) : nat := length (filter (fun p => Contains p a = true) ps).

Lemma times_app ps qs a : times (ps ++ qs) a = (times ps a + times qs a)%nat.
Proof. unfold times. by rewrite filter_app, length_app. Qed.

Lemma times_one p a : times [p] a = if Contains p a then 1%nat else 0%nat.
Proof. unfold times. rewrite filter_cons. by destruct (Contains p a). Qed.

Lemma times_flat_map (f : Prefix -> list Prefix) ps a :
  times (flat_map f ps) a = sum_list_with (fun p => times (f p) a) ps.
Proof. induction ps as [|p ps IH]; [done|]. simpl. by rewrite times_app, IH. Qed.

(** *** Families of addresses *)

(** Addresses of [W] bits, written [A v]. *)
Class Family (W : Z) (A : Z -> Addr) (second : Addr -> Z -> Addr) : Prop := {
  family_width : 0 <= W;
  family_inj v w : A v = A w -> v = w;
  family_is4 v w : Is4 (A v) = Is4 (A w);
  family_mask v b : mask_addr (A v) b = A (v / 2 ^ (W - b) * 2 ^ (W - b));
  family_contains v b w : Contains (mkPrefix (A v) b) (A w) = (v / 2 ^ (W - b) =? w / 2 ^ (W - b));
  family_second v b : 0 <= b < W -> 0 <= v -> v `mod` 2 ^ (W - b) = 0 -> second (A v) b = A (v + 2 ^ (W - (b + 1)))
}.

(** Setting a bit that is clear adds it. *)
Lemma lor_add v k : 0 <= k -> 0 <= v -> v `mod` 2 ^ (k + 1) = 0 -> Z.lor v (2 ^ k) = v + 2 ^ k.
Proof.
  intros Hk Hv Hm. rewrite <- Z.lxor_lor, <- Z.add_nocarry_lxor; try done.
  all: apply Z.bits_inj'; intros n Hn; rewrite Z.land_spec, Z.bits_0, Z.pow2_bits_eqb by done.
  all: destruct (Z.eqb_spec k n) as [->|?]; [|apply andb_false_r].
  all: rewrite <- (Z.mod_pow2_bits_low v (n + 1)) by lia; by rewrite Hm, Z.bits_0.
Qed.

#[export] Instance family4 : Family 32 Addr4 second4.
Proof.
  split; try done.
  - by intros v w [= ->].
  - intros v b Hb Hv Hm. unfold second4. f_equal. rewrite Z.shiftl_1_l. apply lor_add; [lia|done|].
    by replace (32 - (b + 1) + 1) with (32 - b) by lia.
Qed.

#[export] Instance family6 : Family 128 (fun v => Addr6 v "") second6.
Proof.
  split; try done.
  - by intros v w [= ->].
  - intros v b Hb Hv Hm. unfold second6. f_equal.
    rewrite Z.shiftl_1_l, Z.shiftl_mul_pow2, <- Z.pow_add_r by (pose proof (Z.mod_pos_bound b 8); pose proof (Z.div_lt_upper_bound b 8 16); lia).
    replace (7 - b `mod` 8 + 8 * (15 - b / 8)) with (128 - (b + 1)) by (pose proof (Z.div_mod b 8); lia).
    apply lor_add; [lia|done|]. by replace (128 - (b + 1) + 1) with (128 - b) by lia.
Qed.

Section Subtraction.
Context {W A second} `{!Family W A second}.

(** A prefix of the family whose address is below [2^W] and masked. *)
Definition wfp (p : Prefix) : Prop :=
  exists v, p = mkPrefix (A v) (PrefixBits p) /\ 0 <= PrefixBits p <= W /\ 0 <= v < 2 ^ W /\ v `mod` 2 ^ (W - PrefixBits p) = 0.

Lemma block_divide a b v w : 0 <= a <= b -> b <= W -> v / 2 ^ (W - b) = w / 2 ^ (W - b) -> v / 2 ^ (W - a) = w / 2 ^ (W - a).
Proof.
  intros Ha Hb E. replace (W - a) with ((W - b) + (b - a)) by lia. rewrite Z.pow_add_r by lia.
  rewrite <- !Z.div_div by lia. by rewrite E.
Qed.

(** Prefixes that overlap are nested, others are apart. *)
Lemma overlaps_spec v b u d : 0 <= b <= W -> 0 <= d <= W -> 0 <= v < 2 ^ W -> 0 <= u < 2 ^ W ->
  Overlaps (mkPrefix (A v) b) (mkPrefix (A u) d) = (v / 2 ^ (W - Z.min b d) =? u / 2 ^ (W - Z.min b d)).
Proof.
  intros Hb Hd Hv Hu. unfold Overlaps. cbn [PrefixAddr PrefixBits]. case_bool_decide as E.
  { injection E as E ->. apply family_inj in E as ->. by rewrite Z.eqb_refl. }
  rewrite (family_is4 v u), Bool.eqb_reflx. cbn [negb]. destruct (Z.eqb_spec (Z.min b d) 0) as [->|Hm].
  { rewrite Z.sub_0_r, !Z.div_small by done. done. }
  rewrite !family_mask. apply eq_bool_prop_intro. rewrite bool_decide_spec, Is_true_true, Z.eqb_eq. split.
  - intros E'%family_inj. apply Z.mul_reg_r in E'; [done|lia].
  - by intros ->.
Qed.

(** The two halves of a prefix partition it. *)
Lemma halves v b w : 0 <= b < W -> v `mod` 2 ^ (W - b) = 0 ->
  let lo := v / 2 ^ (W - (b + 1)) =? w / 2 ^ (W - (b + 1)) in
  let hi := (v + 2 ^ (W - (b + 1))) / 2 ^ (W - (b + 1)) =? w / 2 ^ (W - (b + 1)) in
  (v / 2 ^ (W - b) =? w / 2 ^ (W - b)) = lo || hi /\ lo && hi = false.
Proof.
  intros Hb Hm. set (k := 2 ^ (W - (b + 1))). assert (Hk : 0 < k) by (apply Z.pow_pos_nonneg; lia).
  assert (E2 : 2 ^ (W - b) = 2 * k) by (unfold k; rewrite <- Z.pow_succ_r by lia; f_equal; lia).
  rewrite E2 in *. replace (v + k) with (v + 1 * k) by lia. rewrite Z.div_add by lia. cbv zeta.
  assert (Hv : v = k * (2 * (v / (2 * k)))) by (pose proof (Z.div_mod v (2 * k)); lia).
  assert (Hvk : v / k = 2 * (v / (2 * k))) by (rewrite Hv at 1; rewrite Z.mul_comm, Z.div_mul; lia).
  rewrite Hvk, (Z.mul_comm 2 k), <- (Z.div_div w k 2) by lia. rewrite (Z.mul_comm k 2).
  set (x := v / (2 * k)). set (y := w / k). pose proof (Z.div_mod y 2). pose proof (Z.mod_pos_bound y 2).
  destruct (Z.eqb_spec x (y / 2)), (Z.eqb_spec (2 * x) y), (Z.eqb_spec (2 * x + 1) y); simpl; split; try done; lia.
Qed.
Lemma wfp_halves v b : 0 <= b < W -> 0 <= v < 2 ^ W -> v `mod` 2 ^ (W - b) = 0 ->
  wfp (mkPrefix (A v) (b + 1)) /\ wfp (mkPrefix (A (v + 2 ^ (W - (b + 1)))) (b + 1)).
Proof.
  intros Hb Hv Hm. set (k := 2 ^ (W - (b + 1))). assert (Hk : 0 < k) by (apply Z.pow_pos_nonneg; lia).
  assert (E2 : 2 ^ (W - b) = 2 * k) by (unfold k; rewrite <- Z.pow_succ_r by lia; f_equal; lia).
  assert (EW : 2 ^ W = 2 ^ b * (2 * k)) by (rewrite <- E2, <- Z.pow_add_r by lia; f_equal; lia).
  rewrite E2 in Hm. apply Z.mod_divide in Hm as [q Hq]; [|lia].
  assert (q < 2 ^ b) by (rewrite EW, Hq in Hv; nia).
  split; [exists v|exists (v + k)]; cbn [PrefixBits]; fold k; split_and!; try done; try lia; rewrite Hq.
  - apply Z.mod_divide; [lia|]. exists (2 * q). lia.
  - rewrite EW. nia.
  - apply Z.mod_divide; [lia|]. exists (2 * q + 1). lia.
Qed.

(** What is left of a prefix covers once each of its addresses that the exclusion does
    not contain, and nothing else. *)
Lemma subtract_spec depth c e : wfp c -> wfp e -> W - PrefixBits c <= Z.of_nat depth ->
  Forall wfp (subtract W second depth c e) /\
  forall w, times (subtract W second depth c e) (A w) = if Contains c (A w) && negb (Contains e (A w)) then 1%nat else 0%nat.
Proof.
  revert c. induction depth as [|depth IH]; intros c (v & Ec & Hb & Hv & Hm) (u & Ee & Hd & Hu & Hn) Hdepth;
    set (b := PrefixBits c) in *; set (d := PrefixBits e) in *; rewrite Ec, Ee; simpl;
    rewrite overlaps_spec, family_contains by done.
  all: assert (Hself : wfp (mkPrefix (A v) b)) by (by exists v).
  all: destruct (Z.eqb_spec (v / 2 ^ (W - Z.min b d)) (u / 2 ^ (W - Z.min b d))) as [Eo|Eo]; cbn [negb].
  2, 4: split; [by repeat constructor|]; intros w; rewrite times_one, !family_contains;
    destruct (Z.eqb_spec (v / 2 ^ (W - b)) (w / 2 ^ (W - b))) as [E1|], (Z.eqb_spec (u / 2 ^ (W - d)) (w / 2 ^ (W - d))) as [E2|]; try done;
    destruct Eo; apply (block_divide (Z.min b d) b) in E1; [|lia..]; apply (block_divide (Z.min b d) d) in E2; [|lia..]; congruence.
  all: destruct (Z.leb_spec d b) as [Hdb|Hdb]; cbn [andb].
  1, 3: rewrite Z.min_r in Eo by lia; rewrite (proj2 (Z.eqb_eq _ _) (eq_sym Eo)); split; [constructor|]; intros w;
    rewrite !family_contains; destruct (Z.eqb_spec (v / 2 ^ (W - b)) (w / 2 ^ (W - b))) as [E1|]; [|done];
    apply (block_divide d b) in E1; [|lia..]; rewrite <- Eo, E1, Z.eqb_refl; done.
  { lia. }
  rewrite (proj2 (Z.leb_gt W b)) by lia. rewrite family_second by (done || lia).
  destruct (wfp_halves v b) as [H1 H2]; [lia|done|done|].
  destruct (IH _ H1 ltac:(by exists u) ltac:(simpl; lia)) as [F1 T1].
  destruct (IH _ H2 ltac:(by exists u) ltac:(simpl; lia)) as [F2 T2].
  rewrite <- Ee. split; [by apply Forall_app|]. intros w. rewrite times_app, T1, T2, !family_contains.
  destruct (halves v b w ltac:(lia) Hm) as [-> Hd']. rewrite Ee, family_contains.
  revert Hd'. generalize (v / 2 ^ (W - (b + 1)) =? w / 2 ^ (W - (b + 1))) as lo.
  generalize ((v + 2 ^ (W - (b + 1))) / 2 ^ (W - (b + 1)) =? w / 2 ^ (W - (b + 1))) as hi.
  generalize (u / 2 ^ (W - d) =? w / 2 ^ (W - d)) as ex. by intros [] [] [].
Qed.
End Subtraction.

(** The recursion of the source: every level has one free bit less. *)
Lemma subtractIPv4Prefix_step c e : PrefixBits c <= 32 ->
  subtractIPv4Prefix c e =
    if negb (Overlaps c e) then [c]
    else if (PrefixBits e <=? PrefixBits c) && Contains e (PrefixAddr c) then []
    else if 32 <=? PrefixBits c then []
    else subtractIPv4Prefix (mkPrefix (PrefixAddr c) (PrefixBits c + 1)) e ++
         subtractIPv4Prefix (mkPrefix (second4 (PrefixAddr c) (PrefixBits c)) (PrefixBits c + 1)) e.
Proof.
  intros Hb. unfold subtractIPv4Prefix. cbn [PrefixBits]. destruct (Z.leb_spec 32 (PrefixBits c)) as [?|Hlt].
  - replace (Z.to_nat (32 - PrefixBits c)) with O by lia. cbn [subtract]. rewrite (proj2 (Z.leb_le 32 _)) by lia. by repeat case_match.
  - replace (Z.to_nat (32 - PrefixBits c)) with (S (Z.to_nat (32 - (PrefixBits c + 1)))) by lia. cbn [subtract].
    by rewrite (proj2 (Z.leb_gt 32 _)) by lia.
Qed.

Lemma subtractIPv6Prefix_step c e : PrefixBits c <= 128 ->
  subtractIPv6Prefix c e =
    if negb (Overlaps c e) then [c]
    else if (PrefixBits e <=? PrefixBits c) && Contains e (PrefixAddr c) then []
    else if 128 <=? PrefixBits c then []
    else subtractIPv6Prefix (mkPrefix (PrefixAddr c) (PrefixBits c + 1)) e ++
         subtractIPv6Prefix (mkPrefix (second6 (PrefixAddr c) (PrefixBits c)) (PrefixBits c + 1)) e.
Proof.
  intros Hb. unfold subtractIPv6Prefix. cbn [PrefixBits]. destruct (Z.leb_spec 128 (PrefixBits c)) as [?|Hlt].
  - replace (Z.to_nat (128 - PrefixBits c)) with O by lia. cbn [subtract]. rewrite (proj2 (Z.leb_le 128 _)) by lia. by repeat case_match.
  - replace (Z.to_nat (128 - PrefixBits c)) with (S (Z.to_nat (128 - (PrefixBits c + 1)))) by lia. cbn [subtract].
    by rewrite (proj2 (Z.leb_gt 128 _)) by lia.
Qed.

(** ** Complements *)
Section Remaining.
Context {W A second} `{!Family W A second}.

(** A prefix of the family, masked or not. *)
Definition valid_prefix (p : Prefix) : Prop :=
  exists v, p = mkPrefix (A v) (PrefixBits p) /\ 0 <= PrefixBits p <= W /\ 0 <= v < 2 ^ W.

Lemma wfp_valid p : wfp (A := A) (W := W) p -> valid_prefix p.
Proof. intros (v & ? & ? & ? & _). by exists v. Qed.

Lemma Masked_spec p : valid_prefix p -> wfp (A := A) (W := W) (Masked p) /\ forall w, Contains (Masked p) (A w) = Contains p (A w).
Proof.
  intros (v & Ep & Hb & Hv). rewrite Ep. unfold Masked. cbn [PrefixAddr PrefixBits]. rewrite family_mask.
  assert (0 < 2 ^ (W - PrefixBits p)) by (apply Z.pow_pos_nonneg; lia). split.
  - eexists. split; [done|]. cbn [PrefixBits]. split; [done|]. split.
    + pose proof (Z.mul_div_le v (2 ^ (W - PrefixBits p))). pose proof (Z.div_pos v (2 ^ (W - PrefixBits p))). nia.
    + by apply Z.mod_mul; lia.
  - intros w. rewrite !family_contains. by rewrite Z.div_mul by lia.
Qed.

Definition subtract_all (e : Prefix) (ps : list Prefix) : list Prefix :=
  flat_map (fun c => subtract W second (Z.to_nat (W - PrefixBits c)) c e) ps.

Lemma subtract_all_spec e ps : Forall (wfp (A := A) (W := W)) ps -> wfp (A := A) (W := W) e ->
  Forall (wfp (A := A) (W := W)) (subtract_all e ps) /\
  forall w, times (subtract_all e ps) (A w) = if Contains e (A w) then 0%nat else times ps (A w).
Proof.
  intros Hps He. induction Hps as [|c ps Hc Hps [IH1 IH2]]; simpl; [split; [done|]; intros w; by case_match|].
  assert (Hb : 0 <= PrefixBits c <= W) by (by destruct Hc as (? & _ & ? & _)).
  destruct (subtract_spec (Z.to_nat (W - PrefixBits c)) c e Hc He ltac:(lia)) as [H1 H2].
  split; [by apply Forall_app|]. intros w. rewrite times_app, H2, IH2. change (c :: ps) with ([c] ++ ps).
  rewrite times_app, times_one. by destruct (Contains c (A w)), (Contains e (A w)).
Qed.

(** Subtracting one exclusion after the other, some of which are passed over. *)
Lemma remaining_spec (skip : Prefix -> bool) excluded ps : Forall (wfp (A := A) (W := W)) ps ->
  Forall (fun e => skip e = true \/ valid_prefix e) excluded ->
  let r := fold_left (fun r e => if skip e then r else subtract_all (Masked e) r) excluded ps in
  Forall (wfp (A := A) (W := W)) r /\
  forall w, times r (A w) = if existsb (fun e => negb (skip e) && Contains e (A w)) excluded then 0%nat else times ps (A w).
Proof.
  intros Hps Hex. revert ps Hps. induction Hex as [|e excluded He Hex IH]; intros ps Hps; simpl; [done|].
  destruct (skip e) eqn:Es; simpl; [by apply IH|]. destruct He as [|He]; [done|].
  destruct (Masked_spec e He) as [Hwf Hsame]. destruct (subtract_all_spec (Masked e) ps Hps Hwf) as [H1 H2].
  destruct (IH _ H1) as [H3 H4]. split; [done|]. intros w. rewrite H4, H2, Hsame.
  by destruct (Contains e (A w)), (existsb _ excluded).
Qed.
End Remaining.

(** *** IPv4 *)
Abbreviation wf4 := (wfp (W := 32) (A := Addr4)).
Abbreviation valid4 := (valid_prefix (W := 32) (A := Addr4)).
Abbreviation valid6 := (valid_prefix (W := 128) (A := fun v => Addr6 v "")).

Lemma remaining4_spec excluded : Forall (fun e => Is4 (PrefixAddr e) = false \/ valid4 e) excluded ->
  Forall wf4 (remaining4 [all_ipv4] excluded) /\
  forall w, 0 <= w < 2 ^ 32 ->
    times (remaining4 [all_ipv4] excluded) (Addr4 w) = if existsb (fun e => Contains e (Addr4 w)) excluded then 0%nat else 1%nat.
Proof.
  intros Hex.
  assert (Hs : Forall wf4 [all_ipv4]) by (apply Forall_singleton; by exists 0).
  destruct (remaining_spec (W := 32) (A := Addr4) (second := second4) (fun e => negb (Is4 (PrefixAddr e))) excluded [all_ipv4] Hs) as [H1 H2].
  { eapply Forall_impl; [done|]. intros e [->|?]; auto. }
  split; [exact H1|]. intros w Hw. unfold remaining4, subtractIPv4Prefix. unfold subtract_all in H2. rewrite H2, times_one.
  replace (Contains all_ipv4 (Addr4 w)) with true.
  - replace (existsb _ excluded) with (existsb (fun e => Contains e (Addr4 w)) excluded); [done|].
    clear. induction excluded as [|e excluded IH]; [done|]. simpl. rewrite IH. f_equal. unfold Contains. by destruct (PrefixAddr e).
  - symmetry. apply Z.eqb_eq. by rewrite !Z.div_small by (done || exact Hw).
Qed.

Lemma remaining6_spec base excluded : wfp (W := 128) (A := fun v => Addr6 v "") base ->
  Forall (fun e => Is6 (PrefixAddr e) = false \/ valid6 e) excluded ->
  Forall (wfp (W := 128) (A := fun v => Addr6 v "")) (remaining6 [base] excluded) /\
  forall w, times (remaining6 [base] excluded) (Addr6 w "") =
    if existsb (fun e => negb (Is4In6 (PrefixAddr e)) && Contains e (Addr6 w "")) excluded then 0%nat
    else if Contains base (Addr6 w "") then 1%nat else 0%nat.
Proof.
  intros Hbase Hex.
  destruct (remaining_spec (W := 128) (A := fun v => Addr6 v "") (second := second6)
    (fun e => negb (Is6 (PrefixAddr e)) || Is4In6 (PrefixAddr e)) excluded [base]) as [H1 H2].
  { by apply Forall_singleton. }
  { eapply Forall_impl; [done|]. intros e [He|?]; [|by right]. left. cbv beta. by rewrite He. }
  split; [exact H1|]. intros w. unfold remaining6, subtractIPv6Prefix. unfold subtract_all in H2. rewrite H2, times_one.
  replace (existsb _ excluded) with (existsb (fun e => negb (Is4In6 (PrefixAddr e)) && Contains e (Addr6 w "")) excluded); [done|].
  clear. induction excluded as [|e excluded IH]; [done|]. simpl. rewrite IH. f_equal.
  unfold Contains. destruct (PrefixAddr e); simpl; by rewrite ?andb_false_r.
Qed.

(** ** The texts of IPv4 prefixes are read back *)

(** The loop of [parse4_fields] over the digits of one field. *)
Fixpoint field_digits (s : string) (val digLen : Z) : option (Z * Z) :=
  match s with
  | "" => Some (val, digLen)
  | String a s' =>
      if negb (is_digit (byte_val a)) || ((digLen =? 1) && (val =? 0)) then None
      else
        let val := val * 10 + (byte_val a - 48) in
        if 255 <? val then None else field_digits s' val (digLen + 1)
  end.

Lemma parse4_digits s rest val digLen done_ r : field_digits s val digLen = Some r ->
  parse4_fields (s ++s rest) val digLen done_ = parse4_fields rest r.1 r.2 done_.
Proof.
  revert val digLen. induction s as [|a s IH]; intros val digLen; simpl; [by intros [= <-]|].
  destruct (is_digit (byte_val a)); simpl; [|done]. destruct (_ && _); [done|]. destruct (255 <? _); [done|]. apply IH.
Qed.

Definition good_field (n : Z) : bool :=
  match field_digits (pretty n) 0 0 with
  | Some (v, d) => (v =? n) && (0 <? d) && string_all (fun a => is_digit (byte_val a)) (pretty n)
  | None => false
  end.

Lemma byte_field n : 0 <= n < 256 -> good_field n = true.
Proof.
  intros Hn. assert (H : forallb good_field (map Z.of_nat (seq 0 256)) = true) by (vm_compute; reflexivity).
  rewrite forallb_forall in H. apply H. apply in_map_iff. exists (Z.to_nat n). split; [lia|]. apply in_seq. lia.
Qed.

Lemma byte_digits n : 0 <= n < 256 ->
  (exists d, field_digits (pretty n) 0 0 = Some (n, d) /\ 0 < d) /\ string_all (fun a => is_digit (byte_val a)) (pretty n) = true.
Proof.
  intros Hn. pose proof (byte_field n Hn) as H. unfold good_field in H.
  destruct (field_digits (pretty n) 0 0) as [[v d]|]; [|done]. bool_to_prop. split; [|done]. exists d. by subst.
Qed.

Lemma parse4_field n rest done_ : 0 <= n < 256 -> rest <> "" -> (length done_ < 3)%nat ->
  parse4_fields (pretty n ++s "." ++s rest) 0 0 done_ = parse4_fields rest 0 0 (n :: done_).
Proof.
  intros Hn Hr Hl. destruct (byte_digits n Hn) as [(d & Hd & Hpos) _]. rewrite (parse4_digits _ _ _ _ _ _ Hd). simpl.
  rewrite (proj2 (Z.eqb_neq d 0)) by lia. rewrite (proj2 (Z.eqb_neq (Z.of_nat (length done_)) 3)) by lia.
  by rewrite (proj2 (String.eqb_neq rest "")).
Qed.

Lemma parse4_last n done_ : 0 <= n < 256 -> length done_ = 3%nat -> parse4_fields (pretty n) 0 0 done_ = Some (rev (n :: done_)).
Proof.
  intros Hn Hl. destruct (byte_digits n Hn) as [(d & Hd & Hpos) _]. rewrite <- (string_app_nil_r (pretty n)).
  rewrite (parse4_digits _ _ _ _ _ _ Hd). simpl. by rewrite Hl.
Qed.

Lemma addr_family_digits s rest : string_all (fun a => is_digit (byte_val a)) s = true -> addr_family (s ++s rest) = addr_family rest.
Proof.
  induction s as [|a s IH]; [done|]. simpl. intros [Ha Hs]%andb_true_iff. unfold is_digit in Ha. bool_to_prop.
  rewrite !(proj2 (Z.eqb_neq (byte_val a) _)) by lia. auto.
Qed.

Lemma pretty_byte_nonempty n : 0 <= n < 256 -> pretty n <> "".
Proof. intros Hn E. destruct (byte_digits n Hn) as [(d & Hd & Hpos) _]. rewrite E in Hd. injection Hd as <- <-. lia. Qed.

Lemma last_slash_app s t : last_slash t = None -> last_slash (s ++s "/" ++s t) = Some (s, t).
Proof. intros Ht. induction s as [|a s IH]; simpl in *; [by rewrite Ht|]. by rewrite IH. Qed.

Lemma ParseAddr_string4 v : 0 <= v < 2 ^ 32 -> ParseAddr (string4 v) = Some (Addr4 v).
Proof.
  intros Hv. unfold string4. cbn [map strings_Join]. set (a := (v / 16777216) `mod` 256). set (b := (v / 65536) `mod` 256).
  set (c := (v / 256) `mod` 256). set (d := v `mod` 256).
  assert (0 <= a < 256 /\ 0 <= b < 256 /\ 0 <= c < 256 /\ 0 <= d < 256) as (Ha & Hb & Hc & Hd) by
    (split_and!; apply Z.mod_pos_bound; lia).
  assert (Hne : forall n s, 0 <= n < 256 -> pretty n ++s s <> "").
  { intros n s Hn E. apply (pretty_byte_nonempty n Hn). by destruct (pretty n). }
  unfold ParseAddr. replace (addr_family _) with 4 by (rewrite addr_family_digits by apply byte_digits, Ha; done). rewrite Z.eqb_refl.
  unfold parseIPv4. rewrite !(parse4_field _ _ _) by (try done; try (simpl; lia); auto using pretty_byte_nonempty; by apply Hne).
  rewrite parse4_last by done. cbn [rev app fold_left bytes_to_Z]. do 2 f_equal. unfold bytes_to_Z. cbn [fold_left].
  assert (E1 : v / 65536 = v / 256 / 256) by (by rewrite Z.div_div).
  assert (E2 : v / 16777216 = v / 256 / 256 / 256) by (by rewrite !Z.div_div).
  assert (Ea : a = v / 256 / 256 / 256).
  { unfold a. rewrite E2. apply Z.mod_small. rewrite <- E2. split; [apply Z.div_pos; lia|apply Z.div_lt_upper_bound; lia]. }
  unfold b, c, d. rewrite Ea, E1. pose proof (Z.div_mod v 256). pose proof (Z.div_mod (v / 256) 256).
  pose proof (Z.div_mod (v / 256 / 256) 256). lia.
Qed.

Lemma pretty_bits b : 0 <= b <= 128 -> last_slash (pretty b) = None /\ prefix_bits (pretty b) = Some b.
Proof.
  intros Hb. assert (H : forallb (fun b => bool_decide (last_slash (pretty b) = None /\ prefix_bits (pretty b) = Some b)) (map Z.of_nat (seq 0 129)) = true)
    by (vm_compute; reflexivity).
  rewrite forallb_forall in H. specialize (H b). eapply bool_decide_eq_true_1, H.
  apply in_map_iff. exists (Z.to_nat b). split; [lia|]. apply in_seq. lia.
Qed.

(** An IPv4 prefix is read back from its text. *)
Lemma ParsePrefix_string4 v b : 0 <= v < 2 ^ 32 -> 0 <= b <= 32 ->
  ParsePrefix (Prefix_String (mkPrefix (Addr4 v) b)) = Some (mkPrefix (Addr4 v) b).
Proof.
  intros Hv Hb. unfold ParsePrefix, Prefix_String. cbn [PrefixAddr PrefixBits Addr_String].
  destruct (pretty_bits b ltac:(lia)) as [Hl Hp]. rewrite last_slash_app, ParseAddr_string4, Hp by done.
  unfold max_bits. simpl. by rewrite (proj2 (Z.ltb_ge 32 b)) by lia.
Qed.

(** *** An IPv6 prefix is not read as an IPv4 prefix *)
Definition plain_byte (b : Z) : bool := negb (b =? 46) && negb (b =? 58) && negb (b =? 37).

Lemma addr_family_plain a s : plain_byte (byte_val a) = true -> addr_family (String a s) = addr_family s.
Proof. unfold plain_byte. simpl. by destruct (_ =? 46), (_ =? 58), (_ =? 37). Qed.

Lemma hex_digit_plain d s : 0 <= d < 16 -> addr_family (hex_digit d ++s s) = addr_family s.
Proof.
  intros Hd. assert (H : forallb (fun d => plain_byte (byte_val (byte_of (if d <? 10 then 48 + d else 87 + d)))) (map Z.of_nat (seq 0 16)) = true)
    by (vm_compute; reflexivity).
  rewrite forallb_forall in H. apply addr_family_plain, H. apply in_map_iff. exists (Z.to_nat d). split; [lia|]. apply in_seq. lia.
Qed.

Lemma hex16_plain g rest : 0 <= g < 65536 -> addr_family (hex16 g ++s rest) = addr_family rest.
Proof.
  intros Hg. unfold hex16. rewrite !string_app_assoc.
  assert (Hmod : forall x, 0 <= x `mod` 16 < 16) by (intros; apply Z.mod_pos_bound; lia).
  assert (Hlast : forall s, addr_family (hex_digit (g `mod` 16) ++s s) = addr_family s) by (intros; by apply hex_digit_plain).
  assert (0 <= g / 4096 < 16) by (split; [apply Z.div_pos; lia|apply Z.div_lt_upper_bound; lia]).
  repeat case_match; cbn [String.append]; rewrite ?hex_digit_plain by done; done.
Qed.

Lemma print6_family v zs ze : addr_family (print6 9 v zs ze 0) = 6.
Proof.
  assert (Hg : forall i, 0 <= group16 v i < 65536) by (intros; apply Z.mod_pos_bound; lia).
  cbn [print6]. change (8 <=? 0)%nat with false. destruct (0 =? zs)%nat; [done|]. cbn [Nat.ltb Nat.leb String.append].
  rewrite hex16_plain by done. change (8 <=? 1)%nat with false. destruct (1 =? zs)%nat; done.
Qed.

Lemma addr_family_app s t : addr_family s = 6 -> addr_family (s ++s t) = 6.
Proof. induction s as [|a s IH]; [done|]. simpl. by repeat case_match. Qed.

Lemma ParsePrefix_string6 v z b a : 0 <= b <= 128 -> ParsePrefix (Prefix_String (mkPrefix (Addr6 v z) b)) = Some a ->
  Is4 (PrefixAddr a) = false.
Proof.
  intros Hb. unfold ParsePrefix, Prefix_String. cbn [PrefixAddr PrefixBits]. destruct (pretty_bits b Hb) as [Hl _].
  rewrite last_slash_app by done.
  assert (Hf : addr_family (Addr_String (Addr6 v z)) = 6).
  { unfold Addr_String. destruct (Is4In6 _); [done|]. destruct (longest_zeros v) as [zs ze].
    apply addr_family_app, print6_family. }
  unfold ParseAddr. rewrite Hf. cbn [Z.eqb]. destruct (parseIPv6 _) as [ip|] eqn:E; [|done].
  assert (Is4 ip = false).
  { unfold parseIPv6 in E. repeat case_match; simplify_eq; done. }
  repeat case_match; intros; simplify_eq; done.
Qed.

(** ** How often an address is covered by texts *)
Definition text_times (l : list string) (a : Addr) : nat := times (omap ParsePrefix l) a.

Lemma text_times_app l m a : text_times (l ++ m) a = (text_times l a + text_times m a)%nat.
Proof. unfold text_times. by rewrite omap_app, times_app. Qed.

#[export] Instance times_proper : Proper ((≡ₚ) ==> eq ==> eq) times.
Proof. intros l l' Hl a _ <-. unfold times. by rewrite Hl. Qed.

#[export] Instance text_times_proper : Proper ((≡ₚ) ==> eq ==> eq) text_times.
Proof. intros l l' Hl a _ <-. unfold text_times. by rewrite Hl. Qed.

Lemma text_times_cons s l a : text_times (s :: l) a = (match ParsePrefix s with Some p => times [p] a | None => 0 end + text_times l a)%nat.
Proof. change (s :: l) with ([s] ++ l). rewrite text_times_app. unfold text_times at 1. simpl. by destruct (ParsePrefix s). Qed.

Lemma times_cons p ps a : times (p :: ps) a = (times [p] a + times ps a)%nat.
Proof. apply (times_app [p]). Qed.

Lemma text_times4 ps a : Forall wf4 ps -> text_times (map Prefix_String ps) a = times ps a.
Proof.
  induction 1 as [|p ps (v & Ep & Hb & Hv & _) Hps IH]; [done|]. cbn [map]. rewrite text_times_cons, times_cons, IH.
  rewrite Ep. by rewrite ParsePrefix_string4.
Qed.

Lemma text_times6 ps w : Forall (wfp (W := 128) (A := fun v => Addr6 v "")) ps -> text_times (map Prefix_String ps) (Addr4 w) = 0%nat.
Proof.
  induction 1 as [|p ps (v & Ep & Hb & Hv & _) Hps IH]; [done|]. cbn [map]. rewrite text_times_cons, IH.
  destruct (ParsePrefix (Prefix_String p)) as [q|] eqn:E; [|done].
  rewrite Ep in E. apply ParsePrefix_string6 in E; [|done]. rewrite times_one. unfold Contains. by destruct (PrefixAddr q).
Qed.

(** Each IPv4 address is in exactly one prefix of the complement, or in none when an
    exclusion contains it. *)
Lemma complementIPv4Prefixes_spec excluded w : Forall (fun e => Is4 (PrefixAddr e) = false \/ valid4 e) excluded -> 0 <= w < 2 ^ 32 ->
  text_times (complementIPv4Prefixes excluded) (Addr4 w) = if existsb (fun e => Contains e (Addr4 w)) excluded then 0%nat else 1%nat.
Proof.
  intros Hex Hw. destruct (remaining4_spec excluded Hex) as [H1 H2].
  unfold complementIPv4Prefixes. rewrite text_times4, merge_sort_Permutation; [by apply H2|].
  by rewrite merge_sort_Permutation.
Qed.

Lemma times_existsb ps a : existsb (fun p => Contains p a) ps = (0 <? Z.of_nat (times ps a)).
Proof.
  induction ps as [|p ps IH]; [done|]. cbn [existsb]. rewrite times_cons, IH, times_one.
  destruct (Contains p a); simpl; [|done]. symmetry. apply Z.ltb_lt. lia.
Qed.

(** ** The addresses that may be reached *)

(** A text names a prefix that contains an address, or names the address. *)
Definition text_contains (a : Addr) (s : string) : bool :=
  match ParsePrefix s with Some p => Contains p a | None => false end.
Definition text_is (a : Addr) (s : string) : bool := bool_decide (ParseAddr s = Some a).

(** The IANA registry of special-purpose IPv4 blocks that are not globally reachable; of
    192.0.0.0/24 all but two addresses. *)
Definition non_global (w : Z) : bool :=
  existsb (text_contains (Addr4 w))
    ["0.0.0.0/8"; "10.0.0.0/8"; "100.64.0.0/10"; "127.0.0.0/8";
     "169.254.0.0/16"; "172.16.0.0/12"; "192.0.2.0/24"; "192.88.99.0/24";
     "192.168.0.0/16"; "198.18.0.0/15"; "198.51.100.0/24"; "203.0.113.0/24";
     "224.0.0.0/4"; "240.0.0.0/4"] ||
  text_contains (Addr4 w) "192.0.0.0/24" && negb (text_is (Addr4 w) "192.0.0.9") && negb (text_is (Addr4 w) "192.0.0.10").

Definition policy_excludes (policy : Policy) (w : Z) : bool :=
  existsb (text_is (Addr4 w)) (map NodeAddress (Nodes policy)) ||
  existsb (text_contains (Addr4 w)) (CorporateCIDRs policy) ||
  existsb (text_is (Addr4 w)) (CorporateDNS policy).

Lemma contains_host a w : addr_range a -> Is4 a = true -> Contains (mkPrefix a 32) (Addr4 w) = bool_decide (Some a = Some (Addr4 w)).
Proof.
  destruct a as [|v|]; [done| |done]. intros _ _. unfold Contains. cbn [PrefixAddr PrefixBits]. rewrite Z.sub_diag, !Z.div_1_r.
  destruct (Z.eqb_spec v w) as [->|Hne]; symmetry; [by apply bool_decide_eq_true_2|]. apply bool_decide_eq_false_2. congruence.
Qed.

Lemma must_prefix_wf4 s v b : ParsePrefix s = Some (mkPrefix (Addr4 v) b) -> 0 <= b <= 32 -> 0 <= v < 2 ^ 32 ->
  v `mod` 2 ^ (32 - b) = 0 -> wf4 (must_prefix s).
Proof. intros E Hb Hv Hm. unfold must_prefix. rewrite E. by exists v. Qed.

(** What is parsed is valid in its family. *)
Lemma parsed_valid4 s p : ParsePrefix s = Some p -> Is4 (PrefixAddr p) = true -> valid4 p.
Proof.
  intros Hp%ParsePrefix_range H4. destruct p as [[|v|] b]; simpl in *; try done.
  destruct Hp as (Hv & Hb & _). exists v. unfold max_bits in Hb. by simpl in Hb.
Qed.

Lemma parsed_valid6 s p : ParsePrefix s = Some p -> Is6 (PrefixAddr p) = false \/ valid6 p.
Proof.
  intros Hp%ParsePrefix_range. destruct p as [[|v|v z] b]; simpl in *; auto.
  destruct Hp as (Hv & Hb & ->). right. exists v. unfold max_bits in Hb. by simpl in Hb.
Qed.

Lemma must_valid4 s : match ParsePrefix s with Some p => Is4 (PrefixAddr p) | None => false end = true -> valid4 (must_prefix s).
Proof. unfold must_prefix. destruct (ParsePrefix s) eqn:E; [|done]. by apply (parsed_valid4 s). Qed.

Lemma subtract_all4 e ps : flat_map (fun c => subtractIPv4Prefix c e) ps = subtract_all (W := 32) (second := second4) e ps.
Proof. reflexivity. Qed.

Lemma nonglobal_spec : Forall valid4 canonicalNonGlobalIPv4Prefixes /\
  forall w, existsb (fun e => Contains e (Addr4 w)) canonicalNonGlobalIPv4Prefixes = non_global w.
Proof.
  assert (H9 : wf4 (must_prefix "192.0.0.9/32")) by (eapply must_prefix_wf4; [vm_compute; reflexivity|lia|lia|reflexivity]).
  assert (H10 : wf4 (must_prefix "192.0.0.10/32")) by (eapply must_prefix_wf4; [vm_compute; reflexivity|lia|lia|reflexivity]).
  assert (Hbase : Forall wf4 [must_prefix "192.0.0.0/24"]).
  { apply Forall_singleton. eapply must_prefix_wf4; [vm_compute; reflexivity|lia|lia|reflexivity]. }
  destruct (subtract_all_spec (W := 32) (A := Addr4) (second := second4) _ _ Hbase H9) as [F1 T1].
  destruct (subtract_all_spec (W := 32) (A := Addr4) (second := second4) _ _ F1 H10) as [F2 T2].
  unfold canonicalNonGlobalIPv4Prefixes. cbn [fold_left]. rewrite !subtract_all4.
  split.
  - apply Forall_app. split; [|refine (Forall_impl _ _ _ F2 _); intros ?; apply wfp_valid].
    apply Forall_map. repeat constructor; apply must_valid4; vm_compute; reflexivity.
  - intros w. rewrite existsb_app. unfold non_global. f_equal.
    rewrite times_existsb, T2, T1, times_one.
    unfold text_contains, text_is. change (ParsePrefix "192.0.0.0/24") with (Some (must_prefix "192.0.0.0/24")).
    unfold must_prefix.
    set (p9 := ParsePrefix "192.0.0.9/32"). set (p10 := ParsePrefix "192.0.0.10/32"). vm_compute in p9, p10. unfold p9, p10. simpl default.
    rewrite !contains_host by (done || (split; vm_compute; congruence)).
    set (a9 := ParseAddr "192.0.0.9"). set (a10 := ParseAddr "192.0.0.10"). vm_compute in a9, a10. unfold a9, a10.
    do 2 (case_bool_decide; simpl; rewrite ?andb_false_r; try done). by destruct (Contains _ _).
Qed.

(** ** The plan *)
Lemma parse_all_spec {A} (parse : string -> option A) values l : parse_all parse values = Some l ->
  Forall2 (fun v x => parse v = Some x) values l.
Proof.
  revert l. induction values as [|v values IH]; intros l; simpl; [intros [= <-]; constructor|].
  destruct (parse v) as [x|] eqn:E; [|done]. simpl. destruct (parse_all parse values) as [r|]; [|done].
  simpl. intros [= <-]. constructor; auto.
Qed.

Lemma node_prefixes_spec nodes texts ps : node_prefixes nodes = Some (texts, ps) ->
  Forall2 (fun n p => exists a, ParseAddr (NodeAddress n) = Some a /\ Is4 a = true /\ p = mkPrefix a 32) nodes ps /\
  Forall2 (fun n t => Addr_String <$> ParseAddr (NodeAddress n) = Some t) nodes texts.
Proof.
  revert texts ps. induction nodes as [|n nodes IH]; intros texts ps; simpl; [by intros [= <- <-]; split; constructor|].
  destruct (ParseAddr (NodeAddress n)) as [a|] eqn:E; [|done]. destruct (Is4 a) eqn:E4; [|done].
  destruct (node_prefixes nodes) as [[t r]|]; [|done]. simpl. intros [= <- <-].
  destruct (IH t r eq_refl) as [H1 H2]. split; constructor; try done; [by exists a|by rewrite E].
Qed.

Lemma host_valid4 s a : ParseAddr s = Some a -> Is4 a = true -> valid4 (mkPrefix a 32).
Proof. intros Hr%ParseAddr_range H4. destruct a as [|v|]; [done| |done]. exists v. split; [done|]. split; [simpl; lia|done]. Qed.

Lemma hosts_contain {B} (addr : B -> string) values ps w :
  Forall2 (fun v p => exists a, ParseAddr (addr v) = Some a /\ Is4 a = true /\ p = mkPrefix a 32) values ps ->
  Forall valid4 ps /\ existsb (fun e => Contains e (Addr4 w)) ps = existsb (text_is (Addr4 w)) (map addr values).
Proof.
  induction 1 as [|v p values ps (a & E & H4 & ->) _ [IH1 IH2]]; [by split|]. split.
  - constructor; [by eapply host_valid4|done].
  - simpl. rewrite IH2. f_equal. unfold text_is. rewrite E. apply contains_host; [by eapply ParseAddr_range|done].
Qed.

Lemma cidrs_contain values ps w : Forall2 (fun v p => ParsePrefix v = Some p) values ps ->
  let l := map Masked (filter (fun p => Is4 (PrefixAddr p) = true) ps) in
  Forall valid4 l /\ existsb (fun e => Contains e (Addr4 w)) l = existsb (text_contains (Addr4 w)) values.
Proof.
  induction 1 as [|v p values ps E _ [IH1 IH2]]; [by split|]. simpl. rewrite filter_cons. unfold text_contains at 1. rewrite E.
  destruct (decide (Is4 (PrefixAddr p) = true)) as [H4|H4].
  - destruct (Masked_spec p (parsed_valid4 v p E H4)) as [Hw Hc]. simpl. rewrite IH2, Hc. split; [|done].
    constructor; [by apply wfp_valid|done].
  - split; [done|]. rewrite IH2. replace (Contains p (Addr4 w)) with false; [done|]. unfold Contains. by destruct (PrefixAddr p).
Qed.

Lemma parse_ipv4_spec s p : parse_ipv4 s = Some p -> exists a, ParseAddr s = Some a /\ Is4 a = true /\ p = mkPrefix a 32.
Proof. unfold parse_ipv4. destruct (ParseAddr s) as [a|]; [|done]. simpl. destruct (Is4 a) eqn:E; [|done]. intros [= <-]. by exists a. Qed.

Lemma existsb_perm {B} (f : B -> bool) l l' : l ≡ₚ l' -> existsb f l = existsb f l'.
Proof. intros Hp. induction Hp; simpl; try congruence. by rewrite !orb_assoc, (orb_comm (f y)). Qed.

Lemma elem_of_append_unique l v s : s ∈ append_unique l v <-> s ∈ l \/ s = v.
Proof.
  unfold append_unique. case_bool_decide as H; [|by rewrite elem_of_app, list_elem_of_singleton].
  split; [by left|]. by intros [?| ->].
Qed.

Lemma normalize_spec values s : s <> "::/0" -> s <> "::/1" -> s <> "8000::/1" ->
  s ∈ normalizeWindowsFirewallPrefixes values <-> s ∈ values.
Proof.
  intros H0 H1 H2. unfold normalizeWindowsFirewallPrefixes.
  assert (Hgen : forall l, s ∈ fold_left (fun result value => if value =?s "::/0" then append_unique (append_unique result "::/1") "8000::/1"
    else append_unique result value) values l <-> s ∈ l \/ s ∈ values).
  { induction values as [|v values IH]; intros l; simpl; [set_solver|]. rewrite IH, elem_of_cons.
    destruct (String.eqb_spec v "::/0") as [->|?]; rewrite !elem_of_append_unique; intuition congruence. }
  rewrite Hgen. set_solver.
Qed.

Lemma text_times_pos l a : (0 < text_times l a)%nat <-> exists s, s ∈ l /\ text_contains a s = true.
Proof.
  induction l as [|s l IH]; [split; [intros H; inversion H|set_solver]|].
  rewrite text_times_cons. unfold text_contains. setoid_rewrite elem_of_cons.
  destruct (ParsePrefix s) as [p|] eqn:E; [rewrite times_one; destruct (Contains p a) eqn:Ec|].
  - split; [|lia]. intros _. exists s. rewrite E. auto.
  - simpl. rewrite IH. split; [intros (t & ? & ?); exists t; auto|].
    intros (t & [->|?] & Ht); [rewrite E in Ht; congruence|]. by exists t.
  - simpl. rewrite IH. split; [intros (t & ? & ?); exists t; auto|].
    intros (t & [->|?] & Ht); [by rewrite E in Ht|]. by exists t.
Qed.

Lemma prefix_plan_spec policy plan : prefix_plan policy = inl plan -> exists nodes cidrs dns,
  blockedPrefixes plan = blocked_of nodes cidrs dns /\ dnsBlockedPrefixes plan = dns_blocked_of dns /\
  Forall2 (fun n t => Addr_String <$> ParseAddr (NodeAddress n) = Some t) (sort_plan_nodes (Nodes policy)) (nodeAddresses plan) /\
  Forall2 (fun n p => exists a, ParseAddr (NodeAddress n) = Some a /\ Is4 a = true /\ p = mkPrefix a 32) (sort_plan_nodes (Nodes policy)) nodes /\
  Forall2 (fun v p => ParsePrefix v = Some p) (CorporateCIDRs policy) cidrs /\
  Forall2 (fun v p => exists a, ParseAddr v = Some a /\ Is4 a = true /\ p = mkPrefix a 32) (CorporateDNS policy) dns.
Proof.
  unfold prefix_plan. destruct (node_prefixes _) as [[texts nodes]|] eqn:En; [|done].
  destruct (parse_all ParsePrefix _) as [cidrs|] eqn:Ec; [|done].
  destruct (parse_all parse_ipv4 _) as [dns|] eqn:Ed; [|done]. intros <-%(inj inl).
  apply node_prefixes_spec in En as [En Et]. apply parse_all_spec in Ec. apply parse_all_spec in Ed.
  exists nodes, cidrs, dns. split_and!; try done. eapply Forall2_impl; [exact Ed|]. intros ? ?. apply parse_ipv4_spec.
Qed.

(** C39. The prefixes that the rules block cover each public IPv4 address exactly once, and
    none that is not globally reachable or that the policy names: a node, a corporate
    network or a corporate resolver. *)
Theorem blocked_prefixes_are_the_complement policy plan w : prefix_plan policy = inl plan -> 0 <= w < 2 ^ 32 ->
  text_times (blockedPrefixes plan) (Addr4 w) = if non_global w || policy_excludes policy w then 0%nat else 1%nat.
Proof.
  intros (nodes & cidrs & dns & -> & _ & _ & En & Ec & Ed)%prefix_plan_spec Hw. unfold blocked_of.
  destruct (hosts_contain NodeAddress _ _ w En) as [F1 E1]. destruct (cidrs_contain _ _ w Ec) as [F2 E2].
  destruct (hosts_contain (fun s => s) _ _ w Ed) as [F3 E3]. destruct nonglobal_spec as [F0 E0].
  rewrite text_times_app, complementIPv4Prefixes_spec; [|..|done].
  - unfold excluded4. rewrite !existsb_app, E0, E1, E2, E3, map_id. unfold policy_excludes.
    rewrite (existsb_perm _ (map NodeAddress (sort_plan_nodes (Nodes policy))) (map NodeAddress (Nodes policy)))
      by (unfold sort_plan_nodes; by rewrite merge_sort_Permutation).
    rewrite !orb_assoc. unfold complementIPv6Prefixes, complementIPv6From, sort_strings. rewrite merge_sort_Permutation.
    rewrite text_times6; [by rewrite Nat.add_0_r|]. apply remaining6_spec.
    + exists (Z.shiftl 1 125). split; [reflexivity|]. split; [simpl; lia|]. split; [|reflexivity].
      split; [apply Z.leb_le; reflexivity|reflexivity].
    + apply Forall_app. split.
      * apply Forall_forall. intros e He. apply list_elem_of_In, in_map_iff in He as (s & <- & _). unfold must_prefix.
        destruct (ParsePrefix s) eqn:E; [by eapply parsed_valid6|by left].
      * apply Forall_map, Forall_forall. intros e [_ He]%list_elem_of_filter. apply list_elem_of_lookup in He as [i He].
        destruct (Forall2_lookup_r _ _ _ _ _ Ec He) as (v & _ & Hv). destruct (parsed_valid6 v e Hv) as [H6|H6].
        -- left. unfold Masked, mask_addr. by destruct (PrefixAddr e).
        -- right. by apply wfp_valid, (Masked_spec (second := second6)).
  - assert (Hv : Forall valid4 (excluded4 nodes cidrs dns)).
    { unfold excluded4. rewrite !Forall_app. exact (conj F0 (conj F1 (conj F2 F3))). }
    eapply Forall_impl; [exact Hv|]. intros e He. by right.
Qed.

(** The prefixes of the DNS rules cover the whole IPv4 space but the resolver in the
    tunnel and the corporate resolvers. *)
Theorem dns_prefixes_leave_the_resolvers policy plan w : prefix_plan policy = inl plan -> 0 <= w < 2 ^ 32 ->
  existsb (text_contains (Addr4 w)) (dnsBlockedPrefixes plan) =
    negb (existsb (text_is (Addr4 w)) (windowsTUNDNS :: CorporateDNS policy)).
Proof.
  intros (nodes & cidrs & dns & _ & -> & _ & _ & _ & Ed)%prefix_plan_spec Hw. unfold dns_blocked_of.
  assert (Ht : Forall2 (fun v p => exists a, ParseAddr v = Some a /\ Is4 a = true /\ p = mkPrefix a 32)
    (windowsTUNDNS :: CorporateDNS policy) (tun_dns :: dns)).
  { constructor; [|exact Ed]. exists (Addr4 2886926338). split_and!; vm_compute; reflexivity. }
  destruct (hosts_contain (fun s => s) _ _ w Ht) as [F1 E1]. rewrite map_id in E1. rewrite <- E1.
  assert (Hspec : text_times (complementIPv4Prefixes (tun_dns :: dns)) (Addr4 w) =
    if existsb (fun e => Contains e (Addr4 w)) (tun_dns :: dns) then 0%nat else 1%nat).
  { apply complementIPv4Prefixes_spec; [|done]. eapply Forall_impl; [exact F1|]. intros e He. by right. }
  apply eq_bool_prop_intro. rewrite !Is_true_true, existsb_exists. setoid_rewrite <- list_elem_of_In.
  transitivity (0 < text_times (complementIPv4Prefixes (tun_dns :: dns)) (Addr4 w))%nat.
  - rewrite text_times_pos.
    assert (H6 : forall s, s ∈ complementIPv6From (mkPrefix (Addr6 0 "") 0) [] -> text_contains (Addr4 w) s = false).
    { intros s Hs. vm_compute in Hs. apply list_elem_of_singleton in Hs as ->. reflexivity. }
    assert (Hn : forall s l, text_contains (Addr4 w) s = true -> s ∈ normalizeWindowsFirewallPrefixes l <-> s ∈ l).
    { intros s l Hc. apply normalize_spec; intros ->; discriminate Hc. }
    split; intros (s & Hs & Hc); exists s; (split; [|exact Hc]).
    + rewrite Hn, elem_of_app in Hs by done. destruct Hs as [?|Hs]; [done|]. apply H6 in Hs. congruence.
    + rewrite Hn, elem_of_app by done. by left.
  - rewrite Hspec. destruct (existsb _ (tun_dns :: dns)); simpl; split; try lia; done.
Qed.

(** ** A plan *)
Lemma demo_planned : match prefix_plan (demo_legacy false) with inl _ => true | inr _ => false end = true.
Proof. vm_compute. reflexivity. Qed.

Lemma blocked_prefixes_are_the_complement_witness : exists plan,
  prefix_plan (demo_legacy false) = inl plan /\ text_times (blockedPrefixes plan) (Addr4 134744072) = 1%nat.
Proof.
  destruct (prefix_plan (demo_legacy false)) as [plan|e] eqn:E;
    [|exfalso; pose proof demo_planned as H; rewrite E in H; discriminate H].
  exists plan. split; [reflexivity|].
  rewrite (blocked_prefixes_are_the_complement (demo_legacy false) plan 134744072 E) by lia.
  vm_compute. reflexivity.
Defined.

Lemma dns_prefixes_leave_the_resolvers_witness : exists plan,
  prefix_plan (demo_legacy false) = inl plan /\ existsb (text_contains (Addr4 134744072)) (dnsBlockedPrefixes plan) = true.
Proof.
  destruct (prefix_plan (demo_legacy false)) as [plan|e] eqn:E;
    [|exfalso; pose proof demo_planned as H; rewrite E in H; discriminate H].
  exists plan. split; [reflexivity|].
  rewrite (dns_prefixes_leave_the_resolvers (demo_legacy false) plan 134744072 E) by lia.
  vm_compute. reflexivity.
Defined.
