(* ===== verification/NativeNetwork.v ===== *)
(** * The native view of the network ([internal/agent/network_native.go] and the reader of
    [network_native_windows.go])

    What the IP Helper API reports is checked, related and sorted into a baseline, whose
    digest is the fingerprint of the network.  The API, the JSON encoding and the digest
    are parameters; [sort.Slice], which need not be stable, is one with its laws. *)
From S2P Require Import Prelude GoText Netip AccessModel NetPrefixes.
From stdpp Require Import gmap.

#[local] Open Scope string_scope.
#[local] Open Scope Z_scope.
#[local] Open Scope list_scope.

(** ** The standard library *)

(** [sort.Slice] with a comparison for its [less]. *)
Class GoSort := { sort_Slice {A} (c : A -> A -> comparison) : list A -> list A }.

Class GoSortLaws `{GoSort} : Prop := {
  sort_Slice_perm {A} (c : A -> A -> comparison) l : sort_Slice c l ≡ₚ l;
  sort_Slice_sorted {A} (c : A -> A -> comparison) `{!LawfulCmp c} l : StronglySorted (cmp_le c) (sort_Slice c l)
}.

(** [strings.EqualFold] compares the runes up to the orbits of [unicode.SimpleFold];
    [rune_fold] picks one rune of each orbit. *)
Class FoldTables := { rune_fold : Z -> Z }.
Definition strings_EqualFold `{FoldTables} (s t : string) : bool :=
  bool_decide (map (fun r => rune_fold r.1) (runes s) = map (fun r => rune_fold r.1) (runes t)).

Fixpoint strings_Contains (s sub : string) : bool :=
  strings_HasPrefix s sub || match s with "" => false | String _ s' => strings_Contains s' sub end.

(** [strings.Cut(s, "/")]: the text before the first slash. *)
Fixpoint before_slash (s : string) : string :=
  match s with "" => "" | String a s' => if byte_val a =? 47 then "" else String a (before_slash s') end.

(** ** The records of the API *)
Record ipHelperAdapter := mkHelperAdapter {
  HA_InterfaceIndex : Z; HA_LUID : Z; HA_InterfaceGuid : string; HA_InterfaceAlias : string; HA_Status : string;
  HA_DNSServers : list string; HA_DNSAutomatic : bool; HA_IPAddresses : list string; HA_Description : string
}.

Record ipHelperInterface := mkHelperInterface {
  HI_InterfaceIndex : Z; HI_LUID : Z; HI_AutomaticMetric : bool; HI_Metric : Z; HI_DisableDefaultRoute : bool
}.

Record ipHelperRoute := mkHelperRoute {
  HR_DestinationPrefix : string; HR_InterfaceIndex : Z; HR_LUID : Z; HR_NextHop : string; HR_Metric : Z; HR_Protocol : Z
}.

#[export] Instance ipHelperInterface_eq_dec : EqDecision ipHelperInterface.
Proof. solve_decision. Defined.

(** ** The records of the baseline ([prepared_windows.go], [network_windows.go]) *)
Record WindowsNativeAdapter := mkNativeAdapter {
  NA_InterfaceIndex : Z; NA_Description : string; NA_InterfaceLUID : Z; NA_InterfaceGuid : string;
  NA_InterfaceAlias : string; NA_Status : string; NA_DNSServers : list string; NA_DNSAutomatic : bool
}.

Record WindowsNativeInterface := mkNativeInterface {
  NI_InterfaceIndex : Z; NI_InterfaceLUID : Z; NI_AutomaticMetric : bool; NI_InterfaceMetric : Z; NI_DisableDefaultRoute : bool
}.

Record WindowsNativeRoute := mkNativeRoute {
  NR_DestinationPrefix : string; NR_InterfaceIndex : Z; NR_InterfaceLUID : Z; NR_NextHop : string;
  NR_RouteMetric : Z; NR_Protocol : Z
}.

Record WindowsNodeRouteSnapshot := mkNodeRoute {
  NodeAddress_ : string; DestinationPrefix : string; NodeInterfaceIndex : Z; NodeNextHop : string;
  NodeRouteMetric : Z; NodeInterfaceMetric : Z; EffectiveMetric : Z; BypassRequired : bool
}.

Record WindowsNetworkBaseline := mkBaseline {
  Adapters : list WindowsNativeAdapter; Interfaces : list WindowsNativeInterface;
  Routes : list WindowsNativeRoute; NodeRoutes : list WindowsNodeRouteSnapshot
}.

(** ** Normalisation *)

(** The set of the addresses, sorted; [map] iteration order does not matter. *)
Definition canonicalIPv4Addresses (values : list string) : list string + string :=
  match parse_all (fun value => a ← ParseAddr (strings_TrimSpace value); if Is4 a then Some (Addr_String a) else None) values with
  | Some l => inl (sort_strings (remove_dups l))
  | None => inr "address must be IPv4"
  end.

Definition blank (s : string) : bool := strings_TrimSpace s =?s "".

Definition native_adapter (dns : list string) (v : ipHelperAdapter) : WindowsNativeAdapter :=
  mkNativeAdapter (HA_InterfaceIndex v) "" (HA_LUID v) (HA_InterfaceGuid v) (HA_InterfaceAlias v) (HA_Status v)
    dns (HA_DNSAutomatic v).

(** The adapters, and the locally unique identifiers known for each index. *)
Abbreviation LUIDs := (gmap Z (gset Z)).
Definition knownLUIDs (luids : LUIDs) (index : Z) : gset Z := default ∅ (luids !! index).

Definition adapter_result (value : ipHelperAdapter) : WindowsNativeAdapter + string :=
  if (HA_InterfaceIndex value <=? 0) || blank (HA_InterfaceGuid value) || blank (HA_InterfaceAlias value)
  then inr "native adapter identity is invalid"
  else match canonicalIPv4Addresses (HA_DNSServers value) with
  | inr err => inr ("native adapter DNS is invalid: " ++s err)
  | inl dns => inl (native_adapter dns value)
  end.

Definition add_luid (luids : LUIDs) (v : ipHelperAdapter) : LUIDs :=
  <[HA_InterfaceIndex v := {[HA_LUID v]} ∪ knownLUIDs luids (HA_InterfaceIndex v)]> luids.

Fixpoint normalize_adapters (luids : LUIDs) (adapters : list ipHelperAdapter) : list WindowsNativeAdapter * LUIDs + string :=
  match adapters with
  | [] => inl ([], luids)
  | value :: rest =>
      match adapter_result value with
      | inr err => inr err
      | inl adapter =>
          match normalize_adapters (add_luid luids value) rest with
          | inl (l, luids) => inl (adapter :: l, luids)
          | inr err => inr err
          end
      end
  end.

Abbreviation Metrics := (gmap Z ipHelperInterface).

Definition native_interface (v : ipHelperInterface) : WindowsNativeInterface :=
  mkNativeInterface (HI_InterfaceIndex v) (HI_LUID v) (HI_AutomaticMetric v) (HI_Metric v) (HI_DisableDefaultRoute v).

(** An interface with an identifier that none of the adapters of its index has is passed over. *)
Definition foreign_interface (luids : LUIDs) (v : ipHelperInterface) : bool :=
  let known := knownLUIDs luids (HI_InterfaceIndex v) in
  negb (HI_LUID v =? 0) && negb (bool_decide (known = ∅)) && negb (bool_decide (HI_LUID v ∈ known)).

Fixpoint normalize_interfaces (luids : LUIDs) (metrics : Metrics) (interfaces : list ipHelperInterface)
    : list WindowsNativeInterface * Metrics + string :=
  match interfaces with
  | [] => inl ([], metrics)
  | value :: rest =>
      if (HI_InterfaceIndex value <=? 0) || (HI_Metric value <? 0) then inr "native IPv4 interface is invalid"
      else if foreign_interface luids value then normalize_interfaces luids metrics rest
      else match metrics !! HI_InterfaceIndex value with
      | Some existing =>
          if bool_decide (existing = value) then normalize_interfaces luids metrics rest
          else inr "native IPv4 interface has conflicting duplicates"
      | None =>
          match normalize_interfaces luids (<[HI_InterfaceIndex value := value]> metrics) rest with
          | inl (l, metrics) => inl (native_interface value :: l, metrics)
          | inr err => inr err
          end
      end
  end.

(** A route that can be used, with its prefix and its effective metric. *)
Record ParsedRoute := mkParsed { pr_value : ipHelperRoute; pr_prefix : Prefix; pr_effective : Z }.

Definition native_route (hop : Addr) (r : ParsedRoute) : WindowsNativeRoute :=
  let v := pr_value r in
  mkNativeRoute (Prefix_String (pr_prefix r)) (HR_InterfaceIndex v) (HR_LUID v) (Addr_String hop) (HR_Metric v) (HR_Protocol v).

(** One route: passed over, usable, or invalid. *)
Definition parse_route (metrics : Metrics) (value : ipHelperRoute) : option (ParsedRoute * WindowsNativeRoute) + string :=
  let invalid := inr "native IPv4 route is invalid" in
  match ParsePrefix (HR_DestinationPrefix value) with
  | None => invalid
  | Some prefix =>
      if negb (Is4 (PrefixAddr prefix)) || negb (bool_decide (prefix = Masked prefix)) ||
         (HR_InterfaceIndex value <=? 0) || (HR_Metric value <? 0) then invalid
      else match metrics !! HR_InterfaceIndex value with
      | None => inl None
      | Some metric =>
          if negb (HR_LUID value =? 0) && negb (HI_LUID metric =? 0) && negb (HR_LUID value =? HI_LUID metric) then inl None
          else match ParseAddr (HR_NextHop value) with
          | Some hop =>
              if Is4 hop then
                let r := mkParsed value prefix (HR_Metric value + HI_Metric metric) in
                inl (Some (r, native_route hop r))
              else inr "native route next hop is invalid"
          | None => inr "native route next hop is invalid"
          end
      end
  end.

Fixpoint normalize_routes (metrics : Metrics) (routes : list ipHelperRoute) : list (ParsedRoute * WindowsNativeRoute) + string :=
  match routes with
  | [] => inl []
  | value :: rest =>
      match parse_route metrics value with
      | inr err => inr err
      | inl found =>
          match normalize_routes metrics rest with
          | inr err => inr err
          | inl l => inl (match found with Some r => r :: l | None => l end)
          end
      end
  end.

(** [routeCandidateLess]: the longer prefix, then the smaller metrics, index and next hop. *)
Definition route_cmp : ParsedRoute -> ParsedRoute -> comparison :=
  cmp_lex (cmp_on (fun r => - PrefixBits (pr_prefix r)) Z.compare)
  (cmp_lex (cmp_on pr_effective Z.compare)
  (cmp_lex (cmp_on (fun r => HR_Metric (pr_value r)) Z.compare)
  (cmp_lex (cmp_on (fun r => HR_InterfaceIndex (pr_value r)) Z.compare)
           (cmp_on (fun r => HR_NextHop (pr_value r)) String.compare)))).
Definition routeCandidateLess : ParsedRoute -> ParsedRoute -> bool := cmp_less route_cmp.

Definition best_route (address : Addr) (routes : list ParsedRoute) : option ParsedRoute :=
  fold_left (fun best candidate =>
    if negb (Contains (pr_prefix candidate) address) then best
    else match best with
    | None => Some candidate
    | Some b => if routeCandidateLess candidate b then Some candidate else best
    end) routes None.

Definition node_route (metrics : Metrics) (node : string) (best : ParsedRoute) : WindowsNodeRouteSnapshot :=
  let v := pr_value best in
  mkNodeRoute node (Prefix_String (pr_prefix best)) (HR_InterfaceIndex v) (HR_NextHop v) (HR_Metric v)
    (match metrics !! HR_InterfaceIndex v with Some m => HI_Metric m | None => 0 end)
    (pr_effective best) (PrefixBits (pr_prefix best) =? 0).

Fixpoint node_routes (metrics : Metrics) (routes : list ParsedRoute) (nodes : list string) : list WindowsNodeRouteSnapshot + string :=
  match nodes with
  | [] => inl []
  | node :: rest =>
      match best_route (default AddrInvalid (ParseAddr node)) routes with
      | None => inr ("no route reaches node " ++s node)
      | Some best =>
          match node_routes metrics routes rest with
          | inl l => inl (node_route metrics node best :: l)
          | inr err => inr err
          end
      end
  end.

(** *** Sorting *)
Definition adapter_cmp : WindowsNativeAdapter -> WindowsNativeAdapter -> comparison :=
  cmp_lex (cmp_on NA_InterfaceGuid String.compare) (cmp_on NA_InterfaceIndex Z.compare).
Definition interface_cmp : WindowsNativeInterface -> WindowsNativeInterface -> comparison := cmp_on NI_InterfaceIndex Z.compare.
Definition native_route_cmp : WindowsNativeRoute -> WindowsNativeRoute -> comparison :=
  cmp_lex (cmp_on NR_DestinationPrefix String.compare)
  (cmp_lex (cmp_on NR_InterfaceIndex Z.compare)
  (cmp_lex (cmp_on NR_NextHop String.compare) (cmp_on NR_RouteMetric Z.compare))).
Definition node_route_cmp : WindowsNodeRouteSnapshot -> WindowsNodeRouteSnapshot -> comparison := cmp_on NodeAddress_ String.compare.

Section Native.
Context `{GoSort}.

Definition canonicalizeNativeBaseline (b : WindowsNetworkBaseline) : WindowsNetworkBaseline :=
  mkBaseline (sort_Slice adapter_cmp (Adapters b)) (sort_Slice interface_cmp (Interfaces b))
    (sort_Slice native_route_cmp (Routes b)) (sort_Slice node_route_cmp (NodeRoutes b)).

Definition normalizeNativeNetwork (adapters : list ipHelperAdapter) (interfaces : list ipHelperInterface)
    (routes : list ipHelperRoute) (nodes : list string) : WindowsNetworkBaseline + string :=
  match adapters, interfaces, routes with
  | [], _, _ | _, [], _ | _, _, [] => inr "native network baseline is incomplete"
  | _, _, _ =>
      match normalize_adapters ∅ adapters with
      | inr err => inr err
      | inl (na, luids) =>
      match normalize_interfaces luids ∅ interfaces with
      | inr err => inr err
      | inl (ni, metrics) =>
      match normalize_routes metrics routes with
      | inr err => inr err
      | inl parsed =>
          if negb (existsb (fun r => PrefixBits (pr_prefix r.1) =? 0) parsed) then inr "native network has no IPv4 default route"
          else match canonicalIPv4Addresses nodes with
          | inr err => inr ("configured node address is invalid: " ++s err)
          | inl canonicalNodes =>
          match node_routes metrics (map fst parsed) canonicalNodes with
          | inr err => inr err
          | inl nr => inl (canonicalizeNativeBaseline (mkBaseline na ni (map snd parsed) nr))
          end end
      end end end
  end.

End Native.

(** ** The order in which the API lists things does not matter *)

Lemma knownLUIDs_add luids v i x :
  x ∈ knownLUIDs (add_luid luids v) i <-> (HA_InterfaceIndex v = i /\ HA_LUID v = x) \/ x ∈ knownLUIDs luids i.
Proof.
  unfold add_luid, knownLUIDs. destruct (decide (HA_InterfaceIndex v = i)) as [<-|Hi].
  - rewrite lookup_insert_eq. simpl. set_solver.
  - rewrite lookup_insert_ne by done. intuition.
Qed.

Lemma normalize_adapters_spec luids adapters na luids' : normalize_adapters luids adapters = inl (na, luids') ->
  Forall2 (fun v n => adapter_result v = inl n) adapters na /\
  forall i x, x ∈ knownLUIDs luids' i <-> (exists v, v ∈ adapters /\ HA_InterfaceIndex v = i /\ HA_LUID v = x) \/ x ∈ knownLUIDs luids i.
Proof.
  revert luids na. induction adapters as [|v adapters IH]; intros luids na; simpl.
  { intros [= <- <-]. split; [constructor|]. set_solver. }
  destruct (adapter_result v) as [n|] eqn:E; [|done].
  destruct (normalize_adapters (add_luid luids v) adapters) as [[l luids2]|] eqn:En; [|done]. intros [= <- <-].
  destruct (IH _ _ En) as [H1 H2]. split; [by constructor|]. intros i x. rewrite H2, knownLUIDs_add. set_solver.
Qed.

Lemma normalize_adapters_total luids adapters na : Forall2 (fun v n => adapter_result v = inl n) adapters na ->
  exists luids', normalize_adapters luids adapters = inl (na, luids').
Proof.
  intros H. revert luids. induction H as [|v n adapters na E _ IH]; intros luids; simpl; [by eexists|].
  rewrite E. destruct (IH (add_luid luids v)) as [luids' ->]. by eexists.
Qed.

Lemma normalize_adapters_perm adapters adapters' na luids :
  normalize_adapters ∅ adapters = inl (na, luids) -> adapters ≡ₚ adapters' ->
  exists na' luids', normalize_adapters ∅ adapters' = inl (na', luids') /\ na ≡ₚ na' /\ forall i, knownLUIDs luids i = knownLUIDs luids' i.
Proof.
  intros Hn Hp. destruct (normalize_adapters_spec _ _ _ _ Hn) as [H1 H2].
  destruct (Permutation_Forall2 Hp H1) as (na' & Hp' & H1').
  destruct (normalize_adapters_total ∅ _ _ H1') as [luids' E]. exists na', luids'. split; [done|]. split; [done|].
  intros i. apply set_eq. intros x. rewrite H2, (proj2 (normalize_adapters_spec _ _ _ _ E)). by setoid_rewrite Hp.
Qed.

(** *** Interfaces *)
Definition interface_ok (v : ipHelperInterface) : Prop := 0 < HI_InterfaceIndex v /\ 0 <= HI_Metric v.
Definition accepted (luids : LUIDs) (l : list ipHelperInterface) : list ipHelperInterface :=
  filter (fun v => foreign_interface luids v = false) l.
Definition keyed (m : Metrics) : Prop := forall i v, m !! i = Some v -> HI_InterfaceIndex v = i.
Definition agree (m : Metrics) (l : list ipHelperInterface) : Prop := forall v w, v ∈ l ->
  (w ∈ l /\ HI_InterfaceIndex w = HI_InterfaceIndex v) \/ m !! HI_InterfaceIndex v = Some w -> w = v.

Definition interfaces_of (m : Metrics) : list WindowsNativeInterface := map (fun kv => native_interface kv.2) (map_to_list m).

Lemma normalize_interfaces_spec luids m l ni m' : normalize_interfaces luids m l = inl (ni, m') ->
  Forall interface_ok l /\ agree m (accepted luids l) /\ ni ++ interfaces_of m ≡ₚ interfaces_of m' /\
  forall i v, m' !! i = Some v <-> m !! i = Some v \/ (v ∈ accepted luids l /\ HI_InterfaceIndex v = i).
Proof.
  revert m ni. induction l as [|v l IH]; intros m ni; simpl.
  { intros [= <- <-]. split_and!; [constructor|by intros ? ? ?%not_elem_of_nil|done|]. unfold accepted. simpl. set_solver. }
  destruct (_ || _) eqn:Eok; [done|]. apply orb_false_iff in Eok as [E1 E2]. bool_to_prop.
  unfold accepted. rewrite filter_cons. fold (accepted luids l). destruct (foreign_interface luids v) eqn:Ef.
  { rewrite decide_False by done. intros (H1 & H2 & H3 & H4)%IH. split_and!; try done. by constructor. }
  rewrite decide_True by done. destruct (m !! HI_InterfaceIndex v) as [e|] eqn:Em.
  - case_bool_decide as Ee; [|done]. subst e. intros (H1 & H2 & H3 & H4)%IH. split_and!; try done.
    + by constructor.
    + intros x w. rewrite !elem_of_cons. intros [->|Hx] [[[->|Hw] Hi]|Hw]; try congruence; try (eapply H2; eauto; fail).
      * pose proof (H2 w v Hw) as Hwv. rewrite Hi in Hwv. symmetry. apply Hwv. by right.
      * eapply H2; [done|]. right. congruence.
    + intros i x. rewrite H4, elem_of_cons. intuition; subst; auto.
  - destruct (normalize_interfaces luids _ l) as [[l' m2]|] eqn:En; [|done]. intros [= <- <-].
    destruct (IH _ _ En) as (H1 & H2 & H3 & H4). split_and!.
    + by constructor.
    + intros x w. rewrite !elem_of_cons. intros [->|Hx] [[[->|Hw] Hi]|Hw]; try congruence.
      * symmetry. eapply (H2 w v); [done|]. right. rewrite Hi. apply lookup_insert_eq.
      * eapply (H2 x v); [done|]. right. rewrite <- Hi. apply lookup_insert_eq.
      * eapply H2; eauto.
      * eapply H2; [done|]. right. rewrite lookup_insert_ne; [done|]. congruence.
    + rewrite <- H3. unfold interfaces_of. rewrite (map_to_list_insert m _ _ Em). simpl. by rewrite Permutation_middle.
    + intros i x. rewrite H4, elem_of_cons, lookup_insert_Some. intuition; subst; auto.
      destruct (decide (HI_InterfaceIndex v = i)) as [<-|?]; [congruence|auto].
Qed.

Lemma normalize_interfaces_total luids m l : Forall interface_ok l -> agree m (accepted luids l) ->
  exists ni m', normalize_interfaces luids m l = inl (ni, m').
Proof.
  intros Hok. revert m. induction Hok as [|v l [Hi Hm] Hok IH]; intros m Ha; simpl; [by eexists _, _|].
  rewrite (proj2 (Z.leb_gt _ _)), (proj2 (Z.ltb_ge _ _)) by done. simpl.
  unfold accepted in Ha. rewrite filter_cons in Ha. fold (accepted luids l) in Ha.
  destruct (foreign_interface luids v) eqn:Ef; [rewrite decide_False in Ha by done; by apply IH|].
  rewrite decide_True in Ha by done. destruct (m !! HI_InterfaceIndex v) as [e|] eqn:Em.
  - rewrite bool_decide_eq_true_2 by (eapply (Ha v); [set_solver|by right]).
    apply IH. intros x w Hx Hw. apply (Ha x w); [set_solver|]. destruct Hw as [[? ?]|?]; [left; split; [set_solver|done]|by right].
  - destruct (IH (<[HI_InterfaceIndex v := v]> m)) as (ni & m' & ->); [|by eexists _, _].
    intros x w Hx Hw. apply (Ha x w); [set_solver|]. destruct Hw as [[Hw E]|Hw]; [left; split; [set_solver|done]|].
    apply lookup_insert_Some in Hw as [[E <-]|[_ Hw]]; [left; split; [set_solver|done]|by right].
Qed.

Lemma normalize_interfaces_perm luids luids' l l' ni m : (forall i, knownLUIDs luids i = knownLUIDs luids' i) ->
  normalize_interfaces luids ∅ l = inl (ni, m) -> l ≡ₚ l' ->
  exists ni', normalize_interfaces luids' ∅ l' = inl (ni', m) /\ ni ≡ₚ ni'.
Proof.
  intros Hk Hn Hp. destruct (normalize_interfaces_spec _ _ _ _ _ Hn) as (H1 & H2 & H3 & H4).
  assert (Hacc : accepted luids l ≡ₚ accepted luids' l').
  { transitivity (accepted luids' l); [|unfold accepted; by rewrite Hp].
    unfold accepted. rewrite (Prelude.filter_ext_in _ (fun v => foreign_interface luids' v = false)); [done|]. intros v _. unfold foreign_interface. by rewrite Hk. }
  destruct (normalize_interfaces_total luids' ∅ l') as (ni' & m' & E); [by rewrite <- Hp|unfold agree in *; by setoid_rewrite <- Hacc|].
  destruct (normalize_interfaces_spec _ _ _ _ _ E) as (_ & _ & H3' & H4').
  assert (m' = m) as ->.
  { apply map_eq. intros i. apply option_eq. intros v. rewrite H4, H4'. by setoid_rewrite Hacc. }
  exists ni'. split; [done|]. change (interfaces_of ∅) with (map (fun kv => native_interface kv.2) (map_to_list (∅ : Metrics))) in H3, H3'.
  rewrite map_to_list_empty, app_nil_r in H3, H3'. by rewrite H3, H3'.
Qed.

(** *** Routes *)
Lemma normalize_routes_spec metrics routes l : normalize_routes metrics routes = inl l <->
  Forall (fun v => exists r, parse_route metrics v = inl r) routes /\
  l = omap (fun v => match parse_route metrics v with inl r => r | inr _ => None end) routes.
Proof.
  revert l. induction routes as [|v routes IH]; intros l; simpl.
  { split; [intros [= <-]; by split|by intros [_ ->]]. }
  destruct (parse_route metrics v) as [found|err] eqn:E.
  - destruct (normalize_routes metrics routes) as [r|err] eqn:En.
    + destruct (proj1 (IH r) eq_refl) as [H1 ->]. split.
      * intros [= <-]. split; [constructor; [by exists found|done]|]. by destruct found.
      * intros [_ ->]. by destruct found.
    + split; [done|]. intros [(_ & H)%Forall_cons _]. discriminate (proj2 (IH _) (conj H eq_refl)).
  - split; [done|]. intros [([r Hr] & _)%Forall_cons _]. congruence.
Qed.

Lemma normalize_routes_perm metrics routes routes' l : normalize_routes metrics routes = inl l -> routes ≡ₚ routes' ->
  exists l', normalize_routes metrics routes' = inl l' /\ l ≡ₚ l'.
Proof.
  intros [H1 ->]%normalize_routes_spec Hp. eexists. rewrite normalize_routes_spec. split.
  - split; [by rewrite <- Hp|reflexivity].
  - by rewrite Hp.
Qed.

(** The prefix of a usable route is an IPv4 prefix and masked. *)
Definition masked_route (r : ParsedRoute) : Prop :=
  Is4 (PrefixAddr (pr_prefix r)) = true /\ pr_prefix r = Masked (pr_prefix r).

Lemma normalize_routes_masked metrics routes l : normalize_routes metrics routes = inl l -> Forall (fun r => masked_route r.1) l.
Proof.
  intros [_ ->]%normalize_routes_spec. apply Forall_forall. intros r (v & _ & Hv)%list_elem_of_omap.
  destruct (parse_route metrics v) as [found|] eqn:E; [|done]. subst found. unfold parse_route in E.
  destruct (ParsePrefix _) as [p|]; [|done]. destruct (_ || _) eqn:Eok; [done|].
  repeat (apply orb_false_iff in Eok as [Eok ?]). bool_to_prop. repeat case_match; simplify_eq. apply bool_decide_eq_true_1 in H1. by split.
Qed.

(** *** The best route *)

(** The route chosen for an address contains it, and no other route that does is better:
    longer prefix first, then metrics, index and next hop. *)
Lemma best_route_spec address routes :
  match best_route address routes with
  | None => forall r, r ∈ routes -> Contains (pr_prefix r) address = false
  | Some b => b ∈ routes /\ Contains (pr_prefix b) address = true /\
      forall r, r ∈ routes -> Contains (pr_prefix r) address = true -> routeCandidateLess r b = false
  end.
Proof.
  unfold best_route.
  assert (Hgen : forall done_ best,
    match best with
    | None => forall r, r ∈ done_ -> Contains (pr_prefix r) address = false
    | Some b => b ∈ done_ /\ Contains (pr_prefix b) address = true /\
        forall r, r ∈ done_ -> Contains (pr_prefix r) address = true -> cmp_le route_cmp b r
    end ->
    match fold_left (fun best candidate =>
      if negb (Contains (pr_prefix candidate) address) then best
      else match best with None => Some candidate | Some b => if routeCandidateLess candidate b then Some candidate else best end) routes best with
    | None => forall r, r ∈ done_ ++ routes -> Contains (pr_prefix r) address = false
    | Some b => b ∈ done_ ++ routes /\ Contains (pr_prefix b) address = true /\
        forall r, r ∈ done_ ++ routes -> Contains (pr_prefix r) address = true -> cmp_le route_cmp b r
    end); [|exact (Hgen [] None ltac:(set_solver))].
  induction routes as [|c routes IH]; intros done_ best Hb; cbn [fold_left]; [by rewrite app_nil_r|].
  replace (done_ ++ c :: routes) with ((done_ ++ [c]) ++ routes) by (by rewrite <- app_assoc).
  apply IH. destruct (Contains (pr_prefix c) address) eqn:Ec; cbn [negb].
  - destruct best as [b|].
    + destruct Hb as (Hin & Hcb & Hmin). destruct (routeCandidateLess c b) eqn:El.
      * split; [set_solver|]. split; [done|]. intros r [Hr|Hr]%elem_of_app Hcr.
        -- transitivity b; [|by apply Hmin]. rewrite (cmp_le_iff route_cmp). unfold routeCandidateLess, cmp_less in El. intros E. by rewrite E in El.
        -- apply list_elem_of_singleton in Hr as ->. destruct (total (cmp_le route_cmp) c c); done.
      * split; [set_solver|]. split; [done|]. intros r [Hr|Hr]%elem_of_app Hcr; [by apply Hmin|].
        apply list_elem_of_singleton in Hr as ->. exact El.
    + split; [set_solver|]. split; [done|]. intros r [Hr|Hr]%elem_of_app Hcr; [by rewrite Hb in Hcr|].
      apply list_elem_of_singleton in Hr as ->. destruct (total (cmp_le route_cmp) c c); done.
  - destruct best as [b|].
    + destruct Hb as (Hin & Hcb & Hmin). split; [set_solver|]. split; [done|].
      intros r [Hr|Hr]%elem_of_app Hcr; [by apply Hmin|]. apply list_elem_of_singleton in Hr as ->. congruence.
    + intros r [Hr|Hr]%elem_of_app; [by apply Hb|]. by apply list_elem_of_singleton in Hr as ->.
Qed.

Lemma route_cmp_eq r b : routeCandidateLess r b = false -> routeCandidateLess b r = false ->
  PrefixBits (pr_prefix r) = PrefixBits (pr_prefix b) /\ pr_effective r = pr_effective b /\
  HR_Metric (pr_value r) = HR_Metric (pr_value b) /\ HR_InterfaceIndex (pr_value r) = HR_InterfaceIndex (pr_value b) /\
  HR_NextHop (pr_value r) = HR_NextHop (pr_value b).
Proof.
  unfold routeCandidateLess, cmp_less. rewrite (cmp_antisym (c := route_cmp) r b). intros H1 H2.
  assert (E : route_cmp r b = Eq) by (destruct (route_cmp r b); done). clear H1 H2. revert E.
  unfold route_cmp, cmp_lex, cmp_on. repeat case_match; try done.
  repeat match goal with H : (_ ?= _) = Eq |- _ => apply Z.compare_eq_iff in H end.
  intros E%String.compare_eq_iff. split_and!; try done. lia.
Qed.

Lemma masked_unique p q a : Is4 (PrefixAddr p) = true -> p = Masked p -> Is4 (PrefixAddr q) = true -> q = Masked q ->
  PrefixBits p = PrefixBits q -> Contains p a = true -> Contains q a = true -> p = q.
Proof.
  destruct p as [[|v|] b], q as [[|u|] d]; try done. unfold Masked, Contains. simpl. intros _ [= Hv] _ [= Hu] <-.
  destruct a as [|w|]; try done. rewrite !Z.eqb_eq. intros E1 E2. rewrite E1 in Hv. rewrite E2 in Hu. congruence.
Qed.

Lemma best_route_perm metrics node address routes routes' b : Forall masked_route routes -> routes ≡ₚ routes' ->
  best_route address routes = Some b ->
  exists b', best_route address routes' = Some b' /\ node_route metrics node b' = node_route metrics node b.
Proof.
  intros Hm Hp Hb. pose proof (best_route_spec address routes) as H. pose proof (best_route_spec address routes') as H'.
  rewrite Hb in H. destruct H as (Hin & Hc & Hmin).
  destruct (best_route address routes') as [b'|]; setoid_rewrite <- Hp in H'; [|rewrite (H' b Hin) in Hc; done].
  exists b'. split; [done|]. destruct H' as (Hin' & Hc' & Hmin').
  destruct (route_cmp_eq b' b (Hmin b' Hin' Hc') (Hmin' b Hin Hc)) as (E1 & E2 & E3 & E4 & E5).
  rewrite Forall_forall in Hm. destruct (Hm b Hin) as [M1 M2]. destruct (Hm b' Hin') as [M1' M2'].
  unfold node_route. rewrite (masked_unique _ _ _ M1' M2' M1 M2 E1 Hc' Hc), E2, E3, E4, E5. done.
Qed.

Lemma node_routes_perm metrics routes routes' nodes l : Forall masked_route routes -> routes ≡ₚ routes' ->
  node_routes metrics routes nodes = inl l -> node_routes metrics routes' nodes = inl l.
Proof.
  intros Hm Hp. revert l. induction nodes as [|node nodes IH]; intros l; simpl; [done|].
  destruct (best_route _ routes) as [b|] eqn:Eb; [|done].
  destruct (best_route_perm metrics node _ _ _ _ Hm Hp Eb) as (b' & -> & ->).
  destruct (node_routes metrics routes nodes) as [r|]; [|done]. by rewrite (IH r eq_refl).
Qed.

(** *** The baseline *)
Section Order.
Context `{GoSortLaws}.

(** Things that are sorted by the same key are the same. *)
Definition distinct_keys {A} (c : A -> A -> comparison) (l : list A) : Prop :=
  forall x y, x ∈ l -> y ∈ l -> c x y = Eq -> x = y.

Lemma sort_Slice_unique {A} (c : A -> A -> comparison) `{!LawfulCmp c} l l' :
  distinct_keys c l -> l ≡ₚ l' -> sort_Slice c l = sort_Slice c l'.
Proof.
  intros Hd Hp. apply (Sorted_unique_strong (cmp_le c)).
  - intros x y Hx Hy. rewrite sort_Slice_perm in Hx, Hy. rewrite !(cmp_le_iff c), (cmp_antisym (c := c) x y).
    destruct (c x y) eqn:E; [|done|done]. intros _ _. apply Hd; [done| |done]. by rewrite Hp.
  - apply StronglySorted_Sorted, sort_Slice_sorted, _.
  - apply StronglySorted_Sorted, sort_Slice_sorted, _.
  - by rewrite !sort_Slice_perm.
Qed.

Lemma distinct_keys_perm {A} (c : A -> A -> comparison) l l' : l ≡ₚ l' -> distinct_keys c l -> distinct_keys c l'.
Proof. intros Hp Hd x y. rewrite <- Hp. apply Hd. Qed.

Lemma interfaces_distinct luids l ni m : normalize_interfaces luids ∅ l = inl (ni, m) -> distinct_keys interface_cmp ni.
Proof.
  intros (_ & _ & Hp & Hm)%normalize_interfaces_spec.
  change (interfaces_of ∅) with (map (fun kv => native_interface kv.2) (map_to_list (∅ : Metrics))) in Hp.
  rewrite map_to_list_empty, app_nil_r in Hp. apply (distinct_keys_perm _ (interfaces_of m)); [done|].
  intros x y. unfold interfaces_of. rewrite !list_elem_of_In, !in_map_iff.
  intros ([i v] & <- & Hv%list_elem_of_In) ([j w] & <- & Hw%list_elem_of_In) E%Z.compare_eq_iff. simpl in *.
  apply elem_of_map_to_list in Hv, Hw.
  pose proof (proj1 (Hm i v) Hv) as [?|[_ Hi]]; [done|]. pose proof (proj1 (Hm j w) Hw) as [?|[_ Hj]]; [done|].
  congruence.
Qed.

Lemma node_routes_addresses metrics routes nodes l : node_routes metrics routes nodes = inl l -> map NodeAddress_ l = nodes.
Proof.
  revert l. induction nodes as [|node nodes IH]; intros l; simpl; [by intros [= <-]|].
  destruct (best_route _ routes) as [b|]; [|done]. destruct (node_routes metrics routes nodes) as [r|]; [|done].
  intros [= <-]. simpl. by rewrite (IH r eq_refl).
Qed.

Lemma distinct_NoDup {A} (f : A -> string) l : NoDup (map f l) -> distinct_keys (cmp_on f String.compare) l.
Proof.
  intros Hn x y Hx Hy E%String.compare_eq_iff. apply list_elem_of_lookup in Hx as [i Hi]. apply list_elem_of_lookup in Hy as [j Hj].
  assert (i = j) as <- by (eapply (NoDup_lookup (map f l)); [done|rewrite list_lookup_fmap, Hi; done|rewrite list_lookup_fmap, Hj; simpl; congruence]).
  congruence.
Qed.

Lemma canonicalIPv4Addresses_NoDup values l : canonicalIPv4Addresses values = inl l -> NoDup l.
Proof.
  unfold canonicalIPv4Addresses. destruct (parse_all _ values); [|done]. intros [= <-]. unfold sort_strings.
  rewrite merge_sort_Permutation. apply NoDup_remove_dups.
Qed.

(** A baseline determines the order of its lists when no two adapters, and no two
    routes, have the same key and different contents. *)
Definition determined (b : WindowsNetworkBaseline) : Prop :=
  distinct_keys adapter_cmp (Adapters b) /\ distinct_keys native_route_cmp (Routes b).

(** The baseline, hence the fingerprint, does not depend on the order in which the API
    lists adapters, interfaces and routes. *)
Lemma enumeration_order_is_irrelevant adapters interfaces routes nodes adapters' interfaces' routes' b :
  normalizeNativeNetwork adapters interfaces routes nodes = inl b -> determined b ->
  adapters ≡ₚ adapters' -> interfaces ≡ₚ interfaces' -> routes ≡ₚ routes' ->
  normalizeNativeNetwork adapters' interfaces' routes' nodes = inl b.
Proof.
  unfold normalizeNativeNetwork. intros Hn [Hd1 Hd2] Pa Pi Pr.
  assert (Hne : forall A (l l' : list A), l ≡ₚ l' -> l <> [] -> exists x r, l' = x :: r).
  { intros A l [|x r] Hp Hl; [by apply Permutation_nil_r in Hp|by exists x, r]. }
  destruct adapters as [|a0 ar]; [done|]. destruct interfaces as [|i0 ir]; [done|]. destruct routes as [|r0 rr]; [done|].
  destruct (normalize_adapters ∅ (a0 :: ar)) as [[na luids]|] eqn:Ea; [|done].
  destruct (normalize_interfaces luids ∅ (i0 :: ir)) as [[ni m]|] eqn:Ei; [|done].
  destruct (normalize_routes m (r0 :: rr)) as [parsed|] eqn:Er; [|done].
  destruct (negb (existsb _ parsed)) eqn:Edef; [done|].
  destruct (canonicalIPv4Addresses nodes) as [canon|] eqn:Ec; [|done].
  destruct (node_routes m (map fst parsed) canon) as [nr|] eqn:En; [|done].
  apply (inj inl) in Hn as <-. cbn [canonicalizeNativeBaseline Adapters Routes] in Hd1, Hd2.
  destruct (normalize_adapters_perm _ _ _ _ Ea Pa) as (na' & luids' & Ea' & Pna & Hk).
  destruct (normalize_interfaces_perm _ luids' _ _ _ _ Hk Ei Pi) as (ni' & Ei' & Pni).
  destruct (normalize_routes_perm _ _ _ _ Er Pr) as (parsed' & Er' & Ppr).
  destruct (Hne _ _ _ Pa ltac:(done)) as (? & ? & ->). destruct (Hne _ _ _ Pi ltac:(done)) as (? & ? & ->).
  destruct (Hne _ _ _ Pr ltac:(done)) as (? & ? & ->). rewrite Ea', Ei', Er'.
  rewrite <- (existsb_perm _ _ _ Ppr), Edef.
  rewrite (node_routes_perm m (map fst parsed) (map fst parsed') canon nr); [|by apply Forall_map, (normalize_routes_masked _ _ _ Er)|by rewrite Ppr|done].
  f_equal. unfold canonicalizeNativeBaseline. cbn [Adapters Interfaces Routes NodeRoutes]. f_equal.
  - symmetry. apply sort_Slice_unique; [apply _| |done]. eapply distinct_keys_perm; [apply sort_Slice_perm|done].
  - symmetry. apply sort_Slice_unique; [apply _|by eapply interfaces_distinct|done].
  - symmetry. apply sort_Slice_unique; [apply _| |by rewrite Ppr]. eapply distinct_keys_perm; [apply sort_Slice_perm|done].
Qed.


(** The route chosen for a node. *)
Theorem node_routes_are_the_best adapters interfaces routes nodes b :
  normalizeNativeNetwork adapters interfaces routes nodes = inl b ->
  exists metrics parsed, normalize_routes metrics routes = inl parsed /\
    forall n, n ∈ NodeRoutes b -> exists r, r ∈ map fst parsed /\ n = node_route metrics (NodeAddress_ n) r /\
      forall a, ParseAddr (NodeAddress_ n) = Some a -> Contains (pr_prefix r) a = true /\
        forall r', r' ∈ map fst parsed -> Contains (pr_prefix r') a = true -> routeCandidateLess r' r = false.
Proof.
  unfold normalizeNativeNetwork. destruct adapters as [|a0 ar]; [done|]. destruct interfaces as [|i0 ir]; [done|].
  destruct routes as [|r0 rr]; [done|].
  destruct (normalize_adapters _ _) as [[na luids]|]; [|done]. destruct (normalize_interfaces _ _ _) as [[ni m]|]; [|done].
  destruct (normalize_routes m (r0 :: rr)) as [parsed|] eqn:Er; [|done]. destruct (negb _); [done|].
  destruct (canonicalIPv4Addresses nodes) as [canon|]; [|done].
  destruct (node_routes m (map fst parsed) canon) as [nr|] eqn:En; [|done]. intros <-%(inj inl).
  exists m, parsed. split; [done|]. unfold canonicalizeNativeBaseline. cbn [NodeRoutes]. intros n Hn.
  rewrite sort_Slice_perm in Hn. revert nr En Hn. induction canon as [|c canon IH]; intros nr; simpl.
  { intros [= <-] ?%not_elem_of_nil. done. }
  destruct (best_route _ _) as [best|] eqn:Eb; [|done]. destruct (node_routes _ _ canon) as [l|] eqn:El; [|done].
  intros [= <-] [->|Hn]%elem_of_cons; [|by apply (IH l)].
  pose proof (best_route_spec (default AddrInvalid (ParseAddr c)) (map fst parsed)) as Hspec. rewrite Eb in Hspec.
  destruct Hspec as (H1 & H2 & H3). exists best. split; [done|]. split; [done|]. intros a Ha. simpl in Ha. rewrite Ha in *. by split.
Qed.
End Order.
