(* ===== verification/NetworkManager.v ===== *)
(** * The network manager ([internal/agent/network_windows.go],
    [network_poc_windows.go], [network_monitor.go], [prepared.go])

    The operations that the controller calls around a connection: preparing,
    capturing, waiting for the tunnel adapter, pointing the resolvers at it, restoring
    them, and the monitor.  The Windows API, the PowerShell runner, the clock, the
    contexts and the encodings are parameters; every call that changes the resolver of
    an interface, and every trace event, is logged in order. *)
From S2P Require Import Prelude GoText Netip AccessModel NetPrefixes NativeNetwork.
From S2P Require TraceEvent.
From stdpp Require Import gmap pretty.

#[local] Open Scope string_scope.
#[local] Open Scope Z_scope.
#[local] Open Scope list_scope.

(** ** Operations of the fixed scripts and their texts *)
Definition networkOperationCapture := "capture".
Definition networkOperationScan := "scan".
Definition networkOperationBlock := "block".
Definition networkOperationVerify := "verify".
Definition networkOperationEmergency := "emergency".
Definition networkOperationReady := "ready".
Definition networkOperationActivate := "activate".
Definition networkOperationRestore := "restore".
Definition networkOperationPreparedRestore := "prepared_restore".
Definition networkOperationDNSMetric := "dns_metric".
Definition networkOperationResidue := "residue".
Definition networkOperationFirewallPrepare := "firewall_prepare".
Definition networkOperationFirewallEnable := "firewall_enable".
Definition networkOperationFirewallVerify := "firewall_verify".
Definition networkOperationFirewallDisable := "firewall_disable".
Definition networkOperationFirewallArm := "firewall_arm".
Definition networkOperationFirewallAudit := "firewall_audit".
Definition networkOperationTUNRecover := "tun_recover".

Definition windowsTUNInterface := "RegenBioOverseasAccess".
Definition windowsTUNAddress := "172.19.0.1/30".
Definition windowsCoreExecutable := "C:\Program Files\RegenBio\OverseasAccess\sing-box.exe".
Definition windowsOwnedRouteMetric : Z := 4096.
Definition windowsSnapshotPhaseCaptured := "captured".
Definition windowsSnapshotPhaseTUNOwned := "tun-owned".
Definition windowsPreparedStateVersion : Z := 1.
Definition windowsFirewallRuleDefinitionVersion : Z := 2.

Definition networkStage (operation : string) : string :=
  let op := String.eqb operation in
  if op networkOperationCapture then TraceEvent.StageNetworkCapture
  else if op networkOperationScan then TraceEvent.StageAdapterScan
  else if op networkOperationBlock then TraceEvent.StageFirewallPublish
  else if op networkOperationVerify then TraceEvent.StageActiveStoreVerify
  else if op networkOperationEmergency then TraceEvent.StageEmergencyProtection
  else if op networkOperationReady then TraceEvent.StageTUNReady
  else if op networkOperationTUNRecover then TraceEvent.StageTUNReady
  else if op networkOperationActivate then TraceEvent.StageRouteActivation
  else if op networkOperationRestore || op networkOperationPreparedRestore || op networkOperationDNSMetric
  then TraceEvent.StageNetworkRestore
  else if op networkOperationResidue then TraceEvent.StageResidueVerify
  else if op networkOperationFirewallPrepare then TraceEvent.StageFirewallPrepare
  else if op networkOperationFirewallArm || op networkOperationFirewallEnable then TraceEvent.StageFirewallEnable
  else if op networkOperationFirewallVerify || op networkOperationFirewallAudit then TraceEvent.StageFirewallVerify
  else if op networkOperationFirewallDisable then TraceEvent.StageNetworkRestore
  else TraceEvent.StageLoggingDegraded.

Definition networkOperationMessages (operation : string) : string * string :=
  let op := String.eqb operation in
  if op networkOperationFirewallPrepare then ("正在创建预置防泄漏规则", "预置规则已准备并保持禁用")
  else if op networkOperationFirewallEnable then ("正在启用防泄漏保护", "防泄漏保护已启用")
  else if op networkOperationFirewallArm || op networkOperationFirewallVerify then ("正在启用防泄漏保护", "防泄漏保护已启用")
  else if op networkOperationFirewallDisable then ("正在禁用预置防泄漏规则", "预置规则已禁用")
  else if op networkOperationFirewallAudit then ("正在审计预置防火墙定义", "预置防火墙定义审计通过")
  else if op networkOperationTUNRecover then ("正在检查残留虚拟网卡", "残留虚拟网卡已处理")
  else if op networkOperationReady then ("正在等待 sing-box TUN 网卡", "TUN 网卡已就绪")
  else if op networkOperationActivate || op networkOperationDNSMetric then ("正在切换 DNS 与安全路由", "安全路由已启用")
  else if op networkOperationRestore || op networkOperationPreparedRestore then ("正在恢复普通网络", "普通网络已恢复")
  else if op networkOperationResidue then ("正在检查连接残留", "活动残留已清零")
  else if op networkOperationEmergency then ("正在启用应急防护", "应急防护已启用")
  else if op networkOperationCapture then ("正在读取当前网络配置", "当前网络配置已确认")
  else if op networkOperationScan then ("正在枚举需要保护的网卡", "已识别需保护接口")
  else if op networkOperationBlock then ("正在启用防泄漏保护", "防泄漏保护已启用")
  else if op networkOperationVerify then ("正在核对 Windows 防火墙活动状态", "活动规则核对通过")
  else ("", "").

Definition networkOperationStartMessage (operation : string) : string := (networkOperationMessages operation).1.
Definition networkOperationSuccessMessage (operation : string) : string := (networkOperationMessages operation).2.
Definition networkOperationFailureMessage (operation : string) : string :=
  let start := (networkOperationMessages operation).1 in
  if negb (start =?s "") then start ++s "失败" else "网络操作失败".

(** ** Data *)
Record WindowsInterfaceSnapshot := mkInterfaceSnapshot {
  IS_Index : Z; IS_InterfaceGuid : string; IS_Alias : string; IS_InterfaceMetric : Z; IS_AutomaticMetric : bool;
  IS_DNSAutomatic : bool; IS_DNSServers : list string
}.

Record WindowsOwnedRoute := mkOwnedRoute {
  OR_AddressFamily : string; OR_DestinationPrefix : string; OR_InterfaceIndex : Z; OR_NextHop : string; OR_RouteMetric : Z
}.

Record WindowsTUNIdentity := mkTUNIdentity {
  TI_InterfaceIndex : Z; TI_InterfaceGuid : string; TI_InterfaceAlias : string; TI_InterfaceDescription : string;
  TI_HardwareInterface : bool; TI_Virtual : bool; TI_Addresses : list string
}.

Record WindowsNetworkSnapshot := mkSnapshot {
  SN_Version : Z;
  SN_Interfaces : list WindowsInterfaceSnapshot;
  SN_OwnedFirewallRulesPresent : list string;
  SN_ConflictingTUNRoutes : list string;
  SN_BaselineAdapterGuids : list string;
  SN_TUNAliasPresent : bool;
  SN_TUNAddressPresent : bool;
  SN_NodeRoutes : list WindowsNodeRouteSnapshot;
  SN_OwnedTUN : option WindowsTUNIdentity;
  SN_OwnedRoutes : list WindowsOwnedRoute;
  SN_GuardRoutes : list WindowsOwnedRoute;
  SN_GuardInterfaceIndex : Z;
  SN_BlockedRemoteAddresses : list string;
  SN_DNSBlockedRemoteAddresses : list string;
  SN_RouteMetric : Z;
  SN_OwnershipPhase : string;
  SN_PreparedGeneration : Z;
  SN_IntegritySHA256 : string
}.

Record WindowsPreparedRule := mkRule {
  RuleName : string; RuleInterfaceGuid : string; RuleInterfaceAlias : string; RuleInterfaceAliases : list string;
  RuleProtocol : string; RuleRemotePorts : list string; RuleRemoteAddressesSHA : string;
  RuleEmergency : bool; RuleExpectedEnabled : bool
}.

Record WindowsPreparedState := mkPreparedState {
  PS_Version : Z;
  PS_Generation : Z;
  PS_AdapterCount : Z;
  PS_PolicySHA256 : string;
  PS_RuleDefinitionVersion : Z;
  PS_FingerprintSHA256 : string;
  PS_Baseline : WindowsNetworkBaseline;
  PS_BlockedRemoteAddresses : list string;
  PS_DNSBlockedRemoteAddresses : list string;
  PS_Rules : list WindowsPreparedRule;
  PS_IntegritySHA256 : string
}.

Record PreparedNetwork := mkPrepared { PN_Generation : Z; PN_Fingerprint : string; PN_AdapterCount : Z; PN_RuleCount : Z }.

(** *** Errors *)

(** The sentinels of [prepared.go], the staged error of a failed script, and texts. *)
Inductive NetError :=
  | ErrTUNNotFound (detail : string)
  | ErrTUNIdentityMismatch (detail : string)
  | ErrNetworkChanged (detail : string)
  | ErrVPNConflict (detail : string)
  | ErrFirewallAudit (detail : string)
  | ErrStaged (stage detail text : string)
  | ErrText (text : string).

Definition err_text (e : NetError) : string :=
  let wrap sentinel detail := sentinel ++s (if detail =?s "" then "" else ": " ++s detail) in
  match e with
  | ErrTUNNotFound d => wrap "fixed TUN adapter did not appear before the deadline" d
  | ErrTUNIdentityMismatch d => wrap "fixed TUN adapter identity does not match the owned definition" d
  | ErrNetworkChanged d => wrap "network fingerprint changed while connected" d
  | ErrVPNConflict d => wrap "a foreign VPN tunnel adapter is active" d
  | ErrFirewallAudit d => wrap "prepared firewall audit failed" d
  | ErrStaged _ _ text => text
  | ErrText text => text
  end.

(** *** Pure checks *)

Definition lowercase_sha256 (s : string) : bool :=
  (len s =? 64) && string_all (fun a => is_digit (byte_val a) || ((97 <=? byte_val a) && (byte_val a <=? 102))) s.

Definition validatePreparedNetwork (p : PreparedNetwork) : option string :=
  if PN_Generation p =? 0 then Some "prepared generation is required"
  else if negb (lowercase_sha256 (PN_Fingerprint p)) then Some "prepared fingerprint must be lowercase SHA-256"
  else if PN_AdapterCount p <=? 0 then Some "prepared adapter count must be positive"
  else None.

Definition preparedNetworkFromState (s : WindowsPreparedState) : PreparedNetwork :=
  mkPrepared (PS_Generation s) (PS_FingerprintSHA256 s)
    (Z.of_nat (length (filter (fun r => negb (RuleInterfaceGuid r =?s "") && negb (RuleEmergency r) = true) (PS_Rules s))))
    (Z.of_nat (length (PS_Rules s))).

Definition preparedFirewallMonitoringApplies (s : WindowsPreparedState) : bool := negb (Nat.eqb (length (PS_Rules s)) 0).

Section Checks.
Context `{FoldTables, UnicodeTables}.

Definition canonicalGuid (value : string) : string := strings_ToLower (strings_TrimSpace value).

Definition foreignTunnelAdapter (a : WindowsNativeAdapter) : bool :=
  if strings_EqualFold (NA_InterfaceAlias a) windowsTUNInterface then false
  else
    let description := strings_ToLower (NA_Description a) in
    existsb (strings_Contains description)
      ["wintun"; "tap-"; "tun2socks"; "sing-box"; "clash"; "meta"; "ikuuu"; "sakura"; "vpn"].

Definition validateTUNIdentity (tun : WindowsTUNIdentity) (baseline : list string) : option string :=
  if (TI_InterfaceIndex tun <=? 0) || negb (TI_InterfaceAlias tun =?s windowsTUNInterface) ||
     blank (TI_InterfaceGuid tun) then Some "TUN identity is incomplete"
  else if existsb (fun guid => strings_EqualFold guid (TI_InterfaceGuid tun)) baseline
  then Some "TUN adapter was present before core launch"
  else match TI_Addresses tun with
  | [address] =>
      if address =?s windowsTUNAddress then None
      else Some "TUN adapter address does not match the rendered configuration"
  | _ => Some "TUN adapter address does not match the rendered configuration"
  end.

(** The loop of [TUNReady] over the adapters. *)
Fixpoint find_tun (alias target : string) (adapters : list ipHelperAdapter) : option WindowsTUNIdentity :=
  match adapters with
  | [] => None
  | a :: rest =>
      if negb (strings_EqualFold (HA_InterfaceAlias a) alias) then find_tun alias target rest
      else match filter (fun value => before_slash value = target) (HA_IPAddresses a) with
      | [] => find_tun alias target rest
      | matching =>
          Some (mkTUNIdentity (HA_InterfaceIndex a) (HA_InterfaceGuid a) (HA_InterfaceAlias a) "" false false matching)
      end
  end.

(** *** The snapshot of a prepared state ([snapshotFromPrepared]) *)
Definition metrics_by_index (l : list WindowsNativeInterface) : gmap Z WindowsNativeInterface :=
  fold_left (fun m v => <[NI_InterfaceIndex v := v]> m) l ∅.

Definition passed_over (a : WindowsNativeAdapter) : bool :=
  (NA_InterfaceIndex a =? 1) || strings_EqualFold (NA_Status a) "NotPresent".

Fixpoint interface_snapshots (metrics : gmap Z WindowsNativeInterface) (adapters : list WindowsNativeAdapter)
    : list WindowsInterfaceSnapshot + string :=
  match adapters with
  | [] => inl []
  | a :: rest =>
      if passed_over a then interface_snapshots metrics rest
      else match metrics !! NA_InterfaceIndex a with
      | None => inr "prepared adapter metric identity is incomplete"
      | Some m =>
          if negb (NI_InterfaceLUID m =? 0) && negb (NA_InterfaceLUID a =? 0) &&
             negb (NI_InterfaceLUID m =? NA_InterfaceLUID a)
          then inr "prepared adapter metric identity is incomplete"
          else match interface_snapshots metrics rest with
          | inr err => inr err
          | inl l =>
              inl (mkInterfaceSnapshot (NA_InterfaceIndex a) (NA_InterfaceGuid a) (NA_InterfaceAlias a)
                     (NI_InterfaceMetric m) (NI_AutomaticMetric m) (NA_DNSAutomatic a) (NA_DNSServers a) :: l)
          end
      end
  end.

Definition snapshotFromPrepared (plan : Plan) (s : WindowsPreparedState) : WindowsNetworkSnapshot + string :=
  match interface_snapshots (metrics_by_index (Interfaces (PS_Baseline s))) (Adapters (PS_Baseline s)) with
  | inr err => inr err
  | inl interfaces =>
      inl (mkSnapshot 1 interfaces [] [] (sort_strings (map NA_InterfaceGuid (Adapters (PS_Baseline s)))) false false
             (NodeRoutes (PS_Baseline s)) None [] [] 0 (blockedPrefixes plan) (dnsBlockedPrefixes plan)
             windowsOwnedRouteMetric windowsSnapshotPhaseCaptured (PS_Generation s) "")
  end.
End Checks.

(** *** The input of a script *)
Record WindowsAdapterIdentity := mkAdapterIdentity {
  AI_InterfaceIndex : Z; AI_InterfaceGuid : string; AI_InterfaceAlias : string; AI_Status : string
}.

Record windowsNetworkInput := mkInput {
  IN_Interfaces : list WindowsInterfaceSnapshot;
  IN_RestoreInterfaces : bool;
  IN_FirewallRuleNames : list string;
  IN_FirewallGroup : string;
  IN_BlockedRemoteAddresses : list string;
  IN_DNSBlockedRemoteAddresses : list string;
  IN_ProtectedAdapters : list WindowsAdapterIdentity;
  IN_PreparedRules : list WindowsPreparedRule;
  IN_PreparedGeneration : Z;
  IN_RuleDefinitionVersion : Z;
  IN_PreviousPreparedRules : list WindowsPreparedRule;
  IN_PreviousPreparedGeneration : Z;
  IN_PreviousRuleDefinitionVersion : Z;
  IN_PreviousBlockedRemoteAddresses : list string;
  IN_PreviousDNSBlockedRemoteAddresses : list string;
  IN_DNSConnected : bool;
  IN_TUNInterface : string;
  IN_TUNAddress : string;
  IN_TUNDNS : string;
  IN_TUNRoutePrefixes : list string;
  IN_RouteMetric : Z;
  IN_NodeAddresses : list string;
  IN_BaselineAdapterGuids : list string;
  IN_OwnedTUN : option WindowsTUNIdentity;
  IN_OwnedRoutes : list WindowsOwnedRoute;
  IN_GuardRoutes : list WindowsOwnedRoute;
  IN_CoreExecutable : string
}.

Definition networkInputSummary (operation : string) (i : windowsNetworkInput) : string :=
  let count {A} (l : list A) := pretty (Z.of_nat (length l)) in
  "operation=" ++s operation ++s " interfaces=" ++s count (IN_Interfaces i) ++s
  " protected_adapters=" ++s count (IN_ProtectedAdapters i) ++s " firewall_rules=" ++s count (IN_FirewallRuleNames i) ++s
  " blocked_prefixes=" ++s count (IN_BlockedRemoteAddresses i) ++s " dns_prefixes=" ++s count (IN_DNSBlockedRemoteAddresses i) ++s
  " owned_routes=" ++s count (IN_OwnedRoutes i) ++s " node_addresses=" ++s count (IN_NodeAddresses i).

Definition recover_input : windowsNetworkInput :=
  mkInput [] false [] "" [] [] [] [] 0 0 [] 0 0 [] [] false windowsTUNInterface "" "" [] 0 [] [] None [] [] windowsCoreExecutable.

(** *** Prepared rules ([firewall_pool.go], [firewall_pool_windows.go]) *)
Definition windowsFirewallGroup := "RegenBioOverseasAccess.Managed".

Section Rules.
Context `{GoSort}.

Definition canonical_rule (r : WindowsPreparedRule) : WindowsPreparedRule :=
  mkRule (RuleName r) (RuleInterfaceGuid r) (RuleInterfaceAlias r) (sort_strings (RuleInterfaceAliases r))
    (RuleProtocol r) (sort_strings (RuleRemotePorts r)) (RuleRemoteAddressesSHA r) (RuleEmergency r) (RuleExpectedEnabled r).

Definition canonicalPreparedRules (rules : list WindowsPreparedRule) : list WindowsPreparedRule :=
  sort_Slice (cmp_on RuleName String.compare) (map canonical_rule rules).

Definition preparedFirewallInput (plan : Plan) (s : WindowsPreparedState) (includeEmergency : bool) : windowsNetworkInput :=
  let rules := canonicalPreparedRules (PS_Rules s) in
  let rules := if includeEmergency then rules else filter (fun r => RuleEmergency r = false) rules in
  let blocked := match PS_BlockedRemoteAddresses s with [] => blockedPrefixes plan | l => l end in
  let dns := match PS_DNSBlockedRemoteAddresses s with [] => dnsBlockedPrefixes plan | l => l end in
  mkInput [] false (sort_strings (map RuleName rules)) windowsFirewallGroup blocked dns [] rules
    (PS_Generation s) (PS_RuleDefinitionVersion s) [] 0 0 [] [] false "" "" "" [] 0 [] [] None [] [] "".

Definition expect_enabled (connected : bool) (r : WindowsPreparedRule) : WindowsPreparedRule :=
  mkRule (RuleName r) (RuleInterfaceGuid r) (RuleInterfaceAlias r) (RuleInterfaceAliases r) (RuleProtocol r)
    (RuleRemotePorts r) (RuleRemoteAddressesSHA r) (RuleEmergency r) (connected && negb (RuleEmergency r)).

Definition with_rules (rules : list WindowsPreparedRule) (s : WindowsPreparedState) : WindowsPreparedState :=
  mkPreparedState (PS_Version s) (PS_Generation s) (PS_AdapterCount s) (PS_PolicySHA256 s) (PS_RuleDefinitionVersion s)
    (PS_FingerprintSHA256 s) (PS_Baseline s) (PS_BlockedRemoteAddresses s) (PS_DNSBlockedRemoteAddresses s) rules (PS_IntegritySHA256 s).
End Rules.

(** ** The environment *)
Inductive Ctx := CallerCtx | DetachedCtx.

Class NetSystem := {
  NWorld : Type;
  net_ctx_Err : Ctx -> NWorld -> option string * NWorld;
  net_Now : NWorld -> Z * NWorld;
  net_Sleep : Z -> NWorld -> NWorld;
  api_Adapters : NWorld -> (list ipHelperAdapter + string) * NWorld;
  api_IPv4Interfaces : list ipHelperAdapter -> NWorld -> (list ipHelperInterface + string) * NWorld;
  api_IPv4Routes : NWorld -> (list ipHelperRoute + string) * NWorld;
  api_setInterfaceDNS : string -> string -> NWorld -> option string * NWorld;
  runner_Run : string -> string -> NWorld -> (string + NetError) * NWorld;
  json_Marshal_input : windowsNetworkInput -> string + string;
  json_Marshal_baseline : WindowsNetworkBaseline -> string + string;
  sha256_hex : string -> string
}.

(** ** The manager *)
Section Manager.
Context `{GoSort, FoldTables, UnicodeTables, NetSystem}.

Record MS := mkMS {
  prepared : option WindowsPreparedState;
  current : option WindowsNetworkSnapshot;
  lastOwnedTUN : option WindowsTUNIdentity;
  lastOwnedRoutes : list WindowsOwnedRoute;
  monitorFlights : Z;
  nworld : NWorld;
  dns_calls : list (string * string);
  traces : list TraceEvent.Event
}.

Definition NM : Type -> Type := StateM MS.

Definition set_prepared (p : option WindowsPreparedState) (s : MS) : MS :=
  mkMS p (current s) (lastOwnedTUN s) (lastOwnedRoutes s) (monitorFlights s) (nworld s) (dns_calls s) (traces s).
Definition set_current (c : option WindowsNetworkSnapshot) (s : MS) : MS :=
  mkMS (prepared s) c (lastOwnedTUN s) (lastOwnedRoutes s) (monitorFlights s) (nworld s) (dns_calls s) (traces s).
Definition set_ownership (tun : option WindowsTUNIdentity) (routes : list WindowsOwnedRoute) (s : MS) : MS :=
  mkMS (prepared s) (current s) tun routes (monitorFlights s) (nworld s) (dns_calls s) (traces s).
Definition set_flights (n : Z) (s : MS) : MS :=
  mkMS (prepared s) (current s) (lastOwnedTUN s) (lastOwnedRoutes s) n (nworld s) (dns_calls s) (traces s).
Definition set_world (w : NWorld) (s : MS) : MS :=
  mkMS (prepared s) (current s) (lastOwnedTUN s) (lastOwnedRoutes s) (monitorFlights s) w (dns_calls s) (traces s).
Definition log_dns (call : string * string) (s : MS) : MS :=
  mkMS (prepared s) (current s) (lastOwnedTUN s) (lastOwnedRoutes s) (monitorFlights s) (nworld s) (dns_calls s ++ [call]) (traces s).
Definition log_trace (e : TraceEvent.Event) (s : MS) : MS :=
  mkMS (prepared s) (current s) (lastOwnedTUN s) (lastOwnedRoutes s) (monitorFlights s) (nworld s) (dns_calls s) (traces s ++ [e]).

Definition system {A} (f : NWorld -> A * NWorld) : NM A := fun s => let '(x, w) := f (nworld s) in (x, set_world w s).
Definition ctx_Err (c : Ctx) : NM (option string) := system (net_ctx_Err c).

(** *** Scripts ([run]) *)
Context (generation : Z).

Definition emitNetworkTrace (e : TraceEvent.Event) : NM unit :=
  let '(detail, truncated) := TraceEvent.SanitizeDetail (TraceEvent.EvDetail e) [] in
  puts (log_trace (TraceEvent.mkEvent (TraceEvent.EvSchemaVersion e) (TraceEvent.EvSequence e) (TraceEvent.EvTimestamp e)
    (TraceEvent.EvTimestampIsUTC e) (TraceEvent.EvGeneration e) (TraceEvent.EvLevel e) (TraceEvent.EvComponent e)
    (TraceEvent.EvStage e) (TraceEvent.EvEvent e) (TraceEvent.EvElapsedMS e)
    (TraceEvent.SanitizeDetail (TraceEvent.EvMessage e) []).1 detail truncated (TraceEvent.EvResidue e))).

Definition network_event (level stage event : string) (elapsed : option Z) (message detail : string) : TraceEvent.Event :=
  TraceEvent.mkEvent 0 0 0 false generation level TraceEvent.ComponentPowerShell stage event elapsed message detail false None.

Definition emitNetworkTerminal (stage : string) (startedAt : Z) (event message detail level : string) : NM unit :=
  now ← system net_Now;
  emitNetworkTrace (network_event level stage event (Some (elapsed_ms now startedAt)) message detail).

(** [newFixedNetworkOperationErrorWithContext] without a standard error text. *)
Definition staged_error (c : Ctx) (operation : string) (err : string) : NM NetError :=
  ctxErr ← ctx_Err c;
  let detail := match ctxErr with Some text => text | None => err end in
  let detail := if detail =?s "" then "operation " ++s operation ++s " failed without stderr" else detail in
  let detail := (TraceEvent.SanitizeDetail detail []).1 in
  mret (ErrStaged (networkStage operation) detail
    ("fixed network operation " ++s operation ++s " failed: " ++s err ++s (if detail =?s "" then "" else ": " ++s detail))).

Definition run (c : Ctx) (operation : string) (input : windowsNetworkInput) : NM (string + NetError) :=
  startedAt ← system net_Now;
  let stage := networkStage operation in
  let summary := networkInputSummary operation input in
  emitNetworkTrace (network_event TraceEvent.LevelInfo stage TraceEvent.EventStarted None (networkOperationStartMessage operation) summary) ;;
  match json_Marshal_input input with
  | inr err =>
      wrapped ← staged_error c operation err;
      let detail := match wrapped with ErrStaged _ d _ => d | _ => "" end in
      emitNetworkTerminal stage startedAt TraceEvent.EventFailed (networkOperationFailureMessage operation) detail TraceEvent.LevelError ;;
      mret (inr wrapped)
  | inl payload =>
      answer ← system (runner_Run operation payload);
      match answer with
      | inr err =>
          err ← (match err with
                 | ErrStaged st d _ => if negb (d =?s "") && negb (st =?s "") then mret err else staged_error c operation (err_text err)
                 | _ => staged_error c operation (err_text err)
                 end);
          let detail := match err with ErrStaged _ d text => if d =?s "" then text else d | _ => err_text err end in
          let detail := (TraceEvent.SanitizeDetail detail []).1 in
          emitNetworkTerminal stage startedAt TraceEvent.EventFailed (networkOperationFailureMessage operation) detail TraceEvent.LevelError ;;
          mret (inr err)
      | inl output =>
          emitNetworkTerminal stage startedAt TraceEvent.EventSucceeded (networkOperationSuccessMessage operation) summary TraceEvent.LevelInfo ;;
          mret (inl output)
      end
  end.

(** *** Reading the network ([ipHelperNetworkReader]) *)
Context (plan : Plan).

Definition Baseline (c : Ctx) : NM (WindowsNetworkBaseline + string) :=
  adapters ← system api_Adapters;
  match adapters with
  | inr err => mret (inr ("read adapters: " ++s err))
  | inl adapters =>
      cancelled ← ctx_Err c;
      match cancelled with
      | Some err => mret (inr err)
      | None =>
          interfaces ← system (api_IPv4Interfaces adapters);
          match interfaces with
          | inr err => mret (inr ("read IPv4 interfaces: " ++s err))
          | inl interfaces =>
              cancelled ← ctx_Err c;
              match cancelled with
              | Some err => mret (inr err)
              | None =>
                  routes ← system api_IPv4Routes;
                  mret (match routes with
                        | inr err => inr ("read IPv4 routes: " ++s err)
                        | inl routes => normalizeNativeNetwork adapters interfaces routes (nodeAddresses plan)
                        end)
              end
          end
      end
  end.

Definition fingerprintNativeNetwork (b : WindowsNetworkBaseline) : string + string :=
  match json_Marshal_baseline (canonicalizeNativeBaseline b) with
  | inl payload => inl (sha256_hex payload)
  | inr err => inr ("marshal native network fingerprint: " ++s err)
  end.

Definition Fingerprint (c : Ctx) : NM (string + string) :=
  b ← Baseline c;
  mret (match b with inl b => fingerprintNativeNetwork b | inr err => inr err end).

Definition TUNReady (alias address : string) : NM (option WindowsTUNIdentity + string) :=
  adapters ← system api_Adapters;
  mret (match adapters with
        | inr err => inr err
        | inl adapters => inl (find_tun alias (before_slash address) adapters)
        end).

(** *** Preparing and capturing *)
Definition recoverOwnedPhantomTUN (c : Ctx) : NM (option NetError) :=
  r ← run c networkOperationTUNRecover recover_input;
  mret (match r with inl _ => None | inr e => Some e end).

(** The first adapter that forbids preparing. *)
Fixpoint refuse_adapters (adapters : list WindowsNativeAdapter) : option NetError :=
  match adapters with
  | [] => None
  | a :: rest =>
      if strings_EqualFold (NA_InterfaceAlias a) windowsTUNInterface then Some (ErrText "owned TUN alias exists while preparing")
      else if foreignTunnelAdapter a then Some (ErrVPNConflict (NA_InterfaceAlias a ++s " (" ++s NA_Description a ++s ")"))
      else refuse_adapters rest
  end.

Definition prepared_state (b : WindowsNetworkBaseline) (fingerprint : string) : WindowsPreparedState :=
  mkPreparedState windowsPreparedStateVersion 1
    (Z.of_nat (length (filter (fun a => foreignTunnelAdapter a = false) (Adapters b)))) ""
    windowsFirewallRuleDefinitionVersion fingerprint b [] [] [] "".

Definition preparePoc (c : Ctx) : NM (PreparedNetwork + NetError) :=
  recovered ← recoverOwnedPhantomTUN c;
  match recovered with
  | Some err => mret (inr err)
  | None =>
      baseline ← Baseline c;
      match baseline with
      | inr err => mret (inr (ErrText ("read network baseline: " ++s err)))
      | inl baseline =>
          match refuse_adapters (Adapters baseline) with
          | Some err => mret (inr err)
          | None =>
              fingerprint ← Fingerprint c;
              match fingerprint with
              | inr err => mret (inr (ErrText err))
              | inl fingerprint =>
                  let state := prepared_state baseline fingerprint in
                  let p := preparedNetworkFromState state in
                  puts (set_prepared (Some state)) ;;
                  mret (inl (mkPrepared (PN_Generation p) (PN_Fingerprint p) (PS_AdapterCount state) (PN_RuleCount p)))
              end
          end
      end
  end.

Definition Prepare (c : Ctx) : NM (PreparedNetwork + NetError) :=
  cancelled ← ctx_Err c;
  match cancelled with
  | Some err => mret (inr (ErrText err))
  | None => preparePoc c
  end.

Definition Capture (c : Ctx) (p : PreparedNetwork) : NM (WindowsNetworkSnapshot + NetError) :=
  match validatePreparedNetwork p with
  | Some err => mret (inr (ErrText err))
  | None =>
      active ← gets current;
      match active with
      | Some _ => mret (inr (ErrText "network state is already captured"))
      | None =>
          cached ← gets prepared;
          match cached with
          | Some state =>
              if negb (PS_Generation state =? PN_Generation p) then mret (inr (ErrText "prepared generation is stale"))
              else
                fingerprint ← Fingerprint c;
                match fingerprint with
                | inr err => mret (inr (ErrText err))
                | inl fingerprint =>
                    if negb (fingerprint =?s PS_FingerprintSHA256 state)
                    then mret (inr (ErrText "network fingerprint changed after preparation"))
                    else match snapshotFromPrepared plan state with
                    | inr err => mret (inr (ErrText err))
                    | inl snapshot => puts (set_current (Some snapshot)) ;; mret (inl snapshot)
                    end
                end
          | None => mret (inr (ErrText "prepared generation is stale"))
          end
      end
  end.

(** [EnableProtection]: the routes of the core suffice. *)
Definition EnableProtection (_ : PreparedNetwork) : NM (option NetError) := mret None.

(** *** Waiting for the tunnel adapter *)
Definition tun_wait : Z := 8 * Second.
Definition tun_pause : Z := 150 * Millisecond.

(** One poll: an identity, an error, or another round. *)
Definition wait_poll (c : Ctx) (deadline : Z) (guids : list string) : NM (option (WindowsTUNIdentity + NetError)) :=
  cancelled ← ctx_Err c;
  match cancelled with
  | Some err => mret (Some (inr (ErrText err)))
  | None =>
      found ← TUNReady windowsTUNInterface windowsTUNAddress;
      match found with
      | inl (Some candidate) =>
          mret (Some (match validateTUNIdentity candidate guids with
                      | Some err => inr (ErrTUNIdentityMismatch err)
                      | None => inl candidate
                      end))
      | _ =>
          now ← system net_Now;
          if deadline <? now then mret (Some (inr (ErrTUNNotFound "deadline reached")))
          else puts (fun s => set_world (net_Sleep tun_pause (nworld s)) s) ;; mret None
      end
  end.

(** [None] when the fuel runs out. *)
Fixpoint wait_loop (fuel : nat) (c : Ctx) (deadline : Z) (guids : list string) : NM (option (WindowsTUNIdentity + NetError)) :=
  match fuel with
  | O => mret None
  | S fuel =>
      r ← wait_poll c deadline guids;
      match r with
      | Some r => mret (Some r)
      | None => wait_loop fuel c deadline guids
      end
  end.

Definition own_tun (tun : WindowsTUNIdentity) (sn : WindowsNetworkSnapshot) : WindowsNetworkSnapshot :=
  mkSnapshot (SN_Version sn) (SN_Interfaces sn) (SN_OwnedFirewallRulesPresent sn) (SN_ConflictingTUNRoutes sn)
    (SN_BaselineAdapterGuids sn) (SN_TUNAliasPresent sn) (SN_TUNAddressPresent sn) (SN_NodeRoutes sn) (Some tun)
    (SN_OwnedRoutes sn) (SN_GuardRoutes sn) (SN_GuardInterfaceIndex sn) (SN_BlockedRemoteAddresses sn)
    (SN_DNSBlockedRemoteAddresses sn) (SN_RouteMetric sn) windowsSnapshotPhaseTUNOwned (SN_PreparedGeneration sn) (SN_IntegritySHA256 sn).

Definition WaitTUNReady (fuel : nat) (c : Ctx) : NM (option (option NetError)) :=
  active ← gets current;
  match active with
  | None => mret (Some (Some (ErrText "network state was not captured")))
  | Some sn =>
      now ← system net_Now;
      r ← wait_loop fuel c (now + tun_wait) (SN_BaselineAdapterGuids sn);
      match r with
      | None => mret None
      | Some (inr err) => mret (Some (Some err))
      | Some (inl tun) => puts (set_current (Some (own_tun tun sn))) ;; mret (Some None)
      end
  end.

(** *** Resolvers *)
Definition setInterfaceDNS (guid servers : string) : NM (option NetError) :=
  puts (log_dns (guid, servers)) ;;
  r ← system (api_setInterfaceDNS guid servers);
  mret (option_map ErrText r).

Definition is_tun_alias (a : ipHelperAdapter) : bool := strings_EqualFold (HA_InterfaceAlias a) windowsTUNInterface.

Fixpoint point_at_tun (adapters : list ipHelperAdapter) : NM (option NetError) :=
  match adapters with
  | [] => mret None
  | a :: rest =>
      if is_tun_alias a then point_at_tun rest
      else
        r ← setInterfaceDNS (HA_InterfaceGuid a) windowsTUNDNS;
        match r with Some err => mret (Some err) | None => point_at_tun rest end
  end.

Definition owned_guid (s : MS) : string :=
  match current s with
  | Some sn => match SN_OwnedTUN sn with Some t => TI_InterfaceGuid t | None => "" end
  | None => ""
  end.

Definition pointAllResolversAtTun : NM (option NetError) :=
  adapters ← system api_Adapters;
  match adapters with
  | inr err => mret (Some (ErrText err))
  | inl adapters =>
      r ← point_at_tun adapters;
      match r with
      | Some err => mret (Some err)
      | None =>
          guid ← gets owned_guid;
          if negb (guid =?s "") then setInterfaceDNS guid windowsTUNDNS else mret None
      end
  end.

Definition ActivateTUNRoutes : NM (option NetError) :=
  active ← gets current;
  match active with
  | None => mret (Some (ErrText "network state was not captured"))
  | Some _ => pointAllResolversAtTun
  end.

(** The resolvers of the captured interfaces, by canonical GUID. *)
Definition snapshot_servers (active : option WindowsNetworkSnapshot) : gmap string string :=
  match active with
  | None => ∅
  | Some sn =>
      fold_left (fun m i =>
        <[canonicalGuid (IS_InterfaceGuid i) := if IS_DNSAutomatic i then "" else strings_Join (IS_DNSServers i) ","]> m)
        (SN_Interfaces sn) ∅
  end.

Definition resolverListHasServer (values : list string) (want : string) : bool := TraceEvent.string_in values want.

Fixpoint restore_resolvers (servers : gmap string string) (adapters : list ipHelperAdapter) : NM (option NetError) :=
  match adapters with
  | [] => mret None
  | a :: rest =>
      let continue (call : option string) :=
        match call with
        | None => restore_resolvers servers rest
        | Some list =>
            r ← setInterfaceDNS (HA_InterfaceGuid a) list;
            match r with Some err => mret (Some err) | None => restore_resolvers servers rest end
        end in
      if is_tun_alias a then continue None
      else match servers !! canonicalGuid (HA_InterfaceGuid a) with
      | Some list => continue (Some list)
      | None => continue (if resolverListHasServer (HA_DNSServers a) windowsTUNDNS then Some "" else None)
      end
  end.

Definition restoreSnapshotResolvers : NM (option NetError) :=
  adapters ← system api_Adapters;
  match adapters with
  | inr err => mret (Some (ErrText err))
  | inl adapters =>
      active ← gets current;
      restore_resolvers (snapshot_servers active) adapters
  end.

(** [Restore]: the snapshot is the current one, or the one that is passed. *)
Definition Restore (value : option WindowsNetworkSnapshot) : NM (option NetError) :=
  active ← gets current;
  match active with
  | Some sn => puts (set_ownership (SN_OwnedTUN sn) (SN_OwnedRoutes sn))
  | None => mret tt
  end ;;
  puts (set_current None) ;;
  let tun := match active with
             | Some sn => SN_OwnedTUN sn
             | None => match value with Some sn => SN_OwnedTUN sn | None => None end
             end in
  match tun with
  | None => mret None
  | Some _ => restoreSnapshotResolvers
  end.

Definition Reconcile : NM (option NetError) := mret None.

Definition Residue : NM TraceEvent.Residue :=
  found ← TUNReady windowsTUNInterface windowsTUNAddress;
  let count := match found with inl (Some _) => 1 | _ => 0 end in
  let residue := TraceEvent.mkResidue 0 0 0 count 0 false "" in
  (if TraceEvent.Residue_IsZero residue then puts (set_ownership None []) else mret tt) ;;
  mret residue.

(** *** The monitor *)
Inductive MonitorEvent := MonitorCancel | MonitorTick | MonitorAudit.
Inductive MonitorState := Watching (baseline : string) | MonitorStopped | MonitorFailed (e : NetError).

Definition armMonitorEmergency (s : WindowsPreparedState) : NM unit :=
  _ ← run DetachedCtx networkOperationEmergency (preparedFirewallInput plan s true); mret tt.

Definition auditPreparedFirewall (c : Ctx) (s : WindowsPreparedState) (connected : bool) : NM (option NetError) :=
  let s := with_rules (map (expect_enabled connected) (canonicalPreparedRules (PS_Rules s))) s in
  r ← run c networkOperationFirewallAudit (preparedFirewallInput plan s true);
  mret (match r with inl _ => None | inr e => Some e end).

Definition monitor_tick (s : WindowsPreparedState) (baseline : string) : NM MonitorState :=
  cancelled ← ctx_Err CallerCtx;
  match cancelled with
  | Some _ => mret MonitorStopped
  | None =>
      fingerprint ← Fingerprint CallerCtx;
      match fingerprint with
      | inr _ => mret (Watching baseline)
      | inl fingerprint =>
          if negb (baseline =?s "") && negb (fingerprint =?s baseline) then
            (if preparedFirewallMonitoringApplies s then armMonitorEmergency s else mret tt) ;;
            mret (MonitorFailed (ErrNetworkChanged "runtime fingerprint differs from the connected baseline"))
          else mret (Watching (if baseline =?s "" then fingerprint else baseline))
      end
  end.

Definition monitor_audit (s : WindowsPreparedState) (baseline : string) : NM MonitorState :=
  if negb (preparedFirewallMonitoringApplies s) then mret (Watching baseline)
  else
    cancelled ← ctx_Err CallerCtx;
    match cancelled with
    | Some _ => mret MonitorStopped
    | None =>
        r ← auditPreparedFirewall CallerCtx s true;
        match r with
        | None => mret (Watching baseline)
        | Some err =>
            cancelled ← ctx_Err CallerCtx;
            match cancelled with
            | Some _ => mret MonitorStopped
            | None => armMonitorEmergency s ;; mret (MonitorFailed (ErrFirewallAudit (err_text err)))
            end
        end
    end.

(** The loop over what happens: the context ends, a fingerprint tick, an audit tick. *)
Fixpoint monitor_loop (s : WindowsPreparedState) (baseline : string) (happens : list MonitorEvent) : NM MonitorState :=
  match happens with
  | [] => mret (Watching baseline)
  | e :: rest =>
      next ← (match e with
              | MonitorCancel => mret MonitorStopped
              | MonitorTick => monitor_tick s baseline
              | MonitorAudit => monitor_audit s baseline
              end);
      match next with
      | Watching baseline => monitor_loop s baseline rest
      | stop => mret stop
      end
  end.

Definition runMonitor (s : WindowsPreparedState) (happens : list MonitorEvent) : NM MonitorState :=
  first ← Fingerprint CallerCtx;
  monitor_loop s (match first with inl f => f | inr _ => "" end) happens.

(** [StartMonitor]: the state that the monitor watches. *)
Definition StartMonitor (p : PreparedNetwork) : NM (WindowsPreparedState + NetError) :=
  match validatePreparedNetwork p with
  | Some err => mret (inr (ErrText err))
  | None =>
      cached ← gets prepared;
      match cached with
      | Some state =>
          if negb (PS_Generation state =? PN_Generation p)
          then mret (inr (ErrText "prepared generation is not available for monitoring"))
          else puts (fun s => set_flights (monitorFlights s + 1) s) ;; mret (inl state)
      | None => mret (inr (ErrText "prepared generation is not available for monitoring"))
      end
  end.

(** The monitor with its registration: counted while it runs. *)
Definition monitored (s : WindowsPreparedState) (happens : list MonitorEvent) : NM MonitorState :=
  r ← runMonitor s happens;
  puts (fun s => set_flights (monitorFlights s - 1) s) ;;
  mret r.

End Manager.
