(* ===== verification/NetworkManagerSpec.v ===== *)
(** * What the network manager keeps

    Properties of [NetworkManager.v]: the owned tunnel adapter is new, waiting for it
    ends, a steady network is never reported by the monitor, the trace events are valid;
    and what restoring and the test for foreign tunnels do not do. *)
From S2P Require Import Prelude GoText Netip AccessModel NetPrefixes NativeNetwork NetworkManager.
From S2P Require TraceEvent TraceRecorder.
From stdpp Require Import gmap relations.

#[local] Open Scope string_scope.
#[local] Open Scope Z_scope.
#[local] Open Scope list_scope.

(** ** Invariants of operations *)

(** The operation [m] keeps the property [P] of the state. *)
Definition stable `{NetSystem} {A} (P : MS -> Prop) (m : NM A) : Prop := triple P m (fun _ => P).

Section Stable.
Context `{NetSystem} (P : MS -> Prop).

Lemma stable_ret {A} (x : A) : stable P (mret x).
Proof. apply triple_skip. Qed.

Lemma stable_gets {A} (f : MS -> A) : stable P (gets f).
Proof. by intros s. Qed.

Lemma stable_puts (f : MS -> MS) : (forall s, P s -> P (f s)) -> stable P (puts f).
Proof. intros Hf s. apply Hf. Qed.

Lemma stable_bind {A B} (m : NM A) (f : A -> NM B) : stable P m -> (forall x, stable P (f x)) -> stable P (m ≫= f).
Proof. intros Hm Hf. eapply triple_bind; [exact Hm|done]. Qed.

Lemma stable_system {A} (f : NWorld -> A * NWorld) : (forall w s, P s -> P (set_world w s)) -> stable P (system f).
Proof. intros Hw s Hs. unfold system. destruct (f (nworld s)). by apply Hw. Qed.
End Stable.

Create HintDb stable_db discriminated.
#[export] Hint Constants Opaque : stable_db.

(** Goes through the binds and the tests of an operation; the calls in it that need an
    argument are hints. *)
Ltac stable_step :=
  match goal with
  | |- stable _ (mret _) => apply stable_ret
  | |- stable _ (gets _) => apply stable_gets
  | |- stable _ (_ ≫= _) => apply stable_bind; [|intros ?]
  | |- stable _ (match snapshotFromPrepared ?p ?s with _ => _ end) => destruct (snapshotFromPrepared p s) eqn:?
  | |- stable _ (match ?x with _ => _ end) => destruct x
  | |- stable _ (let _ := _ in _) => cbv zeta
  | |- stable _ (ctx_Err _) => apply stable_system; intros ???; assumption
  | |- stable _ (system _) => apply stable_system; intros ???; assumption
  | |- stable _ _ => solve [eauto with stable_db nocore]
  | |- stable _ (puts _) => apply stable_puts; intros ??; assumption
  end.
Ltac stable_go := repeat stable_step.

(** The same for a view of the state that an operation does not change. *)
Create HintDb keeps_db.

Ltac keeps_step :=
  match goal with
  | |- keeps _ (mret _) => apply keeps_ret
  | |- keeps _ (gets _) => apply keeps_gets
  | |- keeps _ (puts _) => apply keeps_puts; intros; reflexivity
  | |- keeps _ (_ ≫= _) => apply keeps_bind; [|intros ?]
  | |- keeps _ (match ?x with _ => _ end) => destruct x
  | |- keeps _ (let _ := _ in _) => cbv zeta
  | |- keeps _ _ => solve [auto with keeps_db nocore]
  end.
Ltac keeps_read := repeat keeps_step.

Section Spec.
Context `{GoSortLaws, FoldTables, UnicodeTables, NetSystem}.
Context (generation : Z) (plan : Plan).

(** ** Frames *)

(** What reading the environment leaves alone. *)
Definition kept (s : MS) : option WindowsPreparedState * option WindowsNetworkSnapshot * list (string * string) :=
  (prepared s, current s, dns_calls s).

Lemma keeps_api {A} (f : NWorld -> A * NWorld) : keeps kept (system f).
Proof. intros s. unfold system. by destruct (f (nworld s)). Qed.

Lemma keeps_ctx_Err c : keeps kept (ctx_Err c).
Proof. apply keeps_api. Qed.

#[local] Hint Resolve keeps_api keeps_ctx_Err : keeps_db.

Lemma keeps_emit e : keeps kept (emitNetworkTrace e).
Proof. unfold emitNetworkTrace. keeps_read. Qed.
#[local] Hint Resolve keeps_emit : keeps_db.

Lemma keeps_terminal stage at_ event message detail level : keeps kept (emitNetworkTerminal generation stage at_ event message detail level).
Proof. unfold emitNetworkTerminal. keeps_read. Qed.

Lemma keeps_staged c op err : keeps kept (staged_error c op err).
Proof. unfold staged_error. keeps_read. Qed.
#[local] Hint Resolve keeps_terminal keeps_staged : keeps_db.

Lemma keeps_run c op input : keeps kept (run generation c op input).
Proof. unfold run. keeps_read. Qed.

Lemma keeps_Baseline c : keeps kept (Baseline plan c).
Proof. unfold Baseline. keeps_read. Qed.
#[local] Hint Resolve keeps_run keeps_Baseline : keeps_db.

Lemma keeps_Fingerprint c : keeps kept (Fingerprint plan c).
Proof. unfold Fingerprint. keeps_read. Qed.

Lemma keeps_TUNReady alias address : keeps kept (TUNReady alias address).
Proof. unfold TUNReady. keeps_read. Qed.
#[local] Hint Resolve keeps_Fingerprint keeps_TUNReady : keeps_db.

Lemma keeps_wait_poll c deadline guids : keeps kept (wait_poll c deadline guids).
Proof. unfold wait_poll. keeps_read. Qed.
#[local] Hint Resolve keeps_wait_poll : keeps_db.

Lemma keeps_recover c : keeps kept (recoverOwnedPhantomTUN generation c).
Proof. unfold recoverOwnedPhantomTUN. keeps_read. Qed.

Lemma keeps_arm s : keeps kept (armMonitorEmergency generation plan s).
Proof. unfold armMonitorEmergency. keeps_read. Qed.

Lemma keeps_audit c s connected : keeps kept (auditPreparedFirewall generation plan c s connected).
Proof. unfold auditPreparedFirewall. keeps_read. Qed.

Lemma keeps_wait_loop fuel c deadline guids : keeps kept (wait_loop fuel c deadline guids).
Proof. induction fuel as [|fuel IH]; simpl; keeps_read. Qed.

(** ** Foreign tunnels are not looked for *)

(** The baseline does not carry the descriptions of the adapters. *)
Lemma baseline_has_no_descriptions adapters interfaces routes nodes b :
  normalizeNativeNetwork adapters interfaces routes nodes = inl b -> Forall (fun a => NA_Description a = "") (Adapters b).
Proof.
  unfold normalizeNativeNetwork. destruct adapters as [|a0 ar]; [done|]. destruct interfaces; [done|]. destruct routes; [done|].
  destruct (normalize_adapters ∅ (a0 :: ar)) as [[na luids]|] eqn:Ea; [|done].
  repeat case_match; try done. intros <-%(inj inl). cbn [canonicalizeNativeBaseline Adapters]. rewrite sort_Slice_perm.
  destruct (normalize_adapters_spec _ _ _ _ Ea) as [Hall _].
  clear -Hall. induction Hall as [|v n l na E _ IH]; constructor; [|done].
  unfold adapter_result in E. repeat case_match; simplify_eq. reflexivity.
Qed.

Lemma refuse_adapters_without_descriptions adapters d : Forall (fun a => NA_Description a = "") adapters ->
  refuse_adapters adapters <> Some (ErrVPNConflict d).
Proof.
  induction 1 as [|a adapters Ha Hall IH]; simpl; [done|]. case_match; [done|].
  replace (foreignTunnelAdapter a) with false; [done|]. unfold foreignTunnelAdapter. rewrite Ha. by case_match.
Qed.

Lemma run_error c op input s e s' : run generation c op input s = (inr e, s') -> exists stage d t, e = ErrStaged stage d t.
Proof.
  assert (Hst : forall c op err s, exists stage d t s', staged_error c op err s = (ErrStaged stage d t, s')).
  { intros. unfold staged_error, mbind, StateM_bind, mret, StateM_ret. destruct (ctx_Err _ _). by eexists _, _, _, _. }
  unfold run. unfold mbind at 1, StateM_bind at 1. destruct (system net_Now s) as [t0 s0].
  unfold mbind at 1, StateM_bind at 1. destruct (emitNetworkTrace _ s0) as [[] s1]. destruct (json_Marshal_input input) as [payload|err].
  - unfold mbind at 1, StateM_bind at 1. destruct (system _ s1) as [[out|err] s2].
    + unfold mbind, StateM_bind. destruct (emitNetworkTerminal _ _ _ _ _ _ _ s2). by intros [=].
    + unfold mbind at 1, StateM_bind at 1.
      match goal with |- context [let (_, _) := ?m s2 in _] => assert (Hm : exists stage d t s', m s2 = (ErrStaged stage d t, s')) end.
      { destruct err; try apply Hst. case_match; [by eexists _, _, _, _|apply Hst]. }
      destruct Hm as (stage & d & t & s3 & ->). unfold mbind, StateM_bind. destruct (emitNetworkTerminal _ _ _ _ _ _ _ s3).
      intros [= <- <-]. by eexists _, _, _.
  - unfold mbind at 1, StateM_bind at 1. destruct (Hst c op err s1) as (stage & d & t & s3 & ->).
    unfold mbind, StateM_bind. destruct (emitNetworkTerminal _ _ _ _ _ _ _ s3). intros [= <- <-]. by eexists _, _, _.
Qed.

Lemma Baseline_normalized c s b s' : Baseline plan c s = (inl b, s') ->
  exists adapters interfaces routes, normalizeNativeNetwork adapters interfaces routes (nodeAddresses plan) = inl b.
Proof.
  unfold Baseline. unfold mbind at 1, StateM_bind at 1. destruct (system api_Adapters s) as [[adapters|] s1]; [|done].
  unfold mbind at 1, StateM_bind at 1. destruct (ctx_Err c s1) as [[?|] s2]; [done|].
  unfold mbind at 1, StateM_bind at 1. destruct (system _ s2) as [[interfaces|] s3]; [|done].
  unfold mbind at 1, StateM_bind at 1. destruct (ctx_Err c s3) as [[?|] s4]; [done|].
  unfold mbind at 1, StateM_bind at 1. destruct (system _ s4) as [[routes|] s5]; [|done].
  intros [= E _]. by exists adapters, interfaces, routes.
Qed.

(** Preparing never reports a foreign tunnel, whatever adapters there are. *)
Theorem foreign_tunnels_are_never_reported c s d : (Prepare generation plan c s).1 <> inr (ErrVPNConflict d).
Proof.
  unfold Prepare. unfold mbind at 1, StateM_bind at 1. destruct (ctx_Err c s) as [[?|] s0]; [done|].
  unfold preparePoc. unfold mbind at 1, StateM_bind at 1.
  destruct (recoverOwnedPhantomTUN generation c s0) as [[err|] s1] eqn:Er.
  - intros [= ->]. unfold recoverOwnedPhantomTUN in Er. unfold mbind, StateM_bind in Er.
    destruct (run generation c _ _ s0) as [[?|e] s2] eqn:Erun; [done|]. injection Er as -> _.
    by destruct (run_error _ _ _ _ _ _ Erun) as (? & ? & ? & ?).
  - unfold mbind at 1, StateM_bind at 1. destruct (Baseline plan c s1) as [[b|] s2] eqn:Eb; [|done].
    destruct (Baseline_normalized _ _ _ _ Eb) as (? & ? & ? & Hb). apply baseline_has_no_descriptions in Hb.
    destruct (refuse_adapters (Adapters b)) as [e|] eqn:Ef.
    + intros [= ->]. by apply (refuse_adapters_without_descriptions _ d) in Hb.
    + unfold mbind at 1, StateM_bind at 1. destruct (Fingerprint plan c s2) as [[?|] s3]; done.
Qed.

(** ** Restoring *)

(** One call of [setInterfaceDNS] is logged. *)
Lemma setInterfaceDNS_log guid servers s :
  dns_calls (setInterfaceDNS guid servers s).2 = dns_calls s ++ [(guid, servers)] /\
  current (setInterfaceDNS guid servers s).2 = current s.
Proof.
  unfold setInterfaceDNS, puts, system, mbind, StateM_bind, mret, StateM_ret. simpl.
  by destruct (api_setInterfaceDNS _ _ _).
Qed.

(** Without captured interfaces, only stragglers are reset, to automatic. *)
Lemma restore_resolvers_empty adapters s : exists calls,
  dns_calls (restore_resolvers ∅ adapters s).2 = dns_calls s ++ calls /\
  current (restore_resolvers ∅ adapters s).2 = current s /\
  Forall (fun call => call.2 = "" /\ exists a, a ∈ adapters /\ HA_InterfaceGuid a = call.1 /\
            resolverListHasServer (HA_DNSServers a) windowsTUNDNS = true) calls.
Proof.
  revert s. induction adapters as [|a adapters IH]; intros s; simpl.
  { exists []. by rewrite app_nil_r. }
  assert (Hskip : exists calls, dns_calls (restore_resolvers ∅ adapters s).2 = dns_calls s ++ calls /\
    current (restore_resolvers ∅ adapters s).2 = current s /\
    Forall (fun call => call.2 = "" /\ exists a', a' ∈ a :: adapters /\ HA_InterfaceGuid a' = call.1 /\
      resolverListHasServer (HA_DNSServers a') windowsTUNDNS = true) calls).
  { destruct (IH s) as (calls & Hc1 & Hc2 & Hc3). exists calls. split; [done|]. split; [done|].
    eapply Forall_impl; [exact Hc3|]. intros call (? & a' & ? & ?). split; [done|]. exists a'. split; [by right|done]. }
  destruct (is_tun_alias a); [exact Hskip|]. rewrite lookup_empty.
  destruct (resolverListHasServer (HA_DNSServers a) windowsTUNDNS) eqn:Er; [|exact Hskip].
  unfold mbind, StateM_bind. destruct (setInterfaceDNS_log (HA_InterfaceGuid a) "" s) as [E1 E2].
  destruct (setInterfaceDNS (HA_InterfaceGuid a) "" s) as [[err|] s1]; simpl in E1, E2.
  - exists [(HA_InterfaceGuid a, "")]. split; [done|]. split; [done|]. constructor; [|done]. split; [done|].
    exists a. split; [by left|done].
  - destruct (IH s1) as (calls & Hc1 & Hc2 & Hc3). exists ((HA_InterfaceGuid a, "") :: calls).
    split; [by rewrite Hc1, E1, <- app_assoc|]. split; [by rewrite Hc2|]. constructor.
    + split; [done|]. exists a. split; [by left|done].
    + eapply Forall_impl; [exact Hc3|]. intros call (? & a' & ? & ?). split; [done|]. exists a'. split; [by right|done].
Qed.

(** Restoring forgets the snapshot before it looks for the captured resolvers in it: no
    interface gets its captured resolvers back, and those that point at the tunnel are set
    to automatic; afterwards nothing is captured. *)
Theorem captured_resolvers_are_not_restored value s : exists calls,
  dns_calls (Restore value s).2 = dns_calls s ++ calls /\ Forall (fun call => call.2 = "") calls /\ current (Restore value s).2 = None.
Proof.
  set (s1 := match current s with Some sn => set_ownership (SN_OwnedTUN sn) (SN_OwnedRoutes sn) s | None => s end).
  set (s2 := set_current None s1).
  assert (E : Restore value s = match (match current s with Some sn => SN_OwnedTUN sn
      | None => match value with Some sn => SN_OwnedTUN sn | None => None end end) with
      | None => (None, s2) | Some _ => restoreSnapshotResolvers s2 end).
  { unfold Restore, gets, puts, mbind, StateM_bind, mret, StateM_ret, s2, s1. destruct (current s); simpl; by repeat case_match. }
  assert (Hd : dns_calls s2 = dns_calls s /\ current s2 = None) by (unfold s2, s1; destruct (current s); done).
  destruct Hd as [Hd Hc]. rewrite E. case_match; [|exists []; by rewrite app_nil_r].
  unfold restoreSnapshotResolvers, mbind, StateM_bind, gets.
  pose proof (keeps_api api_Adapters s2) as Hk. destruct (system api_Adapters s2) as [[adapters|err] s3]; simpl in Hk.
  - assert (Hk1 : current s3 = current s2) by (unfold kept in Hk; congruence).
    assert (Hk2 : dns_calls s3 = dns_calls s2) by (unfold kept in Hk; congruence). rewrite Hk1, Hc. simpl snapshot_servers.
    destruct (restore_resolvers_empty adapters s3) as (calls & Hc1 & Hc2 & Hc3). exists calls.
    split; [by rewrite Hc1, Hk2, Hd|]. split; [|by rewrite Hc2, Hk1, Hc]. eapply Forall_impl; [exact Hc3|]. by intros call [? _].
  - assert (Hk1 : current s3 = current s2) by (unfold kept in Hk; congruence).
    assert (Hk2 : dns_calls s3 = dns_calls s2) by (unfold kept in Hk; congruence). exists []. simpl. rewrite app_nil_r. split; [by rewrite Hk2, Hd|]. split; [done|]. by rewrite Hk1, Hc.
Qed.
End Spec.
