(* ===== verification/NetworkLifecycle.v ===== *)
(** * The network manager over its lifetime

    The operations of [NetworkManager.v] as steps that are taken in any order, with the
    ticks of the monitor between them: the tunnel adapter that the manager owns is new,
    waiting for it ends, the calls that change resolvers, and the trace events. *)
From S2P Require Import Prelude GoText Netip AccessModel NetPrefixes NativeNetwork NetworkManager NetworkManagerSpec.
From S2P Require TraceEvent TraceRecorder.
From stdpp Require Import gmap relations.

#[local] Open Scope string_scope.
#[local] Open Scope Z_scope.
#[local] Open Scope list_scope.

(** ** Steps *)
Section Steps.
Context `{GoSort, FoldTables, UnicodeTables, NetSystem}.
Context (generation : Z) (plan : Plan).

(** What the controller calls, and the two kinds of ticks of a running monitor. *)
Inductive NetOp :=
  | OpPrepare (c : Ctx) | OpCapture (c : Ctx) (p : PreparedNetwork) | OpEnableProtection (p : PreparedNetwork)
  | OpWaitTUNReady (fuel : nat) (c : Ctx) | OpActivate | OpRestore (value : option WindowsNetworkSnapshot)
  | OpReconcile | OpResidue | OpStartMonitor (p : PreparedNetwork)
  | OpMonitorTick (s : WindowsPreparedState) (baseline : string) | OpMonitorAudit (s : WindowsPreparedState) (baseline : string).

Definition perform (op : NetOp) : NM unit :=
  match op with
  | OpPrepare c => _ ← Prepare generation plan c; mret tt
  | OpCapture c p => _ ← Capture plan c p; mret tt
  | OpEnableProtection p => _ ← EnableProtection p; mret tt
  | OpWaitTUNReady fuel c => _ ← WaitTUNReady fuel c; mret tt
  | OpActivate => _ ← ActivateTUNRoutes; mret tt
  | OpRestore value => _ ← Restore value; mret tt
  | OpReconcile => _ ← Reconcile; mret tt
  | OpResidue => _ ← Residue; mret tt
  | OpStartMonitor p => _ ← StartMonitor p; mret tt
  | OpMonitorTick s baseline => _ ← monitor_tick generation plan s baseline; mret tt
  | OpMonitorAudit s baseline => _ ← monitor_audit generation plan s baseline; mret tt
  end.

Definition net_step (s s' : MS) : Prop := exists op, s' = (perform op s).2.

(** A manager as it is made. *)
Definition new_manager (w : NWorld) : MS := mkMS None None None [] 0 w [] [].
Definition net_reachable (s : MS) : Prop := exists w, rtc net_step (new_manager w) s.
End Steps.

Section Lifetime.
Context `{GoSortLaws, FoldTables, UnicodeTables, NetSystem}.
Context (generation : Z) (plan : Plan).

Lemma reachable_invariant (P : MS -> Prop) :
  (forall w, P (new_manager w)) -> (forall op, stable P (perform generation plan op)) ->
  forall s, net_reachable generation plan s -> P s.
Proof.
  intros Hn Hp s [w Hr]. specialize (Hn w). induction Hr as [s|s s' s'' [op ->] _ IH]; [done|]. by apply IH, Hp.
Qed.

(** ** Ownership and resolvers *)

(** The phase of a captured snapshot agrees with its tunnel, which was not there when the
    network was prepared. *)
Definition owned_is_new (sn : WindowsNetworkSnapshot) : Prop :=
  match SN_OwnedTUN sn with
  | None => SN_OwnershipPhase sn = windowsSnapshotPhaseCaptured
  | Some tun => SN_OwnershipPhase sn = windowsSnapshotPhaseTUNOwned /\ validateTUNIdentity tun (SN_BaselineAdapterGuids sn) = None
  end.

(** An interface is pointed at the tunnel or set to automatic. *)
Definition tunnel_or_automatic (call : string * string) : Prop := call.2 = windowsTUNDNS \/ call.2 = "".

Definition ownership_ok (s : MS) : Prop :=
  (forall sn, current s = Some sn -> owned_is_new sn) /\ Forall tunnel_or_automatic (dns_calls s).

Lemma ownership_kept {A} (m : NM A) : keeps kept m -> stable ownership_ok m.
Proof.
  intros Hk s [Hc Hd]. specialize (Hk s). unfold kept in Hk. unfold ownership_ok.
  assert (Hk1 : current (m s).2 = current s) by congruence. assert (Hk2 : dns_calls (m s).2 = dns_calls s) by congruence.
  by rewrite Hk1, Hk2.
Qed.

Lemma validateTUNIdentity_sound tun guids : validateTUNIdentity tun guids = None ->
  TI_InterfaceAlias tun = windowsTUNInterface /\ TI_Addresses tun = [windowsTUNAddress] /\ 0 < TI_InterfaceIndex tun /\
  (forall guid, guid ∈ guids -> strings_EqualFold guid (TI_InterfaceGuid tun) = false).
Proof.
  unfold validateTUNIdentity. destruct (_ || _ || _) eqn:E1; [done|]. destruct (existsb _ guids) eqn:E2; [done|].
  destruct (TI_Addresses tun) as [|a [|]]; [done| |done]. destruct (String.eqb_spec a windowsTUNAddress) as [->|]; [|done]. intros _.
  bool_to_prop. split; [done|]. split; [done|]. split; [done|]. intros guid Hg. apply not_true_iff_false. intros Ht.
  apply not_true_iff_false in E2. apply E2, existsb_exists. exists guid. by rewrite <- list_elem_of_In.
Qed.

Lemma wait_poll_valid c deadline guids s tun : (wait_poll c deadline guids s).1 = Some (inl tun) -> validateTUNIdentity tun guids = None.
Proof.
  unfold wait_poll, mbind, StateM_bind, mret, StateM_ret. destruct (ctx_Err c s) as [[?|] s1]; [done|].
  destruct (TUNReady _ _ s1) as [[[t|]|] s2].
  - destruct (validateTUNIdentity t guids) eqn:E; [done|]. by intros [= <-].
  - destruct (system net_Now s2) as [now s3]. by case_match.
  - destruct (system net_Now s2) as [now s3]. by case_match.
Qed.

Lemma wait_loop_valid fuel c deadline guids s tun :
  (wait_loop fuel c deadline guids s).1 = Some (inl tun) -> validateTUNIdentity tun guids = None.
Proof.
  revert s. induction fuel as [|fuel IH]; intros s; simpl; [done|]. unfold mbind at 1, StateM_bind at 1.
  pose proof (wait_poll_valid c deadline guids s tun) as Hp. destruct (wait_poll c deadline guids s) as [[r|] s1]; simpl in *; [|apply IH].
  intros [= ->]. by apply Hp.
Qed.

Lemma ownership_wait fuel c : stable ownership_ok (WaitTUNReady fuel c).
Proof.
  intros s Hs. unfold WaitTUNReady, mbind, StateM_bind, gets, puts, mret, StateM_ret.
  destruct (current s) as [sn|] eqn:Ec; [|done].
  pose proof (ownership_kept _ (keeps_api net_Now) s Hs) as Hw1. destruct (system net_Now s) as [now s1]. simpl in Hw1.
  pose proof (ownership_kept _ (keeps_wait_loop fuel c (now + tun_wait) (SN_BaselineAdapterGuids sn)) s1 Hw1) as Hw2.
  pose proof (wait_loop_valid fuel c (now + tun_wait) (SN_BaselineAdapterGuids sn) s1) as Hv.
  destruct (wait_loop _ _ _ _ s1) as [[[tun|err]|] s2]; simpl in *; [|done..].
  destruct Hw2 as [_ Hd]. split; [|done]. intros sn' [= <-]. split; [done|]. by apply Hv.
Qed.

Lemma ownership_dns guid servers : servers = windowsTUNDNS \/ servers = "" ->
  stable ownership_ok (setInterfaceDNS guid servers).
Proof.
  intros Hs s [Hc Hd]. destruct (setInterfaceDNS_log guid servers s) as [E1 E2]. unfold ownership_ok. rewrite E1, E2.
  split; [done|]. apply Forall_app. split; [done|]. by apply Forall_singleton.
Qed.

#[local] Hint Resolve keeps_api keeps_ctx_Err keeps_run keeps_Baseline keeps_Fingerprint keeps_TUNReady keeps_recover keeps_arm keeps_audit : stable_db.
#[local] Hint Resolve ownership_kept ownership_wait ownership_dns : stable_db.

Lemma ownership_point_one guid : stable ownership_ok (setInterfaceDNS guid windowsTUNDNS).
Proof. apply ownership_dns. by left. Qed.
#[local] Hint Resolve ownership_point_one : stable_db.

Lemma ownership_captured s sn : snapshotFromPrepared plan s = inl sn ->
  stable ownership_ok (puts (set_current (Some sn))).
Proof.
  unfold snapshotFromPrepared. case_match; [|done]. intros <-%(inj inl) st [_ Hd]. split; [|done]. by intros sn' [= <-].
Qed.

#[local] Hint Resolve ownership_captured : stable_db.

Lemma ownership_point adapters : stable ownership_ok (point_at_tun adapters).
Proof.
  induction adapters as [|a adapters IH]; simpl; stable_go.
Qed.

Lemma ownership_Restore value : stable ownership_ok (Restore value).
Proof.
  intros s [_ Hd]. destruct (captured_resolvers_are_not_restored value s) as (calls & E1 & Hc & E2). unfold ownership_ok.
  rewrite E1, E2. split; [done|]. apply Forall_app. split; [done|]. eapply Forall_impl; [exact Hc|]. by right.
Qed.

Lemma ownership_forgets : stable ownership_ok (puts (set_current None)).
Proof. intros s [_ Hd]. by split. Qed.
#[local] Hint Resolve ownership_forgets ownership_point ownership_Restore : stable_db.

Lemma ownership_perform op : stable ownership_ok (perform generation plan op).
Proof.
  destruct op; unfold perform, Prepare, preparePoc, Capture, EnableProtection, ActivateTUNRoutes, pointAllResolversAtTun, Reconcile, Residue, StartMonitor, monitor_tick, monitor_audit; stable_go.
Qed.

(** The tunnel that the manager owns has the name and the address of the program's, and is
    none of the adapters of the captured snapshot, in every state that the manager reaches. *)
Theorem owned_tun_is_new s sn tun : net_reachable generation plan s ->
  current s = Some sn -> SN_OwnedTUN sn = Some tun ->
  SN_OwnershipPhase sn = windowsSnapshotPhaseTUNOwned /\
  TI_InterfaceAlias tun = windowsTUNInterface /\ TI_Addresses tun = [windowsTUNAddress] /\
  forall guid, guid ∈ SN_BaselineAdapterGuids sn -> strings_EqualFold guid (TI_InterfaceGuid tun) = false.
Proof.
  intros Hr Hc Ht. destruct (reachable_invariant ownership_ok ltac:(intros; split; [done|constructor]) ownership_perform s Hr) as [Ho _].
  specialize (Ho sn Hc). unfold owned_is_new in Ho. rewrite Ht in Ho. destruct Ho as [Hp Hv].
  apply validateTUNIdentity_sound in Hv as (? & ? & ? & ?). done.
Qed.

(** Whatever the operations and the answers of the system, an interface is only ever
    pointed at the resolver of the tunnel or set to automatic. *)
Theorem resolvers_are_tunnel_or_automatic s : net_reachable generation plan s -> Forall tunnel_or_automatic (dns_calls s).
Proof. intros Hr. by destruct (reachable_invariant ownership_ok ltac:(intros; split; [done|constructor]) ownership_perform s Hr). Qed.
End Lifetime.

(** ** Waiting for the tunnel ends *)

(** The clock is monotonic, and [time.Sleep] pauses for at least its argument. *)
Class NetClock `{NetSystem} := {
  net_clock : NWorld -> Z;
  net_Now_reads w : (net_Now w).1 = net_clock w;
  net_Now_forward w : net_clock w <= net_clock (net_Now w).2;
  net_Sleep_forward d w : net_clock w + d <= net_clock (net_Sleep d w);
  net_ctx_Err_forward c w : net_clock w <= net_clock (net_ctx_Err c w).2;
  api_Adapters_forward w : net_clock w <= net_clock (api_Adapters w).2
}.

Section Waiting.
Context `{FoldTables, UnicodeTables, NetClock}.

Definition clock_of (s : MS) : Z := net_clock (nworld s).

(** A poll that goes round again has seen the deadline ahead and has paused. *)
Lemma wait_poll_time c deadline guids s s' : wait_poll c deadline guids s = (None, s') ->
  clock_of s <= deadline /\ clock_of s + tun_pause <= clock_of s'.
Proof.
  unfold wait_poll, TUNReady, ctx_Err, system, puts, mbind, StateM_bind, mret, StateM_ret, clock_of.
  pose proof (net_ctx_Err_forward c (nworld s)) as F1. destruct (net_ctx_Err c (nworld s)) as [[?|] w1]; [done|]. cbn [nworld set_world] in *.
  pose proof (api_Adapters_forward w1) as F2. destruct (api_Adapters w1) as [[adapters|?] w2]; cbn [nworld set_world fst snd] in *;
    [cbv beta iota; destruct (find_tun _ _ adapters); [intros [=]|]|];
    (cbn [nworld set_world fst snd]; pose proof (net_Now_reads w2) as Er; pose proof (net_Now_forward w2) as F3; destruct (net_Now w2) as [now w3];
     cbn [nworld set_world fst snd] in *; destruct (deadline <? now) eqn:Ed; [intros [=]|]; bool_to_prop; intros [= <-];
     cbn [nworld set_world]; pose proof (net_Sleep_forward tun_pause w3); lia).
Qed.

Lemma wait_loop_ends fuel c deadline guids s :
  deadline - clock_of s < (Z.of_nat fuel - 1) * tun_pause -> (1 <= fuel)%nat -> is_Some (wait_loop fuel c deadline guids s).1.
Proof.
  revert s. induction fuel as [|fuel IH]; intros s Hf Hpos; [lia|]. simpl. unfold mbind, StateM_bind.
  destruct (wait_poll c deadline guids s) as [[r|] s'] eqn:Ep; [by eexists|].
  apply wait_poll_time in Ep as [E1 E2]. unfold tun_pause, Millisecond in *. apply IH; lia.
Qed.

(** Waiting for the tunnel returns: 55 polls reach past the deadline, eight seconds after
    the start. *)
Theorem waiting_ends fuel c s : (55 <= fuel)%nat -> is_Some (WaitTUNReady fuel c s).1.
Proof.
  intros Hf. unfold WaitTUNReady, mbind, StateM_bind, gets, system. destruct (current s) as [sn|]; [|by eexists].
  pose proof (net_Now_reads (nworld s)) as Er. pose proof (net_Now_forward (nworld s)) as Fw.
  destruct (net_Now (nworld s)) as [now w]. cbn [fst snd] in *.
  destruct (wait_loop_ends fuel c (now + tun_wait) (SN_BaselineAdapterGuids sn) (set_world w s)) as [r Hr].
  - unfold clock_of, tun_wait, tun_pause, Second, Millisecond in *. cbn [nworld set_world]. lia.
  - lia.
  - destruct (wait_loop _ _ _ _ _) as [r' s']. simpl in Hr. subst r'. destruct r; by eexists.
Qed.
End Waiting.

(** ** Trace events *)
Section Traces.
Context `{GoSort, FoldTables, UnicodeTables, NetSystem}.
Context (generation : Z) (plan : Plan).

(** Once the recorder has given it a number and a time, the event passes validation. *)
Definition recordable (e : TraceEvent.Event) : Prop :=
  forall e', 1 <= TraceEvent.EvSequence e' -> TraceRecorder.prepared_fields e e' -> TraceEvent.Validate e' = None.

Definition traced (s : MS) : Prop := Forall recordable (traces s).

(** The message is left when it has been sanitized here and in the recorder. *)
Definition lasting_message (m : string) : bool :=
  negb (strings_TrimSpace (TraceEvent.SanitizeDetail (TraceEvent.SanitizeDetail m []).1 []).1 =?s "").

Definition described (operation : string) : bool :=
  TraceEvent.string_in TraceEvent.ApprovedStages (networkStage operation) &&
  lasting_message (networkOperationStartMessage operation) && lasting_message (networkOperationSuccessMessage operation) &&
  lasting_message (networkOperationFailureMessage operation).

(** Every operation that is run has an approved stage and messages. *)
Lemma recover_described : described networkOperationTUNRecover = true.
Proof. vm_compute. reflexivity. Qed.
Lemma emergency_described : described networkOperationEmergency = true.
Proof. vm_compute. reflexivity. Qed.
Lemma audit_described : described networkOperationFirewallAudit = true.
Proof. vm_compute. reflexivity. Qed.

Lemma lasting_message_lasts m : lasting_message m = true ->
  (strings_TrimSpace (TraceEvent.SanitizeDetail (TraceEvent.SanitizeDetail m []).1 []).1 =?s "") = false.
Proof. apply negb_true_iff. Qed.

Lemma recordable_event level stage event elapsed message d t detail :
  TraceEvent.string_in TraceEvent.approvedLevels level = true -> TraceEvent.string_in TraceEvent.ApprovedStages stage = true ->
  TraceEvent.string_in TraceEvent.approvedEvents event = true ->
  (strings_TrimSpace (TraceEvent.SanitizeDetail message []).1 =?s "") = false ->
  (event =?s TraceEvent.EventStarted) && bool_decide (is_Some elapsed) = false ->
  (forall x, elapsed = Some x -> 0 <= x) ->
  recordable (TraceEvent.mkEvent 0 0 t false generation level TraceEvent.ComponentPowerShell stage event elapsed message detail d None).
Proof.
  intros Hl Hst Hev Hm Hs He e' Hseq Hp.
  eapply TraceRecorder.prepared_event_valid; [exact Hseq|exact Hp|..]; try assumption; reflexivity.
Qed.

Lemma traced_system {A} (f : NWorld -> A * NWorld) : stable traced (system f).
Proof. intros s Hs. unfold system. by destruct (f (nworld s)). Qed.

Lemma traced_emit level stage event elapsed m detail :
  TraceEvent.string_in TraceEvent.approvedLevels level = true -> TraceEvent.string_in TraceEvent.ApprovedStages stage = true ->
  TraceEvent.string_in TraceEvent.approvedEvents event = true -> lasting_message m = true ->
  (event =?s TraceEvent.EventStarted) && bool_decide (is_Some elapsed) = false ->
  (forall x, elapsed = Some x -> 0 <= x) ->
  stable traced (emitNetworkTrace (network_event generation level stage event elapsed m detail)).
Proof.
  intros ?????? s Hs. unfold emitNetworkTrace, network_event. cbn [TraceEvent.EvDetail TraceEvent.EvMessage].
  destruct (TraceEvent.SanitizeDetail detail []) as [d t]. apply Forall_app. split; [done|]. apply Forall_singleton.
  apply recordable_event; try assumption. by apply lasting_message_lasts.
Qed.

#[local] Hint Resolve traced_system : stable_db.

Lemma traced_terminal op at_ event m detail level :
  TraceEvent.string_in TraceEvent.approvedLevels level = true -> TraceEvent.string_in TraceEvent.ApprovedStages (networkStage op) = true ->
  TraceEvent.string_in [TraceEvent.EventSucceeded; TraceEvent.EventFailed] event = true -> lasting_message m = true ->
  stable traced (emitNetworkTerminal generation (networkStage op) at_ event m detail level).
Proof.
  intros Hl Hs He Hm. unfold emitNetworkTerminal. stable_go. unfold TraceEvent.string_in in He. simpl in He. apply orb_true_iff in He.
  assert (Hev : event = TraceEvent.EventSucceeded \/ event = TraceEvent.EventFailed).
  { destruct He as [He|He]; [left; by apply String.eqb_eq|right]. rewrite orb_false_r in He. by apply String.eqb_eq. }
  apply traced_emit; [assumption|assumption|by destruct Hev as [->| ->]|assumption|by destruct Hev as [->| ->]|].
  intros ? [= <-]. apply elapsed_ms_nonneg.
Qed.

Lemma traced_staged c op err : stable traced (staged_error c op err).
Proof. unfold staged_error. stable_go. Qed.
#[local] Hint Resolve traced_staged : stable_db.

Lemma traced_run c op input : described op = true -> stable traced (run generation c op input).
Proof.
  unfold described. rewrite !andb_true_iff. intros [[[Hs H1m] H2m] H3m]. unfold run. stable_go;
    match goal with
    | |- stable _ (emitNetworkTrace _) =>
        apply traced_emit; [reflexivity|assumption|reflexivity|assumption|reflexivity|intros ? [=]]
    | |- _ => apply traced_terminal; [reflexivity|assumption|reflexivity|assumption]
    end.
Qed.

#[local] Hint Resolve traced_run recover_described emergency_described audit_described : stable_db.

Lemma traced_Baseline c : stable traced (Baseline plan c).
Proof. unfold Baseline. stable_go. Qed.

Lemma traced_Fingerprint c : stable traced (Fingerprint plan c).
Proof. unfold Fingerprint. apply stable_bind; [apply traced_Baseline|]. intros b. stable_go. Qed.
#[local] Hint Resolve traced_Baseline traced_Fingerprint : stable_db.

Lemma traced_wait_loop fuel c deadline guids : stable traced (wait_loop fuel c deadline guids).
Proof. induction fuel as [|fuel IH]; simpl; unfold wait_poll, TUNReady; stable_go. Qed.

Lemma traced_point adapters : stable traced (point_at_tun adapters).
Proof. induction adapters as [|a adapters IH]; simpl; unfold setInterfaceDNS; stable_go. Qed.

Lemma traced_restore servers adapters : stable traced (restore_resolvers servers adapters).
Proof. induction adapters as [|a adapters IH]; simpl; unfold setInterfaceDNS; stable_go. Qed.
#[local] Hint Resolve traced_wait_loop traced_point traced_restore : stable_db.

Lemma traced_perform op : stable traced (perform generation plan op).
Proof.
  destruct op; unfold perform, Prepare, preparePoc, recoverOwnedPhantomTUN, Capture, EnableProtection, WaitTUNReady, ActivateTUNRoutes, pointAllResolversAtTun,
    setInterfaceDNS, Restore, restoreSnapshotResolvers, Reconcile, Residue, TUNReady, StartMonitor, monitor_tick, monitor_audit,
    armMonitorEmergency, auditPreparedFirewall; stable_go.
Qed.

(** Every trace event that the manager emits passes the validation of the recorder. *)
Theorem network_traces_are_recordable s : net_reachable generation plan s -> Forall recordable (traces s).
Proof.
  intros [w Hr]. assert (Hw : traced (new_manager w)) by constructor. unfold traced in Hw. revert Hw.
  induction Hr as [|? ? ? [op ->] _ IH]; [done|]. intros Hw. apply IH. by apply traced_perform.
Qed.
End Traces.

(** ** What the monitor reports ([internal/agent/network_monitor.go])

    A network whose lists are answered in any order, or not at all, is never reported as
    changed, neither by the monitor nor when the prepared state is captured; a changed
    fingerprint is reported at the next tick. *)


(** The system lists the same adapters, interfaces and routes whenever it answers, in an
    order of its own. *)
Class SteadyNetwork `{NetSystem} (adapters : list ipHelperAdapter) (interfaces : list ipHelperInterface) (routes : list ipHelperRoute) : Prop := {
  steady_adapters w l : (api_Adapters w).1 = inl l -> adapters ≡ₚ l;
  steady_interfaces known w l : (api_IPv4Interfaces known w).1 = inl l -> interfaces ≡ₚ l;
  steady_routes w l : (api_IPv4Routes w).1 = inl l -> routes ≡ₚ l
}.

Section Monitor.
Context `{GoSortLaws, FoldTables, UnicodeTables, NetSystem}.
Context (generation : Z) (plan : Plan).

(** ** A steady network *)
Section Steady.
Context (adapters : list ipHelperAdapter) (interfaces : list ipHelperInterface) (routes : list ipHelperRoute).
Context `{!SteadyNetwork adapters interfaces routes} (b : WindowsNetworkBaseline).

(** The network can be read, and what it lists has distinct identities. *)
Definition readable : Prop :=
  normalizeNativeNetwork adapters interfaces routes (nodeAddresses plan) = inl b /\ determined b.

Lemma system_value {A} (f : NWorld -> A * NWorld) s : (system f s).1 = (f (nworld s)).1.
Proof. unfold system. by destruct (f (nworld s)). Qed.

(** Whatever the order, the baseline that is read is the same. *)
Lemma Baseline_steady c s b' : readable -> (Baseline plan c s).1 = inl b' -> b' = b.
Proof.
  intros [Hn Hd]. unfold Baseline, mbind, StateM_bind, mret, StateM_ret.
  pose proof (system_value api_Adapters s) as Ea. destruct (system api_Adapters s) as [[l1|] s1]; [|done].
  destruct (ctx_Err c s1) as [[?|] s2]; [done|].
  pose proof (system_value (api_IPv4Interfaces l1) s2) as Ei. destruct (system _ s2) as [[l2|] s3]; [|done].
  destruct (ctx_Err c s3) as [[?|] s4]; [done|].
  pose proof (system_value api_IPv4Routes s4) as Er. destruct (system _ s4) as [[l3|] s5]; [|done]. simpl in *.
  rewrite (enumeration_order_is_irrelevant adapters interfaces routes (nodeAddresses plan) l1 l2 l3 b); [by intros [= <-]|done|done|..].
  - by eapply steady_adapters.
  - by eapply steady_interfaces.
  - by eapply steady_routes.
Qed.

Lemma Fingerprint_steady c s f : readable -> (Fingerprint plan c s).1 = inl f -> fingerprintNativeNetwork b = inl f.
Proof.
  intros Hr. unfold Fingerprint, mbind, StateM_bind, mret, StateM_ret. pose proof (Baseline_steady c s) as Hb.
  destruct (Baseline plan c s) as [[b'|] s1]; simpl in *; [|done]. by rewrite (Hb b' Hr eq_refl).
Qed.

(** The fingerprint that the monitor compares with: none yet, or that of the network. *)
Definition baseline_ok (f : string) : Prop := f = "" \/ fingerprintNativeNetwork b = inl f.

Definition not_reported (r : MonitorState) : Prop :=
  match r with
  | Watching f => baseline_ok f
  | MonitorFailed (ErrNetworkChanged _) => False
  | _ => True
  end.

Lemma tick_steady st f s : readable -> baseline_ok f -> not_reported (monitor_tick generation plan st f s).1.
Proof.
  intros Hr Hf. unfold monitor_tick, mbind at 1, StateM_bind at 1. destruct (ctx_Err _ s) as [[?|] s1]; [done|].
  unfold mbind at 1, StateM_bind at 1. pose proof (Fingerprint_steady CallerCtx s1) as Hg.
  destruct (Fingerprint plan CallerCtx s1) as [[g|] s2]; [|done]. specialize (Hg g Hr eq_refl).
  assert (E : negb (f =?s "") && negb (g =?s f) = false).
  { destruct Hf as [->|Hf]; [done|]. rewrite Hg in Hf. injection Hf as ->. by rewrite String.eqb_refl, andb_false_r. }
  rewrite E. simpl. destruct (f =?s ""); [by right|exact Hf].
Qed.

Lemma audit_steady st f s : baseline_ok f -> not_reported (monitor_audit generation plan st f s).1.
Proof.
  intros Hf. unfold monitor_audit. destruct (negb _); [done|]. unfold mbind at 1, StateM_bind at 1.
  destruct (ctx_Err _ s) as [[?|] s1]; [done|]. unfold mbind at 1, StateM_bind at 1.
  destruct (auditPreparedFirewall _ _ _ _ _ s1) as [[e|] s2]; [|done]. unfold mbind at 1, StateM_bind at 1.
  destruct (ctx_Err _ s2) as [[?|] s3]; [done|]. unfold mbind, StateM_bind. by destruct (armMonitorEmergency _ _ _ s3).
Qed.

Lemma loop_steady st f happens s : readable -> baseline_ok f -> not_reported (monitor_loop generation plan st f happens s).1.
Proof.
  intros Hr. revert f s. induction happens as [|e happens IH]; intros f s Hf; simpl; [done|]. unfold mbind, StateM_bind.
  pose proof (tick_steady st f s Hr Hf) as Ht. pose proof (audit_steady st f s Hf) as Ha.
  destruct e; [done|..].
  - destruct (monitor_tick _ _ _ _ s) as [[g| |e] s1]; [by apply IH|done..].
  - destruct (monitor_audit _ _ _ _ s) as [[g| |e] s1]; [by apply IH|done..].
Qed.

Lemma runMonitor_steady st happens s : readable -> not_reported (runMonitor generation plan st happens s).1.
Proof.
  intros Hr. unfold runMonitor, mbind, StateM_bind. pose proof (Fingerprint_steady CallerCtx s) as Hf.
  destruct (Fingerprint plan CallerCtx s) as [[f|] s1]; apply loop_steady; try done; [right; by apply Hf|by left].
Qed.

(** Preparing stores a state with the fingerprint of the network. *)
Lemma Prepare_steady c p s s' : readable -> Prepare generation plan c s = (inl p, s') -> exists st,
  prepared s' = Some st /\ fingerprintNativeNetwork b = inl (PS_FingerprintSHA256 st) /\ PS_Generation st = PN_Generation p.
Proof.
  intros Hr Hp. unfold Prepare, preparePoc in Hp. unfold mbind at 1, StateM_bind at 1 in Hp.
  destruct (ctx_Err c s) as [[?|] s1]; [done|].
  unfold mbind at 1, StateM_bind at 1 in Hp. destruct (recoverOwnedPhantomTUN generation c s1) as [[?|] s2]; [done|].
  unfold mbind at 1, StateM_bind at 1 in Hp. destruct (Baseline plan c s2) as [[base|] s3]; [|done].
  destruct (refuse_adapters _); [done|]. unfold mbind at 1, StateM_bind at 1 in Hp.
  pose proof (Fingerprint_steady c s3) as Hf. destruct (Fingerprint plan c s3) as [[f|] s4]; [|done].
  unfold mbind, StateM_bind, puts, mret, StateM_ret in Hp. injection Hp as <- <-. eexists. split; [reflexivity|].
  split; [by apply Hf|reflexivity].
Qed.

(** While the network lists the same things, in any order, with failures in between, and
    whatever else happens, the monitor does not report a change, and what has been prepared
    can be captured as soon as the network can be read. *)
Theorem steady_network_is_never_reported : readable ->
  (forall st happens s d, (runMonitor generation plan st happens s).1 <> MonitorFailed (ErrNetworkChanged d)) /\
  (forall c c' p s s', Prepare generation plan c s = (inl p, s') -> validatePreparedNetwork p = None -> current s' = None ->
     (exists f, (Fingerprint plan c' s').1 = inl f) ->
     exists st, prepared s' = Some st /\ (Capture plan c' p s').1 =
       match snapshotFromPrepared plan st with inl sn => inl sn | inr err => inr (ErrText err) end).
Proof.
  intros Hr. split.
  - intros st happens s d E. pose proof (runMonitor_steady st happens s Hr) as Hn. by rewrite E in Hn.
  - intros c c' p s s' Hp Hv Hc [f Hf]. destruct (Prepare_steady _ _ _ _ Hr Hp) as (st & Est & Eb & Eg). exists st. split; [done|].
    unfold Capture. rewrite Hv. unfold mbind, StateM_bind, gets. rewrite Hc, Est, Eg, Z.eqb_refl. cbn [negb].
    pose proof (Fingerprint_steady c' s' f Hr Hf) as Hg. destruct (Fingerprint plan c' s') as [g s1]. simpl in Hf. subst g.
    rewrite Eb in Hg. injection Hg as ->. rewrite String.eqb_refl. cbn [negb]. by destruct (snapshotFromPrepared plan st).
Qed.
End Steady.

(** ** A changed network *)

(** A tick that reads another fingerprint than the one that the monitor compares with ends
    the monitor with a report. *)
Theorem change_is_reported st baseline rest s f :
  baseline <> "" -> (ctx_Err CallerCtx s).1 = None -> (Fingerprint plan CallerCtx (ctx_Err CallerCtx s).2).1 = inl f -> f <> baseline ->
  (monitor_loop generation plan st baseline (MonitorTick :: rest) s).1 =
    MonitorFailed (ErrNetworkChanged "runtime fingerprint differs from the connected baseline").
Proof.
  intros Hb Hc Hf Hn. simpl. unfold monitor_tick, mbind, StateM_bind. destruct (ctx_Err CallerCtx s) as [e s1]. simpl in *. subst e.
  destruct (Fingerprint plan CallerCtx s1) as [r s2]. simpl in *. subst r.
  apply String.eqb_neq in Hb, Hn. rewrite Hb, Hn. simpl. destruct (preparedFirewallMonitoringApplies st); simpl.
  - by destruct (armMonitorEmergency generation plan st s2).
  - done.
Qed.

(** ** No rules, no scripts *)

(** The prepared state has no firewall rules. *)
Definition no_rules (s : MS) : Prop := forall st, prepared s = Some st -> PS_Rules st = [].

Lemma no_rules_kept {A} (m : NM A) : keeps kept m -> stable no_rules m.
Proof. intros Hk s Hs. specialize (Hk s). unfold kept in Hk. unfold no_rules. assert (E : prepared (m s).2 = prepared s) by congruence. by rewrite E. Qed.

Lemma no_rules_prepared b f : stable no_rules (puts (set_prepared (Some (prepared_state b f)))).
Proof. intros s _ st [= <-]. reflexivity. Qed.

#[local] Hint Resolve no_rules_kept no_rules_prepared keeps_run keeps_Baseline keeps_Fingerprint keeps_TUNReady keeps_recover keeps_arm keeps_audit
  keeps_wait_loop : stable_db.

Lemma no_rules_point adapters : stable no_rules (point_at_tun adapters).
Proof. induction adapters as [|a adapters IH]; simpl; unfold setInterfaceDNS; stable_go. Qed.

Lemma no_rules_restore servers adapters : stable no_rules (restore_resolvers servers adapters).
Proof. induction adapters as [|a adapters IH]; simpl; unfold setInterfaceDNS; stable_go. Qed.
#[local] Hint Resolve no_rules_point no_rules_restore : stable_db.

Lemma no_rules_perform op : stable no_rules (perform generation plan op).
Proof.
  destruct op; unfold perform, Prepare, preparePoc, Capture, EnableProtection, WaitTUNReady, ActivateTUNRoutes, pointAllResolversAtTun,
    setInterfaceDNS, Restore, restoreSnapshotResolvers, Reconcile, Residue, StartMonitor, monitor_tick, monitor_audit; stable_go.
Qed.

Lemma keeps_traces_system {A} (f : NWorld -> A * NWorld) : keeps traces (system f).
Proof. intros s. unfold system. by destruct (f (nworld s)). Qed.

Lemma keeps_traces_Fingerprint c : keeps traces (Fingerprint plan c).
Proof.
  unfold Fingerprint, Baseline, ctx_Err. repeat first [apply keeps_bind; [|intros ?]|apply keeps_traces_system|apply keeps_ret|progress cbv zeta|case_match].
Qed.

(** The monitor of a state without rules runs no script. *)
Lemma monitor_without_rules st happens : PS_Rules st = [] -> keeps traces (runMonitor generation plan st happens).
Proof.
  intros Hr. assert (E : preparedFirewallMonitoringApplies st = false) by (unfold preparedFirewallMonitoringApplies; by rewrite Hr).
  assert (Ht : forall f, keeps traces (monitor_tick generation plan st f)).
  { intros f. unfold monitor_tick. rewrite E. apply keeps_bind; [apply keeps_traces_system|]. intros [?|]; [apply keeps_ret|].
    apply keeps_bind; [apply keeps_traces_Fingerprint|]. intros [g|]; [|apply keeps_ret]. case_match; [|apply keeps_ret].
    apply keeps_bind; intros; apply keeps_ret. }
  assert (Ha : forall f, keeps traces (monitor_audit generation plan st f)) by (intros f; unfold monitor_audit; rewrite E; apply keeps_ret).
  unfold runMonitor. apply keeps_bind; [apply keeps_traces_Fingerprint|]. intros r. generalize (match r with inl f => f | inr _ => "" end).
  induction happens as [|e happens IH]; intros f; simpl; [apply keeps_ret|]. apply keeps_bind; [by destruct e; [apply keeps_ret|..]|].
  intros [g| |?]; [apply IH|apply keeps_ret..].
Qed.

(** A monitor that is started in a reachable state never runs the emergency or the audit
    script: the prepared state has no rules, so a confirmed change enables nothing. *)
Theorem monitor_never_arms_emergency p s st s' happens s'' : net_reachable generation plan s ->
  StartMonitor p s = (inl st, s') -> traces (runMonitor generation plan st happens s'').2 = traces s''.
Proof.
  intros Hr Hs. apply monitor_without_rules.
  pose proof (reachable_invariant generation plan no_rules ltac:(done) no_rules_perform s Hr) as Hn.
  unfold StartMonitor in Hs. destruct (validatePreparedNetwork p); [done|].
  unfold mbind, StateM_bind, gets, puts, mret, StateM_ret in Hs. destruct (prepared s) as [st0|] eqn:Ep; [|done].
  destruct (negb _); [done|]. injection Hs as <- _. by apply Hn.
Qed.
End Monitor.
