(* ===== verification/NetworkDemo.v ===== *)
(** * Concrete networks

    Systems on which the properties of the network manager are evaluated: one whose lists
    come in changing order, and one where a tunnel adapter appears and resolvers can be
    set; and a run that turns a configured resolver into an automatic one. *)
From S2P Require Import Prelude GoText Netip AccessModel NetPrefixes NativeNetwork NetworkManager NetworkManagerSpec NetworkLifecycle.
From S2P Require TraceEvent.
From stdpp Require Import gmap relations.

#[local] Open Scope string_scope.
#[local] Open Scope Z_scope.
#[local] Open Scope list_scope.

#[export] Instance merge_sorting : GoSort := {| sort_Slice A c l := merge_sort (cmp_le c) l |}.
#[export] Instance merge_sorting_laws : GoSortLaws.
Proof.
  split; intros; simpl; [apply merge_sort_Permutation|]. apply (StronglySorted_merge_sort _).
Qed.
#[export] Instance ascii_folding : FoldTables := {| rune_fold r := if (65 <=? r) && (r <=? 90) then r + 32 else r |}.

(** The adapters of a machine: loopback and one with a configured resolver. *)
Definition demo_ethernet (dns : list string) (automatic : bool) : ipHelperAdapter :=
  mkHelperAdapter 12 1200 "{E1}" "Ethernet" "Up" dns automatic ["192.168.1.5/24"] "Intel(R) Ethernet".
Definition demo_loopback : ipHelperAdapter := mkHelperAdapter 1 100 "{L0}" "Loopback" "Up" [] true ["127.0.0.1/8"] "Software Loopback".
Definition demo_tun : ipHelperAdapter :=
  mkHelperAdapter 30 3000 "{T9}" windowsTUNInterface "Up" [] true [windowsTUNAddress] "sing-tun Tunnel".
Definition demo_adapters : list ipHelperAdapter := [demo_ethernet ["10.0.0.53"] false; demo_loopback].
Definition demo_interfaces : list ipHelperInterface := [mkHelperInterface 12 1200 true 25 false; mkHelperInterface 1 100 true 75 false].
Definition demo_routes : list ipHelperRoute :=
  [mkHelperRoute "0.0.0.0/0" 12 1200 "192.168.1.1" 0 3; mkHelperRoute "192.168.1.0/24" 12 1200 "0.0.0.0" 256 2].

(** A stand-in for the digest: 64 lowercase hexadecimal digits made from the bytes. *)
Definition demo_digest (payload : string) : string :=
  let sum := fold_left (fun n a => (n * 31 + byte_val a) mod 65521) (String.list_ascii_of_string payload) 7 in
  String.string_of_list_ascii (map (fun i => byte_of (97 + (sum / (1 + Z.of_nat i)) mod 6)) (seq 0 64)).
Definition demo_baseline_text (b : WindowsNetworkBaseline) : string :=
  String.concat ";" (map NA_InterfaceGuid (Adapters b) ++ map NR_DestinationPrefix (Routes b) ++ map NodeNextHop (NodeRoutes b)).

(** The world: the clock, whether lists are reversed, and the resolver of the machine. *)
Record DemoWorld := mkDemo { dw_clock : Z; dw_flip : bool; dw_dns : option (list string) }.
Definition flipped {A} (w : DemoWorld) (l : list A) : list A := if dw_flip w then rev l else l.
Definition flip_world (w : DemoWorld) : DemoWorld := mkDemo (dw_clock w) (negb (dw_flip w)) (dw_dns w).

(** Every list comes in another order than the one before. *)
#[export] Instance flipping : NetSystem := {|
  NWorld := DemoWorld;
  net_ctx_Err _ w := (None, w);
  net_Now w := (dw_clock w, w);
  net_Sleep d w := mkDemo (dw_clock w + d) (dw_flip w) (dw_dns w);
  api_Adapters w := (inl (flipped w demo_adapters), flip_world w);
  api_IPv4Interfaces _ w := (inl (flipped w demo_interfaces), flip_world w);
  api_IPv4Routes w := (inl (flipped w demo_routes), flip_world w);
  api_setInterfaceDNS _ servers w := (None, w);
  runner_Run _ _ w := (inl "", w);
  json_Marshal_input _ := inl "{}";
  json_Marshal_baseline b := inl (demo_baseline_text b);
  sha256_hex := demo_digest
|}.

#[export] Instance flipping_clock : NetClock.
Proof. by refine {| net_clock := dw_clock |}; intros; simpl; lia. Defined.

#[export] Instance flipping_steady : SteadyNetwork demo_adapters demo_interfaces demo_routes.
Proof.
  assert (Hf : forall A (w : DemoWorld) (l : list A), l ≡ₚ flipped w l) by (intros A w l; unfold flipped; destruct (dw_flip w); [apply Permutation_rev|done]).
  split; simpl; [intros w l [= <-]|intros known w l [= <-]|intros w l [= <-]]; apply Hf.
Qed.

Definition demo_plan : Plan := mkPlan ["192.0.2.10"] [] [].

Definition demo_reading : WindowsNetworkBaseline + string :=
  normalizeNativeNetwork demo_adapters demo_interfaces demo_routes (nodeAddresses demo_plan).
Lemma demo_reading_succeeds : match demo_reading with inl _ => true | inr _ => false end = true.
Proof. vm_compute. reflexivity. Qed.
Definition demo_baseline : WindowsNetworkBaseline :=
  Eval vm_compute in match demo_reading with inl b => b | inr _ => mkBaseline [] [] [] [] end.

Lemma demo_readable : readable demo_plan demo_adapters demo_interfaces demo_routes demo_baseline.
Proof.
  split; [vm_compute; reflexivity|]. split; intros x y; unfold demo_baseline; cbn [Adapters Routes];
    rewrite !elem_of_cons, !elem_of_nil; intros [->|[->|[]]] [->|[->|[]]]; vm_compute; done.
Qed.

Definition demo_start : MS := new_manager (mkDemo 0 false None).

Lemma steady_network_is_never_reported_witness :
  (runMonitor 1 demo_plan (mkPreparedState 1 1 1 "" 2 "" demo_baseline [] [] [] "") [MonitorTick; MonitorAudit; MonitorTick] demo_start).1
    <> MonitorFailed (ErrNetworkChanged "runtime fingerprint differs from the connected baseline").
Proof.
  apply (steady_network_is_never_reported 1 demo_plan demo_adapters demo_interfaces demo_routes demo_baseline demo_readable).
Defined.

Lemma waiting_ends_witness : is_Some (WaitTUNReady 55 CallerCtx demo_start).1.
Proof. apply (waiting_ends 55 CallerCtx demo_start). lia. Defined.

Lemma demo_fingerprint : match (Fingerprint demo_plan CallerCtx (ctx_Err CallerCtx demo_start).2).1 with
  | inl f => negb (f =?s "0") | inr _ => false end = true.
Proof. vm_compute. reflexivity. Qed.

Lemma change_is_reported_witness : exists f, f <> "0" /\
  (monitor_loop 1 demo_plan (mkPreparedState 1 1 1 "" 2 "" demo_baseline [] [] [] "") "0" [MonitorTick] demo_start).1 =
    MonitorFailed (ErrNetworkChanged "runtime fingerprint differs from the connected baseline").
Proof.
  pose proof demo_fingerprint as Hd. destruct (Fingerprint demo_plan CallerCtx (ctx_Err CallerCtx demo_start).2).1 as [f|] eqn:E; [|done].
  assert (Hn : f <> "0") by (intros ->; done). exists f. split; [exact Hn|].
  by apply (change_is_reported 1 demo_plan _ "0" [] demo_start f).
Defined.

Lemma node_routes_are_the_best_witness : exists metrics parsed, normalize_routes metrics demo_routes = inl parsed /\
  forall n, n ∈ NodeRoutes demo_baseline -> exists r, r ∈ map fst parsed /\ n = node_route metrics (NodeAddress_ n) r.
Proof.
  destruct (node_routes_are_the_best demo_adapters demo_interfaces demo_routes (nodeAddresses demo_plan) demo_baseline (proj1 demo_readable))
    as (metrics & parsed & E & Hn).
  exists metrics, parsed. split; [exact E|]. intros n Hin. destruct (Hn n Hin) as (r & H1 & H2 & _). by exists r.
Defined.

(** ** A connection *)
Section Connection.

(** The tunnel adapter appears after a second; the machine has one configured resolver. *)
#[local] Instance tunneled : NetSystem := {|
  NWorld := DemoWorld;
  net_ctx_Err _ w := (None, w);
  net_Now w := (dw_clock w, w);
  net_Sleep d w := mkDemo (dw_clock w + d) (dw_flip w) (dw_dns w);
  api_Adapters w :=
    (inl (match dw_dns w with
          | None => demo_ethernet ["10.0.0.53"] false
          | Some [] => demo_ethernet ["192.168.1.1"] true
          | Some l => demo_ethernet l false
          end :: demo_loopback :: (if Second <=? dw_clock w then [demo_tun] else [])), w);
  api_IPv4Interfaces _ w := (inl demo_interfaces, w);
  api_IPv4Routes w := (inl demo_routes, w);
  api_setInterfaceDNS guid servers w :=
    (None, if guid =?s "{E1}" then mkDemo (dw_clock w) (dw_flip w) (Some (if servers =?s "" then [] else [servers])) else w);
  runner_Run _ _ w := (inl "", w);
  json_Marshal_input _ := inl "{}";
  json_Marshal_baseline b := inl (demo_baseline_text b);
  sha256_hex := demo_digest
|}.

Definition demo_prepared : PreparedNetwork :=
  match Prepare 1 demo_plan CallerCtx (new_manager (mkDemo 0 false None)) with (inl p, _) => p | _ => mkPrepared 0 "" 0 0 end.

Definition demo_run (ops : list NetOp) : MS :=
  fold_left (fun s op => (perform 1 demo_plan op s).2) ops (new_manager (mkDemo 0 false None)).

Definition demo_connect : list NetOp :=
  [OpPrepare CallerCtx; OpCapture CallerCtx demo_prepared; OpEnableProtection demo_prepared; OpWaitTUNReady 55 CallerCtx; OpActivate; OpStartMonitor demo_prepared].

Lemma demo_run_reachable ops : net_reachable 1 demo_plan (demo_run ops).
Proof.
  exists (mkDemo 0 false None). unfold demo_run. generalize (new_manager (mkDemo 0 false None)).
  induction ops as [|op ops IH]; intros s; simpl; [apply rtc_refl|]. eapply rtc_l; [by exists op|apply IH].
Qed.

Definition demo_identity : WindowsTUNIdentity := mkTUNIdentity 30 "{T9}" windowsTUNInterface "" false false [windowsTUNAddress].

Lemma demo_owned : (match current (demo_run demo_connect) with Some sn => SN_OwnedTUN sn | None => None end) = Some demo_identity.
Proof. vm_compute. reflexivity. Qed.

Lemma owned_tun_is_new_witness : exists sn, current (demo_run demo_connect) = Some sn /\ SN_OwnershipPhase sn = windowsSnapshotPhaseTUNOwned.
Proof.
  pose proof demo_owned as Ho. destruct (current (demo_run demo_connect)) as [sn|] eqn:Ec; [|done].
  exists sn. split; [reflexivity|]. by destruct (owned_tun_is_new 1 demo_plan _ sn demo_identity (demo_run_reachable demo_connect) Ec Ho).
Defined.

(** A connection and a disconnection: the resolver that was configured becomes automatic. *)
Example configured_resolver_is_lost :
  dns_calls (demo_run (demo_connect ++ [OpRestore None])) =
    [("{E1}", windowsTUNDNS); ("{L0}", windowsTUNDNS); ("{T9}", windowsTUNDNS); ("{E1}", "")] /\
  dw_dns (nworld (demo_run (demo_connect ++ [OpRestore None]))) = Some [].
Proof. vm_compute. split; reflexivity. Qed.

Lemma resolvers_are_tunnel_or_automatic_witness : Forall tunnel_or_automatic (dns_calls (demo_run (demo_connect ++ [OpRestore None]))).
Proof. apply (resolvers_are_tunnel_or_automatic 1 demo_plan _ (demo_run_reachable _)). Defined.

Lemma network_traces_are_recordable_witness : Forall recordable (traces (demo_run demo_connect)) /\ length (traces (demo_run demo_connect)) = 2%nat.
Proof. split; [apply (network_traces_are_recordable 1 demo_plan _ (demo_run_reachable _))|vm_compute; reflexivity]. Defined.

Lemma demo_monitored : exists st s, StartMonitor demo_prepared (demo_run demo_connect) = (inl st, s).
Proof.
  destruct (StartMonitor demo_prepared (demo_run demo_connect)) as [[st|e] s] eqn:E; [by eexists _, _|].
  exfalso. assert (Ht : match (StartMonitor demo_prepared (demo_run demo_connect)).1 with inl _ => true | inr _ => false end = true)
    by (vm_compute; reflexivity). by rewrite E in Ht.
Qed.

Lemma monitor_never_arms_emergency_witness : exists st, forall s,
  traces (runMonitor 1 demo_plan st [MonitorTick; MonitorAudit] s).2 = traces s.
Proof.
  destruct demo_monitored as (st & s & E). exists st. intros s''.
  apply (monitor_never_arms_emergency 1 demo_plan demo_prepared _ st s [MonitorTick; MonitorAudit] s'' (demo_run_reachable demo_connect) E).
Defined.
End Connection.
