(* ===== verification/SingConfig.v ===== *)
(** * The configuration of the core ([internal/singconfig])

    [RenderClient] and [RenderServer] check their input, bring it into canonical form and
    build the configuration of sing-box, and [renderClientConfig] of
    [cmd/overseas-agent/main_windows.go] chooses the node of a policy.  The JSON encoding
    of the built value is a parameter; base64 and [net.SplitHostPort] are modelled. *)
From S2P Require Import Prelude GoText Netip AccessModel NetPrefixes.
From stdpp Require Import gmap pretty.

#[local] Open Scope string_scope.
#[local] Open Scope Z_scope.
#[local] Open Scope list_scope.

(** ** The standard library *)

(** [base64.StdEncoding.DecodeString]: line ends are passed over, the rest comes in groups
    of four, and only the last group is padded; the bits below the last byte are not
    checked. *)
Definition base64_value (a : ascii) : option Z :=
  let b := byte_val a in
  if (65 <=? b) && (b <=? 90) then Some (b - 65)
  else if (97 <=? b) && (b <=? 122) then Some (b - 71)
  else if (48 <=? b) && (b <=? 57) then Some (b + 4)
  else if b =? 43 then Some 62
  else if b =? 47 then Some 63
  else None.

Definition is_pad (a : ascii) : bool := byte_val a =? 61.
Definition line_end (a : ascii) : bool := (byte_val a =? 10) || (byte_val a =? 13).

Fixpoint base64_groups (l : list ascii) : option (list Z) :=
  match l with
  | [] => Some []
  | a :: b :: c :: d :: rest =>
      x ← base64_value a; y ← base64_value b;
      let first := x * 4 + y / 16 in
      if is_pad c then
        match rest with
        | [] => if is_pad d then Some [first] else None
        | _ => None
        end
      else
        z ← base64_value c;
        let second := (y `mod` 16) * 16 + z / 4 in
        if is_pad d then match rest with [] => Some [first; second] | _ => None end
        else
          w ← base64_value d;
          r ← base64_groups rest;
          Some (first :: second :: (z `mod` 4) * 64 + w :: r)
  | _ => None
  end.

Definition base64_DecodeString (s : string) : option (list Z) :=
  base64_groups (List.filter (fun a => negb (line_end a)) (String.list_ascii_of_string s)).

(** [net.SplitHostPort] *)
Definition index_byte (b : Z) (s : string) : option (string * string) :=
  (fix go s := match s with
   | "" => None
   | String a s' => if byte_val a =? b then Some ("", s') else '(before, after) ← go s'; Some (String a before, after)
   end) s.

Definition has_byte (b : Z) (s : string) : bool := bool_decide (is_Some (index_byte b s)).

(** The text before and after the last byte [b]. *)
Fixpoint last_index_byte (b : Z) (s : string) : option (string * string) :=
  match s with
  | "" => None
  | String a s' =>
      match last_index_byte b s' with
      | Some (before, after) => Some (String a before, after)
      | None => if byte_val a =? b then Some ("", s') else None
      end
  end.

Definition SplitHostPort (hostport : string) : option (string * string) :=
  match last_index_byte 58 hostport with
  | None => None
  | Some (before, port) =>
      match hostport with
      | String a inner =>
          if byte_val a =? 91 then
            match index_byte 93 inner with
            | None => None
            | Some (host, after) =>
                if negb (after =?s ":" ++s port) then None
                else if has_byte 91 inner || has_byte 93 after then None
                else Some (host, port)
            end
          else if has_byte 58 before then None
          else if has_byte 91 hostport || has_byte 93 hostport then None
          else Some (before, port)
      | "" => None
      end
  end.

Example decode_key : length <$> base64_DecodeString "MDEyMzQ1Njc4OWFiY2RlZg==" = Some 16%nat.
Proof. vm_compute. reflexivity. Qed.
Example split_v6 : map SplitHostPort ["127.0.0.1:8080"; "[::1]:8080"; "::1:8080"; "[::1]"; "localhost"; ":80"] =
  [Some ("127.0.0.1", "8080"); Some ("::1", "8080"); None; None; None; Some ("", "80")].
Proof. vm_compute. reflexivity. Qed.

(** ** Data *)
Definition DefaultMethod := "2022-blake3-aes-128-gcm".
Definition tunInterfaceName := "RegenBioOverseasAccess".
Definition tunMTU : Z := 1420.
Definition publicDNSOverTCPServer := "8.8.8.8".
Definition tunAddress := "172.19.0.1/30".

Definition shadowsocks2022KeyLengths (method : string) : option Z :=
  if method =?s "2022-blake3-aes-128-gcm" then Some 16
  else if method =?s "2022-blake3-aes-256-gcm" then Some 32
  else if method =?s "2022-blake3-chacha20-poly1305" then Some 32
  else None.

Record routeRule := mkRouteRule {
  IPCIDR : list string; DomainSuffix : list string; Network : list string; Port : list Z; Action : string; Outbound : string
}.

Record ServerInput := mkServerInput {
  SI_Listen : string; SI_Port : Z; SI_Method : string; SI_Password : string; SI_Upstream : string
}.

Record serverInbound := mkServerInbound {
  SIn_Type : string; SIn_Tag : string; SIn_Listen : string; SIn_ListenPort : Z; SIn_Network : string;
  SIn_Method : string; SIn_Password : string
}.

Record serverOutbound := mkServerOutbound { SOut_Type : string; SOut_Tag : string; SOut_Server : string; SOut_ServerPort : Z }.

Record routeConfig := mkRouteConfig { RC_Rules : list routeRule; RC_Final : string }.

Record serverConfig := mkServerConfig {
  SC_Inbounds : list serverInbound; SC_Outbounds : list serverOutbound; SC_Route : routeConfig
}.

Record ClientInput := mkClientInput {
  CI_Platform : string; CI_Node : Node; CI_CorporateCIDRs : list string; CI_CorporateDNS : list string;
  CI_InternalSuffixes : list string; CI_Method : string; CI_Password : string
}.

Record clientInbound := mkClientInbound {
  CIn_Type : string; CIn_Tag : string; CIn_InterfaceName : string; CIn_Address : list string;
  CIn_AutoRoute : bool; CIn_StrictRoute : bool; CIn_MTU : Z
}.

Record clientOutbound := mkClientOutbound {
  COut_Type : string; COut_Tag : string; COut_Server : string; COut_ServerPort : Z; COut_Method : string;
  COut_Password : string; COut_Network : string; COut_DomainResolver : string
}.

Record clientRouteConfig := mkClientRoute { CR_Rules : list routeRule; CR_Final : string; CR_AutoDetectInterface : bool }.

Record dnsTLSConfig := mkDnsTLS { TLS_ServerName : string }.

Record dnsServer := mkDnsServer {
  DS_Type : string; DS_Tag : string; DS_Server : string; DS_ServerPort : Z; DS_Path : string;
  DS_Headers : gmap string (list string); DS_TLS : option dnsTLSConfig; DS_Detour : string;
  DS_Inet4Range : string; DS_Inet6Range : string
}.

Record dnsRule := mkDnsRule { DR_DomainSuffix : list string; DR_QueryType : list string; DR_Action : string; DR_Server : string }.

Record clientDNSConfig := mkClientDNS {
  CD_Servers : list dnsServer; CD_Rules : list dnsRule; CD_Final : string; CD_ReverseMapping : bool
}.

Record clientConfig := mkClientConfig {
  CC_Inbounds : list clientInbound; CC_Outbounds : list clientOutbound; CC_Route : clientRouteConfig; CC_DNS : clientDNSConfig
}.

(** ** Checks *)

(** The loop of the list checks: [check] gives an error or the canonical text, which must
    not repeat. *)
Fixpoint collect_unique (check : string -> string + string) (duplicate : string) (values : list string)
    (seen : gset string) : list string + string :=
  match values with
  | [] => inl []
  | value :: rest =>
      match check value with
      | inr err => inr err
      | inl canonical =>
          if bool_decide (canonical ∈ seen) then inr duplicate
          else match collect_unique check duplicate rest ({[canonical]} ∪ seen) with
          | inl l => inl (canonical :: l)
          | inr err => inr err
          end
      end
  end.

Definition sorted_unique (check : string -> string + string) (duplicate : string) (values : list string) : list string + string :=
  match collect_unique check duplicate values ∅ with inl l => inl (sort_strings l) | inr err => inr err end.

Definition canonical_cidr (value : string) : string + string :=
  match ParsePrefix (strings_TrimSpace value) with
  | None => inr "corporate CIDRs must contain canonical prefixes"
  | Some prefix =>
      if negb (Prefix_String prefix =?s strings_TrimSpace value) then inr "corporate CIDRs must contain canonical prefixes"
      else if PrefixBits prefix =? 0 then inr "corporate CIDRs must not contain a default route"
      else inl (Prefix_String prefix)
  end.

Definition canonicalCorporateCIDRs (values : list string) : list string + string :=
  match values with
  | [] => inr "corporate CIDRs must not be empty"
  | _ => sorted_unique canonical_cidr "corporate CIDRs must not contain duplicates" values
  end.

Definition canonical_dns (value : string) : string + string :=
  match ParseAddr (strings_TrimSpace value) with
  | None => inr "corporate DNS must contain valid IP addresses"
  | Some addr =>
      if address_rejected addr then inr "corporate DNS must not contain loopback, multicast, or unspecified addresses"
      else if negb (Is4 addr) then inr "corporate DNS must contain IPv4 addresses for the Windows PoC"
      else inl (Addr_String addr)
  end.

Definition canonicalCorporateDNS (values : list string) : list string + string :=
  sorted_unique canonical_dns "corporate DNS must not contain duplicates" values.

Definition directDomainResolverTag (corporateDNS : list string) : string :=
  match corporateDNS with [] => "" | _ => "corp-dns" end.

Definition validateNode (node : Node) : string + string :=
  if negb (NodeTransport node =?s "") && negb (NodeTransport node =?s "http-connect")
  then inr "node transport must be empty or http-connect"
  else if strings_TrimSpace (NodeID node) =?s "" then inr "node id must not be empty"
  else match ParseAddr (strings_TrimSpace (NodeAddress node)) with
  | None => inr "node address must be a valid IP address"
  | Some addr =>
      if address_rejected addr then inr "node address must not be loopback, multicast, or unspecified"
      else if negb (Is4 addr) then inr "node address must be IPv4 for the PoC"
      else if NodePort node <? 1024 then inr "node port must be 1024 or higher"
      else if (NodeTransport node =?s "http-connect") && (negb (Addr_String addr =?s "172.20.9.15") || negb (NodePort node =? 8080))
      then inr "node must be the approved telecom endpoint"
      else inl (Addr_String addr)
  end.

(** The text of the base64 error, which follows the prefix, is left out. *)
Definition validateMethodAndPassword (method password : string) : string * string + string :=
  let method := strings_TrimSpace method in
  let method := if method =?s "" then DefaultMethod else method in
  match shadowsocks2022KeyLengths method with
  | None => inr ("unsupported Shadowsocks method " ++s go_quote method)
  | Some requiredLength =>
      let password := strings_TrimSpace password in
      if password =?s "" then inr "password must not be empty"
      else match base64_DecodeString password with
      | None => inr "password must be a valid base64-encoded key"
      | Some key =>
          if negb (Z.of_nat (length key) =? requiredLength)
          then inr ("password length for " ++s method ++s " must decode to " ++s pretty requiredLength ++s " bytes")
          else inl (method, password)
      end
  end.

Definition validateListenAddress (value : string) : option string :=
  match ParseAddr (strings_TrimSpace value) with
  | None => Some "listen must be a valid IP address"
  | Some addr => if negb (Is4 addr) then Some "listen must be an IPv4 address for the PoC" else None
  end.

Definition parseLoopbackUpstream (value : string) : string * Z + string :=
  match SplitHostPort (strings_TrimSpace value) with
  | None => inr "upstream must be host:port"
  | Some (host, portText) =>
      match ParseAddr host with
      | None => inr "upstream host must be an IP address"
      | Some addr =>
          if negb (Addr_String addr =?s "127.0.0.1") then inr "upstream must be exactly 127.0.0.1:8080 for the PoC"
          else if negb (portText =?s "8080") then inr "upstream must be exactly 127.0.0.1:8080 for the PoC"
          else inl (Addr_String addr, 8080)
      end
  end.

(** ** Rendering *)

(** The rules of the client, in order; the rule for internal suffixes is there when there
    are any. *)
Definition client_rules (nodeAddress : string) (corpDirectTargets internalSuffixes : list string) : list routeRule :=
  [ mkRouteRule [] [] [] [53] "hijack-dns" "";
    mkRouteRule [nodeAddress ++s "/32"] [] [] [] "route" "direct";
    mkRouteRule corpDirectTargets [] [] [] "route" "direct" ] ++
  (match internalSuffixes with [] => [] | _ => [mkRouteRule [] internalSuffixes [] [] "route" "direct"] end) ++
  [ mkRouteRule [] [] ["udp"] [443] "reject" "";
    mkRouteRule [] [] ["udp"] [] "reject" "";
    mkRouteRule [] [] ["tcp"] [] "route" "tunnel" ].

Definition client_dns (corporateDNS internalSuffixes : list string) : clientDNSConfig :=
  let servers :=
    [ mkDnsServer "tcp" "remote-dns" publicDNSOverTCPServer 53 "" ∅ None "tunnel" "" "";
      mkDnsServer "fakeip" "fakeip" "" 0 "" ∅ None "" "198.18.0.0/15" "" ] in
  let rules := [mkDnsRule [] ["A"; "AAAA"] "" "fakeip"] in
  let '(servers, rules) :=
    match corporateDNS with
    | [] => (servers, rules)
    | first :: _ =>
        (mkDnsServer "udp" "corp-dns" first 53 "" ∅ None "direct" "" "" :: servers,
         mkDnsRule internalSuffixes [] "route" "corp-dns" :: rules)
    end in
  mkClientDNS servers rules "remote-dns" true.

Definition client_interface (platform : string) : option string :=
  if (platform =?s "") || (platform =?s "windows") then Some tunInterfaceName
  else if platform =?s "linux" then Some "regen-access"
  else if platform =?s "darwin" then Some "utun9"
  else None.

(** The outbound to the node: a plain HTTP proxy, or Shadowsocks with its key. *)
Definition client_tunnel (nodeAddress : string) (input : ClientInput) : clientOutbound + string :=
  if NodeTransport (CI_Node input) =?s "" then
    match validateMethodAndPassword (CI_Method input) (CI_Password input) with
    | inr err => inr err
    | inl (method, password) =>
        inl (mkClientOutbound "shadowsocks" "tunnel" nodeAddress (NodePort (CI_Node input)) method password "tcp" "")
    end
  else inl (mkClientOutbound "http" "tunnel" nodeAddress (NodePort (CI_Node input)) "" "" "" "").

Section Render.
Context `{UnicodeTables}.

Definition canonical_suffix (value : string) : string + string :=
  let suffix := strings_ToLower (strings_TrimSpace value) in
  if suffix =?s "" then inr "internal suffixes must not contain empty values" else inl suffix.

Definition canonicalInternalSuffixes (values : list string) : list string + string :=
  sorted_unique canonical_suffix "internal suffixes must not contain duplicates" values.

Definition build_client (input : ClientInput) : clientConfig + string :=
  match client_interface (CI_Platform input) with
  | None => inr "unsupported client platform"
  | Some interfaceName =>
  match validateNode (CI_Node input) with
  | inr err => inr err
  | inl nodeAddress =>
  match client_tunnel nodeAddress input with
  | inr err => inr err
  | inl tunnel =>
  match canonicalCorporateCIDRs (CI_CorporateCIDRs input) with
  | inr err => inr err
  | inl corporateCIDRs =>
  match canonicalCorporateDNS (CI_CorporateDNS input) with
  | inr err => inr err
  | inl corporateDNS =>
  match canonicalInternalSuffixes (CI_InternalSuffixes input) with
  | inr err => inr err
  | inl internalSuffixes =>
      if negb (bool_decide (internalSuffixes = [])) && bool_decide (corporateDNS = [])
      then inr "corporate DNS is required when internal suffixes are configured"
      else
        let routed := negb (CI_Platform input =?s "darwin") in
        inl (mkClientConfig
          [mkClientInbound "tun" "tun-in" interfaceName [tunAddress] routed routed tunMTU]
          [mkClientOutbound "direct" "direct" "" 0 "" "" "" (directDomainResolverTag corporateDNS); tunnel]
          (mkClientRoute (client_rules nodeAddress (corporateCIDRs ++ map (fun a => a ++s "/32") corporateDNS) internalSuffixes) "tunnel" true)
          (client_dns corporateDNS internalSuffixes))
  end end end end end end.

Definition build_server (input : ServerInput) : serverConfig + string :=
  match validateMethodAndPassword (SI_Method input) (SI_Password input) with
  | inr err => inr err
  | inl (method, password) =>
  match validateListenAddress (SI_Listen input) with
  | Some err => inr err
  | None =>
      if SI_Port input <? 1024 then inr "server port must be 1024 or higher"
      else match parseLoopbackUpstream (SI_Upstream input) with
      | inr err => inr err
      | inl (server, port) =>
          inl (mkServerConfig
            [mkServerInbound "shadowsocks" "server-in" (SI_Listen input) (SI_Port input) "tcp" method password]
            [mkServerOutbound "http" "telecom" server port] (mkRouteConfig [] "telecom"))
      end
  end end.

(** [json.Marshal] of the built values. *)
Context (marshal_client : clientConfig -> string + string) (marshal_server : serverConfig -> string + string).

Definition RenderClient (input : ClientInput) : string + string :=
  match build_client input with inl c => marshal_client c | inr err => inr err end.

Definition RenderServer (input : ServerInput) : string + string :=
  match build_server input with inl c => marshal_server c | inr err => inr err end.

(** [renderClientConfig] of the service: the first node by priority and identifier; the
    method and the password of the credential are not passed on. *)
Definition renderClientConfig (policy : Policy) (_ : string * string) : string + string :=
  match sort_plan_nodes (Nodes policy) with
  | [] => inr "no node is configured"
  | node :: _ =>
      RenderClient (mkClientInput "" node (CorporateCIDRs policy) (CorporateDNS policy) (InternalSuffixes policy) "" "")
  end.
End Render.
