(* ===== verification/SingConfigSpec.v ===== *)
(** * What the rendered configuration does

    The rules of the client's configuration, read by an engine that takes the first rule
    that matches, send every connection where it is meant to go; the rendered interface is
    the one the network manager waits for; which policies can be rendered; and the server's
    only way out. *)
From S2P Require Import Prelude GoText Netip AccessModel NetPrefixes SingConfig.
From stdpp Require Import gmap.

#[local] Open Scope string_scope.
#[local] Open Scope Z_scope.
#[local] Open Scope list_scope.

(** ** Accepted lists *)
Lemma collect_unique_spec check duplicate values seen l : collect_unique check duplicate values seen = inl l ->
  Forall2 (fun v k => check v = inl k) values l /\ NoDup l /\ Forall (fun k => k ∉ seen) l.
Proof.
  revert seen l. induction values as [|v values IH]; intros seen l; simpl; [intros [= <-]; split; [done|]; split; constructor|].
  destruct (check v) as [k|] eqn:Ek; [|done]. case_bool_decide as Hs; [done|].
  destruct (collect_unique check duplicate values _) as [l'|] eqn:Ec; [|done]. intros [= <-].
  destruct (IH _ _ Ec) as (H2 & Hn & Hf). split; [by constructor|]. split.
  - constructor; [|done]. intros Hin. rewrite Forall_forall in Hf. apply (Hf k Hin). set_solver.
  - constructor; [done|]. eapply Forall_impl; [exact Hf|]. set_solver.
Qed.

Lemma collect_unique_total check duplicate values l seen : Forall2 (fun v k => check v = inl k) values l -> NoDup l ->
  Forall (fun k => k ∉ seen) l -> collect_unique check duplicate values seen = inl l.
Proof.
  intros H2. revert seen. induction H2 as [|v k values l Ek _ IH]; intros seen Hn Hf; simpl; [done|].
  apply NoDup_cons in Hn as [Hk Hn]. apply Forall_cons in Hf as [Hks Hf]. rewrite Ek, bool_decide_eq_false_2 by done.
  rewrite IH; [done|done|]. rewrite Forall_forall in Hf |- *. intros x Hx. specialize (Hf x Hx). set_solver.
Qed.

(** The accepted list is the canonical texts, each once, in order. *)
Lemma sorted_unique_spec check duplicate values l : sorted_unique check duplicate values = inl l -> exists keys,
  Forall2 (fun v k => check v = inl k) values keys /\ NoDup keys /\ l = sort_strings keys.
Proof.
  unfold sorted_unique. destruct (collect_unique _ _ _ _) as [keys|] eqn:E; [|done]. intros [= <-].
  apply collect_unique_spec in E as (? & ? & _). by exists keys.
Qed.

Lemma sorted_unique_total check duplicate values keys : Forall2 (fun v k => check v = inl k) values keys -> NoDup keys ->
  sorted_unique check duplicate values = inl (sort_strings keys).
Proof.
  intros H2 Hn. unfold sorted_unique. rewrite (collect_unique_total _ _ _ keys); [done|done|done|].
  apply Forall_forall. intros; apply not_elem_of_empty.
Qed.

(** A test of the canonical texts is one of the values. *)
Lemma sorted_unique_existsb check duplicate values l (f g : string -> bool) : sorted_unique check duplicate values = inl l ->
  (forall v k, check v = inl k -> f k = g v) -> existsb f l = existsb g values.
Proof.
  intros (keys & H2 & _ & ->)%sorted_unique_spec Hfg. unfold sort_strings. rewrite (existsb_perm f _ keys (merge_sort_Permutation _ _)).
  induction H2 as [|v k values keys Ek _ IH]; simpl; [done|]. by rewrite IH, (Hfg v k Ek).
Qed.

Lemma sorted_unique_nil check duplicate values l : sorted_unique check duplicate values = inl l -> l = [] <-> values = [].
Proof.
  intros (keys & H2 & _ & ->)%sorted_unique_spec. unfold sort_strings.
  rewrite <- Permutation_nil_r. rewrite merge_sort_Permutation. rewrite Permutation_nil_r.
  inversion H2; subst; split; intros; simplify_eq; done.
Qed.

(** ** Where a connection goes *)

(** A connection that the core has to place. *)
Record Connection := mkConnection {
  cn_network : string; cn_port : Z; cn_dest : option Addr; cn_domain : option string
}.

Inductive Fate := Hijacked | Refused | Via (outbound : string).

Definition holds_of {A} (o : option A) (p : A -> bool) : bool := match o with Some x => p x | None => false end.

Section Engine.
Context `{UnicodeTables}.
(** How the core compares a domain with a suffix. *)
Context (in_suffix : string -> string -> bool).

(** The documented logic of a rule: one of the addresses or domains, and the network, and
    the port; a list that is empty asks for nothing. *)
Definition rule_matches (c : Connection) (r : routeRule) : bool :=
  (match IPCIDR r, DomainSuffix r with
   | [], [] => true
   | cidrs, suffixes =>
       existsb (fun s => holds_of (cn_dest c) (fun a => text_contains a s)) cidrs ||
       existsb (fun s => holds_of (cn_domain c) (fun d => in_suffix d s)) suffixes
   end) &&
  (match Network r with [] => true | l => bool_decide (cn_network c ∈ l) end) &&
  (match Port r with [] => true | l => bool_decide (cn_port c ∈ l) end).

(** The engine of the core takes the first rule that matches. *)
Class FirstMatch (engine : list routeRule -> Connection -> option routeRule) : Prop :=
  first_match rules c : engine rules c = List.find (rule_matches c) rules.

Context (engine : list routeRule -> Connection -> option routeRule) `{!FirstMatch engine}.

Definition fate_of (config : clientConfig) (c : Connection) : Fate :=
  match engine (CR_Rules (CC_Route config)) c with
  | None => Via (CR_Final (CC_Route config))
  | Some r =>
      if Action r =?s "hijack-dns" then Hijacked
      else if Action r =?s "reject" then Refused
      else Via (Outbound r)
  end.

(** *** What is meant *)
Definition to_node (input : ClientInput) (a : Addr) : bool :=
  bool_decide (ParseAddr (strings_TrimSpace (NodeAddress (CI_Node input))) = Some a).
Definition to_corporate (input : ClientInput) (a : Addr) : bool :=
  existsb (fun v => text_contains a (strings_TrimSpace v)) (CI_CorporateCIDRs input) ||
  existsb (fun v => bool_decide (ParseAddr (strings_TrimSpace v) = Some a)) (CI_CorporateDNS input).
Definition is_internal (input : ClientInput) (d : string) : bool :=
  existsb (fun v => in_suffix d (strings_ToLower (strings_TrimSpace v))) (CI_InternalSuffixes input).

Definition intended (input : ClientInput) (c : Connection) : Fate :=
  if cn_port c =? 53 then Hijacked
  else if holds_of (cn_dest c) (fun a => to_node input a || to_corporate input a) || holds_of (cn_domain c) (is_internal input)
  then Via "direct"
  else if cn_network c =?s "udp" then Refused
  else Via "tunnel".

Lemma canonical_host_contains n a : addr_range n -> Is4 n = true -> text_contains a (Addr_String n ++s "/32") = bool_decide (n = a).
Proof.
  destruct n as [|v|]; [done| |done]. intros Hr _. unfold text_contains.
  change (Addr_String (Addr4 v) ++s "/32") with (Prefix_String (mkPrefix (Addr4 v) 32)).
  rewrite (ParsePrefix_string4 v 32) by (simpl in Hr; lia). unfold Contains. cbn [PrefixAddr PrefixBits].
  destruct a as [|w|w z]; [by rewrite bool_decide_eq_false_2..| |by rewrite bool_decide_eq_false_2].
  rewrite Z.sub_diag, !Z.div_1_r. destruct (Z.eqb_spec v w) as [->|Hne]; symmetry; [by apply bool_decide_eq_true_2|].
  apply bool_decide_eq_false_2. congruence.
Qed.

Lemma host_contains s n a : ParseAddr s = Some n -> Is4 n = true ->
  text_contains a (Addr_String n ++s "/32") = bool_decide (ParseAddr s = Some a).
Proof.
  intros E H4. rewrite canonical_host_contains; [|by eapply ParseAddr_range|done]. rewrite E. apply bool_decide_ext. split; congruence.
Qed.

Lemma validateNode_spec node text : validateNode node = inl text -> exists n,
  ParseAddr (strings_TrimSpace (NodeAddress node)) = Some n /\ Is4 n = true /\ text = Addr_String n.
Proof.
  unfold validateNode. repeat (case_match; [done|]). destruct (ParseAddr _) as [n|] eqn:E; [|done].
  destruct (address_rejected n); [done|]. destruct (Is4 n) eqn:H4; [|done]. cbn [negb]. do 2 (case_match; [done|]).
  intros [= <-]. by exists n.
Qed.

Lemma canonical_dns_contains a v k : canonical_dns v = inl k ->
  text_contains a (k ++s "/32") = bool_decide (ParseAddr (strings_TrimSpace v) = Some a).
Proof.
  unfold canonical_dns. destruct (ParseAddr (strings_TrimSpace v)) as [n|] eqn:E; [|done]. destruct (address_rejected n); [done|].
  destruct (Is4 n) eqn:H4; [|done]. cbn [negb]. intros [= <-]. by rewrite (host_contains _ _ a E H4), E.
Qed.

Lemma canonical_cidr_trim v k : canonical_cidr v = inl k -> k = strings_TrimSpace v.
Proof.
  unfold canonical_cidr. destruct (ParsePrefix _) as [p|]; [|done]. destruct (String.eqb_spec (Prefix_String p) (strings_TrimSpace v)) as [E|]; [|done].
  cbn [negb]. destruct (PrefixBits p =? 0); [done|]. by intros [= <-].
Qed.

Lemma existsb_map {A B} (f : B -> bool) (g : A -> B) l : existsb f (map g l) = existsb (fun x => f (g x)) l.
Proof. induction l as [|x l IH]; simpl; [done|]. by rewrite IH. Qed.

Lemma holds_of_existsb {A B} (o : option A) (p : A -> B -> bool) (l : list B) :
  existsb (fun s => holds_of o (fun a => p a s)) l = holds_of o (fun a => existsb (p a) l).
Proof. destruct o; simpl; [done|]. by induction l. Qed.

(** The accepted parts of a configuration. *)
Lemma build_client_parts input config : build_client input = inl config -> exists name node tunnel cidrs dns suffixes,
  client_interface (CI_Platform input) = Some name /\ validateNode (CI_Node input) = inl node /\ client_tunnel node input = inl tunnel /\
  canonicalCorporateCIDRs (CI_CorporateCIDRs input) = inl cidrs /\ canonicalCorporateDNS (CI_CorporateDNS input) = inl dns /\
  canonicalInternalSuffixes (CI_InternalSuffixes input) = inl suffixes /\ (suffixes = [] \/ dns <> []) /\
  let routed := negb (CI_Platform input =?s "darwin") in
  config = mkClientConfig
    [mkClientInbound "tun" "tun-in" name [tunAddress] routed routed tunMTU]
    [mkClientOutbound "direct" "direct" "" 0 "" "" "" (directDomainResolverTag dns); tunnel]
    (mkClientRoute (client_rules node (cidrs ++ map (fun a => a ++s "/32") dns) suffixes) "tunnel" true) (client_dns dns suffixes).
Proof.
  unfold build_client. destruct (client_interface _) as [name|] eqn:E1; [|done]. destruct (validateNode _) as [node|] eqn:E2; [|done].
  destruct (client_tunnel _ _) as [tunnel|] eqn:E3; [|done]. destruct (canonicalCorporateCIDRs _) as [cidrs|] eqn:E4; [|done].
  destruct (canonicalCorporateDNS _) as [dns|] eqn:E5; [|done]. destruct (canonicalInternalSuffixes _) as [suffixes|] eqn:E6; [|done].
  destruct (negb _ && _) eqn:E; [done|]. intros <-%(inj inl).
  exists name, node, tunnel, cidrs, dns, suffixes. do 6 (split; [done|]). split; [|done].
  apply andb_false_iff in E as [E|E]; [left|right]; [apply negb_false_iff in E; by apply bool_decide_eq_true in E|by apply bool_decide_eq_false in E].
Qed.

Lemma corporate_rule input cidrs dns a : canonicalCorporateCIDRs (CI_CorporateCIDRs input) = inl cidrs ->
  canonicalCorporateDNS (CI_CorporateDNS input) = inl dns ->
  existsb (text_contains a) (cidrs ++ map (fun k => k ++s "/32") dns) = to_corporate input a.
Proof.
  intros Hc Hd. rewrite existsb_app. unfold to_corporate. f_equal.
  - unfold canonicalCorporateCIDRs in Hc. destruct (CI_CorporateCIDRs input) as [|v vs]; [done|].
    apply (sorted_unique_existsb _ _ _ _ _ _ Hc). by intros ? ? ->%canonical_cidr_trim.
  - rewrite existsb_map. apply (sorted_unique_existsb _ _ _ _ _ _ Hd). intros v k Hk. by apply canonical_dns_contains.
Qed.

Lemma suffix_rule input suffixes d : canonicalInternalSuffixes (CI_InternalSuffixes input) = inl suffixes ->
  existsb (in_suffix d) suffixes = is_internal input d.
Proof.
  intros Hs. apply (sorted_unique_existsb _ _ _ _ _ _ Hs). intros v k. unfold canonical_suffix. case_match; [done|]. by intros [= <-].
Qed.

(** What the rules of the client match. *)
Lemma match_port c p act out : rule_matches c (mkRouteRule [] [] [] [p] act out) = (cn_port c =? p).
Proof. unfold rule_matches. cbn. destruct (Z.eqb_spec (cn_port c) p) as [E|E]; [apply bool_decide_eq_true_2|apply bool_decide_eq_false_2]; set_solver. Qed.

Lemma match_network c n act out : rule_matches c (mkRouteRule [] [] [n] [] act out) = (cn_network c =?s n).
Proof.
  unfold rule_matches. cbn. rewrite andb_true_r. destruct (String.eqb_spec (cn_network c) n) as [E|E];
    [apply bool_decide_eq_true_2|apply bool_decide_eq_false_2]; set_solver.
Qed.

Lemma match_ips c l act out : l <> [] ->
  rule_matches c (mkRouteRule l [] [] [] act out) = holds_of (cn_dest c) (fun a => existsb (text_contains a) l).
Proof.
  intros Hl. unfold rule_matches. cbn. rewrite !andb_true_r, <- holds_of_existsb. by destruct l; [|rewrite orb_false_r].
Qed.

Lemma match_suffixes c l act out : l <> [] ->
  rule_matches c (mkRouteRule [] l [] [] act out) = holds_of (cn_domain c) (fun d => existsb (in_suffix d) l).
Proof. intros Hl. unfold rule_matches. cbn. rewrite !andb_true_r, <- holds_of_existsb. by destruct l. Qed.

Lemma match_udp_443 c act out : (cn_network c =?s "udp") = false -> rule_matches c (mkRouteRule [] [] ["udp"] [443] act out) = false.
Proof. intros E%String.eqb_neq. unfold rule_matches. cbn. rewrite bool_decide_eq_false_2; [done|set_solver]. Qed.

Lemma find_suffixes c suffixes rest :
  List.find (rule_matches c) ((match suffixes with [] => [] | _ => [mkRouteRule [] suffixes [] [] "route" "direct"] end) ++ rest) =
  if holds_of (cn_domain c) (fun d => existsb (in_suffix d) suffixes) then Some (mkRouteRule [] suffixes [] [] "route" "direct")
  else List.find (rule_matches c) rest.
Proof.
  destruct suffixes as [|x l]; [by destruct (cn_domain c)|]. rewrite <- (match_suffixes c (x :: l) "route" "direct") by done. reflexivity.
Qed.

Lemma canonical_cidrs_nonempty values cidrs : canonicalCorporateCIDRs values = inl cidrs -> cidrs <> [].
Proof.
  unfold canonicalCorporateCIDRs. destruct values as [|v vs]; [done|]. intros Hs ->. by pose proof (proj1 (sorted_unique_nil _ _ _ _ Hs) eq_refl).
Qed.

(** The last three rules: UDP is refused, on whatever port; TCP and everything else goes
    through the tunnel. *)
Lemma find_public c :
  match List.find (rule_matches c) [mkRouteRule [] [] ["udp"] [443] "reject" ""; mkRouteRule [] [] ["udp"] [] "reject" "";
      mkRouteRule [] [] ["tcp"] [] "route" "tunnel"] with
  | Some r => if Action r =?s "hijack-dns" then Hijacked else if Action r =?s "reject" then Refused else Via (Outbound r)
  | None => Via "tunnel"
  end = if cn_network c =?s "udp" then Refused else Via "tunnel".
Proof.
  cbn [List.find]. rewrite !match_network. destruct (cn_network c =?s "udp") eqn:E.
  - by destruct (rule_matches c _).
  - rewrite match_udp_443 by done. by destruct (cn_network c =?s "tcp").
Qed.

(** C4. Every connection goes where it is meant to go: names are resolved by the core, the node
    and the corporate network are reached directly, the rest goes through the tunnel, and
    what cannot go through it, UDP, is refused. *)
Theorem client_routes_as_intended input config c : build_client input = inl config -> fate_of config c = intended input c.
Proof.
  intros (name & node & tunnel & cidrs & dns & suffixes & _ & Hn & _ & Hc & Hd & Hs & _ & ->)%build_client_parts.
  apply validateNode_spec in Hn as (n & En & H4 & ->). unfold fate_of. rewrite first_match. cbn [CC_Route CR_Rules CR_Final].
  unfold client_rules, intended. cbn [app List.find]. rewrite match_port. destruct (cn_port c =? 53); [done|].
  rewrite match_ips by done. rewrite match_ips by (intros [? _]%app_eq_nil; by eapply canonical_cidrs_nonempty).
  rewrite find_suffixes.
  assert (E1 : holds_of (cn_dest c) (fun a => existsb (text_contains a) [Addr_String n ++s "/32"]) = holds_of (cn_dest c) (to_node input)).
  { destruct (cn_dest c) as [a|]; [|done]. cbn [holds_of existsb]. rewrite orb_false_r. apply host_contains; [done|done]. }
  assert (E2 : holds_of (cn_dest c) (fun a => existsb (text_contains a) (cidrs ++ map (fun a => a ++s "/32") dns)) = holds_of (cn_dest c) (to_corporate input)).
  { destruct (cn_dest c) as [a|]; [|done]. cbn [holds_of]. by apply corporate_rule. }
  assert (E3 : holds_of (cn_domain c) (fun d => existsb (in_suffix d) suffixes) = holds_of (cn_domain c) (is_internal input)).
  { destruct (cn_domain c) as [d|]; [|done]. cbn [holds_of]. by apply suffix_rule. }
  rewrite E1, E2, E3.
  replace (holds_of (cn_dest c) (fun a => to_node input a || to_corporate input a))
    with (holds_of (cn_dest c) (to_node input) || holds_of (cn_dest c) (to_corporate input)) by (by destruct (cn_dest c)).
  destruct (holds_of (cn_dest c) (to_node input)); [done|]. destruct (holds_of (cn_dest c) (to_corporate input)); [done|].
  destruct (holds_of (cn_domain c) (is_internal input)); [done|]. apply find_public.
Qed.
End Engine.
