(* ===== verification/SingConfigAccept.v ===== *)
(** * Which policies and keys are rendered

    The policies of the current schema that pass validation are rendered, those without an
    HTTP node never are; encoded keys of the right length are accepted; the rendered
    interface is the tunnel that the network manager waits for; the server leads only to
    its proxy. *)
From S2P Require Import Prelude GoText Netip AccessModel NetPrefixes SingConfig SingConfigSpec.
From S2P Require NativeNetwork NetworkManager.
From stdpp Require Import gmap pretty.

#[local] Open Scope string_scope.
#[local] Open Scope Z_scope.
#[local] Open Scope list_scope.

(** ** Texts without spaces *)
Definition visible (a : ascii) : bool := (33 <=? byte_val a) && (byte_val a <=? 126).

Lemma runes_visible s : string_all visible s = true -> Forall (fun p => is_space p.1 = false) (runes s).
Proof.
  induction s as [|a s IH]; [constructor|]. cbn [string_all]. intros [Ha Hs]%andb_true_iff. unfold visible in Ha. bool_to_prop.
  cbn [runes]. rewrite (proj2 (Z.ltb_lt (byte_val a) 128)) by lia. constructor; [|auto]. cbn [fst]. unfold is_space. lia.
Qed.

Lemma drop_spaces_none l : Forall (fun p => is_space p.1 = false) l -> drop_spaces l = l.
Proof. destruct 1 as [|[r raw] l E]; [done|]. simpl in *. by rewrite E. Qed.

Lemma TrimSpace_visible s : string_all visible s = true -> strings_TrimSpace s = s.
Proof.
  intros Hs%runes_visible. unfold strings_TrimSpace. rewrite (drop_spaces_none (runes s)) by done.
  rewrite drop_spaces_none by (by apply Forall_rev). rewrite rev_involutive. apply runes_concat.
Qed.

(** *** Addresses and prefixes *)
Lemma digit_visible a : is_digit (byte_val a) = true -> visible a = true.
Proof. unfold is_digit, visible. lia. Qed.

Lemma string_all_digits s : string_all (fun a => is_digit (byte_val a)) s = true -> string_all visible s = true.
Proof. apply string_all_mono. intros a. apply digit_visible. Qed.

Lemma parse4_visible s val digLen done_ l : parse4_fields s val digLen done_ = Some l -> string_all visible s = true.
Proof.
  revert val digLen done_. induction s as [|a s IH]; intros val digLen done_; [done|]. cbn [parse4_fields string_all].
  destruct (is_digit (byte_val a)) eqn:Ed.
  - destruct (_ && _); [done|]. destruct (255 <? _); [done|]. intros Hs%IH. by rewrite Hs, (digit_visible _ Ed).
  - destruct (Z.eqb_spec (byte_val a) 46) as [E|]; [|done]. destruct (_ || _); [done|]. destruct (_ =? 3); [done|].
    intros Hs%IH. rewrite Hs. unfold visible. by rewrite E.
Qed.

Lemma ParseAddr4_visible s v : ParseAddr s = Some (Addr4 v) -> string_all visible s = true.
Proof.
  unfold ParseAddr. destruct (addr_family s =? 4).
  - unfold parseIPv4. destruct (parse4_fields s 0 0 []) eqn:E; [|done]. intros _. by eapply parse4_visible.
  - destruct (addr_family s =? 6); [|done]. intros E. exfalso. unfold parseIPv6 in E. by repeat case_match; simplify_eq.
Qed.

Lemma hex_digit_visible d : 0 <= d < 16 -> string_all visible (hex_digit d) = true.
Proof.
  intros Hd. unfold hex_digit, visible. cbn [string_all]. rewrite andb_true_r. destruct (d <? 10) eqn:E; bool_to_prop; rewrite byte_val_of by lia; lia.
Qed.

Lemma hex16_visible g : 0 <= g < 65536 -> string_all visible (hex16 g) = true.
Proof.
  intros Hg. unfold hex16. rewrite !string_all_app.
  assert (Hmod : forall x, string_all visible (hex_digit (x `mod` 16)) = true) by (intros; apply hex_digit_visible, Z.mod_pos_bound; lia).
  assert (Htop : string_all visible (hex_digit (g / 4096)) = true).
  { apply hex_digit_visible. split; [apply Z.div_pos; lia|apply Z.div_lt_upper_bound; lia]. }
  repeat case_match; rewrite ?Htop, ?Hmod; done.
Qed.

Lemma print6_visible n v zs ze i : string_all visible (print6 n v zs ze i) = true.
Proof.
  assert (Hg : forall j, string_all visible (hex16 (group16 v j)) = true) by (intros; apply hex16_visible, Z.mod_pos_bound; lia).
  revert i. induction n as [|n IH]; intros i; cbn [print6]; [done|]. destruct (8 <=? i)%nat; [done|].
  destruct (i =? zs)%nat; rewrite ?string_all_app; [destruct (8 <=? ze)%nat; rewrite ?string_all_app, ?Hg, ?IH; done|].
  destruct (0 <? i)%nat; cbn [string_all]; rewrite ?Hg, ?IH; reflexivity.
Qed.

Lemma string4_visible v : string_all visible (string4 v) = true.
Proof.
  unfold string4. cbn [map strings_Join]. rewrite !string_all_app.
  assert (Hd : forall x, string_all visible (pretty (x `mod` 256)) = true)
    by (intros; apply string_all_digits, byte_digits, Z.mod_pos_bound; lia).
  by rewrite !Hd.
Qed.

Lemma Prefix_String_visible s p : ParsePrefix s = Some p -> string_all visible (Prefix_String p) = true.
Proof.
  intros Hp%ParsePrefix_range. destruct Hp as (Hr & Hb & Hz). unfold Prefix_String. rewrite !string_all_app.
  assert (H1 : string_all visible (pretty (PrefixBits p)) = true).
  { assert (H : forallb (fun b => string_all visible (pretty b)) (map Z.of_nat (seq 0 129)) = true) by (vm_compute; reflexivity).
    rewrite forallb_forall in H. apply H, in_map_iff. exists (Z.to_nat (PrefixBits p)).
    assert (PrefixBits p <= 128) by (unfold max_bits in Hb; destruct (Is6 _); lia). split; [lia|]. apply in_seq. lia. }
  rewrite H1, !andb_true_r. destruct (PrefixAddr p) as [|v|v z]; [done|apply string4_visible|]. subst z. unfold Addr_String.
  destruct (Is4In6 _); [by rewrite !string_all_app, string4_visible|]. destruct (longest_zeros v). by rewrite string_all_app, print6_visible.
Qed.

(** ** Policies that render *)
Section Accept.
Context `{UnicodeTables}.

Lemma canonical_cidr_valid v k : check_cidr v = inr k -> canonical_cidr v = inl k.
Proof.
  unfold check_cidr, canonical_cidr. destruct (ParsePrefix v) as [p|] eqn:E; [|done].
  destruct (String.eqb_spec (Prefix_String p) v) as [Ep|]; [|done]. cbn [negb].
  rewrite (TrimSpace_visible v) by (rewrite <- Ep; by eapply Prefix_String_visible). rewrite E, Ep, String.eqb_refl. cbn [negb].
  destruct (PrefixBits p =? 0); [done|]. by intros [= <-].
Qed.

(** A resolver that is given by an IPv4 address. *)
Definition ipv4_text (v : string) : bool := match ParseAddr v with Some a => Is4 a | None => false end.

Lemma canonical_dns_valid v k : check_dns v = inr k -> ipv4_text v = true -> canonical_dns v = inl k.
Proof.
  unfold check_dns, canonical_dns, ipv4_text. destruct (ParseAddr v) as [[|a|]|] eqn:E; try done. intros Hk _.
  rewrite (TrimSpace_visible v) by (by eapply ParseAddr4_visible). rewrite E. destruct (address_rejected _); [done|]. cbn [Is4 negb].
  by injection Hk as <-.
Qed.

Lemma Addr_String_approved a : Addr_String a = "172.20.9.15" -> Is4 a = true.
Proof.
  destruct a as [|v|v z]; [done|done|]. intros E. exfalso.
  assert (Hf : addr_family (Addr_String (Addr6 v z)) = 6).
  { unfold Addr_String. destruct (Is4In6 _); [done|]. destruct (longest_zeros v) as [zs ze]. apply addr_family_app, print6_family. }
  by rewrite E in Hf.
Qed.

Lemma validateNode_approved node ep : node_ok schemaVersionHTTP node ep -> exists text, validateNode node = inl text.
Proof.
  intros Hn. pose proof (schema2_node_approved _ _ Hn) as (_ & Ht & Hp & Ha). destruct Hn as [Hid Hc].
  destruct (ParseAddr (NodeAddress node)) as [a|] eqn:E; [|done]. injection Ha as Ha. pose proof (Addr_String_approved _ Ha) as H4.
  assert (Hr : address_rejected a = false). { unfold check_node_endpoint in Hc. rewrite E in Hc. by destruct (address_rejected a). }
  unfold validateNode. rewrite Ht, Hp. cbn [negb andb String.eqb]. apply String.eqb_neq in Hid. rewrite Hid.
  destruct a as [|v|]; [done| |done]. rewrite (TrimSpace_visible _ (ParseAddr4_visible _ _ E)), E, Hr, Ha. by eexists.
Qed.

Lemma Forall2_strengthen {A B} (P Q : A -> B -> Prop) (R : A -> Prop) l k :
  Forall2 P l k -> Forall R l -> (forall x y, P x y -> R x -> Q x y) -> Forall2 Q l k.
Proof. intros H2 HR HPQ. induction H2; inversion HR; subst; constructor; auto. Qed.

(** C36. A valid policy of the current schema is rendered when its resolvers are IPv4 addresses,
    its suffixes have no spaces around them and are not empty in lower case, and it names a
    resolver if it names suffixes. *)
Theorem valid_policies_render policy credential marshal :
  Validate policy = None -> SchemaVersion policy = schemaVersionHTTP ->
  Forall (fun v => ipv4_text v = true) (CorporateDNS policy) ->
  Forall (fun v => strings_TrimSpace v = v /\ strings_ToLower v <> "") (InternalSuffixes policy) ->
  (InternalSuffixes policy = [] \/ CorporateDNS policy <> []) ->
  exists config, renderClientConfig marshal policy credential = marshal config.
Proof.
  intros Hv Hs Hd Hx Hsd. pose proof Hv as Hv'. apply Validate_spec in Hv' as [_ _ _ _ _ (Hne & eps & Hall & _) (Hcne & ck & Hck & Hcn) (dk & Hdk & Hdn) (sk & Hsk & Hsn)].
  rewrite Hs in Hall. unfold renderClientConfig.
  destruct (sort_plan_nodes (Nodes policy)) as [|node rest] eqn:En.
  { exfalso. apply Hne, Permutation_nil. symmetry. rewrite <- En. symmetry. unfold sort_plan_nodes. apply merge_sort_Permutation. }
  assert (Hin : node ∈ Nodes policy) by (rewrite <- (merge_sort_Permutation (cmp_le plan_node_cmp)); change (node ∈ sort_plan_nodes (Nodes policy)); rewrite En; by left).
  apply list_elem_of_lookup in Hin as [i Hi]. destruct (Forall2_lookup_l _ _ _ _ _ Hall Hi) as (ep & _ & Hep).
  destruct (validateNode_approved _ _ Hep) as [text Ht]. pose proof (schema2_node_approved _ _ Hep) as (_ & Hhttp & _).
  assert (Ec : canonicalCorporateCIDRs (CorporateCIDRs policy) = inl (sort_strings ck)).
  { unfold canonicalCorporateCIDRs. destruct (CorporateCIDRs policy) as [|v vs]; [done|]. apply sorted_unique_total; [|done].
    eapply Forall2_impl; [exact Hck|]. apply canonical_cidr_valid. }
  assert (Ed : canonicalCorporateDNS (CorporateDNS policy) = inl (sort_strings dk)).
  { apply sorted_unique_total; [|done]. eapply Forall2_strengthen; [exact Hdk|exact Hd|]. apply canonical_dns_valid. }
  assert (Es : canonicalInternalSuffixes (InternalSuffixes policy) = inl (sort_strings sk)).
  { apply sorted_unique_total; [|done]. eapply Forall2_strengthen; [exact Hsk|exact Hx|]. intros v k Hk [Htr Hl].
    unfold key_of, check_suffix in Hk. unfold canonical_suffix. rewrite Htr. rewrite (proj2 (String.eqb_neq _ _) Hl).
    destruct (strings_TrimSpace v =?s ""); [done|]. by injection Hk as <-. }
  unfold RenderClient, build_client. cbn [CI_Platform CI_Node CI_CorporateCIDRs CI_CorporateDNS CI_InternalSuffixes client_interface String.eqb orb].
  rewrite Ht. unfold client_tunnel. cbn [CI_Node]. rewrite Hhttp. cbn [String.eqb]. rewrite Ec, Ed, Es.
  match goal with |- context [if ?t then inr _ else _] => assert (E : t = false) end.
  { apply andb_false_iff. destruct Hsd as [Hsd|Hsd]; [left|right].
    - apply negb_false_iff, bool_decide_eq_true_2. apply (sorted_unique_nil _ _ _ _ Es). done.
    - apply bool_decide_eq_false_2. intros E. apply Hsd. by apply (sorted_unique_nil _ _ _ _ Ed). }
  rewrite E. by eexists.
Qed.
End Accept.
