(* ===== verification/SingConfigKeys.v ===== *)
(** * Keys, the tunnel's interface and the server's only way out

    Base64 against its encoder, the keys that are accepted, the interface that the rendered
    configuration makes against the one the network manager waits for, what the service can
    render at all, and where the server leads. *)
From S2P Require Import Prelude GoText Netip AccessModel NetPrefixes SingConfig SingConfigSpec SingConfigAccept.
From S2P Require NativeNetwork NetworkManager NetworkDemo.
From stdpp Require Import gmap pretty.

#[local] Open Scope string_scope.
#[local] Open Scope Z_scope.
#[local] Open Scope list_scope.

(** ** Base64 *)

(** [base64.StdEncoding.EncodeToString], the reference for the decoder. *)
Definition base64_char (i : Z) : ascii :=
  byte_of (if i <? 26 then i + 65 else if i <? 52 then i + 71 else if i <? 62 then i - 4 else if i =? 62 then 43 else 47).

Fixpoint base64_chars (l : list Z) : list ascii :=
  match l with
  | [] => []
  | [x] => [base64_char (x / 4); base64_char (x `mod` 4 * 16); byte_of 61; byte_of 61]
  | [x; y] => [base64_char (x / 4); base64_char (x `mod` 4 * 16 + y / 16); base64_char (y `mod` 16 * 4); byte_of 61]
  | x :: y :: z :: rest =>
      base64_char (x / 4) :: base64_char (x `mod` 4 * 16 + y / 16) :: base64_char (y `mod` 16 * 4 + z / 64) ::
      base64_char (z `mod` 64) :: base64_chars rest
  end.

Definition base64_EncodeToString (l : list Z) : string := String.string_of_list_ascii (base64_chars l).

Definition is_octet (x : Z) : bool := (0 <=? x) && (x <? 256).

(** A letter of the alphabet: its value comes back, and it is neither padding nor a line end. *)
Definition letter_ok (i : Z) : bool :=
  bool_decide (base64_value (base64_char i) = Some i) && negb (is_pad (base64_char i)) && negb (line_end (base64_char i)) &&
  visible (base64_char i).

Lemma letters_ok i : 0 <= i < 64 -> letter_ok i = true.
Proof.
  assert (H : forallb letter_ok (map Z.of_nat (seq 0 64)) = true) by (vm_compute; reflexivity).
  rewrite forallb_forall in H. intros Hi. apply H, in_map_iff. exists (Z.to_nat i). rewrite in_seq. lia.
Qed.

Lemma letter_value i : 0 <= i < 64 -> base64_value (base64_char i) = Some i /\ is_pad (base64_char i) = false.
Proof.
  intros Hi%letters_ok. unfold letter_ok in Hi. rewrite !andb_true_iff, !negb_true_iff in Hi.
  destruct Hi as [[[Hv%bool_decide_eq_true Hp] _] _]. done.
Qed.

Lemma pad_ok : is_pad (byte_of 61) = true.
Proof. reflexivity. Qed.

(** The bounds of the sextets. *)
Ltac octets := unfold is_octet in *; bool_to_prop; Z.div_mod_to_equations; lia.

Lemma triple_ind (P : list Z -> Prop) : P [] -> (forall x, P [x]) -> (forall x y, P [x; y]) ->
  (forall x y z l, P l -> P (x :: y :: z :: l)) -> forall l, P l.
Proof.
  intros H0 Hx1 Hx2 H3. assert (Hall : forall l, P l /\ (forall x, P (x :: l)) /\ (forall x y, P (x :: y :: l))).
  { induction l as [|z l (IH1 & IH2 & IH3)]; [auto|]. repeat split; auto. }
  intros l. apply Hall.
Qed.

Lemma base64_groups_chars l : Forall (fun x => is_octet x = true) l -> base64_groups (base64_chars l) = Some l.
Proof.
  induction l as [|x|x y|x y z l IH] using triple_ind; intros Hl; [done|..];
    repeat match goal with H : Forall _ (_ :: _) |- _ => apply Forall_cons in H as [? H] end;
    cbn [base64_chars base64_groups].
  - destruct (letter_value (x / 4)) as [-> _]; [octets|]. destruct (letter_value (x `mod` 4 * 16)) as [-> _]; [octets|].
    cbn [mbind option_bind]. rewrite pad_ok. repeat f_equal. octets.
  - destruct (letter_value (x / 4)) as [-> _]; [octets|]. destruct (letter_value (x `mod` 4 * 16 + y / 16)) as [-> _]; [octets|].
    destruct (letter_value (y `mod` 16 * 4)) as [-> ->]; [octets|]. cbn [mbind option_bind]. rewrite pad_ok. repeat f_equal; octets.
  - destruct (letter_value (x / 4)) as [-> _]; [octets|]. destruct (letter_value (x `mod` 4 * 16 + y / 16)) as [-> _]; [octets|].
    destruct (letter_value (y `mod` 16 * 4 + z / 64)) as [-> ->]; [octets|].
    destruct (letter_value (z `mod` 64)) as [-> ->]; [octets|]. cbn [mbind option_bind]. rewrite (IH Hl). cbn [mbind option_bind].
    repeat f_equal; octets.
Qed.

Definition plain_char (a : ascii) : Prop := line_end a = false /\ visible a = true.

Lemma base64_chars_plain l : Forall (fun x => is_octet x = true) l -> Forall plain_char (base64_chars l).
Proof.
  assert (Hc : forall i, 0 <= i < 64 -> plain_char (base64_char i)).
  { intros i Hi%letters_ok. unfold letter_ok in Hi. rewrite !andb_true_iff, !negb_true_iff in Hi. by destruct Hi as [[_ ?] ?]. }
  assert (Hp : plain_char (byte_of 61)) by done.
  induction l as [|x|x y|x y z l IH] using triple_ind; intros Hl; [constructor|..];
    repeat match goal with H : Forall _ (_ :: _) |- _ => apply Forall_cons in H as [? H] end;
    cbn [base64_chars]; repeat (constructor; [first [apply Hc; octets|exact Hp]|]); auto.
Qed.

Lemma filter_all {A} (p : A -> bool) l : Forall (fun a => p a = true) l -> List.filter p l = l.
Proof. induction 1 as [|a l E _ IH]; simpl; [done|]. by rewrite E, IH. Qed.

Lemma base64_roundtrip l : Forall (fun x => is_octet x = true) l -> base64_DecodeString (base64_EncodeToString l) = Some l.
Proof.
  intros Hl. unfold base64_DecodeString, base64_EncodeToString. rewrite String.list_ascii_of_string_of_list_ascii, filter_all.
  - by apply base64_groups_chars.
  - eapply Forall_impl; [by apply base64_chars_plain|]. intros a [E _]. by rewrite E.
Qed.

Lemma string_all_list (p : ascii -> bool) l : Forall (fun a => p a = true) l -> string_all p (String.string_of_list_ascii l) = true.
Proof. induction 1 as [|a l E _ IH]; [done|]. simpl. by rewrite E, IH. Qed.

Lemma base64_encode_visible l : Forall (fun x => is_octet x = true) l -> string_all visible (base64_EncodeToString l) = true.
Proof. intros Hl. apply string_all_list. eapply Forall_impl; [by apply base64_chars_plain|]. by intros a [_ E]. Qed.

Lemma key_length_positive method n : shadowsocks2022KeyLengths method = Some n -> 0 < n.
Proof. unfold shadowsocks2022KeyLengths. repeat case_match; intros; simplify_eq; lia. Qed.

(** An encoded key is accepted for a method exactly when it is as long as the method asks,
    and then comes back as it was given; the empty method is the default one. *)
Theorem encoded_keys_are_accepted method n key : shadowsocks2022KeyLengths method = Some n ->
  Forall (fun x => is_octet x = true) key ->
  base64_DecodeString (base64_EncodeToString key) = Some key /\
  (validateMethodAndPassword method (base64_EncodeToString key) = inl (method, base64_EncodeToString key) <-> Z.of_nat (length key) = n) /\
  (n = 16 -> method = DefaultMethod -> validateMethodAndPassword "" (base64_EncodeToString key) = validateMethodAndPassword method (base64_EncodeToString key)).
Proof.
  intros Hm Hk. pose proof (base64_roundtrip key Hk) as Hr. split; [done|].
  assert (Ht : strings_TrimSpace method = method).
  { unfold shadowsocks2022KeyLengths in Hm. repeat match type of Hm with context [String.eqb ?a ?b] => destruct (String.eqb_spec a b) as [->|] end; by try vm_compute. }
  assert (Hb : (method =?s "") = false) by (destruct (String.eqb_spec method "") as [->|]; done).
  split; [|intros _ ->; reflexivity]. unfold validateMethodAndPassword.
  rewrite Ht, Hb, Hm, (TrimSpace_visible _ (base64_encode_visible key Hk)), Hr.
  pose proof (key_length_positive _ _ Hm). destruct (String.eqb_spec (base64_EncodeToString key) "") as [E|_].
  - rewrite E in Hr. injection Hr as <-. simpl. split; [done|lia].
  - destruct (Z.eqb_spec (Z.of_nat (length key)) n); cbn [negb]; [done|]. done.
Qed.

(** ** The server *)

(** An accepted key is as long as its method asks. *)
Lemma validateMethodAndPassword_spec m p method password : validateMethodAndPassword m p = inl (method, password) ->
  exists key n, shadowsocks2022KeyLengths method = Some n /\ base64_DecodeString password = Some key /\ Z.of_nat (length key) = n.
Proof.
  unfold validateMethodAndPassword. generalize (if strings_TrimSpace m =?s "" then DefaultMethod else strings_TrimSpace m) (strings_TrimSpace p).
  intros used text. destruct (shadowsocks2022KeyLengths used) as [n|] eqn:En; [|done]. destruct (text =?s ""); [done|].
  destruct (base64_DecodeString text) as [key|] eqn:Ek; [|done]. destruct (Z.eqb_spec (Z.of_nat (length key)) n) as [El|]; [|done].
  cbn [negb]. intros [= <- <-]. by exists key, n.
Qed.

(** A server that renders speaks Shadowsocks over TCP with a key of the method's length,
    listens on an unprivileged port, and has one way out, the proxy of its own host, to
    which every connection goes. *)
Theorem server_leads_only_to_the_proxy input config : build_server input = inl config ->
  SC_Outbounds config = [mkServerOutbound "http" "telecom" "127.0.0.1" 8080] /\ SC_Route config = mkRouteConfig [] "telecom" /\
  exists inbound key n, SC_Inbounds config = [inbound] /\ SIn_Type inbound = "shadowsocks" /\ SIn_Network inbound = "tcp" /\
    1024 <= SIn_ListenPort inbound /\ shadowsocks2022KeyLengths (SIn_Method inbound) = Some n /\
    base64_DecodeString (SIn_Password inbound) = Some key /\ Z.of_nat (length key) = n.
Proof.
  unfold build_server. destruct (validateMethodAndPassword _ _) as [[method password]|] eqn:Em; [|done].
  destruct (validateListenAddress _); [done|]. destruct (Z.ltb_spec (SI_Port input) 1024); [done|].
  destruct (parseLoopbackUpstream _) as [[server port]|] eqn:Eu; [|done]. intros <-%(inj inl). cbn [SC_Outbounds SC_Route SC_Inbounds].
  assert (Hu : server = "127.0.0.1" /\ port = 8080).
  { unfold parseLoopbackUpstream in Eu. destruct (SplitHostPort _) as [[host text]|]; [|done]. destruct (ParseAddr host) as [a|]; [|done].
    destruct (String.eqb_spec (Addr_String a) "127.0.0.1") as [E|]; [|done]. cbn [negb] in Eu. destruct (negb _); [done|].
    injection Eu as <- <-. done. }
  destruct Hu as [-> ->]. apply validateMethodAndPassword_spec in Em as (key & n & Hk).
  split; [done|]. split; [done|]. eexists _, key, n. split; [reflexivity|].
  cbn [SIn_Type SIn_Network SIn_ListenPort SIn_Method SIn_Password]. do 3 (split; [done|]). exact Hk.
Qed.

(** ** The client of the service *)
Section Service.
Context `{UnicodeTables}.
Implicit Types (policy : Policy) (credential : string * string).

(** What the service renders is built from the first node of the policy, which it reaches
    as an HTTP proxy. *)
Lemma service_input marshal policy credential rendered : renderClientConfig marshal policy credential = inl rendered ->
  exists node config, node ∈ Nodes policy /\ Forall (fun other => plan_node_cmp node other <> Gt) (Nodes policy) /\
    build_client (mkClientInput "" node (CorporateCIDRs policy) (CorporateDNS policy) (InternalSuffixes policy) "" "") = inl config /\
    marshal config = inl rendered.
Proof.
  unfold renderClientConfig. destruct (sort_plan_nodes (Nodes policy)) as [|node rest] eqn:En; [done|].
  unfold RenderClient. destruct (build_client _) as [config|] eqn:Eb; [|done]. intros Hm. exists node, config.
  pose proof (merge_sort_Permutation (cmp_le plan_node_cmp) (Nodes policy)) as Hp. change (merge_sort _ _) with (sort_plan_nodes (Nodes policy)) in Hp.
  rewrite En in Hp. split; [rewrite <- Hp; by left|]. split; [|done]. rewrite <- Hp.
  assert (Hs : StronglySorted (cmp_le plan_node_cmp) (node :: rest)) by (rewrite <- En; unfold sort_plan_nodes; apply StronglySorted_merge_sort; apply _).
  apply StronglySorted_inv in Hs as [_ Hf]. constructor; [by rewrite (cmp_refl (c := plan_node_cmp))|].
  eapply Forall_impl; [exact Hf|]. intros other. by apply cmp_le_iff, _.
Qed.

(** The service has no key to give, so only a node without one is rendered. *)
Lemma keyless_node_is_http text tunnel input : validateNode (CI_Node input) = inl text -> client_tunnel text input = inl tunnel ->
  CI_Method input = "" -> CI_Password input = "" ->
  NodeTransport (CI_Node input) = "http-connect" /\ tunnel = mkClientOutbound "http" "tunnel" "172.20.9.15" 8080 "" "" "" "".
Proof.
  intros Hn Ht Hm Hp. revert Hn Ht. unfold client_tunnel, validateNode. rewrite Hm, Hp. destruct (String.eqb_spec (NodeTransport (CI_Node input)) "") as [E|Hne]; [done|].
  destruct (String.eqb_spec (NodeTransport (CI_Node input)) "http-connect") as [->|_]; [|done]. cbn [negb andb].
  destruct (strings_TrimSpace _ =?s ""); [done|]. destruct (ParseAddr _) as [a|]; [|done]. destruct (address_rejected a); [done|].
  destruct (negb (Is4 a)); [done|]. destruct (_ <? 1024); [done|].
  destruct (String.eqb_spec (Addr_String a) "172.20.9.15") as [Ea|]; [|done]. destruct (Z.eqb_spec (NodePort (CI_Node input)) 8080) as [Ep|]; [|done].
  cbn. rewrite Ea, Ep. by intros [= <-] [= <-].
Qed.

(** C35. Whatever the policy and the credential, a configuration that the service renders makes
    the one tunnel, takes every route, and reaches the node of the least priority as an HTTP
    proxy at the approved address: it holds no key. *)
Theorem service_reaches_only_the_proxy marshal policy credential rendered : renderClientConfig marshal policy credential = inl rendered ->
  exists node config, node ∈ Nodes policy /\ Forall (fun other => plan_node_cmp node other <> Gt) (Nodes policy) /\
    NodeTransport node = "http-connect" /\ marshal config = inl rendered /\
    CC_Inbounds config = [mkClientInbound "tun" "tun-in" NetworkManager.windowsTUNInterface [NetworkManager.windowsTUNAddress] true true 1420] /\
    exists resolver, CC_Outbounds config =
      [mkClientOutbound "direct" "direct" "" 0 "" "" "" resolver; mkClientOutbound "http" "tunnel" "172.20.9.15" 8080 "" "" "" ""].
Proof.
  intros (node & config & Hin & Hmin & Hb & Hm)%service_input. exists node, config.
  apply build_client_parts in Hb as (name & text & tunnel & cidrs & dns & suffixes & Hname & Hn & Ht & _ & _ & _ & _ & ->).
  injection Hname as <-. destruct (keyless_node_is_http _ _ _ Hn Ht eq_refl eq_refl) as [Hh ->].
  do 5 (split; [done|]). by eexists.
Qed.

(** A node of the older schema is never rendered: its key is not passed on. *)
Lemma shadowsocks_is_never_rendered marshal policy credential : Forall (fun node => NodeTransport node = "") (Nodes policy) ->
  exists err, renderClientConfig marshal policy credential = inr err.
Proof.
  intros Hall. destruct (renderClientConfig marshal policy credential) as [rendered|err] eqn:E; [|by exists err]. exfalso.
  apply service_input in E as (node & config & Hin & _ & Hb & _). rewrite Forall_forall in Hall. apply Hall in Hin.
  apply build_client_parts in Hb as (name & text & tunnel & cidrs & dns & suffixes & _ & Hn & Ht & _).
  destruct (keyless_node_is_http _ _ _ Hn Ht eq_refl eq_refl) as [Hh _]. cbn [CI_Node] in Hh. congruence.
Qed.

(** A policy with a resolver and without suffixes gets a rule for the resolver that asks
    for nothing, before the rule of the fake addresses. *)
Lemma resolver_rule_without_condition input config : build_client input = inl config ->
  CI_CorporateDNS input <> [] -> CI_InternalSuffixes input = [] ->
  exists rest, CD_Rules (CC_DNS config) = mkDnsRule [] [] "route" "corp-dns" :: rest.
Proof.
  intros (name & text & tunnel & cidrs & dns & suffixes & _ & _ & _ & _ & Hd & Hs & _ & ->)%build_client_parts Hne Hx.
  apply sorted_unique_nil in Hs as Hs'. apply sorted_unique_nil in Hd as Hd'. rewrite (proj2 Hs' Hx).
  destruct dns as [|first dns]; [by destruct Hne; apply Hd'|]. by eexists.
Qed.
End Service.

Lemma EqualFold_refl `{NativeNetwork.FoldTables} s : NativeNetwork.strings_EqualFold s s = true.
Proof. by apply bool_decide_eq_true_2. Qed.

(** The adapter of the rendered interface is the one that the network manager takes for its
    own, unless an adapter with its identifier was there before. *)
Theorem rendered_tunnel_is_recognised `{UnicodeTables, NativeNetwork.FoldTables} input config inbound index luid guid status dns automatic description baseline others :
  build_client input = inl config -> CI_Platform input = "windows" -> CC_Inbounds config = [inbound] ->
  0 < index -> NativeNetwork.blank guid = false ->
  let adapter := NativeNetwork.mkHelperAdapter index luid guid (CIn_InterfaceName inbound) status dns automatic (CIn_Address inbound) description in
  exists tun, NetworkManager.find_tun NetworkManager.windowsTUNInterface (NativeNetwork.before_slash NetworkManager.windowsTUNAddress) (adapter :: others) = Some tun /\
    NetworkManager.TI_InterfaceGuid tun = guid /\ NetworkManager.TI_InterfaceIndex tun = index /\
    (NetworkManager.validateTUNIdentity tun baseline = None <-> Forall (fun known => NativeNetwork.strings_EqualFold known guid = false) baseline).
Proof.
  intros (name & text & tunnel & cidrs & dns' & suffixes & Hname & _ & _ & _ & _ & _ & _ & ->)%build_client_parts Hp.
  rewrite Hp in Hname. injection Hname as <-. cbn [CC_Inbounds]. intros [= <-] Hi Hg. cbn [CIn_InterfaceName CIn_Address]. cbv zeta.
  eexists. split.
  - cbn [NetworkManager.find_tun NativeNetwork.HA_InterfaceAlias NativeNetwork.HA_IPAddresses].
    rewrite (EqualFold_refl tunInterfaceName). cbn [negb]. reflexivity.
  - cbn [NetworkManager.TI_InterfaceGuid NetworkManager.TI_InterfaceIndex]. do 2 (split; [done|]).
    unfold NetworkManager.validateTUNIdentity. cbn [NetworkManager.TI_InterfaceGuid NetworkManager.TI_InterfaceIndex NetworkManager.TI_InterfaceAlias NetworkManager.TI_Addresses
      NativeNetwork.HA_InterfaceIndex NativeNetwork.HA_InterfaceGuid NativeNetwork.HA_InterfaceAlias NativeNetwork.HA_IPAddresses].
    rewrite Hg, (proj2 (Z.leb_gt index 0) Hi). cbn [orb].
    change (negb (tunInterfaceName =?s NetworkManager.windowsTUNInterface)) with false. cbn [orb].
    change (tunAddress =?s NetworkManager.windowsTUNAddress) with true. cbv iota.
    rewrite Forall_forall. destruct (existsb _ baseline) eqn:E; [split; [done|]|split; [intros _|done]].
    + apply existsb_exists in E as (known & Hin & Hk). intros Hall. rewrite <- list_elem_of_In in Hin. by rewrite (Hall _ Hin) in Hk.
    + intros known Hin. rewrite list_elem_of_In in Hin. destruct (NativeNetwork.strings_EqualFold known guid) eqn:Ek; [|done].
      rewrite <- E. symmetry. apply existsb_exists. by exists known.
Qed.
