(* ===== verification/SingConfigDemo.v ===== *)
(** * The rendered configuration on concrete inputs *)
From S2P Require Import Prelude GoText Netip AccessModel NetPrefixes SingConfig SingConfigSpec SingConfigAccept SingConfigKeys.
From S2P Require NativeNetwork NetworkManager NetworkDemo.
From stdpp Require Import gmap pretty.

#[local] Open Scope string_scope.
#[local] Open Scope Z_scope.
#[local] Open Scope list_scope.

#[local] Existing Instance NetworkDemo.ascii_folding.

(** The engine itself, and a comparison of names that takes the suffix alone. *)
Definition demo_engine (rules : list routeRule) (c : Connection) : option routeRule :=
  List.find (rule_matches String.eqb c) rules.
Definition demo_proxy : Node := mkNode "vm101" "http-connect" "172.20.9.15" 8080 1.
Definition demo_input (platform : string) : ClientInput :=
  mkClientInput platform demo_proxy ["172.20.0.0/16"] ["172.20.10.1"] ["corp.example"] "" "".
Definition demo_marshal (c : clientConfig) : string + string := inl (string_concat (map COut_Server (CC_Outbounds c))).
Definition demo_config : clientConfig :=
  match build_client (demo_input "windows") with inl c => c | inr _ => mkClientConfig [] [] (mkClientRoute [] "" false) (mkClientDNS [] [] "" false) end.

#[export] Instance demo_first_match : FirstMatch String.eqb demo_engine.
Proof. done. Qed.

Example demo_fates : map (fate_of demo_engine demo_config)
  [mkConnection "udp" 53 None None; mkConnection "udp" 443 (ParseAddr "172.20.9.15") None; mkConnection "tcp" 443 (ParseAddr "172.20.1.1") None;
   mkConnection "udp" 443 (ParseAddr "93.184.216.34") None; mkConnection "tcp" 443 (ParseAddr "93.184.216.34") None;
   mkConnection "tcp" 443 None (Some "corp.example")] =
  [Hijacked; Via "direct"; Via "direct"; Refused; Via "tunnel"; Via "direct"].
Proof. vm_compute. reflexivity. Qed.

Lemma client_routes_as_intended_witness :
  fate_of demo_engine demo_config (mkConnection "udp" 443 (ParseAddr "93.184.216.34") None) = Refused.
Proof.
  rewrite (client_routes_as_intended String.eqb demo_engine (demo_input "windows") demo_config) by (vm_compute; reflexivity).
  vm_compute. reflexivity.
Defined.

Lemma valid_policies_render_witness : Validate demo_http = None /\
  exists config, renderClientConfig demo_marshal demo_http ("", "") = demo_marshal config.
Proof.
  split; [vm_compute; reflexivity|].
  apply (valid_policies_render demo_http ("", "") demo_marshal);
    [vm_compute; reflexivity|reflexivity|constructor|constructor|by left].
Defined.

Lemma encoded_keys_are_accepted_witness :
  validateMethodAndPassword DefaultMethod (base64_EncodeToString (map Z.of_nat (seq 240 16))) =
    inl (DefaultMethod, base64_EncodeToString (map Z.of_nat (seq 240 16))).
Proof.
  destruct (encoded_keys_are_accepted DefaultMethod 16 (map Z.of_nat (seq 240 16))) as (_ & H & _);
    [reflexivity|repeat (constructor; [reflexivity|]); constructor|].
  apply H. reflexivity.
Defined.

Definition demo_server : ServerInput := mkServerInput "0.0.0.0" 18443 "" "MDEyMzQ1Njc4OWFiY2RlZg==" "127.0.0.1:8080".

Lemma server_leads_only_to_the_proxy_witness : exists config, build_server demo_server = inl config /\
  SC_Outbounds config = [mkServerOutbound "http" "telecom" "127.0.0.1" 8080].
Proof.
  eexists. split; [vm_compute; reflexivity|].
  refine (proj1 (server_leads_only_to_the_proxy demo_server _ _)). vm_compute. reflexivity.
Defined.

Lemma service_reaches_only_the_proxy_witness : exists rendered, renderClientConfig demo_marshal demo_http ("m", "p") = inl rendered /\
  exists node, node ∈ Nodes demo_http /\ NodeTransport node = "http-connect".
Proof.
  eexists. split; [vm_compute; reflexivity|].
  destruct (service_reaches_only_the_proxy demo_marshal demo_http ("m", "p") "172.20.9.15") as (node & config & Hin & _ & Ht & _);
    [vm_compute; reflexivity|]. exists node. split; [exact Hin|exact Ht].
Defined.

Lemma rendered_tunnel_is_recognised_witness : exists tun,
  NetworkManager.find_tun NetworkManager.windowsTUNInterface "172.19.0.1"
    [NativeNetwork.mkHelperAdapter 30 3000 "{T9}" "RegenBioOverseasAccess" "Up" [] true ["172.19.0.1/30"] "sing-tun Tunnel"] = Some tun /\
  NetworkManager.validateTUNIdentity tun ["{E1}"] = None.
Proof.
  destruct (rendered_tunnel_is_recognised (demo_input "windows") demo_config
    (mkClientInbound "tun" "tun-in" "RegenBioOverseasAccess" ["172.19.0.1/30"] true true 1420)
    30 3000 "{T9}" "Up" [] true "sing-tun Tunnel" ["{E1}"] []) as (tun & Hf & _ & _ & Hv);
    [vm_compute; reflexivity..|]. exists tun. split; [exact Hf|]. apply Hv. repeat (constructor; [vm_compute; reflexivity|]). constructor.
Defined.
