(* ===== verification/CoreVerify.v ===== *)
(** * The check of the core's executable ([internal/coreverify])

    [VerifyEvidence] opens the file without following links and checks its header, its
    pinned hash, its owner and access list and its signature; [CachedVerifier] repeats the
    check only when the identity of the file has changed.  The calls to the system are the
    operations of a class over a world [W]. *)
From S2P Require Import Prelude GoText AccessModel Netip NativeNetwork.
From stdpp Require Import gmap pretty.

#[local] Open Scope string_scope.
#[local] Open Scope Z_scope.
#[local] Open Scope list_scope.

(** ** Data *)
Definition adminsSID := "S-1-5-32-544".
Definition systemSID := "S-1-5-18".

Record securityMetadata := mkSecurity { OwnerSID : string; UnsafeWriteSIDs : list string; UnsafeWriteNames : list string }.
Record signatureMetadata := mkSignature { Sig_Status : string; Sig_Subject : string; Sig_Thumbprint : string }.

Record FileIdentity := mkIdentity {
  VolumeSerialNumber : Z; FileIndex : Z; FileSize : Z; LastWriteTime : Z; ChangeTime : Z; FileAttributes : Z
}.
#[export] Instance FileIdentity_eq_dec : EqDecision FileIdentity.
Proof. solve_decision. Defined.

Record Evidence := mkEvidence {
  Identity : FileIdentity; SHA256 : string; AuthenticodeStatus : string; AuthenticodeSubject : string; AuthenticodeThumbprint : string
}.

Record cachedEvidence := mkCached { cached_path : string; cached_evidence : Evidence }.
Record CachedVerifier := mkVerifier {
  expectedSHA256 : string; signerAllowlist : list string; cached : option cachedEvidence
}.

(** What the system says of a path and of an open file. *)
Record FileInfo := mkFileInfo { FI_IsDir : bool; FI_Symlink : bool }.
Record HandleInfo := mkHandleInfo {
  HI_FileAttributes : Z; HI_VolumeSerialNumber : Z; HI_FileSizeHigh : Z; HI_FileSizeLow : Z; HI_FileIndexHigh : Z; HI_FileIndexLow : Z
}.
Record BasicInfo := mkBasicInfo { BI_LastWriteTime : Z; BI_ChangeTime : Z; BI_FileAttributes : Z }.

Definition FILE_ATTRIBUTE_DIRECTORY : Z := 16.
Definition FILE_ATTRIBUTE_REPARSE_POINT : Z := 1024.

(** ** The system *)
Class CoreSystem (W : Type) := {
  os_Lstat : string -> StateM W (FileInfo + string);
  filepath_Clean : string -> string;
  UTF16PtrFromString : string -> option string;
  CreateFile : string -> StateM W (Z + string);
  os_NewFile : Z -> bool;
  close_file : Z -> StateM W unit;
  GetFileInformationByHandle : Z -> StateM W (HandleInfo + string);
  GetFileBasicInfo : Z -> StateM W (BasicInfo + string);
  io_ReadFull : Z -> nat -> StateM W (list Z + string);
  file_ReadAt : Z -> nat -> Z -> StateM W (list Z + string);
  file_SeekStart : Z -> StateM W (unit + string);
  io_Copy : Z -> StateM W (list Z + string);
  sha256_Sum : list Z -> list Z;
  inspectSecurity : string -> StateM W (securityMetadata + string);
  inspectAuthenticode : string -> StateM W (signatureMetadata + string)
}.

(** A body that returns a value or an error. *)
Definition attempt {W A B} (m : StateM W (A + string)) (f : A -> StateM W (B + string)) : StateM W (B + string) :=
  r ← m; match r with inl x => f x | inr err => mret (inr err) end.

Definition refuse {W A} (err : string) : StateM W (A + string) := mret (inr err).

(** [fmt.Errorf("prefix: %w", err)] *)
Definition wrap_error {W A} (prefix : string) (m : StateM W (A + string)) : StateM W (A + string) :=
  r ← m; mret (match r with inl x => inl x | inr err => inr (prefix ++s ": " ++s err) end).

Notation "'try' x ':=' m 'in' k" := (attempt m (fun x => k)) (at level 10, x pattern, m at level 100, k at level 200).

(** ** Texts *)
Definition hex_EncodeToString (l : list Z) : string :=
  string_concat (map (fun b => hex_digit (b / 16) ++s hex_digit (b `mod` 16)) l).

Definition is_hex_digit (a : ascii) : bool :=
  let b := byte_val a in
  ((48 <=? b) && (b <=? 57)) || ((97 <=? b) && (b <=? 102)) || ((65 <=? b) && (b <=? 70)).

(** [hex.DecodeString] of an even number of characters fails on anything but digits. *)
Definition hex_decodes (s : string) : bool := string_all is_hex_digit s.

Definition LittleEndian_Uint32 (l : list Z) : Z :=
  match l with [b0; b1; b2; b3] => b0 + b1 * 256 + b2 * 65536 + b3 * 16777216 | _ => 0 end.

(** [int64(uint64(high)<<32 | uint64(low))] *)
Definition join32 (high low : Z) : Z := Z.lor (Z.shiftl high 32) low.
Definition to_int64 (z : Z) : Z := if z <? 2 ^ 63 then z else z - 2 ^ 64.

Section Verify.
Context `{FoldTables, UnicodeTables}.

Definition normalizeSHA256 (value : string) : string + string :=
  let normalized := strings_ToLower (strings_TrimSpace value) in
  if negb (String.length normalized =? 64)%nat then inr "expected SHA-256 must be 64 hex characters"
  else if negb (hex_decodes normalized) then inr "expected SHA-256 must be lowercase hex"
  else inl normalized.

Fixpoint signer_allowed (signature : signatureMetadata) (allowlist : list string) : bool :=
  match allowlist with
  | [] => false
  | allowed :: rest =>
      let normalizedAllowed := strings_TrimSpace allowed in
      if normalizedAllowed =?s "" then signer_allowed signature rest
      else if strings_EqualFold (Sig_Thumbprint signature) normalizedAllowed || strings_EqualFold (Sig_Subject signature) normalizedAllowed
      then true
      else signer_allowed signature rest
  end.

Definition validateSignature (signature : signatureMetadata) (allowlist : list string) : option string :=
  let status := strings_TrimSpace (Sig_Status signature) in
  match allowlist with
  | [] =>
      if strings_EqualFold status "NotSigned" then None
      else Some ("Authenticode status " ++s go_quote status ++s " is not allowed for an unsigned pinned binary")
  | _ =>
      if negb (strings_EqualFold status "Valid") then Some ("Authenticode status " ++s go_quote status ++s " is not valid")
      else if signer_allowed signature allowlist then None
      else Some ("Authenticode signer " ++s go_quote (Sig_Subject signature) ++s " / " ++s go_quote (Sig_Thumbprint signature) ++s
        " is not in the allowlist")
  end.

(** The set of the allowlist, in order. *)
Definition canonicalSignerAllowlist (values : list string) : list string :=
  let set := foldl (fun (set : gset string) value =>
    let trimmed := strings_ToUpper (strings_TrimSpace value) in
    if trimmed =?s "" then set else {[trimmed]} ∪ set) ∅ values in
  sort_strings (elements set).

Section System.
Context {W : Type} `{!CoreSystem W}.

Definition openRegularFileNoReparse (path : string) : StateM W (Z + string) :=
  try info := wrap_error ("stat " ++s path) (os_Lstat path) in
  if FI_IsDir info then refuse (path ++s " is a directory")
  else if FI_Symlink info then refuse (path ++s " is a reparse point")
  else match UTF16PtrFromString (filepath_Clean path) with
  | None => refuse "encode path: invalid argument"
  | Some pathUTF16 =>
      try handle := wrap_error ("open " ++s path) (CreateFile pathUTF16) in
      if negb (os_NewFile handle) then close_file handle ≫= fun _ => refuse ("wrap handle for " ++s path)
      else
        r ← GetFileInformationByHandle handle;
        match r with
        | inr err => close_file handle ≫= fun _ => refuse ("inspect handle for " ++s path ++s ": " ++s err)
        | inl handleInfo =>
            if negb (Z.land (HI_FileAttributes handleInfo) FILE_ATTRIBUTE_DIRECTORY =? 0)
            then close_file handle ≫= fun _ => refuse (path ++s " is a directory")
            else if negb (Z.land (HI_FileAttributes handleInfo) FILE_ATTRIBUTE_REPARSE_POINT =? 0)
            then close_file handle ≫= fun _ => refuse (path ++s " is a reparse point")
            else mret (inl handle)
        end
  end.

Definition identity_of (info : HandleInfo) (basic : BasicInfo) : FileIdentity :=
  mkIdentity (HI_VolumeSerialNumber info) (join32 (HI_FileIndexHigh info) (HI_FileIndexLow info))
    (to_int64 (join32 (HI_FileSizeHigh info) (HI_FileSizeLow info)))
    (BI_LastWriteTime basic) (BI_ChangeTime basic) (BI_FileAttributes basic).

Definition fileIdentityFromOpenFile (file : Z) : StateM W (FileIdentity + string) :=
  try handleInfo := GetFileInformationByHandle file in
  try basic := GetFileBasicInfo file in
  mret (inl (identity_of handleInfo basic)).

(** [defer file.Close()] *)
Definition closing {A} (file : Z) (body : StateM W A) : StateM W A :=
  r ← body; close_file file ≫= fun _ => mret r.

Definition readFileIdentity (path : string) : StateM W (FileIdentity + string) :=
  try file := openRegularFileNoReparse path in closing file (fileIdentityFromOpenFile file).

Definition ensurePortableExecutable (file : Z) (name : string) : StateM W (unit + string) :=
  try header := wrap_error "read executable header" (io_ReadFull file 64) in
  if negb (bool_decide (take 2 header = [77; 90])) then refuse (name ++s " is not a native Windows executable")
  else
    let peOffset := LittleEndian_Uint32 (take 4 (drop 60 header)) in
    try signature := wrap_error "read PE signature" (file_ReadAt file 4 peOffset) in
    if negb (bool_decide (signature = [80; 69; 0; 0])) then refuse (name ++s " is not a PE executable")
    else wrap_error "rewind executable" (file_SeekStart file).

Definition hashOpenFile (file : Z) : StateM W (string + string) :=
  try _ := wrap_error "rewind for hash" (file_SeekStart file) in
  try bytes := wrap_error "hash executable" (io_Copy file) in
  mret (inl (hex_EncodeToString (sha256_Sum bytes))).

(** The owner and the access list. *)
Definition check_security (metadata : securityMetadata) : option string :=
  let ownerSID := strings_ToUpper (strings_TrimSpace (OwnerSID metadata)) in
  if negb (ownerSID =?s adminsSID) && negb (ownerSID =?s systemSID)
  then Some ("owner SID " ++s go_quote (OwnerSID metadata) ++s " is not Administrators or SYSTEM")
  else match UnsafeWriteSIDs metadata with
  | [] => None
  | _ =>
      let names := match UnsafeWriteNames metadata with [] => UnsafeWriteSIDs metadata | names => names end in
      Some ("file is writable by standard users: " ++s strings_Join names ", ")
  end.

(** The part of [VerifyEvidence] that has the open file. *)
Definition verify_open_file (path normalizedExpected : string) (allowlist : list string) (file : Z) : StateM W (Evidence + string) :=
  try identity := wrap_error "inspect executable identity" (fileIdentityFromOpenFile file) in
  try _ := ensurePortableExecutable file path in
  try actualHash := hashOpenFile file in
  if negb (actualHash =?s normalizedExpected) then refuse ("sha256 mismatch: got " ++s actualHash)
  else
    try metadata := wrap_error "inspect file security" (inspectSecurity path) in
    match check_security metadata with
    | Some err => refuse err
    | None =>
        try signature := wrap_error "inspect Authenticode signature" (inspectAuthenticode path) in
        match validateSignature signature allowlist with
        | Some err => refuse err
        | None =>
            try endingIdentity := wrap_error "reinspect executable identity" (fileIdentityFromOpenFile file) in
            if negb (bool_decide (endingIdentity = identity)) then refuse "executable identity changed during verification"
            else mret (inl (mkEvidence identity actualHash (Sig_Status signature) (Sig_Subject signature) (Sig_Thumbprint signature)))
        end
    end.

Definition VerifyEvidence (path expected : string) (allowlist : list string) : StateM W (Evidence + string) :=
  match normalizeSHA256 expected with
  | inr err => refuse err
  | inl normalizedExpected =>
      try file := openRegularFileNoReparse path in
      closing file (verify_open_file path normalizedExpected allowlist file)
  end.

Definition Verify (path expected : string) (allowlist : list string) : StateM W (option string) :=
  r ← VerifyEvidence path expected allowlist;
  mret (match r with inl _ => None | inr err => Some err end).

(** ** The cache *)
Context (identity : string -> StateM W (FileIdentity + string)).
Context (full : string -> string -> list string -> StateM W (Evidence + string)).

Definition newCachedVerifier (expected : string) (allowlist : list string) : CachedVerifier + string :=
  match normalizeSHA256 expected with
  | inr err => inr err
  | inl normalizedHash => inl (mkVerifier normalizedHash (canonicalSignerAllowlist allowlist) None)
  end.

Definition check_evidence (v : CachedVerifier) (id : FileIdentity) (evidence : Evidence) : option string :=
  if negb (bool_decide (Identity evidence = id)) then Some "executable identity changed during verification"
  else if negb (strings_ToLower (SHA256 evidence) =?s expectedSHA256 v) then Some "verification evidence SHA-256 does not match policy"
  else match validateSignature (mkSignature (AuthenticodeStatus evidence) (AuthenticodeSubject evidence) (AuthenticodeThumbprint evidence))
    (signerAllowlist v) with
  | Some err => Some ("verification evidence signature: " ++s err)
  | None => None
  end.

Definition cache_hit (v : CachedVerifier) (canonicalPath : string) (id : FileIdentity) : bool :=
  match cached v with
  | Some c => (cached_path c =?s canonicalPath) && bool_decide (Identity (cached_evidence c) = id)
  | None => false
  end.

(** [CachedVerifier.Verify], under its mutex. *)
Definition cached_Verify (path : string) : StateM (CachedVerifier * W) (option string) := fun '(v, w) =>
  let canonicalPath := strings_ToLower (filepath_Clean path) in
  let '(r, w) := identity path w in
  match r with
  | inr err => (Some err, (v, w))
  | inl id =>
      if cache_hit v canonicalPath id then (None, (v, w))
      else
        let '(r, w) := full path (expectedSHA256 v) (signerAllowlist v) w in
        match r with
        | inr err => (Some err, (v, w))
        | inl evidence =>
            match check_evidence v id evidence with
            | Some err => (Some err, (v, w))
            | None => (None, (mkVerifier (expectedSHA256 v) (signerAllowlist v) (Some (mkCached canonicalPath evidence)), w))
            end
        end
  end.
End System.
End Verify.

(** [NewCachedVerifier] joins the cache with the full check. *)
Definition CachedVerifier_Verify `{FoldTables, UnicodeTables, CoreSystem W} : string -> StateM (CachedVerifier * W) (option string) :=
  cached_Verify readFileIdentity VerifyEvidence.
