(* ===== verification/CoreVerifySpec.v ===== *)
(** * What a verified core is

    On a system whose handles give the bytes of the file they were opened on, an accepted
    file is the pinned one, and the check leaves no handle open; the cache answers only for
    an identity that was checked. *)
From S2P Require Import Prelude GoText AccessModel Netip NativeNetwork CoreVerify.
From stdpp Require Import gmap pretty.

#[local] Open Scope string_scope.
#[local] Open Scope Z_scope.
#[local] Open Scope list_scope.

(** ** The laws of the system *)

(** The open handles, each with the bytes of its file and a position.  A file cannot be
    written while it is open, and a written file has another identity. *)
Class FaithfulSystem (W : Type) `{!CoreSystem W} (live : W -> gmap Z (list Z * nat)) (content_of : FileIdentity -> list Z) : Prop := {
  law_lstat path w : live (os_Lstat path w).2 = live w;
  law_create path w : match CreateFile path w with
    | (inl h, w') => live w !! h = None /\ exists c, live w' = <[h := (c, 0%nat)]> (live w)
    | (inr _, w') => live w' = live w
    end;
  law_close h w : live (close_file h w).2 = delete h (live w);
  law_info h w : live (GetFileInformationByHandle h w).2 = live w;
  law_basic h w : live (GetFileBasicInfo h w).2 = live w;
  law_identity h w info w1 basic w2 c p : GetFileInformationByHandle h w = (inl info, w1) -> GetFileBasicInfo h w1 = (inl basic, w2) ->
    live w !! h = Some (c, p) -> content_of (identity_of info basic) = c;
  law_read h n w c p : live w !! h = Some (c, p) -> exists q, live (io_ReadFull h n w).2 = <[h := (c, q)]> (live w) /\
    forall b, (io_ReadFull h n w).1 = inl b -> b = take n (drop p c) /\ (n <= length (drop p c))%nat;
  law_read_at h n off w c p : live w !! h = Some (c, p) -> live (file_ReadAt h n off w).2 = live w /\
    forall b, (file_ReadAt h n off w).1 = inl b -> b = take n (drop (Z.to_nat off) c);
  law_seek h w c p : live w !! h = Some (c, p) -> exists q, live (file_SeekStart h w).2 = <[h := (c, q)]> (live w) /\
    forall u, (file_SeekStart h w).1 = inl u -> q = 0%nat;
  law_copy h w c p : live w !! h = Some (c, p) -> exists q, live (io_Copy h w).2 = <[h := (c, q)]> (live w) /\
    forall b, (io_Copy h w).1 = inl b -> b = drop p c;
  law_security path w : live (inspectSecurity path w).2 = live w;
  law_authenticode path w : live (inspectAuthenticode path w).2 = live w
}.

(** ** Bodies that may fail *)
Section Triples.
Context {W : Type}.

(** From [P], [m] returns a value with [Q], or an error with [E]. *)
Definition etriple {A} (P : W -> Prop) (m : StateM W (A + string)) (Q : A -> W -> Prop) (E : W -> Prop) : Prop :=
  forall w, P w -> match m w with (inl x, w') => Q x w' | (inr _, w') => E w' end.

Lemma etriple_attempt {A B} P (m : StateM W (A + string)) (f : A -> StateM W (B + string)) Q R E :
  etriple P m Q E -> (forall x, etriple (Q x) (f x) R E) -> etriple P (attempt m f) R E.
Proof.
  intros Hm Hf w Hw. specialize (Hm w Hw). unfold attempt, mbind, StateM_bind. destruct (m w) as [[x|err] w']; [by apply Hf|exact Hm].
Qed.

Lemma etriple_wrap {A} prefix P (m : StateM W (A + string)) Q E : etriple P m Q E -> etriple P (wrap_error prefix m) Q E.
Proof. intros Hm w Hw. specialize (Hm w Hw). unfold wrap_error, mbind, StateM_bind. by destruct (m w) as [[x|err] w']. Qed.

Lemma etriple_refuse {A} (P : W -> Prop) err Q (E : W -> Prop) : (forall w, P w -> E w) -> etriple P (refuse (A := A) err) Q E.
Proof. intros H w Hw. by apply H. Qed.

Lemma etriple_return {A} (P : W -> Prop) (x : A) (Q : A -> W -> Prop) E : (forall w, P w -> Q x w) -> etriple P (mret (inl x)) Q E.
Proof. intros H w Hw. by apply H. Qed.

Lemma etriple_weaken {A} (P P' : W -> Prop) (m : StateM W (A + string)) (Q Q' : A -> W -> Prop) E : etriple P' m Q' E ->
  (forall w, P w -> P' w) -> (forall x w, Q' x w -> Q x w) -> etriple P m Q E.
Proof. intros Hm HP HQ w Hw. specialize (Hm w (HP w Hw)). destruct (m w) as [[x|err] w']; auto. Qed.

Lemma etriple_pure {A} (R : Prop) (P : W -> Prop) (m : StateM W (A + string)) Q E :
  (R -> etriple P m Q E) -> etriple (fun w => R /\ P w) m Q E.
Proof. intros H w [HR HP]. by apply H. Qed.

(** The pure facts that a value carries. *)
Lemma etriple_remember {A} (P : W -> Prop) (m : StateM W (A + string)) (Q : A -> Prop) E :
  etriple P m (fun x w => P w) E -> etriple P m (fun x w => Q x) (fun _ => True) -> etriple P m (fun x w => Q x /\ P w) E.
Proof. intros H1 H2 w Hw. specialize (H1 w Hw). specialize (H2 w Hw). destruct (m w) as [[x|err] w']; auto. Qed.
End Triples.

(** A portable executable. *)
Definition portable (c : list Z) : Prop :=
  take 2 c = [77; 90] /\ take 4 (drop (Z.to_nat (LittleEndian_Uint32 (take 4 (drop 60 c)))) c) = [80; 69; 0; 0].

Section Spec.
Context `{FoldTables, UnicodeTables} {W : Type} `{!CoreSystem W}.
Context (live : W -> gmap Z (list Z * nat)) (content_of : FileIdentity -> list Z) `{!FaithfulSystem W live content_of}.

(** The handle is open on these bytes, and the other handles are as before. *)
Definition holding (h : Z) (c : list Z) (base : gmap Z (list Z * nat)) (w : W) : Prop := exists p, live w = <[h := (c, p)]> base.

Definition at_start (h : Z) (c : list Z) (base : gmap Z (list Z * nat)) (w : W) : Prop := live w = <[h := (c, 0%nat)]> base.

Lemma at_start_holding h c base w : at_start h c base w -> holding h c base w.
Proof. by exists 0%nat. Qed.

Lemma holding_lookup h c base w : holding h c base w -> exists p, live w !! h = Some (c, p).
Proof. intros [p E]. exists p. by rewrite E, lookup_insert_eq. Qed.

Lemma holding_same h c base w w' : live w' = live w -> holding h c base w -> holding h c base w'.
Proof. unfold holding. by intros ->. Qed.

Lemma holding_moved h c base w w' q : live w' = <[h := (c, q)]> (live w) -> holding h c base w -> holding h c base w'.
Proof. intros E [p Ep]. exists q. by rewrite E, Ep, insert_insert_eq. Qed.

(** *** The operations on the open file *)
Lemma identity_spec_at h c base p : etriple (fun w => live w = <[h := (c, p)]> base) (fileIdentityFromOpenFile h)
  (fun id w => content_of id = c /\ live w = <[h := (c, p)]> base) (holding h c base).
Proof.
  intros w Hw0. assert (Hw : holding h c base w) by (by exists p). unfold fileIdentityFromOpenFile, attempt, mbind, StateM_bind.
  pose proof (law_info (live := live) h w) as L1. destruct (GetFileInformationByHandle h w) as [[info|e] w1] eqn:E1; [|by apply (holding_same _ _ _ _ _ L1)].
  pose proof (law_basic (live := live) h w1) as L2. cbn [snd] in L1.
  destruct (GetFileBasicInfo h w1) as [[basic|e] w2] eqn:E2; cbn [snd] in L2; [|by apply (holding_same _ _ _ w); [congruence|]].
  simpl. split; [|congruence]. apply (law_identity h w info w1 basic w2 c p); [done|done|]. by rewrite Hw0, lookup_insert_eq.
Qed.

Lemma identity_spec h c base : etriple (holding h c base) (fileIdentityFromOpenFile h)
  (fun id w => content_of id = c /\ holding h c base w) (holding h c base).
Proof.
  intros w [p Hp]. pose proof (identity_spec_at h c base p w Hp) as Hs. destruct (fileIdentityFromOpenFile h w) as [[id|e] w1]; [|done].
  destruct Hs as [Hc Hl]. split; [done|by exists p].
Qed.

Lemma seek_spec h c base : etriple (holding h c base) (file_SeekStart h) (fun _ w => at_start h c base w) (holding h c base).
Proof.
  intros w Hw. destruct (holding_lookup _ _ _ _ Hw) as [p Hp]. destruct (law_seek (live := live) h w c p Hp) as (q & Hq & Hz).
  destruct (file_SeekStart h w) as [[u|e] w1]; cbn [fst snd] in *; [|by apply (holding_moved _ _ _ w _ q)].
  rewrite (Hz u eq_refl) in Hq. destruct Hw as [p' Ep]. unfold at_start. by rewrite Hq, Ep, insert_insert_eq.
Qed.

Lemma copy_spec h c base : etriple (at_start h c base) (io_Copy h) (fun b w => b = c /\ holding h c base w) (holding h c base).
Proof.
  intros w Hw. assert (Hp : live w !! h = Some (c, 0%nat)) by (rewrite Hw; apply lookup_insert_eq).
  destruct (law_copy (live := live) h w c _ Hp) as (q & Hq & Hb). pose proof (at_start_holding _ _ _ _ Hw) as Hh.
  destruct (io_Copy h w) as [[b|e] w1]; cbn [fst snd] in *; [|by apply (holding_moved _ _ _ w _ q)].
  split; [by apply Hb|by apply (holding_moved _ _ _ w _ q)].
Qed.

Lemma portable_spec h c base name : etriple (at_start h c base) (ensurePortableExecutable h name)
  (fun _ w => portable c /\ holding h c base w) (holding h c base).
Proof.
  unfold ensurePortableExecutable. eapply (etriple_attempt _ _ _ (fun b w => b = take 64 c /\ holding h c base w)).
  { apply etriple_wrap. intros w Hw. assert (Hp : live w !! h = Some (c, 0%nat)) by (rewrite Hw; apply lookup_insert_eq).
    destruct (law_read (live := live) h 64 w c _ Hp) as (q & Hq & Hb). pose proof (at_start_holding _ _ _ _ Hw) as Hh.
    destruct (io_ReadFull h 64 w) as [[b|e] w1]; cbn [fst snd] in *; [|by apply (holding_moved _ _ _ w _ q)].
    destruct (Hb b eq_refl) as [-> _]. split; [done|by apply (holding_moved _ _ _ w _ q)]. }
  intros header. apply etriple_pure. intros ->. case_bool_decide as Hmz; cbn [negb]; [|by apply etriple_refuse].
  rewrite take_take in Hmz. rewrite skipn_firstn_comm, take_take in *. cbn [Nat.min Nat.sub] in *.
  eapply (etriple_attempt _ _ _ (fun b w => b = take 4 (drop (Z.to_nat (LittleEndian_Uint32 (take 4 (drop 60 c)))) c) /\ holding h c base w)).
  { apply etriple_wrap. intros w Hw. destruct (holding_lookup _ _ _ _ Hw) as [p Hp].
    destruct (law_read_at (live := live) h 4 (LittleEndian_Uint32 (take 4 (drop 60 c))) w c p Hp) as (Hl & Hb).
    destruct (file_ReadAt h 4 _ w) as [[b|e] w1]; cbn [fst snd] in *; [|by apply (holding_same _ _ _ w)].
    split; [by apply Hb|by apply (holding_same _ _ _ w)]. }
  intros signature. apply etriple_pure. intros ->. case_bool_decide as Hpe; cbn [negb]; [|by apply etriple_refuse].
  apply etriple_wrap. eapply etriple_weaken; [apply seek_spec|done|]. intros u w Hw. split; [done|by apply at_start_holding].
Qed.

Lemma hash_spec h c base : etriple (holding h c base) (hashOpenFile h)
  (fun s w => s = hex_EncodeToString (sha256_Sum c) /\ holding h c base w) (holding h c base).
Proof.
  unfold hashOpenFile. eapply etriple_attempt; [apply etriple_wrap, seek_spec|]. intros u.
  eapply etriple_attempt; [apply etriple_wrap, copy_spec|]. intros b. apply etriple_pure. intros ->.
  by apply etriple_return.
Qed.

(** ** The check *)

(** The answers of the inspections that were accepted. *)
Definition signature_of (ev : Evidence) : signatureMetadata :=
  mkSignature (AuthenticodeStatus ev) (AuthenticodeSubject ev) (AuthenticodeThumbprint ev).

Definition owner_accepted (path : string) : Prop := exists metadata w w',
  inspectSecurity path w = (inl metadata, w') /\ check_security metadata = None.

Definition signature_accepted (path : string) (allowlist : list string) (ev : Evidence) : Prop :=
  validateSignature (signature_of ev) allowlist = None /\ exists w w', inspectAuthenticode path w = (inl (signature_of ev), w').

(** The file with the identity of the evidence is a portable executable with the hash. *)
Definition pinned_content (hash : string) (id : FileIdentity) : Prop :=
  portable (content_of id) /\ hex_EncodeToString (sha256_Sum (content_of id)) = hash.

Definition accepted (path hash : string) (allowlist : list string) (ev : Evidence) : Prop :=
  pinned_content hash (Identity ev) /\ SHA256 ev = hash /\ owner_accepted path /\ signature_accepted path allowlist ev.

Lemma closed_refusal {A} h c base err Q : base !! h = None ->
  etriple (A := A) (at_start h c base) (close_file h ≫= fun _ => refuse err) Q (fun w => live w = base).
Proof.
  intros Hn w Hw. pose proof (law_close (live := live) h w) as L. unfold mbind, StateM_bind. destruct (close_file h w) as [u w']; cbn [snd] in L.
  simpl. rewrite L, Hw. by rewrite delete_insert_eq, delete_id.
Qed.

Lemma open_spec path base : etriple (fun w => live w = base) (openRegularFileNoReparse path)
  (fun h w => base !! h = None /\ exists c, at_start h c base w) (fun w => live w = base).
Proof.
  unfold openRegularFileNoReparse. eapply (etriple_attempt _ _ _ (fun _ w => live w = base)).
  { apply etriple_wrap. intros w Hw. pose proof (law_lstat (live := live) path w) as L. destruct (os_Lstat path w) as [[i|e] w']; cbn [snd] in L; congruence. }
  intros info. destruct (FI_IsDir info); [by apply etriple_refuse|]. destruct (FI_Symlink info); [by apply etriple_refuse|].
  destruct (UTF16PtrFromString _) as [text|]; [|by apply etriple_refuse].
  eapply (etriple_attempt _ _ _ (fun h w => base !! h = None /\ exists c, at_start h c base w)).
  { apply etriple_wrap. intros w Hw. pose proof (law_create (live := live) text w) as L. destruct (CreateFile text w) as [[h|e] w']; [|congruence].
    destruct L as (Hn & c & Hc). rewrite Hw in Hn, Hc. split; [done|by exists c]. }
  intros h. apply etriple_pure. intros Hn.
  destruct (os_NewFile h); cbn [negb].
  - intros w [c Hw]. unfold mbind at 1, StateM_bind. pose proof (law_info (live := live) h w) as L.
    destruct (GetFileInformationByHandle h w) as [[info'|e] w']; cbn [snd] in L;
      assert (Hw' : at_start h c base w') by (unfold at_start in *; congruence).
    + destruct (negb _); [by apply (closed_refusal h c base)|]. destruct (negb _); [by apply (closed_refusal h c base)|].
      split; [done|by exists c].
    + by apply (closed_refusal h c base).
  - intros w [c Hw]. by apply (closed_refusal h c base).
Qed.

(** An answer of an inspection is kept, and the handles are not touched. *)
Lemma inspection_spec {A} (inspect : string -> StateM W (A + string)) path P : (forall path w, live (inspect path w).2 = live w) ->
  (forall w w', live w' = live w -> P w -> P w') ->
  etriple P (inspect path) (fun x w => (exists w0 w1, inspect path w0 = (inl x, w1)) /\ P w) P.
Proof.
  intros L HP w Hw. specialize (L path w). destruct (inspect path w) as [[x|e] w'] eqn:E; cbn [snd] in L; [split; [by eexists _, _|]|]; by eapply HP.
Qed.

Lemma verify_open_file_spec path hash allowlist h c base :
  etriple (at_start h c base) (verify_open_file path hash allowlist h)
    (fun ev w => accepted path hash allowlist ev /\ holding h c base w) (holding h c base).
Proof.
  unfold verify_open_file. eapply etriple_attempt; [apply etriple_wrap, identity_spec_at|]. intros id. apply etriple_pure. intros Hid.
  eapply etriple_attempt; [apply portable_spec|]. intros u. apply etriple_pure. intros Hpe.
  eapply etriple_attempt; [apply hash_spec|]. intros actual. apply etriple_pure. intros Ha.
  destruct (String.eqb_spec actual hash) as [Eh|]; cbn [negb]; [|by apply etriple_refuse].
  eapply etriple_attempt; [apply etriple_wrap, inspection_spec; [apply law_security|intros w w'; apply holding_same]|].
  intros metadata. apply etriple_pure. intros (w0 & w1 & Hm). destruct (check_security metadata) eqn:Es; [by apply etriple_refuse|].
  eapply etriple_attempt; [apply etriple_wrap, inspection_spec; [apply law_authenticode|intros w w'; apply holding_same]|].
  intros signature. apply etriple_pure. intros Hs. destruct (validateSignature signature allowlist) eqn:Ev; [by apply etriple_refuse|].
  eapply etriple_attempt; [apply etriple_wrap, identity_spec|]. intros ending. apply etriple_pure. intros _.
  case_bool_decide; cbn [negb]; [|by apply etriple_refuse]. apply etriple_return. intros w Hw. split; [|done].
  unfold accepted, pinned_content, signature_accepted, signature_of. cbn [Identity SHA256 AuthenticodeStatus AuthenticodeSubject AuthenticodeThumbprint].
  rewrite Hid, <- Ha. split; [done|]. split; [done|]. split; [by exists metadata, w0, w1|]. by destruct signature.
Qed.

Lemma closing_spec {A} h base (body : StateM W (A + string)) c Q : base !! h = None ->
  etriple (at_start h c base) body (fun x w => Q x /\ holding h c base w) (holding h c base) ->
  etriple (at_start h c base) (closing h body) (fun x w => Q x /\ live w = base) (fun w => live w = base).
Proof.
  intros Hn Hb w Hw. specialize (Hb w Hw). unfold closing, mbind, StateM_bind. destruct (body w) as [r w1].
  pose proof (law_close (live := live) h w1) as L. destruct (close_file h w1) as [u w2]. cbn [snd] in L.
  assert (E : holding h c base w1 -> live w2 = base) by (intros [p Ep]; by rewrite L, Ep, delete_insert_eq, delete_id).
  destruct r as [x|err]; simpl; [|by apply E]. destruct Hb as [HQ Hh]. split; [done|by apply E].
Qed.

Lemma opened_spec {A} path base (body : Z -> StateM W (A + string)) Q :
  (forall h c, etriple (at_start h c base) (body h) (fun x w => Q x /\ holding h c base w) (holding h c base)) ->
  etriple (fun w => live w = base) (try file := openRegularFileNoReparse path in closing file (body file))
    (fun x w => Q x /\ live w = base) (fun w => live w = base).
Proof.
  intros Hb. eapply etriple_attempt; [apply open_spec|]. intros h. apply etriple_pure. intros Hn w [c Hw]. by apply (closing_spec h base (body h) c).
Qed.

Lemma VerifyEvidence_spec path expected allowlist base : etriple (fun w => live w = base) (VerifyEvidence path expected allowlist)
  (fun ev w => (normalizeSHA256 expected = inl (SHA256 ev) /\ accepted path (SHA256 ev) allowlist ev) /\ live w = base) (fun w => live w = base).
Proof.
  unfold VerifyEvidence. destruct (normalizeSHA256 expected) as [hash|err] eqn:En; [|by apply etriple_refuse].
  eapply etriple_weaken; [apply (opened_spec path base _ (accepted path hash allowlist))|done|].
  - intros h c. apply verify_open_file_spec.
  - intros ev w [Ha Hw]. pose proof Ha as (_ & E & _). split; [|done]. by rewrite E.
Qed.

Lemma readFileIdentity_spec path base : etriple (fun w => live w = base) (readFileIdentity path)
  (fun _ w => True /\ live w = base) (fun w => live w = base).
Proof.
  apply (opened_spec path base fileIdentityFromOpenFile (fun _ => True)). intros h c.
  eapply etriple_weaken; [apply (identity_spec_at h c base 0%nat)|done|]. intros id w [_ Hw]. split; [done|by exists 0%nat].
Qed.

(** A file that the check accepts is a portable executable with the pinned hash, of an
    accepted owner and with an accepted signature; accepted or not, no handle stays open. *)
Theorem checked_core_is_the_pinned_one path expected allowlist w :
  let '(r, w') := VerifyEvidence path expected allowlist w in
  live w' = live w /\
  match r with
  | inl ev => normalizeSHA256 expected = inl (SHA256 ev) /\ accepted path (SHA256 ev) allowlist ev
  | inr _ => True
  end.
Proof.
  pose proof (VerifyEvidence_spec path expected allowlist (live w) w eq_refl) as Hs.
  destruct (VerifyEvidence path expected allowlist w) as [[ev|err] w']; [|done]. by destruct Hs.
Qed.
End Spec.
