(* ===== verification/CoreDemo.v ===== *)
(** * The check of the core on a concrete system

    One file, whose bytes and identity do not change; the world is the open handles with
    their positions. *)
From S2P Require Import Prelude GoText AccessModel Netip NativeNetwork CoreVerify CoreVerifySpec CoreCache.
From S2P Require NetworkDemo.
From stdpp Require Import gmap pretty.

#[local] Open Scope string_scope.
#[local] Open Scope Z_scope.
#[local] Open Scope list_scope.

#[local] Existing Instance NetworkDemo.ascii_folding.

Abbreviation Handles := (gmap Z nat).

Definition demo_exe : list Z := [77; 90] ++ repeat 0 58 ++ [64; 0; 0; 0] ++ [80; 69; 0; 0] ++ [1; 2; 3].
Definition demo_core_path := "C:\core\sing-box.exe".
Definition demo_info : HandleInfo := mkHandleInfo 32 7 0 71 0 12.
Definition demo_basic : BasicInfo := mkBasicInfo 100 200 32.

(** A call on an open handle, which may move its position. *)
Definition on_handle {A} (h : Z) (f : nat -> (A + string) * nat) : StateM Handles (A + string) := fun w =>
  match w !! h with
  | Some p => let '(r, q) := f p in (r, <[h := q]> w)
  | None => (inr "handle is closed", w)
  end.

Definition demo_read (n p : nat) : (list Z + string) * nat :=
  if (n <=? length (drop p demo_exe))%nat then (inl (take n (drop p demo_exe)), (p + n)%nat) else (inr "unexpected EOF", p).
Definition demo_seek (p : nat) : (unit + string) * nat := (inl tt, 0%nat).
Definition demo_copy (p : nat) : (list Z + string) * nat := (inl (drop p demo_exe), length demo_exe).

Definition answer {A} (x : A) : StateM Handles (A + string) := fun w => (inl x, w).

#[export] Instance demo_system : CoreSystem Handles := {
  os_Lstat path := if path =?s demo_core_path then answer (mkFileInfo false false) else refuse "not found";
  filepath_Clean path := path;
  UTF16PtrFromString path := Some path;
  CreateFile path w := match w !! 1 with None => (inl 1, <[1 := 0%nat]> w) | Some _ => (inr "sharing violation", w) end;
  os_NewFile h := true;
  close_file h w := (tt, delete h w);
  GetFileInformationByHandle h := answer demo_info;
  GetFileBasicInfo h := answer demo_basic;
  io_ReadFull h n := on_handle h (demo_read n);
  file_ReadAt h n off w := (if (n <=? length (drop (Z.to_nat off) demo_exe))%nat then inl (take n (drop (Z.to_nat off) demo_exe)) else inr "EOF", w);
  file_SeekStart h := on_handle h demo_seek;
  io_Copy h := on_handle h demo_copy;
  sha256_Sum c := map (fun i => (Z.of_nat (length c) + Z.of_nat i) mod 256) (seq 0 32);
  inspectSecurity path := answer (mkSecurity adminsSID [] []);
  inspectAuthenticode path := answer (mkSignature "NotSigned" "" "")
}.

Definition demo_live (w : Handles) : gmap Z (list Z * nat) := (fun p => (demo_exe, p)) <$> w.
Definition demo_content (_ : FileIdentity) : list Z := demo_exe.

Lemma demo_lookup h w c p : demo_live w !! h = Some (c, p) -> c = demo_exe /\ w !! h = Some p.
Proof. unfold demo_live. rewrite lookup_fmap. destruct (w !! h) as [q|]; [|done]. by intros [= <- <-]. Qed.

Lemma demo_insert h p w : demo_live (<[h := p]> w) = <[h := (demo_exe, p)]> (demo_live w).
Proof. unfold demo_live. by rewrite fmap_insert. Qed.

Lemma demo_moved {A} h (f : nat -> (A + string) * nat) w c p : demo_live w !! h = Some (c, p) ->
  demo_live (on_handle h f w).2 = <[h := (c, (f p).2)]> (demo_live w) /\ (on_handle h f w).1 = (f p).1 /\ c = demo_exe.
Proof.
  intros [-> E]%demo_lookup. unfold on_handle. rewrite E. destruct (f p) as [r q]. cbn [fst snd]. split; [apply demo_insert|done].
Qed.

#[export] Instance demo_faithful : FaithfulSystem Handles demo_live demo_content.
Proof.
  split.
  - intros path w. simpl. by destruct (path =?s demo_core_path).
  - intros path w. cbn [CreateFile demo_system]. destruct (w !! 1) eqn:E; [done|]. split; [unfold demo_live; by rewrite lookup_fmap, E|]. exists demo_exe. apply demo_insert.
  - intros h w. apply fmap_delete.
  - done.
  - done.
  - intros h w info w1 basic w2 c p _ _ [-> _]%demo_lookup. done.
  - intros h n w c p Hp. destruct (demo_moved h (demo_read n) w c p Hp) as (Hl & Hr & ->).
    exists (demo_read n p).2. split; [exact Hl|]. intros b. change (io_ReadFull h n w) with (on_handle h (demo_read n) w). rewrite Hr.
    unfold demo_read. destruct (Nat.leb_spec n (length (drop p demo_exe))); [|done]. by intros [= <-].
  - intros h n off w c p [-> _]%demo_lookup. split; [done|]. intros b. cbn [file_ReadAt demo_system fst].
    destruct (n <=? _)%nat; [|done]. by intros [= <-].
  - intros h w c p Hp. destruct (demo_moved h demo_seek w c p Hp) as (Hl & _ & _). by exists 0%nat.
  - intros h w c p Hp. destruct (demo_moved h demo_copy w c p Hp) as (Hl & Hr & ->).
    exists (length demo_exe). split; [exact Hl|]. intros b. change (io_Copy h w) with (on_handle h demo_copy w). rewrite Hr.
    by intros [= <-].
  - done.
  - done.
Qed.

Definition demo_hash : string := hex_EncodeToString (sha256_Sum demo_exe).
Definition demo_identity : FileIdentity := identity_of demo_info demo_basic.
Definition demo_evidence : Evidence := mkEvidence demo_identity demo_hash "NotSigned" "" "".
Definition demo_verifier : CachedVerifier := mkVerifier demo_hash [] None.
Definition demo_warm : CachedVerifier := mkVerifier demo_hash [] (Some (mkCached "c:\core\sing-box.exe" demo_evidence)).

Example demo_checks :
  (VerifyEvidence demo_core_path demo_hash [] ∅).1 = inl demo_evidence /\
  (VerifyEvidence demo_core_path demo_hash ["CN=RegenBio"] ∅).1 = inr ("Authenticode status " ++s go_quote "NotSigned" ++s " is not valid") /\
  (CachedVerifier_Verify demo_core_path (demo_verifier, ∅)) = (None, (demo_warm, ∅)) /\
  (CachedVerifier_Verify demo_core_path (demo_warm, ∅)) = (None, (demo_warm, ∅)) /\
  (CachedVerifier_Verify "C:\other.exe" (demo_warm, ∅)).1 = Some "stat C:\other.exe: not found".
Proof. vm_compute. done. Qed.

Lemma checked_core_is_the_pinned_one_witness :
  accepted demo_content demo_core_path demo_hash [] demo_evidence /\ demo_live (VerifyEvidence demo_core_path demo_hash [] ∅).2 = ∅.
Proof.
  pose proof (checked_core_is_the_pinned_one demo_live demo_content demo_core_path demo_hash [] ∅) as Hs.
  replace (VerifyEvidence demo_core_path demo_hash [] ∅) with (inl (B := string) demo_evidence, ∅ : Handles) in Hs |- * by (symmetry; vm_compute; reflexivity).
  destruct Hs as (_ & _ & Ha). split; [exact Ha|reflexivity].
Defined.


Lemma unchanged_core_is_not_rechecked_witness :
  CachedVerifier_Verify demo_core_path (demo_warm, <[7 := 3%nat]> ∅) = (None, (demo_warm, <[7 := 3%nat]> ∅)).
Proof.
  apply (unchanged_core_is_not_rechecked demo_core_path demo_verifier ∅ demo_warm ∅ ∅ demo_identity);
    [exact I|vm_compute; reflexivity..].
Defined.
