(* ===== verification/PocModel.v ===== *)
(** * The evidence of the forwarding proof of concept: data and checks

    The configuration ([internal/config]), the inventory of the network state
    ([internal/inventory]) and their validation. *)
From S2P Require Import Prelude GoText AccessModel Netip NativeNetwork.
From stdpp Require Import gmap pretty list.

#[local] Open Scope string_scope.
#[local] Open Scope Z_scope.
#[local] Open Scope list_scope.

(** ** Configuration *)
Record Target := mkTarget { TargetName_ : string; TargetURL_ : string }.

Record Config := mkConfig {
  WireGuardSubnet : string;
  WireGuardInterface : string;
  TelecomInterface : string;
  TelecomRoutePrefixes : list string;
  EmployeeInterface : string;
  InternalCIDRs : list string;
  ApprovedTargets : list Target;
  ProbeTimeout : Z
}.

(** *** Classes of addresses *)
Definition IsPrivate (a : Addr) : bool :=
  match Unmap a with
  | Addr4 v => (v / 2 ^ 24 =? 10) || (v / 2 ^ 20 =? 2753) || (v / 2 ^ 16 =? 49320)
  | Addr6 v _ => v / 2 ^ 121 =? 126
  | AddrInvalid => false
  end.

Definition IsLinkLocalUnicast (a : Addr) : bool :=
  match Unmap a with
  | Addr4 v => v / 2 ^ 16 =? 43518
  | Addr6 v _ => v / 2 ^ 118 =? 1018
  | AddrInvalid => false
  end.

Definition IsGlobalUnicast (a : Addr) : bool :=
  match Unmap a with
  | AddrInvalid => false
  | Addr4 v => negb (v =? 0) && negb (v =? 2 ^ 32 - 1) && negb (IsLoopback (Addr4 v)) && negb (IsMulticast (Addr4 v)) && negb (IsLinkLocalUnicast (Addr4 v))
  | Addr6 v z => negb (v =? 0) && negb (IsLoopback (Addr6 v z)) && negb (IsMulticast (Addr6 v z)) && negb (IsLinkLocalUnicast (Addr6 v z))
  end.

Example address_classes :
  map (fun s => match ParseAddr s with Some a => (IsPrivate a, IsLinkLocalUnicast a, IsGlobalUnicast a) | None => (false, false, false) end)
    ["10.1.2.3"; "172.31.0.1"; "172.32.0.1"; "192.168.9.9"; "169.254.1.1"; "8.8.8.8"; "127.0.0.1"; "fe80::1"; "fc00::1"] =
  [(true, false, true); (true, false, true); (false, false, true); (true, false, true); (false, true, false); (false, false, true);
   (false, false, false); (false, true, false); (true, false, true)].
Proof. vm_compute. reflexivity. Qed.

Section Config.
(** [url.Parse]: the scheme and the host. *)
Context (url_Parse : string -> option (string * string)).

(** One entry of [telecom_route_prefixes]. *)
Definition check_telecom_prefix (value : string) : option string :=
  match ParsePrefix value with
  | None => Some "telecom_route_prefixes must contain canonical IPv4 CIDRs"
  | Some prefix =>
      let address := PrefixAddr prefix in
      if negb (Is4 address) || negb (Prefix_String prefix =?s value) then Some "telecom_route_prefixes must contain canonical IPv4 CIDRs"
      else if (1 <? PrefixBits prefix) &&
        (negb (IsGlobalUnicast address) || IsPrivate address || IsLoopback address || IsLinkLocalUnicast address ||
         IsMulticast address || IsUnspecified address)
      then Some "telecom_route_prefixes must describe external or default IPv4 routes"
      else None
  end.

Fixpoint check_telecom_prefixes (values : list string) (seen : gset string) : option string :=
  match values with
  | [] => None
  | value :: rest =>
      match check_telecom_prefix value with
      | Some err => Some err
      | None =>
          if bool_decide (value ∈ seen) then Some "telecom_route_prefixes must not contain duplicates"
          else check_telecom_prefixes rest ({[value]} ∪ seen)
      end
  end.

Fixpoint check_internal_cidrs (wgPrefix : Prefix) (cidrs : list string) : option string :=
  match cidrs with
  | [] => None
  | cidr :: rest =>
      match ParsePrefix cidr with
      | None => Some "internal_cidrs must contain valid CIDRs"
      | Some internalPrefix =>
          if Overlaps wgPrefix internalPrefix then Some "wireguard_subnet must not overlap internal_cidrs"
          else check_internal_cidrs wgPrefix rest
      end
  end.

Definition https_url (url : string) : bool :=
  match url_Parse url with Some (scheme, host) => (scheme =?s "https") && negb (host =?s "") | None => false end.

Fixpoint check_targets (targets : list Target) (seen : gset string) : option string :=
  match targets with
  | [] => None
  | target :: rest =>
      let name := TargetName_ target in
      if (strings_TrimSpace name =?s "") || negb (strings_TrimSpace name =?s name)
      then Some "approved_targets names must be non-empty without surrounding whitespace"
      else if negb (https_url (TargetURL_ target)) then Some "approved_targets must contain HTTPS URLs"
      else if bool_decide (name ∈ seen) then Some "approved_targets must have unique names"
      else check_targets rest ({[name]} ∪ seen)
  end.

(** The interfaces that must be named. *)
Definition check_interfaces (c : Config) : option string :=
  match List.find (fun field => strings_TrimSpace field.2 =?s "")
    [("wireguard_interface", WireGuardInterface c); ("telecom_interface", TelecomInterface c); ("employee_interface", EmployeeInterface c)] with
  | Some field => Some (field.1 ++s " must not be empty")
  | None => None
  end.

Definition Config_Validate (c : Config) : option string :=
  match check_interfaces c with
  | Some err => Some err
  | None =>
  match InternalCIDRs c, TelecomRoutePrefixes c, ApprovedTargets c with
  | [], _, _ => Some "internal_cidrs must not be empty"
  | _, [], _ => Some "telecom_route_prefixes must not be empty"
  | _, _, [] => Some "approved_targets must not be empty"
  | _, _, _ =>
      match ParsePrefix (WireGuardSubnet c) with
      | None => Some "wireguard_subnet must be a valid CIDR"
      | Some wgPrefix =>
      match check_telecom_prefixes (TelecomRoutePrefixes c) ∅ with
      | Some err => Some err
      | None =>
      match check_internal_cidrs wgPrefix (InternalCIDRs c) with
      | Some err => Some err
      | None =>
      match check_targets (ApprovedTargets c) ∅ with
      | Some err => Some err
      | None =>
          if (ProbeTimeout c <? Second) || (30 * Second <? ProbeTimeout c) then Some "probe_timeout must be between 1s and 30s" else None
      end end end end
  end end.

(** The JSON text of the configuration, and the SHA-256 of a text in hexadecimal. *)
Context (json_Config : Config -> string) (sha256_hex : string -> string).

Definition Digest (c : Config) : string + string :=
  match Config_Validate c with Some err => inr err | None => inl (sha256_hex (json_Config c)) end.
End Config.

(** ** Inventory *)
Record Interface := mkInterface {
  IF_Alias : string; IF_Index : Z; IF_AddressFamily : string; IF_Status : string; IF_Forwarding : string; IF_MTU : Z
}.
#[export] Instance Interface_eq_dec : EqDecision Interface.
Proof. solve_decision. Defined.

Record Route := mkRoute {
  RT_Alias : string; RT_Index : Z; RT_DestinationPrefix : string; RT_NextHop : string; RT_Metric : Z; RT_State : string
}.
#[export] Instance Route_eq_dec : EqDecision Route.
Proof. solve_decision. Defined.

Record NAT := mkNAT {
  NAT_Name : string; NAT_InternalPrefix : string; NAT_ExternalPrefix : string; NAT_Active : bool; NAT_Store : string;
  NAT_TcpFilteringBehavior : string; NAT_UdpFilteringBehavior : string; NAT_UdpInboundRefresh : bool;
  NAT_IcmpQueryTimeout : Z; NAT_TcpEstablishedConnectionTimeout : Z; NAT_TcpTransientConnectionTimeout : Z; NAT_UdpIdleSessionTimeout : Z
}.

(** A collection of a rule is [nil] or a list; all but one hold texts. *)
Record FirewallRule := mkFirewallRule {
  FR_Name : string; FR_DisplayName : string; FR_Description : string; FR_Group : string; FR_Enabled : string; FR_Profile : string;
  FR_Direction : string; FR_Action : string; FR_EdgeTraversalPolicy : string; FR_LooseSourceMapping : bool; FR_LocalOnlyMapping : bool;
  FR_Owner : string; FR_PolicyStoreSource : string; FR_PolicyStoreSourceType : string;
  FR_Platforms : option (list string); FR_InterfaceAliases : option (list string); FR_InterfaceTypes : option (list string);
  FR_LocalAddresses : option (list string); FR_RemoteAddresses : option (list string); FR_RemoteDynamicKeywordAddresses : option (list string);
  FR_Protocols : option (list string); FR_LocalPorts : option (list string); FR_RemotePorts : option (list string);
  FR_IcmpTypes : option (list string); FR_DynamicTargets : option (list string); FR_Programs : option (list string);
  FR_Packages : option (list string); FR_Services : option (list string); FR_Authentications : option (list string);
  FR_Encryptions : option (list string); FR_OverrideBlockRules : option (list bool); FR_LocalUsers : option (list string);
  FR_RemoteUsers : option (list string); FR_RemoteMachines : option (list string)
}.

Record State := mkState { ST_Interfaces : list Interface; ST_Routes : list Route; ST_NAT : option (list NAT); ST_FirewallRules : list FirewallRule }.

Record InventoryArtifact := mkInventory { IA_SchemaVersion : Z; IA_RunID : string; IA_ConfigDigest : string; IA_CapturedAt : Z; IA_State : State }.

(** *** [inventory.Validate] *)
Fixpoint find_interface (alias : string) (interfaces : list Interface) (match_ : option Interface) : option Interface + string :=
  match interfaces with
  | [] => inl match_
  | item :: rest =>
      if negb (IF_Alias item =?s alias) then find_interface alias rest match_
      else match match_ with
      | Some m =>
          if negb (IF_Index m =? IF_Index item)
          then inr ("alias " ++s go_quote alias ++s " has conflicting interface indices " ++s pretty (IF_Index m) ++s " and " ++s pretty (IF_Index item))
          else find_interface alias rest match_
      | None => find_interface alias rest (Some item)
      end
  end.

Definition findInterface (interfaces : list Interface) (alias : string) : Interface + string :=
  match find_interface alias interfaces None with
  | inr err => inr err
  | inl None => inr ("alias " ++s go_quote alias ++s " was not found")
  | inl (Some m) => inl m
  end.

Definition active_default (route : Route) : bool := (RT_DestinationPrefix route =?s "0.0.0.0/0") && (RT_State route =?s "Alive").

Definition countActiveIPv4DefaultRoutes (routes : list Route) : nat := length (List.filter active_default routes).

Definition wireguard_route (wireGuard : Interface) (wireGuardPrefix : Prefix) (route : Route) : bool :=
  match ParsePrefix (RT_DestinationPrefix route) with
  | None => false
  | Some routePrefix =>
      (RT_Alias route =?s IF_Alias wireGuard) && (RT_Index route =? IF_Index wireGuard) && bool_decide (Masked routePrefix = Masked wireGuardPrefix)
  end.

(** The first active default route must be the employee's. *)
Definition default_owner_error (employee : Interface) (routes : list Route) : option string :=
  match List.find active_default routes with
  | None => None
  | Some route =>
      if negb (RT_Alias route =?s IF_Alias employee) || negb (RT_Index route =? IF_Index employee)
      then Some ("active IPv4 default route must belong to employee_interface " ++s go_quote (IF_Alias employee))
      else None
  end.

(** The text of the parser's error, which follows [wireguard_subnet], is left out; the
    configuration was validated, so there is none. *)
Definition Inventory_Validate (url_Parse : string -> option (string * string)) (state : State) (cfg : Config) : option string :=
  match Config_Validate url_Parse cfg with
  | Some err => Some ("validate configuration: " ++s err)
  | None =>
  if TelecomInterface cfg =?s EmployeeInterface cfg then Some "telecom_interface and employee_interface must resolve to different interfaces"
  else if (WireGuardInterface cfg =?s TelecomInterface cfg) || (WireGuardInterface cfg =?s EmployeeInterface cfg)
  then Some "wireguard_interface must resolve to a distinct interface"
  else
  match findInterface (ST_Interfaces state) (WireGuardInterface cfg) with
  | inr err => Some ("wireguard_interface: " ++s err)
  | inl wireGuard =>
  match findInterface (ST_Interfaces state) (TelecomInterface cfg) with
  | inr err => Some ("telecom_interface: " ++s err)
  | inl telecom =>
  match findInterface (ST_Interfaces state) (EmployeeInterface cfg) with
  | inr err => Some ("employee_interface: " ++s err)
  | inl employee =>
      if (IF_Index wireGuard =? IF_Index telecom) || (IF_Index wireGuard =? IF_Index employee) || (IF_Index telecom =? IF_Index employee)
      then Some "wireguard_interface, telecom_interface, and employee_interface must resolve to different interface indices"
      else if negb (countActiveIPv4DefaultRoutes (ST_Routes state) =? 1)%nat then Some "inventory must contain exactly one active IPv4 default route"
      else
        match default_owner_error employee (ST_Routes state) with
        | Some err => Some err
        | None =>
            match ParsePrefix (WireGuardSubnet cfg) with
            | None => Some "wireguard_subnet: "
            | Some wireGuardPrefix =>
                if existsb (wireguard_route wireGuard wireGuardPrefix) (ST_Routes state) then None
                else Some ("wireguard_subnet " ++s go_quote (WireGuardSubnet cfg) ++s " is not present on wireguard_interface " ++s go_quote (WireGuardInterface cfg))
            end
        end
  end end end end.

(** ** Decoding inventories ([internal/inventory/inventory.go])

    [decodeRequiredObject]: the fields that an object must have, and the assignment of its
    members to the fields of a record as [encoding/json] does it, and the collections that
    a cmdlet gives as an array or as one record. *)


(** A field of a record: [null] empties a collection and leaves any other field alone. *)
Record Field := mkField { fd_name : string; fd_collection : bool }.

Section Decode.
Context `{FoldTables}.
(** JSON values, and the value of a field. *)
Context {Raw V : Type} (is_null : Raw -> bool) (decode_value : string -> Raw -> V + string).

(** ** Members and fields *)

(** The field that a member is for: the one of its name, or else one whose name is the same
    but for the case. *)
Definition field_of (fields : list Field) (key : string) : option Field :=
  match List.find (fun f => fd_name f =?s key) fields with
  | Some f => Some f
  | None => List.find (fun f => strings_EqualFold (fd_name f) key) fields
  end.

(** The members in their order; a later one replaces what an earlier one gave. *)
Fixpoint assign (fields : list Field) (record : gmap string V) (members : list (string * Raw)) : gmap string V + string :=
  match members with
  | [] => inl record
  | (key, raw) :: members =>
      match field_of fields key with
      | None => inr ("json: unknown field " ++s go_quote key)
      | Some f =>
          if is_null raw then assign fields (if fd_collection f then delete (fd_name f) record else record) members
          else match decode_value (fd_name f) raw with
          | inr err => inr err
          | inl v => assign fields (<[fd_name f := v]> record) members
          end
      end
  end.

(** The member of a name in a map: the last one. *)
Fixpoint last_member (members : list (string * Raw)) (name : string) : option Raw :=
  match members with
  | [] => None
  | (key, raw) :: members => match last_member members name with Some r => Some r | None => if key =?s name then Some raw else None end
  end.

Fixpoint missing_field (members : list (string * Raw)) (names : list string) : option string :=
  match names with
  | [] => None
  | name :: names =>
      match last_member members name with
      | None => Some name
      | Some raw => if is_null raw then Some name else missing_field members names
      end
  end.

(** The fields that are required are those of the record. *)
Definition decodeRequiredObject (fields : list Field) (members : list (string * Raw)) : gmap string V + string :=
  match missing_field members (map fd_name fields) with
  | Some name => inr ("required field " ++s go_quote name ++s " is missing or null")
  | None => assign fields ∅ members
  end.

(** ** Every required field has a value *)

(** No two members are for the same field. *)
Definition unambiguous (fields : list Field) (members : list (string * Raw)) : Prop :=
  NoDup (omap (fun m => fd_name <$> field_of fields m.1) members).

Lemma last_member_in members name raw : last_member members name = Some raw -> (name, raw) ∈ members.
Proof.
  induction members as [|[key r] members IH]; simpl; [done|]. destruct (last_member members name) eqn:E; [intros [= ->]; right; auto|].
  destruct (key =?s name) eqn:Ek; [|done]. intros [= ->]. apply String.eqb_eq in Ek as ->. left.
Qed.

Lemma missing_field_none members names : missing_field members names = None -> Forall (fun name => exists raw, (name, raw) ∈ members /\ is_null raw = false) names.
Proof.
  induction names as [|name names IH]; simpl; [constructor|]. destruct (last_member members name) as [raw|] eqn:E; [|done].
  destruct (is_null raw) eqn:En; [done|]. intros Hm%IH. constructor; [|done]. exists raw. split; [by apply last_member_in|done].
Qed.

Lemma field_of_exact fields f : NoDup (map fd_name fields) -> f ∈ fields -> field_of fields (fd_name f) = Some f.
Proof.
  intros Hn Hf. unfold field_of. assert (List.find (fun g => fd_name g =?s fd_name f) fields = Some f) as ->; [|done].
  induction fields as [|g fields IH]; [by apply not_elem_of_nil in Hf|]. simpl. apply NoDup_cons in Hn as [Hg Hn].
  destruct (fd_name g =?s fd_name f) eqn:E.
  - apply String.eqb_eq in E. apply elem_of_cons in Hf as [->|Hf]; [done|]. exfalso. apply Hg. rewrite E. by apply list_elem_of_fmap_2.
  - apply elem_of_cons in Hf as [->|Hf]; [by rewrite String.eqb_refl in E|by apply IH].
Qed.

(** A field that no member left is for keeps its value. *)
Lemma assign_keeps fields record members out name : assign fields record members = inl out ->
  name ∉ omap (fun m => fd_name <$> field_of fields m.1) members -> out !! name = record !! name.
Proof.
  revert record. induction members as [|[key raw] members IH]; intros record; cbn [assign omap list_omap fst]; [by intros [= <-]|].
  destruct (field_of fields key) as [f|] eqn:Ef; [|done]. simpl. rewrite not_elem_of_cons. intros Ha [Hne Hni].
  destruct (is_null raw).
  - rewrite (IH _ Ha Hni). destruct (fd_collection f); [by rewrite lookup_delete_ne|done].
  - destruct (decode_value (fd_name f) raw); [|done]. by rewrite (IH _ Ha Hni), lookup_insert_ne.
Qed.

Lemma assign_gives fields record members out f raw : assign fields record members = inl out -> unambiguous fields members ->
  field_of fields (fd_name f) = Some f -> (fd_name f, raw) ∈ members -> is_null raw = false -> exists v, decode_value (fd_name f) raw = inl v /\ out !! fd_name f = Some v.
Proof.
  unfold unambiguous. revert record. induction members as [|[key r] members IH]; intros record Ha Hu Hf Hin Hnn; [by apply not_elem_of_nil in Hin|].
  cbn [assign omap list_omap fst] in *. destruct (field_of fields key) as [g|] eqn:Eg; [|done]. simpl in Hu. apply NoDup_cons in Hu as [Hg Hu].
  apply elem_of_cons in Hin as [[= <- <-]|Hin].
  - rewrite Hf in Eg. injection Eg as <-. rewrite Hnn in Ha. destruct (decode_value (fd_name f) raw) as [v|]; [|done]. exists v. split; [done|].
    by rewrite (assign_keeps _ _ _ _ _ Ha Hg), lookup_insert_eq.
  - destruct (is_null r); [by eapply IH|]. destruct (decode_value (fd_name g) r); [|done]. by eapply IH.
Qed.

(** When no two members are for the same field, an object that is accepted has given every
    field of the record a value that is not null. *)
Theorem required_fields_are_given fields members record : NoDup (map fd_name fields) -> unambiguous fields members ->
  decodeRequiredObject fields members = inl record ->
  forall f, f ∈ fields -> exists raw v, (fd_name f, raw) ∈ members /\ is_null raw = false /\ decode_value (fd_name f) raw = inl v /\ record !! fd_name f = Some v.
Proof.
  intros Hn Hu. unfold decodeRequiredObject. destruct (missing_field members _) eqn:Em; [done|]. intros Ha f Hf.
  apply missing_field_none in Em. rewrite Forall_forall in Em. destruct (Em (fd_name f)) as (raw & Hin & Hnn); [by apply list_elem_of_fmap_2|].
  destruct (assign_gives _ _ _ _ _ _ Ha Hu (field_of_exact _ _ Hn Hf) Hin Hnn) as (v & Hv & Ho). by exists raw, v.
Qed.

(** ** Collections of a cmdlet *)

(** The text of a member: absent, [null], an array or one value. *)
Definition decodeArrayOrOne {T} (parse_array : string -> list T + string) (parse_one : string -> T + string) (raw : string) : list T + string :=
  match raw with
  | "" => inr "field is missing"
  | String a _ =>
      if raw =?s "null" then inr "field is missing"
      else if byte_val a =? 91 then parse_array raw
      else match parse_one raw with inl one => inl [one] | inr err => inr err end
  end.

Definition decodeArrayOrOneAllowEmpty {T} (parse_array : string -> list T + string) (parse_one : string -> T + string) (raw : string) : list T + string :=
  match raw with
  | "" => inr "field is missing"
  | String a _ =>
      if raw =?s "null" then inr "field is missing"
      else if byte_val a =? 91 then parse_array raw
      else decodeArrayOrOne parse_array parse_one raw
  end.

(** The two are the same: an empty array is allowed by both. *)
Theorem allow_empty_is_no_exception {T} (parse_array : string -> list T + string) (parse_one : string -> T + string) raw :
  decodeArrayOrOneAllowEmpty parse_array parse_one raw = decodeArrayOrOne parse_array parse_one raw.
Proof. unfold decodeArrayOrOneAllowEmpty, decodeArrayOrOne. destruct raw as [|a r]; [done|]. repeat case_match; done. Qed.
End Decode.

(** ** A collection that is there and is lost *)
Section Lost.
#[local] Instance ascii_fold : FoldTables := {| rune_fold r := if (65 <=? r) && (r <=? 90) then r + 32 else r |}.

Definition state_fields : list Field := [mkField "interfaces" true; mkField "routes" true; mkField "nat" true; mkField "firewall_rules" true].

(** A second member whose name differs in the case empties a collection that the check for
    its presence has seen. *)
Example present_collection_is_erased :
  decodeRequiredObject (Raw := option Z) (fun raw => bool_decide (raw = None)) (fun _ raw => inl (default 0 raw)) state_fields
    [("interfaces", Some 1); ("routes", Some 2); ("nat", Some 3); ("firewall_rules", Some 4); ("Firewall_Rules", None)] =
  inl (list_to_map [("interfaces", 1); ("routes", 2); ("nat", 3)] : gmap string Z).
Proof. vm_compute. reflexivity. Qed.
End Lost.
