(* ===== verification/PocVerdict.v ===== *)
(** * The verdict on the evidence ([internal/verdict])

    [Evaluate] decides from the configuration and the five artifacts of a run, without
    looking at the system. *)
From S2P Require Import Prelude GoText AccessModel Netip PocModel.
From stdpp Require Import gmap pretty.

#[local] Open Scope string_scope.
#[local] Open Scope Z_scope.
#[local] Open Scope list_scope.

(** ** Data *)
Definition StatusPass := "PASS".
Definition StatusFail := "FAIL".
Definition StatusInconclusive := "INCONCLUSIVE".
Definition EvidenceSchemaVersion : Z := 1.
Definition MaxEvidenceAge : Z := 4 * Hour.
Definition MaxClockSkew : Z := 2 * Minute.

Record ProbeResult := mkProbeResult {
  PR_TargetName : string; PR_TargetURL : string; PR_Reachable : bool; PR_Healthy : bool; PR_StartedAt : Z; PR_FinishedAt : Z
}.

Record ProbeEvidence := mkProbeEvidence {
  PE_SchemaVersion : Z; PE_RunID : string; PE_ConfigDigest : string; PE_StartedAt : Z; PE_FinishedAt : Z;
  PE_Results : list ProbeResult; PE_InvalidRecords : Z
}.

Record MonitorRoute := mkMonitorRoute { MR_DestinationPrefix : string; MR_NextHop : string; MR_State : string }.

Record DownMonitorEvidence := mkDownMonitor {
  DM_SchemaVersion : Z; DM_RunID : string; DM_ConfigDigest : string; DM_StartedAt : Z; DM_FinishedAt : Z; DM_SampleCount : Z;
  DM_TelecomRoutePrefixes : list string; DM_ReconnectDetected : bool; DM_ReconnectAt : Z; DM_ReconnectInterfaceUp : bool;
  DM_ReconnectRoutes : list MonitorRoute
}.

Record Evidence := mkEvidence {
  RunID : string; EV_Config : option Config; EvaluatedAt : Z; InventoryBefore : option InventoryArtifact;
  TelecomUp : option ProbeEvidence; TelecomDown : option ProbeEvidence; DownMonitor : option DownMonitorEvidence;
  InventoryAfter : option InventoryArtifact; ArtifactErrors : list string
}.

Record Report := mkReport { Status : string; Code : string; Message : string; RP_RunID : string; RP_ConfigDigest : string; RP_EvaluatedAt : Z }.

Definition makeReport (e : Evidence) (digest status code message : string) : Report :=
  mkReport status code message (RunID e) digest (EvaluatedAt e).

(** ** Times *)
Definition freshTime (value evaluatedAt : Z) : bool :=
  negb (time_is_zero value) && negb (value <? evaluatedAt - MaxEvidenceAge) && negb (evaluatedAt + MaxClockSkew <? value).

Definition validInterval (start finish evaluatedAt : Z) : bool :=
  negb (time_is_zero start) && negb (finish <? start) && freshTime start evaluatedAt && freshTime finish evaluatedAt.

(** ** Probes *)
Definition validNormalizedResult (result : ProbeResult) (envelope : ProbeEvidence) : bool :=
  (strings_TrimSpace (PR_TargetName result) =?s PR_TargetName result) && negb (PR_TargetName result =?s "") && negb (PR_TargetURL result =?s "") &&
  negb (time_is_zero (PR_StartedAt result)) && negb (PR_FinishedAt result <? PR_StartedAt result) &&
  negb (PR_StartedAt result <? PE_StartedAt envelope) && negb (PE_FinishedAt envelope <? PR_FinishedAt result) &&
  (negb (PR_Healthy result) || PR_Reachable result).

Definition validProbeEnvelope (probe : option ProbeEvidence) (e : Evidence) (digest : string) : bool :=
  match probe with
  | None => false
  | Some probe =>
      if negb (PE_SchemaVersion probe =? EvidenceSchemaVersion) || negb (PE_RunID probe =?s RunID e) || negb (PE_ConfigDigest probe =?s digest) ||
        bool_decide (PE_Results probe = []) then false
      else if negb (validInterval (PE_StartedAt probe) (PE_FinishedAt probe) (EvaluatedAt e)) then false
      else forallb (fun result => validNormalizedResult result probe) (PE_Results probe)
  end.

Definition exactConfiguredTarget (result : ProbeResult) (targets : list Target) : bool :=
  existsb (fun target => (PR_TargetName result =?s TargetName_ target) && (PR_TargetURL result =?s TargetURL_ target)) targets.

Definition target_key (result : ProbeResult) : string := PR_TargetName result ++s String (byte_of 0) "" ++s PR_TargetURL result.

Fixpoint targets_once (results : list ProbeResult) (expected : list Target) (seen : gset string) : bool :=
  match results with
  | [] => true
  | result :: rest =>
      if negb (exactConfiguredTarget result expected) then false
      else if bool_decide (target_key result ∈ seen) then false
      else targets_once rest expected ({[target_key result]} ∪ seen)
  end.

Definition sameConfiguredTargets (results : list ProbeResult) (expected : list Target) : bool :=
  if negb (length results =? length expected)%nat || bool_decide (expected = []) then false else targets_once results expected ∅.

(** ** Inventories *)
Definition valid_interface (item : Interface) : bool :=
  negb ((IF_Alias item =?s "") || (IF_Index item <=? 0) || (IF_AddressFamily item =?s "") || (IF_Status item =?s "") ||
    (IF_Forwarding item =?s "") || (IF_MTU item <=? 0)).

Definition valid_route (item : Route) : bool :=
  negb ((RT_Alias item =?s "") || (RT_Index item <=? 0) || (RT_DestinationPrefix item =?s "") || (RT_NextHop item =?s "") || (RT_State item =?s "")).

Definition valid_nat (item : NAT) : bool :=
  negb ((NAT_Name item =?s "") || (NAT_InternalPrefix item =?s "") || (NAT_Store item =?s "") || (NAT_TcpFilteringBehavior item =?s "") ||
    (NAT_UdpFilteringBehavior item =?s "") || (NAT_IcmpQueryTimeout item <? 0) || (NAT_TcpEstablishedConnectionTimeout item <? 0) ||
    (NAT_TcpTransientConnectionTimeout item <? 0) || (NAT_UdpIdleSessionTimeout item <? 0)).

(** The collections of texts of a rule, in the order of the code. *)
Definition text_collections (item : FirewallRule) : list (option (list string)) :=
  [FR_Platforms item; FR_InterfaceAliases item; FR_InterfaceTypes item; FR_LocalAddresses item; FR_RemoteAddresses item;
   FR_RemoteDynamicKeywordAddresses item; FR_Protocols item; FR_LocalPorts item; FR_RemotePorts item; FR_IcmpTypes item;
   FR_DynamicTargets item; FR_Programs item; FR_Packages item; FR_Services item; FR_Authentications item; FR_Encryptions item;
   FR_LocalUsers item; FR_RemoteUsers item; FR_RemoteMachines item].

Definition presentFirewallCollections (item : FirewallRule) : bool :=
  forallb (fun c => bool_decide (is_Some c)) (text_collections item) && bool_decide (is_Some (FR_OverrideBlockRules item)).

Definition valid_firewall_rule (item : FirewallRule) : bool :=
  negb ((FR_Name item =?s "") || (FR_DisplayName item =?s "") || (FR_Enabled item =?s "") || (FR_Profile item =?s "") || (FR_Direction item =?s "") ||
    (FR_Action item =?s "") || (FR_EdgeTraversalPolicy item =?s "") || negb (presentFirewallCollections item)).

Definition validInventoryArtifact (artifact : InventoryArtifact) (e : Evidence) (cfg : Config) (digest : string) : bool :=
  if negb (IA_SchemaVersion artifact =? EvidenceSchemaVersion) || negb (IA_RunID artifact =?s RunID e) || negb (IA_ConfigDigest artifact =?s digest) ||
    negb (freshTime (IA_CapturedAt artifact) (EvaluatedAt e)) then false
  else
    let state := IA_State artifact in
    if bool_decide (ST_Interfaces state = []) || bool_decide (ST_Routes state = []) || negb (bool_decide (is_Some (ST_NAT state))) ||
      match ST_FirewallRules state with [] => true | _ => false end then false
    else
      forallb valid_interface (ST_Interfaces state) &&
      forallb (fun alias => existsb (fun item => IF_Alias item =?s alias) (ST_Interfaces state))
        [WireGuardInterface cfg; TelecomInterface cfg; EmployeeInterface cfg] &&
      forallb valid_route (ST_Routes state) && forallb valid_nat (default [] (ST_NAT state)) && forallb valid_firewall_rule (ST_FirewallRules state).

(** ** The monitor *)
Definition validMonitor (monitor : DownMonitorEvidence) (e : Evidence) (cfg : Config) (digest : string) : bool :=
  if negb (DM_SchemaVersion monitor =? EvidenceSchemaVersion) || negb (DM_RunID monitor =?s RunID e) || negb (DM_ConfigDigest monitor =?s digest) ||
    (DM_SampleCount monitor <=? 0) || negb (validInterval (DM_StartedAt monitor) (DM_FinishedAt monitor) (EvaluatedAt e)) ||
    negb (bool_decide (DM_TelecomRoutePrefixes monitor = TelecomRoutePrefixes cfg)) then false
  else if DM_ReconnectDetected monitor then
    if time_is_zero (DM_ReconnectAt monitor) || (DM_ReconnectAt monitor <? DM_StartedAt monitor) || (DM_FinishedAt monitor <? DM_ReconnectAt monitor) ||
      (negb (DM_ReconnectInterfaceUp monitor) && match DM_ReconnectRoutes monitor with [] => true | _ => false end) then false
    else forallb (fun route => negb ((MR_DestinationPrefix route =?s "") || (MR_NextHop route =?s "") || (MR_State route =?s ""))) (DM_ReconnectRoutes monitor)
  else time_is_zero (DM_ReconnectAt monitor) && negb (DM_ReconnectInterfaceUp monitor) && match DM_ReconnectRoutes monitor with [] => true | _ => false end.

(** ** The state before and after *)

(** [json.Marshal] of the items. *)
Class InventoryJSON := {
  json_Interface : Interface -> string; json_Route : Route -> string; json_NAT : NAT -> string; json_FirewallRule : FirewallRule -> string
}.

Definition sameJSONMultiset {A} (marshal : A -> string) (left right : list A) : bool :=
  if negb (length left =? length right)%nat then false
  else bool_decide (sort_strings (map marshal left) = sort_strings (map marshal right)).

(** A copy that is built from [nil]: the copy of an empty collection is [nil]. *)
Definition copy_of {A} (sorted : list A) : option (list A) := match sorted with [] => None | _ => Some sorted end.
Definition sortedCopy (values : option (list string)) : option (list string) := copy_of (sort_strings (default [] values)).
Definition bool_cmp (x y : bool) : comparison := match x, y with false, true => Lt | true, false => Gt | _, _ => Eq end.
Definition sortedBoolCopy (values : option (list bool)) : option (list bool) := copy_of (merge_sort (cmp_le bool_cmp) (default [] values)).

Definition normalize_rule (r : FirewallRule) : FirewallRule :=
  mkFirewallRule (FR_Name r) (FR_DisplayName r) (FR_Description r) (FR_Group r) (FR_Enabled r) (FR_Profile r) (FR_Direction r) (FR_Action r)
    (FR_EdgeTraversalPolicy r) (FR_LooseSourceMapping r) (FR_LocalOnlyMapping r) (FR_Owner r) (FR_PolicyStoreSource r) (FR_PolicyStoreSourceType r)
    (sortedCopy (FR_Platforms r)) (sortedCopy (FR_InterfaceAliases r)) (sortedCopy (FR_InterfaceTypes r)) (sortedCopy (FR_LocalAddresses r))
    (sortedCopy (FR_RemoteAddresses r)) (sortedCopy (FR_RemoteDynamicKeywordAddresses r)) (sortedCopy (FR_Protocols r)) (sortedCopy (FR_LocalPorts r))
    (sortedCopy (FR_RemotePorts r)) (sortedCopy (FR_IcmpTypes r)) (sortedCopy (FR_DynamicTargets r)) (sortedCopy (FR_Programs r))
    (sortedCopy (FR_Packages r)) (sortedCopy (FR_Services r)) (sortedCopy (FR_Authentications r)) (sortedCopy (FR_Encryptions r))
    (sortedBoolCopy (FR_OverrideBlockRules r)) (sortedCopy (FR_LocalUsers r)) (sortedCopy (FR_RemoteUsers r)) (sortedCopy (FR_RemoteMachines r)).

Section Evaluate.
Context `{InventoryJSON} (url_Parse : string -> option (string * string)) (json_Config : Config -> string) (sha256_hex : string -> string).

Definition sameFirewallRules (left right : list FirewallRule) : bool :=
  sameJSONMultiset json_FirewallRule (map normalize_rule left) (map normalize_rule right).

Definition sameState (left right : State) : bool :=
  sameJSONMultiset json_Interface (ST_Interfaces left) (ST_Interfaces right) && sameJSONMultiset json_Route (ST_Routes left) (ST_Routes right) &&
  sameJSONMultiset json_NAT (default [] (ST_NAT left)) (default [] (ST_NAT right)) &&
  sameFirewallRules (ST_FirewallRules left) (ST_FirewallRules right).

(** ** Order of the captures *)
Definition validChronology (before after : InventoryArtifact) (up down : ProbeEvidence) (monitor : DownMonitorEvidence) : bool :=
  negb (PE_StartedAt up <? IA_CapturedAt before) && negb (DM_StartedAt monitor <? PE_FinishedAt up) && negb (PE_StartedAt down <? DM_StartedAt monitor) &&
  negb (DM_FinishedAt monitor <? PE_FinishedAt down) && negb (IA_CapturedAt after <? DM_FinishedAt monitor).

Definition expectedContext (e : Evidence) : option (Config * string) :=
  match EV_Config e with
  | None => None
  | Some cfg =>
      if bool_decide (is_Some (Config_Validate url_Parse cfg)) || negb (strings_TrimSpace (RunID e) =?s RunID e) || (String.length (RunID e) <? 8)%nat ||
        time_is_zero (EvaluatedAt e) then None
      else match Digest url_Parse json_Config sha256_hex cfg with inl digest => Some (cfg, digest) | inr _ => None end
  end.

(** The first result of the native probe that was reachable. *)
Definition leaked (e : Evidence) (cfg : Config) (probe : ProbeEvidence) : option ProbeResult :=
  List.find (fun result => validNormalizedResult result probe && exactConfiguredTarget result (ApprovedTargets cfg) && PR_Reachable result) (PE_Results probe).

Definition leak_report (e : Evidence) (context : option (Config * string)) : option Report :=
  match context, TelecomDown e with
  | Some (cfg, digest), Some down =>
      if validProbeEnvelope (Some down) e digest then
        match leaked e cfg down with
        | Some result => Some (makeReport e digest StatusFail "FAIL_LEAK"
            ("approved target " ++s go_quote (PR_TargetName result) ++s " remained reachable while telecom was down"))
        | None => None
        end
      else None
  | _, _ => None
  end.

Definition invalid_report (e : Evidence) (digest message : string) : Report :=
  makeReport e digest StatusInconclusive "INCONCLUSIVE_INVALID_EVIDENCE" message.

(** The decision on evidence that is complete. *)
Definition evaluate_complete (e : Evidence) (cfg : Config) (digest : string) (before after : InventoryArtifact) (up down : ProbeEvidence)
    (monitor : DownMonitorEvidence) : Report :=
  if negb (bool_decide (ArtifactErrors e = [])) then invalid_report e digest "one or more evidence artifacts could not be decoded strictly"
  else if negb (validInventoryArtifact before e cfg digest) || negb (validProbeEnvelope (Some up) e digest) || negb (PE_InvalidRecords up =? 0) ||
    negb (validProbeEnvelope (Some down) e digest) || negb (PE_InvalidRecords down =? 0) || negb (validMonitor monitor e cfg digest) ||
    negb (validInventoryArtifact after e cfg digest)
  then invalid_report e digest "evidence identity, freshness, or structure is invalid"
  else if negb (sameConfiguredTargets (PE_Results up) (ApprovedTargets cfg)) || negb (sameConfiguredTargets (PE_Results down) (ApprovedTargets cfg))
  then invalid_report e digest "probe evidence must contain each exact configured target name and URL once"
  else if negb (validChronology before after up down monitor) then invalid_report e digest "evidence capture chronology is invalid"
  else if negb (sameState (IA_State before) (IA_State after))
  then makeReport e digest StatusFail "FAIL_STATE_DRIFT" "interface, route, NAT, or firewall inventory changed after rollback"
  else if DM_ReconnectDetected monitor
  then makeReport e digest StatusFail "FAIL_TELECOM_RECONNECTED"
    "telecom interface or configured external/default route reappeared while the native probe was running"
  else match sort_strings (map PR_TargetName (List.filter (fun result => negb (PR_Healthy result)) (PE_Results up))) with
  | first :: _ => makeReport e digest StatusFail "FAIL_NO_FORWARD"
      ("approved target " ++s go_quote first ++s " did not return a healthy HTTPS response while telecom was up")
  | [] => makeReport e digest StatusPass "PASS"
      "approved-target forwarding worked, failed closed under continuous monitoring, and exact network state was restored"
  end.

Definition Evaluate (e : Evidence) : Report :=
  let context := expectedContext e in
  match leak_report e context with
  | Some report => report
  | None =>
      match context, InventoryBefore e, TelecomUp e, TelecomDown e, DownMonitor e, InventoryAfter e with
      | Some (cfg, digest), Some before, Some up, Some down, Some monitor, Some after =>
          evaluate_complete e cfg digest before after up down monitor
      | _, _, _, _, _, _ =>
          invalid_report e (match context with Some (_, digest) => digest | None => "" end)
            "validated configuration and all five bound evidence artifacts are required"
      end
  end.
End Evaluate.
