(* ===== verification/PocVerdictSpec.v ===== *)
(** * What a verdict says

    A pass proves forwarding, containment and restoration; a leak is reported before
    anything else; and the comparison of two states is equality up to order. *)
From S2P Require Import Prelude GoText AccessModel Netip PocModel PocVerdict.
From stdpp Require Import gmap pretty.

#[local] Open Scope string_scope.
#[local] Open Scope Z_scope.
#[local] Open Scope list_scope.

(** ** Targets, each once *)
Definition result_target (r : ProbeResult) : Target := mkTarget (PR_TargetName r) (PR_TargetURL r).

Lemma exactConfiguredTarget_spec r targets : exactConfiguredTarget r targets = true <-> result_target r ∈ targets.
Proof.
  unfold exactConfiguredTarget. rewrite existsb_exists. split.
  - intros (t & Hin & [Hn%String.eqb_eq Hu%String.eqb_eq]%andb_true_iff). unfold result_target. rewrite Hn, Hu.
    rewrite list_elem_of_In. by destruct t.
  - intros Hin. exists (result_target r). rewrite <- list_elem_of_In. split; [done|]. by rewrite !String.eqb_refl.
Qed.

Lemma targets_once_spec results expected seen : targets_once results expected seen = true ->
  Forall (fun r => result_target r ∈ expected) results /\ NoDup (map result_target results) /\
  Forall (fun r => target_key r ∉ seen) results.
Proof.
  revert seen. induction results as [|r results IH]; intros seen; cbn [targets_once map]; [repeat split; constructor|].
  destruct (exactConfiguredTarget r expected) eqn:Ee; [|done]. cbn [negb]. case_bool_decide as Hs; [done|].
  intros (Hf & Hn & Hk)%IH. split; [constructor; [by apply exactConfiguredTarget_spec|done]|]. split.
  - constructor; [|done]. intros (r' & Hr & Hin)%list_elem_of_fmap. rewrite Forall_forall in Hk. apply (Hk r' Hin).
    assert (E : target_key r' = target_key r) by (unfold target_key; unfold result_target in Hr; by injection Hr as -> ->). rewrite E. set_solver.
  - constructor; [done|]. eapply Forall_impl; [exact Hk|]. set_solver.
Qed.

(** The results are the configured targets, in some order. *)
Lemma sameConfiguredTargets_spec results expected : sameConfiguredTargets results expected = true ->
  map result_target results ≡ₚ expected.
Proof.
  unfold sameConfiguredTargets. destruct (Nat.eqb_spec (length results) (length expected)) as [El|]; [|done]. cbn [negb orb].
  case_bool_decide; [done|]. intros (Hf & Hn & _)%targets_once_spec.
  apply (submseteq_length_Permutation (map result_target results) expected); [|rewrite length_map; lia].
  apply NoDup_submseteq; [done|]. intros t (r & -> & Hin)%list_elem_of_fmap. rewrite Forall_forall in Hf. by apply Hf.
Qed.

Lemma target_has_result results expected t : sameConfiguredTargets results expected = true -> t ∈ expected ->
  exists r, r ∈ results /\ result_target r = t.
Proof.
  intros Hs Hin. rewrite <- (sameConfiguredTargets_spec _ _ Hs) in Hin. apply list_elem_of_fmap in Hin as (r & -> & Hr). by exists r.
Qed.

(** ** States *)

(** [json.Marshal] tells the items apart. *)
Class LawfulJSON `{InventoryJSON} : Prop := {
  json_Interface_inj :: Inj eq eq json_Interface; json_Route_inj :: Inj eq eq json_Route;
  json_NAT_inj :: Inj eq eq json_NAT; json_FirewallRule_inj :: Inj eq eq json_FirewallRule
}.

Lemma string_compare_eq (x y : string) : String.compare x y = Eq -> x = y.
Proof. apply String.compare_eq_iff. Qed.

Lemma sort_strings_iff l k : sort_strings l = sort_strings k <-> l ≡ₚ k.
Proof.
  unfold sort_strings. split; [|intros Hp; apply sort_permutation; [apply _|exact string_compare_eq|exact Hp]].
  intros E. by rewrite <- (merge_sort_Permutation (cmp_le String.compare) l), E, merge_sort_Permutation.
Qed.

Lemma fmap_Permutation_inj {A B} (f : A -> B) `{!Inj eq eq f} (l k : list A) : map f l ≡ₚ map f k -> l ≡ₚ k.
Proof.
  revert k. induction l as [|x l IH]; intros k Hp; cbn [map] in Hp.
  - apply Permutation_nil in Hp. by destruct k.
  - assert (Hin : f x ∈ map f k) by (rewrite <- Hp; by left). apply list_elem_of_fmap in Hin as (y & E%(inj f) & Hin). subst y.
    apply elem_of_Permutation in Hin as [k' Hk]. rewrite Hk. constructor. apply IH.
    apply (Permutation_cons_inv (a := f x)). rewrite Hp, Hk. reflexivity.
Qed.

Lemma sameJSONMultiset_iff {A} (marshal : A -> string) `{!Inj eq eq marshal} l k : sameJSONMultiset marshal l k = true <-> l ≡ₚ k.
Proof.
  unfold sameJSONMultiset. destruct (Nat.eqb_spec (length l) (length k)) as [El|Hl]; cbn [negb].
  - rewrite bool_decide_eq_true, sort_strings_iff. split; [by apply fmap_Permutation_inj|by intros ->].
  - split; [done|]. by intros E%Permutation_length.
Qed.

Lemma sameJSONMultiset_refl {A} (marshal : A -> string) l : sameJSONMultiset marshal l l = true.
Proof. unfold sameJSONMultiset. rewrite Nat.eqb_refl. by apply bool_decide_eq_true_2. Qed.

Lemma copy_of_inj {A} (l k : list A) : copy_of l = copy_of k <-> l = k.
Proof. destruct l, k; simpl; split; congruence. Qed.

Lemma sortedCopy_iff a b : sortedCopy a = sortedCopy b <-> default [] a ≡ₚ default [] b.
Proof. unfold sortedCopy. rewrite copy_of_inj. apply sort_strings_iff. Qed.

#[export] Instance lawful_bool : LawfulCmp bool_cmp.
Proof. split; [intros []|intros [] []|intros [] [] []|intros [] [] []]; done. Qed.

Lemma sortedBoolCopy_iff a b : sortedBoolCopy a = sortedBoolCopy b <-> default [] a ≡ₚ default [] b.
Proof.
  unfold sortedBoolCopy. rewrite copy_of_inj. split.
  - intros E. by rewrite <- (merge_sort_Permutation (cmp_le bool_cmp) (default [] a)), E, merge_sort_Permutation.
  - intros Hp. apply sort_permutation; [apply _|by intros [] []|exact Hp].
Qed.

(** The scalar fields of a rule. *)
Definition rule_scalars (r : FirewallRule) :=
  ([FR_Name r; FR_DisplayName r; FR_Description r; FR_Group r; FR_Enabled r; FR_Profile r; FR_Direction r; FR_Action r; FR_EdgeTraversalPolicy r;
    FR_Owner r; FR_PolicyStoreSource r; FR_PolicyStoreSourceType r], [FR_LooseSourceMapping r; FR_LocalOnlyMapping r]).

(** Two rules that differ at most in the order inside their collections. *)
Definition rule_equiv (r s : FirewallRule) : Prop :=
  rule_scalars r = rule_scalars s /\
  Forall2 (fun a b => default [] a ≡ₚ default [] b) (text_collections r) (text_collections s) /\
  default [] (FR_OverrideBlockRules r) ≡ₚ default [] (FR_OverrideBlockRules s).

Lemma normalize_rule_iff r s : normalize_rule r = normalize_rule s <-> rule_equiv r s.
Proof.
  destruct r, s. unfold rule_equiv, normalize_rule, rule_scalars, text_collections. cbn. rewrite !Forall2_cons_iff.
  split.
  - intros [=]. rewrite <- !sortedCopy_iff, <- sortedBoolCopy_iff. repeat (split; [congruence|]). split; [|done]. by repeat (split; [done|]).
  - rewrite <- !sortedCopy_iff, <- sortedBoolCopy_iff. intros ([=] & Hc & Hb). destruct_and! Hc. f_equal; assumption.
Qed.

(** Two states that differ at most in orders. *)
Record state_equiv (left right : State) : Prop := {
  se_interfaces : ST_Interfaces left ≡ₚ ST_Interfaces right;
  se_routes : ST_Routes left ≡ₚ ST_Routes right;
  se_nat : default [] (ST_NAT left) ≡ₚ default [] (ST_NAT right);
  se_rules : exists rules, rules ≡ₚ ST_FirewallRules right /\ Forall2 rule_equiv (ST_FirewallRules left) rules
}.

Lemma rules_equiv_iff left right : map normalize_rule left ≡ₚ map normalize_rule right <->
  exists rules, rules ≡ₚ right /\ Forall2 rule_equiv left rules.
Proof.
  split.
  - intros Hp. apply Permutation_map_inv in Hp as (rules & E & Hp). exists rules. split; [by symmetry|].
    clear Hp right. revert rules E. induction left as [|r left IH]; intros [|s rules] E; try done. cbn [map] in E.
    apply cons_eq_inj in E as [Er El]. constructor; [by apply normalize_rule_iff|by apply IH].
  - intros (rules & <- & Hf). induction Hf as [|r s left rules Hr _ IH]; [done|]. cbn [map]. apply normalize_rule_iff in Hr. rewrite Hr. by constructor.
Qed.

Lemma sameState_equiv `{LawfulJSON} left right : sameState left right = true <-> state_equiv left right.
Proof.
  unfold sameState, sameFirewallRules. rewrite !andb_true_iff, !sameJSONMultiset_iff, rules_equiv_iff by apply _.
  split; [intros [[[? ?] ?] ?]; by constructor|intros [? ? ? ?]; tauto].
Qed.


(** ** Verdicts *)
Section Verdicts.
Context `{LawfulJSON} (url_Parse : string -> option (string * string)) (json_Config : Config -> string) (sha256_hex : string -> string).
Abbreviation expectedContext := (expectedContext url_Parse json_Config sha256_hex).
Abbreviation Evaluate := (Evaluate url_Parse json_Config sha256_hex).

Lemma expectedContext_spec e cfg digest : expectedContext e = Some (cfg, digest) ->
  EV_Config e = Some cfg /\ Config_Validate url_Parse cfg = None /\ digest = sha256_hex (json_Config cfg) /\ (8 <= String.length (RunID e))%nat.
Proof.
  unfold PocVerdict.expectedContext, Digest. destruct (EV_Config e) as [c|]; [|done]. destruct (Config_Validate url_Parse c) eqn:Ev.
  { rewrite bool_decide_eq_true_2 by eauto. done. }
  rewrite bool_decide_eq_false_2 by (by intros []). cbn [orb]. destruct (negb _); [done|]. cbn [orb].
  destruct (Nat.ltb_spec (String.length (RunID e)) 8); [done|]. cbn [orb]. destruct (time_is_zero _); [done|]. intros [= <- <-]. done.
Qed.

(** The target that remained reachable. *)
Definition leak (e : Evidence) : Prop := exists cfg digest down r,
  expectedContext e = Some (cfg, digest) /\ TelecomDown e = Some down /\ validProbeEnvelope (Some down) e digest = true /\
  r ∈ PE_Results down /\ result_target r ∈ ApprovedTargets cfg /\ PR_Reachable r = true.

Lemma envelope_results down e digest r : validProbeEnvelope (Some down) e digest = true -> r ∈ PE_Results down -> validNormalizedResult r down = true.
Proof.
  unfold validProbeEnvelope. destruct (_ || _); [done|]. destruct (negb _); [done|]. rewrite forallb_forall. intros Hall Hin.
  apply Hall. by rewrite <- list_elem_of_In.
Qed.

Lemma leak_report_iff e : is_Some (leak_report e (expectedContext e)) <-> leak e.
Proof.
  unfold leak_report, leak. destruct (expectedContext e) as [[cfg digest]|]; [|split; [by intros []|by intros (? & ? & ? & ? & ? & _)]].
  destruct (TelecomDown e) as [down|]; [|split; [by intros []|by intros (? & ? & ? & ? & _ & ? & _)]].
  destruct (validProbeEnvelope (Some down) e digest) eqn:Ev.
  - destruct (leaked e cfg down) as [r|] eqn:El.
    + split; [intros _|by eauto]. apply find_some in El as [Hin Hr]. rewrite !andb_true_iff in Hr. destruct Hr as [[_ Ht] Hr].
      exists cfg, digest, down, r. rewrite list_elem_of_In. apply exactConfiguredTarget_spec in Ht. done.
    + split; [by intros []|]. intros (? & ? & ? & r & [= <- <-] & [= <-] & _ & Hin & Ht & Hr). exfalso.
      rewrite list_elem_of_In in Hin. pose proof (find_none _ _ El r Hin) as Hn. cbv beta in Hn.
      rewrite (envelope_results _ _ _ _ Ev), Hr in Hn by (by rewrite list_elem_of_In).
      by rewrite (proj2 (exactConfiguredTarget_spec _ _) Ht) in Hn.
  - split; [by intros []|]. intros (? & ? & ? & r & [= <- <-] & [= <-] & Hv & _). congruence.
Qed.

Lemma leak_report_code e report : leak_report e (expectedContext e) = Some report -> Code report = "FAIL_LEAK" /\ Status report = StatusFail.
Proof.
  unfold leak_report. repeat case_match; try done. by intros [= <-].
Qed.

(** The decision on complete evidence is never a leak. *)
Lemma evaluate_complete_code e cfg digest before after up down monitor :
  Code (evaluate_complete e cfg digest before after up down monitor) <> "FAIL_LEAK".
Proof. unfold evaluate_complete, invalid_report, makeReport. repeat case_match; cbn [Code]; discriminate. Qed.

Lemma leak_code_iff e : Code (Evaluate e) = "FAIL_LEAK" <-> leak e.
Proof.
  rewrite <- leak_report_iff. unfold PocVerdict.Evaluate. destruct (leak_report e (expectedContext e)) as [report|] eqn:El.
  - split; [by eauto|intros _]. by apply leak_report_code in El as [-> _].
  - split; [|by intros []]. intros Hc. exfalso. revert Hc. repeat case_match; try apply evaluate_complete_code;
      unfold invalid_report, makeReport; cbn [Code]; discriminate.
Qed.

(** A leak is reported exactly when the native probe, bound to the run and well formed,
    reached an approved target, whatever else the evidence holds or lacks. *)
Theorem leak_is_reported_first e : Code (Evaluate e) = "FAIL_LEAK" <-> leak e.
Proof. apply leak_code_iff. Qed.

(** What a pass proves of the five artifacts. *)
Record proven (e : Evidence) (cfg : Config) (before after : InventoryArtifact) (up down : ProbeEvidence) (monitor : DownMonitorEvidence) : Prop := {
  pv_bound : let digest := sha256_hex (json_Config cfg) in
    Forall (fun b => b = (RunID e, digest)) [(IA_RunID before, IA_ConfigDigest before); (PE_RunID up, PE_ConfigDigest up);
      (PE_RunID down, PE_ConfigDigest down); (DM_RunID monitor, DM_ConfigDigest monitor); (IA_RunID after, IA_ConfigDigest after)];
  pv_forwarded t : t ∈ ApprovedTargets cfg -> exists r, r ∈ PE_Results up /\ result_target r = t /\ PR_Healthy r = true;
  pv_contained t : t ∈ ApprovedTargets cfg -> exists r, r ∈ PE_Results down /\ result_target r = t /\ PR_Reachable r = false;
  pv_monitored : DM_ReconnectDetected monitor = false /\ DM_TelecomRoutePrefixes monitor = TelecomRoutePrefixes cfg /\ 0 < DM_SampleCount monitor;
  pv_ordered : IA_CapturedAt before <= PE_StartedAt up <= PE_FinishedAt up /\ PE_FinishedAt up <= DM_StartedAt monitor <= PE_StartedAt down /\
    PE_StartedAt down <= PE_FinishedAt down <= DM_FinishedAt monitor /\ DM_FinishedAt monitor <= IA_CapturedAt after;
  pv_fresh : EvaluatedAt e - MaxEvidenceAge <= IA_CapturedAt before /\ IA_CapturedAt after <= EvaluatedAt e + MaxClockSkew;
  pv_restored : state_equiv (IA_State before) (IA_State after)
}.

Lemma inventory_bound artifact e cfg digest : validInventoryArtifact artifact e cfg digest = true ->
  IA_RunID artifact = RunID e /\ IA_ConfigDigest artifact = digest /\
  EvaluatedAt e - MaxEvidenceAge <= IA_CapturedAt artifact <= EvaluatedAt e + MaxClockSkew.
Proof.
  unfold validInventoryArtifact. destruct (_ || negb (freshTime _ _)) eqn:E; [done|]. intros _.
  rewrite !orb_false_iff, !negb_false_iff, !String.eqb_eq in E. destruct E as [[[_ Hr] Hd] Hf].
  unfold freshTime in Hf. bool_to_prop. split; [done|]. split; [done|]. lia.
Qed.

Lemma envelope_bound probe e digest : validProbeEnvelope (Some probe) e digest = true ->
  PE_RunID probe = RunID e /\ PE_ConfigDigest probe = digest /\ PE_StartedAt probe <= PE_FinishedAt probe.
Proof.
  unfold validProbeEnvelope. destruct (_ || bool_decide _) eqn:E; [done|]. destruct (validInterval _ _ _) eqn:Ei; [|done]. intros _.
  rewrite !orb_false_iff, !negb_false_iff, !String.eqb_eq in E. destruct E as [[[_ Hr] Hd] _].
  unfold validInterval in Ei. bool_to_prop. split; [done|]. split; [done|]. lia.
Qed.

Lemma monitor_bound monitor e cfg digest : validMonitor monitor e cfg digest = true ->
  DM_RunID monitor = RunID e /\ DM_ConfigDigest monitor = digest /\ 0 < DM_SampleCount monitor /\
  DM_TelecomRoutePrefixes monitor = TelecomRoutePrefixes cfg.
Proof.
  unfold validMonitor. destruct (_ || negb (bool_decide _)) eqn:E; [done|]. intros _.
  rewrite !orb_false_iff, !negb_false_iff, !String.eqb_eq, bool_decide_eq_true in E. destruct E as [[[[[_ Hr] Hd] Hs] _] Hp].
  bool_to_prop. split; [done|]. split; [done|]. split; [lia|done].
Qed.

(** No unhealthy result is left when the list of failures is empty. *)
Lemma all_healthy results : sort_strings (map PR_TargetName (List.filter (fun result => negb (PR_Healthy result)) results)) = [] ->
  forall r, r ∈ results -> PR_Healthy r = true.
Proof.
  intros E r Hin. destruct (PR_Healthy r) eqn:Eh; [done|]. exfalso.
  assert (Hm : PR_TargetName r ∈ sort_strings (map PR_TargetName (List.filter (fun result => negb (PR_Healthy result)) results))).
  { unfold sort_strings. rewrite merge_sort_Permutation. apply list_elem_of_fmap. exists r. split; [done|]. rewrite list_elem_of_In, List.filter_In.
    rewrite <- list_elem_of_In, Eh. done. }
  rewrite E in Hm. by apply not_elem_of_nil in Hm.
Qed.

Lemma no_leak_unreachable e cfg down digest r : expectedContext e = Some (cfg, digest) -> TelecomDown e = Some down ->
  leak_report e (expectedContext e) = None -> validProbeEnvelope (Some down) e digest = true ->
  sameConfiguredTargets (PE_Results down) (ApprovedTargets cfg) = true -> r ∈ PE_Results down -> PR_Reachable r = false.
Proof.
  intros Ec Ed El Ev Hs Hin. destruct (PR_Reachable r) eqn:Er; [|done]. exfalso.
  assert (Hl : is_Some (leak_report e (expectedContext e))).
  { apply leak_report_iff. exists cfg, digest, down, r. do 4 (split; [done|]). split; [|done].
    rewrite <- (sameConfiguredTargets_spec _ _ Hs). apply list_elem_of_fmap. by exists r. }
  rewrite El in Hl. by destruct Hl.
Qed.

Lemma evaluate_complete_pass e cfg digest before after up down monitor :
  Status (evaluate_complete e cfg digest before after up down monitor) = StatusPass ->
  validInventoryArtifact before e cfg digest = true /\ validProbeEnvelope (Some up) e digest = true /\
  validProbeEnvelope (Some down) e digest = true /\ validMonitor monitor e cfg digest = true /\ validInventoryArtifact after e cfg digest = true /\
  sameConfiguredTargets (PE_Results up) (ApprovedTargets cfg) = true /\ sameConfiguredTargets (PE_Results down) (ApprovedTargets cfg) = true /\
  validChronology before after up down monitor = true /\ sameState (IA_State before) (IA_State after) = true /\
  DM_ReconnectDetected monitor = false /\ (forall r, r ∈ PE_Results up -> PR_Healthy r = true).
Proof.
  unfold evaluate_complete. destruct (negb (bool_decide _)); [done|].
  destruct (_ || negb (validInventoryArtifact after e cfg digest)) eqn:E1; [done|]. destruct (_ || negb (sameConfiguredTargets _ _)) eqn:E2; [done|].
  destruct (validChronology _ _ _ _ _) eqn:E3; [|done]. destruct (sameState _ _) eqn:E4; [|done]. cbn [negb].
  destruct (DM_ReconnectDetected monitor) eqn:E5; [done|]. destruct (sort_strings _) eqn:E6; [|done]. intros _.
  rewrite !orb_false_iff, !negb_false_iff in E1. rewrite !orb_false_iff, !negb_false_iff in E2. destruct_and! E1. destruct_and! E2.
  repeat (split; [done|]). by apply all_healthy.
Qed.

End Verdicts.
