(* ===== verification/PocProbe.v ===== *)
(** * The probe and its records ([internal/probe], [cmd/poc-probe])

    [run] of [internal/probe] on the answers that the system gives it, and
    [normalizeProbeResult] and [loadVerdictEvidence] of [cmd/poc-probe], which turn the
    recorded results into evidence. *)
From S2P Require Import Prelude GoText AccessModel Netip PocModel PocVerdict.
From stdpp Require Import gmap pretty.

#[local] Open Scope string_scope.
#[local] Open Scope Z_scope.
#[local] Open Scope list_scope.

(** ** Results *)
Record Result := mkResult {
  TargetName : string; TargetURL : string; ResolvedIPs : list string; SelectedIP : string; TCPLatency : Z; TLSStatus : string;
  HTTPStatus : Z; Bytes : Z; StartedAt : Z; FinishedAt : Z; ErrorCode : string
}.

(** ** The probe *)
Inductive CtxError := DeadlineExceeded | Canceled.

(** The answers of the system during one probe, in the order in which they are given; the
    context is asked again after a failure. *)
Record Answers := mkAnswers {
  a_started : Z;
  a_ctx_start : option CtxError;
  a_lookup : option (list Addr);
  a_ctx_lookup : option CtxError;
  a_request : bool;
  a_dial : string -> option Z;
  a_handshake : option bool;
  a_response : option Z;
  a_ctx_do : option CtxError;
  a_copied : Z;
  a_copy_ok : bool;
  a_ctx_copy : option CtxError;
  a_finished : Z
}.

Definition contextErrorCode (err : CtxError) : string := match err with DeadlineExceeded => "context_deadline" | Canceled => "tcp_failed" end.

Definition errorCodeForContext (ctx : option CtxError) (fallback : string) : string :=
  match ctx with Some err => contextErrorCode err | None => fallback end.

(** [net.JoinHostPort] *)
Definition JoinHostPort (host port : string) : string :=
  if string_all (fun a => negb (byte_val a =? 58) && negb (byte_val a =? 37)) host then host ++s ":" ++s port else "[" ++s host ++s "]:" ++s port.

Definition IsValid (a : Addr) : bool := match a with AddrInvalid => false | _ => true end.

(** [time.Since] of a dial that worked is at least a nanosecond. *)
Definition positive_latency (elapsed : Z) : Z := if elapsed <=? 0 then 1 else elapsed.

Definition maxBodyBytes : Z := 64 * 1024.

Section Run.
(** [url.Parse] with [Hostname] and [Port]. *)
Context (url_HostPort : string -> option (string * string)).

(** The dial of the transport, and the result that its callbacks leave. *)
Definition dial_address (selected port : string) : string := JoinHostPort selected (if port =?s "" then "443" else port).

Definition handshake_status (handshake : option bool) : string :=
  match handshake with None => "not_attempted" | Some true => "validated" | Some false => "failed" end.

Definition latency_of (dialed : option Z) : Z := match dialed with Some elapsed => positive_latency elapsed | None => 0 end.

(** The error code of a request that failed. *)
Definition do_error_code (ctx : option CtxError) (handshake : option bool) : string :=
  match ctx with
  | Some err => contextErrorCode err
  | None => match handshake with Some false => "tls_failed" | _ => "tcp_failed" end
  end.

Definition run (target : Target) (a : Answers) : Result :=
  let result ips selected latency tls status bytes code :=
    mkResult (TargetName_ target) (TargetURL_ target) ips selected latency tls status bytes (a_started a) (a_finished a) code in
  let early code := result [] "" 0 "not_attempted" 0 0 code in
  match a_ctx_start a with
  | Some err => early (contextErrorCode err)
  | None =>
  match url_HostPort (TargetURL_ target) with
  | None => early "dns_failed"
  | Some (hostname, port) =>
      if hostname =?s "" then early "dns_failed"
      else match a_lookup a with
      | None | Some [] => early (errorCodeForContext (a_ctx_lookup a) "dns_failed")
      | Some ips =>
          match map Addr_String (List.filter IsValid ips) with
          | [] => early "dns_failed"
          | (selected :: _) as resolved =>
              if negb (a_request a) then result resolved selected 0 "not_attempted" 0 0 "dns_failed"
              else
                let dialed := a_dial a (dial_address selected port) in
                let latency := latency_of dialed in
                let tls := handshake_status (a_handshake a) in
                match a_response a with
                | None => result resolved selected latency tls 0 0 (do_error_code (a_ctx_do a) (a_handshake a))
                | Some status =>
                    if negb (a_copy_ok a) then result resolved selected latency tls status (a_copied a) (errorCodeForContext (a_ctx_copy a) "body_failed")
                    else if (status <? 200) || (300 <=? status) then result resolved selected latency tls status (a_copied a) "http_rejected"
                    else result resolved selected latency tls status (a_copied a) ""
                end
          end
      end
  end end.
End Run.

(** ** Normalisation *)

(** [net.ParseIP]: an address without a zone; a mapped address is the address it maps. *)
Definition ParseIP (s : string) : option Addr :=
  match ParseAddr s with
  | Some (Addr6 v z) => if z =?s "" then Some (Unmap (Addr6 v z)) else None
  | other => other
  end.

(** The loop of [validSelectedIP] over the resolved addresses. *)
Fixpoint selected_loop (resolved : list string) (selectedIP : Addr) (seen : gset string) (found : bool) : bool :=
  match resolved with
  | [] => found
  | value :: rest =>
      match ParseIP value with
      | None => false
      | Some candidate =>
          if bool_decide (Addr_String candidate ∈ seen) then false
          else selected_loop rest selectedIP ({[Addr_String candidate]} ∪ seen) (found || bool_decide (candidate = selectedIP))
      end
  end.

Definition validSelectedIP (resolved : list string) (selected : string) : bool :=
  match ParseIP selected, resolved with
  | None, _ | _, [] => false
  | Some selectedIP, _ => selected_loop resolved selectedIP ∅ false
  end.

Section Normalize.
Context (url_Parse : string -> option (string * string)).

Definition normalizeProbeResult (result : Result) : option ProbeResult :=
  let normalized reachable healthy :=
    mkProbeResult (TargetName result) (TargetURL result) reachable healthy (StartedAt result) (FinishedAt result) in
  if negb (strings_TrimSpace (TargetName result) =?s TargetName result) || (TargetName result =?s "") || negb (https_url url_Parse (TargetURL result)) ||
    time_is_zero (StartedAt result) || time_is_zero (FinishedAt result) || (FinishedAt result <? StartedAt result) ||
    (TCPLatency result <? 0) || (Bytes result <? 0) then None
  else
    let httpObserved := (100 <=? HTTPStatus result) && (HTTPStatus result <=? 599) in
    if negb (HTTPStatus result =? 0) && negb httpObserved then None
    else
      let networkIdentity := validSelectedIP (ResolvedIPs result) (SelectedIP result) in
      let noNetworkFields := bool_decide (ResolvedIPs result = []) && (SelectedIP result =?s "") && (TCPLatency result =? 0) &&
        (TLSStatus result =?s "not_attempted") && (HTTPStatus result =? 0) && (Bytes result =? 0) in
      let preTLSFailure := networkIdentity && (TCPLatency result =? 0) && (TLSStatus result =?s "not_attempted") && (HTTPStatus result =? 0) && (Bytes result =? 0) in
      let tcpObserved := networkIdentity && (0 <? TCPLatency result) in
      let tlsFailed := tcpObserved && (TLSStatus result =?s "failed") && (HTTPStatus result =? 0) && (Bytes result =? 0) in
      let tlsValidated := tcpObserved && (TLSStatus result =?s "validated") in
      let success := (200 <=? HTTPStatus result) && (HTTPStatus result <? 300) in
      if httpObserved && negb tlsValidated then None
      else if ErrorCode result =?s "" then if negb tlsValidated || negb success then None else Some (normalized true true)
      else if ErrorCode result =?s "dns_failed" then if negb noNetworkFields then None else Some (normalized false false)
      else if ErrorCode result =?s "tcp_failed" then if negb preTLSFailure then None else Some (normalized false false)
      else if ErrorCode result =?s "tls_failed" then if negb tlsFailed then None else Some (normalized true false)
      else if ErrorCode result =?s "http_rejected" then if negb tlsValidated || negb httpObserved || success then None else Some (normalized true false)
      else if ErrorCode result =?s "body_failed" then if negb tlsValidated || negb httpObserved then None else Some (normalized true false)
      else if ErrorCode result =?s "context_deadline" then
        if noNetworkFields || preTLSFailure then Some (normalized false false)
        else if tcpObserved && (TLSStatus result =?s "not_attempted") && (HTTPStatus result =? 0) && (Bytes result =? 0) then Some (normalized true false)
        else if tlsFailed then Some (normalized true false)
        else if tlsValidated && ((HTTPStatus result =? 0) || httpObserved) then Some (normalized true false)
        else None
      else None.

(** ** Reading the artifacts *)
Record rawProbeArtifact := mkRaw {
  RW_SchemaVersion : Z; RW_RunID : string; RW_ConfigDigest : string; RW_StartedAt : Z; RW_FinishedAt : Z; RW_Results : list string
}.

(** [decodeStrictJSON] of a record. *)
Context (decode_record : string -> option Result).

Fixpoint normalize_records (records : list string) : list ProbeResult * Z :=
  match records with
  | [] => ([], 0)
  | record :: rest =>
      let '(results, invalid) := normalize_records rest in
      match decode_record record with
      | None => (results, invalid + 1)
      | Some result =>
          match normalizeProbeResult result with
          | None => (results, invalid + 1)
          | Some converted => (converted :: results, invalid)
          end
      end
  end.

Definition probe_evidence (raw : rawProbeArtifact) : ProbeEvidence :=
  let '(results, invalid) := normalize_records (RW_Results raw) in
  mkProbeEvidence (RW_SchemaVersion raw) (RW_RunID raw) (RW_ConfigDigest raw) (RW_StartedAt raw) (RW_FinishedAt raw) results invalid.

(** The files of the artifact directory, read and decoded. *)
Record ArtifactFiles := mkFiles {
  read_inventory : string -> InventoryArtifact + string;
  read_raw : string -> rawProbeArtifact + string;
  read_monitor : string -> DownMonitorEvidence + string
}.

Definition readProbeEvidence (files : ArtifactFiles) (name : string) : ProbeEvidence + string :=
  match read_raw files name with inr err => inr err | inl raw => inl (probe_evidence raw) end.

Definition artifact_of {A} (read : A + string) : option A := match read with inl x => Some x | inr _ => None end.
Definition artifact_error {A} (name : string) (read : A + string) : list string :=
  match read with inl _ => [] | inr err => [name ++s ": " ++s err] end.

Definition loadVerdictEvidence (files : ArtifactFiles) (cfg : Config) (runID : string) (evaluatedAt : Z) : Evidence :=
  let before := read_inventory files "inventory-before.json" in
  let up := readProbeEvidence files "probe-telecom-up.json" in
  let down := readProbeEvidence files "probe-telecom-down.json" in
  let monitor := read_monitor files "probe-telecom-down-monitor.json" in
  let after := read_inventory files "inventory-after.json" in
  mkEvidence runID (Some cfg) evaluatedAt (artifact_of before) (artifact_of up) (artifact_of down) (artifact_of monitor) (artifact_of after)
    (artifact_error "inventory-before.json" before ++ artifact_error "probe-telecom-up.json" up ++ artifact_error "probe-telecom-down.json" down ++
     artifact_error "probe-telecom-down-monitor.json" monitor ++ artifact_error "inventory-after.json" after).
End Normalize.
