(* ===== verification/PocProbeSpec.v ===== *)
(** * What the records say

    The results of the probe are normalised, and what they say of the target is what the
    probe saw; a reachable target that is recorded is reported, whatever happened to the
    other artifacts. *)
From S2P Require Import Prelude GoText AccessModel Netip NetPrefixes PocModel PocVerdict PocVerdictSpec PocProbe.
From stdpp Require Import gmap pretty.

#[local] Open Scope string_scope.
#[local] Open Scope Z_scope.
#[local] Open Scope list_scope.

(** ** Addresses of a lookup *)

(** The text of the address is read back. *)
Definition reads_back (ip : Addr) : Prop := ParseIP (Addr_String ip) = Some (Unmap ip).

Lemma ipv4_reads_back v : 0 <= v < 2 ^ 32 -> reads_back (Addr4 v).
Proof. intros Hv. unfold reads_back, ParseIP. cbn [Addr_String]. by rewrite ParseAddr_string4. Qed.

Lemma selected_loop_spec ips selected seen found : Forall reads_back ips -> NoDup (map (fun ip => Addr_String (Unmap ip)) ips) ->
  Forall (fun ip => Addr_String (Unmap ip) ∉ seen) ips ->
  selected_loop (map Addr_String ips) selected seen found = found || existsb (fun ip => bool_decide (Unmap ip = selected)) ips.
Proof.
  revert seen found. induction ips as [|ip ips IH]; intros seen found Hr Hn Hs; cbn [map selected_loop existsb]; [by rewrite orb_false_r|].
  apply Forall_cons in Hr as [E Hr]. cbn [map] in Hn. apply NoDup_cons in Hn as [Hi Hn]. apply Forall_cons in Hs as [Hs1 Hs].
  unfold reads_back in E. rewrite E, bool_decide_eq_false_2 by done. rewrite IH; [by rewrite orb_assoc|done|done|].
  rewrite Forall_forall in Hs |- *. intros x Hx. specialize (Hs x Hx).
  assert (Addr_String (Unmap x) <> Addr_String (Unmap ip)) by (intros Ex; apply Hi; rewrite <- Ex; apply list_elem_of_fmap; by exists x).
  set_solver.
Qed.

Lemma selected_is_valid ip ips : Forall reads_back (ip :: ips) -> NoDup (map (fun ip => Addr_String (Unmap ip)) (ip :: ips)) ->
  validSelectedIP (map Addr_String (ip :: ips)) (Addr_String ip) = true.
Proof.
  intros Hr Hn. pose proof (Forall_inv Hr) as E. unfold validSelectedIP, reads_back in *. rewrite E.
  change (selected_loop (map Addr_String (ip :: ips)) (Unmap ip) ∅ false = true).
  rewrite selected_loop_spec; [|done|done|apply Forall_forall; intros; apply not_elem_of_empty]. cbn [existsb orb].
  by rewrite bool_decide_eq_true_2.
Qed.

(** ** What the system answers *)
Record sound_answers (a : Answers) : Prop := {
  sa_times : 0 < a_started a <= a_finished a;
  sa_deadline : Forall (fun c => c <> Some Canceled) [a_ctx_start a; a_ctx_lookup a; a_ctx_do a; a_ctx_copy a];
  sa_request : a_request a = true;
  sa_lookup ips : a_lookup a = Some ips ->
    Forall reads_back (List.filter IsValid ips) /\ NoDup (map (fun ip => Addr_String (Unmap ip)) (List.filter IsValid ips));
  sa_handshake address : is_Some (a_handshake a) -> is_Some (a_dial a address);
  sa_response status : a_response a = Some status -> a_handshake a = Some true /\ 100 <= status <= 599 /\ 0 <= a_copied a;
  sa_failure address : a_response a = None -> a_ctx_do a = None -> is_Some (a_dial a address) -> a_handshake a = Some false
}.

(** The target is one that the configuration accepts. *)
Definition approved_target (url_Parse : string -> option (string * string)) (target : Target) : Prop :=
  strings_TrimSpace (TargetName_ target) = TargetName_ target /\ TargetName_ target <> "" /\ https_url url_Parse (TargetURL_ target) = true.

Lemma positive_latency_pos elapsed : 0 < positive_latency elapsed.
Proof. unfold positive_latency. destruct (Z.leb_spec elapsed 0); lia. Qed.

Section Probe.
Context (url_HostPort url_Parse : string -> option (string * string)).

(** The tests that only look at the envelope of the record are passed. *)
Lemma normalize_envelope name url ips selected latency tls status bytes t0 t1 code :
  approved_target url_Parse (mkTarget name url) -> 0 < t0 <= t1 -> 0 <= latency -> 0 <= bytes -> (status = 0 \/ 100 <= status <= 599) ->
  let r := mkResult name url ips selected latency tls status bytes t0 t1 code in
  negb (strings_TrimSpace name =?s name) || (name =?s "") || negb (https_url url_Parse url) || time_is_zero t0 || time_is_zero t1 || (t1 <? t0) ||
    (latency <? 0) || (bytes <? 0) = false /\ negb (status =? 0) && negb ((100 <=? status) && (status <=? 599)) = false.
Proof.
  intros (Ht & Hn & Hu) Hti Hl Hb Hs. cbn [TargetName_ TargetURL_] in *. cbv zeta.
  rewrite Ht, String.eqb_refl, Hu, (proj2 (String.eqb_neq name "") Hn). unfold time_is_zero. cbn [negb orb]. split; lia.
Qed.

(** *** The shapes of a result *)
Section Shapes.
Context (name url : string) (t0 t1 : Z).
Hypothesis Happroved : approved_target url_Parse (mkTarget name url).
Hypothesis Htimes : 0 < t0 <= t1.

Ltac shape Henv :=
  unfold normalizeProbeResult;
  cbn [TargetName TargetURL ResolvedIPs SelectedIP TCPLatency TLSStatus HTTPStatus Bytes StartedAt FinishedAt ErrorCode];
  destruct Henv as [-> ->].

(** Nothing was reached. *)
Lemma normalize_early code : code = "dns_failed" \/ code = "context_deadline" ->
  normalizeProbeResult url_Parse (mkResult name url [] "" 0 "not_attempted" 0 0 t0 t1 code) = Some (mkProbeResult name url false false t0 t1).
Proof.
  intros Hc. pose proof (normalize_envelope name url [] "" 0 "not_attempted" 0 0 t0 t1 code Happroved Htimes ltac:(lia) ltac:(lia) ltac:(by left)) as Henv.
  shape Henv. by destruct Hc as [-> | ->].
Qed.

Context (ips : list string) (selected : string).
Hypothesis Hids : validSelectedIP ips selected = true.

(** No connection was made. *)
Lemma normalize_undialed code : code = "tcp_failed" \/ code = "context_deadline" ->
  normalizeProbeResult url_Parse (mkResult name url ips selected 0 "not_attempted" 0 0 t0 t1 code) = Some (mkProbeResult name url false false t0 t1).
Proof.
  intros Hc. pose proof (normalize_envelope name url ips selected 0 "not_attempted" 0 0 t0 t1 code Happroved Htimes ltac:(lia) ltac:(lia) ltac:(by left)) as Henv.
  shape Henv. rewrite Hids. cbn. destruct Hc as [-> | ->]; cbn; [done|]. by rewrite orb_true_r.
Qed.

Context (latency : Z).
Hypothesis Hlatency : 0 < latency.

(** A connection was made, and the request did not end. *)
Lemma normalize_unanswered tls code : (tls = "not_attempted" \/ tls = "failed" \/ tls = "validated") ->
  code = "context_deadline" \/ (code = "tls_failed" /\ tls = "failed") ->
  normalizeProbeResult url_Parse (mkResult name url ips selected latency tls 0 0 t0 t1 code) = Some (mkProbeResult name url true false t0 t1).
Proof.
  intros Ht Hc. pose proof (normalize_envelope name url ips selected latency tls 0 0 t0 t1 code Happroved Htimes ltac:(lia) ltac:(lia) ltac:(by left)) as Henv.
  shape Henv. rewrite Hids. rewrite (proj2 (Z.eqb_neq latency 0)), (proj2 (Z.ltb_lt 0 latency)) by lia.
  rewrite !andb_false_r. destruct Hc as [-> | [-> ->]]; [|done]. destruct Ht as [-> | [-> | ->]]; done.
Qed.

(** An answer came. *)
Lemma normalize_answered status bytes code : 100 <= status <= 599 -> 0 <= bytes ->
  code = "" /\ 200 <= status < 300 \/ code = "http_rejected" /\ ~ 200 <= status < 300 \/ code = "body_failed" \/ code = "context_deadline" ->
  normalizeProbeResult url_Parse (mkResult name url ips selected latency "validated" status bytes t0 t1 code) =
    Some (mkProbeResult name url true (code =?s "") t0 t1).
Proof.
  intros Hs Hb Hc. pose proof (normalize_envelope name url ips selected latency "validated" status bytes t0 t1 code Happroved Htimes ltac:(lia) ltac:(lia) ltac:(by right)) as Henv.
  shape Henv. rewrite Hids. rewrite (proj2 (Z.eqb_neq latency 0)), (proj2 (Z.ltb_lt 0 latency)), (proj2 (Z.leb_le 100 status)), (proj2 (Z.leb_le status 599)) by lia.
  rewrite !andb_false_r. destruct Hc as [[-> Hok]|[[-> Hno]|[->| ->]]]; cbn; [| |done|by rewrite ?orb_true_r].
  - by rewrite (proj2 (Z.leb_le 200 status)), (proj2 (Z.ltb_lt status 300)) by lia.
  - assert (E : (200 <=? status) && (status <? 300) = false) by lia. by rewrite E.
Qed.
End Shapes.

(** A deadline is the only thing that a context reports. *)
Lemma deadline_code c fallback : c <> Some Canceled -> errorCodeForContext c fallback = "context_deadline" \/ errorCodeForContext c fallback = fallback.
Proof. destruct c as [[]|]; [by left|done|by right]. Qed.

(** What the probe saw of the target. *)
Definition saw_connection (r : Result) : bool := 0 <? TCPLatency r.
Definition saw_success (r : Result) : bool := ErrorCode r =?s "".

Definition recorded_as (r : Result) : ProbeResult :=
  mkProbeResult (TargetName r) (TargetURL r) (saw_connection r) (saw_success r) (StartedAt r) (FinishedAt r).

(** On the answers of a sound system every result of the probe is a record, reachable when
    a connection was made and healthy when the answer was a success. *)
Theorem every_probe_is_recorded target a : approved_target url_Parse target -> sound_answers a ->
  normalizeProbeResult url_Parse (run url_HostPort target a) = Some (recorded_as (run url_HostPort target a)).
Proof.
  destruct target as [name url]. intros Ha [Ht Hd Hq Hl Hh Hr Hf]. repeat apply Forall_cons in Hd as [? Hd]. unfold run, recorded_as. cbv zeta. cbn [TargetName_ TargetURL_].
  assert (Hearly : forall code, code = "dns_failed" \/ code = "context_deadline" ->
    normalizeProbeResult url_Parse (mkResult name url [] "" 0 "not_attempted" 0 0 (a_started a) (a_finished a) code) =
    Some (mkProbeResult name url false (code =?s "") (a_started a) (a_finished a))) by (intros code [-> | ->]; rewrite normalize_early by auto; done).
  destruct (a_ctx_start a) as [[]|] eqn:E0; [by apply Hearly; right|done|]. destruct (url_HostPort url) as [[hostname port]|]; [|by apply Hearly; left].
  destruct (hostname =?s ""); [by apply Hearly; left|].
  destruct (a_lookup a) as [ips|] eqn:El; [|apply Hearly; by destruct (deadline_code (a_ctx_lookup a) "dns_failed") as [-> | ->]; auto].
  destruct ips as [|ip0 ips0]; [apply Hearly; by destruct (deadline_code (a_ctx_lookup a) "dns_failed") as [-> | ->]; auto|].
  destruct (Hl _ eq_refl) as [Hrb Hnd]. destruct (List.filter IsValid (ip0 :: ips0)) as [|ip ips] eqn:Ef; [by apply Hearly; left|].
  pose proof (selected_is_valid ip ips Hrb Hnd) as Hids. cbn [map]. rewrite Hq. cbn [negb].
  set (address := dial_address (Addr_String ip) port). specialize (Hh address). specialize (Hf address).
  destruct (a_response a) as [status|] eqn:Er.
  - destruct (Hr _ eq_refl) as (Eh & Hs & Hb). rewrite Eh in Hh |- *. destruct (Hh ltac:(eauto)) as [elapsed Ed]. rewrite Ed.
    pose proof (positive_latency_pos elapsed) as Hp. cbn [latency_of handshake_status].
    destruct (a_copy_ok a); cbn [negb].
    + destruct ((status <? 200) || (300 <=? status)) eqn:Es; unfold saw_connection, saw_success; cbn [TCPLatency ErrorCode TargetName TargetURL StartedAt FinishedAt];
        rewrite (proj2 (Z.ltb_lt _ _) Hp); apply normalize_answered; try done; [right; left|left]; (split; [done|]); bool_to_prop; lia.
    + unfold saw_connection, saw_success. cbn [TCPLatency ErrorCode TargetName TargetURL StartedAt FinishedAt]. rewrite (proj2 (Z.ltb_lt _ _) Hp).
      apply normalize_answered; try done. right; right. destruct (deadline_code (a_ctx_copy a) "body_failed") as [-> | ->]; auto.
  - unfold saw_connection, saw_success. cbn [TCPLatency ErrorCode TargetName TargetURL StartedAt FinishedAt].
    destruct (a_dial a address) as [elapsed|] eqn:Ed; cbn [latency_of].
    + pose proof (positive_latency_pos elapsed) as Hp. rewrite (proj2 (Z.ltb_lt _ _) Hp).
      destruct (a_ctx_do a) as [[]|] eqn:Ec; [|done|].
      * cbn [do_error_code contextErrorCode]. apply normalize_unanswered; try done; [|by left]. destruct (a_handshake a) as [[]|]; cbn; auto.
      * rewrite (Hf eq_refl eq_refl) by eauto. apply normalize_unanswered; try done; [by right; left|by right].
    + assert (Eh : a_handshake a = None) by (destruct (a_handshake a); [destruct Hh; eauto; done|done]). rewrite Eh. cbn [handshake_status].
      destruct (a_ctx_do a) as [[]|] eqn:Ec; [|done|]; cbn [do_error_code contextErrorCode]; apply normalize_undialed; auto.
Qed.

(** A connection that the target closes after the handshake, without an answer, leaves a
    result that is not a record: the target was reached, and nothing says so. *)
Lemma closed_connection_is_not_recorded target a hostname port ips ip rest elapsed :
  a_ctx_start a = None -> url_HostPort (TargetURL_ target) = Some (hostname, port) -> hostname <> "" ->
  a_lookup a = Some ips -> List.filter IsValid ips = ip :: rest -> a_request a = true ->
  a_dial a (dial_address (Addr_String ip) port) = Some elapsed -> a_handshake a = Some true -> a_response a = None -> a_ctx_do a = None ->
  saw_connection (run url_HostPort target a) = true /\ normalizeProbeResult url_Parse (run url_HostPort target a) = None.
Proof.
  intros E0 Eu Hh El Ef Eq Ed Et Er Ec.
  assert (E : run url_HostPort target a = mkResult (TargetName_ target) (TargetURL_ target) (map Addr_String (ip :: rest)) (Addr_String ip)
    (positive_latency elapsed) "validated" 0 0 (a_started a) (a_finished a) "tcp_failed").
  { unfold run. rewrite E0, Eu, (proj2 (String.eqb_neq hostname "") Hh), El. destruct ips as [|x xs]; [done|]. rewrite Ef. cbn [map].
    rewrite Eq. cbn [negb]. rewrite Ed, Et, Er, Ec. reflexivity. }
  rewrite E. split; [unfold saw_connection; cbn [TCPLatency]; apply Z.ltb_lt, positive_latency_pos|].
  unfold normalizeProbeResult. cbn [ErrorCode TLSStatus HTTPStatus]. destruct (_ || (Bytes _ <? 0)); [done|]. cbn. by rewrite !andb_false_r.
Qed.
End Probe.

(** ** From the records to the verdict *)
Section Records.
Context `{LawfulJSON} (url_Parse : string -> option (string * string)) (json_Config : Config -> string) (sha256_hex : string -> string).
Context (decode_record : string -> option Result).

(** An empty text is not an HTTPS address. *)
Hypothesis no_empty_url : https_url url_Parse "" = false.

Lemma normalize_valid r n envelope : normalizeProbeResult url_Parse r = Some n ->
  PE_StartedAt envelope <= StartedAt r -> FinishedAt r <= PE_FinishedAt envelope ->
  validNormalizedResult n envelope = true /\ result_target n = mkTarget (TargetName r) (TargetURL r).
Proof.
  unfold normalizeProbeResult. destruct (_ || (Bytes r <? 0)) eqn:E; [done|]. intros Hn Hs Hf.
  rewrite !orb_false_iff, !negb_false_iff in E. destruct E as [[[[[[[Ht He] Hu] Hz] _] Ho] _] _].
  assert (Hurl : (TargetURL r =?s "") = false) by (destruct (String.eqb_spec (TargetURL r) "") as [Eu|]; [congruence|done]).
  assert (Hok : forall reachable healthy, negb healthy || reachable = true ->
    validNormalizedResult (mkProbeResult (TargetName r) (TargetURL r) reachable healthy (StartedAt r) (FinishedAt r)) envelope = true).
  { intros reachable healthy Hi. unfold validNormalizedResult. cbn [PR_TargetName PR_TargetURL PR_StartedAt PR_FinishedAt PR_Reachable PR_Healthy].
    rewrite Ht, He, Hurl, Hz, Hi. cbn [negb andb]. lia. }
  repeat (case_match; try done); injection Hn as <-; split; try done; by apply Hok.
Qed.

Lemma normalize_records_in records n : n ∈ (normalize_records url_Parse decode_record records).1 <->
  exists record r, record ∈ records /\ decode_record record = Some r /\ normalizeProbeResult url_Parse r = Some n.
Proof.
  induction records as [|record records IH]; cbn [normalize_records]; [split; [by intros Hn%not_elem_of_nil|by intros (? & ? & Hr%not_elem_of_nil & _)]|].
  destruct (normalize_records _ _ records) as [results invalid]. cbn [fst] in IH.
  assert (Htail : (exists record' r, record' ∈ record :: records /\ decode_record record' = Some r /\ normalizeProbeResult url_Parse r = Some n) <->
    (exists r, decode_record record = Some r /\ normalizeProbeResult url_Parse r = Some n) \/ n ∈ results).
  { rewrite IH. set_solver. }
  rewrite Htail. destruct (decode_record record) as [r|]; [|set_solver]. destruct (normalizeProbeResult url_Parse r) as [n'|] eqn:En; set_solver.
Qed.

(** The envelope of the artifact belongs to the run, and its records lie in its interval. *)
Record bound_artifact (raw : rawProbeArtifact) (cfg : Config) (runID : string) (evaluatedAt : Z) : Prop := {
  ba_schema : RW_SchemaVersion raw = EvidenceSchemaVersion;
  ba_run : RW_RunID raw = runID;
  ba_config : RW_ConfigDigest raw = sha256_hex (json_Config cfg);
  ba_interval : validInterval (RW_StartedAt raw) (RW_FinishedAt raw) evaluatedAt = true;
  ba_records record r n : record ∈ RW_Results raw -> decode_record record = Some r -> normalizeProbeResult url_Parse r = Some n ->
    RW_StartedAt raw <= StartedAt r /\ FinishedAt r <= RW_FinishedAt raw
}.

(** A record of the native probe that says an approved target was reached is reported as a
    leak, whatever became of the other records and of the other four artifacts. *)
Theorem recorded_leak_is_reported files cfg runID evaluatedAt raw record r n :
  Config_Validate url_Parse cfg = None -> strings_TrimSpace runID = runID -> (8 <= String.length runID)%nat -> evaluatedAt <> 0 ->
  read_raw files "probe-telecom-down.json" = inl raw -> bound_artifact raw cfg runID evaluatedAt ->
  record ∈ RW_Results raw -> decode_record record = Some r -> normalizeProbeResult url_Parse r = Some n ->
  PR_Reachable n = true -> mkTarget (TargetName r) (TargetURL r) ∈ ApprovedTargets cfg ->
  Code (Evaluate url_Parse json_Config sha256_hex (loadVerdictEvidence url_Parse decode_record files cfg runID evaluatedAt)) = "FAIL_LEAK".
Proof.
  intros Hv Ht Hl He Hraw [Hs Hr Hd Hi Hrec] Hin Hdec Hn Hreach Htarget. apply leak_code_iff.
  exists cfg, (sha256_hex (json_Config cfg)), (probe_evidence url_Parse decode_record raw), n.
  pose proof (normalize_records_in (RW_Results raw)) as Hall.
  assert (Hvalid : forall m, m ∈ (normalize_records url_Parse decode_record (RW_Results raw)).1 ->
    validNormalizedResult m (probe_evidence url_Parse decode_record raw) = true).
  { intros m (record' & r' & Hin' & Hdec' & Hm)%Hall. destruct (Hrec _ _ _ Hin' Hdec' Hm) as [Hs' Hf'].
    apply (normalize_valid r' m); [done|..]; unfold probe_evidence; by destruct (normalize_records _ _ _). }
  assert (Hnin : n ∈ (normalize_records url_Parse decode_record (RW_Results raw)).1) by (apply Hall; by exists record, r).
  split; [|split; [|split; [|split; [|split]]]].
  - unfold expectedContext, Digest, loadVerdictEvidence. cbn [EV_Config RunID EvaluatedAt]. rewrite Hv, bool_decide_eq_false_2 by (by intros []).
    rewrite Ht, String.eqb_refl, (proj2 (Nat.ltb_ge _ _) Hl). unfold time_is_zero. by rewrite (proj2 (Z.eqb_neq _ _) He).
  - unfold loadVerdictEvidence, readProbeEvidence. cbn [TelecomDown]. by rewrite Hraw.
  - unfold validProbeEnvelope, probe_evidence in *. destruct (normalize_records _ _ _) as [results invalid]. cbn [fst] in *.
    cbn [PE_SchemaVersion PE_RunID PE_ConfigDigest PE_StartedAt PE_FinishedAt PE_Results loadVerdictEvidence RunID EvaluatedAt].
    rewrite Hs, Hr, Hd, Z.eqb_refl, !String.eqb_refl, bool_decide_eq_false_2 by (intros ->; by apply not_elem_of_nil in Hnin).
    cbn [negb orb]. rewrite Hi. cbn [negb]. apply forallb_forall. intros m Hm. rewrite <- list_elem_of_In in Hm. by apply Hvalid.
  - unfold probe_evidence. by destruct (normalize_records _ _ _).
  - destruct (Hrec _ _ _ Hin Hdec Hn) as [Hs' Hf'].
    destruct (normalize_valid r n (probe_evidence url_Parse decode_record raw) Hn) as [_ ->]; [unfold probe_evidence; by destruct (normalize_records _ _ _)..|done].
  - done.
Qed.
End Records.
