(* ===== verification/PocDemo.v ===== *)
(** * The evidence of the proof of concept on concrete inputs *)
From S2P Require Import Prelude GoText AccessModel Netip PocModel PocVerdict PocVerdictSpec PocProbe PocProbeSpec.
From stdpp Require Import gmap pretty.

#[local] Open Scope string_scope.
#[local] Open Scope Z_scope.
#[local] Open Scope list_scope.

(** ** An encoding that tells the items apart *)
Fixpoint bits (p : positive) : string :=
  match p with xH => "" | xO p => String (byte_of 48) (bits p) | xI p => String (byte_of 49) (bits p) end.

#[local] Instance bits_inj : Inj eq eq bits.
Proof. intros p. induction p as [p IH|p IH|]; intros [q|q|] E; try done; simpl in E; injection E as E; f_equal; by apply IH. Qed.

Definition pack (l : list positive) : string := bits (encode l).

#[local] Instance pack_inj : Inj eq eq pack.
Proof. intros l k E. apply (inj bits) in E. by apply (inj encode) in E. Qed.

Ltac unpack := intros [] [] E; apply (inj pack) in E; cbn in E;
  repeat (apply cons_eq_inj in E; let E1 := fresh in destruct E as [E1 E]; apply (inj encode) in E1; subst); reflexivity.

#[export] Instance demo_json : InventoryJSON := {
  json_Interface i := pack [encode (IF_Alias i); encode (IF_Index i); encode (IF_AddressFamily i); encode (IF_Status i); encode (IF_Forwarding i); encode (IF_MTU i)];
  json_Route r := pack [encode (RT_Alias r); encode (RT_Index r); encode (RT_DestinationPrefix r); encode (RT_NextHop r); encode (RT_Metric r); encode (RT_State r)];
  json_NAT n := pack [encode (NAT_Name n); encode (NAT_InternalPrefix n); encode (NAT_ExternalPrefix n); encode (NAT_Active n); encode (NAT_Store n);
    encode (NAT_TcpFilteringBehavior n); encode (NAT_UdpFilteringBehavior n); encode (NAT_UdpInboundRefresh n); encode (NAT_IcmpQueryTimeout n);
    encode (NAT_TcpEstablishedConnectionTimeout n); encode (NAT_TcpTransientConnectionTimeout n); encode (NAT_UdpIdleSessionTimeout n)];
  json_FirewallRule r := pack [encode (FR_Name r); encode (FR_DisplayName r); encode (FR_Description r); encode (FR_Group r); encode (FR_Enabled r);
    encode (FR_Profile r); encode (FR_Direction r); encode (FR_Action r); encode (FR_EdgeTraversalPolicy r); encode (FR_LooseSourceMapping r);
    encode (FR_LocalOnlyMapping r); encode (FR_Owner r); encode (FR_PolicyStoreSource r); encode (FR_PolicyStoreSourceType r);
    encode (FR_Platforms r); encode (FR_InterfaceAliases r); encode (FR_InterfaceTypes r); encode (FR_LocalAddresses r); encode (FR_RemoteAddresses r);
    encode (FR_RemoteDynamicKeywordAddresses r); encode (FR_Protocols r); encode (FR_LocalPorts r); encode (FR_RemotePorts r); encode (FR_IcmpTypes r);
    encode (FR_DynamicTargets r); encode (FR_Programs r); encode (FR_Packages r); encode (FR_Services r); encode (FR_Authentications r);
    encode (FR_Encryptions r); encode (FR_OverrideBlockRules r); encode (FR_LocalUsers r); encode (FR_RemoteUsers r); encode (FR_RemoteMachines r)]
}.

#[export] Instance demo_lawful : LawfulJSON.
Proof. split; unpack. Qed.

(** ** A run that passes *)
Definition demo_url (url : string) : option (string * string) :=
  if strings_HasPrefix url "https://" then Some ("https", "host") else None.
Definition demo_host (url : string) : option (string * string) := Some ("approved.example", "").
Definition demo_json_Config (c : Config) : string := WireGuardSubnet c.
Definition demo_sha (s : string) : string := s.

Definition demo_target : Target := mkTarget "approved" "https://approved.example/health".
Definition demo_config : Config :=
  mkConfig "10.99.0.0/24" "wg0" "telecom" ["0.0.0.0/0"] "employee" ["10.0.0.0/16"] [demo_target] (5 * Second).

Definition demo_now : Z := 24 * Hour.
Definition demo_any : option (list string) := Some ["Any"].
Definition demo_rule : FirewallRule :=
  mkFirewallRule "r1" "rule" "" "" "True" "Any" "Inbound" "Allow" "Block" false false "" "" ""
    (Some []) demo_any demo_any demo_any demo_any (Some []) demo_any demo_any demo_any demo_any demo_any demo_any (Some []) demo_any demo_any demo_any
    (Some [false]) demo_any demo_any demo_any.
Definition demo_state (flip : bool) : State :=
  let interfaces := [mkInterface "wg0" 3 "IPv4" "Connected" "Enabled" 1420; mkInterface "telecom" 4 "IPv4" "Connected" "Enabled" 1500;
    mkInterface "employee" 5 "IPv4" "Connected" "Enabled" 1500] in
  mkState (if flip then rev interfaces else interfaces) [mkRoute "employee" 5 "0.0.0.0/0" "10.0.0.1" 10 "Alive"; mkRoute "wg0" 3 "10.99.0.0/24" "0.0.0.0" 5 "Alive"]
    (Some []) [demo_rule].
Definition demo_inventory (at_ : Z) (flip : bool) : InventoryArtifact := mkInventory 1 "run-00000001" "10.99.0.0/24" (demo_now - at_ * Minute) (demo_state flip).
Definition demo_probe (start finish : Z) (results : list ProbeResult) : ProbeEvidence :=
  mkProbeEvidence 1 "run-00000001" "10.99.0.0/24" (demo_now - start * Minute) (demo_now - finish * Minute) results 0.
Definition demo_result (start finish : Z) (ok : bool) : ProbeResult :=
  mkProbeResult "approved" "https://approved.example/health" ok ok (demo_now - start * Minute) (demo_now - finish * Minute).
Definition demo_monitor : DownMonitorEvidence :=
  mkDownMonitor 1 "run-00000001" "10.99.0.0/24" (demo_now - 40 * Minute) (demo_now - 20 * Minute) 9 ["0.0.0.0/0"] false 0 false [].
Definition demo_evidence (down : list ProbeResult) : Evidence :=
  mkEvidence "run-00000001" (Some demo_config) demo_now (Some (demo_inventory 60 false)) (Some (demo_probe 50 45 [demo_result 49 46 true]))
    (Some (demo_probe 35 25 down)) (Some demo_monitor) (Some (demo_inventory 10 true)) [].

Abbreviation demo_verdict := (Evaluate demo_url demo_json_Config demo_sha).

Example demo_verdicts : map (fun e => (Status (demo_verdict e), Code (demo_verdict e)))
  [demo_evidence [demo_result 34 26 false]; demo_evidence [demo_result 34 26 true]; demo_evidence []] =
  [("PASS", "PASS"); ("FAIL", "FAIL_LEAK"); ("INCONCLUSIVE", "INCONCLUSIVE_INVALID_EVIDENCE")].
Proof. vm_compute. reflexivity. Qed.

Example demo_inventory_valid : Inventory_Validate demo_url (demo_state false) demo_config = None.
Proof. vm_compute. reflexivity. Qed.

(** A record of the same artifact whose times lie outside the artifact's interval hides the
    leak that its sibling shows. *)
Lemma sibling_hides_a_leak :
  Code (demo_verdict (demo_evidence [demo_result 34 26 true])) = "FAIL_LEAK" /\
  Code (demo_verdict (demo_evidence [demo_result 34 26 true; demo_result 34 24 false])) = "INCONCLUSIVE_INVALID_EVIDENCE".
Proof. split; vm_compute; reflexivity. Qed.



(** ** A probe *)
Definition demo_answers (response : option Z) : Answers :=
  mkAnswers (demo_now - 34 * Minute) None (Some [Addr4 134744072]) None true (fun _ => Some 0) (Some true) response None 12 true None (demo_now - 26 * Minute).

Lemma demo_answers_sound status : 100 <= status <= 599 -> sound_answers (demo_answers (Some status)).
Proof.
  intros Hs. split; try done.
  - by repeat constructor.
  - intros ips [= <-]. split; [constructor; [by apply ipv4_reads_back|constructor]|apply NoDup_singleton].
  - intros status' [= <-]. done.
Qed.

Example demo_runs : map (fun a => (ErrorCode (run demo_host demo_target a), normalizeProbeResult demo_url (run demo_host demo_target a)))
  [demo_answers (Some 204); demo_answers (Some 503); demo_answers None] =
  [("", Some (demo_result 34 26 true));
   ("http_rejected", Some (mkProbeResult "approved" "https://approved.example/health" true false (demo_now - 34 * Minute) (demo_now - 26 * Minute)));
   ("tcp_failed", None)].
Proof. vm_compute. reflexivity. Qed.

Lemma every_probe_is_recorded_witness :
  normalizeProbeResult demo_url (run demo_host demo_target (demo_answers (Some 204))) = Some (demo_result 34 26 true).
Proof.
  rewrite (every_probe_is_recorded demo_host demo_url demo_target (demo_answers (Some 204)));
    [vm_compute; reflexivity|repeat split; vm_compute; done|by apply demo_answers_sound].
Defined.

Definition demo_raw : rawProbeArtifact :=
  mkRaw 1 "run-00000001" "10.99.0.0/24" (demo_now - 35 * Minute) (demo_now - 25 * Minute) ["unreadable"; "leak"].
Definition demo_decode (record : string) : option Result :=
  if record =?s "leak" then Some (run demo_host demo_target (demo_answers (Some 503))) else None.
Definition demo_files : ArtifactFiles :=
  mkFiles (fun _ => inr "missing") (fun name => if name =?s "probe-telecom-down.json" then inl demo_raw else inr "missing") (fun _ => inr "missing").

Lemma recorded_leak_is_reported_witness :
  Code (demo_verdict (loadVerdictEvidence demo_url demo_decode demo_files demo_config "run-00000001" demo_now)) = "FAIL_LEAK".
Proof.
  apply (recorded_leak_is_reported demo_url demo_json_Config demo_sha demo_decode eq_refl demo_files demo_config "run-00000001" demo_now demo_raw "leak"
    (run demo_host demo_target (demo_answers (Some 503)))
    (mkProbeResult "approved" "https://approved.example/health" true false (demo_now - 34 * Minute) (demo_now - 26 * Minute)));
    [vm_compute; reflexivity|vm_compute; reflexivity|simpl; lia|discriminate|reflexivity| |right; left|vm_compute; reflexivity|
     vm_compute; reflexivity|reflexivity|left].
  split; [reflexivity..|vm_compute; reflexivity|]. intros record r n _ Hd _. unfold demo_decode in Hd.
  destruct (record =?s "leak"); [|discriminate]. injection Hd as <-. vm_compute. split; discriminate.
Defined.
