(* ===== verification/Redactor.v ===== *)
(** * The output of the supervised process ([internal/supervisor])

    [streamRedactor] replaces the secrets in a stream of chunks; [boundedPrefixWriter] and
    [boundedTailWriter] keep the beginning and the end of what it lets pass. *)
From S2P Require Import Prelude.
From stdpp Require Import list.

#[local] Open Scope list_scope.

Abbreviation bytes := (list ascii).

(** ** The redactor *)
Record streamRedactor := mkRedactor {
  rd_secrets : list bytes;
  rd_pending : bytes;
  rd_written : nat;
  rd_maxOutput : nat;
  rd_dst : list bytes
}.

(** [newStreamRedactor]: empty secrets are dropped. *)
Definition newStreamRedactor (secrets : list bytes) (maxOutput : nat) : streamRedactor :=
  mkRedactor (filter (fun secret => secret <> []) secrets) [] 0 maxOutput [].

(** What a step of the scan emits: the mark of a secret, or a byte. *)
Inductive Token := Mark | Plain (b : ascii).

Definition redacted_mark : bytes := String.list_ascii_of_string "[REDACTED]".

Definition token_bytes (t : Token) : bytes := match t with Mark => redacted_mark | Plain b => [b] end.
Definition render (l : list Token) : bytes := concat (map token_bytes l).

Definition HasPrefix (data prefix : bytes) : bool := bool_decide (prefix `prefix_of` data).

(** The first secret, in order, that the data begins with. *)
Definition first_secret (secrets : list bytes) (data : bytes) : option bytes := List.find (fun secret => HasPrefix data secret) secrets.

Definition couldStartSecret (secrets : list bytes) (data : bytes) : bool :=
  existsb (fun secret => (length data <? length secret)%nat && HasPrefix secret data) secrets.

(** The loop of [process]; a step takes at least one byte from what is pending. *)
Fixpoint process_loop (fuel : nat) (secrets : list bytes) (final : bool) (pending : bytes) : list Token * bytes :=
  match fuel, pending with
  | O, _ | _, [] => ([], pending)
  | S fuel', b :: rest =>
      match first_secret secrets pending with
      | Some secret =>
          let '(output, pending') := process_loop fuel' secrets final (drop (length secret) pending) in
          (Mark :: output, pending')
      | None =>
          if negb final && couldStartSecret secrets pending then ([], pending)
          else
            let '(output, pending') := process_loop fuel' secrets final rest in
            (Plain b :: output, pending')
      end
  end.

(** [emit], on a destination that takes every write. *)
Definition emit (data : bytes) (r : streamRedactor) : streamRedactor :=
  let write data := mkRedactor (rd_secrets r) (rd_pending r) (rd_written r + length data) (rd_maxOutput r) (rd_dst r ++ [data]) in
  if (0 <? rd_maxOutput r)%nat then
    let remaining := (rd_maxOutput r - rd_written r)%nat in
    if (remaining =? 0)%nat then r
    else write (take remaining data)
  else write data.

Definition process (final : bool) (r : streamRedactor) : streamRedactor :=
  let '(output, pending) := process_loop (length (rd_pending r)) (rd_secrets r) final (rd_pending r) in
  emit (render output) (mkRedactor (rd_secrets r) pending (rd_written r) (rd_maxOutput r) (rd_dst r)).

Definition Write (data : bytes) (r : streamRedactor) : streamRedactor :=
  process false (mkRedactor (rd_secrets r) (rd_pending r ++ data) (rd_written r) (rd_maxOutput r) (rd_dst r)).

Definition Flush (r : streamRedactor) : streamRedactor := process true r.

(** ** The writers behind it *)
Record boundedPrefixWriter := mkPrefixWriter { pw_written : nat; pw_max : nat; pw_dst : bytes }.

Definition prefix_Write (data : bytes) (w : boundedPrefixWriter) : boundedPrefixWriter :=
  if (pw_max w <=? pw_written w)%nat then w
  else
    let data := take (pw_max w - pw_written w) data in
    mkPrefixWriter (pw_written w + length data) (pw_max w) (pw_dst w ++ data).

Record boundedTailWriter := mkTailWriter { tw_data : bytes; tw_max : nat }.

Definition newBoundedTailWriter (max : nat) : boundedTailWriter := mkTailWriter [] max.

Definition tail_Write (data : bytes) (w : boundedTailWriter) : boundedTailWriter :=
  if (tw_max w =? 0)%nat then w
  else if (tw_max w <=? length data)%nat then mkTailWriter (drop (length data - tw_max w) data) (tw_max w)
  else
    let all := tw_data w ++ data in
    mkTailWriter (drop (length all - tw_max w) all) (tw_max w).

(** [configureOutput] without an owner of the diagnostics: what the redactor lets pass goes
    to the beginning kept for the log and to the end kept for diagnosis. *)
Record Output := mkOutput { out_redactor : streamRedactor; out_external : boundedPrefixWriter; out_diagnostic : boundedTailWriter }.

Definition configureOutput (secrets : list bytes) (logLimit : nat) : Output :=
  mkOutput (newStreamRedactor secrets 0) (mkPrefixWriter 0 logLimit []) (newBoundedTailWriter logLimit).

(** What the redactor wrote since [before] goes to both writers. *)
Definition deliver (before : nat) (r : streamRedactor) (o : Output) : Output :=
  let chunks := drop before (rd_dst r) in
  mkOutput r (fold_left (fun w c => prefix_Write c w) chunks (out_external o)) (fold_left (fun w c => tail_Write c w) chunks (out_diagnostic o)).

Definition output_write (data : bytes) (o : Output) : Output :=
  deliver (length (rd_dst (out_redactor o))) (Write data (out_redactor o)) o.

Definition output_flush (o : Output) : Output := deliver (length (rd_dst (out_redactor o))) (Flush (out_redactor o)) o.

(** [DiagnosticTail] *)
Definition DiagnosticTail (o : Output) : bytes := tw_data (out_diagnostic o).

Definition feed (chunks : list bytes) (o : Output) : Output := fold_left (fun o c => output_write c o) chunks o.

Definition text (s : string) : bytes := String.list_ascii_of_string s.
Example redact_across_chunks :
  let o := output_flush (feed (map text ["pass=hun"; "ter2 ok hunt"]) (configureOutput [text "hunter2"] 64)) in
  DiagnosticTail o = text "pass=[REDACTED] ok hunt" /\ pw_dst (out_external o) = text "pass=[REDACTED] ok hunt".
Proof. vm_compute. done. Qed.
