(* ===== verification/RedactorSpec.v ===== *)
(** * What passes the redactor

    Whatever the chunks, the output is the input with secrets replaced: no secret lies in a
    run of bytes that passed; and when no secret begins another, the chunks do not matter. *)
From S2P Require Import Prelude Redactor.
From stdpp Require Import list.

#[local] Open Scope list_scope.

(** ** A scan and what it explains *)
Section Scan.
Context (secrets : list bytes).
Hypothesis secrets_nonempty : Forall (fun s => s <> []) secrets.
Implicit Types (ts : list Token) (data rest more : bytes).

(** The tokens account for the data up to the rest: a mark for a secret, and a byte only
    where no secret begins. *)
Inductive explains : list Token -> bytes -> bytes -> Prop :=
| explains_nil rest : explains [] rest rest
| explains_mark s ts data rest : s ∈ secrets -> explains ts data rest -> explains (Mark :: ts) (s ++ data) rest
| explains_plain b ts data rest : (forall s, s ∈ secrets -> ~ s `prefix_of` b :: data) -> explains ts data rest -> explains (Plain b :: ts) (b :: data) rest.

Lemma explains_app ts us data mid rest : explains ts data mid -> explains us mid rest -> explains (ts ++ us) data rest.
Proof. induction 1; intros Hu; [done|constructor; auto..]. Qed.

Lemma first_secret_some data s : first_secret secrets data = Some s -> s ∈ secrets /\ exists data', data = s ++ data'.
Proof.
  intros [Hin Hp]%find_some. rewrite <- list_elem_of_In in Hin. split; [done|]. by apply bool_decide_eq_true in Hp as [data' ->]; exists data'.
Qed.

Lemma first_secret_none data s : first_secret secrets data = None -> s ∈ secrets -> ~ s `prefix_of` data.
Proof.
  intros Hn Hin Hp. rewrite list_elem_of_In in Hin. pose proof (find_none _ _ Hn s Hin) as E. by apply bool_decide_eq_false in E.
Qed.

Lemma couldStartSecret_false data s : couldStartSecret secrets data = false -> s ∈ secrets -> (length data < length s)%nat -> ~ data `prefix_of` s.
Proof.
  intros Hc Hin Hl Hp. assert (Ht : couldStartSecret secrets data = true); [|congruence].
  apply existsb_exists. exists s. rewrite <- list_elem_of_In. split; [done|]. unfold HasPrefix.
  by rewrite (proj2 (Nat.ltb_lt _ _) Hl), bool_decide_eq_true_2.
Qed.

Lemma couldStartSecret_true data : couldStartSecret secrets data = true -> exists s, s ∈ secrets /\ (length data < length s)%nat.
Proof.
  intros (s & Hin & [Hl%Nat.ltb_lt _]%andb_true_iff)%existsb_exists. exists s. by rewrite list_elem_of_In.
Qed.

(** A byte that is let pass begins no secret, whatever comes after. *)
Lemma clear_extends data more s : first_secret secrets data = None -> couldStartSecret secrets data = false -> s ∈ secrets ->
  ~ s `prefix_of` data ++ more.
Proof.
  intros Hf Hc Hin Hp. destruct (prefix_weak_total s data (data ++ more)) as [Hs|Hd]; [done|by apply prefix_app_r| |].
  - by apply (first_secret_none data s).
  - destruct (decide (length data < length s)%nat) as [Hl|Hl]; [by apply (couldStartSecret_false data s)|].
    apply prefix_length_eq in Hd; [|lia]. subst s. by apply (first_secret_none data data).
Qed.

Lemma process_loop_spec fuel final pending ts rest : (length pending <= fuel)%nat -> process_loop fuel secrets final pending = (ts, rest) ->
  (forall more, (final = true -> more = []) -> explains ts (pending ++ more) (rest ++ more)) /\
  (if final then rest = [] else rest = [] \/ (couldStartSecret secrets rest = true /\ first_secret secrets rest = None)).
Proof.
  revert pending ts rest. induction fuel as [|fuel IH]; intros pending ts rest Hl.
  - destruct pending; [|simpl in Hl; lia]. intros [= <- <-]. split; [constructor|by destruct final; [|left]].
  - destruct pending as [|b pending]; [intros [= <- <-]; split; [constructor|by destruct final; [|left]]|].
    cbn [process_loop]. destruct (first_secret secrets (b :: pending)) as [s|] eqn:Ef.
    + apply first_secret_some in Ef as (Hin & data & E). rewrite E, drop_app_length. destruct (process_loop fuel secrets final data) as [us rest'] eqn:Ep.
      intros [= <- <-]. assert (Hd : (length data <= fuel)%nat).
      { apply (f_equal length) in E. rewrite length_app in E. rewrite Forall_forall in secrets_nonempty. specialize (secrets_nonempty s Hin).
        destruct s; [done|]. simpl in *. lia. }
      destruct (IH _ _ _ Hd Ep) as [He Hr]. split; [|done]. intros more Hm. rewrite <- app_assoc. constructor; [done|by apply He].
    + destruct (negb final && couldStartSecret secrets (b :: pending)) eqn:Ec.
      * intros [= <- <-]. apply andb_true_iff in Ec as [Hf Hc]. destruct final; [done|]. split; [constructor|by right].
      * destruct (process_loop fuel secrets final pending) as [us rest'] eqn:Ep. intros [= <- <-]. simpl in Hl.
        destruct (IH pending us rest' ltac:(lia) Ep) as [He Hr]. split; [|done]. intros more Hm. cbn [app]. constructor; [|by apply He].
        intros s Hin. change (b :: pending ++ more) with ((b :: pending) ++ more). destruct final.
        -- rewrite (Hm eq_refl), app_nil_r. by apply first_secret_none.
        -- by apply clear_extends.
Qed.

Lemma nonempty_secret : [] ∉ secrets.
Proof. intros Hin. rewrite Forall_forall in secrets_nonempty. by apply secrets_nonempty in Hin. Qed.

Lemma nonempty_split s data : s ∈ secrets -> s ++ data = [] -> False.
Proof. intros Hin [-> _]%app_eq_nil. by apply nonempty_secret. Qed.

Lemma explains_bytes vs ws data rest : explains (map Plain vs ++ ws) data rest -> exists data', data = vs ++ data'.
Proof.
  revert data. induction vs as [|b vs IH]; intros data He; [by exists data|]. cbn [map app] in He. inversion He; subst.
  match goal with E : explains _ _ _ |- _ => apply IH in E as [data' ->] end. by exists data'.
Qed.

(** No secret lies in a run of bytes that passed. *)
Lemma explains_run us vs ws data rest s : explains (us ++ map Plain vs ++ ws) data rest -> s ∈ secrets -> ~ s `prefix_of` vs.
Proof.
  revert data. induction us as [|u us IH]; intros data He Hin Hp.
  - destruct vs as [|b vs]; [apply prefix_nil_inv in Hp as ->; by apply nonempty_secret|]. cbn [app map] in He.
    destruct (explains_bytes (b :: vs) ws data rest He) as [data' ->]. inversion He; subst. match goal with Hn : forall t, t ∈ secrets -> ~ _ |- _ => apply (Hn s Hin) end.
    destruct Hp as [k Ek]. exists (k ++ data'). rewrite app_assoc, <- Ek. done.
  - cbn [app] in He. inversion He; subst; by eapply IH.
Qed.

(** When no secret begins another, the account of the data is unique. *)
Definition prefix_free : Prop := forall s t, s ∈ secrets -> t ∈ secrets -> s `prefix_of` t -> s = t.

Lemma explains_unique ts us data : prefix_free -> explains ts data [] -> explains us data [] -> ts = us.
Proof.
  intros Hpf H1. pose proof nonempty_split as Hsplit. clear secrets_nonempty. remember [] as rest eqn:Er. revert us Er. induction H1 as [rest|s ts data rest Hin H1 IH|b ts data rest Hno H1 IH]; intros us -> H2.
  - inversion H2; subst; [done|]. exfalso.
    by eauto.
  - inversion H2; subst.
    + exfalso. by eauto.
    + match goal with E : ?t ++ ?d = s ++ data |- _ =>
        assert (t = s) as -> by (destruct (prefix_weak_total t s (s ++ data)) as [Hp|Hp]; [exists d; by symmetry|by exists data|by apply Hpf|symmetry; by apply Hpf]);
        apply app_inv_head in E; subst d end. f_equal. by apply IH.
    + exfalso. match goal with Hn : forall t, t ∈ secrets -> ~ _ |- _ => apply (Hn s Hin) end. by exists data.
  - inversion H2; subst.
    + exfalso. match goal with E : ?t ++ ?d = b :: data, Hin' : ?t ∈ secrets |- _ => apply (Hno t Hin'); exists d; by symmetry end.
    + f_equal. by apply IH.
Qed.
End Scan.

(** ** Streams *)
Definition output (r : streamRedactor) : bytes := concat (rd_dst r).

Definition writes (chunks : list bytes) (r : streamRedactor) : streamRedactor := fold_left (fun r c => Write c r) chunks r.

Section Stream.
Context (given : list bytes).
Let secrets : list bytes := filter (fun secret => secret <> []) given.

Lemma secrets_ok : Forall (fun s => s <> []) secrets.
Proof. apply Forall_forall. intros s Hs. by apply list_elem_of_filter in Hs as [? _]. Qed.

(** What was written accounts for the input up to what is pending, which more input
    extends. *)
Definition stream_ok (input : bytes) (r : streamRedactor) : Prop :=
  rd_secrets r = secrets /\ rd_maxOutput r = 0%nat /\
  (rd_pending r = [] \/ couldStartSecret secrets (rd_pending r) = true) /\
  exists ts, output r = render ts /\ forall more, explains secrets ts (input ++ more) (rd_pending r ++ more).

Lemma render_app ts us : render (ts ++ us) = render ts ++ render us.
Proof. unfold render. by rewrite map_app, concat_app. Qed.

Lemma output_emit data r : rd_maxOutput r = 0%nat -> output (emit data r) = output r ++ data /\
  rd_secrets (emit data r) = rd_secrets r /\ rd_maxOutput (emit data r) = 0%nat /\ rd_pending (emit data r) = rd_pending r.
Proof. intros E. unfold emit, output. rewrite E. cbn [Nat.ltb Nat.leb]. cbn. rewrite concat_app. cbn. by rewrite app_nil_r. Qed.

Lemma new_stream_ok : stream_ok [] (newStreamRedactor given 0).
Proof. split; [done|]. split; [done|]. split; [by left|]. exists []. split; [done|]. intros more. constructor. Qed.

Lemma Write_ok input chunk r : stream_ok input r -> stream_ok (input ++ chunk) (Write chunk r).
Proof.
  intros (Hs & Hm & _ & ts & Ho & He). unfold Write, process. cbn [rd_pending rd_secrets rd_written rd_maxOutput rd_dst]. rewrite Hs.
  destruct (process_loop _ secrets false (rd_pending r ++ chunk)) as [us rest] eqn:Ep.
  destruct (process_loop_spec secrets secrets_ok _ _ _ _ _ (le_n _) Ep) as [Hus Hrest].
  match goal with |- stream_ok _ (emit ?d ?q) => destruct (output_emit d q Hm) as (Eo & Es & Em & Epend) end.
  unfold stream_ok. rewrite Eo, Es, Em, Epend. cbn [rd_secrets rd_pending]. do 2 (split; [done|]). split; [tauto|].
  exists (ts ++ us). split; [by rewrite render_app, <- Ho|]. intros more. eapply explains_app; [rewrite <- app_assoc; apply He|].
  rewrite app_assoc. by apply Hus.
Qed.

Lemma writes_ok chunks input r : stream_ok input r -> stream_ok (input ++ concat chunks) (writes chunks r).
Proof.
  revert input r. induction chunks as [|c chunks IH]; intros input r Hr; cbn [concat writes fold_left]; [by rewrite app_nil_r|].
  rewrite app_assoc. by apply IH, Write_ok.
Qed.

(** After a flush the whole input is accounted for. *)
Lemma Flush_ok input r : stream_ok input r -> exists ts, output (Flush r) = render ts /\ explains secrets ts input [].
Proof.
  intros (Hs & Hm & _ & ts & Ho & He). unfold Flush, process. rewrite Hs.
  destruct (process_loop _ secrets true (rd_pending r)) as [us rest] eqn:Ep.
  destruct (process_loop_spec secrets secrets_ok _ _ _ _ _ (le_n _) Ep) as [Hus ->].
  match goal with |- context [emit ?d ?q] => destruct (output_emit d q Hm) as (Eo & _) end. rewrite Eo.
  exists (ts ++ us). split; [by rewrite render_app, <- Ho|]. specialize (He []). specialize (Hus [] ltac:(done)). rewrite !app_nil_r in *.
  by eapply explains_app.
Qed.

Definition redacted (chunks : list bytes) : bytes := output (Flush (writes chunks (newStreamRedactor given 0))).

(** C20. Whatever the chunks, the output is the input in which some secrets are replaced by the
    mark, and no secret lies in a run of bytes between two marks. *)
Theorem secrets_do_not_pass chunks : exists ts, redacted chunks = render ts /\ explains secrets ts (concat chunks) [] /\
  forall us vs ws a b s, ts = us ++ map Plain vs ++ ws -> s ∈ given -> s <> [] -> vs <> a ++ s ++ b.
Proof.
  pose proof (writes_ok chunks [] _ new_stream_ok) as Hw. destruct (Flush_ok _ _ Hw) as (ts & Ho & He). exists ts. do 2 (split; [done|]).
  intros us vs ws a b s -> Hin Hne ->. rewrite map_app, <- app_assoc, (app_assoc us) in He.
  apply (explains_run secrets secrets_ok _ _ _ _ _ s) in He; [|by apply list_elem_of_filter]. apply He. by exists b.
Qed.

(** When no secret begins another, the output does not depend on the chunks. *)
Theorem chunks_do_not_matter chunks chunks' : prefix_free secrets -> concat chunks = concat chunks' -> redacted chunks = redacted chunks'.
Proof.
  intros Hpf E. destruct (Flush_ok _ _ (writes_ok chunks [] _ new_stream_ok)) as (ts & Ho & He).
  destruct (Flush_ok _ _ (writes_ok chunks' [] _ new_stream_ok)) as (us & Ho' & He'). unfold redacted. rewrite Ho, Ho'. f_equal.
  cbn [app] in *. rewrite <- E in He'. by apply (explains_unique secrets secrets_ok ts us (concat chunks)).
Qed.

(** What is held back is shorter than some secret. *)
Theorem pending_is_bounded chunks : let r := writes chunks (newStreamRedactor given 0) in
  rd_pending r = [] \/ exists s, s ∈ given /\ (length (rd_pending r) < length s)%nat.
Proof.
  destruct (writes_ok chunks [] _ new_stream_ok) as (_ & _ & [Hp|Hp] & _); [by left|right].
  apply couldStartSecret_true in Hp as (s & Hin & Hl). exists s. by apply list_elem_of_filter in Hin as [_ ?].
Qed.
End Stream.

(** ** The writers behind it *)
Definition last_bytes (n : nat) (l : bytes) : bytes := drop (length l - n) l.

Lemma last_bytes_app n l k : last_bytes n (last_bytes n l ++ k) = last_bytes n (l ++ k).
Proof.
  unfold last_bytes. rewrite !length_app, length_drop. destruct (decide (length l <= n)%nat) as [Hl|Hl].
  - replace (length l - n)%nat with 0%nat by lia. by rewrite drop_0, Nat.sub_0_r.
  - assert (E : drop (length l + length k - n) (l ++ k) = drop (length l + length k - n) (take (length l - n) l ++ (drop (length l - n) l ++ k)))
      by (by rewrite app_assoc, take_drop).
    rewrite E, (drop_app_ge (take _ l)); rewrite length_take; [f_equal; lia|lia].
Qed.

Lemma tail_Write_spec data w all : tw_data w = last_bytes (tw_max w) all -> tw_data (tail_Write data w) = last_bytes (tw_max w) (all ++ data) /\
  tw_max (tail_Write data w) = tw_max w.
Proof.
  intros E. unfold tail_Write. destruct (Nat.eqb_spec (tw_max w) 0) as [Ez|Hz].
  - split; [|done]. rewrite E, Ez. unfold last_bytes. rewrite !Nat.sub_0_r. by rewrite !drop_all.
  - destruct (Nat.leb_spec (tw_max w) (length data)) as [Hl|Hl]; cbn [tw_data tw_max]; (split; [|done]).
    + unfold last_bytes. rewrite drop_app_ge; rewrite length_app; [f_equal; lia|lia].
    + rewrite E. change (last_bytes (tw_max w) (last_bytes (tw_max w) all ++ data) = last_bytes (tw_max w) (all ++ data)). apply last_bytes_app.
Qed.

Lemma prefix_Write_spec data w all : pw_dst w = take (pw_max w) all -> pw_written w = length (pw_dst w) ->
  pw_dst (prefix_Write data w) = take (pw_max w) (all ++ data) /\ pw_written (prefix_Write data w) = length (pw_dst (prefix_Write data w)) /\
  pw_max (prefix_Write data w) = pw_max w.
Proof.
  intros E Ew. rewrite take_app. assert (El : length (pw_dst w) = Nat.min (pw_max w) (length all)) by (by rewrite E, length_take).
  unfold prefix_Write. destruct (Nat.leb_spec (pw_max w) (pw_written w)) as [Hm|Hm].
  - split; [|done]. replace (pw_max w - length all)%nat with 0%nat by lia. by rewrite take_0, app_nil_r.
  - cbn [pw_dst pw_written pw_max]. split; [|by rewrite length_app, Ew]. replace (pw_max w - pw_written w)%nat with (pw_max w - length all)%nat by lia. by rewrite E.
Qed.

Lemma tail_fold chunks w all : tw_data w = last_bytes (tw_max w) all ->
  let w' := fold_left (fun w c => tail_Write c w) chunks w in tw_data w' = last_bytes (tw_max w) (all ++ concat chunks) /\ tw_max w' = tw_max w.
Proof.
  revert w all. induction chunks as [|c chunks IH]; intros w all E; cbn [fold_left concat]; [by rewrite app_nil_r|].
  destruct (tail_Write_spec c w all E) as [E' Em]. rewrite app_assoc. rewrite <- Em in E' |- *. by apply IH.
Qed.

Lemma prefix_fold chunks w all : pw_dst w = take (pw_max w) all -> pw_written w = length (pw_dst w) ->
  let w' := fold_left (fun w c => prefix_Write c w) chunks w in
  pw_dst w' = take (pw_max w) (all ++ concat chunks) /\ pw_written w' = length (pw_dst w') /\ pw_max w' = pw_max w.
Proof.
  revert w all. induction chunks as [|c chunks IH]; intros w all E Ew; cbn [fold_left concat]; [by rewrite app_nil_r|].
  destruct (prefix_Write_spec c w all E Ew) as (E' & Ew' & Em). rewrite app_assoc. rewrite <- Em in E' |- *. by apply IH.
Qed.

(** Both writers hold their part of what the redactor wrote. *)
Definition delivered (limit : nat) (o : Output) : Prop :=
  pw_max (out_external o) = limit /\ tw_max (out_diagnostic o) = limit /\
  pw_dst (out_external o) = take limit (output (out_redactor o)) /\ pw_written (out_external o) = length (pw_dst (out_external o)) /\
  tw_data (out_diagnostic o) = last_bytes limit (output (out_redactor o)).

Lemma deliver_ok limit o r new : delivered limit o -> rd_dst r = rd_dst (out_redactor o) ++ new ->
  delivered limit (deliver (length (rd_dst (out_redactor o))) r o).
Proof.
  intros (Em & Et & Ep & Ew & Ed) E. unfold delivered, deliver. rewrite E, drop_app_length. cbn [out_external out_diagnostic out_redactor].
  assert (Eo : output r = output (out_redactor o) ++ concat new) by (unfold output; by rewrite E, concat_app). rewrite Eo.
  rewrite <- Em in Ep. rewrite <- Et in Ed.
  destruct (prefix_fold new (out_external o) _ Ep Ew) as (H1 & H2 & H3). destruct (tail_fold new (out_diagnostic o) _ Ed) as [H4 H5].
  cbv zeta in *. rewrite H1, H3, H4, H5, Em, Et. rewrite <- Em, <- H1. done.
Qed.

Lemma process_appends final r : exists new, rd_dst (process final r) = rd_dst r ++ new.
Proof.
  unfold process. destruct (process_loop _ _ _ _) as [ts rest]. unfold emit. cbn.
  repeat case_match; cbn; first [by exists []; rewrite app_nil_r|by eexists].
Qed.

Lemma feed_ok limit chunks o : delivered limit o -> delivered limit (feed chunks o) /\ out_redactor (feed chunks o) = writes chunks (out_redactor o).
Proof.
  revert o. induction chunks as [|c chunks IH]; intros o Ho; [done|]. cbn [feed fold_left writes].
  destruct (process_appends false (mkRedactor (rd_secrets (out_redactor o)) (rd_pending (out_redactor o) ++ c) (rd_written (out_redactor o))
    (rd_maxOutput (out_redactor o)) (rd_dst (out_redactor o)))) as [new Hn].
  destruct (IH (output_write c o)) as [Hd Hr]; [by apply (deliver_ok limit o _ new)|]. split; [exact Hd|exact Hr].
Qed.

(** The log gets the beginning and the diagnostic tail is the end of the redacted output of
    the process, each up to the limit. *)
Theorem diagnostics_are_redacted secrets limit chunks : let o := output_flush (feed chunks (configureOutput secrets limit)) in
  pw_dst (out_external o) = take limit (redacted secrets chunks) /\ DiagnosticTail o = last_bytes limit (redacted secrets chunks) /\
  (length (DiagnosticTail o) <= limit)%nat.
Proof.
  destruct (feed_ok limit chunks (configureOutput secrets limit)) as [Hd Hr]; [unfold delivered, last_bytes; cbn; by rewrite take_nil, drop_nil|].
  destruct (process_appends true (out_redactor (feed chunks (configureOutput secrets limit)))) as [new Hn].
  destruct (deliver_ok limit _ (Flush (out_redactor (feed chunks (configureOutput secrets limit)))) new Hd Hn) as (_ & _ & Hp & _ & Ht).
  unfold output_flush, DiagnosticTail, redacted. cbv zeta. rewrite Hr in Hp, Ht |- *. cbn [out_redactor configureOutput] in *.
  rewrite Hp, Ht. unfold deliver. cbn [out_redactor]. do 2 (split; [done|]). unfold last_bytes. rewrite length_drop. lia.
Qed.

(** A longer secret that is tried first is cut where a chunk ends after a shorter one that
    begins it: the rest of it passes. *)
Lemma chunk_cuts_longer_secret :
  redacted [text "hunter2"; text "hunter"] [text "hunter2"] = text "[REDACTED]" /\
  redacted [text "hunter2"; text "hunter"] [text "hunter"; text "2"] = text "[REDACTED]2".
Proof. vm_compute. done. Qed.

Lemma chunks_do_not_matter_witness :
  redacted [text "hunter2"; text "token"] [text "a hun"; text "ter2 to"; text "ken"] = redacted [text "hunter2"; text "token"] [text "a hunter2 token"].
Proof.
  apply chunks_do_not_matter; [|reflexivity]. intros s t Hs Ht Hp. apply list_elem_of_filter in Hs as [_ Hs], Ht as [_ Ht].
  apply elem_of_cons in Hs as [-> | Hs%list_elem_of_singleton]; [|subst s];
    (apply elem_of_cons in Ht as [-> | Ht%list_elem_of_singleton]; [|subst t]); first [reflexivity|destruct Hp as [k Hk]; discriminate].
Defined.
