(* ===== verification/Supervisor.v ===== *)
(** * Supervision of the core process ([internal/supervisor/process_windows.go])

    [Start], [Ready], [Stop], [Wait], the goroutine [waitLoop] and their shared teardown.
    The native calls are the operations of a class over a world [W]; the methods are the
    sections between which the mutex is free and runs of native calls, in the order of the
    code, and the threads of the process interleave them. *)
From S2P Require Import Prelude.
From stdpp Require Import list pretty.

#[local] Open Scope string_scope.
#[local] Open Scope Z_scope.
#[local] Open Scope list_scope.

(** ** Errors *)

(** An error is the list of what [errors.Join] collects; [nil] is the empty list. *)
Inductive Failure :=
| Plain (text : string)
| ExitError (code : Z) (beforeReady : bool)
| CleanupError (failures : list string).

Definition Error : Type := list Failure.

Definition ErrVerifierRequired := "executable verifier is required".
Definition ErrAlreadyStarted := "process has already been started".
Definition ErrNotStarted := "process has not been started".
Definition ErrReadyTimeout := "process readiness timed out".
Definition ErrUnsafePath := "executable and config paths must be absolute, regular, and non-reparse".
Definition ErrNoReadinessProbe := "configuration has no deterministic readiness probe".

(** [&CleanupError{Err: errors.Join(failures...)}], and [nil] without failures. *)
Definition cleanup_error (failures : list string) : Error := match failures with [] => [] | _ => [CleanupError failures] end.

(** ** Native calls *)
Record nativeProcess := mkNative { np_process : Z; np_thread : Z; np_pid : Z; np_log : bool }.

Class ProcessOps (W : Type) := {
  createKillOnCloseJob : StateM W (Z + string);
  launchSuspended : string -> string -> StateM W (nativeProcess + string);
  assignProcessToJob : Z -> Z -> StateM W (option string);
  resumeThread : Z -> StateM W (option string);
  terminateProcess : Z -> StateM W (option string);
  terminateJob : Z -> StateM W (option string);
  closeJob : Z -> StateM W (option string);
  closeHandle : Z -> StateM W (option string);
  waitProcess : Z -> Z -> StateM W (option string);
  waitJobEmpty : Z -> Z -> StateM W (option string);
  exitCode : Z -> StateM W (Z + string);
  sendBreak : Z -> StateM W (option string);
  waitLog : StateM W bool;
  validateLaunchPath : string -> StateM W bool;
  interfaceProbeFromConfig : string -> StateM W bool
}.

(** ** The process *)

(** A channel that is only ever closed. *)
Inductive Chan := NoChan | Open | Closed.
#[export] Instance Chan_eq_dec : EqDecision Chan.
Proof. solve_decision. Defined.

Record Process := mkProcess {
  ReadyProbe : bool;
  VerifyExecutable : bool;
  proc : option nativeProcess;
  job : Z;
  done_ : Chan;
  waitErr : Error;
  started : bool;
  ready : bool;
  rootExited : bool;
  stopping : bool;
  cleanupDone : Chan;
  cleanupErr : Error;
  nativeCreated : bool;
  terminationProven : bool;
  failedStart : bool;
  failedStartCleanup : Error;
  panicked : bool
}.

Definition newProcess (probe verifier : bool) : Process :=
  mkProcess probe verifier None 0 NoChan [] false false false false NoChan [] false false false [] false.

(** Closing a channel that is not open panics. *)
Definition closes (c : Chan) : bool := match c with Open => false | _ => true end.

Definition TerminationProven (p : Process) : bool := negb (nativeCreated p) || terminationProven p.

Definition terminalError (p : Process) : Error := waitErr p ++ cleanupErr p.

(** The handle of the process; the methods that use it run after [Start] set it. *)
Definition process_handle (p : Process) : Z := match proc p with Some n => np_process n | None => 0 end.
Definition process_pid (p : Process) : Z := match proc p with Some n => np_pid n | None => 0 end.
Definition process_log (p : Process) : bool := match proc p with Some n => np_log n | None => false end.

(** ** Sections under the mutex *)
Inductive Acquired := NotStarted | Observer | Owner (job : Z).

Definition with_stopping (mark : bool) (p : Process) : Process :=
  mkProcess (ReadyProbe p) (VerifyExecutable p) (proc p) (job p) (done_ p) (waitErr p) (started p) (ready p) (rootExited p) (mark || stopping p)
    (cleanupDone p) (cleanupErr p) (nativeCreated p) (terminationProven p) (failedStart p) (failedStartCleanup p) (panicked p).

Definition acquireCleanup (markStopping : bool) (p : Process) : Acquired * Process :=
  if negb (started p) then (NotStarted, p)
  else
    let p := with_stopping markStopping p in
    match cleanupDone p with
    | NoChan =>
        (Owner (job p), mkProcess (ReadyProbe p) (VerifyExecutable p) (proc p) 0 (done_ p) (waitErr p) (started p) (ready p) (rootExited p) (stopping p)
          Open (cleanupErr p) (nativeCreated p) (terminationProven p) (failedStart p) (failedStartCleanup p) (panicked p))
    | _ => (Observer, p)
    end.

Definition finishCleanup (err : Error) (proven : bool) (p : Process) : Process :=
  mkProcess (ReadyProbe p) (VerifyExecutable p) (proc p) (job p) (done_ p) (waitErr p) (started p) (ready p) (rootExited p) (stopping p)
    Closed (cleanupErr p ++ err) (nativeCreated p) (proven || terminationProven p) (failedStart p) (failedStartCleanup p)
    (panicked p || closes (cleanupDone p)).

Definition set_rootExited (p : Process) : Process :=
  mkProcess (ReadyProbe p) (VerifyExecutable p) (proc p) (job p) (done_ p) (waitErr p) (started p) (ready p) true (stopping p)
    (cleanupDone p) (cleanupErr p) (nativeCreated p) (terminationProven p) (failedStart p) (failedStartCleanup p) (panicked p).

Definition set_ready (p : Process) : Process :=
  mkProcess (ReadyProbe p) (VerifyExecutable p) (proc p) (job p) (done_ p) (waitErr p) (started p) true (rootExited p) (stopping p)
    (cleanupDone p) (cleanupErr p) (nativeCreated p) (terminationProven p) (failedStart p) (failedStartCleanup p) (panicked p).

(** The end of [waitLoop]. *)
Definition finish_wait (err : Error) (p : Process) : Process :=
  mkProcess (ReadyProbe p) (VerifyExecutable p) (proc p) (job p) Closed err (started p) (ready p) (rootExited p) (stopping p)
    (cleanupDone p) (cleanupErr p) (nativeCreated p) (terminationProven p) (failedStart p) (failedStartCleanup p) (panicked p || closes (done_ p)).

(** The end of [retryFailedStartCleanup]; a channel that was never made is not closed. *)
Definition finish_retry (p : Process) : Process :=
  mkProcess (ReadyProbe p) (VerifyExecutable p) (proc p) (job p) (match done_ p with NoChan => NoChan | _ => Closed end) (waitErr p) false (ready p)
    (rootExited p) (stopping p) (cleanupDone p) (cleanupErr p) (nativeCreated p) true false (failedStartCleanup p)
    (panicked p || match done_ p with Closed => true | _ => false end).

(** What [Stop] decides when it takes the mutex. *)
Inductive StopChoice := StopRetry | StopNothing | StopObserve (cleanup : bool) | StopReturn (err : Error) | StopBreak (pid : Z).

Definition stop_section (p : Process) : StopChoice * Process :=
  if failedStart p then (StopRetry, p)
  else if negb (started p) then (StopNothing, p)
  else if stopping p then (StopObserve (negb (bool_decide (cleanupDone p = NoChan))), p)
  else match done_ p with
  | Closed => (StopReturn (terminalError p), p)
  | _ => (StopBreak (process_pid p), with_stopping true p)
  end.

(** ** Runs of native calls *)
Section Ops.
Context {W : Type} `{!ProcessOps W}.

(** The failure of a call under its name, or nothing. *)
Definition failing (operation : string) (call : StateM W (option string)) : StateM W (list string) :=
  r ← call; mret (match r with None => [] | Some err => [operation ++s ": " ++s err] end).

Definition skip : StateM W (list string) := mret [].

(** Terminates the job; when that fails its handle is closed, which kills it, and [true] is
    returned. *)
Definition terminate_job (job : Z) (terminate close : string) : StateM W (list string * bool) :=
  failures ← failing terminate (terminateJob job);
  match failures with
  | [] => mret ([], false)
  | _ => closing ← failing close (closeJob job); mret (failures ++ closing, true)
  end.

Definition five_seconds : Z := 5 * Second.

Definition abortSuspendedProcess (job : Z) (n : nativeProcess) (assigned : bool) : StateM W (list string * bool) :=
  '(failures, jobClosed) ← ((if assigned then terminate_job job "terminate suspended job" "close suspended job fallback"
    else failures ← failing "terminate suspended process" (terminateProcess (np_process n)); mret (failures, false)) : StateM W (list string * bool));
  waiting ← failing "wait for suspended process termination" (waitProcess (np_process n) five_seconds);
  let terminationProven := bool_decide (waiting = []) in
  thread ← (if np_thread n =? 0 then skip else failing "close suspended thread" (closeHandle (np_thread n)));
  process ← (if terminationProven then failing "close suspended process" (closeHandle (np_process n)) else skip);
  closing ← (if jobClosed : bool then skip else failing "close suspended job" (closeJob job));
  captured ← (if np_log n then waitLog else mret true);
  mret (failures ++ waiting ++ thread ++ process ++ closing ++
    (if captured : bool then [] else ["log capture did not close after suspended-process cleanup"]), terminationProven).

Definition cleanupJobAfterRootExit (job : Z) : StateM W (Error * bool) :=
  if job =? 0 then mret (cleanup_error ["process job handle was unavailable after root exit"], false)
  else
    '(failures, jobClosed) ← terminate_job job "terminate process job after root exit" "close process job fallback after root exit";
    if jobClosed : bool then mret (cleanup_error failures, false)
    else
      waiting ← failing "confirm process job is empty after root exit" (waitJobEmpty job five_seconds);
      closing ← failing "close process job after root exit" (closeJob job);
      mret (cleanup_error (waiting ++ closing), bool_decide (waiting = [])).

(** The calls of [terminateForFailure] once it owns the cleanup. *)
Definition terminate_calls (job process : Z) : StateM W (Error * bool) :=
  '(failures, jobTerminated) ← ((if job =? 0 then mret (["process job handle was unavailable during teardown"], false)
    else '(failures, jobClosed) ← terminate_job job "terminate process job" "close process job fallback"; mret (failures, negb jobClosed))
    : StateM W (list string * bool));
  root ← failing "confirm root process termination" (waitProcess process five_seconds);
  if jobTerminated : bool then
    empty ← failing "confirm process job is empty" (waitJobEmpty job five_seconds);
    closing ← failing "close terminated process job" (closeJob job);
    mret (cleanup_error (failures ++ root ++ empty ++ closing), bool_decide (root = []) && bool_decide (empty = []))
  else mret (cleanup_error (failures ++ root), false).

(** The calls of [retryFailedStartCleanup]: what failed, and whether the process is known to
    have ended. *)
Definition retry_calls (process : Z) : StateM W (list string * bool) :=
  terminating ← failing "retry terminate failed-start process" (terminateProcess process);
  waiting ← failing "retry confirm failed-start termination" (waitProcess process five_seconds);
  match waiting with
  | [] => closing ← failing "close failed-start process handle" (closeHandle process); mret (terminating ++ closing, true)
  | _ => mret (terminating ++ waiting, false)
  end.

(** ** Start *)
Definition rememberFailedStart (n : nativeProcess) (failures : list string) (proven : bool) (p : Process) : Process :=
  if proven then
    mkProcess (ReadyProbe p) (VerifyExecutable p) (proc p) (job p) (done_ p) (waitErr p) (started p) (ready p) (rootExited p) (stopping p)
      (cleanupDone p) (cleanupErr p) (nativeCreated p) true (failedStart p) (map Plain failures) (panicked p)
  else
    mkProcess (ReadyProbe p) (VerifyExecutable p) (Some (mkNative (np_process n) 0 (np_pid n) (np_log n))) (job p) Open (waitErr p) true (ready p) (rootExited p) (stopping p)
      (cleanupDone p) (cleanupErr p) (nativeCreated p) false true (map Plain failures) (panicked p).

Definition created (p : Process) : Process :=
  mkProcess (ReadyProbe p) (VerifyExecutable p) (proc p) (job p) (done_ p) (waitErr p) (started p) (ready p) (rootExited p) (stopping p)
    (cleanupDone p) (cleanupErr p) true (terminationProven p) (failedStart p) (failedStartCleanup p) (panicked p).

Definition with_probe (probe : bool) (p : Process) : Process :=
  mkProcess probe (VerifyExecutable p) (proc p) (job p) (done_ p) (waitErr p) (started p) (ready p) (rootExited p) (stopping p)
    (cleanupDone p) (cleanupErr p) (nativeCreated p) (terminationProven p) (failedStart p) (failedStartCleanup p) (panicked p).

Definition running (n : nativeProcess) (job : Z) (p : Process) : Process :=
  mkProcess (ReadyProbe p) (VerifyExecutable p) (Some (mkNative (np_process n) 0 (np_pid n) (np_log n))) job Open (waitErr p) true (ready p) (rootExited p)
    (stopping p) (cleanupDone p) (cleanupErr p) (nativeCreated p) false (failedStart p) (failedStartCleanup p) (panicked p).

(** A launch that failed after the process was created. *)
Definition abort_start (operation err : string) (job : Z) (n : nativeProcess) (assigned : bool) (p : Process) : StateM W (Error * Process) :=
  '(failures, proven) ← abortSuspendedProcess job n assigned;
  mret (Plain ("start supervised process: " ++s operation ++s ": " ++s err) :: map Plain failures, rememberFailedStart n failures proven (created p)).

(** [Start], which holds the mutex throughout; the goroutine [waitLoop] runs when it
    succeeds. *)
Definition Start (exe config : string) (p : Process) : StateM W (Error * Process) :=
  if started p then mret ([Plain ErrAlreadyStarted], p)
  else
    exe_ok ← validateLaunchPath exe;
    if negb exe_ok then mret ([Plain ErrUnsafePath], p)
    else
      config_ok ← validateLaunchPath config;
      if negb config_ok then mret ([Plain ErrUnsafePath], p)
      else if negb (VerifyExecutable p) then mret ([Plain ErrVerifierRequired], p)
      else
        probe ← (if ReadyProbe p then mret true else interfaceProbeFromConfig config);
        let p := with_probe probe p in
        r ← createKillOnCloseJob;
        match r with
        | inr err => mret ([Plain ("start supervised process: create job: " ++s err)], p)
        | inl job =>
            r ← launchSuspended exe config;
            match r with
            | inr err => closeJob job ≫= fun _ => mret ([Plain ("start supervised process: launch: " ++s err)], p)
            | inl n =>
                assigned ← assignProcessToJob job (np_process n);
                match assigned with
                | Some err => abort_start "assign job" err job n false p
                | None =>
                    resumed ← resumeThread (np_thread n);
                    match resumed with
                    | Some err => abort_start "resume" err job n true p
                    | None => closeHandle (np_thread n) ≫= fun _ => mret ([], running n job (created p))
                    end
                end
            end
        end.
End Ops.
