(* ===== verification/SupervisorThreads.v ===== *)
(** * The threads of the supervisor

    [waitLoop], [Stop], [Ready] and [Wait] as threads that interleave: a step is a section
    under the mutex, a run of native calls outside it, or the outcome of a [select]. *)
From S2P Require Import Prelude GoText Supervisor.
From stdpp Require Import list.

#[local] Open Scope string_scope.
#[local] Open Scope Z_scope.
#[local] Open Scope list_scope.

Definition ctx_error : Error := [Plain "context canceled"].

(** The method that a thread runs. *)
Inductive Method := MStop | MReady | MWait.

(** Where a thread is. *)
Inductive Thread :=
(* waitLoop *)
| WaitBlocked
| WaitExited (err : Error) (code : Z)
| WaitAcquire (err : Error) (code : Z)
| WaitOwner (err : Error) (code : Z) (job : Z)
| WaitFinish (err : Error) (code : Z) (cerr : Error) (proven : bool)
| WaitObserver (err : Error) (code : Z)
| WaitLogs (err : Error) (code : Z)
| WaitReport (err : Error) (code : Z) (logged : bool)
| WaitCloseHandle (err : Error)
| WaitClose (err : Error)
| WaitEnded
(* Stop *)
| StopEnter
| StopSend (pid : Z)
| StopGrace
| StopObserveCleanup
| StopCleanupRead (err : Error)
| StopAwaitDone
| RetryEnter
| RetryCalls (previous : Error)
| RetryFinish (previous : Error) (failures : list string)
(* Ready *)
| ReadyEnter
| ReadySelect
| ReadyProbed
(* Wait *)
| WaitEnter (m : Method)
| WaitDone (m : Method)
(* terminateForFailure, with the error that its result is joined to *)
| TermEnter (m : Method) (before : Error)
| TermCalls (m : Method) (before : Error) (job : Z)
| TermFinish (m : Method) (before : Error) (err : Error) (proven : bool)
| TermObserve (m : Method) (before : Error)
| Returned (m : Method) (err : Error).

(** The outcome of a [select], and of what a timer or a context decides. *)
Inductive Choice := Go | IsDone | TimedOut | Canceled.

Section Threads.
Context {W : Type} `{!ProcessOps W}.

Definition State : Type := Process * W.

(** A section that only touches the process. *)
Definition section (t : Thread) (p : Process) (w : W) : option (Thread * State) := Some (t, (p, w)).

(** A run of native calls. *)
Definition calls {A} (m : StateM W A) (f : A -> Thread) (p : Process) (w : W) : option (Thread * State) :=
  let '(x, w) := m w in Some (f x, (p, w)).

Definition when (b : bool) (r : option (Thread * State)) : option (Thread * State) := if b then r else None.

(** [errors.Join] of the failures at the end of [waitLoop]. *)
Definition wait_error (stopping ready logged : bool) (err : Error) (code : Z) : Error :=
  (if stopping then [] else [ExitError code (negb ready)]) ++ err ++
  (if logged then [] else [CleanupError ["log capture did not close after process job cleanup"]]).

Definition is_closed (c : Chan) : bool := bool_decide (c = Closed).

Definition newline : string := String (byte_of 10) "".

(** [err] of [waitLoop]: the wait and the exit code. *)
Definition wait_calls (process : Z) : StateM W (Error * Z) :=
  waited ← waitProcess process (-1);
  code ← exitCode process;
  let failures := (match waited with None => [] | Some err => [err] end) ++ (match code with inl _ => [] | inr err => [err] end) in
  mret (match failures with [] => [] | _ => [Plain ("wait for supervised process: " ++s strings_Join failures newline)] end,
    match code with inl code => code | inr _ => 0 end).

Definition advance_wait (t : Thread) (p : Process) (w : W) : option (Thread * State) :=
  match t with
  | WaitBlocked => calls (wait_calls (process_handle p)) (fun r => WaitExited r.1 r.2) p w
  | WaitExited err code => section (WaitAcquire err code) (set_rootExited p) w
  | WaitAcquire err code =>
      match acquireCleanup false p with
      | (Owner job, p) => section (WaitOwner err code job) p w
      | (_, p) => section (WaitObserver err code) p w
      end
  | WaitOwner err code job => calls (cleanupJobAfterRootExit job) (fun r => WaitFinish err code r.1 r.2) p w
  | WaitFinish err code cerr proven => section (WaitLogs err code) (finishCleanup cerr proven p) w
  | WaitObserver err code => when (is_closed (cleanupDone p)) (section (WaitLogs err code) p w)
  | WaitLogs err code => calls (if process_log p then waitLog else mret true) (WaitReport err code) p w
  | WaitReport err code logged => section (WaitCloseHandle (wait_error (stopping p) (ready p) logged err code)) p w
  | WaitCloseHandle err =>
      calls (closeHandle (process_handle p))
        (fun r => WaitClose (err ++ match r with None => [] | Some e => [CleanupError ["close process handle: " ++s e]] end)) p w
  | WaitClose err => section WaitEnded (finish_wait err p) w
  | _ => None
  end.

Definition advance_terminate (t : Thread) (p : Process) (w : W) : option (Thread * State) :=
  match t with
  | TermEnter m before =>
      match acquireCleanup true p with
      | (NotStarted, p) => section (Returned m before) p w
      | (Observer, p) => section (TermObserve m before) p w
      | (Owner job, p) => section (TermCalls m before job) p w
      end
  | TermCalls m before job => calls (terminate_calls job (process_handle p)) (fun r => TermFinish m before r.1 r.2) p w
  | TermFinish m before err proven => section (Returned m (before ++ err)) (finishCleanup err proven p) w
  | TermObserve m before => when (is_closed (cleanupDone p)) (section (Returned m (before ++ cleanupErr p)) p w)
  | _ => None
  end.

Definition advance_stop (c : Choice) (t : Thread) (p : Process) (w : W) : option (Thread * State) :=
  match t with
  | StopEnter =>
      let '(choice, p) := stop_section p in
      section (match choice with
        | StopRetry => RetryEnter
        | StopNothing => Returned MStop []
        | StopObserve true => StopObserveCleanup
        | StopObserve false => StopAwaitDone
        | StopReturn err => Returned MStop err
        | StopBreak pid => StopSend pid
        end) p w
  | StopSend pid => calls (sendBreak pid) (fun _ => StopGrace) p w
  | StopGrace =>
      match c with
      | IsDone => when (is_closed (done_ p)) (section (Returned MStop (terminalError p)) p w)
      | TimedOut => section (TermEnter MStop []) p w
      | Canceled => section (TermEnter MStop ctx_error) p w
      | Go => None
      end
  | StopObserveCleanup =>
      match c with
      | IsDone => when (is_closed (done_ p)) (section (Returned MStop (terminalError p)) p w)
      | Go => when (is_closed (cleanupDone p)) (section (match cleanupErr p with [] => StopAwaitDone | err => StopCleanupRead err end) p w)
      | Canceled => section (Returned MStop ctx_error) p w
      | TimedOut => None
      end
  | StopCleanupRead err => section (Returned MStop (if is_closed (done_ p) then terminalError p else err)) p w
  | StopAwaitDone =>
      match c with
      | IsDone => when (is_closed (done_ p)) (section (Returned MStop (terminalError p)) p w)
      | Canceled => section (Returned MStop ctx_error) p w
      | _ => None
      end
  | _ => None
  end.

(** [retryFailedStartCleanup] *)
Definition advance_retry (c : Choice) (t : Thread) (p : Process) (w : W) : option (Thread * State) :=
  match t with
  | RetryEnter =>
      match c with
      | Canceled => section (Returned MStop ctx_error) p w
      | Go => section (RetryCalls (failedStartCleanup p)) p w
      | _ => None
      end
  | RetryCalls previous =>
      calls (retry_calls (process_handle p))
        (fun '(failures, confirmed) => if confirmed : bool then RetryFinish previous failures else Returned MStop (previous ++ cleanup_error failures)) p w
  | RetryFinish previous failures => section (Returned MStop (previous ++ cleanup_error failures)) (finish_retry p) w
  | _ => None
  end.

Definition advance_ready (c : Choice) (t : Thread) (p : Process) (w : W) : option (Thread * State) :=
  match t with
  | ReadyEnter =>
      section (if negb (started p) then Returned MReady [Plain ErrNotStarted]
        else if ready p then Returned MReady []
        else if ReadyProbe p then ReadySelect
        else TermEnter MReady [Plain ErrNoReadinessProbe]) p w
  | ReadySelect =>
      match c with
      | Go => section ReadyProbed p w
      | IsDone => when (is_closed (done_ p)) (section (WaitEnter MReady) p w)
      | TimedOut => section (TermEnter MReady [Plain ErrReadyTimeout]) p w
      | Canceled => section (TermEnter MReady ctx_error) p w
      end
  | ReadyProbed => if rootExited p then section (WaitEnter MReady) p w else section (Returned MReady []) (set_ready p) w
  | _ => None
  end.

(** [Wait] *)
Definition advance_await (t : Thread) (p : Process) (w : W) : option (Thread * State) :=
  match t with
  | WaitEnter m => section (if negb (started p) then Returned m [Plain ErrNotStarted] else WaitDone m) p w
  | WaitDone m => when (is_closed (done_ p)) (section (Returned m (terminalError p)) p w)
  | _ => None
  end.

(** A step of one thread; in [ReadySelect] the choice [Go] is a probe that worked. *)
Definition advance (c : Choice) (t : Thread) (s : State) : option (Thread * State) :=
  let '(p, w) := s in
  match t with
  | WaitBlocked | WaitExited _ _ | WaitAcquire _ _ | WaitOwner _ _ _ | WaitFinish _ _ _ _ | WaitObserver _ _ | WaitLogs _ _
  | WaitReport _ _ _ | WaitCloseHandle _ | WaitClose _ | WaitEnded => advance_wait t p w
  | StopEnter | StopSend _ | StopGrace | StopObserveCleanup | StopCleanupRead _ | StopAwaitDone => advance_stop c t p w
  | RetryEnter | RetryCalls _ | RetryFinish _ _ => advance_retry c t p w
  | ReadyEnter | ReadySelect | ReadyProbed => advance_ready c t p w
  | WaitEnter _ | WaitDone _ => advance_await t p w
  | TermEnter _ _ | TermCalls _ _ _ | TermFinish _ _ _ _ | TermObserve _ _ => advance_terminate t p w
  | Returned _ _ => None
  end.

(** A call from outside: [Stop], also from the goroutine that watches the context of
    [Start], [Ready] and [Wait]. *)
Inductive entry : Thread -> Prop :=
| entry_stop : entry StopEnter
| entry_ready : entry ReadyEnter
| entry_wait : entry (WaitEnter MWait).

Record Sys := mkSys { sy_process : Process; sy_world : W; sy_threads : list Thread }.

Inductive sys_step (env : W -> W -> Prop) : Sys -> Sys -> Prop :=
| step_thread c i t t' p w p' w' ts : ts !! i = Some t -> advance c t (p, w) = Some (t', (p', w')) ->
    sys_step env (mkSys p w ts) (mkSys p' w' (<[i := t']> ts))
| step_call t p w ts : entry t -> sys_step env (mkSys p w ts) (mkSys p w (ts ++ [t]))
| step_env p w w' ts : env w w' -> sys_step env (mkSys p w ts) (mkSys p w' ts).

(** The system after [Start] returned, and what can follow; a process is started once. *)
Definition launched (exe config : string) (p : Process) (w : W) : Error * Sys :=
  let '((err, p'), w') := Start exe config p w in (err, mkSys p' w' (match err with [] => [WaitBlocked] | _ => [] end)).

Inductive reaches (env : W -> W -> Prop) (s : Sys) : Sys -> Prop :=
| reaches_refl : reaches env s s
| reaches_step s1 s2 : reaches env s s1 -> sys_step env s1 s2 -> reaches env s s2.
End Threads.
