(* ===== verification/SupervisorSpec.v ===== *)
(** * What the supervisor guarantees

    In every interleaving of the threads one of them owns the cleanup, no channel is closed
    twice, termination is only reported proven when the job was seen empty, and a [Stop]
    that returns [nil] has proven it. *)
From S2P Require Import Prelude Supervisor SupervisorThreads.
From stdpp Require Import list.

#[local] Open Scope string_scope.
#[local] Open Scope Z_scope.
#[local] Open Scope list_scope.

(** ** The laws of the native calls *)

(** A process that was seen to end and a job that was seen empty stay so: [later] is the
    order in which the world moves, with the calls and by itself. *)
Class ProcessLaws (W : Type) `{!ProcessOps W} (env later : W -> W -> Prop) (root_dead tree_empty : Z -> W -> Prop) : Prop := {
  later_order :: PreOrder later;
  later_env w w' : env w w' -> later w w';
  later_terminateProcess h w : later w (terminateProcess h w).2;
  later_terminateJob j w : later w (terminateJob j w).2;
  later_closeJob j w : later w (closeJob j w).2;
  later_closeHandle h w : later w (closeHandle h w).2;
  later_waitProcess h t w : later w (waitProcess h t w).2;
  later_waitJobEmpty j t w : later w (waitJobEmpty j t w).2;
  later_exitCode h w : later w (exitCode h w).2;
  later_sendBreak pid w : later w (sendBreak pid w).2;
  later_waitLog w : later w (waitLog w).2;
  root_dead_later h w w' : root_dead h w -> later w w' -> root_dead h w';
  tree_empty_later j w w' : tree_empty j w -> later w w' -> tree_empty j w';
  waited_is_dead h t w : (waitProcess h t w).1 = None -> root_dead h (waitProcess h t w).2;
  waited_is_empty j t w : (waitJobEmpty j t w).1 = None -> tree_empty j (waitJobEmpty j t w).2;
  job_handle w j : (createKillOnCloseJob w).1 = inl j -> j <> 0
}.

Section Spec.
Context {W : Type} `{!ProcessOps W} (env later : W -> W -> Prop) (root_dead tree_empty : Z -> W -> Prop).
Context `{!ProcessLaws W env later root_dead tree_empty}.

(** ** Runs of native calls *)

(** [m] moves the world on, and its answer has [Q] in the world that it leaves. *)
Definition moves {A} (m : StateM W A) (Q : A -> W -> Prop) : Prop := forall w, later w (m w).2 /\ Q (m w).1 (m w).2.

Lemma moves_bind {A B} (m : StateM W A) (f : A -> StateM W B) Q R : moves m Q ->
  (forall x w, Q x w -> later w (f x w).2 /\ R (f x w).1 (f x w).2) -> moves (m ≫= f) R.
Proof.
  intros Hm Hf w. destruct (Hm w) as [Hl Hq]. unfold mbind, StateM_bind. destruct (m w) as [x w1]. cbn [fst snd] in *.
  destruct (Hf x w1 Hq) as [Hl' Hr]. split; [by trans w1|done].
Qed.

Lemma moves_ret {A} (x : A) : moves (mret x) (fun y _ => y = x).
Proof. intros w. by split. Qed.

Lemma failing_moves operation (call : StateM W (option string)) (Q : W -> Prop) :
  (forall w, later w (call w).2) -> (forall w, (call w).1 = None -> Q (call w).2) ->
  moves (failing operation call) (fun failures w => failures = [] -> Q w).
Proof.
  intros Hl Hq w. specialize (Hl w). specialize (Hq w). unfold failing, mbind, StateM_bind. destruct (call w) as [[err|] w1]; cbn in *; split; auto. done.
Qed.

Lemma failing_later operation call (w : W) : (forall w, later w (call w).2) -> later w (failing operation call w).2.
Proof. intros Hl. specialize (Hl w). unfold failing, mbind, StateM_bind. by destruct (call w) as [[err|] w1]. Qed.

Lemma terminate_job_later job t c w : later w (terminate_job job t c w).2.
Proof.
  unfold terminate_job, mbind, StateM_bind. pose proof (failing_later t (terminateJob job) w (later_terminateJob job)) as Hl.
  destruct (failing t (terminateJob job) w) as [[|f fs] w1]; [done|]. cbn [snd] in Hl.
  pose proof (failing_later c (closeJob job) w1 (later_closeJob job)) as Hl'. destruct (failing c (closeJob job) w1) as [cs w2]. by trans w1.
Qed.

(** A job that was terminated without failures leaves no failures. *)
Lemma terminate_job_answer job t c w : let r := (terminate_job job t c w).1 in (r.2 = false -> r.1 = []) /\ (r.2 = true -> r.1 <> []).
Proof.
  unfold terminate_job, mbind, StateM_bind. destruct (failing t (terminateJob job) w) as [[|f fs] w1]; [by split|].
  by destruct (failing c (closeJob job) w1) as [cs w2].
Qed.

Lemma cleanup_error_nil failures : cleanup_error failures = [] <-> failures = [].
Proof. by destruct failures. Qed.

Lemma empty_wait job (w : W) : moves (failing "confirm process job is empty after root exit" (waitJobEmpty job five_seconds)) (fun f w => f = [] -> tree_empty job w).
Proof. apply failing_moves; intros; [apply later_waitJobEmpty|by apply waited_is_empty]. Qed.

(** What a run proves when it says so, and that it says so unless it failed. *)
Definition proof_of (job : Z) (r : Error * bool) (w : W) : Prop := (r.2 = true -> tree_empty job w) /\ (r.1 = [] -> r.2 = true).

Lemma cleanupJob_moves job : job <> 0 -> moves (cleanupJobAfterRootExit job) (proof_of job).
Proof.
  intros Hj w. unfold cleanupJobAfterRootExit. rewrite (proj2 (Z.eqb_neq job 0) Hj). unfold mbind, StateM_bind.
  pose proof (terminate_job_later job "terminate process job after root exit" "close process job fallback after root exit" w) as Hl.
  pose proof (terminate_job_answer job "terminate process job after root exit" "close process job fallback after root exit" w) as [Ha Hb].
  destruct (terminate_job job _ _ w) as [[failures closed] w1]. cbn [fst snd] in *.
  destruct closed; [split; [exact Hl|]; split; [done|]; intros E%cleanup_error_nil; by apply Hb in E|].
  pose proof (failing_moves "confirm process job is empty after root exit" (waitJobEmpty job five_seconds) (tree_empty job)
    (later_waitJobEmpty job five_seconds) (waited_is_empty job five_seconds) w1) as [Hl2 Hq].
  destruct (failing _ (waitJobEmpty job five_seconds) w1) as [waiting w2]. cbn [fst snd] in *.
  pose proof (failing_later "close process job after root exit" (closeJob job) w2 (later_closeJob job)) as Hl3.
  destruct (failing _ (closeJob job) w2) as [closing w3]. cbn in *. split; [trans w1; [done|by trans w2]|]. split.
  - cbn. intros E%bool_decide_eq_true. by apply (tree_empty_later _ w2); [apply Hq|].
  - cbn. intros [E _]%cleanup_error_nil%app_eq_nil. by apply bool_decide_eq_true_2.
Qed.

Lemma terminate_moves job process : job <> 0 -> moves (terminate_calls job process) (proof_of job).
Proof.
  intros Hj w. unfold terminate_calls. rewrite (proj2 (Z.eqb_neq job 0) Hj). unfold mbind, StateM_bind.
  pose proof (terminate_job_later job "terminate process job" "close process job fallback" w) as Hl.
  pose proof (terminate_job_answer job "terminate process job" "close process job fallback" w) as [Ha Hb].
  destruct (terminate_job job _ _ w) as [[failures closed] w1]. cbn [fst snd mret StateM_ret] in *.
  pose proof (failing_later "confirm root process termination" (waitProcess process five_seconds) w1 (later_waitProcess process five_seconds)) as Hl2.
  destruct (failing _ (waitProcess process five_seconds) w1) as [root w2]. cbn [fst snd] in *.
  destruct closed; cbn [negb].
  { split; [by trans w1|]. split; [done|]. intros [E _]%cleanup_error_nil%app_eq_nil. by apply Hb in E. }
  pose proof (failing_moves "confirm process job is empty" (waitJobEmpty job five_seconds) (tree_empty job)
    (later_waitJobEmpty job five_seconds) (waited_is_empty job five_seconds) w2) as [Hl3 Hq].
  destruct (failing _ (waitJobEmpty job five_seconds) w2) as [empty w3]. cbn [fst snd] in *.
  pose proof (failing_later "close terminated process job" (closeJob job) w3 (later_closeJob job)) as Hl4.
  destruct (failing _ (closeJob job) w3) as [closing w4]. cbn in *. split; [trans w1; [done|]; trans w2; [done|by trans w3]|]. split.
  - cbn. intros [_ E%bool_decide_eq_true]%andb_true_iff. by apply (tree_empty_later _ w3); [apply Hq|].
  - cbn. intros (_ & [Er (Ee & _)%app_eq_nil]%app_eq_nil)%cleanup_error_nil%app_eq_nil. by rewrite !bool_decide_eq_true_2.
Qed.

Lemma wait_calls_later h w : later w (wait_calls h w).2.
Proof.
  unfold wait_calls, mbind, StateM_bind. pose proof (later_waitProcess h (-1) w) as Hl. destruct (waitProcess h (-1) w) as [r w1]. cbn [snd] in Hl.
  pose proof (later_exitCode h w1) as Hl'. destruct (exitCode h w1) as [code w2]. cbn in *. by trans w1.
Qed.
End Spec.

(** ** Interleavings of the supervisor

    The invariant of a process that was started: one owner of the cleanup, one [waitLoop],
    channels closed once, and proofs of termination that hold. *)


(** ** Kinds of threads *)
Definition owns (t : Thread) : nat :=
  match t with WaitOwner _ _ _ | WaitFinish _ _ _ _ | TermCalls _ _ _ | TermFinish _ _ _ _ => 1 | _ => 0 end.

Definition waits (t : Thread) : nat :=
  match t with
  | WaitBlocked | WaitExited _ _ | WaitAcquire _ _ | WaitOwner _ _ _ | WaitFinish _ _ _ _ | WaitObserver _ _ | WaitLogs _ _
  | WaitReport _ _ _ | WaitCloseHandle _ | WaitClose _ => 1
  | _ => 0
  end.

Definition tally (f : Thread -> nat) (ts : list Thread) : nat := sum_list_with f ts.


Lemma tally_app f ts t : tally f (ts ++ [t]) = (tally f ts + f t)%nat.
Proof. unfold tally. rewrite sum_list_with_app. cbn. lia. Qed.

Section Inv.
Context {W : Type} `{!ProcessOps W} (env later : W -> W -> Prop) (root_dead tree_empty : Z -> W -> Prop).
Context `{!ProcessLaws W env later root_dead tree_empty}.
(** The handles of the process and of its job. *)
Context (h j : Z) (j_nonzero : j <> 0).

(** ** What a thread relies on *)
Definition cleanup_started (p : Process) : Prop := cleanupDone p <> NoChan.

Definition thread_ok (p : Process) (w : W) (t : Thread) : Prop :=
  match t with
  | WaitOwner _ _ job | TermCalls _ _ job => job = j
  | WaitFinish _ _ cerr proven => proof_of tree_empty j (cerr, proven) w
  | TermFinish _ _ err proven => proof_of tree_empty j (err, proven) w
  | WaitObserver _ _ | TermObserve _ _ | StopObserveCleanup => cleanup_started p
  | WaitLogs _ _ | WaitReport _ _ _ | WaitCloseHandle _ | WaitClose _ => cleanupDone p = Closed
  | StopCleanupRead err => err <> []
  | Returned MStop err => err = [] -> terminationProven p = true
  | RetryEnter | RetryCalls _ | RetryFinish _ _ => False
  | _ => True
  end.

(** What holds of the process, with the number of owners and of [waitLoop]s. *)
Record core (p : Process) (w : W) (owners waiters : nat) : Prop := {
  c_started : started p = true /\ failedStart p = false /\ nativeCreated p = true /\ panicked p = false;
  c_handle : process_handle p = h;
  c_owner : match cleanupDone p with NoChan => job p = j /\ owners = 0%nat | Open => owners = 1%nat | Closed => owners = 0%nat end;
  c_waiter : match done_ p with NoChan => False | Open => waiters = 1%nat | Closed => waiters = 0%nat /\ cleanupDone p = Closed end;
  c_proven : terminationProven p = true -> tree_empty j w;
  c_clean : cleanupDone p = Closed -> cleanupErr p = [] -> terminationProven p = true
}.

(** The process moves on. *)
Record forward (p p' : Process) : Prop := {
  f_started : cleanup_started p -> cleanup_started p';
  f_closed : cleanupDone p = Closed -> cleanupDone p' = Closed;
  f_proven : terminationProven p = true -> terminationProven p' = true
}.

Lemma forward_refl p : forward p p.
Proof. by split. Qed.

Lemma proof_of_later job r w w' : proof_of tree_empty job r w -> later w w' -> proof_of tree_empty job r w'.
Proof. intros [H1 H2] Hl. split; [|done]. intros E. by apply (tree_empty_later (ProcessLaws := ProcessLaws0) _ w); [apply H1|]. Qed.

Lemma thread_ok_forward p p' w w' t : forward p p' -> later w w' -> thread_ok p w t -> thread_ok p' w' t.
Proof.
  intros [Hs Hc Hp] Hl. destruct t; cbn; auto; try (intros Hq; by eapply proof_of_later).
  destruct m; auto.
Qed.

Lemma core_later p w w' a b : core p w a b -> later w w' -> core p w' a b.
Proof. intros [? ? ? ? Hp ?] Hl. split; try done. intros E. by apply (tree_empty_later (ProcessLaws := ProcessLaws0) _ w); [apply Hp|]. Qed.

(** ** Steps of one thread *)
Definition step_ok (p : Process) (w : W) (t : Thread) (r : option (Thread * State)) : Prop :=
  forall t' p' w', r = Some (t', (p', w')) -> forall ro rw, core p w (owns t + ro) (waits t + rw) -> thread_ok p w t ->
    core p' w' (owns t' + ro) (waits t' + rw) /\ thread_ok p' w' t' /\ forward p p' /\ later w w'.

(** A step that leaves the process as it is, and moves between threads of the same kind. *)
Lemma same_ok p w w' t t' r : later w w' -> owns t' = owns t -> waits t' = waits t ->
  (forall ro rw, core p w (owns t + ro) (waits t + rw) -> thread_ok p w t -> thread_ok p w' t') -> r = Some (t', (p, w')) -> step_ok p w t r.
Proof.
  intros Hl Ho Hw Ht -> ? ? ? [= <- <- <-] ro rw Hc Hk. rewrite Ho, Hw. split; [by eapply core_later|]. split; [by eapply Ht|].
  split; [apply forward_refl|done].
Qed.

Lemma section_ok p w t t' : owns t' = owns t -> waits t' = waits t ->
  (forall ro rw, core p w (owns t + ro) (waits t + rw) -> thread_ok p w t -> thread_ok p w t') -> step_ok p w t (section t' p w).
Proof. intros Ho Hw Ht. by apply (same_ok p w w t t'). Qed.

Lemma when_ok p w t (b : bool) r : (b = true -> step_ok p w t r) -> step_ok p w t (when b r).
Proof. intros Hr. destruct b; [by apply Hr|]. by intros ? ? ?. Qed.

Lemma calls_ok {A} p w t (m : StateM W A) (f : A -> Thread) (Q : A -> W -> Prop) : later w (m w).2 -> Q (m w).1 (m w).2 ->
  (forall x, owns (f x) = owns t /\ waits (f x) = waits t) ->
  (forall x w' ro rw, Q x w' -> core p w (owns t + ro) (waits t + rw) -> thread_ok p w t -> thread_ok p w' (f x)) ->
  step_ok p w t (calls m f p w).
Proof.
  intros Hl Hq Hk Ht. unfold calls. destruct (m w) as [x w'] eqn:E. cbn [fst snd] in *. destruct (Hk x) as [Ho Hw].
  apply (same_ok p w w' t (f x)); try done. intros ro rw. by apply Ht.
Qed.

Lemma none_ok p w t : step_ok p w t None.
Proof. by intros ? ? ?. Qed.

Lemma terminal_clean p w a b : core p w a b -> done_ p = Closed -> terminalError p = [] -> terminationProven p = true.
Proof.
  intros [_ _ _ Hd _ Hc] E [_ Ee]%app_eq_nil. rewrite E in Hd. destruct Hd as [_ Hcl]. by apply Hc.
Qed.

Lemma is_closed_true c : is_closed c = true -> c = Closed.
Proof. apply bool_decide_eq_true. Qed.

(** *** The cleanup *)
Lemma acquire_ok p w ro rw mark : core p w ro rw ->
  match acquireCleanup mark p with
  | (NotStarted, _) => False
  | (Observer, p') => core p' w ro rw /\ forward p p' /\ cleanup_started p'
  | (Owner job, p') => job = j /\ core p' w (1 + ro) rw /\ forward p p' /\ cleanup_started p'
  end.
Proof.
  intros [(Hs & Hf & Hn & Hp) Hh Ho Hw Ht Hc]. unfold acquireCleanup. rewrite Hs. cbn [negb cleanupDone with_stopping].
  destruct (cleanupDone p) eqn:Ec.
  - destruct Ho as [Hj ->]. split; [exact Hj|]. split; [|split; [|by unfold cleanup_started]].
    + split; cbn; try done. destruct (done_ p); try done. by destruct Hw.
    + split; cbn; rewrite ?Ec; try done.
  - split; [|split; [by split|unfold cleanup_started; cbn; congruence]]. split; cbn; rewrite ?Ec; try done.
  - split; [|split; [by split|unfold cleanup_started; cbn; congruence]]. split; cbn; rewrite ?Ec; try done.
Qed.

Lemma finish_ok p w ro rw err proven : core p w (1 + ro) rw -> proof_of tree_empty j (err, proven) w ->
  core (finishCleanup err proven p) w ro rw /\ forward p (finishCleanup err proven p).
Proof.
  intros [(Hs & Hf & Hn & Hp) Hh Ho Hw Ht Hc] [Hq1 Hq2]. cbn [fst snd] in *.
  destruct (cleanupDone p) eqn:Ec; [by destruct Ho| |done]. injection Ho as ->. split.
  - split; cbn; try done.
    + by rewrite Hp, Ec.
    + destruct (done_ p); try done. by destruct Hw.
    + intros E. destruct proven; [by apply Hq1|by apply Ht].
    + intros _ [_ E]%app_eq_nil. by rewrite (Hq2 E).
  - split; cbn; try done. intros ->. by rewrite orb_true_r.
Qed.

(** *** The threads *)
Lemma step_assume p w t r : (forall ro rw, core p w (owns t + ro) (waits t + rw) -> thread_ok p w t -> step_ok p w t r) -> step_ok p w t r.
Proof. intros Hr t' p' w' E ro rw Hc Hk. by eapply Hr. Qed.

(** A section that changes the process. *)
Lemma update_ok p p' w t t' : (forall ro rw, core p w (owns t + ro) (waits t + rw) -> thread_ok p w t ->
    core p' w (owns t' + ro) (waits t' + rw) /\ forward p p' /\ thread_ok p' w t') -> step_ok p w t (section t' p' w).
Proof. intros Hu ? ? ? [= <- <- <-] ro rw Hc Hk. destruct (Hu ro rw Hc Hk) as (? & ? & ?). by split_and!. Qed.

(** A run whose answer matters only through the world. *)
Lemma quiet_ok {A} p w t (m : StateM W A) (f : A -> Thread) : later w (m w).2 ->
  (forall x, owns (f x) = owns t /\ waits (f x) = waits t) -> (forall x w', thread_ok p w t -> thread_ok p w' (f x)) ->
  step_ok p w t (calls m f p w).
Proof. intros Hl Hk Ht. apply (calls_ok p w t m f (fun _ _ => True)); [done..|]. intros x w' ro rw _ _. apply Ht. Qed.

Lemma advance_wait_ok p w t : step_ok p w t (advance_wait t p w).
Proof.
  destruct t; cbn -[calls section]; try apply none_ok.
  - by apply quiet_ok; [apply (wait_calls_later env later root_dead tree_empty)|..].
  - apply update_ok. intros ro rw [] _. by split_and!.
  - apply step_assume. intros ro rw Hc _. pose proof (acquire_ok p w _ _ false Hc) as Ha.
    destruct (acquireCleanup false p) as [[| |job] p'] eqn:Ea; [done| |]; apply update_ok; intros ro' rw' Hc' _;
      pose proof (acquire_ok p w _ _ false Hc') as Hb; rewrite Ea in Hb; by destruct_and?.
  - apply step_assume. intros ro rw _ E. cbn in E. subst. apply (calls_ok _ _ _ _ _ (proof_of tree_empty j)).
    1-2: by apply (cleanupJob_moves env later root_dead tree_empty).
    all: by try intros [].
  - apply update_ok. intros ro rw Hc Hk. destruct (finish_ok _ _ _ _ _ _ Hc Hk). by split_and!.
  - apply when_ok. intros E%is_closed_true. by apply section_ok.
  - destruct (process_log p); apply quiet_ok; try done. apply later_waitLog. 
  - by apply section_ok.
  - apply quiet_ok; [apply later_closeHandle|done..].
  - apply update_ok. intros ro rw [(Hs & Hf & Hn & Hp) Hh Ho Hw Ht Hc] Hk. cbn in Hk, Hw.
    destruct (done_ p) eqn:Ed; [done| |by destruct Hw]. injection Hw as ->. split; [|split; [by split|done]].
    split; cbn; try done. by rewrite Hp, Ed.
Qed.

(** The terminal error can be returned once the channel is closed. *)
Lemma return_ok p w t m before : owns t = 0%nat -> waits t = 0%nat ->
  (forall ro rw, core p w ro rw -> thread_ok p w t -> before = [] -> terminationProven p = true) ->
  step_ok p w t (section (Returned m before) p w).
Proof. intros Ho Hw Hp. apply section_ok; [done..|]. rewrite Ho, Hw. intros ro rw Hc Hk. destruct m; cbn; try done. by eapply Hp. Qed.

Lemma return_terminal_ok p w t m : owns t = 0%nat -> waits t = 0%nat ->
  step_ok p w t (when (is_closed (done_ p)) (section (Returned m (terminalError p)) p w)).
Proof. intros Ho Hw. apply when_ok. intros E%is_closed_true. apply return_ok; [done..|]. intros ro rw Hc _. by eapply terminal_clean. Qed.

(** An error is returned. *)
Lemma return_error_ok p w t m err : owns t = 0%nat -> waits t = 0%nat -> err <> [] -> step_ok p w t (section (Returned m err) p w).
Proof. intros Ho Hw He. by apply return_ok. Qed.

Lemma core_started p w a b : core p w a b -> started p = true.
Proof. by intros [[? _] _ _ _ _ _]. Qed.

Lemma advance_terminate_ok p w t : step_ok p w t (advance_terminate t p w).
Proof.
  destruct t; cbn -[calls section]; try apply none_ok.
  - apply step_assume. intros ro rw Hc _. pose proof (acquire_ok p w _ _ true Hc) as Ha.
    destruct (acquireCleanup true p) as [[| |job] p'] eqn:Ea; [done| |]; apply update_ok; intros ro' rw' Hc' _;
      pose proof (acquire_ok p w _ _ true Hc') as Hb; rewrite Ea in Hb; by destruct_and?.
  - apply step_assume. intros ro rw _ E. cbn in E. subst. apply (calls_ok _ _ _ _ _ (proof_of tree_empty j)).
    1-2: by apply (terminate_moves env later root_dead tree_empty).
    all: by try intros [].
  - apply update_ok. intros ro rw Hc Hk. destruct (finish_ok _ _ _ _ _ _ Hc Hk). split_and!; [done..|].
    destruct Hk as [_ Hk]. destruct m; cbn; try done. intros [_ ->]%app_eq_nil. pose proof (Hk eq_refl) as E. cbn in E. by rewrite E.
  - apply when_ok. intros E%is_closed_true. apply return_ok; [done..|]. intros ro rw [] _ [_ Ee]%app_eq_nil. auto.
Qed.

Lemma advance_stop_ok c p w t : step_ok p w t (advance_stop c t p w).
Proof.
  destruct t; cbn -[calls section]; try apply none_ok.
  - apply step_assume. intros ro rw Hc _. unfold stop_section. destruct Hc as [(-> & -> & _ & _) _ _ _ _ _]. cbn [negb].
    destruct (stopping p).
    { case_bool_decide; by apply section_ok. }
    destruct (done_ p) eqn:Ed.
    all: try (apply update_ok; intros ro' rw' [] _; by split_and!).
    apply return_ok; [done..|]. intros ro' rw' Hc' _. by eapply terminal_clean.
  - by apply quiet_ok; [apply later_sendBreak|..].
  - destruct c; try apply none_ok; [by apply return_terminal_ok|by apply section_ok..].
  - destruct c; try apply none_ok; [|by apply return_terminal_ok|by apply return_error_ok].
    apply when_ok. intros E%is_closed_true. destruct (cleanupErr p) eqn:Ee; by apply section_ok.
  - destruct (is_closed (done_ p)) eqn:E; [apply is_closed_true in E|]; apply return_ok; try done.
    intros ro rw Hc _. by eapply terminal_clean.
  - destruct c; try apply none_ok; [by apply return_terminal_ok|by apply return_error_ok].
Qed.

Lemma advance_retry_ok c p w t : step_ok p w t (advance_retry c t p w).
Proof. apply step_assume. intros ro rw _ Hk. destruct t; cbn in Hk; first [apply none_ok|by destruct Hk]. Qed.

Lemma advance_ready_ok c p w t : step_ok p w t (advance_ready c t p w).
Proof.
  destruct t; cbn -[calls section]; try apply none_ok.
  - repeat case_match; by apply section_ok.
  - destruct c; try (by apply section_ok). apply when_ok. intros _. by apply section_ok.
  - destruct (rootExited p); [by apply section_ok|]. apply update_ok. intros ro rw [] _. by split_and!.
Qed.

Lemma advance_await_ok p w t : step_ok p w t (advance_await t p w).
Proof.
  destruct t; cbn -[calls section]; try apply none_ok.
  - destruct (started p) eqn:Es; [by apply section_ok|]. apply step_assume. intros ro rw Hc%core_started _. congruence.
  - by apply return_terminal_ok.
Qed.

Theorem advance_ok c p w t : step_ok p w t (advance c t (p, w)).
Proof.
  pose proof (advance_wait_ok p w t). pose proof (advance_stop_ok c p w t). pose proof (advance_ready_ok c p w t). pose proof (advance_retry_ok c p w t). pose proof (advance_await_ok p w t). pose proof (advance_terminate_ok p w t).
  by destruct t; try apply none_ok.
Qed.

(** ** Systems *)
Definition invariant (s : Sys) : Prop :=
  core (sy_process s) (sy_world s) (tally owns (sy_threads s)) (tally waits (sy_threads s)) /\
  Forall (thread_ok (sy_process s) (sy_world s)) (sy_threads s).

Lemma tally_insert f ts i t t' : ts !! i = Some t -> exists rest, tally f ts = (f t + rest)%nat /\ tally f (<[i := t']> ts) = (f t' + rest)%nat.
Proof.
  intros Hi. exists (tally f (take i ts) + tally f (drop (S i) ts))%nat. unfold tally. split.
  - rewrite <- (take_drop_middle ts i t Hi) at 1. rewrite sum_list_with_app. cbn. lia.
  - rewrite insert_take_drop by (by eapply lookup_lt_Some). rewrite sum_list_with_app. cbn. lia.
Qed.

Lemma step_invariant s s' : sys_step env s s' -> invariant s -> invariant s'.
Proof.
  intros Hstep [Hc Hall]. destruct Hstep as [c i t t' p w p' w' ts Hi Ha|t p w ts He|p w w' ts He]; unfold invariant; cbn [sy_process sy_world sy_threads] in *.
  - destruct (tally_insert owns ts i t t' Hi) as (ro & Eo & Eo'). destruct (tally_insert waits ts i t t' Hi) as (rw & Ew & Ew').
    rewrite Eo, Ew in Hc. rewrite Eo', Ew'.
    destruct (advance_ok c p w t t' p' w' Ha ro rw Hc (Forall_lookup_1 _ _ _ _ Hall Hi)) as (Hc' & Ht' & Hf & Hl). split; [done|].
    apply Forall_insert; [|done]. eapply Forall_impl; [exact Hall|]. intros u. by apply thread_ok_forward.
  - assert (owns t = 0%nat /\ waits t = 0%nat /\ thread_ok p w t) as (Eo & Ew & Ht) by (by destruct He).
    rewrite !tally_app, Eo, Ew, !Nat.add_0_r. split; [done|]. apply Forall_app. split; [done|by constructor].
  - apply later_env in He. split; [by eapply core_later|]. eapply Forall_impl; [exact Hall|]. intros u. apply thread_ok_forward; [apply forward_refl|done].
Qed.

Lemma reaches_invariant s s' : reaches env s s' -> invariant s -> invariant s'.
Proof. induction 1; eauto using step_invariant. Qed.
End Inv.
