(* ===== verification/SupervisorProps.v ===== *)
(** * Properties of the supervisor

    What [Start] leaves, and what holds in every interleaving of the threads that follow:
    the documented meaning of [TerminationProven], one owner of the cleanup, a [Stop] that
    only returns [nil] when the job is empty, and that every run of the threads ends. *)
From S2P Require Import Prelude Supervisor SupervisorThreads SupervisorSpec.
From stdpp Require Import list.

#[local] Open Scope string_scope.
#[local] Open Scope Z_scope.
#[local] Open Scope list_scope.

(** ** The laws of a launch *)

(** Only the process that a launch returns can run that did not run before; the calls that
    make the job and resume the process launch nothing. *)
Class LaunchLaws (W : Type) `{!ProcessOps W} (root_dead : Z -> W -> Prop) : Prop := {
  create_job_dead h w : root_dead h w -> root_dead h (createKillOnCloseJob w).2;
  assign_dead h job process w : root_dead h w -> root_dead h (assignProcessToJob job process w).2;
  resume_dead h thread w : root_dead h w -> root_dead h (resumeThread thread w).2;
  path_dead h path w : root_dead h w -> root_dead h (validateLaunchPath path w).2;
  probe_dead h config w : root_dead h w -> root_dead h (interfaceProbeFromConfig config w).2;
  launch_dead h exe config w : root_dead h w -> match (launchSuspended exe config w).1 with inl n => h <> np_process n | inr _ => True end ->
    root_dead h (launchSuspended exe config w).2
}.

(** A process that [Start] can be called on: a new one, or one whose last start failed and
    was cleaned up. *)
Definition startable (p : Process) : Prop :=
  started p = false /\ cleanupDone p = NoChan /\ failedStart p = false /\ panicked p = false /\ TerminationProven p = true.

(** A process whose start failed and is not known to have ended: [Stop] retries. *)
Definition retryable (p : Process) : Prop :=
  started p = true /\ failedStart p = true /\ done_ p = Open /\ cleanupDone p = NoChan /\ panicked p = false /\ TerminationProven p = false /\
  exists n, proc p = Some n.

Section Props.
Context {W : Type} `{!ProcessOps W} (env later : W -> W -> Prop) (root_dead tree_empty : Z -> W -> Prop).
Context `{!ProcessLaws W env later root_dead tree_empty} `{!LaunchLaws W root_dead}.

(** ** Aborting a launch *)
Definition no_new_root (w w' : W) : Prop := forall h, root_dead h w -> root_dead h w'.

Lemma later_no_new_root w w' : later w w' -> no_new_root w w'.
Proof. intros Hl h Hd. by apply (root_dead_later (ProcessLaws := ProcessLaws0) _ w). Qed.

Lemma skip_later (w : W) : later w (skip w).2.
Proof. done. Qed.

Lemma abort_moves job n assigned : moves later (abortSuspendedProcess job n assigned) (fun r w => r.2 = true -> root_dead (np_process n) w).
Proof.
  unfold abortSuspendedProcess. apply (moves_bind env later root_dead tree_empty _ _ (fun _ _ => True)).
  { intros w. split; [|done]. destruct assigned; [apply (terminate_job_later env later root_dead tree_empty)|].
    unfold mbind, StateM_bind. pose proof (failing_later later "terminate suspended process" (terminateProcess (np_process n)) w (later_terminateProcess _)) as Hl.
    by destruct (failing _ _ w). }
  intros [failures closed] w _. unfold mbind, StateM_bind.
  pose proof (failing_moves later "wait for suspended process termination" (waitProcess (np_process n) five_seconds) (root_dead (np_process n))
    (later_waitProcess _ _) (waited_is_dead _ _) w) as [Hl1 Hq].
  destruct (failing _ (waitProcess (np_process n) five_seconds) w) as [waiting w1]. cbn [fst snd] in *.
  assert (Hl2 : later w1 ((if np_thread n =? 0 then skip else failing "close suspended thread" (closeHandle (np_thread n))) w1).2)
    by (destruct (np_thread n =? 0); [apply skip_later|apply failing_later, later_closeHandle]).
  destruct ((if np_thread n =? 0 then skip else _) w1) as [thread w2]. cbn [fst snd] in *.
  assert (Hl3 : later w2 ((if bool_decide (waiting = []) then failing "close suspended process" (closeHandle (np_process n)) else skip) w2).2)
    by (destruct (bool_decide (waiting = [])); [apply failing_later, later_closeHandle|apply skip_later]).
  destruct ((if bool_decide (waiting = []) then _ else skip) w2) as [process w3]. cbn [fst snd] in *.
  assert (Hl4 : later w3 ((if closed then skip else failing "close suspended job" (closeJob job)) w3).2)
    by (destruct closed; [apply skip_later|apply failing_later, later_closeJob]).
  destruct ((if closed then skip else _) w3) as [closing w4]. cbn [fst snd] in *.
  assert (Hl5 : later w4 ((if np_log n then waitLog else mret true) w4).2) by (destruct (np_log n); [apply later_waitLog|done]).
  destruct ((if np_log n then waitLog else mret true) w4) as [captured w5]. cbn [fst snd mret StateM_ret] in *.
  assert (later w1 w5) by (trans w2; [done|]; trans w3; [done|]; by trans w4).
  split; [by trans w1|]. intros E%bool_decide_eq_true. apply (root_dead_later (ProcessLaws := ProcessLaws0) _ w1); [by apply Hq|done].
Qed.

(** ** Start *)

(** What [Start] leaves when it fails: nothing new runs and it can be called again, or the
    one process that may run is the one that [Stop] will end. *)
Definition failed_start (p : Process) (w w' : W) : Prop :=
  (startable p /\ no_new_root w w') \/ (retryable p /\ forall h, h <> process_handle p -> root_dead h w -> root_dead h w').

(** What it leaves when it succeeds. *)
Definition start_outcome (w : W) (r : (Error * Process) * W) : Prop :=
  match r.1.1 with
  | [] => job r.1.2 <> 0 /\ invariant tree_empty (process_handle r.1.2) (job r.1.2) (mkSys r.1.2 r.2 [WaitBlocked])
  | _ => failed_start r.1.2 w r.2
  end.

Lemma failing_nil_root (w w' : W) (p : Process) e es : startable p -> no_new_root w w' -> start_outcome w ((e :: es, p), w').
Proof. intros. by left. Qed.

Lemma with_probe_startable b p : startable p -> startable (with_probe b p).
Proof. done. Qed.

Lemma abort_start_outcome operation err job n assigned p w0 w : startable p ->
  (forall h, h <> np_process n -> root_dead h w0 -> root_dead h w) -> start_outcome w0 (abort_start operation err job n assigned p w).
Proof.
  intros (Hs & Hc & Hf & Hp & Ht) Hroots. unfold abort_start, mbind, StateM_bind.
  destruct (abort_moves job n assigned w) as [Hl Hd]. destruct (abortSuspendedProcess job n assigned w) as [[failures proven] w1]. cbn [fst snd] in *.
  unfold start_outcome, failed_start. cbn -[startable retryable]. destruct proven; [left|right]; cbn -[startable retryable].
  - split; [by split_and!|]. intros h Hh. destruct (decide (h = np_process n)) as [->|Hn]; [by apply Hd|].
    apply (root_dead_later (ProcessLaws := ProcessLaws0) _ w); [by apply Hroots|done].
  - split; [split_and!; try done; by eexists|]. intros h Hn Hh. apply (root_dead_later (ProcessLaws := ProcessLaws0) _ w); [by apply Hroots|done].
Qed.

Lemma running_invariant n job p w : startable p -> job <> 0 ->
  invariant tree_empty (np_process n) job (mkSys (running n job (created p)) w [WaitBlocked]).
Proof.
  intros (Hs & Hc & Hf & Hp & Ht) Hj. split; [|by constructor]. split; cbn; try done. all: by rewrite ?Hc.
Qed.

Lemma start_outcome_ok exe config p w : startable p -> start_outcome w (Start exe config p w).
Proof.
  intros Hp. unfold Start. assert (Hs : started p = false) by apply Hp. rewrite Hs. clear Hs.
  unfold mbind, StateM_bind.
  assert (no_new_root w (validateLaunchPath exe w).2) as H1 by (intros h; apply path_dead).
  destruct (validateLaunchPath exe w) as [ok1 w1]. cbn [snd] in H1. destruct ok1; cbn [negb]; [|by apply failing_nil_root].
  assert (no_new_root w (validateLaunchPath config w1).2) as H2 by (intros h Hh; by apply path_dead, H1).
  destruct (validateLaunchPath config w1) as [ok2 w2]. cbn [snd] in H2. destruct ok2; cbn [negb]; [|by apply failing_nil_root].
  destruct (VerifyExecutable p); cbn [negb]; [|by apply failing_nil_root].
  assert (no_new_root w ((if ReadyProbe p then mret true else interfaceProbeFromConfig config) w2).2) as H3
    by (intros h Hh; destruct (ReadyProbe p); [by apply H2|by apply probe_dead, H2]).
  destruct ((if ReadyProbe p then mret true else interfaceProbeFromConfig config) w2) as [probe w3]. cbn [snd] in H3. apply (with_probe_startable probe) in Hp. remember (with_probe probe p) as q. clear Heqq p.
  pose proof (job_handle (ProcessLaws := ProcessLaws0) w3) as Hj.
  assert (no_new_root w (createKillOnCloseJob w3).2) as H4 by (intros h Hh; by apply create_job_dead, H3).
  destruct (createKillOnCloseJob w3) as [[job|err] w4]; cbn [fst snd] in *; [|by apply failing_nil_root].
  specialize (Hj _ eq_refl).
  pose proof (fun h => launch_dead h exe config w4) as H5. destruct (launchSuspended exe config w4) as [[n|err] w5]; cbn [fst snd] in H5.
  2: { pose proof (later_closeJob job w5) as Hl. destruct (closeJob job w5) as [e w6]. cbn [snd] in Hl. apply failing_nil_root; [done|].
       intros h Hh. eapply later_no_new_root; [exact Hl|]. apply H5; [by apply H4|done]. }
  pose proof (fun h => assign_dead h job (np_process n) w5) as H6. destruct (assignProcessToJob job (np_process n) w5) as [assigned w6]. cbn [snd] in H6.
  assert (forall h, h <> np_process n -> root_dead h w -> root_dead h w6) as H7 by (intros h Hn Hh; apply H6, H5; [by apply H4|done]).
  destruct assigned as [err|]; [by apply abort_start_outcome|].
  pose proof (fun h => resume_dead h (np_thread n) w6) as H8. destruct (resumeThread (np_thread n) w6) as [resumed w7]. cbn [snd] in H8.
  destruct resumed as [err|]; [apply abort_start_outcome; [done|]; intros h Hn Hh; by apply H8, H7|].
  destruct (closeHandle (np_thread n) w7) as [e w8]. unfold start_outcome. cbn -[invariant running created]. split; [done|]. exact (running_invariant n job q w8 Hp Hj).
Qed.

Lemma launched_invariant exe config p w s : startable p -> launched exe config p w = ([], s) ->
  job (sy_process s) <> 0 /\ invariant tree_empty (process_handle (sy_process s)) (job (sy_process s)) s.
Proof.
  intros Hp. pose proof (start_outcome_ok exe config p w Hp) as Ho. unfold launched. destruct (Start exe config p w) as [[[|e es] p'] w']; [|by intros [=]].
  by intros [= <-].
Qed.

(** ** Every run of the threads ends *)
Definition finished (t : Thread) : bool := match t with WaitEnded | Returned _ _ => true | _ => false end.

Definition rank (t : Thread) : nat :=
  match t with
  | WaitEnded | Returned _ _ => 0
  | WaitClose _ | TermFinish _ _ _ _ | TermObserve _ _ | StopCleanupRead _ | StopAwaitDone | RetryFinish _ _ | WaitDone _ => 1
  | WaitCloseHandle _ | TermCalls _ _ _ | StopObserveCleanup | RetryCalls _ | WaitEnter _ => 2
  | WaitReport _ _ _ | TermEnter _ _ | RetryEnter => 3
  | WaitLogs _ _ | StopGrace | ReadyProbed => 4
  | WaitObserver _ _ | WaitFinish _ _ _ _ | StopSend _ | ReadySelect => 5
  | WaitOwner _ _ _ | StopEnter | ReadyEnter => 6
  | WaitAcquire _ _ => 7
  | WaitExited _ _ => 8
  | WaitBlocked => 9
  end.

Lemma advance_rank c t s t' s' : advance c t s = Some (t', s') -> (rank t' < rank t)%nat.
Proof.
  destruct s as [p w]. destruct t; cbn; unfold section, calls, when; intros E; repeat case_match; simplify_eq; cbn; lia.
Qed.

(** A step of a thread that is there. *)
Definition works (s s' : Sys) : Prop :=
  exists c i t t', sy_threads s !! i = Some t /\
    advance c t (sy_process s, sy_world s) = Some (t', (sy_process s', sy_world s')) /\ sy_threads s' = <[i := t']> (sy_threads s).

Lemma works_step s s' : works s s' -> sys_step env s s'.
Proof. destruct s, s'. intros (c & i & t & t' & Hi & Ha & E). cbn in *. subst. by eapply step_thread. Qed.

Lemma works_rank s s' : works s s' -> (tally rank (sy_threads s') < tally rank (sy_threads s))%nat.
Proof.
  intros (c & i & t & t' & Hi & Ha & ->). apply advance_rank in Ha. destruct (tally_insert rank _ _ _ t' Hi) as (rest & -> & ->). lia.
Qed.

Lemma nsteps_rank n s s' : nsteps works n s s' -> (n + tally rank (sy_threads s') <= tally rank (sy_threads s))%nat.
Proof. induction 1 as [|n x y z Hw%works_rank]; lia. Qed.

Lemma rank_bound ts : (tally rank ts <= 9 * length ts)%nat.
Proof. induction ts as [|t ts IH]; [done|]. cbn. enough (rank t <= 9)%nat by (unfold tally in IH; lia). destruct t; cbn; lia. Qed.

Lemma tally_exists f ts : (forall t, f t <= 1)%nat -> tally f ts <> 0%nat -> exists i t, ts !! i = Some t /\ f t = 1%nat.
Proof.
  intros Hf. induction ts as [|t ts IH]; [done|]. cbn. intros Hn. destruct (f t) as [|k] eqn:E.
  - destruct IH as (i & u & Hi & Hu); [done|]. by exists (S i), u.
  - exists 0%nat, t. split; [done|]. specialize (Hf t). lia.
Qed.

Definition can_advance (t : Thread) (p : Process) (w : W) : Prop := exists c t' p' w', advance c t (p, w) = Some (t', (p', w')).

Lemma can_work s i t : sy_threads s !! i = Some t -> can_advance t (sy_process s) (sy_world s) -> exists s', works s s'.
Proof. intros Hi (c & t' & p' & w' & Ha). exists (mkSys p' w' (<[i := t']> (sy_threads s))). by exists c, i, t, t'. Qed.

Lemma closed_advances t p w : done_ p = Closed -> cleanupDone p = Closed -> ~ finished t -> can_advance t p w.
Proof.
  intros Hd Hc Hf. unfold can_advance.
  destruct t; try (by destruct Hf).
  all: try (exists Go; cbn; unfold section, calls, when, is_closed; rewrite ?Hd, ?Hc; cbn; repeat case_match; do 3 eexists; reflexivity).
  all: exists IsDone; cbn; unfold section, calls, when, is_closed; rewrite ?Hd, ?Hc; cbn; do 3 eexists; reflexivity.
Qed.

Lemma owner_advances t p w : owns t = 1%nat -> can_advance t p w.
Proof. intros Ho. unfold can_advance. destruct t; try done; exists Go; cbn; unfold section, calls; repeat case_match; do 3 eexists; reflexivity. Qed.

Lemma waiter_advances t p w : waits t = 1%nat -> match t with WaitObserver _ _ => cleanupDone p = Closed | _ => True end -> can_advance t p w.
Proof.
  intros Hw Ho. unfold can_advance. destruct t; try done; exists Go; cbn; unfold section, calls, when, is_closed; rewrite ?Ho; cbn; first [do 3 eexists; reflexivity|repeat case_match; do 3 eexists; reflexivity].
Qed.

Lemma progress h j s : invariant tree_empty h j s -> (exists s', works s s') \/ (Forall finished (sy_threads s) /\ done_ (sy_process s) = Closed).
Proof.
  intros [[_ _ Ho Hw _ _] Hall]. destruct (done_ (sy_process s)) eqn:Ed; [done| |].
  - left. destruct (tally_exists waits (sy_threads s)) as (i & t & Hi & Ht); [by intros []; cbn; lia|lia|].
    pose proof (Forall_lookup_1 _ _ _ _ Hall Hi) as Hk. destruct (cleanupDone (sy_process s)) eqn:Ec.
    + eapply can_work; [exact Hi|]. apply waiter_advances; [done|]. by destruct t.
    + destruct (tally_exists owns (sy_threads s)) as (k & u & Hk' & Hu); [by intros []; cbn; lia|lia|].
      eapply can_work; [exact Hk'|]. by apply owner_advances.
    + eapply can_work; [exact Hi|]. apply waiter_advances; [done|]. by destruct t.
  - destruct Hw as [_ Hc]. destruct (decide (Forall finished (sy_threads s))) as [Hf|Hf]; [by right|left].
    apply not_Forall_Exists, Exists_exists in Hf; [|apply _]. destruct Hf as (t & (i & Hi)%list_elem_of_lookup & Ht).
    eapply can_work; [done|]. by apply closed_advances.
Qed.

Lemma works_reaches n s0 s s' : reaches env s0 s -> nsteps works n s s' -> reaches env s0 s'.
Proof. intros Hr Hn. induction Hn as [|n x y z Hw Hn IH]; [done|]. apply IH. by eapply reaches_step, works_step. Qed.

(** ** The properties *)
Section Launched.
Context (exe config : string) (p : Process) (w : W) (s0 : @Sys W).
Context (Hstart : startable p) (Hlaunch : launched exe config p w = ([], s0)).

(** C6. After a successful [Start], whatever [Stop], [Ready], [Wait] and the world do and in
    whatever order, no channel is closed twice, at most one thread owns the cleanup and one
    is the [waitLoop], and [TerminationProven] is only true once the job is empty. *)
Theorem supervision_is_safe s : reaches env s0 s ->
  panicked (sy_process s) = false /\ (tally owns (sy_threads s) <= 1)%nat /\ (tally waits (sy_threads s) <= 1)%nat /\
  (TerminationProven (sy_process s) = true -> tree_empty (job (sy_process s0)) (sy_world s)).
Proof.
  intros Hr. destruct (launched_invariant _ _ _ _ _ Hstart Hlaunch) as [Hj Hi].
  destruct (reaches_invariant env later root_dead tree_empty _ _ Hj _ _ Hr Hi) as [[(_ & _ & Hn & Hp) _ Ho Hw Ht _] _].
  split; [done|]. split; [destruct (cleanupDone (sy_process s)); lia|]. split; [destruct (done_ (sy_process s)); lia|].
  unfold TerminationProven. by rewrite Hn.
Qed.

(** C7. A [Stop] that returns [nil] after a successful [Start] has ended the whole process
    tree: its job is empty and termination is reported proven. *)
Theorem stopped_means_terminated s i : reaches env s0 s -> sy_threads s !! i = Some (Returned MStop []) ->
  TerminationProven (sy_process s) = true /\ tree_empty (job (sy_process s0)) (sy_world s).
Proof.
  intros Hr Hi. destruct (launched_invariant _ _ _ _ _ Hstart Hlaunch) as [Hj Hinv].
  destruct (reaches_invariant env later root_dead tree_empty _ _ Hj _ _ Hr Hinv) as [[(_ & _ & Hn & Hp) _ Ho Hw Ht _] Hall].
  pose proof (Forall_lookup_1 _ _ _ _ Hall Hi eq_refl) as Hproven. unfold TerminationProven. rewrite Hproven, orb_true_r. auto.
Qed.

End Launched.

(** C9. [TerminationProven] after a failed [Start] means that no process of this start can
    still be running, and [Start] can be called again; when it is not proven, the only
    process that may run is the one whose handle is kept for [Stop] to retry. *)
Theorem failed_start_is_accounted exe config p w err p' w' : startable p -> Start exe config p w = ((err, p'), w') -> err <> [] ->
  (TerminationProven p' = true -> startable p' /\ no_new_root w w') /\
  (TerminationProven p' = false -> retryable p' /\ forall h, h <> process_handle p' -> root_dead h w -> root_dead h w').
Proof.
  intros Hp E He. pose proof (start_outcome_ok exe config p w Hp) as Ho. rewrite E in Ho. unfold start_outcome in Ho. cbn [fst snd] in Ho.
  destruct err; [done|]. destruct Ho as [[Hs Hn]|[Hr Hh]]; split; try done; intros Et.
  - destruct Hs as (_ & _ & _ & _ & Et'). congruence.
  - destruct Hr as (_ & _ & _ & _ & _ & Et' & _). congruence.
Qed.

(** ** Stop after a failed start *)

(** A thread that runs alone, without a context that ends. *)
Fixpoint run_alone (fuel : nat) (t : Thread) (s : State) : option (Thread * State) :=
  match fuel with
  | O => Some (t, s)
  | S fuel => if finished t then Some (t, s) else r ← advance Go t s; run_alone fuel r.1 r.2
  end.

Lemma retry_moves process : moves later (retry_calls process) (fun r w => r.2 = true -> root_dead process w).
Proof.
  intros w. unfold retry_calls, mbind, StateM_bind.
  pose proof (failing_later later "retry terminate failed-start process" (terminateProcess process) w (later_terminateProcess process)) as Hl.
  destruct (failing _ (terminateProcess process) w) as [f1 w1]. cbn [snd] in Hl.
  pose proof (failing_moves later "retry confirm failed-start termination" (waitProcess process five_seconds) (root_dead process)
    (later_waitProcess _ _) (waited_is_dead _ _) w1) as [Hl1 Hq].
  destruct (failing _ (waitProcess process five_seconds) w1) as [f2 w2]. cbn [fst snd] in *.
  assert (later w w2) by (by trans w1). destruct f2; [|done].
  pose proof (failing_later later "close failed-start process handle" (closeHandle process) w2 (later_closeHandle process)) as Hl2.
  destruct (failing _ (closeHandle process) w2) as [f3 w3]. cbn in *. split; [by trans w2|]. intros _.
  apply (root_dead_later (ProcessLaws := ProcessLaws0) _ w2); auto.
Qed.

(** The calls fail, or they say that the process ended. *)
Lemma retry_answer process w : (retry_calls process w).1.2 = false -> (retry_calls process w).1.1 <> [].
Proof.
  unfold retry_calls, mbind, StateM_bind. destruct (failing _ (terminateProcess process) w) as [f1 w1].
  destruct (failing _ (waitProcess process five_seconds) w1) as [[|e es] w2]; [by destruct (failing _ _ w2)|]. cbn. by destruct f1.
Qed.

(** [Stop] on a process whose start failed unproven ends that process and makes it
    startable again, or reports an error and leaves it to be retried. *)
Theorem stop_retries_failed_start p w : retryable p ->
  exists err p' w', run_alone 4 StopEnter (p, w) = Some (Returned MStop err, (p', w')) /\ later w w' /\
    ((startable p' /\ root_dead (process_handle p) w') \/ (p' = p /\ err <> [])).
Proof.
  intros (Hs & Hf & Hd & Hc & Hp & Ht & n & Hn). destruct (retry_moves (process_handle p) w) as [Hl Hq]. pose proof (retry_answer (process_handle p) w) as Ha.
  cbn. unfold stop_section. rewrite Hf. cbn.
  unfold calls. destruct (retry_calls (process_handle p) w) as [[failures confirmed] w1]. cbn [fst snd] in *.
  destruct confirmed; cbn; do 3 eexists; (split; [reflexivity|]; split; [done|]).
  - left. split; [|by apply Hq]. split_and!; cbn; rewrite ?Hd, ?Hp; try done. apply orb_true_r.
  - right. split; [done|]. intros [_ E%cleanup_error_nil]%app_eq_nil. by apply Ha.
Qed.
End Props.
