(* ===== verification/SupervisorDemo.v ===== *)
(** * The supervisor on a small system

    An instance of the native calls: processes and the jobs they belong to, with waits that
    can time out. It discharges the laws, so that the properties hold of it, and shows what
    two concurrent [Stop]s do after a failed start. *)
From S2P Require Import Prelude Supervisor SupervisorThreads SupervisorSpec SupervisorProps.
From stdpp Require Import list.

#[local] Open Scope string_scope.
#[local] Open Scope Z_scope.
#[local] Open Scope list_scope.

(** Handles of the processes that run, the members of the jobs, the next handle, how often
    a wait times out, and whether a process can be resumed. *)
Record Os := mkOs { os_alive : list Z; os_jobs : list (Z * Z); os_next : positive; os_slow : nat; os_resumes : bool }.

Definition fresh_handle (o : Os) : Os := mkOs (os_alive o) (os_jobs o) (Pos.succ (os_next o)) (os_slow o) (os_resumes o).

(** A process ends, and every process of a job. *)
Definition end_process (h : Z) (o : Os) : Os :=
  mkOs (filter (fun x => x <> h) (os_alive o)) (filter (fun x => x.2 <> h) (os_jobs o)) (os_next o) (os_slow o) (os_resumes o).
Definition end_job (j : Z) (o : Os) : Os :=
  mkOs (filter (fun x => (j, x) ∉ os_jobs o) (os_alive o)) (filter (fun x => x.1 <> j) (os_jobs o)) (os_next o) (os_slow o) (os_resumes o).
Definition hurry (o : Os) : Os := mkOs (os_alive o) (os_jobs o) (os_next o) (pred (os_slow o)) (os_resumes o).
Definition join_job (j h : Z) (o : Os) : Os := mkOs (os_alive o) ((j, h) :: os_jobs o) (os_next o) (os_slow o) (os_resumes o).
Definition spawn (h : Z) (o : Os) : Os := mkOs (h :: os_alive o) (os_jobs o) (os_next o) (os_slow o) (os_resumes o).

Definition demo_wait (h t : Z) (o : Os) : option string * Os :=
  if t <? 0 then (None, end_process h o)
  else if (0 <? Z.of_nat (os_slow o)) || bool_decide (h ∈ os_alive o) then (Some "timed out", hurry o) else (None, o).

#[export] Instance demo_ops : ProcessOps Os := {
  createKillOnCloseJob o := (inl (Zpos (os_next o)), fresh_handle o);
  launchSuspended _ _ o := let h := Zpos (os_next o) in (inl (mkNative h (h + 1) h false), spawn h (fresh_handle (fresh_handle o)));
  assignProcessToJob j h o := (None, join_job j h o);
  resumeThread _ o := (if os_resumes o then None else Some "access denied", o);
  terminateProcess h o := (None, end_process h o);
  terminateJob j o := (None, end_job j o);
  closeJob j o := (None, end_job j o);
  closeHandle _ o := (None, o);
  waitProcess := demo_wait;
  waitJobEmpty j _ o := (if bool_decide (Exists (fun x => x.1 = j) (os_jobs o)) then Some "job is not empty" else None, o);
  exitCode _ o := (inl 0, o);
  sendBreak _ o := (None, o);
  waitLog o := (true, o);
  validateLaunchPath path o := (negb (String.eqb path ""), o);
  interfaceProbeFromConfig _ o := (true, o)
}.

Definition os_later (o o' : Os) : Prop := os_alive o' ⊆ os_alive o /\ os_jobs o' ⊆ os_jobs o.
Definition os_env (o o' : Os) : Prop := exists h, o' = end_process h o.
Definition os_dead (h : Z) (o : Os) : Prop := h ∉ os_alive o.
Definition os_empty (j : Z) (o : Os) : Prop := Forall (fun x => x.1 <> j) (os_jobs o).

Lemma filter_subseteq {A} (P : A -> Prop) `{!forall x, Decision (P x)} (l : list A) : filter P l ⊆ l.
Proof. intros x [_ ?]%list_elem_of_filter. done. Qed.

Lemma end_process_later h o : os_later o (end_process h o).
Proof. split; apply filter_subseteq. Qed.
Lemma end_job_later h o : os_later o (end_job h o).
Proof. split; apply filter_subseteq. Qed.
Lemma os_later_refl o : os_later o o.
Proof. by split. Qed.
Lemma demo_wait_later h t o : os_later o (demo_wait h t o).2.
Proof. unfold demo_wait. repeat case_match; cbn; [apply end_process_later|by split..]. Qed.

#[export] Instance demo_laws : ProcessLaws Os os_env os_later os_dead os_empty.
Proof.
  split; intros; try apply os_later_refl; try apply end_process_later; try apply end_job_later; try apply demo_wait_later.
  - split; [by split|]. intros x y z [? ?] [? ?]. split; set_solver.
  - destruct H as [h ->]. apply end_process_later.
  - destruct H0 as [H0 _]. unfold os_dead in *. set_solver.
  - destruct H0 as [_ H0]. unfold os_empty in *. rewrite Forall_forall in *. intros x Hx. by apply H, H0.
  - cbn in *. unfold demo_wait in *. unfold os_dead. destruct (t <? 0); cbn in *; [intros [? _]%list_elem_of_filter; done|].
    destruct ((0 <? Z.of_nat (os_slow w)) || bool_decide (h ∈ os_alive w)) eqn:E; cbn in *; [done|].
    apply orb_false_iff in E as [_ E]. by apply bool_decide_eq_false in E.
  - cbn in *. unfold os_empty. case_bool_decide as E; [done|]. by apply not_Exists_Forall in E; [|apply _].
  - cbn in *. by injection H as <-.
Qed.

#[export] Instance demo_launch : LaunchLaws Os os_dead.
Proof. split; intros; cbn in *; try done. unfold os_dead in *. cbn. set_solver. Qed.

Definition demo_process : Process := newProcess true true.
Definition demo_os : Os := mkOs [] [] 1 0 true.
Definition demo_launched : @Sys Os := snd (launched "C:\core.exe" "C:\config.json" demo_process demo_os).

Lemma demo_starts : startable demo_process /\ launched "C:\core.exe" "C:\config.json" demo_process demo_os = ([], demo_launched).
Proof. by split. Qed.

(** ** Scripts *)

(** A script calls methods and lets threads move. *)
Inductive Act := Call (m : Method) | Move (i : nat) (c : Choice).

Definition entry_of (m : Method) : Thread := match m with MStop => StopEnter | MReady => ReadyEnter | MWait => WaitEnter MWait end.

Definition act (a : Act) (s : @Sys Os) : option (@Sys Os) :=
  match a with
  | Call m => Some (mkSys (sy_process s) (sy_world s) (sy_threads s ++ [entry_of m]))
  | Move i c => t ← sy_threads s !! i; r ← advance c t (sy_process s, sy_world s); Some (mkSys r.2.1 r.2.2 (<[i := r.1]> (sy_threads s)))
  end.

Fixpoint play (script : list Act) (s : @Sys Os) : option (@Sys Os) :=
  match script with [] => Some s | a :: script => s ← act a s; play script s end.

Lemma act_step a s s' : act a s = Some s' -> sys_step os_env s s'.
Proof.
  destruct s as [p w ts], a as [m|i c]; cbn.
  - intros [= <-]. constructor. by destruct m; constructor.
  - intros (t & Hi & H)%bind_Some. apply bind_Some in H as ([t' [p' w']] & Ha & [= <-]). by eapply step_thread.
Qed.

Lemma reaches_from s0 s s' : sys_step os_env s0 s -> reaches os_env s s' -> reaches os_env s0 s'.
Proof. intros Hs Hr. induction Hr as [|s1 s2 Hr IH Hstep]; [by eapply reaches_step, Hs; constructor|by eapply reaches_step]. Qed.

Lemma play_reaches script s s' : play script s = Some s' -> reaches os_env s s'.
Proof.
  revert s. induction script as [|a script IH]; intros s; cbn; [intros [= <-]; constructor|].
  intros (s1 & Ha%act_step & Hp%IH)%bind_Some. by eapply reaches_from.
Qed.

Definition move (i n : nat) : list Act := repeat (Move i Go) n.

(** [Stop] waits in vain for the process to leave by itself and terminates its job. *)
Definition stop_script : list Act := [Call MStop; Move 1 Go; Move 1 Go; Move 1 TimedOut] ++ move 1 3.
Definition stopped_sys : @Sys Os := default demo_launched (play stop_script demo_launched).

Lemma stop_reached : reaches os_env demo_launched stopped_sys.
Proof. apply (play_reaches stop_script). vm_compute. reflexivity. Qed.

Lemma supervision_is_safe_witness : panicked (sy_process stopped_sys) = false /\ os_empty (job (sy_process demo_launched)) (sy_world stopped_sys).
Proof.
  destruct demo_starts as [Hs Hl].
  pose proof (supervision_is_safe os_env os_later os_dead os_empty _ _ _ _ demo_launched Hs Hl _ stop_reached) as (Hp & _ & _ & Ht).
  split; [exact Hp|]. apply Ht. vm_compute. reflexivity.
Defined.

Lemma stopped_means_terminated_witness : TerminationProven (sy_process stopped_sys) = true /\ os_empty (job (sy_process demo_launched)) (sy_world stopped_sys).
Proof.
  destruct demo_starts as [Hs Hl].
  apply (stopped_means_terminated os_env os_later os_dead os_empty _ _ _ _ demo_launched Hs Hl stopped_sys 1 stop_reached). vm_compute. reflexivity.
Defined.


(** A process that cannot be resumed; its end is seen at once, or not in time. *)
Definition stuck_os (slow : nat) : Os := mkOs [] [] 1 slow false.
Definition stuck_start (slow : nat) : (Error * Process) * Os := Start "C:\core.exe" "C:\config.json" demo_process (stuck_os slow).

Lemma failed_start_is_accounted_witness : startable (stuck_start 0).1.2 /\ no_new_root os_dead (stuck_os 0) (stuck_start 0).2.
Proof.
  apply (failed_start_is_accounted os_env os_later os_dead os_empty "C:\core.exe" "C:\config.json" demo_process (stuck_os 0)
    (stuck_start 0).1.1 (stuck_start 0).1.2 (stuck_start 0).2); [by split|by vm_compute|by vm_compute|by vm_compute].
Defined.

Lemma stop_retries_failed_start_witness : exists err p' w', run_alone 4 StopEnter ((stuck_start 1).1.2, (stuck_start 1).2) = Some (Returned MStop err, (p', w')) /\
  startable p' /\ os_dead 2 w'.
Proof.
  destruct (stop_retries_failed_start os_env os_later os_dead os_empty (stuck_start 1).1.2 (stuck_start 1).2) as (err & p' & w' & Hrun & _ & Hq).
  - unfold retryable. split_and!; try by vm_compute. eexists. by vm_compute.
  - exists err, p', w'. split; [exact Hrun|]. destruct Hq as [[Hq Hd]|[-> _]]; [split; [exact Hq|exact Hd]|].
    vm_compute in Hrun. discriminate.
Defined.

(** ** Two stops after a failed start *)
Definition failed_sys : @Sys Os := snd (launched "C:\core.exe" "C:\config.json" demo_process (stuck_os 1)).

Definition two_stops : list Act := [Call MStop; Call MStop] ++ move 0 3 ++ move 1 3 ++ move 0 1 ++ move 1 1.

(** Both retry the cleanup, both see the process end, and both close its channel. *)
Lemma two_stops_panic : exists s, reaches os_env failed_sys s /\ panicked (sy_process s) = true.
Proof.
  destruct (play two_stops failed_sys) as [s|] eqn:E; [|by vm_compute in E].
  exists s. split; [by eapply play_reaches|]. revert E. vm_compute. by intros [= <-].
Qed.

(** After a failed start that was cleaned up, the same process starts again. *)
Lemma process_starts_twice : let p := (stuck_start 0).1.2 in (Start "C:\core.exe" "C:\config.json" p demo_os).1.1 = [].
Proof. by vm_compute. Qed.
