(* ===== verification/Trail.v ===== *)
(** * Calls of a system that can stop anywhere

    State passing over some memory and a world, with the trail of worlds in which the
    process can be killed; a weakest precondition with a condition on that trail; and runs
    that only read, up to what the world does by itself. *)
From S2P Require Import Prelude.
From stdpp Require Import list.

#[local] Open Scope list_scope.

(** The answer, when there is one, satisfies [P]. *)
Definition answers {A} (r : A + string) (P : A -> Prop) : Prop := match r with inl x => P x | inr _ => True end.

Section Trail.
Context {X W : Type}.

Record St := mkSt { mgr : X; world : W; trail : list W }.

Definition M (A : Type) : Type := StateM St A.

(** A call of the system: the process can be killed in the world that it leaves. *)
Definition sys {A} (op : StateM W A) : M A := fun s =>
  let '(x, w) := op (world s) in (x, mkSt (mgr s) w (w :: trail s)).

Definition try_bind {A B} (m : M (A + string)) (f : A -> M (B + string)) : M (B + string) :=
  r ← m; match r with inl x => f x | inr e => mret (inr e) end.

Definition fail {A} (e : string) : M (A + string) := mret (inr e).
Definition ok {A} (x : A) : M (A + string) := mret (inl x).

(** ** A weakest precondition with a crash condition *)
Definition twp {A} (C : W -> Prop) (m : M A) (Q : A -> St -> Prop) (s : St) : Prop :=
  Q (m s).1 (m s).2 /\ exists l, trail (m s).2 = l ++ trail s /\ Forall C l.

Lemma twp_ret {A} C (x : A) (Q : A -> St -> Prop) s : Q x s -> twp C (mret x) Q s.
Proof. intros HQ. split; [done|]. by exists []. Qed.

Lemma twp_bind {A B} C (m : M A) (f : A -> M B) Q s : twp C m (fun x => twp C (f x) Q) s -> twp C (m ≫= f) Q s.
Proof.
  intros (Hq & l & Hl & HC). unfold twp, mbind, StateM_bind in *. destruct (m s) as [x s1]. cbn [fst snd] in *.
  destruct Hq as (Hq & l' & Hl' & HC'). split; [done|]. exists (l' ++ l). rewrite Hl', Hl, app_assoc. split; [done|]. by apply Forall_app.
Qed.

Lemma twp_mono {A} C (m : M A) (Q Q' : A -> St -> Prop) s : (forall x s', Q' x s' -> Q x s') -> twp C m Q' s -> twp C m Q s.
Proof. intros HQ (Hq & Hl). split; [auto|done]. Qed.

Lemma twp_try {A B} C (m : M (A + string)) (f : A -> M (B + string)) Q s :
  twp C m (fun r s' => match r with inl x => twp C (f x) Q s' | inr e => Q (inr e) s' end) s -> twp C (try_bind m f) Q s.
Proof. intros Hm. apply twp_bind. eapply twp_mono; [|exact Hm]. intros [x|e] s' H; [done|by apply twp_ret]. Qed.

Lemma twp_gets {A} C (f : St -> A) (Q : A -> St -> Prop) s : Q (f s) s -> twp C (gets f) Q s.
Proof. intros HQ. split; [done|]. by exists []. Qed.

Lemma twp_sys {A} C (op : StateM W A) (Q : A -> St -> Prop) s :
  C (op (world s)).2 -> Q (op (world s)).1 (mkSt (mgr s) (op (world s)).2 ((op (world s)).2 :: trail s)) -> twp C (sys op) Q s.
Proof.
  intros HC HQ. unfold twp, sys. destruct (op (world s)) as [x w]. cbn [fst snd trail] in *. split; [done|]. exists [w]. auto.
Qed.

(** ** Runs that only read *)
Section Reads.
Context (quiet : W -> W -> Prop) `{!PreOrder quiet}.

Definition reads {A} (Pre : W -> Prop) (m : M A) (Post : A -> W -> Prop) : Prop := forall s, Pre (world s) ->
  quiet (world s) (world (m s).2) /\ mgr (m s).2 = mgr s /\ Post (m s).1 (world (m s).2) /\
  exists l, trail (m s).2 = l ++ trail s /\ Forall (quiet (world s)) l.

Lemma reads_ret {A} (Pre : W -> Prop) (x : A) : reads Pre (mret x) (fun y w => y = x /\ Pre w).
Proof. intros s Hs. split; [done|]. split; [done|]. split; [done|]. by exists []. Qed.

Lemma reads_bind {A B} Pre (m : M A) (f : A -> M B) Mid Post : reads Pre m Mid -> (forall x, reads (Mid x) (f x) Post) -> reads Pre (m ≫= f) Post.
Proof.
  intros Hm Hf s Hs. destruct (Hm s Hs) as (Hq & Hg & Hp & l & Hl & HC). unfold mbind, StateM_bind. destruct (m s) as [x s1]. cbn [fst snd] in *.
  destruct (Hf x s1 Hp) as (Hq' & Hg' & Hp' & l' & Hl' & HC'). split; [by etrans|]. split; [congruence|]. split; [done|].
  exists (l' ++ l). rewrite Hl', Hl, app_assoc. split; [done|]. apply Forall_app. split; [|done]. eapply Forall_impl; [exact HC'|]. intros w. by etrans.
Qed.

Lemma reads_weaken {A} (Pre Pre' : W -> Prop) (m : M A) (Post Post' : A -> W -> Prop) :
  reads Pre' m Post' -> (forall w, Pre w -> Pre' w) -> (forall x w, Post' x w -> Post x w) -> reads Pre m Post.
Proof. intros Hm HP HQ s Hs. destruct (Hm s (HP _ Hs)) as (? & ? & ? & ?). eauto. Qed.

Lemma reads_sys {A} (Pre : W -> Prop) (op : StateM W A) (Post : A -> W -> Prop) :
  (forall w, Pre w -> quiet w (op w).2 /\ Post (op w).1 (op w).2) -> reads Pre (sys op) Post.
Proof.
  intros Hop s Hs. destruct (Hop _ Hs) as [Hq Hp]. unfold sys. destruct (op (world s)) as [x w]. cbn in *. split; [done|]. split; [done|]. split; [done|].
  exists [w]. auto.
Qed.

(** Answers that are errors end the run. *)
Lemma reads_try {A B} Pre (m : M (A + string)) (f : A -> M (B + string)) Mid Post : reads Pre m (fun r w => answers r (fun x => Mid x w)) ->
  (forall x, reads (Mid x) (f x) (fun r w => answers r (fun y => Post y w))) -> reads Pre (try_bind m f) (fun r w => answers r (fun y => Post y w)).
Proof.
  intros Hm Hf. eapply reads_bind; [exact Hm|]. intros [x|e]; [apply Hf|]. eapply reads_weaken; [apply reads_ret|intros w Hw; exact Hw|]. by intros x w [-> _].
Qed.

Lemma reads_fail {A} (Pre : W -> Prop) e (Post : A -> W -> Prop) : reads Pre (fail e) (fun r w => answers r (fun y => Post y w)).
Proof. eapply reads_weaken; [apply reads_ret|intros w Hw; exact Hw|]. by intros x w [-> _]. Qed.

Lemma reads_ok {A} (Pre : W -> Prop) (x : A) (Post : A -> W -> Prop) : (forall w, Pre w -> Post x w) -> reads Pre (ok x) (fun r w => answers r (fun y => Post y w)).
Proof. intros HP. eapply reads_weaken; [apply reads_ret|intros w Hw; exact Hw|]. intros y w [-> Hw]. by apply HP. Qed.

Lemma reads_frame {A} (Pre : W -> Prop) (m : M A) Post (F : W -> Prop) : (forall w w', quiet w w' -> F w -> F w') -> reads Pre m Post ->
  reads (fun w => Pre w /\ F w) m (fun x w => Post x w /\ F w).
Proof. intros HF Hm s [Hs Hf]. destruct (Hm s Hs) as (Hq & Hg & Hp & Hl). split; [done|]. split; [done|]. split; [|done]. split; [done|]. by eapply HF. Qed.

(** A run that only reads, for a condition that reads keep. *)
Lemma twp_of_reads {A} (C : W -> Prop) (Pre : W -> Prop) (m : M A) Post (Q : A -> St -> Prop) s : (forall w w', quiet w w' -> C w -> C w') ->
  reads Pre m Post -> Pre (world s) -> C (world s) ->
  (forall x s', Post x (world s') -> quiet (world s) (world s') -> mgr s' = mgr s -> Q x s') -> twp C m Q s.
Proof.
  intros HC Hm Hs Hr HQ. destruct (Hm s Hs) as (Hq & Hg & Hp & l & Hl & Hall). split; [by apply HQ|]. exists l. split; [done|].
  eapply Forall_impl; [exact Hall|]. intros w Hw. by eapply HC.
Qed.
End Reads.
End Trail.

#[global] Arguments St : clear implicits.
#[global] Arguments M : clear implicits.
#[global] Arguments reads_ret {X W quiet _ A}.
#[global] Arguments reads_bind {X W quiet _ A B}.
#[global] Arguments reads_weaken {X W quiet A}.
#[global] Arguments reads_sys {X W quiet A}.
#[global] Arguments reads_try {X W quiet _ A B}.
#[global] Arguments reads_fail {X W quiet _ A}.
#[global] Arguments reads_ok {X W quiet _ A}.
#[global] Arguments reads_frame {X W quiet A}.
#[global] Arguments twp_of_reads {X W quiet A}.
