(* ===== verification/DarwinNetwork.v ===== *)
(** * The network of the macOS service ([internal/platform/darwin/snapshot.go])

    The manager that routes the traffic of a Mac through the tunnel: it journals every
    change before it makes it and undoes what the journal says. The system and the journal
    are classes of operations over a world [W]; the trail lists the worlds in which the
    process can be killed. *)
From S2P Require Import Prelude Trail GoText Netip PocModel.
From stdpp Require Import list pretty.

#[local] Open Scope string_scope.
#[local] Open Scope Z_scope.
#[local] Open Scope list_scope.

(** ** Data *)
Definition TUNName := "utun9".
Definition TUNAddress := "172.19.0.1/30".
Definition TUNDNS := "172.19.0.2".

Record baseline := mkBaseline { bl_Interface : string; bl_Index : Z; bl_Gateway : string; bl_Service : string; bl_DNS : list string }.
Record tunIdentity := mkTun { tun_Name : string; tun_Index : Z; tun_Address : string }.
Record ownedRoute := mkRoute { or_Destination : string; or_Gateway : string; or_Interface : string; or_Index : Z }.

#[export] Instance baseline_eq_dec : EqDecision baseline.
Proof. solve_decision. Defined.
#[export] Instance tunIdentity_eq_dec : EqDecision tunIdentity.
Proof. solve_decision. Defined.
#[export] Instance ownedRoute_eq_dec : EqDecision ownedRoute.
Proof. solve_decision. Defined.

Definition no_tun : tunIdentity := mkTun "" 0 "".

Record networkSnapshot := mkSnapshot {
  ns_Version : Z; ns_BootSession : string; ns_Baseline : baseline; ns_TUN : tunIdentity; ns_Routes : list ownedRoute; ns_DNSIntended : bool
}.

(** [agent.PreparedNetwork], what the service gets of it. *)
Record PreparedNetwork := mkPrepared { pn_Generation : Z; pn_Fingerprint : string; pn_AdapterCount : Z }.

Record Manager := mkManager { nm_prepared : baseline; nm_generation : Z; nm_active : option networkSnapshot }.

Definition newNetworkManager : Manager := mkManager (mkBaseline "" 0 "" "" []) 0 None.

(** ** The interfaces of the manager *)
Class networkSystem (W : Type) := {
  BootSession : StateM W (string + string);
  Discover : StateM W (baseline + string);
  TUN : StateM W (tunIdentity + string);
  Routes : StateM W (list ownedRoute + string);
  DNS : string -> StateM W (list string + string);
  SetDNS : string -> list string -> StateM W (unit + string);
  AddRoute : ownedRoute -> StateM W (unit + string);
  DeleteRoute : ownedRoute -> StateM W (unit + string)
}.

Class journal (W : Type) := {
  Load : StateM W (option networkSnapshot + string);
  Save : networkSnapshot -> StateM W (unit + string);
  Remove : StateM W (unit + string)
}.

(** ** Pure parts *)
Definition sameDNS (a b : list string) : bool := bool_decide (a = b).

Definition sameBaseline (a b : baseline) : bool :=
  (bl_Interface a =?s bl_Interface b) && (bl_Index a =? bl_Index b) && (bl_Gateway a =?s bl_Gateway b) &&
  (bl_Service a =?s bl_Service b) && sameDNS (bl_DNS a) (bl_DNS b).

Definition plannedDestination (d : string) : bool := (d =?s "0.0.0.0/1") || (d =?s "128.0.0.0/1") || (d =?s "172.20.0.0/16").

Definition link_name (index : Z) : string := "link#" ++s pretty index.

(** The routes that the activation installs, in order. *)
Definition targets (s : networkSnapshot) (t : tunIdentity) : list ownedRoute :=
  [mkRoute "172.20.0.0/16" (bl_Gateway (ns_Baseline s)) (bl_Interface (ns_Baseline s)) (bl_Index (ns_Baseline s));
   mkRoute "0.0.0.0/1" (link_name (tun_Index t)) TUNName (tun_Index t);
   mkRoute "128.0.0.0/1" (link_name (tun_Index t)) TUNName (tun_Index t)].

Definition with_tun (t : tunIdentity) (s : networkSnapshot) : networkSnapshot :=
  mkSnapshot (ns_Version s) (ns_BootSession s) (ns_Baseline s) t (ns_Routes s) (ns_DNSIntended s).
Definition with_route (r : ownedRoute) (s : networkSnapshot) : networkSnapshot :=
  mkSnapshot (ns_Version s) (ns_BootSession s) (ns_Baseline s) (ns_TUN s) (ns_Routes s ++ [r]) (ns_DNSIntended s).
Definition with_dns_intent (s : networkSnapshot) : networkSnapshot :=
  mkSnapshot (ns_Version s) (ns_BootSession s) (ns_Baseline s) (ns_TUN s) (ns_Routes s) true.

(** The conflict that a route table has with the plan. *)
Fixpoint route_conflict (routes : list ownedRoute) : option string :=
  match routes with
  | [] => None
  | r :: routes =>
      if plannedDestination (or_Destination r) then Some ("route conflict: " ++s or_Destination r)
      else if strings_HasPrefix (or_Interface r) "utun" &&
        negb (match ParsePrefix (or_Destination r) with Some p => IsLinkLocalUnicast (PrefixAddr p) | None => false end)
      then Some "nonlocal foreign VPN route"
      else route_conflict routes
  end.

(** [uint64] generations wrap around. *)
Definition next_generation (g : Z) : Z := uint64_incr g.

Section Manager.
Context {W : Type} `{!networkSystem W} `{!journal W} (fingerprint : baseline -> string).

(** ** State passing *)
#[local] Abbreviation M := (Trail.M Manager W).

#[local] Notation "'try' x ':=' m 'in' k" := (try_bind m (fun x => k)) (at level 10, x pattern, m at level 100, k at level 200).

Definition get_active : M (option networkSnapshot) := gets (fun s => nm_active (mgr s)).
Definition set_active (a : option networkSnapshot) : M unit :=
  puts (fun s => mkSt (mkManager (nm_prepared (mgr s)) (nm_generation (mgr s)) a) (world s) (trail s)).

(** ** Operations *)
Definition preflight : M (baseline + string) :=
  try b := sys Discover in
  if (bl_Interface b =?s "") || (bl_Index b <=? 0) || (bl_Gateway b =?s "") || (bl_Service b =?s "") then fail "ambiguous physical network"
  else
    try tun := sys TUN in
    if negb (tun_Name tun =?s "") then fail "utun9 already exists"
    else
      try routes := sys Routes in
      match route_conflict routes with Some e => fail e | None => ok b end.

Definition Prepare : M (PreparedNetwork + string) :=
  try s := sys Load in
  active ← get_active;
  if bool_decide (is_Some s) || bool_decide (is_Some active) then fail "unresolved network journal; reconcile required"
  else
    try b := preflight in
    puts (fun s => mkSt (mkManager b (next_generation (nm_generation (mgr s))) (nm_active (mgr s))) (world s) (trail s)) ≫= fun _ =>
    g ← gets (fun s => nm_generation (mgr s));
    ok (mkPrepared g (fingerprint b) 1).

Definition Capture (p : PreparedNetwork) : M (networkSnapshot + string) :=
  m ← gets mgr;
  if bool_decide (is_Some (nm_active m)) || negb (pn_Generation p =? nm_generation m) || (pn_Generation p =? 0) then fail "stale network preparation"
  else
    try existing := sys Load in
    if bool_decide (is_Some existing) then fail "journal already exists"
    else
      try b := preflight in
      if negb (sameBaseline b (nm_prepared m)) || negb (pn_Fingerprint p =?s fingerprint b) then fail "physical network changed before capture"
      else
        try boot := sys BootSession in
        if boot =?s "" then fail "boot session unavailable"
        else
          let s := mkSnapshot 1 boot b no_tun [] false in
          try _ := sys (Save s) in
          set_active (Some s) ≫= fun _ => ok s.

Definition EnableProtection (ctx_err : option string) : M (unit + string) :=
  match ctx_err with
  | Some e => fail e
  | None => active ← get_active; match active with None => fail "network not captured" | Some _ => ok tt end
  end.

(** One round of [WaitTUNReady] under the mutex; [None] waits for the next. *)
Definition poll_tun : M (option (unit + string)) :=
  active ← get_active;
  match active with
  | None => mret (Some (inr "network not captured"))
  | Some s =>
      r ← sys TUN;
      match r with
      | inl t =>
          if (tun_Name t =?s TUNName) && (0 <? tun_Index t) && (tun_Address t =?s TUNAddress) then
            let snapshot := with_tun t s in
            saved ← sys (Save snapshot);
            match saved with
            | inl _ => set_active (Some snapshot) ≫= fun _ => mret (Some (inl tt))
            | inr e => mret (Some (inr e))
            end
          else mret None
      | inr e => mret (Some (inr e))
      end
  end.

(** What ends a wait between two rounds. *)
Inductive Tick := Ticked | Deadline | Cancelled (err : string).

Fixpoint WaitTUNReady (ticks : list Tick) : M (unit + string) :=
  r ← poll_tun;
  match r with
  | Some r => mret r
  | None =>
      match ticks with
      | Ticked :: ticks => WaitTUNReady ticks
      | Cancelled e :: _ => fail e
      | Deadline :: _ | [] => fail "TUN readiness timeout"
      end
  end.

(** The loop of the activation over the routes that are left; it extends the active
    snapshot in place. *)
Fixpoint install_routes (rs : list ownedRoute) (s : networkSnapshot) : M (networkSnapshot + string) :=
  match rs with
  | [] => ok s
  | r :: rs =>
      try routes := sys Routes in
      if existsb (fun v => or_Destination v =?s or_Destination r) routes then fail ("route conflict: " ++s or_Destination r)
      else
        let s := with_route r s in
        set_active (Some s) ≫= fun _ =>
        try _ := sys (Save s) in
        try _ := sys (AddRoute r) in
        install_routes rs s
  end.

Definition ActivateTUNRoutes : M (unit + string) :=
  active ← get_active;
  match active with
  | None => fail "captured TUN identity required"
  | Some s =>
      if tun_Index (ns_TUN s) <=? 0 then fail "captured TUN identity required"
      else
        try t := sys TUN in
        if negb (bool_decide (t = ns_TUN s)) then fail "TUN identity changed"
        else
          try physical := sys Discover in
          if negb (sameBaseline physical (ns_Baseline s)) then fail "physical network changed before activation"
          else
            try s := install_routes (targets s t) s in
            try dns := sys (DNS (bl_Service (ns_Baseline s))) in
            if negb (sameDNS dns (bl_DNS (ns_Baseline s))) then fail "DNS changed before activation"
            else
              let s := with_dns_intent s in
              set_active (Some s) ≫= fun _ =>
              try _ := sys (Save s) in
              sys (SetDNS (bl_Service (ns_Baseline s)) [TUNDNS])
  end.

(** *** Restore *)
Definition restore_dns (s : networkSnapshot) : M (list string) :=
  if negb (ns_DNSIntended s) then mret []
  else
    r ← sys (DNS (bl_Service (ns_Baseline s)));
    match r with
    | inr e => mret [e]
    | inl dns =>
        if sameDNS dns (bl_DNS (ns_Baseline s)) then mret []
        else if sameDNS dns [TUNDNS] then
          r ← sys (SetDNS (bl_Service (ns_Baseline s)) (bl_DNS (ns_Baseline s)));
          mret (match r with inl _ => [] | inr e => [e] end)
        else mret ["DNS changed externally; needs action"]
    end.

(** The rows of the route table that go where the owned route goes. *)
Fixpoint restore_rows (boot : string + string) (session : string) (r : ownedRoute) (rows : list ownedRoute) : M (list string) :=
  match rows with
  | [] => mret []
  | v :: rows =>
      errs ← (if negb (or_Destination v =?s or_Destination r) then mret []
        else if negb (match boot with inl boot => boot =?s session | inr _ => false end) then mret ["route ownership cannot cross boot sessions; needs action"]
        else if negb (bool_decide (v = r)) then mret ["route " ++s or_Destination r ++s " changed externally; needs action"]
        else d ← sys (DeleteRoute r); mret (match d with inl _ => [] | inr e => [e] end));
      more ← restore_rows boot session r rows;
      mret (errs ++ more)
  end.

Fixpoint restore_routes (boot : string + string) (session : string) (rs : list ownedRoute) : M (list string) :=
  match rs with
  | [] => mret []
  | r :: rs =>
      routes ← sys Routes;
      errs ← (match routes with inr e => mret [e] | inl rows => restore_rows boot session r rows end);
      more ← restore_routes boot session rs;
      mret (errs ++ more)
  end.

(** The errors of [restore] that [errors.Join] collects; none is success. *)
Definition restore_snapshot (s : networkSnapshot) : M (list string) :=
  set_active (Some s) ≫= fun _ =>
  dns_errs ← restore_dns s;
  boot ← sys BootSession;
  route_errs ← restore_routes boot (ns_BootSession s) (rev (ns_Routes s));
  match dns_errs ++ route_errs with
  | [] =>
      r ← sys Remove;
      match r with
      | inr e => mret [e]
      | inl _ => set_active None ≫= fun _ => mret []
      end
  | errs => mret errs
  end.

Definition restore : M (list string) :=
  active ← get_active;
  match active with
  | Some s => restore_snapshot s
  | None =>
      r ← sys Load;
      match r with
      | inr e => mret [e]
      | inl None => mret []
      | inl (Some s) => restore_snapshot s
      end
  end.

Definition Restore : M (list string) := restore.
Definition Reconcile : M (list string) := restore.

(** *** The monitor *)
Definition StartMonitor (p : PreparedNetwork) : M (networkSnapshot + string) :=
  m ← gets mgr;
  match nm_active m with
  | Some s => if pn_Generation p =? nm_generation m then ok s else fail "no active network"
  | None => fail "no active network"
  end.

(** One check of the goroutine, on the snapshot that it took when it started. *)
Definition monitor_check (s : networkSnapshot) : M (unit + string) :=
  try b := sys Discover in
  if negb (sameBaseline (mkBaseline (bl_Interface b) (bl_Index b) (bl_Gateway b) (bl_Service b) (bl_DNS (ns_Baseline s))) (ns_Baseline s)) then fail "physical network changed"
  else
    try t := sys TUN in
    if negb (bool_decide (t = ns_TUN s)) then fail "TUN disappeared or changed"
    else
      try dns := sys (DNS (bl_Service (ns_Baseline s))) in
      if negb (bool_decide (dns = [TUNDNS])) then fail "DNS changed" else ok tt.
End Manager.
