(* ===== verification/DarwinSpec.v ===== *)
(** * What the journal of the macOS network guarantees

    Every change is journalled before it is made, so whatever world the process is killed
    in, what the journal says suffices to go back to the network that was found. *)
From S2P Require Import Prelude Trail DarwinNetwork.
From stdpp Require Import list.

#[local] Open Scope string_scope.
#[local] Open Scope Z_scope.
#[local] Open Scope list_scope.

(** ** The laws of the system *)

Definition planned (r : ownedRoute) : Prop := plannedDestination (or_Destination r) = true.

Section Quiet.
Context {W : Type} (routes_of : W -> list ownedRoute) (dns_of : W -> string -> list string) (boot_of : W -> string)
  (journal_of : W -> option networkSnapshot).

(** Nobody else makes a planned route, and none of the rest changes; routes may vanish with
    their interface. *)
Record quiet (w w' : W) : Prop := {
  q_routes r : r ∈ routes_of w' -> planned r -> r ∈ routes_of w;
  q_dns svc : dns_of w' svc = dns_of w svc;
  q_boot : boot_of w' = boot_of w;
  q_journal : journal_of w' = journal_of w
}.

(** What the calls may change, also when they fail. *)
Record dns_set (svc : string) (dns : list string) (w w' : W) : Prop := {
  ds_routes r : r ∈ routes_of w' -> planned r -> r ∈ routes_of w;
  ds_dns : dns_of w' svc = dns_of w svc \/ dns_of w' svc = dns;
  ds_others svc' : svc' <> svc -> dns_of w' svc' = dns_of w svc';
  ds_boot : boot_of w' = boot_of w;
  ds_journal : journal_of w' = journal_of w
}.

Record route_added (r : ownedRoute) (w w' : W) : Prop := {
  ra_routes v : v ∈ routes_of w' -> planned v -> v = r \/ v ∈ routes_of w;
  ra_dns svc : dns_of w' svc = dns_of w svc;
  ra_boot : boot_of w' = boot_of w;
  ra_journal : journal_of w' = journal_of w
}.

Record journalled (j : option networkSnapshot) (w w' : W) : Prop := {
  jd_routes r : r ∈ routes_of w' -> planned r -> r ∈ routes_of w;
  jd_dns svc : dns_of w' svc = dns_of w svc;
  jd_boot : boot_of w' = boot_of w;
  jd_journal : journal_of w' = journal_of w \/ journal_of w' = j
}.
End Quiet.

Class NetworkLaws (W : Type) `{!networkSystem W} `{!journal W} (routes_of : W -> list ownedRoute) (dns_of : W -> string -> list string)
    (boot_of : W -> string) (journal_of : W -> option networkSnapshot) : Prop := {
  law_boot w : quiet routes_of dns_of boot_of journal_of w (BootSession w).2 /\ answers (BootSession w).1 (eq (boot_of (BootSession w).2));
  law_discover w : quiet routes_of dns_of boot_of journal_of w (Discover w).2 /\
    answers (Discover w).1 (fun b => bl_DNS b = dns_of (Discover w).2 (bl_Service b));
  law_tun w : quiet routes_of dns_of boot_of journal_of w (TUN w).2;
  law_routes w : quiet routes_of dns_of boot_of journal_of w (Routes w).2 /\
    answers (Routes w).1 (fun l => forall r, r ∈ l <-> r ∈ routes_of (Routes w).2);
  law_dns svc w : quiet routes_of dns_of boot_of journal_of w (DNS svc w).2 /\ answers (DNS svc w).1 (eq (dns_of (DNS svc w).2 svc));
  law_set_dns svc dns w : dns_set routes_of dns_of boot_of journal_of svc dns w (SetDNS svc dns w).2 /\
    answers (SetDNS svc dns w).1 (fun _ => dns_of (SetDNS svc dns w).2 svc = dns);
  law_add r w : route_added routes_of dns_of boot_of journal_of r w (AddRoute r w).2;
  law_delete r w : quiet routes_of dns_of boot_of journal_of w (DeleteRoute r w).2 /\
    answers (DeleteRoute r w).1 (fun _ => forall v, v ∈ routes_of (DeleteRoute r w).2 -> or_Destination v <> or_Destination r);
  law_load w : quiet routes_of dns_of boot_of journal_of w (Load w).2 /\ answers (Load w).1 (eq (journal_of (Load w).2));
  law_save s w : journalled routes_of dns_of boot_of journal_of (Some s) w (Save s w).2 /\
    answers (Save s w).1 (fun _ => journal_of (Save s w).2 = Some s /\ NoDup (map or_Destination (ns_Routes s)));
  law_remove w : journalled routes_of dns_of boot_of journal_of None w (Remove w).2 /\
    answers (Remove w).1 (fun _ => journal_of (Remove w).2 = None)
}.

Section Spec.
Context {W : Type} `{!networkSystem W} `{!journal W} (fingerprint : baseline -> string).
Context (routes_of : W -> list ownedRoute) (dns_of : W -> string -> list string) (boot_of : W -> string) (journal_of : W -> option networkSnapshot).
Context `{!NetworkLaws W routes_of dns_of boot_of journal_of}.
(** The resolvers of the services before the tunnel. *)
Context (dns0 : string -> list string).

#[local] Abbreviation quiet := (quiet routes_of dns_of boot_of journal_of).

(** ** Recoverable worlds *)
Definition clean (w : W) : Prop := (forall r, r ∈ routes_of w -> ~ planned r) /\ forall svc, dns_of w svc = dns0 svc.

(** What the snapshot knows suffices to undo what is there. *)
Record covered (s : networkSnapshot) (w : W) : Prop := {
  cv_planned r : r ∈ ns_Routes s -> planned r;
  cv_routes v : v ∈ routes_of w -> planned v -> v ∈ ns_Routes s /\ (forall r, r ∈ ns_Routes s -> or_Destination r = or_Destination v -> r = v) /\
    ns_BootSession s = boot_of w;
  cv_baseline : bl_DNS (ns_Baseline s) = dns0 (bl_Service (ns_Baseline s));
  cv_others svc : svc <> bl_Service (ns_Baseline s) -> dns_of w svc = dns0 svc;
  cv_dns : dns_of w (bl_Service (ns_Baseline s)) = dns0 (bl_Service (ns_Baseline s)) \/
    (ns_DNSIntended s = true /\ dns_of w (bl_Service (ns_Baseline s)) = [TUNDNS])
}.

Definition recoverable (w : W) : Prop := match journal_of w with None => clean w | Some s => covered s w end.

Lemma quiet_refl w : quiet w w.
Proof. by split. Qed.

Lemma quiet_trans w1 w2 w3 : quiet w1 w2 -> quiet w2 w3 -> quiet w1 w3.
Proof. intros [] []. split; [auto|congruence..]. Qed.

#[local] Instance quiet_order : PreOrder quiet.
Proof. split; [exact quiet_refl|exact quiet_trans]. Qed.

#[local] Abbreviation reads := (reads (X := Manager) quiet).
#[local] Abbreviation M := (Trail.M Manager W).

Lemma clean_quiet w w' : quiet w w' -> clean w -> clean w'.
Proof. intros [] [Hr Hd]. split; [|congruence]. intros r Hin Hp. by apply (Hr r); auto. Qed.

Lemma covered_quiet s w w' : quiet w w' -> covered s w -> covered s w'.
Proof.
  intros [Hr Hd Hb Hj] []. split; rewrite ?Hd, ?Hb; try done; [|intros svc; rewrite Hd; auto].
  intros v Hin Hp. by apply cv_routes0; [apply Hr|].
Qed.

Lemma recoverable_quiet w w' : quiet w w' -> recoverable w -> recoverable w'.
Proof.
  intros Hq. unfold recoverable. rewrite (q_journal _ _ _ _ _ _ Hq). destruct (journal_of w); [by apply covered_quiet|by apply clean_quiet].
Qed.

Definition activated (a : option networkSnapshot) (s : St Manager W) : St Manager W := mkSt (mkManager (nm_prepared (mgr s)) (nm_generation (mgr s)) a) (world s) (trail s).

Lemma twp_set_active C a (Q : unit -> St Manager W -> Prop) s : Q tt (activated a s) -> twp C (set_active a) Q s.
Proof. intros HQ. split; [done|]. by exists []. Qed.

(** The world is recoverable and the active snapshot covers it. *)
Definition Inv (s : St Manager W) : Prop := recoverable (world s) /\ forall a, nm_active (mgr s) = Some a -> covered a (world s).

Lemma twp_reads {A} (Pre : W -> Prop) (m : M A) Post (Q : A -> St Manager W -> Prop) s : reads Pre m Post -> Pre (world s) -> recoverable (world s) ->
  (forall x s', Post x (world s') -> quiet (world s) (world s') -> mgr s' = mgr s -> Q x s') -> twp recoverable m Q s.
Proof. intros Hm Hs Hr HQ. eapply twp_of_reads; eauto using recoverable_quiet. Qed.

Lemma Inv_quiet s s' : quiet (world s) (world s') -> nm_active (mgr s') = nm_active (mgr s) -> Inv s -> Inv s'.
Proof. intros Hq Hm [Hr Ha]. split; [by eapply recoverable_quiet|]. rewrite Hm. intros a Ea. eapply covered_quiet; eauto. Qed.

(** ** What the reads establish *)
Definition unplanned (w : W) : Prop := forall r, r ∈ routes_of w -> ~ planned r.

Definition observed (b : baseline) (w : W) : Prop := bl_DNS b = dns_of w (bl_Service b).

Lemma unplanned_quiet w w' : quiet w w' -> unplanned w -> unplanned w'.
Proof. intros [] H r Hin Hp. by apply (H r); auto. Qed.

Lemma observed_quiet b w w' : quiet w w' -> observed b w -> observed b w'.
Proof. intros [_ Hd _ _]. unfold observed. by rewrite Hd. Qed.

Lemma route_conflict_none routes : route_conflict routes = None -> forall r, r ∈ routes -> ~ planned r.
Proof.
  induction routes as [|v routes IH]; cbn; [by intros _ r ?%not_elem_of_nil|]. unfold planned.
  destruct (plannedDestination (or_Destination v)) eqn:E; [done|]. case_match; [done|]. intros Hn r [-> | Hin]%elem_of_cons; [by rewrite E|by apply IH].
Qed.

Lemma preflight_reads : reads (fun _ => True) preflight (fun r w => answers r (fun b => unplanned w /\ observed b w)).
Proof.
  unfold preflight. apply (reads_try _ _ _ observed).
  { apply reads_sys. intros w _. apply law_discover. }
  intros b. repeat case_match; [apply reads_fail|]. apply (reads_try _ _ _ (fun _ => observed b)).
  { apply reads_sys. intros w Hb. pose proof (law_tun w) as Hq. split; [done|]. destruct (TUN w).1; [|done]. by eapply observed_quiet. }
  intros tun. case_match; [apply reads_fail|]. apply (reads_try _ _ _ (fun l w => observed b w /\ forall r, r ∈ l <-> r ∈ routes_of w)).
  { apply reads_sys. intros w Hb. destruct (law_routes w) as [Hq Hl]. split; [done|]. destruct (Routes w).1; [|done]. split; [by eapply observed_quiet|done]. }
  intros routes. destruct (route_conflict routes) eqn:E; [apply reads_fail|]. apply reads_ok. intros w [Hb Hr]. split; [|done].
  intros r Hin. apply (route_conflict_none _ E), Hr, Hin.
Qed.

(** ** Operations that only prepare *)
Definition keeps_inv {A} (m : M A) : Prop := forall s, Inv s -> twp recoverable m (fun _ s' => Inv s') s.

Lemma load_reads : reads (fun _ => True) (sys Load) (fun r w => answers r (eq (journal_of w))).
Proof. apply reads_sys. intros w _. apply law_load. Qed.

Lemma Prepare_ok : keeps_inv (Prepare fingerprint).
Proof.
  intros s Hi. unfold Prepare. apply twp_try. eapply twp_reads; [apply load_reads|done|apply Hi|]. intros [j|e] s1 _ Hq1 Hm1; [|by eapply Inv_quiet; [..|exact Hi]; rewrite ?Hm1].
  assert (Hi1 : Inv s1) by (by eapply Inv_quiet; [..|exact Hi]; rewrite ?Hm1). clear Hq1 Hm1 Hi.
  apply twp_bind, twp_gets. case_match; [by apply twp_ret|]. apply twp_try. eapply twp_reads; [apply preflight_reads|done|apply Hi1|].
  intros [b|e] s2 _ Hq2 Hm2; (assert (Hi2 : Inv s2) by (by eapply Inv_quiet; [..|exact Hi1]; rewrite ?Hm2)); [|done].
  apply twp_bind. split; [|by exists []]. cbn [fst snd puts]. apply twp_bind, twp_gets, twp_ret. exact Hi2.
Qed.

(** A snapshot of what was just observed covers it. *)
Lemma fresh_covered b boot w : clean w -> observed b w -> covered (mkSnapshot 1 boot b no_tun [] false) w.
Proof.
  intros [Hr Hd] Hb. split; cbn; try done.
  - by intros r ?%not_elem_of_nil.
  - intros v Hin Hp. by apply Hr in Hin.
  - by rewrite Hb, Hd.
  - by left.
Qed.

Lemma journalled_covered j t w w' : journalled routes_of dns_of boot_of journal_of j w w' -> covered t w -> covered t w'.
Proof.
  intros [H1 H2 H3 H4] []. split; rewrite ?H2, ?H3; try done; [|intros svc; rewrite H2; auto]. intros v Hin Hp. by apply cv_routes0; [apply H1|].
Qed.

Lemma journalled_clean j w w' : journalled routes_of dns_of boot_of journal_of j w w' -> clean w -> clean w'.
Proof. intros [H1 H2 H3 H4] [Hr Hd]. split; [|intros; rewrite H2; auto]. intros r Hin Hp. by apply (Hr r); auto. Qed.

(** [Save] of a snapshot that covers the world. *)
Lemma save_ok a w : covered a w -> recoverable w -> recoverable (Save a w).2 /\ (forall t, covered t w -> covered t (Save a w).2) /\
  answers (Save a w).1 (fun _ => journal_of (Save a w).2 = Some a /\ NoDup (map or_Destination (ns_Routes a))).
Proof.
  intros Ha Hr. destruct (law_save a w) as [Hj Hans]. pose proof (fun t => journalled_covered (Some a) t w (Save a w).2 Hj) as Hc.
  split; [|split; [by apply Hc|done]]. unfold recoverable in *. destruct (jd_journal _ _ _ _ _ _ _ Hj) as [-> | ->]; [|by apply Hc].
  destruct (journal_of w) as [t|]; [by apply Hc|]. by eapply journalled_clean.
Qed.

Lemma Capture_ok p : keeps_inv (Capture fingerprint p).
Proof.
  intros s Hi. unfold Capture. apply twp_bind, twp_gets. case_match; [by apply twp_ret|]. apply twp_try.
  eapply twp_reads; [apply load_reads|done|apply Hi|]. intros [j|e] s1 Hj Hq1 Hm1; (assert (Hi1 : Inv s1) by (by eapply Inv_quiet; [..|exact Hi]; rewrite ?Hm1)); [|done].
  cbn in Hj. destruct j as [j|]; [by apply twp_ret|]. change (bool_decide (is_Some (None : option networkSnapshot))) with false. cbn match. clear Hq1 Hm1 Hi.
  assert (Hclean : clean (world s1)) by (destruct Hi1 as [Hr _]; unfold recoverable in Hr; by rewrite Hj in Hr).
  apply twp_try. eapply twp_reads; [apply preflight_reads|done|apply Hi1|].
  intros [b|e] s2 Hb Hq2 Hm2; (assert (Hi2 : Inv s2) by (by eapply Inv_quiet; [..|exact Hi1]; rewrite ?Hm2)); [|done]. cbn in Hb. destruct Hb as [_ Hb].
  apply (clean_quiet _ _ Hq2) in Hclean. case_match; [by apply twp_ret|]. apply twp_try.
  eapply (twp_reads (fun w => clean w /\ observed b w) (sys BootSession) (fun _ w => clean w /\ observed b w)); [|done|apply Hi2|].
  { apply reads_sys. intros w [Hc Ho]. destruct (law_boot w) as [Hq _]. split; [done|]. split; [by eapply clean_quiet|by eapply observed_quiet]. }
  intros [boot|e] s3 [Hc3 Ho3] Hq3 Hm3; (assert (Hi3 : Inv s3) by (by eapply Inv_quiet; [..|exact Hi2]; rewrite ?Hm3)); [|done].
  case_match; [by apply twp_ret|]. pose proof (fresh_covered b boot _ Hc3 Ho3) as Hf. destruct (save_ok _ _ Hf (proj1 Hi3)) as (Hr & Ha & _).
  apply twp_try, twp_sys; [done|]. case_match; [|by split; [|intros a Ea; apply Ha, Hi3]].
  apply twp_bind, twp_set_active, twp_ret. split; [done|]. intros ? [= <-]. by apply Ha.
Qed.

(** ** The tunnel *)
Lemma with_tun_covered t a w : covered a w -> covered (with_tun t a) w.
Proof. intros []. by split. Qed.

Lemma save_inv a s (Q : unit + string -> St Manager W -> Prop) : Inv s -> covered a (world s) ->
  (forall s', Inv s' -> mgr s' = mgr s -> covered a (world s') -> journal_of (world s') = Some a -> NoDup (map or_Destination (ns_Routes a)) ->
    boot_of (world s') = boot_of (world s) -> (forall v, v ∈ routes_of (world s') -> planned v -> v ∈ routes_of (world s)) -> Q (inl tt) s') ->
  (forall e s', Inv s' -> Q (inr e) s') -> twp recoverable (sys (Save a)) Q s.
Proof.
  intros Hi Ha Hok Herr. destruct (save_ok a (world s) Ha (proj1 Hi)) as (Hr & Hc & Hans). destruct (law_save a (world s)) as [[H1 _ H3 _] _].
  assert (Hi' : Inv (mkSt (mgr s) (Save a (world s)).2 ((Save a (world s)).2 :: trail s))) by (split; [done|]; intros b Eb; by apply Hc, Hi).
  apply twp_sys; [done|]. destruct (Save a (world s)).1 as [[]|e]; [|by apply Herr]. destruct Hans as [Hj Hn]. apply Hok; try done. by apply Hc.
Qed.

Lemma poll_tun_ok : keeps_inv poll_tun.
Proof.
  intros s Hi. unfold poll_tun. apply twp_bind, twp_gets. destruct (nm_active (mgr s)) as [a|] eqn:Ea; [|by apply twp_ret].
  apply twp_bind. eapply (twp_reads (fun _ => True) (sys TUN) (fun _ _ => True)); [|done|apply Hi|].
  { apply reads_sys. intros w _. split; [apply law_tun|done]. }
  intros [t|e] s1 _ Hq1 Hm1; (assert (Hi1 : Inv s1) by (by eapply Inv_quiet; [..|exact Hi]; rewrite ?Hm1)); [|by apply twp_ret].
  case_match; [|by apply twp_ret]. apply twp_bind. apply save_inv; [done| | |].
  - apply with_tun_covered, Hi1. by rewrite Hm1.
  - intros s2 Hi2 _ Hc _ _ _ _. apply twp_bind, twp_set_active, twp_ret. split; [apply Hi2|]. by intros ? [= <-].
  - intros e s2 Hi2. by apply twp_ret.
Qed.

Lemma WaitTUNReady_ok ticks : keeps_inv (WaitTUNReady ticks).
Proof.
  induction ticks as [|t ticks IH]; intros s Hi; cbn [WaitTUNReady]; apply twp_bind; (eapply twp_mono; [|by apply poll_tun_ok]);
    (intros [r|] s1 Hi1; [by apply twp_ret|]); [by apply twp_ret|]. destruct t; [by apply IH|by apply twp_ret..].
Qed.

(** ** The activation *)

(** The active snapshot is of this boot. *)
Definition acting (a : networkSnapshot) (s : St Manager W) : Prop := Inv s /\ nm_active (mgr s) = Some a /\ ns_BootSession a = boot_of (world s).

Lemma acting_quiet a s s' : quiet (world s) (world s') -> mgr s' = mgr s -> acting a s -> acting a s'.
Proof. intros Hq Hm (Hi & Ha & Hb). split; [eapply Inv_quiet; [..|exact Hi]; by rewrite ?Hm|]. rewrite Hm. split; [done|]. by destruct Hq as [_ _ -> _]. Qed.

Lemma with_route_covered r a w : planned r -> (forall v, v ∈ routes_of w -> or_Destination v <> or_Destination r) -> covered a w -> covered (with_route r a) w.
Proof.
  intros Hp Hn []. split; cbn; try done.
  - intros v [Hv|Hv%list_elem_of_singleton]%elem_of_app; [by apply cv_planned0|by subst].
  - intros v Hin Hv. destruct (cv_routes0 v Hin Hv) as (H1 & H2 & H3). split; [apply elem_of_app; by left|]. split; [|done].
    intros r' [Hr|Hr%list_elem_of_singleton]%elem_of_app E; [by apply H2|]. subst. by destruct (Hn v Hin).
Qed.

Lemma add_covered r a w w' : route_added routes_of dns_of boot_of journal_of r w w' -> r ∈ ns_Routes a -> NoDup (map or_Destination (ns_Routes a)) ->
  ns_BootSession a = boot_of w -> covered a w -> covered a w'.
Proof.
  intros [H1 H2 H3 H4] Hr Hn Hb []. split; rewrite ?H2, ?H3; try done; [|intros svc; rewrite H2; auto].
  intros v Hin Hp. destruct (H1 v Hin Hp) as [-> | Hold]; [|by apply cv_routes0]. split; [done|]. split; [|done].
  intros r' Hr' E. apply list_elem_of_lookup in Hr as [i Hi], Hr' as [k Hk]. assert (i = k); [|congruence].
  apply (NoDup_lookup (map or_Destination (ns_Routes a)) i k (or_Destination r)); [done|..]; rewrite list_lookup_fmap; [by rewrite Hi|rewrite Hk; cbn; by f_equal].
Qed.

Lemma add_inv r a s (Q : unit + string -> St Manager W -> Prop) : acting a s -> journal_of (world s) = Some a -> r ∈ ns_Routes a -> NoDup (map or_Destination (ns_Routes a)) ->
  (forall x s', acting a s' -> Q x s') -> twp recoverable (sys (AddRoute r)) Q s.
Proof.
  intros ([Hi Hc] & Ha & Hb) Hj Hr Hn HQ. pose proof (law_add r (world s)) as Hadd.
  assert (Hc' : covered a (AddRoute r (world s)).2) by (eapply add_covered; eauto).
  assert (Hr' : recoverable (AddRoute r (world s)).2) by (unfold recoverable; by rewrite (ra_journal _ _ _ _ _ _ _ Hadd), Hj).
  apply twp_sys; [done|]. apply HQ. split; [split; [done|]|]; cbn.
  - rewrite Ha. by intros ? [= <-].
  - split; [done|]. by rewrite (ra_boot _ _ _ _ _ _ _ Hadd).
Qed.

(** The rows of a table that was read. *)
Lemma routes_reads : reads (fun _ => True) (sys Routes) (fun r w => answers r (fun l => forall v, v ∈ l <-> v ∈ routes_of w)).
Proof. apply reads_sys. intros w _. apply law_routes. Qed.

Lemma no_row_with rows d : existsb (fun v => or_Destination v =?s d) rows = false -> forall v, v ∈ rows -> or_Destination v <> d.
Proof.
  intros E v Hin%list_elem_of_In Hd. apply not_true_iff_false in E. apply E, existsb_exists. exists v. split; [done|]. by apply String.eqb_eq.
Qed.

Lemma install_routes_ok rs a s (Q : networkSnapshot + string -> St Manager W -> Prop) : acting a s -> Forall planned rs ->
  (forall a' s', acting a' s' -> ns_Baseline a' = ns_Baseline a -> Q (inl a') s') -> (forall e s', Inv s' -> Q (inr e) s') ->
  twp recoverable (install_routes rs a) Q s.
Proof.
  revert a s. induction rs as [|r rs IH]; intros a s Hact Hp Hok Herr; cbn [install_routes]; [apply twp_ret; by apply Hok|].
  apply Forall_cons in Hp as [Hpr Hp]. apply twp_try. eapply twp_reads; [apply routes_reads|done|apply Hact|].
  intros [rows|e] s1 Hrows Hq1 Hm1; (assert (Ha1 : acting a s1) by (by eapply acting_quiet)); [|by apply Herr, Ha1]. cbn in Hrows.
  destruct (existsb _ rows) eqn:E; [by apply twp_ret, Herr, Ha1|]. destruct Ha1 as ([Hr1 Hc1] & Ea1 & Hb1).
  assert (Hnew : covered (with_route r a) (world s1)).
  { apply with_route_covered; [done| |by apply Hc1]. intros v Hin. apply (no_row_with _ _ E), Hrows, Hin. }
  apply twp_bind, twp_set_active, twp_try. apply save_inv; [split; [done|by intros ? [= <-]]|done| |by auto].
  intros s2 Hi2 Hm2 Hc2 Hj2 Hn2 Hb2 _. apply twp_try. apply (add_inv r (with_route r a)); [|done|apply elem_of_app; right; by apply list_elem_of_singleton|done|].
  { split; [done|]. rewrite Hm2, Hb2. by split. }
  intros [x|e] s3 Ha3; [|by apply Herr, Ha3]. apply IH; [done|done| |done]. intros a' s4 H4 E4. apply Hok; [done|]. by rewrite E4.
Qed.

Lemma targets_planned a t : Forall planned (targets a t).
Proof. by repeat constructor. Qed.

Lemma with_dns_intent_covered a w : covered a w -> covered (with_dns_intent a) w.
Proof. intros []. split; try done. destruct cv_dns0 as [H|[_ H]]; [by left|by right]. Qed.

(** The resolvers of the service change to those of the tunnel or back. *)
Lemma dns_set_covered svc dns a w w' : dns_set routes_of dns_of boot_of journal_of svc dns w w' ->
  dns = dns0 svc \/ (ns_DNSIntended a = true /\ dns = [TUNDNS] /\ svc = bl_Service (ns_Baseline a)) -> covered a w -> covered a w'.
Proof.
  intros [H1 H2 H3 H4 H5] Hd []. split; rewrite ?H4; try done.
  - intros v Hin Hp. by apply cv_routes0; [apply H1|].
  - intros svc' Hn. destruct (decide (svc' = svc)) as [->|]; [|rewrite H3; auto]. destruct H2 as [-> | ->]; [auto|]. destruct Hd as [?|(_ & _ & ?)]; congruence.
  - destruct (decide (bl_Service (ns_Baseline a) = svc)) as [<-|]; [|rewrite H3; auto]. destruct H2 as [-> | ->]; [done|].
    destruct Hd as [->|(Hi & -> & _)]; [by left|by right].
Qed.

Lemma Activate_ok s : Inv s -> (forall a, nm_active (mgr s) = Some a -> ns_BootSession a = boot_of (world s)) ->
  twp recoverable ActivateTUNRoutes (fun _ s' => Inv s') s.
Proof.
  intros Hi Hboot. unfold ActivateTUNRoutes. apply twp_bind, twp_gets. destruct (nm_active (mgr s)) as [a|] eqn:Ea; [|by apply twp_ret].
  assert (Hact : acting a s) by (split; [done|]; split; [done|by apply Hboot]). clear Hi Hboot Ea. case_match; [by apply twp_ret; apply Hact|].
  apply twp_try. eapply (twp_reads (fun _ => True) (sys TUN) (fun _ _ => True)); [|done|apply Hact|].
  { apply reads_sys. intros w _. split; [apply law_tun|done]. }
  intros [t|e] s1 _ Hq1 Hm1; (assert (Ha1 : acting a s1) by (by eapply acting_quiet)); [|apply Ha1]. clear Hact. case_match; [apply twp_ret, Ha1|].
  apply twp_try. eapply (twp_reads (fun _ => True) (sys Discover) (fun _ _ => True)); [|done|apply Ha1|].
  { apply reads_sys. intros w _. split; [apply law_discover|done]. }
  intros [b|e] s2 _ Hq2 Hm2; (assert (Ha2 : acting a s2) by (by eapply acting_quiet)); [|apply Ha2]. clear Ha1. case_match; [apply twp_ret, Ha2|].
  apply twp_try. apply install_routes_ok; [done|apply targets_planned| |done]. intros a3 s3 Ha3 _. apply twp_try.
  eapply (twp_reads (fun _ => True) (sys (DNS _)) (fun _ _ => True)); [|done|apply Ha3|].
  { apply reads_sys. intros w _. split; [apply law_dns|done]. }
  intros [dns|e] s4 _ Hq4 Hm4; (assert (Ha4 : acting a3 s4) by (by eapply acting_quiet)); [|apply Ha4]. clear Ha3. case_match; [apply twp_ret, Ha4|].
  destruct Ha4 as ([Hr4 Hc4] & Ea4 & Hb4). pose proof (with_dns_intent_covered _ _ (Hc4 _ Ea4)) as Hc.
  apply twp_bind, twp_set_active, twp_try. apply save_inv; [split; [done|by intros ? [= <-]]|done| |by auto].
  intros s5 [Hr5 Hc5] Hm5 Hcov Hj5 _ _ _. pose proof (law_set_dns (bl_Service (ns_Baseline (with_dns_intent a3))) [TUNDNS] (world s5)) as [Hs _].
  assert (Hcov' : covered (with_dns_intent a3) (SetDNS (bl_Service (ns_Baseline (with_dns_intent a3))) [TUNDNS] (world s5)).2)
    by (eapply dns_set_covered; [exact Hs|by right|done]).
  assert (Hr' : recoverable (SetDNS (bl_Service (ns_Baseline (with_dns_intent a3))) [TUNDNS] (world s5)).2)
    by (unfold recoverable; by rewrite (ds_journal _ _ _ _ _ _ _ _ Hs), Hj5).
  apply twp_sys; [done|]. split; [done|]. cbn. rewrite Hm5. by intros ? [= <-].
Qed.

(** ** The restoration *)
Definition gone (d : string) (w : W) : Prop := forall v, v ∈ routes_of w -> or_Destination v <> d.

Lemma gone_quiet r w w' : planned r -> quiet w w' -> gone (or_Destination r) w -> gone (or_Destination r) w'.
Proof. intros Hp [Hr _ _ _] Hg v Hin E. apply (Hg v); [|done]. apply Hr; [done|]. unfold planned in *. by rewrite E. Qed.

Lemma delete_reads r : reads (fun _ => True) (sys (DeleteRoute r)) (fun x w => answers x (fun _ => gone (or_Destination r) w)).
Proof. apply reads_sys. intros w _. apply law_delete. Qed.

Lemma reads_error (e : string) (P : W -> Prop) : reads (fun _ => True) (mret [e]) (fun errs w => errs = [] -> P w).
Proof. eapply reads_weaken; [apply reads_ret|intros w Hw; exact Hw|]. by intros x w [-> _]. Qed.

(** When nothing fails, no row of the table had the destination, or none has it now. *)
Lemma restore_rows_reads boot session r rows : planned r -> reads (fun _ => True) (restore_rows boot session r rows)
  (fun errs w => errs = [] -> (forall v, v ∈ rows -> or_Destination v <> or_Destination r) \/ gone (or_Destination r) w).
Proof.
  intros Hp. induction rows as [|v rows IH]; cbn [restore_rows].
  { eapply reads_weaken; [apply reads_ret|intros w Hw; exact Hw|]. intros x w _ _. left. by intros v ?%not_elem_of_nil. }
  eapply (reads_bind _ _ _ (fun errs w => errs = [] -> or_Destination v <> or_Destination r \/ gone (or_Destination r) w)).
  { destruct (or_Destination v =?s or_Destination r) eqn:E; cbn [negb].
    - destruct (negb (match boot with inl b => b =?s session | inr _ => false end)); [apply reads_error|].
      destruct (negb (bool_decide (v = r))); [apply reads_error|]. eapply reads_bind; [apply delete_reads|]. intros x. eapply reads_weaken; [apply reads_ret|intros w Hw; exact Hw|].
      intros errs w [-> Hx] He. destruct x; [by right|done].
    - eapply reads_weaken; [apply reads_ret|intros w Hw; exact Hw|]. intros x w _ _. left. by apply String.eqb_neq in E. }
  intros errs. eapply (reads_bind _ _ _ (fun more w => (more = [] -> (forall v, v ∈ rows -> or_Destination v <> or_Destination r) \/ gone (or_Destination r) w) /\
    (errs = [] -> or_Destination v <> or_Destination r \/ gone (or_Destination r) w))).
  { eapply reads_weaken; [eapply (reads_frame _ _ _ (fun w => errs = [] -> or_Destination v <> or_Destination r \/ gone (or_Destination r) w)); [|exact IH]| |].
    - intros w w' Hq Hf He. destruct (Hf He) as [?|Hg]; [by left|right]. by eapply gone_quiet.
    - done.
    - done. }
  intros more. eapply reads_weaken; [apply reads_ret|intros w Hw; exact Hw|]. intros x w [-> [H1 H2]] [He Hm]%app_eq_nil.
  destruct (H1 Hm) as [Hn|Hg]; [|by right]. destruct (H2 He) as [Hv|Hg]; [|by right]. left. intros u [-> | Hu]%elem_of_cons; auto.
Qed.

Lemma all_gone_quiet rs w w' : Forall planned rs -> quiet w w' -> Forall (fun r => gone (or_Destination r) w) rs -> Forall (fun r => gone (or_Destination r) w') rs.
Proof.
  intros Hp Hq Hg. rewrite Forall_forall in *. intros r Hr. eapply gone_quiet; eauto.
Qed.

Lemma restore_routes_reads boot session rs : Forall planned rs -> reads (fun _ => True) (restore_routes boot session rs)
  (fun errs w => errs = [] -> Forall (fun r => gone (or_Destination r) w) rs).
Proof.
  induction 1 as [|r rs Hp Hall IH]; cbn [restore_routes].
  { eapply reads_weaken; [apply reads_ret|intros w Hw; exact Hw|]. by intros x w _ _. }
  eapply reads_bind; [apply routes_reads|]. intros routes.
  eapply (reads_bind _ _ _ (fun errs w => errs = [] -> gone (or_Destination r) w)).
  { destruct routes as [rows|e]; [|eapply reads_weaken; [apply (reads_error e (fun w => gone (or_Destination r) w))|done|done]].
    set (F := fun w => (forall v, v ∈ rows -> or_Destination v <> or_Destination r) -> gone (or_Destination r) w).
    eapply reads_weaken; [eapply (reads_frame (fun _ => True) _ _ F); [|by apply restore_rows_reads]| |].
    - intros w w' Hq Hf Hn. eapply gone_quiet; [done|exact Hq|]. by apply Hf.
    - intros w Hw. split; [done|]. intros Hn v Hv. by apply Hn, Hw.
    - intros errs w [Hx Hf] He. destruct (Hx He); [by apply Hf|done]. }
  intros errs. set (F := fun w => errs = [] -> gone (or_Destination r) w).
  eapply reads_bind; [eapply reads_weaken; [eapply (reads_frame (fun _ => True) _ _ F); [|exact IH]|by intros w Hw|intros x w Hw; exact Hw]|].
  { intros w w' Hq Hf He. eapply gone_quiet; [done|exact Hq|]. by apply Hf. }
  intros more. eapply reads_weaken; [apply reads_ret|intros w Hw; exact Hw|]. intros x w [-> [H1 H2]] [He Hm]%app_eq_nil. constructor; auto.
Qed.

Definition dns_back (w : W) : Prop := forall svc, dns_of w svc = dns0 svc.

Lemma dns_back_quiet w w' : quiet w w' -> dns_back w -> dns_back w'.
Proof. intros [_ Hd _ _] H svc. by rewrite Hd. Qed.

Lemma covered_dns_back a w : covered a w -> dns_of w (bl_Service (ns_Baseline a)) = bl_DNS (ns_Baseline a) -> dns_back w.
Proof. intros [] E svc. destruct (decide (svc = bl_Service (ns_Baseline a))) as [->|]; [congruence|auto]. Qed.

(** Resolvers are set back only when they are those of the tunnel. *)
Lemma restore_dns_ok a s (Q : list string -> St Manager W -> Prop) : Inv s -> nm_active (mgr s) = Some a ->
  (forall errs s', Inv s' -> mgr s' = mgr s -> (errs = [] -> dns_back (world s')) -> Q errs s') -> twp recoverable (restore_dns a) Q s.
Proof.
  intros Hi Ea HQ. unfold restore_dns. pose proof (proj2 Hi _ Ea) as Hc. destruct (ns_DNSIntended a) eqn:Ei; cbn [negb].
  2: { apply twp_ret, HQ; [done|done|]. intros _. apply (covered_dns_back _ _ Hc). rewrite (cv_baseline _ _ Hc). destruct (cv_dns _ _ Hc) as [->|[? _]]; congruence. }
  apply twp_bind. eapply (twp_reads (fun _ => True) (sys (DNS _)) (fun r w => answers r (eq (dns_of w (bl_Service (ns_Baseline a)))))); [|done|apply Hi|].
  { apply reads_sys. intros w _. apply law_dns. }
  intros [dns|e] s1 Hd Hq1 Hm1; (assert (Hi1 : Inv s1) by (by eapply Inv_quiet; [..|exact Hi]; rewrite ?Hm1)); [|by apply twp_ret, HQ].
  cbn in Hd. assert (Hc1 : covered a (world s1)) by (by eapply covered_quiet). unfold sameDNS.
  case_bool_decide as E; [apply twp_ret, HQ; [done..|]; intros _; apply (covered_dns_back _ _ Hc1); congruence|].
  case_bool_decide as E2; [|by apply twp_ret, HQ]. apply twp_bind. rewrite (cv_baseline _ _ Hc1).
  pose proof (law_set_dns (bl_Service (ns_Baseline a)) (dns0 (bl_Service (ns_Baseline a))) (world s1)) as [Hs Hans].
  assert (Hall : forall t, covered t (world s1) -> covered t (SetDNS (bl_Service (ns_Baseline a)) (dns0 (bl_Service (ns_Baseline a))) (world s1)).2)
    by (intros t; eapply dns_set_covered; [exact Hs|by left]).
  assert (Hr : recoverable (SetDNS (bl_Service (ns_Baseline a)) (dns0 (bl_Service (ns_Baseline a))) (world s1)).2).
  { destruct Hi1 as [Hr1 _]. unfold recoverable in *. rewrite (ds_journal _ _ _ _ _ _ _ _ Hs). destruct (journal_of (world s1)); [by apply Hall|].
    destruct Hr1 as [Hr1 Hd1]. split; [intros r Hin Hp; apply (Hr1 r); [by eapply ds_routes|done]|].
    intros svc. destruct (decide (svc = bl_Service (ns_Baseline a))) as [->|]; [destruct (ds_dns _ _ _ _ _ _ _ _ Hs) as [-> | ->]; auto|].
    rewrite (ds_others _ _ _ _ _ _ _ _ Hs); auto. }
  apply twp_sys; [done|]. apply twp_ret, HQ; [split; [done|]; cbn; intros t Et; by apply Hall, Hi1|done|].
  destruct (SetDNS _ _ (world s1)).1; [|done]. intros _. cbn in Hans. apply (covered_dns_back _ _ (Hall _ Hc1)). by rewrite Hans, (cv_baseline _ _ Hc1).
Qed.

(** What a restoration that reports no error leaves. *)
Definition restored (s : St Manager W) : Prop := clean (world s) /\ journal_of (world s) = None /\ nm_active (mgr s) = None.

Lemma restore_snapshot_ok a s : Inv (activated (Some a) s) -> twp recoverable (restore_snapshot a) (fun errs s' => Inv s' /\ (errs = [] -> restored s')) s.
Proof.
  intros Hi. unfold restore_snapshot. apply twp_bind, twp_set_active, twp_bind, restore_dns_ok; [done|done|]. intros dns_errs s1 Hi1 Hm1 Hd1.
  assert (Ea1 : nm_active (mgr s1) = Some a) by (by rewrite Hm1). clear Hm1 Hi s. apply twp_bind.
  eapply (twp_reads (fun _ => True) (sys BootSession) (fun _ _ => True)); [|done|apply Hi1|].
  { apply reads_sys. intros w _. split; [apply law_boot|done]. }
  intros boot s2 _ Hq2 Hm2. assert (Hi2 : Inv s2) by (by eapply Inv_quiet; [..|exact Hi1]; rewrite ?Hm2).
  assert (Hp : Forall planned (rev (ns_Routes a))).
  { apply Forall_forall. intros r Hr%list_elem_of_In%in_rev%list_elem_of_In. by apply (cv_planned _ _ (proj2 Hi1 _ Ea1)). }
  apply twp_bind. eapply twp_reads; [by apply restore_routes_reads|done|apply Hi2|]. intros route_errs s3 Hg Hq3 Hm3.
  assert (Hi3 : Inv s3) by (by eapply Inv_quiet; [..|exact Hi2]; rewrite ?Hm3).
  destruct (dns_errs ++ route_errs) as [|e es] eqn:E; [|by apply twp_ret]. apply app_eq_nil in E as [Ed Er]. specialize (Hg Er).
  assert (Hc3 : covered a (world s3)) by (apply Hi3; by rewrite Hm3, Hm2).
  assert (Hclean : clean (world s3)).
  { split; [|eapply dns_back_quiet; [exact Hq3|]; eapply dns_back_quiet; [exact Hq2|by apply Hd1]].
    intros v Hin Hv. destruct (cv_routes _ _ Hc3 v Hin Hv) as [Hr _]. rewrite Forall_forall in Hg.
    refine (Hg v _ v Hin eq_refl). by apply list_elem_of_In, in_rev; rewrite rev_involutive; apply list_elem_of_In. }
  pose proof (law_remove (world s3)) as [Hj Hans]. apply twp_bind.
  assert (Hr4 : recoverable (Remove (world s3)).2).
  { unfold recoverable. destruct (jd_journal _ _ _ _ _ _ _ Hj) as [-> | ->]; [|by eapply journalled_clean].
    destruct Hi3 as [Hr3 _]. unfold recoverable in Hr3. destruct (journal_of (world s3)); [by eapply journalled_covered|by eapply journalled_clean]. }
  apply twp_sys; [done|]. destruct (Remove (world s3)).1.
  - apply twp_bind, twp_set_active, twp_ret. split; [by split|]. intros _. split; [by eapply journalled_clean|done].
  - apply twp_ret. split; [|done]. split; [done|]. cbn. intros t Et. eapply journalled_covered; [exact Hj|by apply Hi3].
Qed.

Lemma restore_ok s : Inv s -> twp recoverable restore (fun errs s' => Inv s' /\ (errs = [] -> restored s')) s.
Proof.
  intros Hi. unfold restore. apply twp_bind, twp_gets. destruct (nm_active (mgr s)) as [a|] eqn:Ea.
  { apply restore_snapshot_ok. destruct Hi as [Hr Hc]. split; [done|]. intros ? [= <-]. by apply Hc. }
  apply twp_bind. eapply twp_reads; [apply load_reads|done|apply Hi|]. intros [[a|]|e] s1 Hj Hq Hm; (assert (Hi1 : Inv s1) by (by eapply Inv_quiet; [..|exact Hi]; rewrite ?Hm)).
  - apply restore_snapshot_ok. destruct Hi1 as [Hr _]. split; [done|]. intros ? [= <-]. cbn in Hj. unfold recoverable in Hr. by rewrite Hj in Hr.
  - apply twp_ret. split; [done|]. intros _. cbn in Hj. destruct Hi1 as [Hr _]. unfold recoverable in Hr. rewrite Hj in Hr. split; [done|]. split; [done|]. by rewrite Hm.
  - by apply twp_ret.
Qed.

(** ** Lives of the service *)
Inductive Op := OpPrepare | OpCapture (p : PreparedNetwork) | OpEnable (ctx_err : option string) | OpWait (ticks : list Tick) | OpActivate | OpRestore | OpReconcile
  | OpStartMonitor (p : PreparedNetwork) | OpCheck (s : networkSnapshot).

Definition run_op (op : Op) : M unit :=
  match op with
  | OpPrepare => Prepare fingerprint ≫= fun _ => mret tt
  | OpCapture p => Capture fingerprint p ≫= fun _ => mret tt
  | OpEnable e => EnableProtection e ≫= fun _ => mret tt
  | OpWait ticks => WaitTUNReady ticks ≫= fun _ => mret tt
  | OpActivate => ActivateTUNRoutes ≫= fun _ => mret tt
  | OpRestore => Restore ≫= fun _ => mret tt
  | OpReconcile => Reconcile ≫= fun _ => mret tt
  | OpStartMonitor p => StartMonitor p ≫= fun _ => mret tt
  | OpCheck s => monitor_check s ≫= fun _ => mret tt
  end.

(** The controller activates what it captured since the machine started. *)
Definition allowed (op : Op) (s : St Manager W) : Prop :=
  match op with OpActivate => forall a, nm_active (mgr s) = Some a -> ns_BootSession a = boot_of (world s) | _ => True end.

(** A restart of the machine takes the routes away; the journal and the resolvers stay. *)
Record reboots (w w' : W) : Prop := {
  rb_routes r : r ∈ routes_of w' -> ~ planned r;
  rb_dns svc : dns_of w' svc = dns_of w svc;
  rb_journal : journal_of w' = journal_of w
}.

(** Operations in any order, the process killed in any world on the way and started again,
    the machine restarted, the world moving on. *)
Inductive life : St Manager W -> Prop :=
| life_begin w : clean w -> journal_of w = None -> life (mkSt newNetworkManager w [])
| life_op op s : life s -> allowed op s -> life (run_op op s).2
| life_killed w s : life s -> w ∈ trail s -> life (mkSt newNetworkManager w [])
| life_rebooted w w' s : life s -> w ∈ trail s \/ w = world s -> reboots w w' -> life (mkSt newNetworkManager w' [])
| life_moves w' s : life s -> quiet (world s) w' -> life (mkSt (mgr s) w' (w' :: trail s)).

Lemma keeps_unit {A} (m : M A) s : twp recoverable m (fun _ s' => Inv s') s -> twp recoverable (m ≫= fun _ => mret tt) (fun _ s' => Inv s') s.
Proof. intros Hm. apply twp_bind. eapply twp_mono; [|exact Hm]. intros x s' Hi. by apply twp_ret. Qed.

Lemma reads_keeps {A} (m : M A) Post : reads (fun _ => True) m Post -> keeps_inv m.
Proof. intros Hm s Hi. eapply twp_reads; [exact Hm|done|apply Hi|]. intros x s' _ Hq Hg. by eapply Inv_quiet; [..|exact Hi]; rewrite ?Hg. Qed.

Lemma check_reads a : reads (fun _ => True) (monitor_check a) (fun r w => answers r (fun _ => True)).
Proof.
  unfold monitor_check. apply (reads_try _ _ _ (fun _ _ => True)).
  { apply reads_sys. intros w _. split; [apply law_discover|by destruct (Discover w).1]. }
  intros b. case_match; [apply reads_fail|]. apply (reads_try _ _ _ (fun _ _ => True)).
  { apply reads_sys. intros w _. split; [apply law_tun|by destruct (TUN w).1]. }
  intros t. case_match; [apply reads_fail|]. apply (reads_try _ _ _ (fun _ _ => True)).
  { apply reads_sys. intros w _. split; [apply law_dns|by destruct (DNS _ w).1]. }
  intros dns. case_match; [apply reads_fail|by apply reads_ok].
Qed.

Lemma run_op_ok op s : Inv s -> allowed op s -> twp recoverable (run_op op) (fun _ s' => Inv s') s.
Proof.
  intros Hi Ha. destruct op; cbn [run_op]; apply keeps_unit.
  - by apply Prepare_ok.
  - by apply Capture_ok.
  - unfold EnableProtection. destruct ctx_err; [by apply twp_ret|]. apply twp_bind, twp_gets. case_match; by apply twp_ret.
  - by apply WaitTUNReady_ok.
  - by apply Activate_ok.
  - eapply twp_mono; [|by apply restore_ok]. by intros errs s' [? _].
  - eapply twp_mono; [|by apply restore_ok]. by intros errs s' [? _].
  - unfold StartMonitor. apply twp_bind, twp_gets. repeat case_match; by apply twp_ret.
  - by apply (reads_keeps _ _ (check_reads s0)).
Qed.

Lemma life_ok s : life s -> Inv s /\ Forall recoverable (trail s).
Proof.
  induction 1 as [w Hc Hj|op s Hl [Hi Ht] Ha|w s Hl [Hi Ht] Hw|w w' s Hl [Hi Ht] Hw Hb|w' s Hl [Hi Ht] Hq].
  - split; [|done]. split; [|done]. unfold recoverable. cbn. by rewrite Hj.
  - destruct (run_op_ok op s Hi Ha) as [Hi' (l & -> & Hall)]. split; [done|]. by apply Forall_app.
  - split; [|done]. split; [|done]. cbn. by eapply Forall_forall in Hw.
  - split; [|done]. split; [|done]. assert (Hr : recoverable w) by (destruct Hw as [Hw| ->]; [by eapply Forall_forall in Hw|apply Hi]).
    cbn. destruct Hb as [H1 H2 H3]. unfold recoverable in *. rewrite H3. destruct (journal_of w) as [a|].
    + destruct Hr. split; rewrite ?H2; try done; [|intros svc; rewrite H2; auto]. intros v Hin Hv. by apply H1 in Hin.
    + destruct Hr as [Hr Hd]. split; [done|]. intros svc. by rewrite H2.
  - assert (Hi' : Inv (mkSt (mgr s) w' (w' :: trail s))) by (by eapply Inv_quiet; [..|exact Hi]). split; [done|]. constructor; [apply Hi'|done].
Qed.
End Spec.
