(* ===== verification/DarwinProps.v ===== *)
(** * Properties of the macOS network

    A service that is killed anywhere recovers: the next one restores the network that was
    found, or reports what it could not do and leaves enough to try again. *)
From S2P Require Import Prelude Trail DarwinNetwork DarwinSpec.
From stdpp Require Import list.

#[local] Open Scope string_scope.
#[local] Open Scope Z_scope.
#[local] Open Scope list_scope.

(** Calls of the restoration that do not fail. *)
Record reliable (W : Type) `{!networkSystem W} `{!journal W} : Prop := {
  rl_load w : exists x, (Load w).1 = inl x;
  rl_boot w : exists x, (BootSession w).1 = inl x;
  rl_routes w : exists x, (Routes w).1 = inl x;
  rl_dns svc w : exists x, (DNS svc w).1 = inl x;
  rl_set_dns svc dns w : exists x, (SetDNS svc dns w).1 = inl x;
  rl_delete r w : exists x, (DeleteRoute r w).1 = inl x;
  rl_remove w : exists x, (Remove w).1 = inl x
}.

Section Props.
Context {W : Type} `{!networkSystem W} `{!journal W} (fingerprint : baseline -> string).
Context (routes_of : W -> list ownedRoute) (dns_of : W -> string -> list string) (boot_of : W -> string) (journal_of : W -> option networkSnapshot).
Context `{!NetworkLaws W routes_of dns_of boot_of journal_of} (dns0 : string -> list string).

#[local] Abbreviation quiet := (quiet routes_of dns_of boot_of journal_of).
#[local] Abbreviation covered := (covered routes_of dns_of boot_of dns0).
#[local] Abbreviation recoverable := (recoverable routes_of dns_of boot_of journal_of dns0).
#[local] Abbreviation Inv := (Inv routes_of dns_of boot_of journal_of dns0).
#[local] Abbreviation clean := (clean routes_of dns_of dns0).
#[local] Abbreviation life := (life fingerprint routes_of dns_of boot_of journal_of dns0).

(** ** A restoration whose calls work *)
Section Reliable.
Context (Hrel : reliable W).

Lemma restore_rows_works session r rows s : (forall v, v ∈ rows -> or_Destination v = or_Destination r -> v = r) ->
  (restore_rows (inl session) session r rows s).1 = [].
Proof.
  revert s. induction rows as [|v rows IH]; intros s Hv; [done|]. cbn [restore_rows]. unfold mbind, StateM_bind.
  destruct (or_Destination v =?s or_Destination r) eqn:E; cbn [negb mret StateM_ret].
  - apply String.eqb_eq in E. rewrite String.eqb_refl. cbn [negb]. rewrite bool_decide_eq_true_2 by (apply Hv; [apply elem_of_cons; by left|done]). cbn [negb].
    unfold sys. destruct (rl_delete _ Hrel r (world s)) as [x Hx]. destruct (DeleteRoute r (world s)) as [y w]. cbn [fst] in Hx. subst y. cbn.
    match goal with |- context [restore_rows _ _ _ _ ?st] => specialize (IH st) end.
    destruct (restore_rows _ _ _ _ _) as [more s2]. cbn in *. apply IH. intros u Hu. apply Hv. apply elem_of_cons. by right.
  - specialize (IH s). destruct (restore_rows _ _ _ _ _) as [more s2]. cbn in *. apply IH. intros u Hu. apply Hv. apply elem_of_cons. by right.
Qed.

(** Without rows that matter the boot session does not matter. *)
Lemma restore_rows_skips boot session r rows s : (forall v, v ∈ rows -> or_Destination v <> or_Destination r) -> (restore_rows boot session r rows s).1 = [].
Proof.
  revert s. induction rows as [|v rows IH]; intros s Hv; [done|]. cbn [restore_rows]. unfold mbind, StateM_bind.
  rewrite (proj2 (String.eqb_neq _ _)) by (apply Hv, elem_of_cons; by left). cbn [negb mret StateM_ret].
  specialize (IH s). destruct (restore_rows _ _ _ _ _) as [more s2]. cbn in *. apply IH. intros u Hu. apply Hv, elem_of_cons. by right.
Qed.

Lemma restore_routes_works a rs s : covered a (world s) -> (forall r, r ∈ rs -> r ∈ ns_Routes a) ->
  (restore_routes (inl (boot_of (world s))) (ns_BootSession a) rs s).1 = [].
Proof.
  remember (boot_of (world s)) as boot eqn:Eb. revert s Eb. induction rs as [|r rs IH]; intros s Eb Hc Hrs; [done|].
  assert (Hr : r ∈ ns_Routes a) by (apply Hrs, elem_of_cons; by left). assert (Hp : planned r) by (by apply (cv_planned _ _ _ _ _ _ Hc)).
  cbn [restore_routes]. unfold mbind, StateM_bind. destruct (law_routes (routes_of := routes_of) (dns_of := dns_of) (boot_of := boot_of) (journal_of := journal_of) (world s)) as [Hq Hans].
  destruct (rl_routes _ Hrel (world s)) as [rows Hrows]. unfold sys. destruct (Routes (world s)) as [x w1]. cbn [fst snd] in *. subst x. cbn in Hans.
  assert (Hc1 : covered a w1) by (by eapply covered_quiet).
  set (s1 := mkSt (mgr s) w1 (w1 :: trail s)).
  assert (He : (restore_rows (inl boot) (ns_BootSession a) r rows s1).1 = []).
  { destruct (decide (Exists (fun v => or_Destination v = or_Destination r) rows)) as [Hex|Hex].
    - apply Exists_exists in Hex as (v & Hin & Hv). assert (Hpv : planned v) by (unfold planned in *; by rewrite Hv).
      destruct (cv_routes _ _ _ _ _ _ Hc1 v) as (_ & _ & Hb); [by apply Hans|done|]. rewrite Hb, (q_boot _ _ _ _ _ _ Hq), <- Eb. apply restore_rows_works.
      intros u Hu E. assert (Hpu : planned u) by (unfold planned in *; by rewrite E).
      destruct (cv_routes _ _ _ _ _ _ Hc1 u) as (_ & Huniq & _); [by apply Hans|done|]. symmetry. by apply Huniq.
    - apply restore_rows_skips. intros v Hin E. apply Hex, Exists_exists. by exists v. }
  destruct (restore_rows_reads routes_of dns_of boot_of journal_of (inl boot) (ns_BootSession a) r rows Hp s1 I) as (Hq2 & _ & _ & _).
  destruct (restore_rows (inl boot) (ns_BootSession a) r rows s1) as [errs s2]. cbn [fst snd] in *. subst errs.
  specialize (IH s2). destruct (restore_routes _ _ rs s2) as [more s3]. cbn in *. apply IH.
  - by rewrite (q_boot _ _ _ _ _ _ Hq2), (q_boot _ _ _ _ _ _ Hq).
  - by eapply covered_quiet.
  - intros v Hv. apply Hrs, elem_of_cons. by right.
Qed.

Lemma restore_dns_works a s : covered a (world s) -> (restore_dns a s).1 = [].
Proof.
  intros Hc. unfold restore_dns. destruct (ns_DNSIntended a); cbn [negb]; [|done]. unfold mbind, StateM_bind, sys.
  destruct (law_dns (routes_of := routes_of) (dns_of := dns_of) (boot_of := boot_of) (journal_of := journal_of) (bl_Service (ns_Baseline a)) (world s)) as [Hq Hans].
  destruct (rl_dns _ Hrel (bl_Service (ns_Baseline a)) (world s)) as [dns Hd].
  destruct (DNS (bl_Service (ns_Baseline a)) (world s)) as [x w1]. cbn [fst snd] in *. subst x. cbn in Hans. unfold sameDNS.
  case_bool_decide as E1; [done|]. case_bool_decide as E2.
  - destruct (rl_set_dns _ Hrel (bl_Service (ns_Baseline a)) (bl_DNS (ns_Baseline a)) w1) as [y Hy]. cbn [world mgr trail].
    destruct (SetDNS _ _ w1) as [z w2]. cbn in *. by subst z.
  - pose proof (cv_dns _ _ _ _ _ _ (covered_quiet _ _ _ _ _ _ _ _ Hq Hc)) as Hcases. rewrite (cv_baseline _ _ _ _ _ _ Hc) in E1.
    destruct Hcases as [H|[_ H]]; congruence.
Qed.

Lemma restore_snapshot_works a s : Inv (activated (Some a) s) -> (restore_snapshot a s).1 = [].
Proof.
  intros Hi. unfold restore_snapshot, mbind, StateM_bind, set_active, puts. cbn [fst snd].
  change (mkSt (mkManager (nm_prepared (mgr s)) (nm_generation (mgr s)) (Some a)) (world s) (trail s)) with (activated (Some a) s).
  assert (Hc : covered a (world (activated (Some a) s))) by (by apply Hi).
  pose proof (restore_dns_works a _ Hc) as Hd.
  destruct (restore_dns_ok routes_of dns_of boot_of journal_of dns0 a _ (fun _ s' => Inv s' /\ mgr s' = mgr (activated (Some a) s)) Hi eq_refl) as [[Hi1 Hm1] _];
    [by intros errs s' H1 H2 _|].
  destruct (restore_dns a (activated (Some a) s)) as [errs s1]. cbn [fst snd] in *. subst errs.
  assert (Hc1 : covered a (world s1)) by (apply Hi1; by rewrite Hm1).
  destruct (law_boot (routes_of := routes_of) (dns_of := dns_of) (boot_of := boot_of) (journal_of := journal_of) (world s1)) as [Hq2 Hans].
  destruct (rl_boot _ Hrel (world s1)) as [b Hb]. unfold sys. destruct (BootSession (world s1)) as [x w2]. cbn [fst snd] in *. subst x. cbn in Hans. subst b.
  set (s2 := mkSt (mgr s1) w2 (w2 :: trail s1)). assert (Hc2 : covered a (world s2)) by (by eapply covered_quiet).
  assert (Hr : (restore_routes (inl (boot_of w2)) (ns_BootSession a) (rev (ns_Routes a)) s2).1 = []).
  { apply (restore_routes_works a (rev (ns_Routes a)) s2 Hc2). intros r Hin. by apply list_elem_of_In, in_rev, list_elem_of_In. }
  destruct (restore_routes (inl (boot_of w2)) (ns_BootSession a) (rev (ns_Routes a)) s2) as [more s3]. cbn [fst] in Hr. subst more.
  cbn. destruct (rl_remove _ Hrel (world s3)) as [y Hy]. destruct (Remove (world s3)) as [z w4]. cbn in *. by subst z.
Qed.

Lemma restore_works s : Inv s -> (restore s).1 = [].
Proof.
  intros Hi. unfold restore, mbind, StateM_bind, get_active, gets. destruct (nm_active (mgr s)) as [a|] eqn:Ea.
  { apply restore_snapshot_works. destruct Hi as [Hr Hc]. split; [done|]. intros ? [= <-]. by apply Hc. }
  destruct (law_load (routes_of := routes_of) (dns_of := dns_of) (boot_of := boot_of) (journal_of := journal_of) (world s)) as [Hq Hans].
  destruct (rl_load _ Hrel (world s)) as [j Hj]. unfold sys. destruct (Load (world s)) as [x w1]. cbn [fst snd] in *. subst x. cbn in Hans.
  destruct j as [a|]; [|done]. apply restore_snapshot_works. destruct Hi as [Hr _]. pose proof (recoverable_quiet _ _ _ _ _ _ _ Hq Hr) as Hr1.
  split; [exact Hr1|]. intros ? [= <-]. unfold DarwinSpec.recoverable in Hr1. cbn. by rewrite Hans in Hr1.
Qed.
End Reliable.

(** ** The properties *)

(** A service starts in a world that the last one left, wherever that was killed. *)
Definition restarted (w : W) : St Manager W := mkSt newNetworkManager w [].

(** The worlds that a life goes through. *)
Definition visits (s : St Manager W) (w : W) : Prop := life s /\ (w ∈ trail s \/ w = world s).

Lemma visited_recoverable s w : visits s w -> recoverable w.
Proof.
  intros [Hl Hw]. destruct (life_ok fingerprint routes_of dns_of boot_of journal_of dns0 s Hl) as [Hi Ht].
  destruct Hw as [Hw| ->]; [by eapply Forall_forall in Hw|apply Hi].
Qed.

Lemma restarted_inv w : recoverable w -> Inv (restarted w).
Proof. by split. Qed.

(** C17. Wherever the service is killed, in any world on the way of any operations, a new one
    that reconciles without an error has removed its routes and its journal and set the
    resolvers back; with an error, the world it leaves can be reconciled again. *)
Theorem reconcile_restores_the_network s w : visits s w ->
  let r := Reconcile (restarted w) in
  (r.1 = [] -> clean (world r.2) /\ journal_of (world r.2) = None) /\ Forall recoverable (trail r.2) /\ recoverable (world r.2).
Proof.
  intros Hv%visited_recoverable%restarted_inv. destruct (restore_ok routes_of dns_of boot_of journal_of dns0 _ Hv) as [[Hi Hr] (l & Hl & Hall)].
  cbv zeta. unfold Reconcile. split; [intros E; by destruct (Hr E) as (? & ? & _)|]. rewrite Hl. cbn. rewrite app_nil_r. split; [done|apply Hi].
Qed.

(** C10. When its calls do not fail the new service reconciles without an error: nothing that
    the killed one left behind stands in its way, not even after a restart. *)
Theorem killed_service_recovers s w : reliable W -> visits s w ->
  let r := Reconcile (restarted w) in r.1 = [] /\ clean (world r.2) /\ journal_of (world r.2) = None.
Proof.
  intros Hrel Hv%visited_recoverable%restarted_inv. cbv zeta. pose proof (restore_works Hrel _ Hv) as E.
  destruct (restore_ok routes_of dns_of boot_of journal_of dns0 _ Hv) as [[_ Hr] _]. destruct (Hr E) as (? & ? & _). by unfold Reconcile.
Qed.
End Props.
