(* ===== verification/DarwinDemo.v ===== *)
(** * A Mac

    A route table, the resolvers of the services, a tunnel interface and a journal, with
    the laws of the interfaces discharged, and a service killed half way through the
    activation. *)
From S2P Require Import Prelude Trail DarwinNetwork DarwinSpec DarwinProps.
From stdpp Require Import list gmap.

#[local] Open Scope string_scope.
#[local] Open Scope Z_scope.
#[local] Open Scope list_scope.

Record Mac := mkMac { mc_routes : list ownedRoute; mc_dns : gmap string (list string); mc_boot : string; mc_journal : option networkSnapshot; mc_tun : tunIdentity }.

Definition mac_dns (m : Mac) (svc : string) : list string := default [] (mc_dns m !! svc).

Definition set_mac_dns (svc : string) (dns : list string) (m : Mac) : Mac := mkMac (mc_routes m) (<[svc := dns]> (mc_dns m)) (mc_boot m) (mc_journal m) (mc_tun m).
Definition set_mac_routes (rs : list ownedRoute) (m : Mac) : Mac := mkMac rs (mc_dns m) (mc_boot m) (mc_journal m) (mc_tun m).
Definition set_mac_journal (j : option networkSnapshot) (m : Mac) : Mac := mkMac (mc_routes m) (mc_dns m) (mc_boot m) j (mc_tun m).

#[export] Instance mac_system : networkSystem Mac := {
  BootSession m := (inl (mc_boot m), m);
  Discover m := (inl (mkBaseline "en0" 4 "10.1.2.1" "Wi-Fi" (mac_dns m "Wi-Fi")), m);
  TUN m := (inl (mc_tun m), m);
  Routes m := (inl (mc_routes m), m);
  DNS svc m := (inl (mac_dns m svc), m);
  SetDNS svc dns m := (inl tt, set_mac_dns svc dns m);
  AddRoute r m := (inl tt, set_mac_routes (r :: mc_routes m) m);
  DeleteRoute r m := (inl tt, set_mac_routes (filter (fun v => or_Destination v <> or_Destination r) (mc_routes m)) m)
}.

#[export] Instance mac_journal : journal Mac := {
  Load m := (inl (mc_journal m), m);
  Save s m := if bool_decide (NoDup (map or_Destination (ns_Routes s))) then (inl tt, set_mac_journal (Some s) m) else (inr "invalid journal route destination", m);
  Remove m := (inl tt, set_mac_journal None m)
}.

#[export] Instance mac_laws : NetworkLaws Mac mc_routes mac_dns mc_boot mc_journal.
Proof.
  split; cbn; intros; try (by split); try (by repeat split).
  - split; [split|]; cbn; try done.
    + right. unfold mac_dns. cbn. by rewrite lookup_insert_eq.
    + intros svc' Hn. unfold mac_dns. cbn. by rewrite lookup_insert_ne.
    + unfold mac_dns. cbn. by rewrite lookup_insert_eq.
  - split; cbn; try done. intros v [-> | ?]%elem_of_cons _; [by left|by right].
  - split; [split; cbn; try done; by intros v [_ ?]%list_elem_of_filter|]. cbn. by intros v [? _]%list_elem_of_filter.
  - case_bool_decide; cbn; (split; [split|]); cbn; auto.
  - split; [split|]; cbn; auto.
Qed.

Lemma mac_reliable : reliable Mac.
Proof. split; intros; by eexists. Qed.

Definition mac0 : Mac := mkMac [mkRoute "0.0.0.0/0" "10.1.2.1" "en0" 4] {["Wi-Fi" := ["10.1.2.53"]]} "boot-1" None no_tun.

Definition mac_fingerprint (b : baseline) : string := bl_Interface b ++s "|" ++s bl_Gateway b.

Definition mac_begin : St Manager Mac := mkSt newNetworkManager mac0 [].

(** The session up to the activation; the core makes the tunnel between the capture and
    the wait. *)
Definition mac_captured : St Manager Mac := snd (run_op mac_fingerprint (OpCapture (mkPrepared 1 (mac_fingerprint (mkBaseline "en0" 4 "10.1.2.1" "" [])) 1))
  (snd (run_op mac_fingerprint OpPrepare mac_begin))).
Definition tunnel_up (m : Mac) : Mac := mkMac (mc_routes m) (mc_dns m) (mc_boot m) (mc_journal m) (mkTun "utun9" 17 "172.19.0.1/30").
Definition mac_tunnel : St Manager Mac := mkSt (mgr mac_captured) (tunnel_up (world mac_captured)) (tunnel_up (world mac_captured) :: trail mac_captured).
Definition mac_active : St Manager Mac := snd (run_op mac_fingerprint OpActivate (snd (run_op mac_fingerprint (OpWait []) mac_tunnel))).

Lemma mac_lives : life mac_fingerprint mc_routes mac_dns mc_boot mc_journal (mac_dns mac0) mac_active.
Proof.
  apply life_op; [|intros a; vm_compute; by intros [= <-]]. apply life_op; [|done]. apply life_moves; [|by split].
  apply life_op; [|done]. apply life_op; [|done]. apply life_begin; [|done]. split; [|done].
  intros r Hr. apply list_elem_of_singleton in Hr as ->. by vm_compute.
Qed.

(** The service is up: the routes are in the table and the tunnel resolves. *)
Example mac_is_up : (map or_Destination (mc_routes (world mac_active)), mac_dns (world mac_active) "Wi-Fi") =
  (["128.0.0.0/1"; "0.0.0.0/1"; "172.20.0.0/16"; "0.0.0.0/0"], [TUNDNS]).
Proof. vm_compute. reflexivity. Qed.

(** Killed after the second route, before the third. *)
Definition mac_killed : Mac := default mac0 (trail mac_active !! 6%nat).

Example mac_is_half_way : (map or_Destination (mc_routes mac_killed), mac_dns mac_killed "Wi-Fi") = (["0.0.0.0/1"; "172.20.0.0/16"; "0.0.0.0/0"], ["10.1.2.53"]).
Proof. vm_compute. reflexivity. Qed.

Lemma mac_visited : visits mac_fingerprint mc_routes mac_dns mc_boot mc_journal (mac_dns mac0) mac_active mac_killed.
Proof. split; [apply mac_lives|left]. apply list_elem_of_lookup. exists 6%nat. vm_compute. reflexivity. Qed.

Lemma reconcile_restores_the_network_witness : clean mc_routes mac_dns (mac_dns mac0) (world (Reconcile (restarted mac_killed)).2).
Proof.
  pose proof (reconcile_restores_the_network mac_fingerprint mc_routes mac_dns mc_boot mc_journal (mac_dns mac0) mac_active mac_killed mac_visited) as [H _].
  apply H. vm_compute. reflexivity.
Defined.

Lemma killed_service_recovers_witness : (Reconcile (restarted mac_killed)).1 = [] /\ mc_journal (world (Reconcile (restarted mac_killed)).2) = None.
Proof.
  pose proof (killed_service_recovers mac_fingerprint mc_routes mac_dns mc_boot mc_journal (mac_dns mac0) mac_active mac_killed mac_reliable mac_visited) as (H1 & _ & H2).
  split; [exact H1|exact H2].
Defined.
