(* ===== verification/DarwinJournal.v ===== *)
(** * The journal file of the macOS network ([internal/platform/darwin/network_darwin.go])

    [fileJournal]: what a snapshot must be to be written and read, and the replacement of
    the file under a temporary name. Calls may fail, and a write may be cut short; the
    trail lists what the directory holds wherever the process can be killed. *)
From S2P Require Import Prelude GoText Netip DarwinNetwork.
From stdpp Require Import list gmap pretty.

#[local] Open Scope string_scope.
#[local] Open Scope Z_scope.
#[local] Open Scope list_scope.

(** ** Valid snapshots *)
Definition journalName := "network-session.json".

Definition breaks_line (a : ascii) : bool := (byte_val a =? 0) || (byte_val a =? 13) || (byte_val a =? 10).

Definition valid_baseline (s : networkSnapshot) : bool :=
  let b := ns_Baseline s in
  (ns_Version s =? 1) && negb (ns_BootSession s =?s "") && (len (ns_BootSession s) <=? 128) && strings_HasPrefix (bl_Interface b) "en" &&
  (0 <? bl_Index b) && negb (bl_Service b =?s "") && string_all (fun a => negb (breaks_line a)) (bl_Service b).

Definition valid_gateway (b : baseline) : bool := match ParseAddr (bl_Gateway b) with Some a => Is4 a | None => false end.

(** A route of the journal, after the destinations that were seen. *)
Definition valid_route (s : networkSnapshot) (r : ownedRoute) : option string :=
  if or_Destination r =?s "172.20.0.0/16" then
    let b := ns_Baseline s in
    if negb (or_Gateway r =?s bl_Gateway b) || negb (or_Interface r =?s bl_Interface b) || negb (or_Index r =? bl_Index b) then Some "invalid direct route" else None
  else if negb (or_Interface r =?s TUNName) || negb (or_Index r =? tun_Index (ns_TUN s)) || (or_Index r <=? 0) || negb (or_Gateway r =?s link_name (or_Index r))
  then Some "invalid TUN route" else None.

Fixpoint valid_routes (s : networkSnapshot) (seen : list string) (rs : list ownedRoute) : option string :=
  match rs with
  | [] => None
  | r :: rs =>
      if negb (plannedDestination (or_Destination r)) || bool_decide (or_Destination r ∈ seen) then Some "invalid journal route destination"
      else match valid_route s r with Some e => Some e | None => valid_routes s (or_Destination r :: seen) rs end
  end.

Definition validateSnapshot (s : networkSnapshot) : option string :=
  if negb (valid_baseline s) then Some "invalid network journal baseline"
  else if negb (valid_gateway (ns_Baseline s)) then Some "invalid journal gateway"
  else if negb (forallb (fun v => bool_decide (is_Some (ParseAddr v))) (bl_DNS (ns_Baseline s))) then Some "unable to parse IP"
  else if negb (bool_decide (ns_TUN s = no_tun)) &&
    (negb (tun_Name (ns_TUN s) =?s TUNName) || (tun_Index (ns_TUN s) <=? 0) || negb (tun_Address (ns_TUN s) =?s TUNAddress)) then Some "invalid journal TUN"
  else if (3 <? length (ns_Routes s))%nat then Some "invalid journal routes"
  else match valid_routes s [] (ns_Routes s) with
  | Some e => Some e
  | None => if ns_DNSIntended s && (tun_Index (ns_TUN s) <=? 0) then Some "DNS intent without TUN identity" else None
  end.

(** ** The directory *)

(** What is known of the directory: its path is absolute, resolves to itself, and belongs to
    root alone. *)
Record DirState := mkDirState { di_absolute : bool; di_resolved : option string; di_clean : string; di_uid : Z; di_mode : Z }.

(** What is known of the journal when it is opened. *)
Record FileState := mkFileState { fi_uid : Z; fi_mode : Z; fi_regular : bool; fi_links : Z }.

(** The answer to a call; a write that fails leaves some of its bytes. *)
Inductive Answer := Fine | Fails (err : string) (bytes : nat).

Record JournalDir := mkJournalDir {
  jd_files : gmap string string; jd_dir : DirState; jd_file : FileState; jd_answers : list Answer; jd_trail : list (gmap string string)
}.

Section Journal.
(** JSON: the encoding of a snapshot, and the decoder that accepts one value without
    unknown fields and nothing after it. *)
Context (json_Marshal : networkSnapshot -> string) (json_Decode : string -> option networkSnapshot).

Definition J (A : Type) : Type := StateM JournalDir A.

Definition jcall (effect : gmap string string -> gmap string string) (cut : nat -> gmap string string -> gmap string string) : J (unit + string) := fun d =>
  match jd_answers d with
  | Fails e n :: rest => let files := cut n (jd_files d) in (inr e, mkJournalDir files (jd_dir d) (jd_file d) rest (files :: jd_trail d))
  | Fine :: rest => let files := effect (jd_files d) in (inl tt, mkJournalDir files (jd_dir d) (jd_file d) rest (files :: jd_trail d))
  | [] => let files := effect (jd_files d) in (inl tt, mkJournalDir files (jd_dir d) (jd_file d) [] (files :: jd_trail d))
  end.

Definition unchanged : nat -> gmap string string -> gmap string string := fun _ files => files.
Definition jquiet : J (unit + string) := jcall id unchanged.

#[local] Notation "'try' x ':=' m 'in' k" := (r ← m; match r with inl x => k | inr e => mret (inr e) end) (at level 10, x pattern, m at level 100, k at level 200).

Definition openDirectory : J (unit + string) :=
  d ← gets jd_dir;
  if negb (di_absolute d) then mret (inr "journal directory must be absolute")
  else match di_resolved d with
  | None => mret (inr "no such file or directory")
  | Some resolved =>
      if negb (resolved =?s di_clean d) then mret (inr "journal directory must not traverse symlinks")
      else
        try _ := jquiet in
        if negb (di_uid d =? 0) || negb (Z.land (di_mode d) 63 =? 0) then mret (inr "journal directory must be root-owned and private")
        else mret (inl tt)
  end.

Definition journal_limit : Z := 65536.

(** [Load], with the answer to the open and to the read. *)
Definition file_Load : J (option networkSnapshot + string) :=
  try _ := openDirectory in
  files ← gets jd_files;
  match files !! journalName with
  | None => mret (inl None)
  | Some data =>
      try _ := jquiet in
      f ← gets jd_file;
      if negb (fi_uid f =? 0) || negb (Z.land (fi_mode f) 63 =? 0) || negb (fi_regular f) || negb (fi_links f =? 1) || (journal_limit <? len data)
      then mret (inr "unsafe network journal")
      else
        try _ := jquiet in
        match json_Decode data with
        | None => mret (inr "journal has trailing data")
        | Some s => match validateSnapshot s with Some e => mret (inr e) | None => mret (inl (Some s)) end
        end
  end.

Definition temporary_name (pid nanos : Z) : string := ".network-" ++s pretty pid ++s "-" ++s pretty nanos.

(** What happens to the temporary file once it exists; it is removed on every way out. *)
Definition write_and_rename (name data : string) : J (unit + string) :=
  try _ := jcall <[name := data]> (fun n files => <[name := string_take n data]> files) in
  try _ := jquiet in
  try _ := jquiet in
  try _ := jcall (fun files => match files !! name with Some data => delete name (<[journalName := data]> files) | None => files end) unchanged in
  jquiet.

Definition file_Save (pid nanos : Z) (s : networkSnapshot) : J (unit + string) :=
  match validateSnapshot s with
  | Some e => mret (inr e)
  | None =>
      let data := json_Marshal s in
      try _ := openDirectory in
      let name := temporary_name pid nanos in
      files ← gets jd_files;
      if bool_decide (is_Some (files !! name)) then mret (inr "file exists")
      else
        try _ := jcall <[name := ""]> unchanged in
        r ← write_and_rename name data;
        jcall (delete name) unchanged ≫= fun _ => mret r
  end.

Definition file_Remove : J (unit + string) :=
  try _ := openDirectory in
  try _ := jcall (delete journalName) unchanged in
  jquiet.
End Journal.
