(* ===== verification/DarwinJournalSpec.v ===== *)
(** * What the journal file keeps

    A save is all or nothing wherever the process is killed, what was saved is loaded back,
    and the snapshots of a session are ones that the journal accepts. *)
From S2P Require Import Prelude GoText Netip DarwinNetwork DarwinJournal.
From stdpp Require Import list gmap pretty.

#[local] Open Scope string_scope.
#[local] Open Scope Z_scope.
#[local] Open Scope list_scope.

Section Spec.
Context (json_Marshal : networkSnapshot -> string) (json_Decode : string -> option networkSnapshot).

(** ** A condition on every directory on the way *)

(** [m] leaves a directory with [Q], keeps the metadata, and every directory on the way has [C]. *)
Definition jwp {A} (C : gmap string string -> Prop) (m : J A) (Q : A -> gmap string string -> Prop) (d : JournalDir) : Prop :=
  Q (m d).1 (jd_files (m d).2) /\ jd_dir (m d).2 = jd_dir d /\ jd_file (m d).2 = jd_file d /\
  exists l, jd_trail (m d).2 = l ++ jd_trail d /\ Forall C l.

Lemma jwp_ret {A} C (x : A) (Q : A -> gmap string string -> Prop) d : Q x (jd_files d) -> jwp C (mret x) Q d.
Proof. intros HQ. split; [done|]. do 2 (split; [done|]). by exists []. Qed.

Lemma jwp_bind {A B} C (m : J A) (f : A -> J B) Mid Q d : jwp C m Mid d -> (forall x d', Mid x (jd_files d') -> jd_dir d' = jd_dir d -> jd_file d' = jd_file d -> jwp C (f x) Q d') ->
  jwp C (m ≫= f) Q d.
Proof.
  intros (Hq & Hd & Hfi & l & Hl & HC) Hf. unfold jwp, mbind, StateM_bind in *. destruct (m d) as [x d1]. cbn [fst snd] in *.
  destruct (Hf x d1 Hq Hd Hfi) as (Hq' & Hd' & Hfi' & l' & Hl' & HC'). split; [done|]. split; [congruence|]. split; [congruence|].
  exists (l' ++ l). rewrite Hl', Hl, app_assoc. split; [done|]. by apply Forall_app.
Qed.

Lemma jwp_mono {A} C (m : J A) (Q Q' : A -> gmap string string -> Prop) d : (forall x files, Q' x files -> Q x files) -> jwp C m Q' d -> jwp C m Q d.
Proof. intros HQ (Hq & Hrest). split; [auto|done]. Qed.

Lemma jwp_call C effect cut (Q : unit + string -> gmap string string -> Prop) d : C (effect (jd_files d)) -> (forall n, C (cut n (jd_files d))) ->
  Q (inl tt) (effect (jd_files d)) -> (forall e n, Q (inr e) (cut n (jd_files d))) -> jwp C (jcall effect cut) Q d.
Proof.
  intros He Hc HQ Hf. unfold jwp, jcall. destruct (jd_answers d) as [|[|e n] rest]; cbn; (split; [auto|]); (split; [done|]); (split; [done|]); eexists [_]; auto.
Qed.

Lemma jwp_gets {A} C (f : JournalDir -> A) (Q : A -> gmap string string -> Prop) d : Q (f d) (jd_files d) -> jwp C (gets f) Q d.
Proof. intros HQ. split; [done|]. do 2 (split; [done|]). by exists []. Qed.

(** A call without effect, and the checks of the directory. *)
Lemma jwp_quiet C files d : C files -> jd_files d = files -> jwp C jquiet (fun _ files' => files' = files) d.
Proof. intros Hc <-. by apply jwp_call. Qed.

Lemma jwp_open C files d : C files -> jd_files d = files -> jwp C openDirectory (fun _ files' => files' = files) d.
Proof.
  intros Hc Hf. unfold openDirectory. eapply jwp_bind; [apply (jwp_gets _ _ (fun _ files' => files' = files)); done|]. intros m d1 Hd1 _ _.
  destruct (negb (di_absolute m)); [by apply jwp_ret|]. destruct (di_resolved m) as [resolved|]; [|by apply jwp_ret].
  destruct (negb (resolved =?s di_clean m)); [by apply jwp_ret|]. eapply jwp_bind; [by apply (jwp_quiet _ files)|].
  intros [[]|e] d2 Hd2 _ _; [|by apply jwp_ret]. destruct (_ || _); by apply jwp_ret.
Qed.

(** ** Save *)
Definition temporary (pid nanos : Z) : string := temporary_name pid nanos.

Lemma temporary_is_not_the_journal pid nanos : temporary_name pid nanos <> journalName.
Proof. unfold temporary_name, journalName. cbn. congruence. Qed.

(** The journal is the old one or the new one, and no other file but the temporary one
    differs. *)
Definition old_or_new (name data : string) (files files' : gmap string string) : Prop :=
  (files' !! journalName = files !! journalName \/ files' !! journalName = Some data) /\
  forall f, f <> journalName -> f <> name -> files' !! f = files !! f.

Lemma old_or_new_temp name data files files' x : name <> journalName -> old_or_new name data files files' -> old_or_new name data files (<[name := x]> files').
Proof. intros Hn [H1 H2]. split; [by rewrite lookup_insert_ne|]. intros f Hf Hf'. rewrite lookup_insert_ne by done. auto. Qed.

Lemma old_or_new_delete name data files files' : name <> journalName -> old_or_new name data files files' -> old_or_new name data files (delete name files').
Proof. intros Hn [H1 H2]. split; [by rewrite lookup_delete_ne|]. intros f Hf Hf'. rewrite lookup_delete_ne by done. auto. Qed.

Lemma write_and_rename_ok name data files d : name <> journalName -> old_or_new name data files (jd_files d) ->
  jwp (old_or_new name data files) (write_and_rename name data)
    (fun r files' => old_or_new name data files files' /\ (r = inl tt -> files' !! journalName = Some data)) d.
Proof.
  intros Hn Ho. unfold write_and_rename.
  eapply (jwp_bind _ _ _ (fun r files' => old_or_new name data files files' /\ (r = inl tt -> files' !! name = Some data))).
  { apply jwp_call; [by apply old_or_new_temp|intros; by apply old_or_new_temp|split; [by apply old_or_new_temp|intros _; apply lookup_insert_eq]|].
    intros e n. split; [by apply old_or_new_temp|done]. }
  intros [[]|e] d1 [H1 Hdata] _ _; [|by apply jwp_ret]. specialize (Hdata eq_refl). eapply jwp_bind; [by apply (jwp_quiet _ (jd_files d1))|].
  intros [[]|e] d2 H2 _ _; [|apply jwp_ret; by rewrite H2]. eapply jwp_bind; [apply (jwp_quiet _ (jd_files d1)); [done|by rewrite H2]|].
  intros [[]|e] d3 H3 _ _; [|apply jwp_ret; by rewrite H3]. rewrite <- H3 in H1, Hdata. clear H2 H3.
  assert (Hnew : old_or_new name data files (delete name (<[journalName := data]> (jd_files d3)))).
  { apply old_or_new_delete; [done|]. destruct H1 as [_ H1]. split; [right; apply lookup_insert_eq|]. intros f Hf Hf'. rewrite lookup_insert_ne by done. auto. }
  eapply (jwp_bind _ _ _ (fun r files' => old_or_new name data files files' /\ (r = inl tt -> files' !! journalName = Some data))).
  { apply jwp_call; rewrite ?Hdata; [done|intros n; exact H1| |intros e n; by split].
    split; [done|]. intros _. rewrite lookup_delete_ne by done. apply lookup_insert_eq. }
  intros [[]|e] d4 [H4 Hj] _ _; [|by apply jwp_ret]. specialize (Hj eq_refl).
  eapply jwp_mono; [|apply (jwp_quiet _ (jd_files d4)); done]. by intros x files' ->.
Qed.

(** C18. Wherever a save is interrupted and whatever call fails, the journal is the one that was
    there or the whole new one and no other file changed; a save without an error wrote the
    new one, a valid snapshot. *)
Theorem save_is_all_or_nothing pid nanos s d :
  let name := temporary_name pid nanos in
  let data := json_Marshal s in
  let r := file_Save json_Marshal pid nanos s d in
  (exists l, jd_trail r.2 = l ++ jd_trail d /\ Forall (old_or_new name data (jd_files d)) l) /\
  old_or_new name data (jd_files d) (jd_files r.2) /\
  (r.1 = inl tt -> jd_files r.2 !! journalName = Some data /\ validateSnapshot s = None).
Proof.
  cbv zeta. set (name := temporary_name pid nanos). set (data := json_Marshal s). pose proof (temporary_is_not_the_journal pid nanos) as Hn.
  assert (Hw : jwp (old_or_new name data (jd_files d)) (file_Save json_Marshal pid nanos s)
    (fun r files => old_or_new name data (jd_files d) files /\ (r = inl tt -> files !! journalName = Some data /\ validateSnapshot s = None)) d).
  { unfold file_Save. destruct (validateSnapshot s) eqn:Ev; [apply jwp_ret; by repeat split; auto|].
    assert (H0 : old_or_new name data (jd_files d) (jd_files d)) by (by split; [left|]).
    eapply jwp_bind; [by apply (jwp_open _ (jd_files d))|]. intros [[]|e] d1 H1 _ _; [|apply jwp_ret; by rewrite H1].
    eapply jwp_bind; [apply (jwp_gets _ _ (fun _ files => files = jd_files d)); done|]. intros files d2 H2 _ _. case_bool_decide; [apply jwp_ret; by rewrite H2|].
    eapply (jwp_bind _ _ _ (fun _ files => old_or_new name data (jd_files d) files)).
    { apply jwp_call; rewrite ?H2; intros; try (by apply old_or_new_temp); done. }
    intros [[]|e] d3 H3 _ _; [|by apply jwp_ret].
    eapply jwp_bind; [by apply write_and_rename_ok|]. intros r d4 [H4 Hj] _ _.
    eapply (jwp_bind _ _ _ (fun _ files => old_or_new name data (jd_files d) files /\ (r = inl tt -> files !! journalName = Some data))).
    { assert (Hdel : old_or_new name data (jd_files d) (delete name (jd_files d4))) by (by apply old_or_new_delete).
      assert (Hj' : r = inl tt -> delete name (jd_files d4) !! journalName = Some data) by (intros E; rewrite lookup_delete_ne by done; auto).
      by apply jwp_call. }
    intros _ d5 [H5 Hj5] _ _. apply jwp_ret. split; [done|]. intros E. split; [by apply Hj5|done]. }
  destruct Hw as ([Ho Hj] & _ & _ & Hl). by split.
Qed.

(** ** Load *)

(** The directory belongs to root alone and the journal is an ordinary file of it. *)
Definition private_dir (d : JournalDir) : Prop :=
  di_absolute (jd_dir d) = true /\ di_resolved (jd_dir d) = Some (di_clean (jd_dir d)) /\ di_uid (jd_dir d) = 0 /\ Z.land (di_mode (jd_dir d)) 63 = 0.
Definition private_file (d : JournalDir) : Prop :=
  fi_uid (jd_file d) = 0 /\ Z.land (fi_mode (jd_file d)) 63 = 0 /\ fi_regular (jd_file d) = true /\ fi_links (jd_file d) = 1.

(** What a save wrote without an error is loaded back by calls that do not fail, when the
    codec keeps it and it is within the limit. *)
Theorem saved_journal_is_loaded_back pid nanos s d :
  let d1 := (file_Save json_Marshal pid nanos s d).2 in
  (file_Save json_Marshal pid nanos s d).1 = inl tt -> private_dir d1 -> private_file d1 -> jd_answers d1 = [] ->
  json_Decode (json_Marshal s) = Some s -> len (json_Marshal s) <= journal_limit ->
  (file_Load json_Decode d1).1 = inl (Some s).
Proof.
  cbv zeta. intros Hok (Ha & Hr & Hu & Hm) (Fu & Fm & Fr & Fl) Hans Hcodec Hlen.
  destruct (save_is_all_or_nothing pid nanos s d) as (_ & _ & Hsaved). destruct (Hsaved Hok) as [Hj Hv].
  destruct (file_Save json_Marshal pid nanos s d).2 as [files dir file ans tr]. cbn in *. subst ans.
  unfold file_Load, openDirectory, jquiet, jcall, mbind, StateM_bind, gets. cbn. rewrite Ha, Hr. cbn. rewrite String.eqb_refl. cbn. rewrite Hu, Hm. cbn.
  unfold id. rewrite Hj. cbn. rewrite Fu, Fm, Fr, Fl. cbn. destruct (Z.ltb_spec journal_limit (len (json_Marshal s))); [lia|]. cbn. rewrite Hcodec, Hv. done.
Qed.

(** ** The snapshots of a session *)

(** What the discovery of the network yields. *)
Definition discovered (b : baseline) (boot : string) : Prop :=
  valid_baseline (mkSnapshot 1 boot b no_tun [] false) = true /\ valid_gateway b = true /\ Forall (fun v => is_Some (ParseAddr v)) (bl_DNS b).

(** The tunnel that the wait accepts. *)
Definition tunnel (t : tunIdentity) : Prop := tun_Name t = TUNName /\ 0 < tun_Index t /\ tun_Address t = TUNAddress.

Definition captured (b : baseline) (boot : string) : networkSnapshot := mkSnapshot 1 boot b no_tun [] false.

(** The snapshot when [n] routes were added. *)
Definition routed (b : baseline) (boot : string) (t : tunIdentity) (n : nat) : networkSnapshot :=
  fold_left (fun s r => with_route r s) (take n (targets (captured b boot) t)) (with_tun t (captured b boot)).

Lemma routed_routes b boot t n : routed b boot t n = mkSnapshot 1 boot b t (take n (targets (captured b boot) t)) false.
Proof. unfold routed. by destruct n as [|[|[|n]]]; cbn; rewrite ?take_nil. Qed.

Lemma targets_valid b boot t n i : tunnel t -> valid_routes (mkSnapshot 1 boot b t (take n (targets (captured b boot) t)) i) [] (take n (targets (captured b boot) t)) = None.
Proof.
  intros (Hn & Hi & _). pose proof (proj2 (Z.leb_gt (tun_Index t) 0) Hi) as Hl.
  destruct n as [|[|[|n]]]; cbn [take targets valid_routes]; unfold valid_route; cbn; rewrite ?take_nil; cbn; rewrite ?String.eqb_refl, ?Z.eqb_refl, ?Hl; cbn; rewrite ?String.eqb_refl; reflexivity.
Qed.

End Spec.

(** ** A session on disk *)
Definition demo_baseline : baseline := mkBaseline "en0" 4 "10.1.2.1" "Wi-Fi" ["10.1.2.53"].
Definition demo_tun : tunIdentity := mkTun "utun9" 17 "172.19.0.1/30".
Definition demo_snapshot : networkSnapshot := routed demo_baseline "boot-1" demo_tun 2.

(** A codec for the demonstration: it knows one snapshot. *)
Definition demo_encode (s : networkSnapshot) : string := "{" ++s ns_BootSession s ++s "}".
Definition demo_decode (data : string) : option networkSnapshot := if data =?s "{boot-1}" then Some demo_snapshot else None.

Definition demo_dir (answers : list Answer) : JournalDir :=
  mkJournalDir ∅ (mkDirState true (Some "/var/db/overseas") "/var/db/overseas" 0 448) (mkFileState 0 384 true 1) answers [].

Lemma saved_journal_is_loaded_back_witness : (file_Load demo_decode (file_Save demo_encode 12 34 demo_snapshot (demo_dir [])).2).1 = inl (Some demo_snapshot).
Proof. apply saved_journal_is_loaded_back; vm_compute; try reflexivity; try (repeat split); done. Defined.


(** A write that is cut short leaves no journal. *)
Example cut_write : jd_files (file_Save demo_encode 12 34 demo_snapshot (demo_dir [Fine; Fine; Fails "no space" 3])).2 !! journalName = None.
Proof. vm_compute. reflexivity. Qed.
