(* ===== verification/DarwinSystem.v ===== *)
(** * The system calls of the macOS network ([internal/platform/darwin/network_darwin.go])

    [darwinSystem]: the commands that discover, change and verify the network, and the
    parsers of their output. Commands and interfaces are operations of a class. *)
From S2P Require Import Prelude GoText Netip PocModel NativeNetwork DarwinNetwork.
From stdpp Require Import list gmap pretty.

#[local] Open Scope string_scope.
#[local] Open Scope Z_scope.
#[local] Open Scope list_scope.

(** ** Text *)

(** [strings.Cut]: the text before and after the first separator. *)
Fixpoint strings_Cut (s sep : string) : option (string * string) :=
  if strings_HasPrefix s sep then Some ("", String.substring (String.length sep) (String.length s - String.length sep) s)
  else match s with
  | "" => None
  | String a s => match strings_Cut s sep with Some (l, r) => Some (String a l, r) | None => None end
  end.

(** [strings.Split] on one byte. *)
Fixpoint strings_Split (s : string) (sep : ascii) : list string :=
  match s with
  | "" => [""]
  | String a s =>
      match strings_Split s sep with
      | [] => []
      | first :: rest => if Ascii.eqb a sep then "" :: first :: rest else String a first :: rest
      end
  end.

Definition newline : ascii := byte_of 10.
Definition lines (text : string) : list string := strings_Split text newline.

(** [strings.TrimPrefix] and [strings.TrimSuffix]. *)
Definition strings_TrimPrefix (s p : string) : string :=
  if strings_HasPrefix s p then String.substring (String.length p) (String.length s - String.length p) s else s.
Definition strings_TrimSuffix (s p : string) : string :=
  if strings_HasSuffix s p then String.substring 0 (String.length s - String.length p) s else s.

(** Whether [strconv.Atoi] takes a text: a sign, digits, and the range of [int]. *)
Definition is_atoi (s : string) : bool :=
  let '(negative, digits) := match s with
    | String a rest => if byte_val a =? 45 then (true, rest) else if byte_val a =? 43 then (false, rest) else (false, s)
    | "" => (false, "") end in
  negb (digits =?s "") && match atoi_digits digits 0 with
    | Some v => if negative : bool then min_int64 <=? - v else v <=? max_int64
    | None => false
    end.

(** ** Parsers *)

(** The fields of a default route; a key that comes twice is an error. *)
Fixpoint route_fields (ls : list string) (fields : gmap string string) : option (gmap string string) :=
  match ls with
  | [] => Some fields
  | l :: ls =>
      match strings_Cut (strings_TrimSpace l) ":" with
      | Some (k, v) => match fields !! k with Some _ => None | None => route_fields ls (<[k := strings_TrimSpace v]> fields) end
      | None => route_fields ls fields
      end
  end.

Definition field (fields : gmap string string) (k : string) : string := default "" (fields !! k).

(** A row of [networksetup -listnetworkserviceorder] with the service that is open. *)
Fixpoint service_rows (ls : list string) (device current : string) (found : list string) : list string + string :=
  match ls with
  | [] => inl found
  | l :: ls =>
      let l := strings_TrimSpace l in
      if strings_HasPrefix l "(Hardware Port:" then
        match strings_Cut l ", Device: " with
        | Some (_, tail) =>
            if negb (strings_HasSuffix tail ")") then inr "invalid service hardware row"
            else service_rows ls device "" (if (strings_TrimSuffix tail ")" =?s device) && negb (current =?s "") then found ++ [current] else found)
        | None => inr "invalid service hardware row"
        end
      else if strings_HasPrefix l "(" then
        match strings_Cut l ") " with
        | None => inr "invalid service order row"
        | Some (n, name) =>
            let number := strings_TrimPrefix n "(" in
            if number =?s "*" then service_rows ls device "" found
            else if is_atoi number then service_rows ls device name found else inr "invalid service order"
        end
      else service_rows ls device current found
  end.

Definition parseService (text device : string) : string + string :=
  match service_rows (lines text) device "" [] with
  | inr e => inr e
  | inl [service] => if strings_TrimSpace service =?s "" then inr "no unique enabled service for physical interface" else inl service
  | inl _ => inr "no unique enabled service for physical interface"
  end.

Fixpoint dns_lines (ls : list string) : option (list string) :=
  match ls with
  | [] => Some []
  | l :: ls => a ← ParseAddr (strings_TrimSpace l); rest ← dns_lines ls; Some (Addr_String a :: rest)
  end.

Definition parseDNS (text service : string) : list string + string :=
  let text := strings_TrimSpace text in
  if text =?s "There aren't any DNS Servers set on " ++s service ++s "." then inl []
  else match dns_lines (lines text) with Some l => inl l | None => inr "ambiguous networksetup DNS output" end.

Definition contains_byte (c : Z) (s : string) : bool := negb (string_all (fun a => negb (byte_val a =? c)) s).

(** [routePrefix]: [netstat] abbreviates networks whose mask ends at a byte. *)
Definition routePrefix (text flags : string) : string + string :=
  if text =?s "default" then inl "0.0.0.0/0"
  else
    let '(ip, bits, has) := match strings_Cut text "/" with Some (ip, bits) => (ip, bits, true) | None => (text, "", false) end in
    let parts := strings_Split ip (byte_of 46) in
    if (4 <? length parts)%nat then inr "invalid route destination"
    else
      let bits := if has : bool then bits else if contains_byte 72 flags then "32" else pretty (Z.of_nat (length parts) * 8) in
      match ParsePrefix (strings_Join (parts ++ repeat "0" (4 - length parts)) "." ++s "/" ++s bits) with
      | None => inr "netip.ParsePrefix"
      | Some p => inl (Prefix_String (Masked p))
      end.

(** A row of [netstat -rn]; an interface-only route of the tunnel is named by its index. *)
Definition route_row (f : list string) (indexes : gmap string Z) : ownedRoute + string :=
  match f with
  | [dest; gateway; flags; netif] | [dest; gateway; flags; netif; _] =>
      match routePrefix dest flags with
      | inr e => inr e
      | inl dest =>
          let index := default 0 (indexes !! netif) in
          if index <=? 0 then inr "route interface identity missing"
          else
            let gateway := if (netif =?s TUNName) && (gateway =?s TUNName) && negb (contains_byte 71 flags) then link_name index else gateway in
            inl (mkRoute dest gateway netif index)
      end
  | _ => inr "ambiguous route row"
  end.

Fixpoint route_rows (ls : list string) (indexes : gmap string Z) (header : bool) (result : list ownedRoute) : list ownedRoute + string :=
  match ls with
  | [] => if header then inl result else inr "route table missing header"
  | l :: ls =>
      match strings_Fields l with
      | [] => route_rows ls indexes header result
      | (first :: rest) as f =>
          if first =?s "Destination" then
            match rest with
            | g :: fl :: n :: _ => if (g =?s "Gateway") && (fl =?s "Flags") && (n =?s "Netif") then route_rows ls indexes true result else inr "unexpected route columns"
            | _ => inr "unexpected route columns"
            end
          else if negb header then route_rows ls indexes header result
          else match route_row f indexes with
          | inr e => inr e
          | inl r => route_rows ls indexes header (result ++ [r])
          end
      end
  end.

Definition parseRoutes (text : string) (indexes : gmap string Z) : list ownedRoute + string := route_rows (lines text) indexes false [].

(** ** Commands and interfaces *)
Record Iface := mkIface { if_Name : string; if_Index : Z; if_Up : bool }.

Class commandRunner (W : Type) := {
  Run : string -> list string -> StateM W (string + string);
  net_Interfaces : StateM W (list Iface + string);
  net_InterfaceByName : string -> StateM W (Iface + string);
  net_Addrs : Iface -> StateM W (list string + string);
  sysctl_bootsessionuuid : StateM W (string + string)
}.

Section System.
Context {W : Type} `{!commandRunner W}.

Definition attempt {A B} (m : StateM W (A + string)) (f : A -> StateM W (B + string)) : StateM W (B + string) :=
  r ← m; match r with inl x => f x | inr e => mret (inr e) end.

#[local] Notation "'try' x ':=' m 'in' k" := (attempt m (fun x => k)) (at level 10, x pattern, m at level 100, k at level 200).

Definition stop {A} (e : string) : StateM W (A + string) := mret (inr e).
Definition done_with {A} (x : A) : StateM W (A + string) := mret (inl x).

Definition route_path := "/sbin/route".
Definition networksetup_path := "/usr/sbin/networksetup".
Definition netstat_path := "/usr/sbin/netstat".

Definition darwin_BootSession : StateM W (string + string) :=
  try value := sysctl_bootsessionuuid in
  let value := strings_TrimSpace value in
  if value =?s "" then stop "boot session unavailable" else done_with value.

Definition darwin_DNS (service : string) : StateM W (list string + string) :=
  try out := Run networksetup_path ["-getdnsservers"; service] in
  mret (parseDNS out service).

(** Whether an address is of a kind that the service cannot route. *)
Definition foreign_ipv6 (a : Addr) : bool := Is6 a && negb (IsLinkLocalUnicast a) && negb (IsLoopback a).

Fixpoint check_addrs (addrs : list string) : option string :=
  match addrs with
  | [] => None
  | v :: addrs =>
      match ParsePrefix v with
      | None => Some "netip.ParsePrefix"
      | Some p => if foreign_ipv6 (PrefixAddr p) then Some "active IPv6 unsupported by IPv4 PoC" else check_addrs addrs
      end
  end.

Fixpoint check_interfaces (ifaces : list Iface) : StateM W (unit + string) :=
  match ifaces with
  | [] => done_with tt
  | i :: ifaces =>
      if negb (if_Up i) then check_interfaces ifaces
      else
        try addrs := net_Addrs i in
        match check_addrs addrs with Some e => stop e | None => check_interfaces ifaces end
  end.

Definition darwin_Discover : StateM W (baseline + string) :=
  try out := Run route_path ["-n"; "get"; "default"] in
  match route_fields (lines out) ∅ with
  | None => stop "duplicate default route field"
  | Some fields =>
      let interface := field fields "interface" in
      let gateway := field fields "gateway" in
      if negb (match ParseAddr gateway with Some a => Is4 a | None => false end) || negb (strings_HasPrefix interface "en") then stop "unsupported physical default route"
      else
        try iface := net_InterfaceByName interface in
        if negb (if_Up iface) then stop "physical interface down"
        else
          try ifaces := net_Interfaces in
          try _ := check_interfaces ifaces in
          try order := Run networksetup_path ["-listnetworkserviceorder"] in
          match parseService order interface with
          | inr e => stop e
          | inl service =>
              try dns := darwin_DNS service in
              done_with (mkBaseline interface (if_Index iface) gateway service dns)
          end
  end.

Definition dns_args (service : string) (dns : list string) : list string := ["-setdnsservers"; service] ++ (match dns with [] => ["Empty"] | _ => dns end).

Definition darwin_SetDNS (service : string) (dns : list string) : StateM W (unit + string) :=
  try _ := Run networksetup_path (dns_args service dns) in
  try actual := darwin_DNS service in
  if sameDNS actual dns then done_with tt else stop "DNS mutation did not verify".

Fixpoint tun_addrs (addrs : list string) (t : tunIdentity) : tunIdentity + string :=
  match addrs with
  | [] => inl t
  | v :: addrs =>
      match ParsePrefix v with
      | None => inr "netip.ParsePrefix"
      | Some p =>
          if Is4 (PrefixAddr p) then
            if negb (tun_Address t =?s "") then inr "ambiguous TUN IPv4 identity" else tun_addrs addrs (mkTun (tun_Name t) (tun_Index t) (Prefix_String p))
          else tun_addrs addrs t
      end
  end.

Definition darwin_TUN : StateM W (tunIdentity + string) :=
  try ifaces := net_Interfaces in
  match List.find (fun i => if_Name i =?s TUNName) ifaces with
  | None => done_with no_tun
  | Some i => try addrs := net_Addrs i in mret (tun_addrs addrs (mkTun (if_Name i) (if_Index i) ""))
  end.

Definition interface_indexes (ifaces : list Iface) : gmap string Z := fold_left (fun m i => <[if_Name i := if_Index i]> m) ifaces ∅.

Definition darwin_Routes : StateM W (list ownedRoute + string) :=
  try ifaces := net_Interfaces in
  try out := Run netstat_path ["-rn"; "-f"; "inet"] in
  mret (parseRoutes out (interface_indexes ifaces)).

Definition route_args (verb : string) (r : ownedRoute) : list string :=
  ["-n"; verb; "-net"; or_Destination r] ++ (if or_Interface r =?s TUNName then ["-interface"; TUNName] else [or_Gateway r]).

Definition darwin_AddRoute (r : ownedRoute) : StateM W (unit + string) :=
  try _ := Run route_path (route_args "add" r) in
  try routes := darwin_Routes in
  if existsb (fun v => bool_decide (v = r)) routes then done_with tt else stop "added route identity did not verify".

Definition darwin_DeleteRoute (r : ownedRoute) : StateM W (unit + string) :=
  command ← Run route_path (route_args "delete" r);
  routes ← darwin_Routes;
  match routes with
  | inr e => stop e
  | inl routes =>
      if existsb (fun v => or_Destination v =?s or_Destination r) routes then stop "route remains after scoped removal; needs action" else done_with tt
  end.

(** The system that the manager uses. *)
#[export] Instance darwinSystem : networkSystem W := {
  BootSession := darwin_BootSession;
  Discover := darwin_Discover;
  TUN := darwin_TUN;
  Routes := darwin_Routes;
  DNS := darwin_DNS;
  SetDNS := darwin_SetDNS;
  AddRoute := darwin_AddRoute;
  DeleteRoute := darwin_DeleteRoute
}.
End System.

(** ** Examples *)
Definition text_of (ls : list string) : string := strings_Join ls (String newline "").

Example netstat_routes :
  parseRoutes (text_of ["Routing tables"; ""; "Internet:"; "Destination Gateway Flags Netif Expire"; "default 10.1.2.1 UGScg en0"; "0/1 utun9 UScg utun9";
      "10.1.2.1 0:1:2:3:4:5 UHLWIir en0 1180"; "128.0/1 utun9 USc utun9"; "172.20 10.1.2.1 UGSc en0"; "192.0.2.0/24 link#4 UCS en0"])
    {["en0" := 4; "utun9" := 17]} =
  inl [mkRoute "0.0.0.0/0" "10.1.2.1" "en0" 4; mkRoute "0.0.0.0/1" "link#17" "utun9" 17; mkRoute "10.1.2.1/32" "0:1:2:3:4:5" "en0" 4;
    mkRoute "128.0.0.0/1" "link#17" "utun9" 17; mkRoute "172.20.0.0/16" "10.1.2.1" "en0" 4; mkRoute "192.0.2.0/24" "link#4" "en0" 4].
Proof. vm_compute. reflexivity. Qed.

Example service_order :
  parseService (text_of ["An asterisk (*) denotes that a network service is disabled."; "(1) Wi-Fi"; "(Hardware Port: Wi-Fi, Device: en0)"; "";
    "(*) Old"; "(Hardware Port: Old, Device: en0)"; "(2) Bridge"; "(Hardware Port: Thunderbolt Bridge, Device: bridge0)"]) "en0" = inl "Wi-Fi".
Proof. vm_compute. reflexivity. Qed.

Example dns_none : parseDNS "There aren't any DNS Servers set on Wi-Fi." "Wi-Fi" = inl []. Proof. vm_compute. reflexivity. Qed.
Example dns_two : parseDNS (text_of ["10.1.2.53"; "2001:DB8::1"]) "Wi-Fi" = inl ["10.1.2.53"; "2001:db8::1"]. Proof. vm_compute. reflexivity. Qed.
