(* ===== verification/DarwinSystemSpec.v ===== *)
(** * The commands implement the system of the manager

    From what the commands of macOS do and print, the laws that the manager relies on:
    reads change nothing, and a change that is reported was seen in effect. *)
From S2P Require Import Prelude Trail GoText DarwinNetwork DarwinSpec DarwinSystem.
From stdpp Require Import list gmap.

#[local] Open Scope string_scope.
#[local] Open Scope Z_scope.
#[local] Open Scope list_scope.

(** What the commands do and print; [netstat] names interfaces by the indexes that they
    have when it runs. *)
Class CommandLaws (W : Type) `{!commandRunner W} (routes_of : W -> list ownedRoute) (dns_of : W -> string -> list string)
    (boot_of : W -> string) (journal_of : W -> option networkSnapshot) (indexes_of : W -> gmap string Z) : Prop := {
  cmd_boot w : quiet routes_of dns_of boot_of journal_of w (sysctl_bootsessionuuid w).2 /\
    answers (sysctl_bootsessionuuid w).1 (fun v => strings_TrimSpace v = boot_of (sysctl_bootsessionuuid w).2);
  cmd_interfaces w : quiet routes_of dns_of boot_of journal_of w (net_Interfaces w).2 /\
    answers (net_Interfaces w).1 (fun l => interface_indexes l = indexes_of (net_Interfaces w).2);
  cmd_by_name name w : quiet routes_of dns_of boot_of journal_of w (net_InterfaceByName name w).2;
  cmd_addrs i w : quiet routes_of dns_of boot_of journal_of w (net_Addrs i w).2;
  cmd_default w : quiet routes_of dns_of boot_of journal_of w (Run route_path ["-n"; "get"; "default"] w).2;
  cmd_order w : quiet routes_of dns_of boot_of journal_of w (Run networksetup_path ["-listnetworkserviceorder"] w).2;
  cmd_get_dns svc w : quiet routes_of dns_of boot_of journal_of w (Run networksetup_path ["-getdnsservers"; svc] w).2 /\
    answers (Run networksetup_path ["-getdnsservers"; svc] w).1 (fun out => forall l, parseDNS out svc = inl l ->
      l = dns_of (Run networksetup_path ["-getdnsservers"; svc] w).2 svc);
  cmd_netstat w : quiet routes_of dns_of boot_of journal_of w (Run netstat_path ["-rn"; "-f"; "inet"] w).2 /\
    answers (Run netstat_path ["-rn"; "-f"; "inet"] w).1 (fun out => forall l, parseRoutes out (indexes_of w) = inl l ->
      forall r, r ∈ l <-> r ∈ routes_of (Run netstat_path ["-rn"; "-f"; "inet"] w).2);
  cmd_set_dns svc dns w : dns_set routes_of dns_of boot_of journal_of svc dns w (Run networksetup_path (dns_args svc dns) w).2;
  cmd_add r w : route_added routes_of dns_of boot_of journal_of r w (Run route_path (route_args "add" r) w).2;
  cmd_delete r w : quiet routes_of dns_of boot_of journal_of w (Run route_path (route_args "delete" r) w).2
}.

Class JournalLaws (W : Type) `{!journal W} (routes_of : W -> list ownedRoute) (dns_of : W -> string -> list string)
    (boot_of : W -> string) (journal_of : W -> option networkSnapshot) : Prop := {
  jl_load w : quiet routes_of dns_of boot_of journal_of w (Load w).2 /\ answers (Load w).1 (eq (journal_of (Load w).2));
  jl_save s w : journalled routes_of dns_of boot_of journal_of (Some s) w (Save s w).2 /\
    answers (Save s w).1 (fun _ => journal_of (Save s w).2 = Some s /\ NoDup (map or_Destination (ns_Routes s)));
  jl_remove w : journalled routes_of dns_of boot_of journal_of None w (Remove w).2 /\ answers (Remove w).1 (fun _ => journal_of (Remove w).2 = None)
}.

Section Spec.
Context {W : Type} `{!commandRunner W} `{!journal W}.
Context (routes_of : W -> list ownedRoute) (dns_of : W -> string -> list string) (boot_of : W -> string) (journal_of : W -> option networkSnapshot)
  (indexes_of : W -> gmap string Z).
Context `{!CommandLaws W routes_of dns_of boot_of journal_of indexes_of} `{!JournalLaws W routes_of dns_of boot_of journal_of}.

#[local] Abbreviation quiet := (quiet routes_of dns_of boot_of journal_of).

(** [m] only reads, and its answer has [P] in the world that it leaves. *)
Definition looks {A} (m : StateM W (A + string)) (P : A -> W -> Prop) : Prop := forall w, quiet w (m w).2 /\ answers (m w).1 (fun x => P x (m w).2).

Definition anything {A} : A -> W -> Prop := fun _ _ => True.

Lemma looks_answer {A} (r : A + string) (P : A -> W -> Prop) : (forall w, answers r (fun x => P x w)) -> looks (mret r) P.
Proof. intros Hr w. split; [apply quiet_refl|apply Hr]. Qed.

Lemma looks_attempt {A B} (m : StateM W (A + string)) (f : A -> StateM W (B + string)) P Q : looks m P ->
  (forall x w, P x w -> quiet w (f x w).2 /\ answers (f x w).1 (fun y => Q y (f x w).2)) -> looks (attempt m f) Q.
Proof.
  intros Hm Hf w. destruct (Hm w) as [Hq Ha]. unfold attempt, mbind, StateM_bind. destruct (m w) as [[x|e] w1]; cbn [fst snd] in *; [|by split].
  destruct (Hf x w1 Ha) as [Hq' Ha']. split; [by eapply quiet_trans|done].
Qed.

(** A read whose answer does not matter. *)
Lemma looks_then {A B} (m : StateM W (A + string)) (f : A -> StateM W (B + string)) Q : looks m anything -> (forall x, looks (f x) Q) -> looks (attempt m f) Q.
Proof. intros Hm Hf. eapply looks_attempt; [exact Hm|]. intros x w _. apply Hf. Qed.

Lemma looks_quiet {A} (m : StateM W (A + string)) : (forall w, quiet w (m w).2) -> looks m anything.
Proof. intros Hm w. split; [apply Hm|]. by destruct (m w).1. Qed.

Lemma looks_stop {A} e (P : A -> W -> Prop) : looks (stop e) P.
Proof. by apply looks_answer. Qed.

Lemma interfaces_look : looks net_Interfaces anything.
Proof. apply looks_quiet. intros w. apply cmd_interfaces. Qed.

Lemma DNS_looks svc : looks (darwin_DNS svc) (fun l w => dns_of w svc = l).
Proof.
  unfold darwin_DNS. apply (looks_attempt _ _ (fun out w => forall l, parseDNS out svc = inl l -> l = dns_of w svc)); [intros w; apply cmd_get_dns|]. intros out w Ho. split; [apply quiet_refl|]. cbn.
  destruct (parseDNS out svc) eqn:E; [|done]. cbn. by rewrite (Ho _ eq_refl).
Qed.

Lemma Routes_look : looks darwin_Routes (fun l w => forall r, r ∈ l <-> r ∈ routes_of w).
Proof.
  unfold darwin_Routes. apply (looks_attempt _ _ (fun l w => interface_indexes l = indexes_of w)); [intros w; apply cmd_interfaces|]. intros ifaces w Hi. rewrite Hi.
  destruct (cmd_netstat w) as [Hq Hans]. unfold attempt, mbind, StateM_bind. destruct (Run netstat_path _ w) as [[out|e] w1]; cbn [fst snd] in *; [|by split].
  split; [done|]. cbn in *. destruct (parseRoutes out (indexes_of w)) eqn:E; [|done]. cbn. by apply Hans.
Qed.

Lemma check_interfaces_look ifaces : looks (check_interfaces ifaces) anything.
Proof.
  induction ifaces as [|i ifaces IH]; cbn [check_interfaces]; [by apply looks_answer|]. destruct (negb (if_Up i)); [done|].
  apply looks_then; [apply looks_quiet, cmd_addrs|]. intros addrs. destruct (check_addrs addrs); [apply looks_stop|done].
Qed.

Lemma Discover_looks : looks darwin_Discover (fun b w => bl_DNS b = dns_of w (bl_Service b)).
Proof.
  unfold darwin_Discover. apply looks_then; [apply looks_quiet, cmd_default|]. intros out. destruct (route_fields (lines out) ∅) as [fields|]; [|apply looks_stop].
  cbv zeta. destruct (negb _ || negb _); [apply looks_stop|]. apply looks_then; [apply looks_quiet; intros w; apply cmd_by_name|]. intros iface.
  destruct (negb (if_Up iface)); [apply looks_stop|]. apply looks_then; [apply interfaces_look|]. intros ifaces.
  apply looks_then; [apply check_interfaces_look|]. intros _. apply looks_then; [apply looks_quiet, cmd_order|]. intros order.
  destruct (parseService order _) as [service|e]; [|apply looks_stop]. eapply looks_attempt; [apply DNS_looks|]. intros dns w Hd. split; [apply quiet_refl|]. cbn. by symmetry.
Qed.

Lemma TUN_looks : looks darwin_TUN anything.
Proof.
  unfold darwin_TUN. apply looks_then; [apply interfaces_look|]. intros ifaces. destruct (List.find _ ifaces) as [i|]; [|by apply looks_answer].
  apply looks_then; [apply looks_quiet, cmd_addrs|]. intros addrs. apply looks_answer. intros w. by destruct (tun_addrs _ _).
Qed.

(** What reads leave alone stays as the command left it. *)
Lemma dns_set_quiet svc dns w w1 w2 : dns_set routes_of dns_of boot_of journal_of svc dns w w1 -> quiet w1 w2 -> dns_set routes_of dns_of boot_of journal_of svc dns w w2.
Proof. intros [] []. split; rewrite ?q_dns; auto; try congruence. intros svc' Hn. rewrite q_dns. auto. Qed.

Lemma route_added_quiet r w w1 w2 : route_added routes_of dns_of boot_of journal_of r w w1 -> quiet w1 w2 -> route_added routes_of dns_of boot_of journal_of r w w2.
Proof. intros [] []. split; auto; congruence. Qed.

Lemma SetDNS_law svc dns w : dns_set routes_of dns_of boot_of journal_of svc dns w (darwin_SetDNS svc dns w).2 /\
  answers (darwin_SetDNS svc dns w).1 (fun _ => dns_of (darwin_SetDNS svc dns w).2 svc = dns).
Proof.
  pose proof (cmd_set_dns svc dns w) as Hs. unfold darwin_SetDNS, attempt, mbind, StateM_bind.
  destruct (Run networksetup_path (dns_args svc dns) w) as [[out|e] w1]; cbn [fst snd] in *; [|by split].
  destruct (DNS_looks svc w1) as [Hq Ha]. destruct (darwin_DNS svc w1) as [[l|e] w2]; cbn [fst snd] in *; (split; [|try done]); try (by eapply dns_set_quiet).
  - unfold sameDNS. case_bool_decide; by eapply dns_set_quiet.
  - unfold sameDNS. case_bool_decide as E; cbn; [|done]. cbn in Ha. congruence.
Qed.

Lemma AddRoute_law r w : route_added routes_of dns_of boot_of journal_of r w (darwin_AddRoute r w).2.
Proof.
  pose proof (cmd_add r w) as Hs. unfold darwin_AddRoute, attempt, mbind, StateM_bind.
  destruct (Run route_path (route_args "add" r) w) as [[out|e] w1]; cbn [fst snd] in *; [|done].
  destruct (Routes_look w1) as [Hq _]. destruct (darwin_Routes w1) as [[l|e] w2]; cbn [fst snd] in *; [case_match|]; by eapply route_added_quiet.
Qed.

Lemma DeleteRoute_law r w : quiet w (darwin_DeleteRoute r w).2 /\
  answers (darwin_DeleteRoute r w).1 (fun _ => forall v, v ∈ routes_of (darwin_DeleteRoute r w).2 -> or_Destination v <> or_Destination r).
Proof.
  pose proof (cmd_delete r w) as Hs. unfold darwin_DeleteRoute, mbind, StateM_bind. destruct (Run route_path (route_args "delete" r) w) as [out w1]. cbn [snd] in Hs.
  destruct (Routes_look w1) as [Hq Ha]. destruct (darwin_Routes w1) as [[l|e] w2]; cbn [fst snd] in *; [|split; [by eapply quiet_trans|done]].
  destruct (existsb _ l) eqn:E; cbn; (split; [by eapply quiet_trans|]); [done|]. intros v Hin. apply (no_row_with _ _ E). by apply Ha.
Qed.

End Spec.

(** ** A managed Mac

    Its commands print what they are given and refuse every change. *)
Record Managed := mkManaged { mg_netstat : string; mg_resolvers : string; mg_boot : string; mg_ifaces : list Iface; mg_journal : option networkSnapshot }.

Definition managed_run (path : string) (args : list string) (m : Managed) : (string + string) * Managed :=
  (match args with
   | ["-rn"; "-f"; "inet"] => if path =?s netstat_path then inl (mg_netstat m) else inr "usage"
   | ["-getdnsservers"; _] => inl (mg_resolvers m)
   | _ => inr "not permitted"
   end, m).

#[export] Instance managed_commands : commandRunner Managed := {
  Run := managed_run;
  net_Interfaces m := (inl (mg_ifaces m), m);
  net_InterfaceByName name m := (match List.find (fun i => if_Name i =?s name) (mg_ifaces m) with Some i => inl i | None => inr "no such network interface" end, m);
  net_Addrs _ m := (inl [], m);
  sysctl_bootsessionuuid m := (inl (mg_boot m), m)
}.

Definition with_mg_journal (j : option networkSnapshot) (m : Managed) : Managed := mkManaged (mg_netstat m) (mg_resolvers m) (mg_boot m) (mg_ifaces m) j.

#[export] Instance managed_journal : journal Managed := {
  Load m := (inl (mg_journal m), m);
  Save s m := if bool_decide (NoDup (map or_Destination (ns_Routes s))) then (inl tt, with_mg_journal (Some s) m) else (inr "invalid journal route destination", m);
  Remove m := (inl tt, with_mg_journal None m)
}.

Definition managed_indexes (m : Managed) : gmap string Z := interface_indexes (mg_ifaces m).
Definition managed_routes (m : Managed) : list ownedRoute := match parseRoutes (mg_netstat m) (managed_indexes m) with inl l => l | inr _ => [] end.
Definition managed_dns (m : Managed) (svc : string) : list string := match parseDNS (mg_resolvers m) svc with inl l => l | inr _ => [] end.
Definition managed_session (m : Managed) : string := strings_TrimSpace (mg_boot m).

Lemma managed_command_laws : CommandLaws Managed managed_routes managed_dns managed_session mg_journal managed_indexes.
Proof.
  split; intros; cbn -[parseRoutes parseDNS]; try (by split); try (split; [by split|]).
  - intros l E. unfold managed_dns. by rewrite E.
  - intros l E r. unfold managed_routes. by rewrite E.
  - split; auto.
  - split; auto.
Qed.

Lemma managed_journal_laws : JournalLaws Managed managed_routes managed_dns managed_session mg_journal.
Proof.
  split; intros; cbn -[managed_routes managed_dns]; [by split| |split; [|done]; split; cbn; auto].
  case_bool_decide; cbn -[managed_routes managed_dns]; (split; [split|]); cbn; auto.
Qed.

