(* ===== verification/DarwinProcess.v ===== *)
(** * The core of the macOS service ([internal/platform/darwin/process_darwin.go],
    [process_recovery_darwin.go])

    The core is started through a helper that waits at a gate until its identity is on disk,
    is stopped with its whole process group, and is found again by the record when the
    service was killed. *)
From S2P Require Import Prelude Trail GoText.
From stdpp Require Import list.

#[local] Open Scope string_scope.
#[local] Open Scope Z_scope.
#[local] Open Scope list_scope.

(** ** Data *)
Definition InstallDirectory := "/Library/Application Support/RegenBioAccess".
Definition CorePath := InstallDirectory ++s "/sing-box".
Definition ServicePath := InstallDirectory ++s "/regen-access-service".
Definition PinnedCoreSHA256 := "5b75c1dec19488675f725adc7a6e3a7301a553117af835dc47669b1fa918976b".

Record coreOwnership := mkOwnership { co_Version : Z; co_Boot : string; co_PID : Z; co_StartSec : Z; co_StartUsec : Z; co_CoreSHA256 : string }.

#[export] Instance coreOwnership_eq_dec : EqDecision coreOwnership.
Proof. solve_decision. Defined.

(** [unix.KinfoProc]: the process, its state and its start. *)
Record Kinfo := mkKinfo { ki_pid : Z; ki_stat : Z; ki_sec : Z; ki_usec : Z }.

Definition darwinZombie : Z := 5.

(** [agent.ProcessTermination], with the errors that [errors.Join] collects. *)
Record Termination := mkTermination { pt_Err : list string; pt_Proven : bool }.

Inductive Signal := SIGTERM | SIGKILL.
Inductive KillAnswer := Killed | NoSuchProcess | KillFailed (err : string).

(** ** System calls *)
Class processSystem (W : Type) := {
  (* [kern.proc.pid]; nothing when there is no such process *)
  kinfo : Z -> StateM W (option Kinfo + string);
  getpgid : Z -> StateM W (Z + string);
  procargs2 : Z -> StateM W (list ascii + string);
  bootsession : StateM W (string + string);
  (* the states of the members of a process group *)
  pgrp_states : Z -> StateM W (list Z + string);
  kill_group : Z -> Signal -> StateM W KillAnswer;
  (* [cmd.Wait], unless it takes longer than the bound *)
  wait_core : Z -> StateM W (option (unit + string));
  hash_file : string -> StateM W (string + string);
  verify_installed_launch : string -> string -> StateM W (unit + string);
  protected_path : string -> StateM W (unit + string);
  make_gate : StateM W (unit + string);
  (* the helper with the gate as its third descriptor, in a process group of its own *)
  start_helper : StateM W (Z + string);
  release_gate : Z -> StateM W (unit + string);
  (* the decoded record, of a file that root alone can write *)
  read_record : StateM W (option coreOwnership + string);
  (* the record under a temporary name, synced and renamed *)
  write_record : coreOwnership -> StateM W (unit + string);
  unlink_record : StateM W (unit + string)
}.

Section Process.
Context {W : Type} `{!processSystem W}.

(** The service remembers the instance that it supervises. *)
#[local] Abbreviation M := (Trail.M (option Z) W).

#[local] Notation "'try' x ':=' m 'in' k" := (try_bind m (fun x => k)) (at level 10, x pattern, m at level 100, k at level 200).

(** ** Inspection *)
Definition leaderAlive (pid : Z) : M (bool + string) :=
  try v := sys (kinfo pid) in
  match v with
  | None => fail "inspect owned leader: no such process"
  | Some v => if negb (ki_pid v =? pid) then fail "owned process identity missing" else ok (negb (ki_stat v =? darwinZombie))
  end.

Definition groupEmptyOfLiveProcesses (pid : Z) : M (bool + string) :=
  try members := sys (pgrp_states pid) in
  ok (forallb (fun stat => stat =? darwinZombie) members).

Definition bootID : M (string + string) := try v := sys bootsession in ok (strings_TrimSpace v).

(** The text up to the first zero byte, if there is one. *)
Fixpoint until_nul (l : list ascii) : option string :=
  match l with [] => None | a :: l => if byte_val a =? 0 then Some "" else s ← until_nul l; Some (String a s) end.

(** The path of the executable in [kern.procargs2]. *)
Definition executable_path (args : list ascii) : string + string :=
  if (length args <? 5)%nat then inr "core executable identity unavailable"
  else match until_nul (drop 4 args) with None => inr "invalid core executable identity" | Some path => inl path end.

Definition inspectCore (pid : Z) : M (option coreOwnership + string) :=
  try value := sys (kinfo pid) in
  match value with
  | None => ok None
  | Some value =>
      if ki_pid value =? 0 then ok None
      else if negb (ki_pid value =? pid) then fail "unexpected core PID"
      else
        try group := sys (getpgid pid) in
        if negb (group =? pid) then fail "owned core group changed"
        else
          try args := sys (procargs2 pid) in
          match executable_path args with
          | inr e => fail e
          | inl path =>
              if negb (path =?s CorePath) && negb (path =?s ServicePath) then fail "unrecognized owned executable"
              else
                checked ← sys (kinfo pid);
                match checked with
                | inl (Some c) =>
                    if negb (ki_pid c =? ki_pid value) || negb (ki_sec c =? ki_sec value) || negb (ki_usec c =? ki_usec value)
                    then fail "core identity changed while inspecting executable"
                    else
                      try boot := bootID in
                      ok (Some (mkOwnership 1 boot pid (ki_sec value) (ki_usec value) PinnedCoreSHA256))
                | _ => fail "core identity changed while inspecting executable"
                end
          end
  end.

(** ** The record *)
Definition valid_record (r : coreOwnership) : bool :=
  (co_Version r =? 1) && (1 <? co_PID r) && negb (co_Boot r =?s "") && (0 <? co_StartSec r) && (co_CoreSHA256 r =?s PinnedCoreSHA256).

Definition loadCoreRecord : M (option coreOwnership + string) :=
  try r := sys read_record in
  match r with
  | None => ok None
  | Some r => if valid_record r then ok (Some r) else fail "invalid core ownership record"
  end.

Definition saveCoreRecord (r : coreOwnership) : M (unit + string) :=
  existing ← loadCoreRecord;
  match existing with
  | inl None => sys (write_record r)
  | _ => fail "unresolved owned core journal"
  end.

Definition removeCoreRecord : M (unit + string) := sys unlink_record.

(** ** Recovery *)

(** What happens between two looks at the group. *)
Inductive Wait := Waited | Expired (err : string).

Fixpoint await_empty (pid : Z) (waits : list Wait) : M (unit + string) :=
  try empty := groupEmptyOfLiveProcesses pid in
  if empty : bool then ok tt
  else match waits with
  | Waited :: waits => await_empty pid waits
  | Expired e :: _ => fail e
  | [] => fail "context deadline exceeded"
  end.

Definition signal_recovered (pid : Z) : M (unit + string) :=
  a ← sys (kill_group pid SIGKILL);
  match a with Killed => ok tt | NoSuchProcess => fail "no such process" | KillFailed e => fail e end.

Definition recoverCore (record : coreOwnership) (ctx_err : option string) (waits : list Wait) : M (unit + string) :=
  try boot := bootID in
  if negb (boot =?s co_Boot record) then ok tt
  else
    try identity := inspectCore (co_PID record) in
    match identity with
    | None =>
        try empty := groupEmptyOfLiveProcesses (co_PID record) in
        if empty : bool then ok tt else fail "core leader missing but live process group remains"
    | Some identity =>
        if negb (bool_decide (identity = record)) then fail "core ownership identity changed"
        else match ctx_err with
        | Some e => fail e
        | None =>
            try again := inspectCore (co_PID record) in
            if negb (bool_decide (again = Some record)) then fail "core changed before recovery signal"
            else
              try _ := signal_recovered (co_PID record) in
              await_empty (co_PID record) waits
        end
    end.

Definition RecoverOwnedCore (ctx_err : option string) (waits : list Wait) : M (unit + string) :=
  try record := loadCoreRecord in
  match record with
  | None => ok tt
  | Some record => try _ := recoverCore record ctx_err waits in removeCoreRecord
  end.

(** ** Supervision *)

(** What wakes the watcher; the channel [stop] is closed in the end. *)
Inductive Watch := WatchTick | WatchStop.

Fixpoint watch (pid : Z) (events : list Watch) : M (list string) :=
  match events with
  | WatchTick :: events =>
      alive ← leaderAlive pid;
      match alive with
      | inr e => mret [e]
      | inl true => watch pid events
      | inl false => mret []
      end
  | WatchStop :: _ | [] => mret []
  end.

(** A signal to the group, unless it has no live member; errors of the look do not stop it. *)
Definition signal_group (pid : Z) (sig : Signal) : M (list string) :=
  empty ← groupEmptyOfLiveProcesses pid;
  match empty with
  | inl true => mret []
  | _ =>
      a ← sys (kill_group pid sig);
      mret (match a with KillFailed e => ["signal owned process group: " ++s e] | _ => [] end)
  end.

(** The audit, for as many looks as fit before the deadline. *)
Fixpoint audit (pid : Z) (looks : nat) : M (bool + string) :=
  try empty := groupEmptyOfLiveProcesses pid in
  if empty : bool then ok true
  else match looks with O => ok false | S looks => audit pid looks end.

Definition supervise (pid : Z) (attested : bool) (afterProvenStop : M (unit + string)) (events : list Watch) (looks : nat) : M Termination :=
  monitorErr ← watch pid events;
  termErr ← signal_group pid SIGTERM;
  killErr ← signal_group pid SIGKILL;
  empty ← audit pid looks;
  let auditErr := match empty with inr e => [e] | inl true => [] | inl false => ["owned process group still has live members"] end in
  waited ← sys (wait_core pid);
  let waitErr := match waited with None => ["owned core reap timeout"] | Some (inl _) => [] | Some (inr e) => [e] end in
  let proven := attested && match empty with inl true => true | _ => false end && bool_decide (termErr = []) && bool_decide (killErr = []) && bool_decide (is_Some waited) in
  let errs := monitorErr ++ termErr ++ killErr ++ auditErr ++ waitErr in
  let unattested := if attested then [] else ["process-group containment not attested for this executable"] in
  if proven then
    r ← afterProvenStop;
    mret (match r with
      | inl _ => mkTermination (errs ++ unattested) true
      | inr e => mkTermination (errs ++ [e] ++ unattested) false
      end)
  else mret (mkTermination (errs ++ unattested) false).

(** ** Start *)

(** The outcome of [Start]: its error, whether termination is proven, and the instance. *)
Record StartResult := mkStartResult { sr_Err : list string; sr_Proven : bool; sr_instance : option Z }.

Definition start_failed (e : string) : StartResult := mkStartResult [e] true None.

(** [awaitCoreGate]: what the helper does with what it reads; the end of the file means
    that the service died before it registered the helper. *)
Definition awaitCoreGate (release : option ascii) : unit + string :=
  match release with
  | None => inr "EOF"
  | Some b => if byte_val b =? 71 then inl tt else inr "invalid core gate release"
  end.

(** [afterStart]: the identity of the helper is saved before the gate is released. *)
Definition register_helper (pid : Z) : M (unit + string) :=
  try identity := inspectCore pid in
  match identity with
  | None => fail "core helper exited before ownership capture"
  | Some identity =>
      try _ := saveCoreRecord identity in
      sys (release_gate pid)
  end.

(** A start that goes wrong after the helper runs stops it; [supervised] is what the
    supervision comes to within the time, if it does. *)
Definition stop_started (pid : Z) (errs : list string) (supervised : option (list Watch * nat)) : M StartResult :=
  match supervised with
  | None => mret (mkStartResult (errs ++ ["context deadline exceeded"]) false (Some pid))
  | Some (events, looks) =>
      t ← supervise pid true removeCoreRecord events looks;
      mret (mkStartResult (errs ++ pt_Err t) (pt_Proven t) (Some pid))
  end.

(** The start of [ProcessSupervisor] with the pinned core, as [PersistentProcessSupervisor]
    sets it up; the three errors are those of the context. *)
Definition inner_Start (exe config : string) (ctx1 ctx2 ctx3 : option string) (supervised : option (list Watch * nat)) : M StartResult :=
  match ctx1 with
  | Some e => mret (start_failed e)
  | None =>
      if negb (strings_HasPrefix exe "/") || negb (strings_HasPrefix config "/") then mret (start_failed "absolute verified executable/config paths required")
      else
        h ← sys (hash_file exe);
        match h with
        | inr e => mret (start_failed e)
        | inl h =>
            if negb (h =?s PinnedCoreSHA256) then mret (start_failed "core does not match attested process-group build")
            else match ctx2 with
            | Some e => mret (start_failed e)
            | None =>
                started ← sys start_helper;
                match started with
                | inr e => mret (start_failed e)
                | inl pid =>
                    puts (fun s => mkSt (Some pid) (world s) (trail s)) ≫= fun _ =>
                    registered ← register_helper pid;
                    match registered, ctx3 with
                    | inr e, _ => stop_started pid [e] supervised
                    | inl _, Some e => stop_started pid [e] supervised
                    | inl _, None => mret (mkStartResult [] false (Some pid))
                    end
                end
            end
        end
  end.

Definition Persistent_Start (exe config : string) (ctx1 ctx2 ctx3 : option string) (supervised : option (list Watch * nat)) : M StartResult :=
  verified ← sys (verify_installed_launch exe config);
  match verified with
  | inr e => mret (start_failed e)
  | inl _ =>
      protected ← sys (protected_path ServicePath);
      match protected with
      | inr e => mret (start_failed e)
      | inl _ =>
          record ← loadCoreRecord;
          match record with
          | inl None =>
              gate ← sys make_gate;
              match gate with
              | inr e => mret (start_failed e)
              | inl _ => inner_Start exe config ctx1 ctx2 ctx3 supervised
              end
          | _ => mret (start_failed "unresolved core ownership")
          end
      end
  end.
End Process.
