(* ===== verification/DarwinProcessSpec.v ===== *)
(** * What the record of the core guarantees

    Whatever world the service is killed in, a core that runs is the one that the record
    names; so the recovery of the next service, or its refusal to start, accounts for it. *)
From S2P Require Import Prelude Trail GoText DarwinProcess.
From stdpp Require Import list.

#[local] Open Scope string_scope.
#[local] Open Scope Z_scope.
#[local] Open Scope list_scope.

(** ** The laws of the system *)
Section Quiet.
Context {W : Type} (runs : W -> Z -> Prop) (record_of : W -> option coreOwnership) (boot_of : W -> string).

(** [runs w pid]: a process group whose helper was let through the gate has a live member.
    Nothing but the release of a gate makes one. *)
Record calm (w w' : W) : Prop := {
  cm_runs pid : runs w' pid -> runs w pid;
  cm_record : record_of w' = record_of w;
  cm_boot : boot_of w' = boot_of w
}.

#[export] Instance calm_order : PreOrder calm.
Proof. split; [by split|]. intros w1 w2 w3 [] []. split; [auto|congruence..]. Qed.

Record released (pid : Z) (w w' : W) : Prop := {
  re_runs p : runs w' p -> p = pid \/ runs w p;
  re_record : record_of w' = record_of w;
  re_boot : boot_of w' = boot_of w
}.

Record recorded (r : option coreOwnership) (w w' : W) : Prop := {
  rd_runs p : runs w' p -> runs w p;
  rd_record : record_of w' = record_of w \/ record_of w' = r;
  rd_boot : boot_of w' = boot_of w
}.
End Quiet.

Class ProcessLaws (W : Type) `{!processSystem W} (runs : W -> Z -> Prop) (record_of : W -> option coreOwnership) (boot_of : W -> string) : Prop := {
  law_kinfo pid w : calm runs record_of boot_of w (kinfo pid w).2;
  law_getpgid pid w : calm runs record_of boot_of w (getpgid pid w).2;
  law_procargs pid w : calm runs record_of boot_of w (procargs2 pid w).2;
  law_bootsession w : calm runs record_of boot_of w (bootsession w).2 /\ answers (bootsession w).1 (fun v => strings_TrimSpace v = boot_of (bootsession w).2);
  law_pgrp pid w : calm runs record_of boot_of w (pgrp_states pid w).2 /\
    answers (pgrp_states pid w).1 (fun l => forallb (fun stat => stat =? darwinZombie) l = true -> ~ runs (pgrp_states pid w).2 pid);
  law_kill pid sig w : calm runs record_of boot_of w (kill_group pid sig w).2;
  law_wait pid w : calm runs record_of boot_of w (wait_core pid w).2;
  law_hash path w : calm runs record_of boot_of w (hash_file path w).2;
  law_verify exe config w : calm runs record_of boot_of w (verify_installed_launch exe config w).2;
  law_protected path w : calm runs record_of boot_of w (protected_path path w).2;
  law_gate w : calm runs record_of boot_of w (make_gate w).2;
  law_helper w : calm runs record_of boot_of w (start_helper w).2;
  law_release pid w : released runs record_of boot_of pid w (release_gate pid w).2;
  law_read w : calm runs record_of boot_of w (read_record w).2 /\ answers (read_record w).1 (eq (record_of (read_record w).2));
  law_write r w : recorded runs record_of boot_of (Some r) w (write_record r w).2 /\
    answers (write_record r w).1 (fun _ => record_of (write_record r w).2 = Some r);
  law_unlink w : recorded runs record_of boot_of None w (unlink_record w).2 /\ answers (unlink_record w).1 (fun _ => record_of (unlink_record w).2 = None)
}.

Section Spec.
Context {W : Type} `{!processSystem W} (runs : W -> Z -> Prop) (record_of : W -> option coreOwnership) (boot_of : W -> string).
Context `{!ProcessLaws W runs record_of boot_of}.

#[local] Abbreviation calm := (calm runs record_of boot_of).
#[local] Abbreviation M := (Trail.M (option Z) W).
#[local] Abbreviation reads := (reads (X := option Z) calm).

(** ** Guarded worlds *)

(** A core that runs is of this boot and the record names it. *)
Definition guarded (w : W) : Prop := forall pid, runs w pid -> exists r, record_of w = Some r /\ co_PID r = pid /\ co_Boot r = boot_of w.

Definition idle (w : W) : Prop := forall pid, ~ runs w pid.

Definition dead (pid : Z) (w : W) : Prop := ~ runs w pid.

Lemma guarded_calm w w' : calm w w' -> guarded w -> guarded w'.
Proof. intros [Hr Hrec Hb] Hg pid Hp. rewrite Hrec, Hb. auto. Qed.

Lemma idle_guarded w : idle w -> guarded w.
Proof. intros Hi pid Hp. by apply Hi in Hp. Qed.

Lemma idle_calm w w' : calm w w' -> idle w -> idle w'.
Proof. intros [Hr _ _] Hi pid Hp. by apply (Hi pid), Hr. Qed.

Lemma dead_calm pid w w' : calm w w' -> dead pid w -> dead pid w'.
Proof. intros [Hr _ _] Hd Hp. by apply Hd, Hr. Qed.

(** ** Reads *)
Lemma reads_call {A} (op : StateM W (A + string)) : (forall w, calm w (op w).2) -> reads (fun _ => True) (sys op) (fun r w => answers r (fun _ => True)).
Proof. intros Hop. apply reads_sys. intros w _. split; [apply Hop|by destruct (op w).1]. Qed.

(** A call whose answer does not matter, before reads. *)
Lemma reads_after {A B} (m : M (A + string)) (f : A -> M (B + string)) (Post : B -> W -> Prop) : reads (fun _ => True) m (fun r w => answers r (fun _ => True)) ->
  (forall x, reads (fun _ => True) (f x) (fun r w => answers r (fun y => Post y w))) -> reads (fun _ => True) (try_bind m f) (fun r w => answers r (fun y => Post y w)).
Proof. intros Hm Hf. by apply (reads_try _ _ _ (fun _ _ => True)). Qed.

Lemma leader_reads pid : reads (fun _ => True) (leaderAlive pid) (fun r w => answers r (fun _ => True)).
Proof.
  unfold leaderAlive. apply reads_after; [apply reads_call; intros; apply law_kinfo|]. intros [v|]; [|apply reads_fail].
  destruct (negb _); [apply reads_fail|by apply reads_ok].
Qed.

Lemma group_reads pid : reads (fun _ => True) (groupEmptyOfLiveProcesses pid) (fun r w => answers r (fun empty => empty = true -> dead pid w)).
Proof.
  unfold groupEmptyOfLiveProcesses. apply (reads_try _ _ _ (fun l w => forallb (fun stat => stat =? darwinZombie) l = true -> dead pid w)).
  { apply reads_sys. intros w _. apply law_pgrp. }
  intros l. apply reads_ok. auto.
Qed.

Lemma boot_reads : reads (fun _ => True) bootID (fun r w => answers r (fun v => v = boot_of w)).
Proof.
  unfold bootID. apply (reads_try _ _ _ (fun v w => strings_TrimSpace v = boot_of w)); [apply reads_sys; intros w _; apply law_bootsession|].
  intros v. by apply reads_ok.
Qed.

(** An identity is of the process that was asked for and of this boot. *)
Lemma inspect_reads pid : reads (fun _ => True) (inspectCore pid) (fun r w => answers r (fun i => forall id, i = Some id -> co_PID id = pid /\ co_Boot id = boot_of w)).
Proof.
  unfold inspectCore. apply reads_after; [apply reads_call; intros; apply law_kinfo|]. intros [value|]; [|by apply reads_ok].
  destruct (ki_pid value =? 0); [by apply reads_ok|]. destruct (negb (ki_pid value =? pid)); [apply reads_fail|].
  apply reads_after; [apply reads_call; intros; apply law_getpgid|]. intros group. destruct (negb (group =? pid)); [apply reads_fail|].
  apply reads_after; [apply reads_call; intros; apply law_procargs|]. intros args. destruct (executable_path args) as [path|e]; [|apply reads_fail].
  destruct (negb (path =?s CorePath) && negb (path =?s ServicePath)); [apply reads_fail|].
  eapply (reads_bind _ _ _ (fun _ _ => True)); [apply (reads_sys _ _ (fun _ _ => True)); intros w _; split; [apply law_kinfo|done]|].
  intros [[c|]|e]; try apply reads_fail. destruct (_ || _ || _); [apply reads_fail|].
  apply (reads_try _ _ _ (fun v w => v = boot_of w)); [eapply reads_weaken; [apply boot_reads|done|done]|].
  intros boot. apply reads_ok. by intros w -> id [= <-].
Qed.

Lemma record_reads : reads (fun _ => True) loadCoreRecord (fun r w => answers r (fun x => x = record_of w)).
Proof.
  unfold loadCoreRecord. apply (reads_try _ _ _ (fun x w => record_of w = x)); [apply reads_sys; intros w _; apply law_read|].
  intros [r|]; [destruct (valid_record r); [|apply reads_fail]|]; by apply reads_ok.
Qed.

Lemma await_reads pid waits : reads (fun _ => True) (await_empty pid waits) (fun r w => answers r (fun _ => dead pid w)).
Proof.
  induction waits as [|t waits IH]; cbn [await_empty]; (apply (reads_try _ _ _ (fun empty w => empty = true -> dead pid w)); [apply group_reads|]).
  - intros empty. destruct empty; [apply reads_ok; by auto|apply reads_fail].
  - intros empty. destruct empty; [apply reads_ok; by auto|]. destruct t; [eapply reads_weaken; [exact IH|done|done]|apply reads_fail].
Qed.

(** ** The recovery *)
Definition gone (r : coreOwnership) (w : W) : Prop := co_Boot r = boot_of w -> dead (co_PID r) w.

(** A recovery without an error leaves no process of the record. *)
Lemma recover_reads r ctx_err waits : reads (fun _ => True) (recoverCore r ctx_err waits) (fun x w => answers x (fun _ => gone r w)).
Proof.
  unfold recoverCore. apply (reads_try _ _ _ (fun v w => v = boot_of w)); [apply boot_reads|]. intros boot.
  destruct (boot =?s co_Boot r) eqn:E; cbn [negb].
  2: { apply reads_ok. intros w -> Hb. apply String.eqb_neq in E. congruence. }
  apply (reads_weaken _ (fun _ => True) _ _ (fun x w => answers x (fun _ => gone r w))); [|done|done].
  apply reads_after; [eapply reads_weaken; [apply inspect_reads|done|by intros [] w]|]. intros [identity|].
  - destruct (negb (bool_decide (identity = r))); [apply reads_fail|]. destruct ctx_err; [apply reads_fail|].
    apply reads_after; [eapply reads_weaken; [apply inspect_reads|done|by intros [] w]|]. intros again. destruct (negb (bool_decide (again = Some r))); [apply reads_fail|].
    apply reads_after.
    + unfold signal_recovered. eapply (reads_bind _ _ _ (fun _ _ => True)); [apply (reads_sys _ _ (fun _ _ => True)); intros w _; split; [apply law_kill|done]|].
      intros []; try apply reads_fail. by apply reads_ok.
    + intros _. eapply reads_weaken; [apply await_reads|done|]. intros [] w H; [|done]. by intros _.
  - apply (reads_try _ _ _ (fun empty w => empty = true -> dead (co_PID r) w)); [apply group_reads|]. intros empty. destruct empty; [|apply reads_fail].
    apply reads_ok. intros w H _. by apply H.
Qed.

(** ** Steps of the service *)
#[local] Abbreviation St := (Trail.St (option Z) W).

(** The record, when there is one, is of this instance. *)
Definition mine (pid : Z) (w : W) : Prop := forall r, record_of w = Some r -> co_PID r = pid.

Definition Inv (s : St) : Prop := guarded (world s) /\ forall pid, mgr s = Some pid -> mine pid (world s).

Lemma mine_calm pid w w' : calm w w' -> mine pid w -> mine pid w'.
Proof. intros [_ Hrec _] Hm r. rewrite Hrec. auto. Qed.

(** A run that only reads, in the middle of others. *)
Lemma twp_look {A} (m : M A) Post (Q : A -> St -> Prop) s : reads (fun _ => True) m Post -> guarded (world s) ->
  (forall x s', Post x (world s') -> calm (world s) (world s') -> mgr s' = mgr s -> guarded (world s') -> Q x s') -> twp guarded m Q s.
Proof.
  intros Hm Hg HQ. eapply twp_of_reads; [apply guarded_calm|exact Hm|done|done|]. intros x s' Hp Hq Hm'. apply HQ; try done. by eapply guarded_calm.
Qed.

(** A call that only reads. *)
Lemma twp_call {A} (op : StateM W A) (Q : A -> St -> Prop) s : (forall w, calm w (op w).2) -> guarded (world s) ->
  (forall x s', calm (world s) (world s') -> mgr s' = mgr s -> guarded (world s') -> Q x s') -> twp guarded (sys op) Q s.
Proof. intros Hop Hg HQ. apply (twp_look _ (fun _ _ => True)); [apply reads_sys; intros w _; split; [apply Hop|done]|done|]. auto. Qed.

Lemma watch_reads pid events : reads (fun _ => True) (watch pid events) (fun _ _ => True).
Proof.
  induction events as [|[] events IH]; cbn [watch]; try (eapply reads_weaken; [apply reads_ret|intros w Hw; exact Hw|done]).
  eapply reads_bind; [apply leader_reads|]. intros [[]|e]; [eapply reads_weaken; [exact IH|done|done]|..]; (eapply reads_weaken; [apply reads_ret|intros w Hw; exact Hw|done]).
Qed.

Lemma signal_reads pid sig : reads (fun _ => True) (signal_group pid sig) (fun _ _ => True).
Proof.
  unfold signal_group. eapply reads_bind; [apply group_reads|]. intros r.
  assert (Hk : reads (fun w => answers r (fun empty : bool => empty = true -> dead pid w)) (a ← sys (kill_group pid sig);
    mret (match a with KillFailed e => ["signal owned process group: " ++s e] | _ => [] end)) (fun _ _ => True)).
  { eapply reads_bind; [apply (reads_sys _ _ (fun _ _ => True)); intros w _; split; [apply law_kill|done]|].
    intros a. eapply reads_weaken; [apply reads_ret|intros w Hw; exact Hw|done]. }
  destruct r as [[]|e]; [eapply reads_weaken; [apply reads_ret|intros w Hw; exact Hw|done]|exact Hk|exact Hk].
Qed.

Lemma audit_reads pid looks : reads (fun _ => True) (audit pid looks) (fun r w => answers r (fun empty => empty = true -> dead pid w)).
Proof.
  induction looks as [|looks IH]; cbn [audit]; (apply (reads_try _ _ _ (fun empty w => empty = true -> dead pid w)); [apply group_reads|]); intros empty; destruct empty;
    try (by apply reads_ok; auto); try (by apply reads_ok). eapply reads_weaken; [exact IH|done|done].
Qed.

(** Without its process the record can go. *)
Lemma unlink_ok pid (Q : unit + string -> St -> Prop) s : guarded (world s) -> mine pid (world s) -> dead pid (world s) ->
  (forall x s', guarded (world s') -> idle (world s') -> mgr s' = mgr s -> mine pid (world s') -> (x = inl tt -> record_of (world s') = None) -> Q x s') -> twp guarded removeCoreRecord Q s.
Proof.
  intros Hg Hm Hd HQ. unfold removeCoreRecord. pose proof (law_unlink (world s)) as [[H1 H2 H3] Hans].
  assert (Hi : idle (unlink_record (world s)).2) by (intros p Hp%H1; destruct (Hg p Hp) as (r & Hr & E & _); apply Hm in Hr; subst; by apply Hd).
  apply twp_sys; [by apply idle_guarded|]. apply HQ; cbn; [by apply idle_guarded|done|done| |].
  - intros r Hr. apply Hm. destruct H2 as [<- | E]; [done|congruence].
  - intros E. by rewrite E in Hans.
Qed.

Lemma supervise_ok pid attested events looks s : guarded (world s) -> mine pid (world s) ->
  twp guarded (supervise pid attested removeCoreRecord events looks)
    (fun t s' => guarded (world s') /\ mine pid (world s') /\ mgr s' = mgr s /\ (pt_Proven t = true -> dead pid (world s') /\ record_of (world s') = None)) s.
Proof.
  intros Hg Hm. unfold supervise. apply twp_bind, (twp_look _ _ _ _ (watch_reads pid events)); [done|]. intros monitorErr s1 _ Hq1 Hm1 Hg1.
  apply twp_bind, (twp_look _ _ _ _ (signal_reads pid SIGTERM)); [done|]. intros termErr s2 _ Hq2 Hm2 Hg2.
  apply twp_bind, (twp_look _ _ _ _ (signal_reads pid SIGKILL)); [done|]. intros killErr s3 _ Hq3 Hm3 Hg3.
  apply twp_bind, (twp_look _ _ _ _ (audit_reads pid looks)); [done|]. intros empty s4 Hdead Hq4 Hm4 Hg4.
  apply twp_bind, twp_call; [apply law_wait|done|]. intros waited s5 Hq5 Hm5 Hg5.
  assert (Hq : calm (world s) (world s5)) by (etrans; [exact Hq1|]; etrans; [exact Hq2|]; etrans; [exact Hq3|]; by etrans).
  assert (Hm' : mine pid (world s5)) by (by eapply mine_calm). assert (Emgr : mgr s5 = mgr s) by congruence.
  destruct (attested && match empty with inl true => true | _ => false end && bool_decide (termErr = []) && bool_decide (killErr = []) && bool_decide (is_Some waited)) eqn:E;
    [|by apply twp_ret].
  assert (Hd : dead pid (world s5)).
  { eapply dead_calm; [exact Hq5|]. do 3 (apply andb_true_iff in E as [E _]). apply andb_true_iff in E as [_ E]. destruct empty as [[]|]; try done. by apply Hdead. }
  apply twp_bind, (unlink_ok pid); [done..|]. intros r s6 Hg6 Hi6 Hm6 Hmine6 Hrec6. apply twp_ret.
  split; [done|]. split; [done|]. split; [congruence|]. destruct r as [[]|]; [|done]. intros _. split; [apply Hi6|by apply Hrec6].
Qed.

(** ** Starting *)
Lemma record_saved_ok r (Q : unit + string -> St -> Prop) s : idle (world s) -> record_of (world s) = None ->
  (forall x s', idle (world s') -> mgr s' = mgr s -> boot_of (world s') = boot_of (world s) -> (record_of (world s') = None \/ record_of (world s') = Some r) ->
    (x = inl tt -> record_of (world s') = Some r) -> Q x s') -> twp guarded (saveCoreRecord r) Q s.
Proof.
  intros Hi Hn HQ. unfold saveCoreRecord. apply twp_bind, (twp_look _ _ _ _ record_reads); [by apply idle_guarded|]. intros existing s1 Hx Hq1 Hm1 _.
  assert (Hi1 : idle (world s1)) by (by eapply idle_calm). assert (Hn1 : record_of (world s1) = None) by (by rewrite (cm_record _ _ _ _ _ Hq1)).
  pose proof (cm_boot _ _ _ _ _ Hq1) as Hb1. destruct existing as [[x|]|e]; [apply twp_ret, HQ; auto; done| |apply twp_ret, HQ; auto; done].
  pose proof (law_write r (world s1)) as [[H1 H2 H3] Hans]. assert (Hi2 : idle (write_record r (world s1)).2) by (intros p Hp%H1; by apply (Hi1 p)).
  apply twp_sys; [by apply idle_guarded|]. apply HQ; cbn; [done|done|congruence|rewrite Hn1 in H2; tauto|]. intros E. by rewrite E in Hans.
Qed.

Lemma register_ok pid s : idle (world s) -> record_of (world s) = None ->
  twp guarded (register_helper pid) (fun _ s' => guarded (world s') /\ mine pid (world s') /\ mgr s' = mgr s) s.
Proof.
  intros Hi Hn. unfold register_helper. apply twp_try, (twp_look _ _ _ _ (inspect_reads pid)); [by apply idle_guarded|]. intros identity s1 Hid Hq1 Hm1 Hg1.
  assert (Hi1 : idle (world s1)) by (by eapply idle_calm). assert (Hn1 : record_of (world s1) = None) by (by rewrite (cm_record _ _ _ _ _ Hq1)).
  assert (Hmine1 : mine pid (world s1)) by (intros r Hr; congruence).
  destruct identity as [[identity|]|e]; [|by apply twp_ret|done]. destruct (Hid _ eq_refl) as [Hpid Hboot].
  apply twp_try, record_saved_ok; [done|done|]. intros x s2 Hi2 Hm2 Hb2 Hrec2 Hok2.
  assert (Hmine2 : mine pid (world s2)) by (intros r Hr; destruct Hrec2; congruence).
  destruct x as [[]|e]; [|by split; [apply idle_guarded|split; [|congruence]]]. specialize (Hok2 eq_refl).
  pose proof (law_release pid (world s2)) as [H1 H2 H3].
  assert (Hg3 : guarded (release_gate pid (world s2)).2).
  { intros p Hp. destruct (H1 p Hp) as [-> | Hr]; [|by apply Hi2 in Hr]. exists identity. rewrite H2, H3. split; [done|]. split; [done|]. congruence. }
  apply twp_sys; [done|]. split; [done|]. cbn. split; [|congruence]. intros r. rewrite H2. apply Hmine2.
Qed.

Lemma stop_started_ok pid errs supervised s : guarded (world s) -> mine pid (world s) -> mgr s = Some pid ->
  twp guarded (stop_started pid errs supervised) (fun _ s' => Inv s') s.
Proof.
  intros Hg Hm Hs. unfold stop_started. destruct supervised as [[events looks]|].
  - apply twp_bind. eapply twp_mono; [|by apply supervise_ok]. intros t s' (Hg' & Hm' & E & _). apply twp_ret. split; [done|]. rewrite E, Hs. by intros p [= <-].
  - apply twp_ret. split; [done|]. rewrite Hs. by intros p [= <-].
Qed.

Lemma inner_Start_ok exe config c1 c2 c3 supervised s : idle (world s) -> record_of (world s) = None -> mgr s = None ->
  twp guarded (inner_Start exe config c1 c2 c3 supervised) (fun _ s' => Inv s') s.
Proof.
  intros Hi Hn Hs. unfold inner_Start. assert (HI : Inv s) by (split; [by apply idle_guarded|rewrite Hs; done]). destruct c1; [by apply twp_ret|].
  destruct (negb (strings_HasPrefix exe "/") || negb (strings_HasPrefix config "/")); [by apply twp_ret|].
  apply twp_bind, twp_call; [apply law_hash|apply HI|]. intros h s1 Hq1 Hm1 Hg1. assert (HI1 : Inv s1) by (split; [done|rewrite Hm1, Hs; done]).
  destruct h as [h|]; [|by apply twp_ret]. destruct (negb (h =?s PinnedCoreSHA256)); [by apply twp_ret|]. destruct c2; [by apply twp_ret|].
  apply twp_bind, twp_call; [apply law_helper|done|]. intros started s2 Hq2 Hm2 Hg2. destruct started as [pid|]; [|apply twp_ret; split; [done|]; rewrite Hm2, Hm1, Hs; done].
  apply twp_bind. split; [|by exists []]. cbn [fst snd puts]. apply twp_bind. assert (Hq : calm (world s) (world s2)) by (by etrans).
  eapply twp_mono; [|apply register_ok; cbn; [by eapply idle_calm|by rewrite (cm_record _ _ _ _ _ Hq)]].
  intros registered s3 (Hg3 & Hm3 & E3). cbn in E3. destruct registered as [?|e]; [|by apply stop_started_ok].
  destruct c3; [by apply stop_started_ok|]. apply twp_ret. split; [done|]. rewrite E3. by intros p [= <-].
Qed.

Lemma Start_ok exe config c1 c2 c3 supervised s : Inv s -> mgr s = None -> twp guarded (Persistent_Start exe config c1 c2 c3 supervised) (fun _ s' => Inv s') s.
Proof.
  intros HI Hs. unfold Persistent_Start. apply twp_bind, twp_call; [apply law_verify|apply HI|]. intros v s1 Hq1 Hm1 Hg1.
  assert (Hn : forall s', guarded (world s') -> mgr s' = None -> Inv s') by (intros s' ? E; split; [done|rewrite E; done]).
  destruct v as [?|e]; [|apply twp_ret, Hn; [done|congruence]]. apply twp_bind, twp_call; [apply law_protected|done|]. intros v s2 Hq2 Hm2 Hg2.
  destruct v as [?|e]; [|apply twp_ret, Hn; [done|congruence]]. apply twp_bind, (twp_look _ _ _ _ record_reads); [done|]. intros record s3 Hrec Hq3 Hm3 Hg3.
  destruct record as [[r|]|e]; [apply twp_ret, Hn; [done|congruence]| |apply twp_ret, Hn; [done|congruence]]. cbn in Hrec.
  assert (Hi3 : idle (world s3)) by (intros p Hp; destruct (Hg3 p Hp) as (r & Hr & _); congruence).
  apply twp_bind, twp_call; [apply law_gate|done|]. intros g s4 Hq4 Hm4 Hg4. destruct g as [?|e]; [|apply twp_ret, Hn; [done|congruence]].
  apply inner_Start_ok; [by eapply idle_calm|by rewrite (cm_record _ _ _ _ _ Hq4)|congruence].
Qed.

(** A recovery without an error leaves nothing running and no record. *)
Lemma Recover_ok ctx_err waits s : guarded (world s) ->
  twp guarded (RecoverOwnedCore ctx_err waits) (fun r s' => guarded (world s') /\ mgr s' = mgr s /\ (r = inl tt -> idle (world s') /\ record_of (world s') = None)) s.
Proof.
  intros Hg. unfold RecoverOwnedCore. apply twp_try, (twp_look _ _ _ _ record_reads); [done|]. intros record s1 Hrec Hq1 Hm1 Hg1.
  destruct record as [[r|]|e]; [| |by split]. all: cbn in Hrec.
  2: { apply twp_ret. split; [done|]. split; [done|]. intros _. split; [|done]. intros p Hp. destruct (Hg1 p Hp) as (r & Hr & _). congruence. }
  apply twp_try, (twp_look _ _ _ _ (recover_reads r ctx_err waits)); [done|]. intros x s2 Hgone Hq2 Hm2 Hg2. destruct x as [?|e]; [|split; [done|]; split; [congruence|done]].
  assert (Hr2 : record_of (world s2) = Some r) by (by rewrite (cm_record _ _ _ _ _ Hq2)). cbn in Hgone.
  assert (Hd : dead (co_PID r) (world s2)) by (intros Hp; destruct (Hg2 _ Hp) as (r' & E & _ & Hb); assert (r' = r) as -> by congruence; by apply (Hgone Hb)).
  apply (unlink_ok (co_PID r)); [done|intros r' E; congruence|done|]. intros y s3 Hg3 Hi3 Hm3 _ Hn3. split; [done|]. split; [congruence|]. intros E. auto.
Qed.
End Spec.

(** ** Properties of the core of the macOS service

    A running core is always recorded, a recovery or a proven stop leaves nothing running,
    and a recovery only signals the process that the record names. *)


Section Props.
Context {W : Type} `{!processSystem W} (runs : W -> Z -> Prop) (record_of : W -> option coreOwnership) (boot_of : W -> string).
Context `{!ProcessLaws W runs record_of boot_of}.

#[local] Abbreviation calm := (calm runs record_of boot_of).
#[local] Abbreviation guarded := (guarded runs record_of boot_of).
#[local] Abbreviation idle := (idle runs).
#[local] Abbreviation St := (Trail.St (option Z) W).

(** ** Lives of the service *)

(** A restart of the machine ends every process; the record stays. *)
Record reboots (w w' : W) : Prop := { rb_idle : idle w'; rb_record : record_of w' = record_of w }.

(** A supervision ends with the instance let go. *)
Definition supervised (pid : Z) (events : list Watch) (looks : nat) (s : St) : Termination * St :=
  let '(t, s') := supervise pid true removeCoreRecord events looks s in (t, mkSt None (world s') (trail s')).

(** Starts, supervisions and recoveries in any order, the service killed in any world on the
    way and started again, the machine restarted, the world moving on. *)
Inductive life : St -> Prop :=
| life_begin w : idle w -> record_of w = None -> life (mkSt None w [])
| life_start exe config c1 c2 c3 stop s : life s -> mgr s = None -> life (Persistent_Start exe config c1 c2 c3 stop s).2
| life_supervise pid events looks s : life s -> mgr s = Some pid -> life (supervised pid events looks s).2
| life_recover ctx_err waits s : life s -> mgr s = None -> life (RecoverOwnedCore ctx_err waits s).2
| life_killed w s : life s -> w ∈ trail s -> life (mkSt None w [])
| life_rebooted w w' s : life s -> w ∈ trail s \/ w = world s -> reboots w w' -> life (mkSt None w' [])
| life_moves w' s : life s -> calm (world s) w' -> life (mkSt (mgr s) w' (w' :: trail s)).

Lemma core_life_ok s : life s -> Inv runs record_of boot_of s /\ Forall guarded (trail s).
Proof.
  assert (Hnone : forall w l, guarded w -> Inv runs record_of boot_of (mkSt None w l)) by (by split).
  induction 1 as [w Hi Hn|exe config c1 c2 c3 stop s Hl [HI Ht] Hs|pid events looks s Hl [HI Ht] Hs|ctx_err waits s Hl [HI Ht] Hs|w s Hl [HI Ht] Hw|w w' s Hl [HI Ht] Hw Hr|w' s Hl [HI Ht] Hq].
  - split; [|done]. by apply Hnone, idle_guarded.
  - destruct (Start_ok runs record_of boot_of exe config c1 c2 c3 stop s HI Hs) as [HI' (l & -> & Hall)]. split; [done|]. by apply Forall_app.
  - destruct (supervise_ok runs record_of boot_of pid true events looks s (proj1 HI) (proj2 HI _ Hs)) as [(Hg & _) (l & E & Hall)]. unfold supervised.
    destruct (supervise pid true removeCoreRecord events looks s) as [t s']. cbn [fst snd] in *. split; [by apply Hnone|]. cbn. rewrite E. by apply Forall_app.
  - destruct (Recover_ok runs record_of boot_of ctx_err waits s (proj1 HI)) as [(Hg & E & _) (l & -> & Hall)]. split; [|by apply Forall_app].
    split; [done|]. rewrite E, Hs. done.
  - split; [|done]. apply Hnone. by eapply Forall_forall in Hw.
  - split; [|done]. apply Hnone, idle_guarded. apply Hr.
  - pose proof (guarded_calm _ _ _ _ _ Hq (proj1 HI)) as Hg. split; [|by constructor]. split; [done|]. cbn. intros pid Hp. eapply mine_calm; [exact Hq|by apply HI].
Qed.

(** The worlds that a life goes through. *)
Definition visits (s : St) (w : W) : Prop := life s /\ (w ∈ trail s \/ w = world s).

Lemma visited_guarded s w : visits s w -> guarded w.
Proof. intros [[HI Ht]%core_life_ok [Hw| ->]]; [by eapply Forall_forall in Hw|apply HI]. Qed.

(** C11. Whatever the service does and wherever it is killed, a core that runs is of this boot
    and the record on disk names it: no core is ever left that the next service does not
    know of. *)
Theorem running_core_is_recorded s w pid : visits s w -> runs w pid -> exists r, record_of w = Some r /\ co_PID r = pid /\ co_Boot r = boot_of w.
Proof. intros Hv%visited_guarded. apply Hv. Qed.

(** C12. The next service that recovers without an error leaves no core running and no record,
    wherever the last one was killed. *)
Theorem recovered_core_is_gone s w ctx_err waits : visits s w ->
  let r := RecoverOwnedCore ctx_err waits (mkSt None w []) in r.1 = inl tt -> idle (world r.2) /\ record_of (world r.2) = None.
Proof.
  intros Hv%visited_guarded. destruct (Recover_ok runs record_of boot_of ctx_err waits (mkSt None w []) Hv) as [(_ & _ & Hr) _]. exact Hr.
Qed.

(** C13. A stop that reports termination as proven has ended the core with its whole group, and
    removed its record. *)
Theorem proven_stop_ends_the_core s pid events looks : life s -> mgr s = Some pid ->
  let r := supervised pid events looks s in pt_Proven r.1 = true -> ~ runs (world r.2) pid /\ record_of (world r.2) = None.
Proof.
  intros [HI _]%core_life_ok Hs. destruct (supervise_ok runs record_of boot_of pid true events looks s (proj1 HI) (proj2 HI _ Hs)) as [(_ & _ & _ & Hp) _].
  cbv zeta. unfold supervised. destruct (supervise pid true removeCoreRecord events looks s) as [t s']. exact Hp.
Qed.
End Props.

(** ** Whom a recovery signals *)
Section Signals.
Context {W : Type} `{!processSystem W} (untouched : W -> W -> Prop) `{!PreOrder untouched}.

(** Looking at processes touches none of them. *)
Record harmless_looks : Prop := {
  hl_kinfo pid w : untouched w (kinfo pid w).2;
  hl_getpgid pid w : untouched w (getpgid pid w).2;
  hl_procargs pid w : untouched w (procargs2 pid w).2;
  hl_boot w : untouched w (bootsession w).2;
  hl_pgrp pid w : untouched w (pgrp_states pid w).2
}.
Context (Hlooks : harmless_looks).

#[local] Abbreviation reads := (reads (X := option Z) untouched).
#[local] Abbreviation St := (Trail.St (option Z) W).
#[local] Abbreviation M := (Trail.M (option Z) W).

Definition looks {A} (m : M A) : Prop := reads (fun _ => True) m (fun _ _ => True).

Lemma looks_ret {A} (x : A) : looks (mret x).
Proof. eapply reads_weaken; [apply reads_ret|intros w Hw; exact Hw|done]. Qed.

Lemma looks_call {A} (op : StateM W A) : (forall w, untouched w (op w).2) -> looks (sys op).
Proof. intros Hop. apply reads_sys. intros w _. by split. Qed.

Lemma looks_bind {A B} (m : M A) (f : A -> M B) : looks m -> (forall x, looks (f x)) -> looks (m ≫= f).
Proof. intros Hm Hf. eapply reads_bind; [exact Hm|exact Hf]. Qed.

Lemma looks_try {A B} (m : M (A + string)) (f : A -> M (B + string)) : looks m -> (forall x, looks (f x)) -> looks (try_bind m f).
Proof. intros Hm Hf. apply looks_bind; [done|]. intros [x|e]; [apply Hf|apply looks_ret]. Qed.

Lemma boot_looks : looks bootID.
Proof. apply looks_try; [apply looks_call, Hlooks|]. intros v. apply looks_ret. Qed.

Lemma group_looks pid : looks (groupEmptyOfLiveProcesses pid).
Proof. apply looks_try; [apply looks_call; intros; apply Hlooks|]. intros l. apply looks_ret. Qed.

Lemma inspect_looks pid : looks (inspectCore pid).
Proof.
  unfold inspectCore. apply looks_try; [apply looks_call; intros; apply Hlooks|]. intros [value|]; [|apply looks_ret].
  destruct (ki_pid value =? 0); [apply looks_ret|]. destruct (negb _); [apply looks_ret|].
  apply looks_try; [apply looks_call; intros; apply Hlooks|]. intros group. destruct (negb _); [apply looks_ret|].
  apply looks_try; [apply looks_call; intros; apply Hlooks|]. intros args. destruct (executable_path args); [|apply looks_ret]. destruct (_ && _); [apply looks_ret|].
  apply looks_bind; [apply looks_call; intros; apply Hlooks|]. intros [[c|]|e]; try apply looks_ret. destruct (_ || _); [apply looks_ret|].
  apply looks_try; [apply boot_looks|]. intros boot. apply looks_ret.
Qed.

Lemma await_looks pid waits : looks (await_empty pid waits).
Proof.
  induction waits as [|t waits IH]; cbn [await_empty]; (apply looks_try; [apply group_looks|]); intros empty; (destruct empty; [apply looks_ret|]); [apply looks_ret|].
  destruct t; [exact IH|apply looks_ret].
Qed.

Lemma looked {A} (m : M A) s : looks m -> untouched (world s) (world (m s).2).
Proof. intros Hm. by destruct (Hm s I) as (? & _). Qed.

End Signals.
