(* ===== verification/DarwinProcessDemo.v ===== *)
(** * A core on a small system

    Process groups, the gates that were released and the record, with the laws of the
    system discharged; a service that is killed while its core runs, and a proven stop. *)
From S2P Require Import Prelude Trail GoText DarwinProcess DarwinProcessSpec.
From stdpp Require Import list.

#[local] Open Scope string_scope.
#[local] Open Scope Z_scope.
#[local] Open Scope list_scope.

Record MacOs := mkMacOs { os_live : list Z; os_released : list Z; os_record : option coreOwnership; os_boot : string; os_next : Z }.

Definition procargs_of (path : string) : list ascii := repeat (byte_of 1) 4 ++ String.list_ascii_of_string path ++ [byte_of 0].

Definition set_live (l : list Z) (o : MacOs) : MacOs := mkMacOs l (os_released o) (os_record o) (os_boot o) (os_next o).
Definition set_record (r : option coreOwnership) (o : MacOs) : MacOs := mkMacOs (os_live o) (os_released o) r (os_boot o) (os_next o).
Definition set_released (l : list Z) (o : MacOs) : MacOs := mkMacOs (os_live o) l (os_record o) (os_boot o) (os_next o).
Definition without (pid : Z) (l : list Z) : list Z := filter (fun p => p <> pid) l.

#[export] Instance macos : processSystem MacOs := {
  kinfo pid o := (inl (if bool_decide (pid ∈ os_live o) then Some (mkKinfo pid 2 100 0) else None), o);
  getpgid pid o := (inl pid, o);
  procargs2 _ o := (inl (procargs_of ServicePath), o);
  bootsession o := (inl (os_boot o), o);
  pgrp_states pid o := (inl (if bool_decide (pid ∈ os_live o) then [2] else [darwinZombie]), o);
  kill_group pid sig o := match sig with SIGTERM => (Killed, o) | SIGKILL => (Killed, set_live (without pid (os_live o)) o) end;
  wait_core _ o := (Some (inl tt), o);
  hash_file _ o := (inl PinnedCoreSHA256, o);
  verify_installed_launch _ _ o := (inl tt, o);
  protected_path _ o := (inl tt, o);
  make_gate o := (inl tt, o);
  start_helper o := (inl (os_next o), mkMacOs (os_next o :: os_live o) (without (os_next o) (os_released o)) (os_record o) (os_boot o) (os_next o + 1));
  release_gate pid o := (inl tt, set_released (pid :: os_released o) o);
  read_record o := (inl (os_record o), o);
  write_record r o := (inl tt, set_record (Some r) o);
  unlink_record o := (inl tt, set_record None o)
}.

Definition os_runs (o : MacOs) (pid : Z) : Prop := pid ∈ os_live o /\ pid ∈ os_released o.
Definition os_session (o : MacOs) : string := strings_TrimSpace (os_boot o).

#[export] Instance macos_laws : ProcessLaws MacOs os_runs os_record os_session.
Proof.
  split; intros; cbn; try (by split).
  - split; [by split|]. cbn. case_bool_decide as E; [done|]. intros _ [Hl _]. done.
  - destruct sig; split; cbn; try done. intros p [Hl Hr]. split; [|done]. by apply list_elem_of_filter in Hl as [_ Hl].
  - split; cbn; try done. intros p [Hl Hr]. cbn in *. apply list_elem_of_filter in Hr as [Hn Hr]. split; [|done]. apply elem_of_cons in Hl as [->|]; done.
  - split; cbn; try done. intros p [Hl Hr]. cbn in *. apply elem_of_cons in Hr as [->|Hr]; [by left|by right].
  - split; [|done]. split; cbn; auto.
  - split; [|done]. split; cbn; auto.
Qed.

Definition os0 : MacOs := mkMacOs [] [] None "boot-1" 501.
Definition core_config := InstallDirectory ++s "/state/sing-box.json".

(** The service starts its core. *)
Definition core_up : Trail.St (option Z) MacOs := (Persistent_Start CorePath core_config None None None None (mkSt None os0 [])).2.

Lemma os_lives : life os_runs os_record os_session core_up.
Proof. apply life_start; [|done]. apply life_begin; [|done]. by intros p [Hl%not_elem_of_nil _]. Qed.

Lemma core_visited : visits os_runs os_record os_session core_up (world core_up).
Proof. split; [exact os_lives|by right]. Qed.

Lemma running_core_is_recorded_witness : exists r, os_record (world core_up) = Some r /\ co_PID r = 501 /\ co_Boot r = os_session (world core_up).
Proof. apply (running_core_is_recorded os_runs os_record os_session core_up (world core_up) 501 core_visited). split; vm_compute; by left. Defined.

(** The service is killed; the next one recovers. *)
Definition recovered : (unit + string) * Trail.St (option Z) MacOs := RecoverOwnedCore None [Waited] (mkSt None (world core_up) []).

Lemma recovered_core_is_gone_witness : os_record (world recovered.2) = None /\ ~ os_runs (world recovered.2) 501.
Proof.
  destruct (recovered_core_is_gone os_runs os_record os_session core_up (world core_up) None [Waited] core_visited) as [Hi Hr]; [vm_compute; reflexivity|].
  split; [exact Hr|apply Hi].
Defined.

Lemma proven_stop_ends_the_core_witness : ~ os_runs (world (supervised 501 [WatchStop] 3 core_up).2) 501.
Proof.
  apply (proven_stop_ends_the_core os_runs os_record os_session core_up 501 [WatchStop] 3 os_lives); vm_compute; reflexivity.
Defined.

(** No process ended between two states. *)
Definition none_ended (o o' : MacOs) : Prop := os_live o ⊆ os_live o'.

Lemma none_ended_order : PreOrder none_ended.
Proof. split; [intros o x Hx; exact Hx|]. intros a b c H1 H2 x Hx. apply H2, H1, Hx. Qed.

