(* ===== verification/InstallPackage.v ===== *)
(** * The package of the macOS installer ([scripts/macos/installer/package.go], [owner.go],
    [launch_wait.go], [main.go])

    The manifest of a package and the check of its tree, the owner of an installation, what
    an answer of [launchctl] means, and the order of the steps of an installation with its
    rollback. *)
From S2P Require Import Prelude Trail GoText NativeNetwork DarwinSystem CoreVerify FilePath.
From stdpp Require Import list gmap pretty.

#[local] Open Scope string_scope.
#[local] Open Scope Z_scope.
#[local] Open Scope list_scope.

#[local] Notation "'try' x ':=' m 'in' k" := (try_bind m (fun x => k)) (at level 10, x pattern, m at level 100, k at level 200).

(** ** Constants *)

(** Texts with double quotes are written with single ones. *)
Fixpoint quotes (s : string) : string :=
  match s with "" => "" | String a s => String (if byte_val a =? 39 then byte_of 34 else a) (quotes s) end.

Definition installRoot := "/Library/Application Support/RegenBioAccess".
Definition plistPath := "/Library/LaunchDaemons/com.regenbio.access.poc.plist".
Definition runtimeRoot := "/private/var/run/regen-access".
Definition label := "com.regenbio.access.poc".
Definition coreDigest := "5b75c1dec19488675f725adc7a6e3a7301a553117af835dc47669b1fa918976b".
Definition caDigest := "0d344a6f39fd4252c96f0e5606e2f4e7205cb2e59c44603c542aa8c132a711f8".
Definition caSHA1 := "7903068AAA22CA51185706C23611E6B5EEEF2729".
Definition appName := "RegenBio Access.app".
Definition fixedPolicy := quotes "{'schema_version':2,'mode':'poc','nodes':[{'id':'vm101','transport':'http-connect','address':'172.20.9.15','port':8080,'priority':10}],'corporate_cidrs':['172.20.8.0/22'],'corporate_dns':['172.20.9.1','172.20.9.2'],'internal_suffixes':['ad.intra.regen-bio.com','intra.regen-bio.com'],'block_udp':true,'block_quic':true,'credential':{'kind':'','path':''}}".

(** ** Data *)
Record entry := mkEntry { en_Path : string; en_Kind : string; en_SHA256 : string; en_Target : string; en_Executable : bool }.
Record manifest := mkManifest { mf_Version : Z; mf_Files : list entry }.
Record account := mkAccount { ac_Name : string; ac_UID : Z; ac_Home : string }.
Record receipt := mkReceipt { rc_Version : Z; rc_OwnerUID : Z; rc_CAAdded : bool; rc_CASHA256 : string }.

#[export] Instance account_eq_dec : EqDecision account.
Proof. solve_decision. Defined.

(** How a native program ended, when not well. *)
Inductive CommandError := ExitStatus (code : Z) | DeadlineExceeded | Canceled | OtherError (text : string).

(** [launchPlist]: the job of the service. *)
Definition launchPlist : string := string_concat (map (fun l => quotes l ++s String newline "")
  ["<?xml version='1.0' encoding='UTF-8'?>";
   "<!DOCTYPE plist PUBLIC '-//Apple//DTD PLIST 1.0//EN' 'http://www.apple.com/DTDs/PropertyList-1.0.dtd'>";
   "<plist version='1.0'><dict>";
   "<key>Label</key><string>com.regenbio.access.poc</string>";
   "<key>ProgramArguments</key><array><string>/Library/Application Support/RegenBioAccess/regen-access-service</string></array>";
   "<key>UserName</key><string>root</string><key>GroupName</key><string>wheel</string>";
   "<key>RunAtLoad</key><true/><key>KeepAlive</key><true/>";
   "<key>AbandonProcessGroup</key><false/><key>ExitTimeOut</key><integer>100</integer>";
   "<key>ThrottleInterval</key><integer>10</integer><key>Umask</key><integer>63</integer>";
   "<key>EnvironmentVariables</key><dict><key>PATH</key><string>/usr/bin:/bin:/usr/sbin:/sbin</string></dict>";
   "<key>WorkingDirectory</key><string>/Library/Application Support/RegenBioAccess</string>";
   "</dict></plist>"]).

(** ** Names *)
Definition bad_name_byte (a : ascii) : bool := existsb (fun b => byte_val a =? b) [92; 58; 0; 13; 10].

Definition safeName (p : string) : bool :=
  negb (p =?s "") && negb (p =?s ".") && (Clean p =?s p) && negb (rooted p) && negb (strings_HasPrefix p "../") && string_all (fun a => negb (bad_name_byte a)) p.

Definition safeLink (p target : string) : bool :=
  if negb (strings_HasPrefix p (appName ++s "/")) || (target =?s "") || rooted target || negb (string_all (fun a => negb (bad_name_byte a)) target) then false
  else strings_HasPrefix (Clean (FilePath.Join (Dir p) target)) (appName ++s "/").

(** ** The manifest *)
Definition is_sha256 (s : string) : bool := (String.length s =? 64)%nat && string_all is_hex_digit s.

Definition entry_error (e : entry) : option string :=
  if en_Kind e =?s "dir" then
    if negb (en_SHA256 e =?s "") || negb (en_Target e =?s "") || en_Executable e then Some "invalid directory" else None
  else if en_Kind e =?s "file" then
    if negb (is_sha256 (en_SHA256 e)) || negb (en_Target e =?s "") then Some "invalid file" else None
  else if en_Kind e =?s "link" then
    if negb (safeLink (en_Path e) (en_Target e)) || negb (en_SHA256 e =?s "") || en_Executable e then Some "unsafe link" else None
  else Some "invalid kind".

Section Manifest.
Context `{!UnicodeTables}.

(** The paths seen so far are kept in lower case. *)
Fixpoint check_entries (seen : gset string) (l : list entry) : option string :=
  match l with
  | [] => None
  | e :: l =>
      if negb (safeName (en_Path e)) || bool_decide (strings_ToLower (en_Path e) ∈ seen) then Some "unsafe or duplicate path"
      else match entry_error e with
      | Some err => Some err
      | None => check_entries ({[strings_ToLower (en_Path e)]} ∪ seen) l
      end
  end.

Definition manifest_error (m : manifest) : option string :=
  if negb (mf_Version m =? 1) || bool_decide (mf_Files m = []) then Some "invalid manifest" else check_entries ∅ (mf_Files m).

(** [strictJSON] decodes a manifest; [json.Marshal] encodes it. *)
Context (decode : string -> manifest + string) (encode : manifest -> string).

Definition parseManifest (data : string) : manifest + string :=
  if 4 * 1024 * 1024 <? len data then inr "manifest too large"
  else match decode data with
  | inr e => inr e
  | inl m => match manifest_error m with Some e => inr e | None => inl m end
  end.

(** What [filepath.WalkDir] finds, in its order: the path below the root and the object. *)
Inductive Found := FoundLink (target : string + string) | FoundDir | FoundFile (digest : string + string) (executable : bool) | FoundOther.

Definition walk_entry (path : string) (f : Found) : entry + string :=
  match f with
  | FoundLink (inl target) => inl (mkEntry path "link" "" target false)
  | FoundLink (inr e) => inr e
  | FoundDir => inl (mkEntry path "dir" "" "" false)
  | FoundFile (inl h) x => inl (mkEntry path "file" h "" x)
  | FoundFile (inr e) _ => inr e
  | FoundOther => inr "unsupported file type"
  end.

Fixpoint walk_entries (l : list (string * Found)) : list entry + string :=
  match l with
  | [] => inl []
  | (path, f) :: l =>
      if path =?s "manifest.json" then walk_entries l
      else match walk_entry path f with
      | inr e => inr e
      | inl x => match walk_entries l with inl xs => inl (x :: xs) | inr e => inr e end
      end
  end.

Definition makeManifest (walk : list (string * Found) + string) : manifest + string :=
  match walk with
  | inr e => inr e
  | inl l => match walk_entries l with inl files => parseManifest (encode (mkManifest 1 files)) | inr e => inr e end
  end.

(** The links of the tree, resolved: the path from the application to where they lead. *)
Fixpoint check_links (resolve : string -> string + string) (l : list entry) : option string :=
  match l with
  | [] => None
  | f :: l =>
      if en_Kind f =?s "link" then
        match resolve (en_Path f) with
        | inr e => Some e
        | inl rel => if safeName rel then check_links resolve l else Some "link escapes app"
        end
      else check_links resolve l
  end.

(** [found]: the last entry with a path, of kind [""] when there is none. *)
Definition find_entry (m : manifest) (n : string) : entry :=
  default (mkEntry "" "" "" "" false) (last (filter (fun e => en_Path e = n) (mf_Files m))).

Definition requiredFiles : list string :=
  ["regen-access-service"; "regen-access-installer"; "regen-access"; "sing-box"; "Telecom-GoMITM-Root.cer"; "policy.json"; appName ++s "/Contents/Info.plist"].

Definition expected_target (p : string) : bool :=
  (p =?s appName) || strings_HasPrefix p (appName ++s "/") ||
  existsb (fun n => p =?s n) ["regen-access-service"; "regen-access-installer"; "regen-access"; "sing-box"; "Telecom-GoMITM-Root.cer"; "policy.json"].

Definition check_complete (m : manifest) (policy : string + string) : option string :=
  match list_find (fun n => en_Kind (find_entry m n) <> "file") requiredFiles with
  | Some (_, n) => Some ("missing " ++s n)
  | None =>
      if negb (en_SHA256 (find_entry m "sing-box") =?s coreDigest) || negb (en_SHA256 (find_entry m "Telecom-GoMITM-Root.cer") =?s caDigest)
      then Some "pinned payload digest mismatch"
      else match policy with
      | inr e => Some e
      | inl p =>
          if negb (strings_TrimSpace p =?s fixedPolicy) then Some "policy is not approved fixed policy"
          else if forallb (fun f => expected_target (en_Path f)) (mf_Files m) then None else Some "unexpected payload target"
      end
  end.

Definition verifyTree (walk : list (string * Found) + string) (resolve : string -> string + string) (policy : string + string) (m : manifest) (complete : bool) : option string :=
  match makeManifest walk with
  | inr e => Some e
  | inl actual =>
      if negb (encode actual =?s encode m) then Some "payload manifest mismatch"
      else match check_links resolve (mf_Files m) with
      | Some e => Some e
      | None => if complete then check_complete m policy else None
      end
  end.
End Manifest.

(** ** The owner *)
Definition is_letter (a : ascii) : bool := (65 <=? byte_val a) && (byte_val a <=? 90) || (97 <=? byte_val a) && (byte_val a <=? 122).
Definition is_account_byte (a : ascii) : bool :=
  is_letter a || (48 <=? byte_val a) && (byte_val a <=? 57) || existsb (fun b => byte_val a =? b) [46; 95; 45].

(** [^[A-Za-z][A-Za-z0-9._-]{0,63}$] *)
Definition account_name (s : string) : bool :=
  match s with "" => false | String a rest => is_letter a && string_all is_account_byte rest && (String.length rest <=? 63)%nat end.

Definition validateAccount (a : account) : option string :=
  if negb (account_name (ac_Name a)) || (ac_UID a <? 501) || (2147483647 <? ac_UID a) || negb (strings_HasPrefix (ac_Home a) "/Users/") || negb (safeName (strings_TrimPrefix (ac_Home a) "/"))
  then Some "owner must be an existing ordinary local account with a /Users home" else None.

Definition localNameForUID (data : string) (uid : Z) : string + string :=
  match strings_Fields data with
  | [name; id] =>
      if (uid <? 501) || negb (id =?s pretty uid) || negb (safeName name) || strings_Contains name "/" then inr "local UID does not uniquely map to an ordinary account"
      else inl name
  | _ => inr "local UID does not uniquely map to an ordinary account"
  end.

Section Owner.
Context {X W : Type} (lookup : Z -> Trail.M X W (account + string)).

Definition select_uid (existing : option receipt) (console : account) : Z + string :=
  match existing with
  | Some r =>
      if negb (rc_Version r =? 1) || negb (rc_CASHA256 r =?s caDigest) || (rc_OwnerUID r <? 501) then inr "invalid owner receipt" else inl (rc_OwnerUID r)
  | None =>
      match validateAccount console with
      | Some _ => inr "a real local graphical user is required"
      | None => if ac_Name console =?s "loginwindow" then inr "a real local graphical user is required" else inl (ac_UID console)
      end
  end.

Definition selectInstallOwner (existing : option receipt) (console : account) : Trail.M X W (account + string) :=
  match select_uid existing console with
  | inr e => fail e
  | inl uid =>
      try resolved := lookup uid in
      match validateAccount resolved with
      | Some e => fail e
      | None =>
          if negb (ac_UID resolved =? uid) || (ac_Name resolved =?s "loginwindow") || bool_decide (existing = None) && negb (bool_decide (resolved = console))
          then fail "local owner identity mismatch" else ok resolved
      end
  end.
End Owner.

(** ** [launchd] and the certificate *)
Definition timed_out (e : CommandError) : bool := match e with DeadlineExceeded | Canceled => true | _ => false end.

Definition classifyLaunchQuery (output : string) (code : Z) (err : option CommandError) : bool + string :=
  let missing := "Bad request." ++s String newline ("Could not find service " ++s quotes "'" ++s label ++s quotes "'" ++s " in domain for system") in
  match err with
  | None => if code =? 0 then inl true else inr "launchd registration is uncertain: launchctl exited"
  | Some e =>
      if (code =? 113) && negb (timed_out e) && (strings_TrimSpace output =?s missing) then inl false
      else inr "launchd registration is uncertain"
  end.

Definition shouldRemoveCA (r : receipt) : bool := rc_CAAdded r && (rc_CASHA256 r =?s caDigest).

Definition finishOwnedCARemoval {X W} (r : receipt) (digest : string) (removeTrust : Trail.M X W (string * Z * option CommandError))
    (deleteCertificate : Trail.M X W (unit + string)) : Trail.M X W (unit + string) :=
  if negb (shouldRemoveCA r) then ok tt
  else if negb (digest =?s caDigest) then fail "CA copy integrity failure; trust retained"
  else
    o ← removeTrust;
    let '(output, code, err) := o : string * Z * option CommandError in
    let missing := "SecTrustSettingsRemoveTrustSettings: The specified item could not be found in the keychain." in
    match err with
    | Some e => if (code =? 1) && negb (timed_out e) && (strings_TrimSpace output =?s missing) then deleteCertificate else fail "trust removal failed"
    | None => if code =? 0 then deleteCertificate else fail "trust removal exited without a confirmed result"
    end.

(** ** Waiting for [launchd] *)
Section Await.
Context {X W : Type} (now : Trail.M X W Z) (sleep : Z -> Trail.M X W unit) (query : Z -> Trail.M X W (bool + string)).

Definition deadline_exceeded := "context deadline exceeded".

Fixpoint await_from (deadline : Z) (fuel : nat) : Trail.M X W (unit + string) :=
  match fuel with
  | O => fail deadline_exceeded
  | S fuel =>
      t ← now;
      if deadline - t <=? 0 then fail deadline_exceeded
      else
        try present := query (Z.min (deadline - t) Second) in
        if present : bool then
          t ← now;
          if deadline - t <=? 0 then fail deadline_exceeded
          else sleep (Z.min (100 * Millisecond) (deadline - t)) ≫= fun _ => await_from deadline fuel
        else ok tt
  end.

(** A round that is not the last sleeps 100 ms. *)
Definition await_fuel (timeout : Z) : nat := Z.to_nat (timeout / (100 * Millisecond)) + 2.

Definition awaitUnregistered (timeout : Z) : Trail.M X W (unit + string) :=
  t ← now; await_from (t + timeout) (await_fuel timeout).
End Await.

(** ** The steps *)

(** The errors of an installation: [errors.Join], an activation that was undone, and a
    start that failed with the rollback after it. *)
Inductive InstallError :=
| Plain (e : string)
| Joined (l : list InstallError)
| NotActivated (cause : string) (recovery : list string) (start_old : option InstallError)
| Restored (original : InstallError)
| RollbackFailed (original : InstallError) (step : string) (e : InstallError).

Class lifecycle (X W : Type) := {
  lc_status : Trail.M X W (string + InstallError);
  lc_step : string -> Trail.M X W (unit + InstallError)
}.

Section Replace.
Context {X W : Type} `{!lifecycle X W}.

Definition join_error (e : InstallError) (r : unit + InstallError) : InstallError :=
  Joined (e :: match r with inr e' => [e'] | inl _ => [] end).

Fixpoint forward (l : list string) : Trail.M X W (unit + InstallError) :=
  match l with
  | [] => mret (inl tt)
  | v :: l =>
      r ← lc_step v;
      match r with
      | inl _ => forward l
      | inr e => if v =?s "stage" then o ← lc_step "start-old"; mret (inr (join_error e o)) else mret (inr e)
      end
  end.

Fixpoint rollback_steps (original : InstallError) (l : list string) : Trail.M X W (unit + InstallError) :=
  match l with
  | [] => mret (inr (Restored original))
  | v :: l =>
      r ← lc_step v;
      match r with inl _ => rollback_steps original l | inr e => mret (inr (RollbackFailed original v e)) end
  end.

Definition replace : Trail.M X W (unit + InstallError) :=
  s ← lc_status;
  match s with
  | inr e => mret (inr e)
  | inl s =>
      if negb (s =?s "idle") && negb (s =?s "absent") then mret (inr (Plain "upgrade refused: service connected or recovery uncertain"))
      else
        r ← forward ["stop"; "restore"; "stage"; "activate"];
        match r with
        | inr e => mret (inr e)
        | inl _ =>
            r ← lc_step "start";
            match r with
            | inl _ => mret (inl tt)
            | inr original => rollback_steps original ["stop"; "restore"; "rollback"; "start-old"]
            end
        end
  end.
End Replace.

Definition ownedRemovalTarget (p : string) : bool := (p =?s installRoot) || (p =?s plistPath).
