(* ===== verification/InstallDisk.v ===== *)
(** * The disk of an installation

    Objects by path, what it means that a path is below another, and the renaming of a
    whole tree, as the macOS installer relies on it. *)
From S2P Require Import Prelude GoText FilePath.
From stdpp Require Import list.

#[local] Open Scope string_scope.
#[local] Open Scope Z_scope.
#[local] Open Scope list_scope.

Inductive Node := Directory | Symlink (target : string) | File (data : string).

Definition Disk : Type := string -> option Node.

(** ** Paths *)

(** What follows the path of an object in the paths of the object itself and those below. *)
Definition below (x : string) : bool := match x with "" => true | String a _ => Ascii.eqb a slash end.

Definition under (p q : string) : option string :=
  if strings_HasPrefix q p then
    let x := String.substring (String.length p) (String.length q - String.length p) q in if below x then Some x else None
  else None.

Lemma substring_rest p x : String.substring (String.length p) (String.length (p ++s x) - String.length p) (p ++s x) = x.
Proof.
  induction p as [|a p IH]; cbn [String.length String.append String.substring].
  - rewrite Nat.sub_0_r. induction x as [|b x IHx]; [done|]. cbn. by rewrite IHx.
  - exact IH.
Qed.

Lemma under_app p x : below x = true -> under p (p ++s x) = Some x.
Proof. intros Hx. unfold under. rewrite has_prefix_app, substring_rest, Hx. done. Qed.

Lemma under_inv p q x : under p q = Some x -> q = p ++s x /\ below x = true.
Proof.
  unfold under. destruct (strings_HasPrefix q p) eqn:E; [|done]. apply has_prefix_split in E as [y ->]. rewrite substring_rest.
  destruct (below y) eqn:Ey; [|done]. by intros [= <-].
Qed.

Lemma under_self p : under p p = Some "".
Proof. rewrite <- (string_app_nil_r p) at 2. by apply under_app. Qed.

Lemma below_app (x y : string) : below x = true -> below y = true -> below (x ++s y) = true.
Proof. intros Hx Hy. by destruct x. Qed.

(** No object is below both paths. *)
Definition apart (p q : string) : Prop := forall x y, below x = true -> below y = true -> p ++s x <> q ++s y.

Lemma apart_sym p q : apart p q -> apart q p.
Proof. intros H x y Hx Hy E. by apply (H y x Hy Hx). Qed.

Lemma under_apart p q x : apart p q -> below x = true -> under q (p ++s x) = None.
Proof.
  intros Ha Hx. destruct (under q (p ++s x)) as [y|] eqn:E; [|done]. apply under_inv in E as [E Hy]. by apply Ha in E.
Qed.

Lemma apart_below p q x : apart p q -> below x = true -> apart (p ++s x) q.
Proof. intros Ha Hx y z Hy Hz. rewrite string_app_assoc. apply Ha; [|done]. by apply below_app. Qed.

(** Paths that differ at a byte are apart. *)
Lemma apart_byte d a b p q : a <> b -> apart (d ++s String a p) (d ++s String b q).
Proof. intros Hn x y _ _. induction d as [|c d IH]; intros E; injection E; auto. Qed.

(** A path and its continuation with something that is not a separator. *)
Lemma apart_longer d a q : a <> slash -> apart d (d ++s String a q).
Proof.
  intros Hn x y Hx _. induction d as [|c d IH]; [|intros E; injection E; auto]. destruct x as [|b x]; [done|]. intros E. injection E as -> _. cbn in Hx. by apply Ascii.eqb_eq in Hx.
Qed.

(** ** Renaming *)
Definition move (a b : string) (d : Disk) : Disk := fun q =>
  match under b q with Some x => d (a ++s x) | None => match under a q with Some _ => None | None => d q end end.

Lemma move_to a b d x : below x = true -> move a b d (b ++s x) = d (a ++s x).
Proof. intros Hx. unfold move. by rewrite under_app. Qed.

Lemma move_from a b d x : apart a b -> below x = true -> move a b d (a ++s x) = None.
Proof. intros Hab Hx. unfold move. rewrite (under_apart a b) by done. by rewrite under_app. Qed.

Lemma move_other a b d p x : apart p a -> apart p b -> below x = true -> move a b d (p ++s x) = d (p ++s x).
Proof. intros Ha Hb Hx. unfold move. rewrite (under_apart p b) by done. by rewrite (under_apart p a) by done. Qed.

(** An object alone, when it is not below either path. *)
Lemma move_elsewhere a b d q : under a q = None -> under b q = None -> move a b d q = d q.
Proof. intros Ha Hb. unfold move. by rewrite Hb, Ha. Qed.
