(* ===== verification/InstallMac.v ===== *)
(** * The macOS installer ([scripts/macos/installer/platform_darwin.go], [owner_darwin.go])

    The steps of an installation as [macLife] takes them: the stage that is copied and
    checked, the renames that activate it with the undoing of a failed one, the rollback,
    the certificate and its receipt; the removal; and the checks before any of it. Native
    programs and file operations are the operations of a class. *)
From S2P Require Import Prelude Trail GoText Netip NativeNetwork DarwinSystem FilePath InstallPackage InstallDisk.
From stdpp Require Import list gmap pretty.

#[local] Open Scope string_scope.
#[local] Open Scope Z_scope.
#[local] Open Scope list_scope.

#[local] Notation "'try' x ':=' m 'in' k" := (try_bind m (fun x => k)) (at level 10, x pattern, m at level 100, k at level 200).

(** ** Data *)
Inductive FileType := Regular | IsDirectory | IsSymlink | OtherType.

#[export] Instance FileType_eq_dec : EqDecision FileType.
Proof. solve_decision. Defined.

(** [unix.Stat_t], the type apart from the twelve bits of the mode. *)
Record Stat := mkStat { st_type : FileType; st_uid : Z; st_gid : Z; st_perm : Z; st_size : Z }.

(** An open file by the path that it was opened for. *)
Record Handle := mkHandle { h_name : string; h_fd : Z }.

(** What the client of the service answers: its error, the state and the error of the state. *)
Record ServiceStatus := mkServiceStatus { ss_error : string; ss_state : string; ss_state_error : string }.

Record macLife := mkLife {
  ml_payload : string; ml_m : manifest; ml_owner : account; ml_old : bool;
  ml_backup : string; ml_stage : string; ml_oldPlist : string; ml_r : receipt; ml_addedNow : bool
}.

Definition no_account := mkAccount "" 0 "".
Definition no_life := mkLife "" (mkManifest 0 []) no_account false "" "" "" (mkReceipt 0 0 false "") false.

Definition set_payload v l := mkLife v (ml_m l) (ml_owner l) (ml_old l) (ml_backup l) (ml_stage l) (ml_oldPlist l) (ml_r l) (ml_addedNow l).
Definition set_m v l := mkLife (ml_payload l) v (ml_owner l) (ml_old l) (ml_backup l) (ml_stage l) (ml_oldPlist l) (ml_r l) (ml_addedNow l).
Definition set_owner v l := mkLife (ml_payload l) (ml_m l) v (ml_old l) (ml_backup l) (ml_stage l) (ml_oldPlist l) (ml_r l) (ml_addedNow l).
Definition set_old v l := mkLife (ml_payload l) (ml_m l) (ml_owner l) v (ml_backup l) (ml_stage l) (ml_oldPlist l) (ml_r l) (ml_addedNow l).
Definition set_backup v l := mkLife (ml_payload l) (ml_m l) (ml_owner l) (ml_old l) v (ml_stage l) (ml_oldPlist l) (ml_r l) (ml_addedNow l).
Definition set_stage v l := mkLife (ml_payload l) (ml_m l) (ml_owner l) (ml_old l) (ml_backup l) v (ml_oldPlist l) (ml_r l) (ml_addedNow l).
Definition set_oldPlist v l := mkLife (ml_payload l) (ml_m l) (ml_owner l) (ml_old l) (ml_backup l) (ml_stage l) v (ml_r l) (ml_addedNow l).
Definition set_r v l := mkLife (ml_payload l) (ml_m l) (ml_owner l) (ml_old l) (ml_backup l) (ml_stage l) (ml_oldPlist l) v (ml_addedNow l).
Definition set_addedNow v l := mkLife (ml_payload l) (ml_m l) (ml_owner l) (ml_old l) (ml_backup l) (ml_stage l) (ml_oldPlist l) (ml_r l) v.

(** ** System calls *)
Inductive LockFile := Locked (h : Handle) | NoLock | LockExists | LockFailed (err : string).

(** The payload as it is read for its check. *)
Record TreeView := mkTree { tv_walk : list (string * Found) + string; tv_resolve : string -> string + string; tv_policy : string + string }.

Class installSystem (W : Type) := {
  filepath_Abs : string -> StateM W (string + string);
  read_tree : string -> StateM W TreeView;
  (* nothing when there is no such object *)
  os_Lstat : string -> StateM W (option Stat + string);
  os_Stat : string -> StateM W (option Stat + string);
  os_Mkdir : string -> Z -> StateM W (unit + string);
  os_MkdirTemp : string -> string -> StateM W (string + string);
  os_Symlink : string -> string -> StateM W (unit + string);
  unix_Lchown : string -> StateM W (unit + string);
  os_Rename : string -> string -> StateM W (unit + string);
  os_ReadFile : string -> StateM W (string + string);
  os_Open : string -> StateM W (Handle + string);
  unix_OpenDirectory : string -> StateM W (Handle + string);
  os_OpenExclusive : string -> Z -> StateM W (Handle + string);
  unix_OpenLock : string -> bool -> StateM W LockFile;
  unix_Flock : Handle -> StateM W (unit + string);
  unix_Fchown : Handle -> StateM W (unit + string);
  unix_Fchmod : Handle -> Z -> StateM W (unit + string);
  unix_Fstat : Handle -> StateM W (Stat + string);
  file_Write : Handle -> string -> StateM W (unit + string);
  file_Sync : Handle -> StateM W (unit + string);
  file_Close : Handle -> StateM W (unit + string);
  (* at most so many bytes of the first file to the second *)
  io_CopyLimited : Handle -> Handle -> Z -> StateM W (unit + string);
  hash_contents : Handle -> StateM W (string + string);
  native : string -> list string -> StateM W (string * option CommandError);
  client_StatusDetails : StateM W (ServiceStatus + string);
  client_Disconnect : StateM W (ServiceStatus + string);
  time_Now : StateM W Z;
  time_Sleep : Z -> StateM W unit;
  (* the time in UTC, in the format of the names of backups *)
  time_suffix : StateM W string
}.

(** The files of the installer are JSON. *)
Class installCodec := {
  decode_manifest : string -> manifest + string;
  encode_manifest : manifest -> string;
  decode_receipt : string -> receipt + string;
  encode_receipt : receipt -> string
}.

Section Installer.
Context {W : Type} `{!installSystem W} `{!installCodec} `{!UnicodeTables}.

#[local] Abbreviation M := (Trail.M macLife W).

Definition self {A} (f : macLife -> A) : M A := gets (fun s => f (mgr s)).
Definition assign (f : macLife -> macLife) : M unit := puts (fun s => mkSt (f (mgr s)) (world s) (trail s)).

(** The error of a call, in a list that [errors.Join] makes. *)
Definition error_of (r : unit + string) : list string := match r with inl _ => [] | inr e => [e] end.
Definition step_of (r : unit + string) : unit + InstallError := match r with inl x => inl x | inr e => inr (Plain e) end.

(** ** Native programs *)
Definition command_error (program : string) (o : string * option CommandError) : string + string :=
  match o.2 with None => inl o.1 | Some _ => inr (program ++s " failed") end.

(** Only whether it went well. *)
Definition command (program : string) (args : list string) : M (string + string) :=
  o ← sys (native program args); mret (command_error program o).

Definition run_ok (program : string) (args : list string) : M (unit + string) :=
  try _ := command program args in ok tt.

Definition exit_code (e : option CommandError) : Z :=
  match e with None => 0 | Some (ExitStatus code) => code | Some _ => -1 end.

Definition launchQueryResult (out : string) (e : option CommandError) : bool + string := classifyLaunchQuery out (exit_code e) e.

Definition registered : M (bool + string) :=
  o ← sys (native "/bin/launchctl" ["print"; "system/" ++s label]);
  mret (launchQueryResult o.1 o.2).

(** ** Protected paths *)
Definition check_protected (cur : string) (last : bool) (s : Stat) : option string :=
  if bool_decide (st_type s = IsSymlink) || negb (st_uid s =? 0) then Some ("unsafe ownership/link: " ++s cur)
  else if cur =?s "/private/var/run" then
    if negb (bool_decide (st_type s = IsDirectory)) || negb (st_gid s =? 1) || negb (Z.land (st_perm s) 511 =? 509)
    then Some "unexpected /private/var/run; refusing to change system permissions" else None
  else if negb (Z.land (st_perm s) 18 =? 0) then Some ("writable protected path: " ++s cur)
  else if negb last && negb (bool_decide (st_type s = IsDirectory)) then Some "non-directory ancestor"
  else None.

Fixpoint protect_parts (missingOK : bool) (cur : string) (parts : list string) : M (unit + string) :=
  match parts with
  | [] => ok tt
  | v :: parts =>
      let cur := FilePath.Join cur v in
      let last := bool_decide (parts = []) in
      try s := sys (os_Lstat cur) in
      match s with
      | None => if missingOK && last then ok tt else fail "no such file or directory"
      | Some s => match check_protected cur last s with Some e => fail e | None => protect_parts missingOK cur parts end
      end
  end.

Definition protect (p : string) (missingOK : bool) : M (unit + string) :=
  if negb (rooted p) || negb (Clean p =?s p) then fail "noncanonical destination"
  else protect_parts missingOK "/" (strings_Split (strings_TrimPrefix p "/") slash).

Fixpoint protect_all (missingOK : bool) (l : list string) : M (unit + string) :=
  match l with [] => ok tt | p :: l => try _ := protect p missingOK in protect_all missingOK l end.

(** ** Objects of the installer *)
Definition is_owned (s : Stat) (mode : Z) (kind : FileType) : bool :=
  (st_uid s =? 0) && (st_gid s =? 0) && bool_decide (st_type s = kind) && (st_perm s =? mode).

Definition ownFD (h : Handle) (mode : Z) (kind : FileType) : M (unit + string) :=
  try _ := sys (unix_Fchown h) in
  try _ := sys (unix_Fchmod h mode) in
  try st := sys (unix_Fstat h) in
  if is_owned st mode kind then ok tt else fail "created object is not root:wheel with required mode".

(** [defer] closes a file whatever happened; its error is lost. *)
Definition closing {A} (h : Handle) (m : M (A + string)) : M (A + string) :=
  r ← m; sys (file_Close h) ≫= fun _ => mret r.

Definition ownDirectory (p : string) (mode : Z) : M (unit + string) :=
  try h := sys (unix_OpenDirectory p) in closing h (ownFD h mode IsDirectory).

Definition mkdirOwned (p : string) (mode : Z) : M (unit + string) :=
  try _ := sys (os_Mkdir p mode) in ownDirectory p mode.

Definition verifyOwnedDirectory (p : string) (mode : Z) : M (unit + string) :=
  try s := sys (os_Lstat p) in
  match s with
  | None => fail "no such file or directory"
  | Some s => if is_owned s mode IsDirectory then ok tt else fail "existing owned directory must be root:wheel with required mode"
  end.

Definition ownLink (p : string) : M (unit + string) :=
  try s := sys (os_Lstat p) in
  match s with
  | None => fail "no such file or directory"
  | Some s =>
      if negb (bool_decide (st_type s = IsSymlink)) then fail "created link changed type"
      else
        try _ := sys (unix_Lchown p) in
        try s := sys (os_Lstat p) in
        match s with
        | None => fail "no such file or directory"
        | Some s => if (st_uid s =? 0) && (st_gid s =? 0) && bool_decide (st_type s = IsSymlink) then ok tt else fail "created link is not root:wheel"
        end
  end.

Definition syncDir (p : string) : M (unit + string) :=
  try h := sys (os_Open p) in closing h (sys (file_Sync h)).

(** [errors.Join] of an error and that of the closing. *)
Definition then_close (h : Handle) (r : unit + string) : M (unit + string) :=
  c ← sys (file_Close h); mret (match r with inr e => inr e | inl _ => c end).

Definition privateWrite (p : string) (data : string) (mode : Z) : M (unit + string) :=
  try _ := protect (Dir p) false in
  try f := sys (os_OpenExclusive p mode) in
  owned ← ownFD f mode Regular;
  match owned with
  | inr e => sys (file_Close f) ≫= fun _ => fail e
  | inl _ =>
      r ← (try _ := sys (file_Write f data) in sys (file_Sync f));
      try _ := then_close f r in
      syncDir (Dir p)
  end.

Definition digestFile (p : string) : M (string + string) :=
  try f := sys (os_Open p) in
  closing f (
    s ← sys (unix_Fstat f);
    match s with
    | inl s => if bool_decide (st_type s = Regular) && (st_size s <=? 512 * 1024 * 1024) then sys (hash_contents f) else fail "unsafe file size/type"
    | inr _ => fail "unsafe file size/type"
    end).

(** ** Accounts *)

(** [strconv.Atoi], for the texts that it takes. *)
Definition strconv_Atoi (s : string) : option Z :=
  if negb (is_atoi s) then None
  else match s with
  | String a rest => if byte_val a =? 45 then v ← atoi_digits rest 0; Some (- v) else if byte_val a =? 43 then atoi_digits rest 0 else atoi_digits s 0
  | "" => None
  end.

(** The lines of [dscl]: the last value of each key. *)
Fixpoint account_lines (ls : list string) (a : account) : account + string :=
  match ls with
  | [] => inl a
  | l :: ls =>
      match strings_Cut l ": " with
      | None => account_lines ls a
      | Some (k, v) =>
          if k =?s "UniqueID" then
            match strconv_Atoi (strings_TrimSpace v) with Some uid => account_lines ls (mkAccount (ac_Name a) uid (ac_Home a)) | None => inr "invalid UniqueID" end
          else if k =?s "NFSHomeDirectory" then account_lines ls (mkAccount (ac_Name a) (ac_UID a) (strings_TrimSpace v))
          else account_lines ls a
      end
  end.

Definition lookupOwner (name : string) : M (account + string) :=
  if negb (safeName name) || strings_Contains name "/" then fail "invalid account name"
  else
    try out := command "/usr/bin/dscl" ["."; "-read"; "/Users/" ++s name; "UniqueID"; "NFSHomeDirectory"] in
    match account_lines (lines out) (mkAccount name 0 "") with
    | inr e => fail e
    | inl a =>
        match validateAccount a with
        | Some e => fail e
        | None =>
            s ← sys (os_Stat (ac_Home a));
            match s with
            | inl (Some s) => if bool_decide (st_type s = IsDirectory) then ok a else fail "daily owner's home does not exist"
            | _ => fail "daily owner's home does not exist"
            end
        end
    end.

Definition lookupLocalUID (uid : Z) : M (account + string) :=
  if uid <? 501 then fail "system UID is not an installation owner"
  else
    try out := command "/usr/bin/dscl" ["."; "-search"; "/Users"; "UniqueID"; pretty uid] in
    match localNameForUID out uid with
    | inr e => fail e
    | inl name =>
        try a := lookupOwner name in
        try home := sys (os_Lstat (ac_Home a)) in
        match home with
        | None => fail "no such file or directory"
        | Some home =>
            if negb (ac_UID a =? uid) || negb (st_uid home =? uid) || negb (bool_decide (st_type home = IsDirectory)) then fail "local user/home ownership mismatch"
            else ok a
        end
    end.

Definition receiptPath := installRoot ++s "/receipt.json".

Definition installOwner (old : bool) (requested : string) : M (account + string) :=
  try console := sys (os_Stat "/dev/console") in
  match console with
  | None => fail "no such file or directory"
  | Some console =>
      try current := lookupLocalUID (st_uid console) in
      try existing := (if old then try data := sys (os_ReadFile receiptPath) in
          match decode_receipt data with inl r => ok (Some r) | inr e => fail e end else ok None) in
      try a := selectInstallOwner lookupLocalUID existing current in
      if negb (requested =?s "") && negb (requested =?s ac_Name a) then fail "requested owner differs from graphical user or installed owner" else ok a
  end.

(** ** The service *)
Definition sleep (d : Z) : M unit := sys (time_Sleep d).

(** The budget of a query is the limit of its program. *)
Definition waitUnregistered : M (unit + string) :=
  awaitUnregistered (sys time_Now) sleep (fun _ => registered) (10 * Second).

(** Tries until one comes to a result, with a pause after each, until the deadline. *)
Fixpoint poll (deadline pause : Z) (late : string) (attempt : M (option (unit + string))) (fuel : nat) : M (unit + string) :=
  match fuel with
  | O => fail late
  | S fuel =>
      r ← attempt;
      match r with
      | Some r => mret r
      | None =>
          t ← sys time_Now;
          if deadline <? t then fail late else sleep pause ≫= fun _ => poll deadline pause late attempt fuel
      end
  end.

(** A round that is not the last pauses. *)
Definition poll_fuel (timeout pause : Z) : nat := Z.to_nat (timeout / pause) + 2.

Definition poll_for (timeout pause : Z) (late : string) (attempt : M (option (unit + string))) : M (unit + string) :=
  t ← sys time_Now; poll (t + timeout) pause late attempt (poll_fuel timeout pause).

Definition idle_attempt : M (option (unit + string)) :=
  r ← sys client_StatusDetails;
  mret (match r with
    | inl r => Some (if (ss_state r =?s "idle") && (ss_state_error r =?s "") && (ss_error r =?s "") then inl tt else inr "started service did not recover to idle")
    | inr _ => None
    end).

Definition waitIdle : M (unit + string) := poll_for (25 * Second) (250 * Millisecond) "started service did not become ready" idle_attempt.

Definition bootstrap : M (unit + string) := run_ok "/bin/launchctl" ["bootstrap"; "system"; plistPath].

Definition lock_attempt : M (option (unit + string)) :=
  a ← sys (unix_OpenLock (runtimeRoot ++s "/daemon.lock") false);
  match a with
  | NoLock => mret (Some (inl tt))
  | Locked h =>
      r ← sys (unix_Flock h);
      sys (file_Close h) ≫= fun _ =>
      mret (match r with inl _ => Some (inl tt) | inr _ => None end)
  | LockExists => mret (Some (inr "file exists"))
  | LockFailed e => mret (Some (inr e))
  end.

Definition status : M (string + string) :=
  try present := registered in
  if negb present then ok "absent"
  else
    old ← self ml_old;
    if negb old then fail "orphan registered service"
    else
      try r := sys client_StatusDetails in
      if negb (ss_error r =?s "") || negb (ss_state_error r =?s "") then fail "service reports recovery error" else ok (ss_state r).

Definition step_stop : M (unit + string) :=
  try present := registered in
  try _ := (if present : bool then try _ := run_ok "/bin/launchctl" ["bootout"; "system/" ++s label] in waitUnregistered else ok tt) in
  poll_for (105 * Second) (200 * Millisecond) "daemon did not stop; state preserved" lock_attempt.

(** ** The installation on disk *)
Definition installed_entry (m : manifest) (n h : string) : bool :=
  existsb (fun f => (en_Path f =?s n) && (en_Kind f =?s "file") && (en_SHA256 f =?s h)) (mf_Files m).

Fixpoint validate_binaries (m : manifest) (l : list string) : M (unit + string) :=
  match l with
  | [] => ok tt
  | n :: l =>
      let p := installRoot ++s "/" ++s n in
      try _ := protect p false in
      try h := digestFile p in
      if negb (installed_entry m n h) || (n =?s "sing-box") && negb (h =?s coreDigest) then fail "installed binary integrity failure"
      else validate_binaries m l
  end.

Definition validateInstalled : M (unit + string) :=
  try _ := protect_all false [installRoot; installRoot ++s "/state"; installRoot ++s "/service.json"; installRoot ++s "/manifest.json"; receiptPath] in
  try data := sys (os_ReadFile (installRoot ++s "/manifest.json")) in
  match parseManifest decode_manifest data with
  | inr e => fail e
  | inl m => validate_binaries m ["regen-access-service"; "sing-box"]
  end.

Definition step_restore : M (unit + string) :=
  s ← sys (os_Lstat installRoot);
  match s with
  | inl None => ok tt
  | _ =>
      try _ := validateInstalled in
      run_ok (installRoot ++s "/regen-access-service") ["--restore"]
  end.

(** ** The stage *)
Definition copy_file (source p : string) (e : entry) : M (unit + string) :=
  let mode := if en_Path e =?s "policy.json" then 384 else if en_Executable e then 493 else 420 in
  try src := sys (os_Open (FilePath.Join source (en_Path e))) in
  out ← sys (os_OpenExclusive p mode);
  match out with
  | inr err => sys (file_Close src) ≫= fun _ => fail err
  | inl out =>
      owned ← ownFD out mode Regular;
      match owned with
      | inr err => sys (file_Close out) ≫= fun _ => sys (file_Close src) ≫= fun _ => fail err
      | inl _ =>
          r ← (try _ := sys (io_CopyLimited src out (512 * 1024 * 1024 + 1)) in sys (file_Sync out));
          r ← then_close out r;
          try _ := then_close src r in
          h ← digestFile p;
          match h with
          | inl h => if h =?s en_SHA256 e then ok tt else fail "source changed during verified copy"
          | inr _ => fail "source changed during verified copy"
          end
      end
  end.

Definition copy_entry (source dest : string) (e : entry) : M (unit + string) :=
  let p := FilePath.Join dest (en_Path e) in
  if en_Kind e =?s "dir" then mkdirOwned p 493
  else if en_Kind e =?s "link" then try _ := sys (os_Symlink (en_Target e) p) in ownLink p
  else if en_Kind e =?s "file" then copy_file source p e
  else ok tt.

Fixpoint copyPayload (source dest : string) (l : list entry) : M (unit + string) :=
  match l with [] => ok tt | e :: l => try _ := copy_entry source dest e in copyPayload source dest l end.

Definition service_config (uid : Z) : string :=
  quotes "{'schema_version':1,'owner_uid':" ++s pretty uid ++s quotes ",'core_sha256':'" ++s coreDigest ++s quotes "','policy':" ++s fixedPolicy ++s "}".

(** The receipt keeps that the certificate was added by an earlier installation. *)
Definition staged_receipt : M (receipt + string) :=
  uid ← self (fun l => ac_UID (ml_owner l));
  old ← self ml_old;
  if old : bool then
    try b := sys (os_ReadFile receiptPath) in
    match decode_receipt b with
    | inr e => fail e
    | inl r => if negb (rc_Version r =? 1) || negb (rc_CASHA256 r =?s caDigest) then fail "unknown installed CA receipt" else ok (mkReceipt 1 uid (rc_CAAdded r) caDigest)
    end
  else ok (mkReceipt 1 uid false caDigest).

Definition prepareStage : M (unit + string) :=
  made ← sys (os_MkdirTemp (Dir installRoot) ".RegenBioAccess-stage-");
  let stage := match made with inl stage => stage | inr _ => "" end in
  assign (set_stage stage) ≫= fun _ =>
  match made with
  | inr e => fail e
  | inl _ =>
      try _ := ownDirectory stage 448 in
      payload ← self ml_payload;
      m ← self ml_m;
      try _ := copyPayload payload stage (mf_Files m) in
      try _ := mkdirOwned (stage ++s "/state") 448 in
      uid ← self (fun l => ac_UID (ml_owner l));
      try _ := privateWrite (stage ++s "/service.json") (service_config uid) 384 in
      try _ := privateWrite (stage ++s "/manifest.json") (encode_manifest m) 384 in
      try r := staged_receipt in
      assign (set_r r) ≫= fun _ =>
      try _ := privateWrite (stage ++s "/receipt.json") (encode_receipt r) 384 in
      try _ := run_ok "/usr/bin/codesign" ["--verify"; "--deep"; "--strict"; stage ++s "/" ++s appName] in
      ownDirectory stage 493
  end.

(** ** Activation *)

(** What an activation has done so far. *)
Record Moved := mkMoved { mv_old : bool; mv_plist : bool; mv_new : bool }.

(** The moves of an activation, in order; a failed one ends them. *)
Definition activate_new (movedOld movedPlist : bool) : M (Moved * (unit + string)) :=
  stage ← self ml_stage;
  renamed ← sys (os_Rename stage installRoot);
  match renamed with
  | inr e => mret (mkMoved movedOld movedPlist false, inr e)
  | inl _ =>
      r ← (try _ := privateWrite plistPath launchPlist 420 in syncDir (Dir installRoot));
      mret (mkMoved movedOld movedPlist true, r)
  end.

Definition activate_plist (suffix : string) (movedOld : bool) : M (Moved * (unit + string)) :=
  s ← sys (os_Lstat plistPath);
  match s with
  | inr e => mret (mkMoved movedOld false false, inr e)
  | inl None => activate_new movedOld false
  | inl (Some _) =>
      let oldPlist := plistPath ++s ".backup-" ++s suffix in
      assign (set_oldPlist oldPlist) ≫= fun _ =>
      renamed ← sys (os_Rename plistPath oldPlist);
      match renamed with
      | inr e => mret (mkMoved movedOld false false, inr e)
      | inl _ => activate_new movedOld true
      end
  end.

Definition activate_moves (suffix : string) : M (Moved * (unit + string)) :=
  l ← self id;
  if ml_old l then
    renamed ← sys (os_Rename installRoot (ml_backup l));
    match renamed with
    | inr e => mret (mkMoved false false false, inr e)
    | inl _ => activate_plist suffix true
    end
  else activate_plist suffix false.

(** The deferred undoing of a failed activation, with the errors of its renames. *)
Definition undo_new : M (list string) :=
  l ← self id;
  s ← sys (os_Lstat plistPath);
  e1 ← match s with
    | inl (Some _) => r ← sys (os_Rename plistPath (ml_stage l ++s ".plist")); mret (error_of r)
    | _ => mret []
    end;
  r ← sys (os_Rename installRoot (ml_stage l));
  mret (e1 ++ error_of r).

Definition undo (mv : Moved) : M (list string) :=
  l ← self id;
  e1 ← (if mv_new mv then undo_new else mret []);
  e2 ← (if mv_old mv then r ← sys (os_Rename (ml_backup l) installRoot); mret (error_of r) else mret []);
  e3 ← (if mv_plist mv then r ← sys (os_Rename (ml_oldPlist l) plistPath); mret (error_of r) else mret []);
  mret (e1 ++ e2 ++ e3).

Definition step_start_old : M (unit + string) :=
  old ← self ml_old;
  if old : bool then
    s ← sys (os_Stat plistPath);
    match s with
    | inl (Some _) => try _ := bootstrap in waitIdle
    | _ => ok tt
    end
  else ok tt.

Definition activate : M (unit + InstallError) :=
  suffix ← sys time_suffix;
  assign (set_backup (installRoot ++s ".backup-" ++s suffix)) ≫= fun _ =>
  r ← activate_moves suffix;
  match r.2 with
  | inl _ => mret (inl tt)
  | inr cause =>
      recovery ← undo r.1;
      old ← self ml_old;
      if bool_decide (recovery = []) && old then
        o ← step_start_old;
        mret (inr (NotActivated cause [] (match o with inl _ => None | inr e => Some (Plain e) end)))
      else mret (inr (NotActivated cause recovery None))
  end.

(** ** The certificate *)
Definition keychain := "/Library/Keychains/System.keychain".
Definition caFile := installRoot ++s "/Telecom-GoMITM-Root.cer".

Definition caPresent : M (bool + string) :=
  try b := command "/usr/bin/security" ["find-certificate"; "-a"; "-Z"; keychain] in
  ok (strings_Contains (strings_ToUpper b) (strings_ToUpper caDigest)).

Definition verify_cert : M (unit + string) := run_ok "/usr/bin/security" ["verify-cert"; "-c"; caFile; "-p"; "ssl"].

(** The receipt is on disk before the certificate is trusted. *)
Definition installCA : M (unit + string) :=
  try exists_ := caPresent in
  if exists_ : bool then
    r ← verify_cert;
    match r with inl _ => ok tt | inr _ => fail "exact CA already exists but trust verification failed; existing trust was preserved" end
  else
    r ← self ml_r;
    let r := mkReceipt (rc_Version r) (rc_OwnerUID r) true (rc_CASHA256 r) in
    assign (set_r r) ≫= fun _ =>
    let tmp := installRoot ++s "/receipt.pending.json" in
    try _ := privateWrite tmp (encode_receipt r) 384 in
    try _ := sys (os_Rename tmp receiptPath) in
    try _ := syncDir installRoot in
    assign (set_addedNow true) ≫= fun _ =>
    try _ := run_ok "/usr/bin/security" ["add-trusted-cert"; "-d"; "-r"; "trustRoot"; "-p"; "ssl"; "-k"; keychain; caFile] in
    verify_cert.

Definition remove_trust : M (string * Z * option CommandError) :=
  o ← sys (native "/usr/bin/security" ["remove-trusted-cert"; "-d"; caFile]);
  mret (o.1, exit_code o.2, o.2).

Definition delete_certificate : M (unit + string) := run_ok "/usr/bin/security" ["delete-certificate"; "-Z"; caSHA1; keychain].

Definition removeCA (r : receipt) : M (unit + string) :=
  if negb (shouldRemoveCA r) then ok tt
  else
    try present := caPresent in
    if negb present then ok tt
    else
      h ← digestFile caFile;
      match h with
      | inl h => if h =?s caDigest then finishOwnedCARemoval r h remove_trust delete_certificate else fail "CA copy integrity failure; trust retained"
      | inr _ => fail "CA copy integrity failure; trust retained"
      end.

(** ** The other steps *)
Definition step_start : M (unit + string) :=
  try _ := bootstrap in
  try _ := waitIdle in
  installCA.

Definition rollback_moves (failed : string) : M (unit + string) :=
  l ← self id;
  try _ := sys (os_Rename installRoot failed) in
  try _ := sys (os_Rename plistPath (failed ++s ".plist")) in
  try _ := (if ml_old l then
      try _ := sys (os_Rename (ml_backup l) installRoot) in
      if negb (ml_oldPlist l =?s "") then sys (os_Rename (ml_oldPlist l) plistPath) else ok tt
    else ok tt) in
  syncDir (Dir installRoot).

Definition step_rollback : M (unit + string) :=
  l ← self id;
  try _ := (if ml_addedNow l then removeCA (ml_r l) else ok tt) in
  suffix ← sys time_suffix;
  rollback_moves (installRoot ++s ".failed-" ++s suffix).

Definition step_plain (s : string) : M (unit + string) :=
  if s =?s "stop" then step_stop
  else if s =?s "restore" then step_restore
  else if s =?s "stage" then prepareStage
  else if s =?s "start" then step_start
  else if s =?s "rollback" then step_rollback
  else if s =?s "start-old" then step_start_old
  else fail "unknown lifecycle step".

Definition step (s : string) : M (unit + InstallError) :=
  if s =?s "activate" then activate else r ← step_plain s; mret (step_of r).

#[export] Instance macLife_lifecycle : lifecycle macLife W := {
  lc_status := r ← status; mret (match r with inl s => inl s | inr e => inr (Plain e) end);
  lc_step := step
}.

(** ** Removal *)
Fixpoint retire (suffix : string) (l : list string) : M (unit + string) :=
  match l with
  | [] => ok tt
  | p :: l =>
      if negb (ownedRemovalTarget p) then fail "invalid removal scope"
      else
        s ← sys (os_Lstat p);
        match s with
        | inl None => retire suffix l
        | _ => try _ := sys (os_Rename p (p ++s suffix)) in retire suffix l
        end
  end.

Definition disconnect_first : M (unit + string) :=
  s ← sys client_Disconnect;
  match s with
  | inl s => if (ss_state s =?s "idle") && (ss_state_error s =?s "") then ok tt else fail "disconnect uncertain; uninstall refused"
  | inr _ => fail "disconnect uncertain; uninstall refused"
  end.

Definition uninstall : M (unit + string) :=
  old ← self ml_old;
  if negb old then fail "no verified installation exists"
  else
    try present := registered in
    try _ := (if present : bool then disconnect_first else ok tt) in
    try _ := step_stop in
    try _ := step_restore in
    try b := sys (os_ReadFile receiptPath) in
    match decode_receipt b with
    | inr e => fail e
    | inl r =>
        if negb (rc_Version r =? 1) || negb (rc_CASHA256 r =?s caDigest) then fail "unknown receipt; uninstall refused"
        else
          try _ := removeCA r in
          suffix ← sys time_suffix;
          retire (".uninstalled-" ++s suffix) [plistPath; installRoot]
    end.

(** ** The command *)
Record Flags := mkFlags { fl_payload : string; fl_owner : string; fl_accept : string; fl_rest : nat }.

(** Whether there is an installation, and that nothing is left of another. *)
Definition examine (orphan_plist orphan_daemon : string) : M (unit + string) :=
  try _ := protect_all true [installRoot; plistPath; runtimeRoot] in
  assign (set_old false) ≫= fun _ =>
  try s := sys (os_Lstat installRoot) in
  try _ := (match s with Some _ => assign (set_old true) ≫= fun _ => validateInstalled | None => ok tt end) in
  old ← self ml_old;
  orphan ← (if old : bool then mret false else p ← sys (os_Lstat plistPath); mret (match p with inl (Some _) => true | _ => false end));
  if orphan : bool then fail orphan_plist
  else
    try present := registered in
    if present && negb old then fail orphan_daemon else ok tt.

Definition load_payload (flags : Flags) : M (unit + string) :=
  if negb (strings_ToLower (fl_accept flags) =?s caDigest) then fail "explicit traffic inspection CA consent required"
  else
    payload ← sys (filepath_Abs (fl_payload flags));
    match payload with
    | inr _ => fail "payload required"
    | inl payload =>
        assign (set_payload payload) ≫= fun _ =>
        if fl_payload flags =?s "" then fail "payload required"
        else
          try b := sys (os_ReadFile (payload ++s "/manifest.json")) in
          match parseManifest decode_manifest b with
          | inr e => fail e
          | inl m =>
              assign (set_m m) ≫= fun _ =>
              tree ← sys (read_tree payload);
              match verifyTree decode_manifest encode_manifest (tv_walk tree) (tv_resolve tree) (tv_policy tree) m true with
              | Some e => fail e
              | None => ok tt
              end
          end
    end.

Definition runtime_directory : M (unit + string) :=
  s ← sys (os_Stat runtimeRoot);
  try _ := (match s with inl None => mkdirOwned runtimeRoot 493 | _ => ok tt end) in
  try _ := protect runtimeRoot false in
  verifyOwnedDirectory runtimeRoot 493.

(** The descriptor of the lock stays open until the end of the process. *)
Definition take_lock : M (unit + string) :=
  let path := runtimeRoot ++s "/installer.lock" in
  first ← sys (unix_OpenLock path true);
  opened ← (match first with LockExists => sys (unix_OpenLock path false) | _ => mret first end);
  match opened with
  | Locked h =>
      try _ := (match first with Locked _ => ownFD h 384 Regular | _ => ok tt end) in
      try st := sys (unix_Fstat h) in
      if negb (is_owned st 384 Regular) then fail "unsafe installer lock"
      else r ← sys (unix_Flock h); match r with inl _ => ok tt | inr _ => fail "another installation is active" end
  | NoLock => fail "no such file or directory"
  | LockExists => fail "file exists"
  | LockFailed e => fail e
  end.

(** The flags as package [flag] parses them; [supported] is the check of the machine and of
    the effective user. *)
Definition runPlatform (supported : unit + string) (setgid : unit + string) (mode : string) (flags : Flags + string) : M (unit + InstallError) :=
  let stop e := mret (inr (Plain e)) in
  match supported, setgid with
  | inr e, _ | inl _, inr e => stop e
  | inl _, inl _ =>
      if negb (mode =?s "install") && negb (mode =?s "uninstall") then stop "unsupported action"
      else match flags with
      | inr e => stop e
      | inl flags =>
          if negb (fl_rest flags =? 0)%nat then stop "unexpected arguments"
          else
            r ← (try _ := examine "orphan launch plist; manual audit required" "orphan live daemon; manual audit required" in
                 try _ := (if mode =?s "install" then load_payload flags else ok tt) in
                 try _ := runtime_directory in
                 try _ := take_lock in
                 examine "orphan plist; audit required" "orphan daemon; audit required");
            match r with
            | inr e => stop e
            | inl _ =>
                if mode =?s "uninstall" then r ← uninstall; mret (step_of r)
                else
                  old ← self ml_old;
                  owner ← installOwner old (fl_owner flags);
                  match owner with
                  | inr e => stop e
                  | inl a => assign (set_owner a) ≫= fun _ => replace
                  end
            end
      end
  end.
End Installer.
