(* ===== verification/InstallPaths.v ===== *)
(** * The names of a manifest on disk

    A name that the manifest may have leads below the directory that it is joined to, or to
    the directory above it, which is the one name too many that [safeName] accepts. *)
From S2P Require Import Prelude GoText NativeNetwork FilePath InstallPackage InstallDisk.
From stdpp Require Import list.

#[local] Open Scope string_scope.
#[local] Open Scope Z_scope.
#[local] Open Scope list_scope.

Definition no_slash (n : string) : Prop := string_all (fun c => negb (Ascii.eqb c slash)) n = true.

Lemma split_slash_pieces s : Forall no_slash (split_slash s).
Proof.
  induction s as [|c s IH]; cbn [split_slash]; [by repeat constructor|]. destruct (Ascii.eqb c slash) eqn:E; [by constructor|].
  destruct (split_slash s) as [|p l]; [repeat constructor|]; unfold no_slash in *; cbn [string_all]; [by rewrite E|].
  inversion_clear IH. constructor; [|done]. cbn [string_all]. by rewrite E.
Qed.

Lemma split_slash_join l : l <> [] -> Forall no_slash l -> split_slash (strings_Join l "/") = l.
Proof.
  intros Hl Hall. induction Hall as [|a l Ha Hall IH]; [done|]. destruct l as [|b l]; [by apply split_slash_plain|].
  change (split_slash (a ++s "/" ++s strings_Join (b :: l) "/") = a :: b :: l). rewrite split_slash_app, IH by done. by rewrite (split_slash_plain a).
Qed.

(** Names that stay, above what leads up. *)
Definition upward (stack : list string) : Prop := exists ps n, stack = ps ++ repeat ".." n /\ Forall plain_name ps.

Lemma clean_go_upward l stack : Forall no_slash l -> upward stack -> upward (clean_go false stack l).
Proof.
  intros Hl. revert stack. induction Hl as [|c l Hc Hl IH]; intros stack Hs; [done|]. cbn [clean_go].
  destruct ((c =?s "") || (c =?s ".")) eqn:E0; [by apply IH|]. apply orb_false_iff in E0 as [E1%String.eqb_neq E2%String.eqb_neq].
  destruct Hs as (ps & n & -> & Hps). destruct (c =?s "..") eqn:E3.
  - destruct Hps as [|p ps Hp Hps]; cbn [app].
    + destruct n as [|n]; cbn [repeat]; [|replace (".." =?s "..") with true by done]; apply IH.
      * by exists [], 1%nat.
      * by exists [], (S (S n)).
    + rewrite (proj2 (String.eqb_neq _ _)) by apply Hp. apply IH. by exists ps, n.
  - apply String.eqb_neq in E3. apply IH. exists (c :: ps), n. split; [done|]. by constructor.
Qed.

Lemma join_dots n rest : strings_HasPrefix (strings_Join (repeat ".." (S (S n)) ++ rest) "/") "../" = true.
Proof. cbn [repeat app strings_Join]. apply (has_prefix_app _ "../"). Qed.

Lemma join_dots_plain p rest : strings_HasPrefix (strings_Join (".." :: p :: rest) "/") "../" = true.
Proof. apply (has_prefix_app _ "../"). Qed.

(** A safe name is [".."], or names that stay. *)
Lemma safe_pieces rel : safeName rel = true -> rel = ".." \/ exists ps, ps <> [] /\ Forall plain_name ps /\ rel = strings_Join ps "/".
Proof.
  unfold safeName. intros H. repeat apply andb_true_iff in H as [H ?]. apply negb_true_iff, String.eqb_neq in H.
  match goal with Hd : negb (rel =?s ".") = true |- _ => apply negb_true_iff, String.eqb_neq in Hd as Hdot end.
  match goal with Hc : (Clean rel =?s rel) = true |- _ => apply String.eqb_eq in Hc as Hclean end.
  match goal with Hr : negb (rooted rel) = true |- _ => apply negb_true_iff in Hr as Hroot end.
  match goal with Hp : negb (strings_HasPrefix rel "../") = true |- _ => apply negb_true_iff in Hp as Hpre end.
  unfold Clean in Hclean. rewrite Hroot in Hclean.
  destruct (strings_Join (rev (clean_go false [] (split_slash rel))) "/" =?s "") eqn:Eo; [congruence|].
  destruct (clean_go_upward (split_slash rel) [] (split_slash_pieces rel)) as (ps & n & Es & Hps); [by exists [], 0%nat|].
  rewrite Es, rev_app_distr in Hclean. assert (Hrep : forall k, rev (repeat ".." k) = repeat ".." k).
  { intros k. induction k as [|k IHk]; [done|]. cbn [repeat rev]. rewrite IHk. symmetry. apply repeat_cons. }
  rewrite Hrep in Hclean. destruct n as [|[|n]].
  - right. exists (rev ps). cbn [repeat app] in Hclean. split; [|split; [by apply Forall_rev|done]]. intros E. rewrite E in Hclean. by rewrite <- Hclean in H.
  - destruct (rev ps) as [|p l] eqn:Er; [by left|]. exfalso. cbn [repeat app] in Hclean. rewrite <- Hclean, join_dots_plain in Hpre. done.
  - exfalso. rewrite <- Hclean, join_dots in Hpre. done.
Qed.

(** ** Joined to a directory *)
Lemma clean_dir_below d n : clean_dir d -> plain_name n -> clean_dir (d ++s "/" ++s n).
Proof.
  intros Hd Hn. split; [by apply Clean_below|]. pose proof (clean_dir_nonempty d Hd) as H0. destruct d as [|a d]; [done|].
  split; intros E; injection E as _ E; destruct d; discriminate E.
Qed.

Lemma Clean_below_list ps d : clean_dir d -> ps <> [] -> Forall plain_name ps -> Clean (d ++s "/" ++s strings_Join ps "/") = d ++s "/" ++s strings_Join ps "/".
Proof.
  intros Hd Hne Hall. revert d Hd Hne. induction Hall as [|p ps Hp Hps IH]; intros d Hd Hne; [done|]. destruct ps as [|q ps]; [by apply Clean_below|].
  change (strings_Join (p :: q :: ps) "/") with (p ++s "/" ++s strings_Join (q :: ps) "/").
  specialize (IH (d ++s "/" ++s p) (clean_dir_below d p Hd Hp) ltac:(done)). by rewrite !string_app_assoc in IH.
Qed.

Lemma join_nonempty ps : ps <> [] -> Forall plain_name ps -> strings_Join ps "/" <> "".
Proof. intros Hne Hl. destruct Hl as [|p l (_ & Hp & _) Hl]; [done|]. destruct l; [done|]. by destruct p. Qed.

(** The directory above. *)
Lemma Clean_up d n : clean_dir d -> plain_name n -> Clean ((d ++s "/" ++s n) ++s "/" ++s "..") = d.
Proof.
  intros Hd Hn. pose proof (clean_dir_stack d Hd) as Hs. unfold Clean. rewrite !rooted_app by (pose proof (clean_dir_nonempty d Hd); by destruct d).
  rewrite !split_slash_app, (split_slash_plain n), <- app_assoc, !clean_go_app, (clean_go_plain _ _ _ Hn) by apply Hn.
  change (split_slash "..") with [".."]. cbn [clean_go orb String.eqb Ascii.eqb Bool.eqb].
  replace ((".." =?s "") || (".." =?s ".")) with false by done. replace (".." =?s "..") with true by done.
  rewrite (proj2 (String.eqb_neq n "..")) by apply Hn. destruct Hd as (Hd & _). exact Hd.
Qed.

(** Where a name of the manifest leads. *)
Lemma safe_join d n rel : clean_dir d -> plain_name n -> safeName rel = true ->
  FilePath.Join (d ++s "/" ++s n) rel = d \/ FilePath.Join (d ++s "/" ++s n) rel = (d ++s "/" ++s n) ++s "/" ++s rel.
Proof.
  intros Hd Hn Hr. pose proof (clean_dir_below d n Hd Hn) as Hdn. pose proof (clean_dir_nonempty _ Hdn) as H0. unfold FilePath.Join.
  rewrite (proj2 (String.eqb_neq _ _) H0). destruct (safe_pieces rel Hr) as [->|(ps & Hne & Hps & ->)]; [left; by apply Clean_up|right].
  rewrite (proj2 (String.eqb_neq _ _) (join_nonempty ps Hne Hps)). by apply Clean_below_list.
Qed.

(** ** Manifests *)
Section Manifests.
Context `{!UnicodeTables}.

Lemma check_entries_safe seen l : check_entries seen l = None -> Forall (fun e => safeName (en_Path e) = true /\ entry_error e = None) l.
Proof.
  revert seen. induction l as [|e l IH]; intros seen; cbn [check_entries]; [by constructor|].
  destruct (negb (safeName (en_Path e)) || _) eqn:E; [done|]. apply orb_false_iff in E as [E%negb_false_iff _].
  destruct (entry_error e) eqn:Ee; [done|]. intros Hrest. constructor; [done|]. by eapply IH.
Qed.

Lemma parsed_safe decode data m : parseManifest decode data = inl m -> Forall (fun e => safeName (en_Path e) = true /\ entry_error e = None) (mf_Files m).
Proof.
  unfold parseManifest. destruct (_ <? _); [done|]. destruct (decode data) as [m'|]; [|done]. destruct (manifest_error m') eqn:E; [done|]. intros [= <-].
  unfold manifest_error in E. destruct (_ || _); [done|]. by eapply check_entries_safe.
Qed.
End Manifests.
