(* ===== verification/InstallSpec.v ===== *)
(** * What the steps of the macOS installer touch

    The laws of the system that the installer runs on, as a disk and a keychain, and for
    each operation that renames nothing the paths that it may change. *)
From S2P Require Import Prelude Trail GoText NativeNetwork DarwinSystem FilePath InstallPackage InstallDisk InstallMac.
From stdpp Require Import list.

#[local] Open Scope string_scope.
#[local] Open Scope Z_scope.
#[local] Open Scope list_scope.

(** ** Paths *)

(** What the service writes while it runs. *)
Definition state_part (x : string) : bool := match under "/state" x with Some _ => true | None => false end.
Definition in_state (q : string) : bool := match under (installRoot ++s "/state") q with Some _ => true | None => false end.

Definition stage_prefix := "/Library/Application Support/.RegenBioAccess-stage-".

(** ** Laws *)
Section Relations.
Context {W : Type} (disk : W -> Disk) (in_keychain : W -> Prop).

(** At most these objects change, the service's state apart; with [k], the keychain is left. *)
Record steps (k : bool) (P : string -> Prop) (w w' : W) : Prop := {
  st_disk q : in_state q = false -> ~ P q -> disk w' q = disk w q;
  st_keychain : k = true -> (in_keychain w' <-> in_keychain w)
}.

#[export] Instance steps_order k P : PreOrder (steps k P).
Proof.
  split; [by split|]. intros w1 w2 w3 [H1 K1] [H2 K2]. split.
  - intros q Hq HP. by rewrite H2, H1.
  - intros Hk. by rewrite K2, K1.
Qed.

Lemma steps_mono k k' (P P' : string -> Prop) w w' : (forall q, P q -> P' q) -> (k' = true -> k = true) -> steps k P w w' -> steps k' P' w w'.
Proof. intros HP Hk [H K]. split; [|auto]. intros q Hq Hn. apply H; auto. Qed.

Definition calm : W -> W -> Prop := steps true (fun _ => False).

Lemma steps_calm k P w w' : calm w w' -> steps k P w w'.
Proof. apply steps_mono; [done|auto]. Qed.

(** A rename moves a whole tree or nothing. *)
Record renames (a b : string) (w w' : W) : Prop := {
  rn_disk q : in_state q = false -> disk w' q = move a b (disk w) q;
  rn_keychain : in_keychain w' <-> in_keychain w
}.
End Relations.

(** The system: what an object was opened for tells which object a descriptor is; native
    programs touch only the service's state and the keychain. *)
Class InstallLaws (W : Type) `{!installSystem W} (disk : W -> Disk) (in_keychain : W -> Prop) : Prop := {
  law_abs p w : calm disk in_keychain w (filepath_Abs p w).2;
  law_tree p w : calm disk in_keychain w (read_tree p w).2;
  law_lstat p w : calm disk in_keychain w (os_Lstat p w).2 /\ answers (os_Lstat p w).1 (fun s => in_state p = false -> (s = None <-> disk (os_Lstat p w).2 p = None));
  law_stat p w : calm disk in_keychain w (os_Stat p w).2;
  law_mkdir p mode w : steps disk in_keychain true (eq p) w (os_Mkdir p mode w).2;
  law_mkdirtemp dir name w :
    match (os_MkdirTemp dir name w).1 with
    | inl p => (exists t, p = dir ++s "/" ++s name ++s t /\ string_all (fun a => negb (Ascii.eqb a slash)) t = true) /\ steps disk in_keychain true (eq p) w (os_MkdirTemp dir name w).2
    | inr _ => calm disk in_keychain w (os_MkdirTemp dir name w).2
    end;
  law_symlink target p w : steps disk in_keychain true (eq p) w (os_Symlink target p w).2;
  law_lchown p w : calm disk in_keychain w (unix_Lchown p w).2;
  law_rename a b w :
    match (os_Rename a b w).1 with inl _ => renames disk in_keychain a b w (os_Rename a b w).2 | inr _ => calm disk in_keychain w (os_Rename a b w).2 end;
  law_readfile p w : calm disk in_keychain w (os_ReadFile p w).2;
  law_open p w : calm disk in_keychain w (os_Open p w).2;
  law_opendirectory p w : calm disk in_keychain w (unix_OpenDirectory p w).2;
  law_openexclusive p mode w : steps disk in_keychain true (eq p) w (os_OpenExclusive p mode w).2 /\
    answers (os_OpenExclusive p mode w).1 (fun h => h_name h = p);
  law_openlock p create w : steps disk in_keychain true (fun q => create = true /\ q = p) w (unix_OpenLock p create w).2;
  law_flock h w : calm disk in_keychain w (unix_Flock h w).2;
  law_fchown h w : calm disk in_keychain w (unix_Fchown h w).2;
  law_fchmod h mode w : calm disk in_keychain w (unix_Fchmod h mode w).2;
  law_fstat h w : calm disk in_keychain w (unix_Fstat h w).2;
  law_write h data w : steps disk in_keychain true (eq (h_name h)) w (file_Write h data w).2;
  law_sync h w : calm disk in_keychain w (file_Sync h w).2;
  law_close h w : calm disk in_keychain w (file_Close h w).2;
  law_copy src dst limit w : steps disk in_keychain true (eq (h_name dst)) w (io_CopyLimited src dst limit w).2;
  law_hash h w : calm disk in_keychain w (hash_contents h w).2;
  law_native program args w : steps disk in_keychain false (fun _ => False) w (native program args w).2;
  law_status w : calm disk in_keychain w (client_StatusDetails w).2;
  law_disconnect w : calm disk in_keychain w (client_Disconnect w).2;
  law_now w : calm disk in_keychain w (time_Now w).2;
  law_sleep d w : calm disk in_keychain w (time_Sleep d w).2;
  law_suffix w : calm disk in_keychain w (time_suffix w).2
}.

Section Quietly.
Context {W : Type} `{!installSystem W, !installCodec, !UnicodeTables} (disk : W -> Disk) (in_keychain : W -> Prop).
Context `{!InstallLaws W disk in_keychain}.

#[local] Abbreviation M := (Trail.M macLife W).
#[local] Abbreviation steps := (steps disk in_keychain).
#[local] Abbreviation calm := (calm disk in_keychain).

(** A run that changes at most the objects of [P] and nothing of what the installer remembers. *)
Definition quietly {A} (k : bool) (P : string -> Prop) (m : M A) : Prop := reads (steps k P) (fun _ => True) m (fun _ _ => True).

Lemma quietly_ret {A} k P (x : A) : quietly k P (mret x).
Proof. eapply reads_weaken; [apply reads_ret|intros w Hw; exact Hw|done]. Qed.

Lemma quietly_self {A} k P (f : macLife -> A) : quietly k P (self f).
Proof. intros s _. split; [reflexivity|]. split; [done|]. split; [done|]. by exists []. Qed.

Lemma quietly_bind {A B} k P (m : M A) (f : A -> M B) : quietly k P m -> (forall x, quietly k P (f x)) -> quietly k P (m ≫= f).
Proof. intros Hm Hf. eapply reads_bind; [exact Hm|exact Hf]. Qed.

Lemma quietly_try {A B} k P (m : M (A + string)) (f : A -> M (B + string)) : quietly k P m -> (forall x, quietly k P (f x)) -> quietly k P (try_bind m f).
Proof. intros Hm Hf. apply quietly_bind; [done|]. intros [x|e]; [apply Hf|apply quietly_ret]. Qed.

Lemma quietly_sys {A} k P (op : StateM W A) : (forall w, steps k P w (op w).2) -> quietly k P (sys op).
Proof. intros Hop. apply reads_sys. intros w _. by split. Qed.

Lemma quietly_calm {A} k P (op : StateM W A) : (forall w, calm w (op w).2) -> quietly k P (sys op).
Proof. intros Hop. apply quietly_sys. intros w. by apply steps_calm. Qed.

Lemma quietly_touch {A} k (P : string -> Prop) (op : StateM W A) p : P p -> (forall w, steps true (eq p) w (op w).2) -> quietly k P (sys op).
Proof. intros Hp Hop. apply quietly_sys. intros w. eapply steps_mono; [|by intros _|apply Hop]. by intros q <-. Qed.

Lemma quietly_mono {A} k k' (P P' : string -> Prop) (m : M A) : (forall q, P q -> P' q) -> (k' = true -> k = true) -> quietly k P m -> quietly k' P' m.
Proof.
  intros HP Hk Hm s Hs. destruct (Hm s Hs) as (Hq & Hg & Hp & l & Hl & Hall). split; [by eapply steps_mono|]. split; [done|]. split; [done|].
  exists l. split; [done|]. eapply Forall_impl; [exact Hall|]. intros w. by apply steps_mono.
Qed.

(** ** Procedures that touch little *)
#[local] Hint Extern 1 (calm _ _) => first
  [ apply law_abs | apply law_tree | apply law_lstat | apply law_stat | apply law_lchown | apply law_readfile | apply law_open | apply law_opendirectory
  | apply law_flock | apply law_fchown | apply law_fchmod | apply law_fstat | apply law_sync | apply law_close | apply law_hash | apply law_status
  | apply law_disconnect | apply law_now | apply law_sleep | apply law_suffix ] : core.

#[local] Ltac quiet := repeat match goal with
  | |- quietly _ _ (try_bind _ _) => apply quietly_try; [|intros ?]
  | |- quietly _ _ (_ ≫= _) => apply quietly_bind; [|intros ?]
  | |- quietly _ _ (mret _) => apply quietly_ret
  | |- quietly _ _ (ok _) => apply quietly_ret
  | |- quietly _ _ (Trail.fail _) => apply quietly_ret
  | |- quietly _ _ (self _) => apply quietly_self
  | |- quietly _ _ (sys _) => apply quietly_calm; intros ?; solve [auto]
  | |- quietly _ _ (match ?x with _ => _ end) => destruct x
  | |- quietly _ _ _ => solve [eauto]
  end.

Lemma native_quiet P program args : quietly false P (sys (native program args)).
Proof. apply quietly_sys. intros w. eapply steps_mono; [|by intros E|apply law_native]. done. Qed.

Lemma command_quiet P program args : quietly false P (command program args).
Proof. unfold command. apply quietly_bind; [apply native_quiet|]. intros o. apply quietly_ret. Qed.

Lemma run_quiet P program args : quietly false P (run_ok program args).
Proof. apply quietly_try; [apply command_quiet|]. intros x. apply quietly_ret. Qed.

Lemma registered_quiet P : quietly false P registered.
Proof. apply quietly_bind; [apply native_quiet|]. intros o. apply quietly_ret. Qed.
#[local] Hint Resolve native_quiet command_quiet run_quiet registered_quiet : core.

Lemma protect_quiet k P p missingOK : quietly k P (protect p missingOK).
Proof.
  unfold protect. destruct (_ || _); [quiet|]. generalize (strings_Split (strings_TrimPrefix p "/") slash). intros l. generalize "/". induction l as [|v l IH]; intros cur; cbn [protect_parts]; quiet.
Qed.
#[local] Hint Resolve protect_quiet : core.

Lemma protect_all_quiet k P missingOK l : quietly k P (protect_all missingOK l).
Proof. induction l as [|p l IH]; cbn [protect_all]; quiet. Qed.

Lemma ownFD_quiet k P h mode kind : quietly k P (ownFD h mode kind).
Proof. unfold ownFD. quiet. Qed.
#[local] Hint Resolve protect_all_quiet ownFD_quiet : core.

Lemma closing_quiet {A} k P h (m : M (A + string)) : quietly k P m -> quietly k P (closing h m).
Proof. intros Hm. unfold closing. quiet. Qed.
#[local] Hint Resolve closing_quiet : core.

Lemma ownDirectory_quiet k P p mode : quietly k P (ownDirectory p mode).
Proof. unfold ownDirectory. quiet. Qed.

Lemma verifyOwned_quiet k P p mode : quietly k P (verifyOwnedDirectory p mode).
Proof. unfold verifyOwnedDirectory. quiet. Qed.

Lemma ownLink_quiet k P p : quietly k P (ownLink p).
Proof. unfold ownLink. quiet. Qed.

Lemma syncDir_quiet k P p : quietly k P (syncDir p).
Proof. unfold syncDir. apply quietly_try; [quiet|]. intros h. apply closing_quiet. quiet. Qed.

Lemma then_close_quiet k P h r : quietly k P (then_close h r).
Proof. unfold then_close. quiet. Qed.

Lemma digest_quiet k P p : quietly k P (digestFile p).
Proof. unfold digestFile. apply quietly_try; [quiet|]. intros h. apply closing_quiet. quiet. Qed.
#[local] Hint Resolve ownDirectory_quiet verifyOwned_quiet ownLink_quiet syncDir_quiet then_close_quiet digest_quiet : core.

Lemma mkdirOwned_quiet k (P : string -> Prop) p mode : P p -> quietly k P (mkdirOwned p mode).
Proof. intros Hp. unfold mkdirOwned. apply quietly_try; [by apply (quietly_touch k P _ p); [done|]; intros w; apply law_mkdir|]. intros u. quiet. Qed.

(** A new file under a name: what its handle was opened for is that name. *)
Lemma create_then {A} k (P : string -> Prop) p mode (f : Handle + string -> M A) : P p -> (forall h, h_name h = p -> quietly k P (f (inl h))) -> (forall e, quietly k P (f (inr e))) ->
  quietly k P (sys (os_OpenExclusive p mode) ≫= f).
Proof.
  intros Hp Hf He. eapply (reads_bind _ _ _ (fun r _ => answers r (fun h => h_name h = p))).
  - apply reads_sys. intros w _. destruct (law_openexclusive p mode w) as [Hs Ha]. split; [eapply steps_mono; [|by intros _|exact Hs]; by intros q <-|].
    destruct (os_OpenExclusive p mode w).1; [exact Ha|done].
  - intros [h|e]; [|eapply reads_weaken; [apply He|done|done]]. intros s Hs. by apply (Hf h).
Qed.

Lemma write_quiet k (P : string -> Prop) h data : P (h_name h) -> quietly k P (sys (file_Write h data)).
Proof. intros Hp. apply (quietly_touch k P _ (h_name h)); [done|]. intros w. apply law_write. Qed.

Lemma copy_quiet k (P : string -> Prop) src dst limit : P (h_name dst) -> quietly k P (sys (io_CopyLimited src dst limit)).
Proof. intros Hp. apply (quietly_touch k P _ (h_name dst)); [done|]. intros w. apply law_copy. Qed.

Lemma privateWrite_quiet k (P : string -> Prop) p data mode : P p -> quietly k P (privateWrite p data mode).
Proof.
  intros Hp. unfold privateWrite. apply quietly_try; [quiet|]. intros u. apply create_then; [done| |intros e; apply quietly_ret].
  intros h <-. pose proof (write_quiet k P h data Hp). quiet.
Qed.

Lemma copy_file_quiet k (P : string -> Prop) source p e : P p -> quietly k P (copy_file source p e).
Proof.
  intros Hp. unfold copy_file. apply quietly_try; [quiet|]. intros src. apply create_then; [done| |intros err; quiet].
  intros h <-. pose proof (fun limit => copy_quiet k P src h limit Hp). quiet.
Qed.

Lemma copy_entry_quiet k (P : string -> Prop) source dest e : P (FilePath.Join dest (en_Path e)) -> quietly k P (copy_entry source dest e).
Proof.
  intros Hp. unfold copy_entry. destruct (_ =?s _); [by apply mkdirOwned_quiet|]. destruct (_ =?s _).
  { apply quietly_try; [apply (quietly_touch k P _ (FilePath.Join dest (en_Path e))); [done|]; intros w; apply law_symlink|]. intros u. quiet. }
  destruct (_ =?s _); [by apply copy_file_quiet|quiet].
Qed.

Lemma copyPayload_quiet k (P : string -> Prop) source dest l : Forall (fun e => P (FilePath.Join dest (en_Path e))) l -> quietly k P (copyPayload source dest l).
Proof. induction 1 as [|e l He Hl IH]; cbn [copyPayload]; [quiet|]. apply quietly_try; [by apply copy_entry_quiet|]. done. Qed.

(** ** The service and the checks *)
Lemma sleep_quiet k P d : quietly k P (sleep d).
Proof. unfold sleep. quiet. Qed.
#[local] Hint Resolve sleep_quiet : core.

Lemma poll_quiet k P deadline pause late attempt fuel : quietly k P attempt -> quietly k P (poll deadline pause late attempt fuel).
Proof.
  intros Ha. induction fuel as [|fuel IH]; cbn [poll]; [quiet|]. apply quietly_bind; [done|]. intros [r|]; [quiet|].
  apply quietly_bind; [quiet|]. intros t. destruct (_ <? _); [quiet|]. by apply quietly_bind.
Qed.

Lemma poll_for_quiet k P timeout pause late attempt : quietly k P attempt -> quietly k P (poll_for timeout pause late attempt).
Proof. intros Ha. apply quietly_bind; [quiet|]. intros t. by apply poll_quiet. Qed.

Lemma await_quiet P deadline fuel : quietly false P (await_from (sys time_Now) sleep (fun _ => registered) deadline fuel).
Proof.
  induction fuel as [|fuel IH]; cbn [await_from]; [quiet|]. apply quietly_bind; [quiet|]. intros t. destruct (_ <=? _); [quiet|].
  apply quietly_try; [quiet|]. intros []; [|quiet]. apply quietly_bind; [quiet|]. intros t'. destruct (_ <=? _); [quiet|]. apply quietly_bind; [quiet|done].
Qed.

Lemma unregistered_quiet P : quietly false P waitUnregistered.
Proof. apply quietly_bind; [quiet|]. intros t. apply await_quiet. Qed.

Lemma waitIdle_quiet k P : quietly k P waitIdle.
Proof. apply poll_for_quiet. unfold idle_attempt. quiet. Qed.

Lemma openlock_quiet k P p : quietly k P (sys (unix_OpenLock p false)).
Proof. apply quietly_sys. intros w. eapply steps_mono; [|by intros _|apply law_openlock]. by intros q []. Qed.

Lemma lock_quiet k P : quietly k P lock_attempt.
Proof. unfold lock_attempt. apply quietly_bind; [apply openlock_quiet|]. intros a. quiet. Qed.
#[local] Hint Resolve unregistered_quiet waitIdle_quiet : core.

Lemma stop_quiet P : quietly false P step_stop.
Proof.
  unfold step_stop. apply quietly_try; [quiet|]. intros present. apply quietly_try; [quiet|]. intros u. apply poll_for_quiet, lock_quiet.
Qed.

Lemma status_quiet P : quietly false P status.
Proof. unfold status. quiet. Qed.

Lemma binaries_quiet k P m l : quietly k P (validate_binaries m l).
Proof. induction l as [|n l IH]; cbn [validate_binaries]; quiet. Qed.
#[local] Hint Resolve binaries_quiet : core.

Lemma validate_quiet k P : quietly k P validateInstalled.
Proof. unfold validateInstalled. quiet. Qed.
#[local] Hint Resolve validate_quiet : core.

Lemma restore_quiet P : quietly false P step_restore.
Proof. unfold step_restore. quiet. Qed.

Lemma bootstrap_quiet P : quietly false P bootstrap.
Proof. apply run_quiet. Qed.
#[local] Hint Resolve bootstrap_quiet : core.

Lemma start_old_quiet P : quietly false P step_start_old.
Proof. unfold step_start_old. quiet. Qed.

Lemma caPresent_quiet P : quietly false P caPresent.
Proof. unfold caPresent. quiet. Qed.

Lemma verify_cert_quiet P : quietly false P verify_cert.
Proof. apply run_quiet. Qed.

Lemma delete_quiet P : quietly false P delete_certificate.
Proof. apply run_quiet. Qed.
#[local] Hint Resolve caPresent_quiet verify_cert_quiet delete_quiet : core.

Lemma removeCA_quiet P r : quietly false P (removeCA r).
Proof. unfold removeCA, finishOwnedCARemoval, remove_trust. quiet. Qed.

Lemma receipt_quiet k P : quietly k P staged_receipt.
Proof. unfold staged_receipt. quiet. Qed.

Lemma disconnect_quiet k P : quietly k P disconnect_first.
Proof. unfold disconnect_first. quiet. Qed.

(** ** Accounts *)
Lemma owner_quiet P name : quietly false P (lookupOwner name).
Proof. unfold lookupOwner. quiet. Qed.
#[local] Hint Resolve owner_quiet : core.

Lemma local_uid_quiet P uid : quietly false P (lookupLocalUID uid).
Proof. unfold lookupLocalUID. quiet. Qed.
#[local] Hint Resolve local_uid_quiet : core.

Lemma installOwner_quiet P old requested : quietly false P (installOwner old requested).
Proof. unfold installOwner, selectInstallOwner. quiet. Qed.
End Quietly.
