(* ===== verification/InstallCrash.v ===== *)
(** * Where the macOS installation is while it is replaced

    What was installed, the service's state apart, stands where it stood or under the name
    of its backup in every world that an installation goes through; an activation that is
    undone puts it back. *)
From S2P Require Import Prelude Trail GoText NativeNetwork DarwinSystem FilePath InstallPackage InstallDisk InstallMac InstallPaths InstallSpec.
From stdpp Require Import list.

#[local] Open Scope string_scope.
#[local] Open Scope Z_scope.
#[local] Open Scope list_scope.

(** ** Places *)
Definition backup_place (suffix : string) : string := installRoot ++s ".backup-" ++s suffix.
Definition retired_place (suffix : string) : string := installRoot ++s ".uninstalled-" ++s suffix.

(** Where a program that was installed may be. *)
Definition kept_place (p : string) : Prop := p = installRoot \/ exists t, p = backup_place t \/ p = retired_place t.

Definition same_program (d : Disk) (p : string) (d0 : Disk) (p0 : string) : Prop :=
  forall x, below x = true -> state_part x = false -> d (p ++s x) = d0 (p0 ++s x).

(** Paths below which the service writes nothing but its state. *)
Definition visible (p : string) : Prop := forall x, below x = true -> state_part x = false -> in_state (p ++s x) = false.

Lemma visible_apart p : apart p (installRoot ++s "/state") -> visible p.
Proof. intros Ha x Hx _. unfold in_state. by rewrite under_apart. Qed.

Lemma string_app_inj (p x y : string) : p ++s x = p ++s y -> x = y.
Proof. induction p as [|a p IH]; [done|]. intros E. injection E as E. auto. Qed.

Lemma visible_root : visible installRoot.
Proof.
  intros x Hx Hs. unfold in_state. destruct (under (installRoot ++s "/state") (installRoot ++s x)) as [y|] eqn:E; [|done].
  apply under_inv in E as [E Hy]. rewrite string_app_assoc in E. apply string_app_inj in E. subst x. unfold state_part in Hs. by rewrite under_app in Hs.
Qed.

(** Paths that differ at a byte, as constants. *)
Ltac differ := intros x y Hx Hy E; first [discriminate E | destruct x as [|cx x]; [discriminate E|]; apply Ascii.eqb_eq in Hx; subst cx; discriminate E].

Lemma backup_visible t : visible (backup_place t).
Proof. apply visible_apart. differ. Qed.

Lemma retired_visible t : visible (retired_place t).
Proof. apply visible_apart. differ. Qed.

Lemma kept_visible p : kept_place p -> visible p.
Proof. intros [->|(t & [->| ->])]; [apply visible_root|apply backup_visible|apply retired_visible]. Qed.

Lemma root_not_state : in_state installRoot = false.
Proof. reflexivity. Qed.

Lemma plist_not_state t : in_state (plistPath ++s t) = false.
Proof. unfold in_state. destruct (under _ _) as [y|] eqn:E; [|done]. by apply under_inv in E as [E _]. Qed.

(** The places are apart from each other. *)
Lemma backup_apart_root t : apart (backup_place t) installRoot.
Proof. apply apart_sym. differ. Qed.

Lemma stage_apart_root t : apart (stage_prefix ++s t) installRoot.
Proof. differ. Qed.

Lemma stage_apart_backup t t' : apart (stage_prefix ++s t) (backup_place t').
Proof. differ. Qed.

Lemma plist_apart_root t : apart (plistPath ++s t) installRoot.
Proof. differ. Qed.

Lemma plist_apart_backup t t' : apart (plistPath ++s t) (backup_place t').
Proof. differ. Qed.

Lemma plist_apart_stage t t' : apart (plistPath ++s t) (stage_prefix ++s t').
Proof. differ. Qed.

Lemma apart_under p q : apart p q -> under q p = None.
Proof. intros Ha. rewrite <- (string_app_nil_r p). by apply under_apart. Qed.

Lemma plist_backup_elsewhere t : under plistPath (plistPath ++s ".backup-" ++s t) = None.
Proof. apply apart_under, apart_sym. differ. Qed.

Lemma plist_backup_elsewhere' t : under (plistPath ++s ".backup-" ++s t) plistPath = None.
Proof. apply apart_under. differ. Qed.

(** What is written while a stage is prepared: below its name, or the directory that a name
    of the manifest may lead to. *)
Definition staged (q : string) : Prop := q = "/Library/Application Support" \/ exists t, q = stage_prefix ++s t.

Lemma staged_root x : ~ staged (installRoot ++s x).
Proof. intros [E|[t E]]; discriminate E. Qed.

Lemma staged_plist : ~ staged plistPath.
Proof. intros [E|[t E]]; discriminate E. Qed.

Lemma dir_root : Dir installRoot = "/Library/Application Support".
Proof. reflexivity. Qed.

(** The names of a manifest, joined to the stage. *)
Lemma staged_join t rel : string_all (fun a => negb (Ascii.eqb a slash)) t = true -> safeName rel = true -> staged (FilePath.Join (stage_prefix ++s t) rel).
Proof.
  intros Ht Hr. change (stage_prefix ++s t) with ("/Library/Application Support" ++s "/" ++s (".RegenBioAccess-stage-" ++s t)).
  destruct (safe_join "/Library/Application Support" (".RegenBioAccess-stage-" ++s t) rel) as [E|E]; [by vm_compute; repeat split; discriminate| |done| |].
  - split; [by rewrite string_all_app, Ht|done].
  - left. exact E.
  - right. exists (t ++s "/" ++s rel). rewrite E. by rewrite !string_app_assoc.
Qed.

(** ** What keeps a place *)
Section Places.
Context {W : Type} (disk : W -> Disk) (in_keychain : W -> Prop).

#[local] Abbreviation steps := (steps disk in_keychain).

Lemma steps_place k (P : string -> Prop) p d0 p0 w w' : visible p -> (forall x, below x = true -> ~ P (p ++s x)) -> steps k P w w' ->
  same_program (disk w) p d0 p0 -> same_program (disk w') p d0 p0.
Proof. intros Hv HP Hs Hw x Hx Hn. rewrite (st_disk _ _ _ _ _ _ Hs) by auto. auto. Qed.

Lemma steps_object k (P : string -> Prop) q v w w' : in_state q = false -> ~ P q -> steps k P w w' -> disk w q = v -> disk w' q = v.
Proof. intros Hq HP Hs <-. by apply Hs. Qed.

Lemma rename_place a b p d0 p0 w w' : visible p -> apart p a -> apart p b -> renames disk in_keychain a b w w' ->
  same_program (disk w) p d0 p0 -> same_program (disk w') p d0 p0.
Proof. intros Hv Ha Hb Hr Hw x Hx Hn. rewrite (rn_disk _ _ _ _ _ _ Hr) by auto. rewrite move_other by done. auto. Qed.

Lemma rename_moves a b d0 p0 w w' : visible b -> renames disk in_keychain a b w w' -> same_program (disk w) a d0 p0 -> same_program (disk w') b d0 p0.
Proof. intros Hv Hr Hw x Hx Hn. rewrite (rn_disk _ _ _ _ _ _ Hr) by auto. rewrite move_to by done. auto. Qed.

Lemma rename_object a b q v w w' : in_state q = false -> under a q = None -> under b q = None -> renames disk in_keychain a b w w' -> disk w q = v -> disk w' q = v.
Proof. intros Hq Ha Hb Hr <-. rewrite (rn_disk _ _ _ _ _ _ Hr) by done. by apply move_elsewhere. Qed.

Lemma rename_to a b v w w' : in_state b = false -> renames disk in_keychain a b w w' -> disk w a = v -> disk w' b = v.
Proof. intros Hb Hr <-. rewrite (rn_disk _ _ _ _ _ _ Hr) by done. unfold move. by rewrite under_self, string_app_nil_r. Qed.
End Places.
