(* ===== verification/InstallReplace.v ===== *)
(** * An installation that replaces another

    The steps of an upgrade with what each keeps of the installation that it replaces. *)
From S2P Require Import Prelude Trail GoText NativeNetwork DarwinSystem FilePath InstallPackage InstallDisk InstallMac InstallPaths InstallSpec InstallCrash.
From stdpp Require Import list.

#[local] Open Scope string_scope.
#[local] Open Scope Z_scope.
#[local] Open Scope list_scope.

Section Replace.
Context {W : Type} `{!installSystem W, !installCodec, !UnicodeTables} (disk : W -> Disk) (in_keychain : W -> Prop).
Context `{!InstallLaws W disk in_keychain}.

#[local] Abbreviation M := (Trail.M macLife W).
#[local] Abbreviation St := (Trail.St macLife W).
#[local] Abbreviation steps := (steps disk in_keychain).
#[local] Abbreviation calm := (calm disk in_keychain).
#[local] Abbreviation renames := (renames disk in_keychain).
#[local] Abbreviation quietly := (quietly disk in_keychain).

(** What was found: its disk, and the job of its service. *)
Context (D0 : Disk) (pl : Node) (Hpl : D0 plistPath = Some pl).

Definition holds (p : string) (w : W) : Prop := same_program (disk w) p D0 installRoot.
Definition as_found (w : W) : Prop := holds installRoot w /\ disk w plistPath = Some pl.
Definition kept (w : W) : Prop := exists p, kept_place p /\ holds p w.

(** ** Runs from a state *)
Lemma twp_quiet {A} C k P (m : M A) Q (s : St) : quietly k P m -> (forall w, steps k P (world s) w -> C w) ->
  (forall x s', mgr s' = mgr s -> steps k P (world s) (world s') -> Q x s') -> twp C m Q s.
Proof.
  intros Hm HC HQ. destruct (Hm s I) as (Hq & Hg & _ & l & Hl & Hall). split; [by apply HQ|]. exists l. split; [done|].
  eapply Forall_impl; [exact Hall|]. exact HC.
Qed.

Lemma twp_assign C f (Q : unit -> St -> Prop) s : Q tt (mkSt (f (mgr s)) (world s) (trail s)) -> twp C (assign f) Q s.
Proof. intros HQ. split; [done|]. by exists []. Qed.

Lemma twp_self {A} C (f : macLife -> A) (Q : A -> St -> Prop) s : Q (f (mgr s)) s -> twp C (self f) Q s.
Proof. intros HQ. split; [done|]. by exists []. Qed.

Lemma twp_rename C a b (Q : unit + string -> St -> Prop) (s : St) :
  (forall w e, calm (world s) w -> C w /\ Q (inr e) (mkSt (mgr s) w (w :: trail s))) ->
  (forall w, renames a b (world s) w -> C w /\ Q (inl tt) (mkSt (mgr s) w (w :: trail s))) -> twp C (sys (os_Rename a b)) Q s.
Proof.
  intros He Hok. pose proof (law_rename a b (world s)) as Hl. destruct (os_Rename a b (world s)) as [[[]|e] w] eqn:E; cbn in Hl; apply twp_sys; rewrite E; cbn.
  - by apply Hok.
  - by apply Hok.
  - by apply (He w e).
  - by apply (He w e).
Qed.

Lemma kept_apart_plist p t : kept_place p -> apart p (plistPath ++s t).
Proof. intros [->|(t' & [->| ->])]; apply apart_sym; differ. Qed.

Lemma twp_ext {A} C (m m' : M A) Q (s : St) : (forall s, m s = m' s) -> twp C m' Q s -> twp C m Q s.
Proof. intros E. unfold twp. by rewrite E. Qed.

Lemma kept_at p w : kept_place p -> holds p w -> kept w.
Proof. intros Hp Hh. by exists p. Qed.

Lemma found_kept w : as_found w -> kept w.
Proof. intros [Hh _]. exists installRoot. split; [by left|done]. Qed.

Lemma backup_kept t w : holds (backup_place t) w -> kept w.
Proof. intros Hh. exists (backup_place t). split; [right; exists t; by left|done]. Qed.

Lemma found_steps k (P : string -> Prop) w w' : (forall x, below x = true -> ~ P (installRoot ++s x)) -> ~ P plistPath -> steps k P w w' -> as_found w -> as_found w'.
Proof.
  intros Hr Hp Hs [Hh Hd]. split; [eapply (steps_place disk in_keychain k P); eauto; apply visible_root|].
  eapply (steps_object disk in_keychain k P); [done|exact Hp|exact Hs|exact Hd].
Qed.

(** Nothing that matters is touched. *)
Lemma found_calm k w w' : steps k (fun _ => False) w w' -> as_found w -> as_found w'.
Proof. apply found_steps; auto. Qed.

(** ** The stage *)
Definition safe_life (l : macLife) : Prop := Forall (fun e => safeName (en_Path e) = true /\ entry_error e = None) (mf_Files (ml_m l)).

Record same_life (l l' : macLife) : Prop := {
  sl_old : ml_old l' = ml_old l; sl_backup : ml_backup l' = ml_backup l; sl_oldPlist : ml_oldPlist l' = ml_oldPlist l; sl_added : ml_addedNow l' = ml_addedNow l
}.

(** One more call, still within what was touched since [w0]. *)
Lemma twp_next {A B} k P w0 (m : M (A + string)) (f : A -> M (B + string)) Q (s : St) : quietly k P m -> steps k P w0 (world s) ->
  (forall x s', mgr s' = mgr s -> steps k P w0 (world s') -> twp (steps k P w0) (f x) Q s') -> (forall e s', mgr s' = mgr s -> steps k P w0 (world s') -> Q (inr e) s') ->
  twp (steps k P w0) (try_bind m f) Q s.
Proof.
  intros Hm Hs Hf He. apply twp_try. eapply twp_quiet; [exact Hm|intros w Hw; by etrans|]. intros [x|e] s' Hg Hq; [apply Hf|apply He]; auto; by etrans.
Qed.

Lemma stage_steps (s : St) : safe_life (mgr s) ->
  twp (steps false staged (world s)) prepareStage (fun r s' => steps false staged (world s) (world s') /\ same_life (mgr s) (mgr s') /\ (r = inl tt -> exists t, ml_stage (mgr s') = stage_prefix ++s t)) s.
Proof.
  intros Hm. unfold prepareStage. set (w0 := world s).
  apply twp_bind, twp_sys.
  { pose proof (law_mkdirtemp (Dir installRoot) ".RegenBioAccess-stage-" w0) as Hl. subst w0. destruct (os_MkdirTemp _ _ (world s)) as [[p|e] w]; cbn [fst snd] in *; [|by apply steps_calm].
    destruct Hl as [(t & -> & _) Hl]. eapply (steps_mono disk in_keychain true false); [|done|exact Hl]. intros q <-. right. by exists t. }
  pose proof (law_mkdirtemp (Dir installRoot) ".RegenBioAccess-stage-" w0) as Hl. subst w0. destruct (os_MkdirTemp _ _ (world s)) as [[p|e] w]; cbn [fst snd] in *.
  2: { apply twp_bind, twp_assign, twp_ret. cbn. split; [by apply steps_calm|]. split; [by split|done]. }
  destruct Hl as [(t & -> & Ht) Hl]. change (Dir installRoot ++s "/" ++s ".RegenBioAccess-stage-" ++s t) with (stage_prefix ++s t) in *.
  assert (Hw : steps false staged (world s) w). { eapply (steps_mono disk in_keychain true false); [|done|exact Hl]. intros q <-. right. by exists t. }
  apply twp_bind, twp_assign. cbn [mgr world trail].
  set (w0 := world s) in *. set (l1 := set_stage (stage_prefix ++s t) (mgr s)).
  assert (H1 : same_life (mgr s) l1) by by split. assert (Hst : ml_stage l1 = stage_prefix ++s t) by done. assert (Hm1 : mf_Files (ml_m l1) = mf_Files (ml_m (mgr s))) by done.
  assert (Hbelow : forall x, staged ((stage_prefix ++s t) ++s x)). { intros x. right. exists (t ++s x). by rewrite string_app_assoc. }
  assert (Hcopy : quietly false staged (copyPayload (ml_payload l1) (stage_prefix ++s t) (mf_Files (ml_m l1)))).
  { eapply copyPayload_quiet; [done|]. rewrite Hm1. eapply Forall_impl; [exact Hm|]. intros e [Hs _]. by apply staged_join. }
  assert (Hend : forall e (s' : St), mgr s' = l1 -> steps false staged w0 (world s') ->
    (fun (r : unit + string) (s'' : St) => steps false staged w0 (world s'') /\ same_life (mgr s) (mgr s'') /\ (r = inl tt -> exists t, ml_stage (mgr s'') = stage_prefix ++s t)) (inr e) s') by (intros e s' -> Hs'; done).
  apply twp_next; [eapply ownDirectory_quiet; done|exact Hw| |intros e s' Hg; by apply Hend].
  intros _ s1 Hg1 Hs1. cbn in Hg1. apply twp_bind, twp_self. apply twp_bind, twp_self. rewrite Hg1.
  apply twp_next; [exact Hcopy|done| |intros e s' Hg; apply Hend; congruence].
  intros _ s2 Hg2 Hs2. apply twp_next; [eapply mkdirOwned_quiet; [done|apply Hbelow]|done| |intros e s' Hg; apply Hend; congruence].
  intros _ s3 Hg3 Hs3. apply twp_bind, twp_self. apply twp_next; [eapply privateWrite_quiet; [done|apply Hbelow]|done| |intros e s' Hg; apply Hend; congruence].
  intros _ s4 Hg4 Hs4. apply twp_next; [eapply privateWrite_quiet; [done|apply Hbelow]|done| |intros e s' Hg; apply Hend; congruence].
  intros _ s5 Hg5 Hs5. apply twp_next; [eapply receipt_quiet; done|done| |intros e s' Hg; apply Hend; congruence].
  intros r s6 Hg6 Hs6. apply twp_bind, twp_assign.
  assert (Hr : same_life (mgr s) (set_r r (mgr s6)) /\ ml_stage (set_r r (mgr s6)) = stage_prefix ++s t).
  { rewrite Hg6, Hg5, Hg4, Hg3, Hg2, Hg1. done. }
  destruct Hr as [Hr Hrs]. set (l7 := set_r r (mgr s6)) in *.
  apply twp_next; [eapply privateWrite_quiet; [done|apply Hbelow]|done| |intros e s' Hg Hs'; by rewrite Hg].
  intros _ s7 Hg7 Hs7. cbn in Hg7. apply twp_next; [eapply run_quiet; done|done| |intros e s' Hg Hs'; by rewrite Hg, Hg7].
  intros _ s8 Hg8 Hs8. eapply twp_quiet; [eapply ownDirectory_quiet; done|intros w' Hw'; by etrans|].
  intros x s9 Hg9 Hs9. split; [by etrans|]. rewrite Hg9, Hg8, Hg7. split; [done|]. intros _. by exists t.
Qed.

(** ** Activation *)

(** What an activation that was interrupted after some moves can be undone from. *)
Record undoable (mv : Moved) (l : macLife) (w : W) : Prop := {
  un_stage : exists t, ml_stage l = stage_prefix ++s t;
  un_old : if mv_old mv then exists t, ml_backup l = backup_place t /\ holds (backup_place t) w else holds installRoot w /\ mv_new mv = false;
  un_plist : if mv_plist mv then exists t, ml_oldPlist l = plistPath ++s ".backup-" ++s t /\ disk w (ml_oldPlist l) = Some pl
             else disk w plistPath = Some pl /\ mv_new mv = false
}.

(** What a new installation leaves to go back to. *)
Record replaced (l : macLife) (w : W) : Prop := {
  rp_old : ml_old l = true;
  rp_backup : exists t, ml_backup l = backup_place t /\ holds (backup_place t) w;
  rp_plist : exists t, ml_oldPlist l = plistPath ++s ".backup-" ++s t /\ disk w (ml_oldPlist l) = Some pl
}.

Lemma undoable_kept mv l w : undoable mv l w -> kept w.
Proof.
  intros [_ Ho _]. destruct (mv_old mv); [destruct Ho as (t & _ & Hh); by eapply backup_kept|]. destruct Ho as [Hh _]. by apply (kept_at installRoot); [left|].
Qed.

Lemma replaced_kept l w : replaced l w -> kept w.
Proof. intros [_ (t & _ & Hh) _]. by eapply backup_kept. Qed.

Lemma holds_backup_steps k (P : string -> Prop) t w w' : (forall x, ~ P (backup_place t ++s x)) -> steps k P w w' -> holds (backup_place t) w -> holds (backup_place t) w'.
Proof. intros HP. eapply (steps_place disk in_keychain k P); [apply backup_visible|auto]. Qed.

Lemma plist_steps k (P : string -> Prop) t v w w' : ~ P (plistPath ++s t) -> steps k P w w' -> disk w (plistPath ++s t) = v -> disk w' (plistPath ++s t) = v.
Proof. intros HP. apply (steps_object disk in_keychain k P); [apply plist_not_state|done]. Qed.

Lemma undoable_steps k (P : string -> Prop) mv l w w' : (forall q, P q -> False) -> steps k P w w' -> undoable mv l w -> undoable mv l w'.
Proof.
  intros HP Hs [Hst Ho Hp]. split; [done| |].
  - destruct (mv_old mv).
    + destruct Ho as (t & E & Hh). exists t. split; [done|]. eapply holds_backup_steps; [|exact Hs|done]. intros x Hx. by apply HP in Hx.
    + destruct Ho as [Hh E]. split; [|done]. eapply (steps_place disk in_keychain k P); [apply visible_root| |exact Hs|exact Hh]. intros x _ Hx. by apply HP in Hx.
  - destruct (mv_plist mv).
    + destruct Hp as (t & E & Hd). exists t. split; [done|]. rewrite E in *. eapply plist_steps; [|exact Hs|exact Hd]. intros Hx. by apply HP in Hx.
    + destruct Hp as [Hd E]. split; [|done]. eapply (plist_steps k P ""); [|exact Hs|exact Hd]. intros Hx. by apply HP in Hx.
Qed.

(** A rename of the new installation or of its job keeps what can be gone back to. *)
Lemma undoable_rename a b mv l w w' : mv_old mv = true -> mv_plist mv = true ->
  (forall t, apart (backup_place t) a) -> (forall t, apart (backup_place t) b) ->
  (forall t, under a (plistPath ++s ".backup-" ++s t) = None) -> (forall t, under b (plistPath ++s ".backup-" ++s t) = None) ->
  renames a b w w' -> undoable mv l w -> undoable mv l w'.
Proof.
  intros Eo Ep Ha Hb Hpa Hpb Hr [Hst Ho Hp]. rewrite Eo in Ho. rewrite Ep in Hp. split; [done| |].
  - rewrite Eo. destruct Ho as (t & E & Hh). exists t. split; [done|]. eapply rename_place; [apply backup_visible|apply Ha|apply Hb|exact Hr|exact Hh].
  - rewrite Ep. destruct Hp as (t & E & Hd). exists t. split; [done|]. rewrite E in *. eapply rename_object; [apply plist_not_state|apply Hpa|apply Hpb|exact Hr|exact Hd].
Qed.

Lemma undo_new_ok mv (s : St) : undoable mv (mgr s) (world s) -> mv_new mv = true ->
  twp kept undo_new (fun _ s' => mgr s' = mgr s /\ undoable mv (mgr s') (world s')) s.
Proof.
  intros Hu Hn. assert (Eo : mv_old mv = true) by (destruct Hu as [_ Ho _]; destruct (mv_old mv); [done|]; destruct Ho; congruence).
  assert (Ep : mv_plist mv = true) by (destruct Hu as [_ _ Hp]; destruct (mv_plist mv); [done|]; destruct Hp; congruence).
  unfold undo_new. apply twp_bind, twp_self. destruct (un_stage _ _ _ Hu) as [t Et].
  assert (Hkept : forall l w, undoable mv l w -> kept w) by (intros l w; apply undoable_kept).
  apply twp_bind. eapply (twp_quiet _ true (fun _ => False)); [apply quietly_calm; intros w; apply law_lstat| |].
  { intros w Hs. apply (Hkept (mgr s)). eapply undoable_steps; [|exact Hs|done]. done. }
  intros r s1 Hg1 Hs1. assert (Hu1 : undoable mv (mgr s) (world s1)) by (eapply undoable_steps; [|exact Hs1|done]; done). clear Hs1.
  assert (Hroot : forall s2 (e1 : list string), mgr s2 = mgr s -> undoable mv (mgr s) (world s2) ->
    twp kept (r ← sys (os_Rename installRoot (ml_stage (id (mgr s)))); mret (e1 ++ error_of r)) (fun _ s' => mgr s' = mgr s /\ undoable mv (mgr s') (world s')) s2).
  { intros s2 e1 Hg2 Hu2. apply twp_bind, twp_rename.
    - intros w e Hc. assert (undoable mv (mgr s) w) by (eapply undoable_steps; [|exact Hc|done]; done). split; [by eapply Hkept|]. apply twp_ret. cbn. by rewrite Hg2.
    - intros w Hr. assert (undoable mv (mgr s) w).
      { eapply (undoable_rename installRoot (ml_stage (mgr s))); [done|done|apply backup_apart_root| |intros t'; apply apart_under, plist_apart_root| |exact Hr|done]; intros t'; rewrite Et.
        - apply apart_sym, stage_apart_backup.
        - apply apart_under, plist_apart_stage. }
      split; [by eapply Hkept|]. apply twp_ret. cbn. by rewrite Hg2. }
  apply twp_bind. destruct r as [[st|]|e]; [|by apply twp_ret, Hroot|by apply twp_ret, Hroot].
  apply twp_bind, twp_rename.
  - intros w e Hc. assert (undoable mv (mgr s) w) by (eapply undoable_steps; [|exact Hc|done]; done). split; [by eapply Hkept|]. by apply twp_ret, Hroot.
  - intros w Hr. assert (undoable mv (mgr s) w).
    { eapply (undoable_rename plistPath (ml_stage (mgr s) ++s ".plist")); [done|done| | |apply plist_backup_elsewhere| |exact Hr|done]; intros t'.
      - apply apart_sym, (plist_apart_backup "").
      - rewrite Et, string_app_assoc. apply apart_sym, stage_apart_backup.
      - rewrite Et, string_app_assoc. apply apart_under, plist_apart_stage. }
    split; [by eapply Hkept|]. by apply twp_ret, Hroot.
Qed.

(** The job of the service, where it stands. *)
Definition job_kept (mv : Moved) (l : macLife) (w : W) : Prop :=
  if mv_plist mv then exists t, ml_oldPlist l = plistPath ++s ".backup-" ++s t /\ disk w (ml_oldPlist l) = Some pl else disk w plistPath = Some pl.

Lemma undoable_job mv l w : undoable mv l w -> job_kept mv l w.
Proof. intros [_ _ Hp]. unfold job_kept. destruct (mv_plist mv); [done|apply Hp]. Qed.

Lemma job_calm mv l w w' : calm w w' -> job_kept mv l w -> job_kept mv l w'.
Proof.
  intros Hc. unfold job_kept. destruct (mv_plist mv); [|apply (plist_steps true (fun _ => False) ""); auto].
  intros (t & E & Hd). exists t. split; [done|]. rewrite E in *. eapply plist_steps; [|exact Hc|exact Hd]. auto.
Qed.

Lemma job_rename mv l a b w w' : (forall t, under a (plistPath ++s t) = None) -> (forall t, under b (plistPath ++s t) = None) -> renames a b w w' -> job_kept mv l w -> job_kept mv l w'.
Proof.
  intros Ha Hb Hr. unfold job_kept. destruct (mv_plist mv).
  - intros (t & E & Hd). exists t. split; [done|]. rewrite E in *. eapply rename_object; [apply plist_not_state|apply Ha|apply Hb|exact Hr|exact Hd].
  - intros Hd. eapply rename_object; [apply (plist_not_state "")|apply (Ha "")|apply (Hb "")|exact Hr|exact Hd].
Qed.

Lemma plist_not_root t : under installRoot (plistPath ++s t) = None.
Proof. apply apart_under, plist_apart_root. Qed.

Lemma plist_not_backup t t' : under (backup_place t') (plistPath ++s t) = None.
Proof. apply apart_under, plist_apart_backup. Qed.

(** The last part of the undoing: the job, when the installation stands somewhere. *)
Lemma undo_plist_ok mv (l : macLife) (e12 : list string) p (s : St) : kept_place p -> holds p (world s) -> job_kept mv l (world s) -> (e12 = [] -> p = installRoot) -> mgr s = l ->
  twp kept (e3 ← (if mv_plist mv then r ← sys (os_Rename (ml_oldPlist l) plistPath); mret (error_of r) else mret []); mret (e12 ++ e3))
    (fun errs s' => mgr s' = l /\ kept (world s') /\ (errs = [] -> as_found (world s'))) s.
Proof.
  intros Hp Hh Hj He Hg. apply twp_bind. unfold job_kept in Hj. destruct (mv_plist mv).
  - destruct Hj as (t & E & Hd). apply twp_bind, twp_rename.
    + intros w e Hc. assert (kept w). { exists p. split; [done|]. eapply steps_place; [by apply kept_visible| |exact Hc|exact Hh]. auto. }
      split; [done|]. apply twp_ret, twp_ret. cbn. split; [done|]. split; [done|]. by intros [_ ?]%app_nil.
    + intros w Hr. assert (Hh' : holds p w).
      { eapply (rename_place disk in_keychain (ml_oldPlist l) plistPath); [by apply kept_visible|rewrite E; by apply kept_apart_plist|by apply (kept_apart_plist p "")|exact Hr|exact Hh]. }
      assert (kept w) by (by exists p). split; [done|]. apply twp_ret, twp_ret. cbn. split; [done|]. split; [done|]. intros [E12 _]%app_nil. split.
      * by rewrite He in Hh'.
      * eapply rename_to; [apply (plist_not_state "")|exact Hr|exact Hd].
  - apply twp_ret, twp_ret. split; [done|]. split; [by exists p|]. intros [E12 _]%app_nil. split; [by rewrite He in Hh|done].
Qed.

(** The undoing puts everything back, or an error tells that it did not. *)
Lemma undo_ok mv (s : St) : undoable mv (mgr s) (world s) ->
  twp kept (undo mv) (fun errs s' => mgr s' = mgr s /\ kept (world s') /\ (errs = [] -> as_found (world s'))) s.
Proof.
  intros Hu. unfold undo. apply twp_bind, twp_self, twp_bind. cbn [id].
  eapply twp_mono; [|instantiate (1 := fun _ s' => mgr s' = mgr s /\ undoable mv (mgr s') (world s')); destruct (mv_new mv) eqn:En; [by apply undo_new_ok|by apply twp_ret]].
  intros e1 s1 [Hg1 Hu1]. rewrite <- Hg1. clear Hu Hg1 s. apply twp_bind. pose proof (undoable_job _ _ _ Hu1) as Hj. pose proof (un_old _ _ _ Hu1) as Ho.
  assert (Hthird : forall e2 s2 p, kept_place p -> holds p (world s2) -> job_kept mv (mgr s1) (world s2) -> (e2 = [] -> p = installRoot) -> mgr s2 = mgr s1 ->
    twp kept (e3 ← (if mv_plist mv then r ← sys (os_Rename (ml_oldPlist (mgr s1)) plistPath); mret (error_of r) else mret []); mret (e1 ++ e2 ++ e3))
      (fun errs s' => mgr s' = mgr s1 /\ kept (world s') /\ (errs = [] -> as_found (world s'))) s2).
  { intros e2 s2 p Hp Hh Hj2 He Hg. eapply twp_mono; [|eapply twp_ext; [|apply (undo_plist_ok mv (mgr s1) (e1 ++ e2) p); auto; by intros [_ E]%app_nil; auto]].
    - auto.
    - intros s'. unfold mbind, StateM_bind. destruct (_ s') as [e3 s3]. by rewrite app_assoc. }
  destruct (mv_old mv).
  - destruct Ho as (t & E & Hh). apply twp_bind, twp_rename.
    + intros w e Hc. assert (Hh' : holds (backup_place t) w) by (eapply holds_backup_steps; [|exact Hc|done]; auto).
      split; [by eapply backup_kept|]. apply twp_ret. apply (Hthird [e] _ (backup_place t)); [right; exists t; by left|done|by eapply job_calm|done|done].
    + intros w Hr. rewrite E in Hr. assert (Hh' : holds installRoot w) by (eapply rename_moves; [apply visible_root|exact Hr|exact Hh]).
      split; [exists installRoot; split; [by left|done]|]. apply twp_ret. apply (Hthird [] _ installRoot); [by left|done| |done|done].
      eapply job_rename; [intros t'; apply plist_not_backup|apply plist_not_root|exact Hr|done].
  - destruct Ho as [Hh _]. apply twp_ret. apply (Hthird [] s1 installRoot); [by left|done|done|done|done].
Qed.

(** The job of the new installation is written beside what can be gone back to. *)
Lemma undoable_written k mv l w w' : mv_old mv = true -> mv_plist mv = true -> steps k (eq plistPath) w w' -> undoable mv l w -> undoable mv l w'.
Proof.
  intros Eo Ep Hs [Hst Ho Hp]. rewrite Eo in Ho. rewrite Ep in Hp. split; [done| |].
  - rewrite Eo. destruct Ho as (t & E & Hh). exists t. split; [done|]. eapply holds_backup_steps; [|exact Hs|done]. intros x E'. discriminate E'.
  - rewrite Ep. destruct Hp as (t & E & Hd). exists t. split; [done|]. rewrite E in *. eapply plist_steps; [|exact Hs|exact Hd]. intros E'. discriminate E'.
Qed.

Lemma activate_new_ok (s : St) : ml_old (mgr s) = true -> undoable (mkMoved true true false) (mgr s) (world s) ->
  twp kept (activate_new true true) (fun r s' => mgr s' = mgr s /\ match r.2 with inl _ => replaced (mgr s') (world s') | inr _ => undoable r.1 (mgr s') (world s') end) s.
Proof.
  intros Hold Hu. unfold activate_new. apply twp_bind, twp_self, twp_bind, twp_rename.
  - intros w e Hc. assert (Hu' : undoable (mkMoved true true false) (mgr s) w) by (eapply undoable_steps; [|exact Hc|done]; done).
    split; [by eapply undoable_kept|]. by apply twp_ret.
  - intros w Hr. destruct (un_stage _ _ _ Hu) as [t Et].
    assert (Hu' : undoable (mkMoved true true false) (mgr s) w).
    { eapply (undoable_rename (ml_stage (mgr s)) installRoot); [done|done| |apply backup_apart_root| |intros t'; apply apart_under, plist_apart_root|exact Hr|done]; intros t'; rewrite Et.
      - apply apart_sym, stage_apart_backup.
      - apply apart_under, plist_apart_stage. }
    split; [by eapply undoable_kept|]. assert (Hu2 : undoable (mkMoved true true true) (mgr s) w) by (destruct Hu' as [? ? ?]; by split). clear Hu'.
    apply twp_bind. eapply (twp_quiet _ true (eq plistPath)).
    + eapply quietly_try; [eapply privateWrite_quiet; done|]. intros u. eapply syncDir_quiet; done.
    + intros w' Hs. eapply undoable_kept. eapply undoable_written; [| |exact Hs|exact Hu2]; done.
    + intros r s' Hg Hs. cbn in Hg, Hs. assert (Hu3 : undoable (mkMoved true true true) (mgr s') (world s')) by (rewrite Hg; eapply undoable_written; [| |exact Hs|exact Hu2]; done).
      apply twp_ret. cbn. split; [done|]. destruct r; [|done]. destruct Hu3 as [_ Ho Hp]. split; [by rewrite Hg|exact Ho|exact Hp].
Qed.

Lemma activate_plist_ok suffix (s : St) : ml_old (mgr s) = true -> undoable (mkMoved true false false) (mgr s) (world s) ->
  twp kept (activate_plist suffix true) (fun r s' => ml_old (mgr s') = true /\ match r.2 with inl _ => replaced (mgr s') (world s') | inr _ => undoable r.1 (mgr s') (world s') end) s.
Proof.
  intros Hold Hu. unfold activate_plist. apply twp_bind, twp_sys.
  { eapply undoable_kept. eapply undoable_steps; [|apply law_lstat|exact Hu]; done. }
  pose proof (law_lstat plistPath (world s)) as [Hc Ha]. destruct (os_Lstat plistPath (world s)) as [r w]. cbn [fst snd] in *.
  assert (Hu' : undoable (mkMoved true false false) (mgr s) w) by (eapply undoable_steps; [|exact Hc|exact Hu]; done).
  destruct r as [[st|]|e]; cbn [answers] in Ha.
  - apply twp_bind, twp_assign. cbn [mgr world trail]. set (l1 := set_oldPlist _ (mgr s)). assert (Hl1 : ml_oldPlist l1 = plistPath ++s ".backup-" ++s suffix) by done.
    assert (Hu1 : undoable (mkMoved true false false) l1 w) by (destruct Hu' as [? ? ?]; by split).
    apply twp_bind, twp_rename; cbn [mgr world trail].
    + intros w' e Hc'. assert (undoable (mkMoved true false false) l1 w') by (eapply undoable_steps; [|exact Hc'|exact Hu1]; done).
      split; [by eapply undoable_kept|]. by apply twp_ret.
    + intros w' Hr. assert (Hu2 : undoable (mkMoved true true false) l1 w').
      { destruct Hu1 as [Hst (t & E & Hh) [Hd _]]. split; [done| |].
        - exists t. split; [done|]. eapply (rename_place disk in_keychain plistPath (plistPath ++s ".backup-" ++s suffix)); [apply backup_visible| | |exact Hr|exact Hh].
          + apply (kept_apart_plist _ ""). right. exists t. by left.
          + apply kept_apart_plist. right. exists t. by left.
        - exists suffix. split; [done|]. rewrite Hl1. eapply rename_to; [apply plist_not_state|exact Hr|exact Hd]. }
      split; [by eapply undoable_kept|]. eapply twp_mono; [|apply activate_new_ok; done]. cbn. intros x s' [Hg H']. split; [by rewrite Hg|done].
  - exfalso. destruct Hu' as [_ _ [Hd _]]. cbn in Hd. rewrite (proj1 (Ha eq_refl)) in Hd; done.
  - by apply twp_ret.
Qed.

Lemma activate_moves_ok suffix (s : St) : ml_old (mgr s) = true -> (exists t, ml_stage (mgr s) = stage_prefix ++s t) -> ml_backup (mgr s) = backup_place suffix -> as_found (world s) ->
  twp kept (activate_moves suffix) (fun r s' => ml_old (mgr s') = true /\ match r.2 with inl _ => replaced (mgr s') (world s') | inr _ => undoable r.1 (mgr s') (world s') end) s.
Proof.
  intros Hold Hst Hb [Hh Hd]. unfold activate_moves. apply twp_bind, twp_self. cbn [id]. rewrite Hold, Hb. apply twp_bind, twp_rename.
  - intros w e Hc. assert (Hf : as_found w) by (eapply found_calm; [exact Hc|by split]). split; [by apply found_kept|]. apply twp_ret. cbn. split; [done|].
    split; [done|by split; [apply Hf|]|by split; [apply Hf|]].
  - intros w Hr. assert (Hu : undoable (mkMoved true false false) (mgr s) w).
    { split; [done| |].
      - exists suffix. split; [done|]. eapply rename_moves; [apply backup_visible|exact Hr|exact Hh].
      - split; [|done]. eapply rename_object; [apply (plist_not_state "")|apply (plist_not_root "")|apply (plist_not_backup "")|exact Hr|exact Hd]. }
    split; [by eapply undoable_kept|]. by apply activate_plist_ok.
Qed.

(** Whether what was found stands again, by the error of an installation. *)
Definition undone (e : InstallError) : bool :=
  match e with NotActivated _ recovery _ => bool_decide (recovery = []) | RollbackFailed _ step _ => step =?s "start-old" | _ => true end.

Definition not_lost (r : unit + InstallError) (s' : St) : Prop :=
  match r with inl _ => replaced (mgr s') (world s') | inr e => kept (world s') /\ (undone e = true -> as_found (world s')) end.

Lemma activate_ok (s : St) : ml_old (mgr s) = true -> (exists t, ml_stage (mgr s) = stage_prefix ++s t) -> as_found (world s) -> twp kept activate not_lost s.
Proof.
  intros Hold Hst Hf. unfold activate. apply twp_bind. eapply (twp_quiet _ true (fun _ => False)); [apply quietly_calm; intros w; apply law_suffix| |].
  { intros w Hs. eapply found_kept, found_calm; [exact Hs|done]. }
  intros suffix s1 Hg1 Hs1. assert (Hf1 : as_found (world s1)) by (eapply found_calm; [exact Hs1|done]).
  apply twp_bind, twp_assign, twp_bind. eapply twp_mono; [|apply activate_moves_ok; cbn; rewrite ?Hg1; done].
  cbn. intros [mv [[]|cause]] s2 [Hold2 H2]; cbn in *; [by apply twp_ret|].
  apply twp_bind. eapply twp_mono; [|by apply undo_ok]. intros recovery s3 (Hg3 & Hk3 & Hf3). apply twp_bind, twp_self. rewrite Hg3, Hold2, andb_true_r.
  case_bool_decide as E; [|apply twp_ret; cbn; split; [done|]; rewrite bool_decide_false; done].
  apply Hf3 in E. apply twp_bind. eapply (twp_quiet _ false (fun _ => False)); [eapply start_old_quiet; done| |].
  - intros w Hs. eapply found_kept, found_calm; [exact Hs|done].
  - intros o s4 Hg4 Hs4. assert (Hf4 : as_found (world s4)) by (eapply found_calm; [exact Hs4|done]). apply twp_ret. cbn. split; [by apply found_kept|done].
Qed.

(** ** Start and rollback *)

(** What a run of the new installation touches. *)
Definition in_root (q : string) : Prop := exists x, q = installRoot ++s "/" ++s x.

Lemma replaced_steps k (P : string -> Prop) l w w' : (forall q, P q -> in_root q) -> steps k P w w' -> replaced l w -> replaced l w'.
Proof.
  intros HP Hs [Hold (t & E & Hh) (t' & E' & Hd)]. split; [done| |].
  - exists t. split; [done|]. eapply holds_backup_steps; [|exact Hs|done]. intros x Hx. destruct (HP _ Hx) as [y Ey]. discriminate Ey.
  - exists t'. split; [done|]. rewrite E' in *. eapply plist_steps; [|exact Hs|exact Hd]. intros Hx. destruct (HP _ Hx) as [y Ey]. discriminate Ey.
Qed.

Lemma replaced_calm k l w w' : steps k (fun _ => False) w w' -> replaced l w -> replaced l w'.
Proof. by apply replaced_steps. Qed.

Lemma replaced_rename a b l w w' : (forall t, apart (backup_place t) a) -> (forall t, apart (backup_place t) b) ->
  (forall t, under a (plistPath ++s ".backup-" ++s t) = None) -> (forall t, under b (plistPath ++s ".backup-" ++s t) = None) -> renames a b w w' -> replaced l w -> replaced l w'.
Proof.
  intros Ha Hb Hpa Hpb Hr [Hold (t & E & Hh) (t' & E' & Hd)]. split; [done| |].
  - exists t. split; [done|]. eapply rename_place; [apply backup_visible|apply Ha|apply Hb|exact Hr|exact Hh].
  - exists t'. split; [done|]. rewrite E' in *. eapply rename_object; [apply plist_not_state|apply Hpa|apply Hpb|exact Hr|exact Hd].
Qed.

Lemma replaced_life l l' w : ml_old l' = ml_old l -> ml_backup l' = ml_backup l -> ml_oldPlist l' = ml_oldPlist l -> replaced l w -> replaced l' w.
Proof. intros E1 E2 E3 [Ho Hb Hp]. split; [congruence|by rewrite E2|by rewrite E3]. Qed.

(** One more call while the new installation stands. *)
Lemma twp_started {A B} k (P : string -> Prop) (m : M (A + string)) (f : A -> M (B + string)) (s : St) :
  quietly k P m -> (forall q, P q -> in_root q) -> replaced (mgr s) (world s) ->
  (forall x s', replaced (mgr s') (world s') -> twp kept (f x) (fun _ s'' => replaced (mgr s'') (world s'')) s') ->
  twp kept (try_bind m f) (fun _ s' => replaced (mgr s') (world s')) s.
Proof.
  intros Hm HP Hr Hf. apply twp_try. eapply twp_quiet; [exact Hm| |].
  - intros w Hs. eapply replaced_kept, replaced_steps; eauto.
  - intros [x|e] s' Hg Hs; [apply Hf|]; rewrite Hg; eapply replaced_steps; eauto.
Qed.

Lemma replaced_quiet {A} k (P : string -> Prop) (m : M A) (s : St) : quietly k P m -> (forall q, P q -> in_root q) -> replaced (mgr s) (world s) ->
  twp kept m (fun _ s' => replaced (mgr s') (world s')) s.
Proof.
  intros Hm HP Hr. eapply twp_quiet; [exact Hm| |].
  - intros w Hs. eapply replaced_kept, replaced_steps; eauto.
  - intros x s' Hg Hs. rewrite Hg. eapply replaced_steps; eauto.
Qed.

Lemma installCA_ok (s : St) : replaced (mgr s) (world s) -> twp kept installCA (fun _ s' => replaced (mgr s') (world s')) s.
Proof.
  intros Hr. unfold installCA. apply (twp_started false (fun _ => False)); [eapply caPresent_quiet; done|done|done|]. clear s Hr. intros present s Hr. destruct present.
  { apply (replaced_quiet false (fun _ => False)); [|done|done]. eapply quietly_bind; [eapply verify_cert_quiet; done|]. intros [?|?]; eapply quietly_ret. }
  apply twp_bind, twp_self, twp_bind, twp_assign.
  apply (twp_started false in_root); [eapply privateWrite_quiet; [done|by exists "receipt.pending.json"]|done|by eapply replaced_life; [..|exact Hr]|]. clear s Hr. intros _ s Hr.
  apply twp_try, twp_rename.
  - intros w e Hc. assert (replaced (mgr s) w) by (by eapply replaced_calm). split; [by eapply replaced_kept|done].
  - intros w Hn. assert (Hr' : replaced (mgr s) w).
    { eapply (replaced_rename (installRoot ++s "/receipt.pending.json") receiptPath); [| | | |exact Hn|done]; intros t; first [done|apply apart_sym, (apart_below installRoot); [apply apart_sym, backup_apart_root|done]]. }
    split; [by eapply replaced_kept|]. apply (twp_started false (fun _ => False)); [eapply syncDir_quiet; done|done|done|]. clear Hr Hn Hr'. intros _ s1 Hr.
    apply twp_bind, twp_assign. apply (twp_started false (fun _ => False)); [eapply run_quiet; done|done|by eapply replaced_life; [..|exact Hr]|]. intros _ s2 Hr2.
    apply (replaced_quiet false (fun _ => False)); [eapply verify_cert_quiet; done|done|done].
Qed.

Lemma start_ok (s : St) : replaced (mgr s) (world s) -> twp kept step_start (fun _ s' => replaced (mgr s') (world s')) s.
Proof.
  intros Hr. unfold step_start. apply (twp_started false (fun _ => False)); [eapply bootstrap_quiet; done|done|done|]. intros _ s1 Hr1.
  apply (twp_started false (fun _ => False)); [eapply waitIdle_quiet; done|done|done|]. intros _ s2 Hr2. by apply installCA_ok.
Qed.

(** A rollback puts back what was found, or ends with an error while it is kept. *)
Definition back (r : unit + string) (s' : St) : Prop := match r with inl _ => as_found (world s') /\ ml_old (mgr s') = true | inr _ => kept (world s') end.

Definition failed_place (suffix : string) : string := installRoot ++s ".failed-" ++s suffix.

Lemma failed_apart_backup t t' u : apart (backup_place t) (failed_place t' ++s u).
Proof. differ. Qed.

Lemma failed_not_plist t t' u : under (failed_place t ++s u) (plistPath ++s t') = None.
Proof. apply apart_under. differ. Qed.

Lemma rollback_moves_ok suffix (s : St) : replaced (mgr s) (world s) -> twp kept (rollback_moves (failed_place suffix)) back s.
Proof.
  intros Hr. unfold rollback_moves. apply twp_bind, twp_self. cbn [id].
  assert (Herr : forall w e, replaced (mgr s) w -> kept w /\ forall l, back (inr e) (mkSt (mgr s) w l)) by (intros w e Hw; split; [|intros l]; by eapply replaced_kept).
  apply twp_try, twp_rename.
  { intros w e Hc. destruct (Herr w e) as [? ?]; [by eapply replaced_calm|]. auto. }
  intros w1 Hn1. assert (Hr1 : replaced (mgr s) w1).
  { eapply replaced_rename; [| | | |exact Hn1|done]; intros t; [apply backup_apart_root|rewrite <- (string_app_nil_r (failed_place suffix)); apply failed_apart_backup|apply plist_not_root|].
    rewrite <- (string_app_nil_r (failed_place suffix)). apply failed_not_plist. }
  split; [by eapply replaced_kept|]. clear Hn1. apply twp_try, twp_rename; cbn [mgr world trail].
  { intros w e Hc. destruct (Herr w e) as [? ?]; [by eapply replaced_calm|]. auto. }
  intros w2 Hn2. assert (Hr2 : replaced (mgr s) w2).
  { eapply replaced_rename; [| | | |exact Hn2|done]; intros t; [apply (kept_apart_plist _ ""); right; exists t; by left|apply failed_apart_backup|apply plist_backup_elsewhere|apply failed_not_plist]. }
  split; [by eapply replaced_kept|]. clear Hn2 Hr1. pose proof Hr2 as [Hold (t & Eb & Hh) (t' & Ep & Hd)]. rewrite Hold, Eb, Ep.
  apply twp_try, twp_try, twp_rename; cbn [mgr world trail].
  { intros w e Hc. destruct (Herr w e) as [? ?]; [by eapply replaced_calm|]. auto. }
  intros w3 Hn3. assert (Hh3 : holds installRoot w3) by (eapply rename_moves; [apply visible_root|exact Hn3|exact Hh]).
  assert (Hd3 : disk w3 (ml_oldPlist (mgr s)) = Some pl).
  { rewrite Ep in *. eapply rename_object; [apply plist_not_state|apply plist_not_backup|apply plist_not_root|exact Hn3|exact Hd]. }
  split; [exists installRoot; split; [by left|done]|]. change (negb (plistPath ++s ".backup-" ++s t' =?s "")) with true. cbn [negb].
  apply twp_rename; cbn [mgr world trail].
  - intros w e Hc. assert (kept w); [|done]. exists installRoot. split; [by left|]. eapply (steps_place disk in_keychain true (fun _ => False)); [apply visible_root|auto|exact Hc|exact Hh3].
  - intros w4 Hn4. assert (Hf : as_found w4).
    { split.
      - eapply (rename_place disk in_keychain); [apply visible_root|apply apart_sym, plist_apart_root|apply apart_sym, (plist_apart_root "")|exact Hn4|exact Hh3].
      - rewrite Ep in Hd3. eapply rename_to; [apply (plist_not_state "")|exact Hn4|exact Hd3]. }
    split; [by apply found_kept|]. eapply (twp_quiet _ true (fun _ => False)); [eapply syncDir_quiet; done| |]; cbn [mgr world trail].
    + intros w Hs. eapply found_kept, found_calm; [exact Hs|done].
    + intros [[]|e] s' Hg Hs; cbn [back]; [split; [eapply found_calm; [exact Hs|done]|by rewrite Hg]|eapply found_kept, found_calm; [exact Hs|done]].
Qed.

Lemma rollback_ok (s : St) : replaced (mgr s) (world s) -> twp kept step_rollback back s.
Proof.
  intros Hr. unfold step_rollback. apply twp_bind, twp_self. cbn [id]. apply twp_try.
  assert (Hq : quietly false (fun _ => False) (if ml_addedNow (mgr s) then removeCA (ml_r (mgr s)) else ok tt)) by (destruct (ml_addedNow _); [eapply removeCA_quiet; done|eapply quietly_ret]).
  eapply twp_mono; [|apply (replaced_quiet _ _ _ s Hq); done]. intros [[]|e] s1 Hr1; [|by eapply replaced_kept].
  apply twp_bind. eapply twp_mono; [|apply (replaced_quiet true (fun _ => False)); [apply quietly_calm; intros w; apply law_suffix|done|done]].
  intros suffix s2 Hr2. by apply rollback_moves_ok.
Qed.

(** ** The whole *)
Lemma twp_plain C m (Q : unit + InstallError -> St -> Prop) (s : St) : twp C m (fun r => Q (step_of r)) s -> twp C (r ← m; mret (step_of r)) Q s.
Proof. intros H'. apply twp_bind. eapply twp_mono; [|exact H']. intros r s' Hq. by apply twp_ret. Qed.

(** A step that leaves what was found. *)
Lemma twp_found {A} k (P : string -> Prop) (m : M A) (s : St) : quietly k P m -> (forall q, P q -> False) -> as_found (world s) ->
  twp kept m (fun _ s' => mgr s' = mgr s /\ as_found (world s')) s.
Proof.
  intros Hm HP Hf. assert (Hk : forall w, steps k P (world s) w -> as_found w) by (intros w Hs; eapply found_steps; [| |exact Hs|done]; intros; intros Hx; by apply HP in Hx).
  eapply twp_quiet; [exact Hm|intros w Hs; by apply found_kept, Hk|auto].
Qed.

Lemma rollback_steps_ok original (s : St) : replaced (mgr s) (world s) ->
  twp kept (rollback_steps original ["stop"; "restore"; "rollback"; "start-old"]) not_lost s.
Proof.
  intros Hr. cbn [rollback_steps]. apply twp_bind. change (lc_step "stop") with (r ← step_stop; mret (step_of r)). apply twp_plain.
  eapply twp_mono; [|apply (replaced_quiet false (fun _ => False)); [eapply stop_quiet; done|done|exact Hr]]. clear s Hr. intros [[]|e] s Hr; [|apply twp_ret; by split; [by eapply replaced_kept|]].
  cbn [step_of]. apply twp_bind. change (lc_step "restore") with (r ← step_restore; mret (step_of r)). apply twp_plain.
  eapply twp_mono; [|apply (replaced_quiet false (fun _ => False)); [eapply restore_quiet; done|done|exact Hr]]. clear s Hr. intros [[]|e] s Hr; [|apply twp_ret; by split; [by eapply replaced_kept|]].
  cbn [step_of]. apply twp_bind. change (lc_step "rollback") with (r ← step_rollback; mret (step_of r)). apply twp_plain.
  eapply twp_mono; [|apply rollback_ok, Hr]. clear s Hr. intros [[]|e] s Hb; [|apply twp_ret; by split].
  cbn [step_of]. destruct Hb as [Hf _]. apply twp_bind. change (lc_step "start-old") with (r ← step_start_old; mret (step_of r)). apply twp_plain.
  eapply twp_mono; [|apply (twp_found false (fun _ => False)); [eapply start_old_quiet; done|done|exact Hf]].
  intros [[]|e] s' [_ Hf']; apply twp_ret; (split; [by apply found_kept|done]).
Qed.

Lemma forward_ok (s : St) : ml_old (mgr s) = true -> safe_life (mgr s) -> as_found (world s) -> twp kept (forward ["stop"; "restore"; "stage"; "activate"]) not_lost s.
Proof.
  intros Hold Hsafe Hf. cbn [forward]. apply twp_bind. change (lc_step "stop") with (r ← step_stop; mret (step_of r)). apply twp_plain.
  eapply twp_mono; [|apply (twp_found false (fun _ => False)); [eapply stop_quiet; done|done|exact Hf]]. intros [[]|e] s1 [Hg1 Hf1]; [|apply twp_ret; split; [by apply found_kept|done]].
  cbn [step_of]. apply twp_bind. change (lc_step "restore") with (r ← step_restore; mret (step_of r)). apply twp_plain.
  eapply twp_mono; [|apply (twp_found false (fun _ => False)); [eapply restore_quiet; done|done|exact Hf1]]. intros [[]|e] s2 [Hg2 Hf2]; [|apply twp_ret; split; [by apply found_kept|done]].
  cbn [step_of]. apply twp_bind. change (lc_step "stage") with (r ← prepareStage; mret (step_of r)). apply twp_plain.
  assert (Hstaged : forall w, steps false staged (world s2) w -> as_found w) by (intros w Hs; eapply found_steps; [|apply staged_plist|exact Hs|done]; intros; apply staged_root).
  destruct (stage_steps s2) as [(Hs3 & Hl3 & Hst3) (l & El & Hall)]; [by rewrite Hg2, Hg1|].
  split; [|exists l; split; [done|]; eapply Forall_impl; [exact Hall|]; intros w Hw; by apply found_kept, Hstaged].
  destruct (prepareStage s2) as [r s3]. cbn [fst snd] in *. assert (Hold3 : ml_old (mgr s3) = true) by (rewrite (sl_old _ _ Hl3); congruence).
  destruct r as [[]|e]; cbn [step_of].
  - apply twp_bind. change (lc_step "activate") with activate. eapply twp_mono; [|apply activate_ok; auto]. intros [[]|e] s4 H4; [by apply twp_ret|].
    change ("activate" =?s "stage") with false. by apply twp_ret.
  - change ("stage" =?s "stage") with true. cbn match. apply twp_bind. change (lc_step "start-old") with (r ← step_start_old; mret (step_of r)). apply twp_plain.
    eapply twp_mono; [|apply (twp_found false (fun _ => False)); [eapply start_old_quiet; done|done|by apply Hstaged]]. intros o s4 [_ Hf4]. apply twp_ret. split; [by apply found_kept|done].
Qed.

Lemma replace_ok (s : St) : ml_old (mgr s) = true -> safe_life (mgr s) -> as_found (world s) -> twp kept replace not_lost s.
Proof.
  intros Hold Hsafe Hf. unfold replace. apply twp_bind. change lc_status with (r ← status; mret (match r with inl s => inl s | inr e => inr (Plain e) end) : M (string + InstallError)).
  apply twp_bind. eapply twp_mono; [|apply (twp_found false (fun _ => False)); [eapply status_quiet; done|done|exact Hf]].
  intros [st|e] s1 [Hg1 Hf1]; apply twp_ret; [|apply twp_ret; split; [by apply found_kept|done]].
  destruct (_ && _); [apply twp_ret; split; [by apply found_kept|done]|]. apply twp_bind. eapply twp_mono; [|apply forward_ok; congruence || by rewrite Hg1].
  intros [[]|e] s2 H2; [|by apply twp_ret]. apply twp_bind. change (lc_step "start") with (r ← step_start; mret (step_of r)). apply twp_plain.
  eapply twp_mono; [|apply start_ok, H2]. intros [[]|e] s3 H3; cbn [step_of]; [by apply twp_ret|by apply rollback_steps_ok].
Qed.
End Replace.
