(* ===== verification/InstallProps.v ===== *)
(** * Properties of the macOS installer

    Whatever the installer does and wherever it is killed, what was installed is still on
    disk; an installation that fails puts it back or says that it did not. *)
From S2P Require Import Prelude Trail GoText NativeNetwork DarwinSystem FilePath InstallPackage InstallDisk InstallMac InstallPaths InstallSpec InstallCrash InstallReplace.
From stdpp Require Import list.

#[local] Open Scope string_scope.
#[local] Open Scope Z_scope.
#[local] Open Scope list_scope.

Section Props.
Context {W : Type} `{!installSystem W, !installCodec, !UnicodeTables} (disk : W -> Disk) (in_keychain : W -> Prop).
Context `{!InstallLaws W disk in_keychain}.

#[local] Abbreviation M := (Trail.M macLife W).
#[local] Abbreviation St := (Trail.St macLife W).
#[local] Abbreviation steps := (steps disk in_keychain).
#[local] Abbreviation quietly := (quietly disk in_keychain).

Section Run.
Context (D0 : Disk) (pl : Node) (Hpl : D0 plistPath = Some pl) (Hroot : D0 installRoot <> None).

#[local] Abbreviation as_found := (as_found disk D0 pl).
#[local] Abbreviation kept := (kept disk D0).

(** ** Before the installation *)

(** The installer's own directory and lock. *)
Definition in_runtime (q : string) : Prop := exists x, q = runtimeRoot ++s x.

(** The installation is as it was found, and after a success the memory is so. *)
Definition prepared {A} (G : macLife -> Prop) (r : A + string) (s' : St) : Prop := as_found (world s') /\ match r with inl _ => G (mgr s') | inr _ => True end.

Lemma found_runtime k (P : string -> Prop) w w' : (forall q, P q -> in_runtime q) -> steps k P w w' -> as_found w -> as_found w'.
Proof.
  intros HP. apply found_steps.
  - intros x _ Hx. destruct (HP _ Hx) as [y E]. discriminate E.
  - intros Hx. destruct (HP _ Hx) as [y E]. discriminate E.
Qed.

Lemma twp_prepare {A B} k (P : string -> Prop) (m : M (A + string)) (f : A -> M (B + string)) (G : macLife -> Prop) (s : St) :
  quietly k P m -> (forall q, P q -> in_runtime q) -> as_found (world s) ->
  (forall x s', mgr s' = mgr s -> as_found (world s') -> twp kept (f x) (prepared G) s') -> twp kept (try_bind m f) (prepared G) s.
Proof.
  intros Hm HP Hf Hk. apply twp_try. eapply twp_quiet; [exact Hm| |].
  - intros w Hs. eapply found_kept, found_runtime; eauto.
  - intros [x|e] s' Hg Hs; [apply Hk; [done|]|split; [|done]]; eapply found_runtime; eauto.
Qed.

Lemma prepare_quiet {A} k (P : string -> Prop) (m : M (A + string)) (G : macLife -> Prop) (s : St) : quietly k P m -> (forall q, P q -> in_runtime q) -> as_found (world s) ->
  G (mgr s) -> twp kept m (prepared G) s.
Proof.
  intros Hm HP Hf HG. eapply twp_quiet; [exact Hm| |].
  - intros w Hs. eapply found_kept, found_runtime; eauto.
  - intros r s' Hg Hs. split; [eapply found_runtime; eauto|]. by destruct r; [rewrite Hg|].
Qed.

Lemma twp_prepared {A B} (m : M (A + string)) (f : A -> M (B + string)) (G G' : macLife -> Prop) (s : St) : twp kept m (prepared G) s ->
  (forall x s', G (mgr s') -> as_found (world s') -> twp kept (f x) (prepared G') s') -> twp kept (try_bind m f) (prepared G') s.
Proof. intros Hm Hf. apply twp_try. eapply twp_mono; [|exact Hm]. intros [x|e] s' [Hs HG]; [by apply Hf|by split]. Qed.

Lemma examine_ok e1 e2 (G : macLife -> Prop) (s : St) : as_found (world s) -> (forall b, G (set_old b (mgr s))) ->
  twp kept (examine e1 e2) (prepared (fun l => ml_old l = true /\ G l)) s.
Proof.
  intros Hf HG. unfold examine. apply (twp_prepare true (fun _ => False)); [eapply protect_all_quiet; done|done|done|]. intros _ s1 Hg1 Hf1.
  apply twp_bind, twp_assign. apply twp_try, twp_sys; cbn [mgr world trail].
  { eapply found_kept, found_runtime; [|apply law_lstat|done]. done. }
  destruct (law_lstat installRoot (world s1)) as [Hc Ha]. destruct (os_Lstat installRoot (world s1)) as [r w]. cbn [fst snd] in *.
  assert (Hf2 : as_found w) by (eapply found_calm; [exact Hc|done]). destruct r as [[st|]|e]; cbn [answers] in Ha.
  - apply (twp_prepared _ _ (fun l => ml_old l = true /\ G l)).
    + apply twp_bind, twp_assign. apply (prepare_quiet true (fun _ => False)); [eapply validate_quiet; done|done|done|]. cbn. split; [done|]. rewrite Hg1. apply (HG true).
    + intros [] s2 [Hold HG2] Hf3. apply twp_bind, twp_self. rewrite Hold. apply twp_bind, twp_ret. cbn match.
      apply (twp_prepare false (fun _ => False)); [eapply registered_quiet; done|done|done|]. intros present s3 Hg3 Hf4. rewrite andb_false_r. apply twp_ret. split; [done|]. by rewrite Hg3.
  - exfalso. destruct Hf2 as [Hh _]. specialize (Hh "" eq_refl eq_refl). rewrite string_app_nil_r in Hh. apply Hroot. rewrite <- Hh. by apply (Ha eq_refl).
  - by split.
Qed.

Lemma payload_ok flags (s : St) : as_found (world s) -> twp kept (load_payload flags) (prepared safe_life) s.
Proof.
  intros Hf. unfold load_payload. destruct (negb _); [by apply twp_ret|]. apply twp_bind.
  eapply (twp_quiet disk in_keychain _ true (fun _ => False)); [apply quietly_calm; intros w; apply law_abs|intros w Hs; by eapply found_kept, found_calm|].
  intros r s1 Hg1 Hs1. assert (Hf1 : as_found (world s1)) by (by eapply found_calm). destruct r as [payload|e]; [|by apply twp_ret].
  apply twp_bind, twp_assign. destruct (_ =?s _); [by apply twp_ret|].
  apply (twp_prepare true (fun _ => False)); [apply quietly_calm; intros w; apply law_readfile|done|done|]. intros b s2 Hg2 Hf2.
  destruct (parseManifest decode_manifest b) as [m|e] eqn:Em; [|by apply twp_ret]. apply twp_bind, twp_assign, twp_bind.
  eapply (twp_quiet disk in_keychain _ true (fun _ => False)); [apply quietly_calm; intros w; apply law_tree|intros w Hs; by eapply found_kept, found_calm|].
  intros tree s3 Hg3 Hs3. assert (Hf3 : as_found (world s3)) by (by eapply found_calm). destruct (verifyTree _ _ _ _ _ _ _); [by apply twp_ret|].
  apply twp_ret. split; [done|]. rewrite Hg3. unfold safe_life. cbn. by eapply parsed_safe.
Qed.

Lemma runtime_quiet : quietly true in_runtime runtime_directory.
Proof.
  unfold runtime_directory. apply quietly_bind; [apply quietly_calm; intros w; apply law_stat|]. intros r. apply quietly_try.
  - destruct r as [[st|]|e]; try apply quietly_ret. eapply mkdirOwned_quiet; [done|]. exists "". by rewrite string_app_nil_r.
  - intros _. apply quietly_try; [eapply protect_quiet; done|]. intros _. eapply verifyOwned_quiet; done.
Qed.

Lemma open_installer_lock create : quietly true in_runtime (sys (unix_OpenLock (runtimeRoot ++s "/installer.lock") create)).
Proof. apply quietly_sys. intros w. eapply (steps_mono disk in_keychain true true); [|done|apply law_openlock]. intros q [_ ->]. by exists "/installer.lock". Qed.

Lemma lock_file_quiet : quietly true in_runtime take_lock.
Proof.
  unfold take_lock. apply quietly_bind; [apply open_installer_lock|]. intros first. apply quietly_bind; [destruct first; first [apply open_installer_lock|apply quietly_ret]|].
  intros [h| | |e]; try apply quietly_ret. apply quietly_try; [destruct first; first [eapply ownFD_quiet; done|apply quietly_ret]|]. intros _.
  apply quietly_try; [apply quietly_calm; intros w; apply law_fstat|]. intros st. destruct (negb _); [apply quietly_ret|].
  apply quietly_bind; [apply quietly_calm; intros w; apply law_flock|]. intros [u|e]; apply quietly_ret.
Qed.

(** ** The removal *)
Lemma retire_ok suffix (s : St) : as_found (world s) -> twp kept (retire (".uninstalled-" ++s suffix) [plistPath; installRoot]) (fun _ s' => kept (world s')) s.
Proof.
  intros [Hh _].
  assert (Hsteps : forall w w', steps true (fun _ => False) w w' -> holds disk D0 installRoot w -> holds disk D0 installRoot w') by (intros w w'; apply steps_place; [apply visible_root|auto]).
  assert (Hk : forall w, holds disk D0 installRoot w -> kept w) by (intros w Hw; exists installRoot; split; [by left|done]).
  assert (Hlast : forall s1 : St, holds disk D0 installRoot (world s1) -> twp kept (retire (".uninstalled-" ++s suffix) [installRoot]) (fun _ s' => kept (world s')) s1).
  { intros s1 Hh1. cbn [retire]. change (negb (ownedRemovalTarget installRoot)) with false. cbn match. apply twp_bind, twp_sys; [apply Hk; eapply Hsteps; [apply law_lstat|done]|].
    assert (Hh2 : holds disk D0 installRoot (os_Lstat installRoot (world s1)).2) by (eapply Hsteps; [apply law_lstat|done]). destruct (os_Lstat installRoot (world s1)) as [r w]. cbn [fst snd] in *.
    assert (Hmove : twp kept (try_bind (sys (os_Rename installRoot (installRoot ++s ".uninstalled-" ++s suffix))) (fun _ => ok tt)) (fun _ s' => kept (world s')) (mkSt (mgr s1) w (w :: trail s1))).
    { apply twp_try. apply (twp_rename disk in_keychain); cbn [mgr world trail].
      - intros w' e Hc. assert (kept w') by (apply Hk; by eapply Hsteps). by split.
      - intros w' Hr. assert (kept w'). { exists (retired_place suffix). split; [right; exists suffix; by right|]. eapply rename_moves; [apply retired_visible|exact Hr|exact Hh2]. }
        split; [done|]. by apply twp_ret. }
    destruct r as [[st|]|e]; [exact Hmove|apply twp_ret; by apply Hk|exact Hmove]. }
  cbn [retire]. change (negb (ownedRemovalTarget plistPath)) with false. cbn match. apply twp_bind, twp_sys; [apply Hk; eapply Hsteps; [apply law_lstat|done]|].
  assert (Hh2 : holds disk D0 installRoot (os_Lstat plistPath (world s)).2) by (eapply Hsteps; [apply law_lstat|done]). destruct (os_Lstat plistPath (world s)) as [r w]. cbn [fst snd] in *.
  assert (Hmove : twp kept (try_bind (sys (os_Rename plistPath (plistPath ++s ".uninstalled-" ++s suffix))) (fun _ => retire (".uninstalled-" ++s suffix) [installRoot])) (fun _ s' => kept (world s')) (mkSt (mgr s) w (w :: trail s))).
  { apply twp_try. apply (twp_rename disk in_keychain); cbn [mgr world trail].
    - intros w' e Hc. assert (kept w') by (apply Hk; by eapply Hsteps). by split.
    - intros w' Hr. assert (holds disk D0 installRoot w').
      { eapply (rename_place disk in_keychain); [apply visible_root|apply (kept_apart_plist _ ""); by left|apply kept_apart_plist; by left|exact Hr|exact Hh2]. }
      split; [by apply Hk|]. by apply Hlast. }
  destruct r as [[st|]|e]; [exact Hmove|by apply Hlast|exact Hmove].
Qed.

(** A call of the removal before anything is moved. *)
Lemma twp_removing {A B} k (m : M (A + string)) (f : A -> M (B + string)) (s : St) : quietly k (fun _ => False) m -> as_found (world s) ->
  (forall x s', as_found (world s') -> twp kept (f x) (fun _ s'' => kept (world s'')) s') -> twp kept (try_bind m f) (fun _ s' => kept (world s')) s.
Proof.
  intros Hm Hf Hk. apply twp_try. eapply twp_mono; [|by apply (twp_found disk in_keychain D0 pl k (fun _ => False))]. intros [x|e] s' [_ Hf']; [by apply Hk|by eapply found_kept].
Qed.

Lemma uninstall_ok (s : St) : as_found (world s) -> twp kept uninstall (fun _ s' => kept (world s')) s.
Proof.
  intros Hf. unfold uninstall. apply twp_bind, twp_self. destruct (negb _); [apply twp_ret; by eapply found_kept|].
  apply (twp_removing false); [eapply registered_quiet; done|done|]. intros present s1 Hf1.
  apply (twp_removing true); [destruct present; [eapply disconnect_quiet; done|apply quietly_ret]|done|]. intros _ s2 Hf2.
  apply (twp_removing false); [eapply stop_quiet; done|done|]. intros _ s3 Hf3.
  apply (twp_removing false); [eapply restore_quiet; done|done|]. intros _ s4 Hf4.
  apply (twp_removing true); [apply quietly_calm; intros w; apply law_readfile|done|]. intros b s5 Hf5.
  destruct (decode_receipt b) as [r|e]; [|apply twp_ret; by eapply found_kept]. destruct (_ || _); [apply twp_ret; by eapply found_kept|].
  apply (twp_removing false); [eapply removeCA_quiet; done|done|]. intros _ s6 Hf6. apply twp_bind.
  eapply twp_mono; [|apply (twp_found disk in_keychain D0 pl true (fun _ => False)); [apply quietly_calm; intros w; apply law_suffix|done|exact Hf6]].
  intros suffix s7 [_ Hf7]. by apply retire_ok.
Qed.

(** ** The command *)
Definition ended (mode : string) (r : unit + InstallError) (s' : St) : Prop :=
  kept (world s') /\ match r with inl _ => True | inr e => mode = "install" -> undone e = true -> as_found (world s') end.

Lemma command_ok supported setgid mode flags (s : St) : as_found (world s) -> safe_life (mgr s) -> twp kept (runPlatform supported setgid mode flags) (ended mode) s.
Proof.
  intros Hf Hsafe. unfold runPlatform. assert (Hstop : forall e (s' : St), as_found (world s') -> twp kept (mret (inr (Plain e)) : M (unit + InstallError)) (ended mode) s').
  { intros e s' Hf'. apply twp_ret. split; [by eapply found_kept|done]. }
  destruct supported; [|by apply Hstop]. destruct setgid; [|by apply Hstop]. destruct (negb (mode =?s "install") && negb (mode =?s "uninstall")); [by apply Hstop|]. destruct flags as [flags|e]; [|by apply Hstop].
  destruct (negb (fl_rest flags =? 0)%nat); [by apply Hstop|]. apply twp_bind.
  eapply (twp_mono _ _ _ (prepared (fun l => ml_old l = true /\ safe_life l))).
  2: { eapply twp_prepared; [by apply (examine_ok _ _ safe_life)|]. intros _ s1 [_ Hs1] Hf1.
    apply (twp_prepared _ _ safe_life). { destruct (mode =?s "install"); [by apply payload_ok|apply twp_ret; by split]. }
    intros _ s2 Hs2 Hf2. apply (twp_prepare true in_runtime); [apply runtime_quiet|done|done|]. intros _ s3 Hg3 Hf3.
    apply (twp_prepare true in_runtime); [apply lock_file_quiet|done|done|]. intros _ s4 Hg4 Hf4.
    apply (examine_ok _ _ safe_life); [done|]. rewrite Hg4, Hg3. done. }
  intros [[]|e] s1 [Hf1 HG1]; [|by apply Hstop]. destruct HG1 as [Hold1 Hsafe1]. destruct (mode =?s "uninstall") eqn:Eu.
  - apply String.eqb_eq in Eu as ->. apply twp_bind. eapply twp_mono; [|by apply uninstall_ok]. intros r s2 Hk. apply twp_ret. split; [done|]. by destruct r.
  - apply twp_bind, twp_self, twp_bind. eapply twp_mono; [|apply (twp_found disk in_keychain D0 pl false (fun _ => False)); [eapply installOwner_quiet; done|done|exact Hf1]].
    intros [a|e] s2 [Hg2 Hf2]; [|by apply Hstop]. apply twp_bind, twp_assign. eapply twp_mono; [|apply (replace_ok disk in_keychain D0 pl); [by cbn; rewrite Hg2|by unfold safe_life; cbn; rewrite Hg2|done]].
    intros [[]|e] s3 H3; [split; [by eapply replaced_kept|done]|destruct H3; by split].
Qed.
End Run.

(** C15. Whatever an installation or a removal does, and wherever it is killed, the program that
    was installed is on disk, where it was or under the name of its backup; only what the
    service itself keeps under its state may differ. *)
Theorem installation_is_never_lost supported setgid mode flags w : disk w installRoot <> None -> disk w plistPath <> None ->
  forall w', w' ∈ trail (runPlatform supported setgid mode flags (mkSt no_life w [])).2 -> kept disk (disk w) w'.
Proof.
  intros Hroot Hp w' Hw'. destruct (disk w plistPath) as [pl|] eqn:Epl; [|done].
  destruct (command_ok (disk w) pl Hroot supported setgid mode flags (mkSt no_life w [])) as (_ & l & El & Hall); [by split|by constructor|].
  rewrite El, app_nil_r in Hw'. by eapply Forall_forall in Hw'.
Qed.

(** C16. An installation that fails without an error of its undoing leaves the program and the
    job of the service as they were found. *)
Theorem failed_installation_restores supported setgid flags w pl e : disk w installRoot <> None -> disk w plistPath = Some pl ->
  let r := runPlatform supported setgid "install" flags (mkSt no_life w []) in r.1 = inr e -> undone e = true -> as_found disk (disk w) pl (world r.2).
Proof.
  intros Hroot Epl r Hr Hu. destruct (command_ok (disk w) pl Hroot supported setgid "install" flags (mkSt no_life w [])) as ((_ & H') & _); [by split|by constructor|].
  fold r in H'. rewrite Hr in H'. by apply H'.
Qed.
End Props.

(** ** The waits of the macOS installer end

    The fuel of its loops is enough: with more of it they do the same, since every round
    but the last lets the pause pass. *)


Section Waits.
Context {W : Type} (clock : W -> Z).

#[local] Abbreviation M := (Trail.M macLife W).
#[local] Abbreviation St := (Trail.St macLife W).

(** Time does not go back. *)
Definition onward {A} (m : M A) : Prop := forall s, clock (world s) <= clock (world (m s).2).

Section Rounds.
Context (now : M Z) (pause_for : Z -> M unit).
Context (Hnow : forall s, (now s).1 = clock (world (now s).2)) (Hon : onward now) (Hsleep : forall d s, clock (world s) + d <= clock (world (pause_for d s).2)).

(** A wait for [launchd]: the remaining time is what the rounds can still take. *)
Lemma await_more (query : Z -> M (bool + string)) deadline fuel n (s : St) : (forall d, onward (query d)) ->
  deadline - clock (world s) <= 100 * Millisecond * Z.of_nat fuel -> await_from now pause_for query deadline (S fuel + n) s = await_from now pause_for query deadline (S fuel) s.
Proof.
  intros Hq. revert s. induction fuel as [|fuel IH]; intros s Hf; cbn [Nat.add await_from]; unfold try_bind, mbind, StateM_bind;
    pose proof (Hnow s) as Ht; pose proof (Hon s) as Hc; destruct (now s) as [t s1]; cbn [fst snd] in *.
  - by rewrite (proj2 (Z.leb_le _ _)) by lia.
  - destruct (deadline - t <=? 0) eqn:E; [done|]. apply Z.leb_gt in E. pose proof (Hq (Z.min (deadline - t) Second) s1) as Hc1.
    destruct (query _ s1) as [[[]|e] s2]; cbn [fst snd] in *; [|done..]. pose proof (Hnow s2) as Ht2. pose proof (Hon s2) as Hc2. destruct (now s2) as [t2 s3]; cbn [fst snd] in *.
    destruct (deadline - t2 <=? 0) eqn:E2; [done|]. apply Z.leb_gt in E2. pose proof (Hsleep (Z.min (100 * Millisecond) (deadline - t2)) s3) as Hc3.
    destruct (pause_for _ s3) as [u s4]; cbn [fst snd] in *. apply IH. lia.
Qed.
End Rounds.

Context `{!installSystem W}.
Context (Hclock : forall w, (time_Now w).1 = clock (time_Now w).2 /\ clock w <= clock (time_Now w).2) (Hpause : forall d w, clock w + d <= clock (time_Sleep d w).2).

Lemma now_clock (s : St) : (sys time_Now s).1 = clock (world (sys time_Now s).2) /\ clock (world s) <= clock (world (sys time_Now s).2).
Proof. destruct (Hclock (world s)) as [H1 H2]. unfold sys. destruct (time_Now (world s)). by split. Qed.

Lemma sleep_clock d (s : St) : clock (world s) + d <= clock (world (sleep d s).2).
Proof. pose proof (Hpause d (world s)) as H'. unfold sleep, sys. by destruct (time_Sleep d (world s)). Qed.

Lemma poll_more deadline pause late attempt fuel n (s : St) : onward attempt -> deadline - clock (world s) < pause * Z.of_nat fuel ->
  poll deadline pause late attempt (S fuel + n) s = poll deadline pause late attempt (S fuel) s.
Proof.
  intros Ha. revert s. induction fuel as [|fuel IH]; intros s Hf; cbn [Nat.add poll]; unfold mbind, StateM_bind; pose proof (Ha s) as Hc;
    destruct (attempt s) as [[r|] s1]; cbn [fst snd] in *; try done; destruct (now_clock s1) as [Ht Hc1]; destruct (sys time_Now s1) as [t s2]; cbn [fst snd] in *.
  - by rewrite (proj2 (Z.ltb_lt _ _)) by lia.
  - destruct (deadline <? t) eqn:E; [done|]. apply Z.ltb_ge in E. pose proof (sleep_clock pause s2) as Hc2. destruct (sleep pause s2) as [u s3]; cbn [fst snd] in *. apply IH. lia.
Qed.

(** The loops of [waitIdle] and of the lock of the stopped service do not run out of fuel. *)
Lemma poll_for_enough timeout pause late attempt n (s : St) : 0 < pause -> 0 <= timeout -> onward attempt ->
  poll_for timeout pause late attempt s = (t ← sys time_Now; poll (t + timeout) pause late attempt (poll_fuel timeout pause + n)) s.
Proof.
  intros Hp Ht Ha. unfold poll_for, mbind, StateM_bind. destruct (now_clock s) as [E Hc]. destruct (sys time_Now s) as [t s1]; cbn [fst snd] in *.
  unfold poll_fuel. replace (Z.to_nat (timeout / pause) + 2)%nat with (S (Z.to_nat (timeout / pause) + 1)) by lia. symmetry. apply poll_more; [done|].
  pose proof (Z.div_pos timeout pause Ht Hp). pose proof (Z.mul_succ_div_gt timeout pause Hp). lia.
Qed.

(** Nor does that of [waitUnregistered]. *)
Lemma await_enough query timeout n (s : St) : 0 <= timeout -> (forall d, onward (query d)) ->
  awaitUnregistered (sys time_Now) sleep query timeout s = (t ← sys time_Now; await_from (sys time_Now) sleep query (t + timeout) (await_fuel timeout + n)) s.
Proof.
  intros Ht Hq. unfold awaitUnregistered, mbind, StateM_bind. destruct (now_clock s) as [E Hc]. destruct (sys time_Now s) as [t s1]; cbn [fst snd] in *.
  unfold await_fuel. assert (Hm : 0 < 100 * Millisecond) by (unfold Millisecond; lia). replace (Z.to_nat (timeout / (100 * Millisecond)) + 2)%nat with (S (Z.to_nat (timeout / (100 * Millisecond)) + 1)) by lia.
  symmetry. apply await_more; [intros s'; apply now_clock|intros s'; apply now_clock|apply sleep_clock|done|].
  pose proof (Z.div_pos timeout _ Ht Hm). pose proof (Z.mul_succ_div_gt timeout _ Hm). lia.
Qed.
End Waits.
