(* ===== verification/InstallDemo.v ===== *)
(** * A Mac on which the installer runs

    A disk with an installation and a package, a registered job and a client whose answers
    are given, with the laws of the system discharged; an upgrade whose new service does
    not come up and is rolled back. *)
From S2P Require Import Prelude Trail GoText NativeNetwork DarwinSystem FilePath InstallPackage InstallDisk InstallMac InstallPaths InstallSpec InstallCrash InstallReplace InstallProps.
From stdpp Require Import list.

#[local] Open Scope string_scope.
#[local] Open Scope Z_scope.
#[local] Open Scope list_scope.

(** Letters outside ASCII do not occur. *)
#[export] Instance mac_tables : UnicodeTables := {| unicode_lower r := r; unicode_upper r := r |}.

Record Mac := mkMac { mc_disk : Disk; mc_modes : string -> Z; mc_registered : bool; mc_ca : bool; mc_time : Z; mc_answers : list ServiceStatus }.

Definition put (p : string) (n : Node) (w : Mac) : Mac :=
  mkMac (fun q => if q =?s p then Some n else mc_disk w q) (mc_modes w) (mc_registered w) (mc_ca w) (mc_time w) (mc_answers w).
Definition moved (a b : string) (w : Mac) : Mac := mkMac (move a b (mc_disk w)) (mc_modes w) (mc_registered w) (mc_ca w) (mc_time w) (mc_answers w).
Definition set_mode (p : string) (mode : Z) (w : Mac) : Mac :=
  mkMac (mc_disk w) (fun q => if q =?s p then mode else mc_modes w q) (mc_registered w) (mc_ca w) (mc_time w) (mc_answers w).
Definition set_registered (b : bool) (w : Mac) : Mac := mkMac (mc_disk w) (mc_modes w) b (mc_ca w) (mc_time w) (mc_answers w).
Definition set_ca (b : bool) (w : Mac) : Mac := mkMac (mc_disk w) (mc_modes w) (mc_registered w) b (mc_time w) (mc_answers w).
Definition tick (d : Z) (w : Mac) : Mac := mkMac (mc_disk w) (mc_modes w) (mc_registered w) (mc_ca w) (mc_time w + d) (mc_answers w).

Definition stat_of (w : Mac) (p : string) (n : Node) : Stat :=
  let varrun := p =?s "/private/var/run" in
  mkStat (match n with Directory => IsDirectory | Symlink _ => IsSymlink | File _ => Regular end)
    (if strings_HasPrefix p "/Users/" || (p =?s "/dev/console") then 501 else 0) (if varrun then 1 else 0) (if varrun then 509 else mc_modes w p) 100.

Definition stat_at (p : string) (w : Mac) : option Stat := stat_of w p <$> mc_disk w p.

(** The digests of the core, of the certificate and of everything else. *)
Definition demo_sha (d : string) : string := if d =?s "core" then coreDigest else if d =?s "ca" then caDigest else coreDigest.

Definition contents (w : Mac) (p : string) : string := match mc_disk w p with Some (File d) => d | _ => "" end.

Definition launchctl_missing : string := "Bad request." ++s String newline ("Could not find service " ++s quotes "'" ++s label ++s quotes "'" ++s " in domain for system").

Definition demo_native (program : string) (args : list string) (w : Mac) : (string * option CommandError) * Mac :=
  let arg n s := match nth_error args n with Some a => a =?s s | None => false end in
  if arg 0%nat "print" then if mc_registered w then (("", None), w) else ((launchctl_missing, Some (ExitStatus 113)), w)
  else if arg 0%nat "bootstrap" then (("", None), set_registered true w)
  else if arg 0%nat "bootout" then (("", None), set_registered false w)
  else if arg 0%nat "find-certificate" then ((if mc_ca w then strings_ToUpper caDigest else "", None), w)
  else if arg 0%nat "add-trusted-cert" then (("", None), set_ca true w)
  else if arg 0%nat "delete-certificate" then (("", None), set_ca false w)
  else if arg 1%nat "-search" then (("alice 501", None), w)
  else if arg 1%nat "-read" then (("UniqueID: 501" ++s String newline "NFSHomeDirectory: /Users/alice", None), w)
  else (("", None), w).

(** The package: what an installation needs. *)
Definition demo_manifest : manifest := mkManifest 1
  [mkEntry appName "dir" "" "" false; mkEntry (appName ++s "/Contents") "dir" "" "" false; mkEntry (appName ++s "/Contents/Info.plist") "file" coreDigest "" false;
   mkEntry "Telecom-GoMITM-Root.cer" "file" caDigest "" false; mkEntry "policy.json" "file" coreDigest "" false; mkEntry "regen-access" "file" coreDigest "" true;
   mkEntry "regen-access-installer" "file" coreDigest "" true; mkEntry "regen-access-service" "file" coreDigest "" true; mkEntry "sing-box" "file" coreDigest "" true].

Definition demo_tree : TreeView := mkTree
  (inl (map (fun e => (en_Path e, if en_Kind e =?s "dir" then FoundDir else FoundFile (inl (en_SHA256 e)) (en_Executable e))) (mf_Files demo_manifest)))
  (fun _ => inr "not a link") (inl fixedPolicy).

Definition no_answer := mkServiceStatus "" "failed" "".

#[export] Instance demo_codec : installCodec := {
  decode_manifest d := if d =?s "manifest" then inl demo_manifest else inr "invalid character";
  encode_manifest m := "manifest";
  decode_receipt d := if d =?s "receipt" then inl (mkReceipt 1 501 false caDigest) else if d =?s "receipt with certificate" then inl (mkReceipt 1 501 true caDigest) else inr "invalid character";
  encode_receipt r := if rc_CAAdded r then "receipt with certificate" else "receipt"
}.

#[export] Instance demo_mac : installSystem Mac := {
  filepath_Abs p w := (inl p, w);
  read_tree _ w := (demo_tree, w);
  os_Lstat p w := (inl (stat_at p w), w);
  os_Stat p w := (inl (stat_at p w), w);
  os_Mkdir p _ w := match mc_disk w p with Some _ => (inr "file exists", w) | None => (inl tt, put p Directory w) end;
  os_MkdirTemp dir name w := let p := dir ++s "/" ++s name ++s "1" in (inl p, put p Directory w);
  os_Symlink target p w := match mc_disk w p with Some _ => (inr "file exists", w) | None => (inl tt, put p (Symlink target) w) end;
  unix_Lchown _ w := (inl tt, w);
  os_Rename a b w := (inl tt, moved a b w);
  os_ReadFile p w := (inl (contents w p), w);
  os_Open p w := (inl (mkHandle p 3), w);
  unix_OpenDirectory p w := (inl (mkHandle p 4), w);
  os_OpenExclusive p _ w := match mc_disk w p with Some _ => (inr "file exists", w) | None => (inl (mkHandle p 5), put p (File "") w) end;
  unix_OpenLock p create w := if create then match mc_disk w p with Some _ => (LockExists, w) | None => (Locked (mkHandle p 6), put p (File "") w) end
    else match mc_disk w p with Some _ => (Locked (mkHandle p 6), w) | None => (NoLock, w) end;
  unix_Flock _ w := (inl tt, w);
  unix_Fchown _ w := (inl tt, w);
  unix_Fchmod h mode w := (inl tt, set_mode (h_name h) mode w);
  unix_Fstat h w := (match stat_at (h_name h) w with Some s => inl s | None => inr "no such file" end, w);
  file_Write h data w := (inl tt, put (h_name h) (File (contents w (h_name h) ++s data)) w);
  file_Sync _ w := (inl tt, w);
  file_Close _ w := (inl tt, w);
  io_CopyLimited src dst _ w := (inl tt, put (h_name dst) (File (contents w (h_name src))) w);
  hash_contents h w := (inl (demo_sha (contents w (h_name h))), w);
  native := demo_native;
  client_StatusDetails w := match mc_answers w with [] => (inr "connection refused", w) | r :: l => (inl r, mkMac (mc_disk w) (mc_modes w) (mc_registered w) (mc_ca w) (mc_time w) l) end;
  client_Disconnect w := (inr "connection refused", w);
  time_Now w := (mc_time w, w);
  time_Sleep d w := (tt, tick (Z.max 0 d) w);
  time_suffix w := ("20260101T000000", w)
}.

Definition mac_ca (w : Mac) : Prop := mc_ca w = true.

Lemma put_steps p n w : steps mc_disk mac_ca true (eq p) w (put p n w).
Proof. split; [|done]. intros q _ Hq. cbn. rewrite (proj2 (String.eqb_neq _ _)); [done|congruence]. Qed.

Lemma same_steps w w' k P : mc_disk w' = mc_disk w -> (k = true -> mc_ca w' = mc_ca w) -> steps mc_disk mac_ca k P w w'.
Proof. intros E Ec. split; [by rewrite E|]. intros Hk. unfold mac_ca. by rewrite Ec. Qed.

#[export] Instance demo_laws : InstallLaws Mac mc_disk mac_ca.
Proof.
  split; intros; cbn; try (by apply same_steps).
  - split; [by apply same_steps|]. cbn. intros _. unfold stat_at. by destruct (mc_disk w p).
  - destruct (mc_disk w p); [by apply same_steps|apply put_steps].
  - split; [by exists "1"|apply put_steps].
  - destruct (mc_disk w p); [by apply same_steps|apply put_steps].
  - by split.
  - destruct (mc_disk w p); cbn; (split; [|done]); [by apply same_steps|apply put_steps].
  - destruct create, (mc_disk w p); cbn; try by apply same_steps. eapply (steps_mono mc_disk mac_ca true true); [|done|apply put_steps]. by intros q <-.
  - apply put_steps.
  - apply put_steps.
  - unfold demo_native. repeat case_match; cbn; by apply same_steps.
  - destruct (mc_answers w); by apply same_steps.
Qed.

(** ** An upgrade that is rolled back *)
Definition demo_files : list (string * Node) :=
  map (fun p => (p, Directory)) ["/Library"; "/Library/Application Support"; "/Library/LaunchDaemons"; "/private"; "/private/var"; "/private/var/run"; runtimeRoot; installRoot; installRoot ++s "/state"; "/Users/alice"] ++
  map (fun f => (installRoot ++s "/" ++s f.1, File f.2)) [("service.json", "old"); ("manifest.json", "manifest"); ("receipt.json", "receipt"); ("regen-access-service", "old"); ("sing-box", "core")] ++
  [(plistPath, File "old"); ("/dev/console", File ""); ("/payload/manifest.json", File "manifest")] ++
  map (fun e => ("/payload/" ++s en_Path e, File (if en_SHA256 e =?s caDigest then "ca" else "new"))) (filter (fun e => en_Kind e = "file") (mf_Files demo_manifest)).

Fixpoint disk_of (l : list (string * Node)) : Disk := fun q => match l with [] => None | (p, n) :: l => if q =?s p then Some n else disk_of l q end.

(** The new service does not become idle, the old one does. *)
Definition demo_before : Mac := mkMac (disk_of demo_files) (fun _ => 493) false false 0 [no_answer; mkServiceStatus "" "idle" ""].

Definition demo_flags := mkFlags "/payload" "alice" caDigest 0.

#[local] Abbreviation demo_upgrade := (runPlatform (inl tt) (inl tt) "install" (inl demo_flags) (mkSt no_life demo_before [])).

(** Killed anywhere in this upgrade, the old program is still there. *)
Lemma installation_is_never_lost_witness : (404 <= length (trail demo_upgrade.2))%nat /\ mc_disk demo_before installRoot <> None /\ mc_disk demo_before plistPath <> None /\
  forall w, w ∈ trail demo_upgrade.2 -> kept mc_disk (mc_disk demo_before) w.
Proof.
  assert (Hr : mc_disk demo_before installRoot <> None) by discriminate. assert (Hp : mc_disk demo_before plistPath <> None) by discriminate.
  split; [vm_compute; repeat constructor|]. split; [exact Hr|]. split; [exact Hp|].
  exact (installation_is_never_lost mc_disk mac_ca (inl tt) (inl tt) "install" (inl demo_flags) demo_before Hr Hp).
Defined.

(** The upgrade fails when the new service does not come up, and the old one stands again. *)
Lemma failed_installation_restores_witness : demo_upgrade.1 = inr (Restored (Plain "started service did not recover to idle")) /\
  as_found mc_disk (mc_disk demo_before) (File "old") (world demo_upgrade.2).
Proof.
  assert (Hr : demo_upgrade.1 = inr (Restored (Plain "started service did not recover to idle"))) by (vm_compute; reflexivity). split; [exact Hr|].
  pose proof (failed_installation_restores mc_disk mac_ca (inl tt) (inl tt) (inl demo_flags) demo_before (File "old") (Restored (Plain "started service did not recover to idle"))) as H.
  cbv zeta in H. exact (H ltac:(discriminate) eq_refl Hr eq_refl).
Defined.

(** [safeName] accepts the directory above, so that a link of the application that leads to
    the root of the package, through another link, passes the check that it stays inside. *)
Example link_above_the_app_is_accepted :
  safeName ".." = true /\ safeLink (appName ++s "/a/b/d") "../../Contents" = true /\ safeLink (appName ++s "/a/b/l") "d/../.." = true /\
  check_links (fun _ => inl "..") [mkEntry (appName ++s "/a/b/l") "link" "" "d/../.." false] = None.
Proof. vm_compute. repeat split. Qed.
