(* ===== verification/PreparedPool.v ===== *)
(** * The prepared firewall pool ([internal/agent/firewall_pool.go],
    [firewall_pool_windows.go], [network_prepared_windows.go], [prepared_windows.go])

    The rules that are prepared for the adapters of a network, the sealed ledger that
    remembers them, and the operations that install, arm and disarm them. The connection of
    the proof of concept does not prepare a pool; the operations are those of the managed
    path. *)
From S2P Require Import Prelude GoText Netip AccessModel NetPrefixes NativeNetwork NetworkManager.
From stdpp Require Import list gmap.

#[local] Open Scope string_scope.
#[local] Open Scope Z_scope.
#[local] Open Scope list_scope.

(** ** Names *)
Definition windowsPublicAnyRulePrefix := "RegenBioOverseasAccess.BlockPublicAny.".
Definition windowsDNSUDPBlockRule := "RegenBioOverseasAccess.BlockUnapprovedDNSUDP".
Definition windowsDNSTCPBlockRule := "RegenBioOverseasAccess.BlockUnapprovedDNSTCP".
Definition windowsEmergencyBlockRule := "RegenBioOverseasAccess.BlockPublicEmergency".
Definition windowsSnapshotPhaseProtected := "protected".

(** [strings.Trim(s, "{}")] *)
Definition is_brace (a : ascii) : bool := (byte_val a =? 123) || (byte_val a =? 125).
Fixpoint trim_left (s : string) : string := match s with "" => "" | String a r => if is_brace a then trim_left r else s end.
Fixpoint trim_right (s : string) : string :=
  match s with "" => "" | String a r => match trim_right r with "" => if is_brace a then "" else String a "" | t => String a t end end.
Definition trim_braces (s : string) : string := trim_right (trim_left s).

(** [firewallAdapterGUIDPattern]: eight, four, four, four and twelve digits, maybe in braces. *)
Definition guid_digit (a : ascii) : bool :=
  let b := byte_val a in is_digit b || (97 <=? b) && (b <=? 102) || (65 <=? b) && (b <=? 70).

Definition group_end (last : bool) (s : string) : option string :=
  match s with
  | "" => if last then Some "" else None
  | String a rest => if last then if s =?s "}" then Some "" else None else if byte_val a =? 45 then Some rest else None
  end.

Fixpoint guid_groups (groups : list (nat * bool)) (s : string) : bool :=
  match groups with
  | [] => true
  | (n, last) :: groups =>
      (n <=? String.length s)%nat && string_all guid_digit (string_take n s) &&
      match group_end last (String.substring n (String.length s - n) s) with Some rest => guid_groups groups rest | None => false end
  end.

Definition firewallAdapterGUID (s : string) : bool :=
  let s := match s with String a r => if byte_val a =? 123 then r else s | "" => s end in
  guid_groups [(8, false); (4, false); (4, false); (4, false); (12, true)]%nat s.

(** ** What is not in the repository *)
Class PreparedSystem `{NetSystem} := {
  json_Marshal_strings : list string -> string + string;
  json_Marshal_policy : Policy -> string + string;
  json_Marshal_prepared : WindowsPreparedState -> string + string;
  json_Marshal_snapshot : WindowsNetworkSnapshot -> string + string;
  (* nothing when there is no file *)
  prepared_Load : NWorld -> (option WindowsPreparedState + string) * NWorld;
  prepared_Save : WindowsPreparedState -> NWorld -> (unit + string) * NWorld;
  snapshot_Load : NWorld -> (option WindowsNetworkSnapshot + string) * NWorld;
  snapshot_Save : WindowsNetworkSnapshot -> NWorld -> (unit + string) * NWorld
}.

Section Pool.
Context `{GoSort, FoldTables, UnicodeTables, !NetSystem, !PreparedSystem}.

(** ** Hashes of prefixes *)
Fixpoint canonical_prefixes (values : list string) : option (list string) :=
  match values with
  | [] => Some []
  | value :: values =>
      p ← ParsePrefix (strings_TrimSpace value);
      if bool_decide (p = Masked p) then l ← canonical_prefixes values; Some (Prefix_String p :: l) else None
  end.

Definition hashCanonicalPrefixes (values : list string) : string + string :=
  match values with
  | [] => inr "prefix collection is empty"
  | _ =>
      match canonical_prefixes values with
      | None => inr "prefix collection contains an invalid prefix"
      | Some set =>
          match json_Marshal_strings (sort_strings (remove_dups set)) with
          | inr err => inr err
          | inl payload => inl (sha256_hex payload)
          end
      end
  end.

(** ** The rules of the pool *)
Definition bad_adapter (a : WindowsNativeAdapter) : bool :=
  (NA_InterfaceIndex a <=? 0) || blank (NA_InterfaceAlias a) || negb (firewallAdapterGUID (NA_InterfaceGuid a)).

Definition not_protected (a : WindowsNativeAdapter) : bool :=
  (NA_InterfaceIndex a =? 1) || strings_EqualFold (NA_InterfaceAlias a) windowsTUNInterface || strings_EqualFold (NA_Status a) "NotPresent".

(** An adapter that rules protect: its bare identity, in upper case, and its alias. *)
Record Protected := mkProtected { pr_guid : string; pr_alias : string }.

Definition bare_guid (a : WindowsNativeAdapter) : string := strings_ToUpper (trim_braces (strings_TrimSpace (NA_InterfaceGuid a))).

Definition protected_of (a : WindowsNativeAdapter) : Protected := mkProtected (bare_guid a) (NA_InterfaceAlias a).

Fixpoint protect_adapters (guids : gset string) (indexes : gset Z) (adapters : list WindowsNativeAdapter) : list Protected + string :=
  match adapters with
  | [] => inl []
  | a :: adapters =>
      if bad_adapter a then inr "prepared firewall adapter identity is invalid"
      else if not_protected a then protect_adapters guids indexes adapters
      else
        let guid := bare_guid a in
        if bool_decide (guid ∈ guids) || bool_decide (NA_InterfaceIndex a ∈ indexes) then inr "prepared firewall adapter identity is duplicated"
        else match protect_adapters ({[guid]} ∪ guids) ({[NA_InterfaceIndex a]} ∪ indexes) adapters with
        | inl l => inl (protected_of a :: l)
        | inr err => inr err
        end
  end.

Definition adapter_rule (blockedHash : string) (p : Protected) : WindowsPreparedRule :=
  mkRule (windowsPublicAnyRulePrefix ++s pr_guid p) ("{" ++s pr_guid p ++s "}") (pr_alias p) [] "Any" [] blockedHash false false.

Definition shared_rules (aliases : list string) (blockedHash dnsHash : string) : list WindowsPreparedRule :=
  [mkRule windowsDNSUDPBlockRule "" "" aliases "UDP" ["53"] dnsHash false false;
   mkRule windowsDNSTCPBlockRule "" "" aliases "TCP" ["53"] dnsHash false false;
   mkRule windowsEmergencyBlockRule "" "" aliases "Any" [] blockedHash true false].

Definition by_name := cmp_on RuleName String.compare.

Definition buildPreparedFirewallRules (adapters : list WindowsNativeAdapter) (blocked dnsBlocked : list string) : list WindowsPreparedRule + string :=
  match hashCanonicalPrefixes blocked, hashCanonicalPrefixes dnsBlocked with
  | inr err, _ => inr ("hash blocked prefixes: " ++s err)
  | inl _, inr err => inr ("hash DNS blocked prefixes: " ++s err)
  | inl blockedHash, inl dnsHash =>
      match protect_adapters ∅ ∅ adapters with
      | inr err => inr err
      | inl [] => inr "prepared firewall has no protectable adapters"
      | inl l =>
          let l := sort_Slice (cmp_on (fun p => "{" ++s pr_guid p ++s "}") String.compare) l in
          let aliases := sort_strings (map pr_alias l) in
          inl (sort_Slice by_name (map (adapter_rule blockedHash) l ++ shared_rules aliases blockedHash dnsHash))
      end
  end.

(** ** Ownership *)
Fixpoint ledger_error (seen : gset string) (want : list WindowsPreparedRule) : option string :=
  match want with
  | [] => None
  | r :: want =>
      if (RuleName r =?s "") || bool_decide (RuleName r ∈ seen) || RuleExpectedEnabled r then Some "prepared firewall ledger is invalid"
      else ledger_error ({[RuleName r]} ∪ seen) want
  end.

#[local] Instance rule_eq_dec : EqDecision WindowsPreparedRule.
Proof using. clear. solve_decision. Defined.

Definition validatePreparedFirewallOwnership (expected actual : list WindowsPreparedRule) : option string :=
  if bool_decide (expected = []) || negb (length expected =? length actual)%nat then Some "prepared firewall rule count does not match ownership ledger"
  else
    let want := canonicalPreparedRules expected in
    match ledger_error ∅ want with
    | Some err => Some err
    | None => if bool_decide (want = canonicalPreparedRules actual) then None else Some "prepared firewall rule definition drifted"
    end.

(** ** The sealed state *)
Definition sort_servers (a : WindowsNativeAdapter) : WindowsNativeAdapter :=
  mkNativeAdapter (NA_InterfaceIndex a) (NA_Description a) (NA_InterfaceLUID a) (NA_InterfaceGuid a) (NA_InterfaceAlias a) (NA_Status a) (sort_strings (NA_DNSServers a)) (NA_DNSAutomatic a).

Definition route_key_cmp : WindowsNativeRoute -> WindowsNativeRoute -> comparison :=
  cmp_lex (cmp_on NR_DestinationPrefix String.compare) (cmp_lex (cmp_on NR_InterfaceIndex Z.compare) (cmp_on NR_NextHop String.compare)).

Definition canonicalizeWindowsPreparedState (s : WindowsPreparedState) : WindowsPreparedState :=
  let b := PS_Baseline s in
  mkPreparedState (PS_Version s) (PS_Generation s) (PS_AdapterCount s) (PS_PolicySHA256 s) (PS_RuleDefinitionVersion s) (PS_FingerprintSHA256 s)
    (mkBaseline (sort_Slice (cmp_on NA_InterfaceGuid String.compare) (map sort_servers (Adapters b))) (sort_Slice interface_cmp (Interfaces b))
       (sort_Slice route_key_cmp (Routes b)) (sort_Slice node_route_cmp (NodeRoutes b)))
    (sort_strings (PS_BlockedRemoteAddresses s)) (sort_strings (PS_DNSBlockedRemoteAddresses s)) (canonicalPreparedRules (PS_Rules s)) (PS_IntegritySHA256 s).

Definition with_integrity (h : string) (s : WindowsPreparedState) : WindowsPreparedState :=
  mkPreparedState (PS_Version s) (PS_Generation s) (PS_AdapterCount s) (PS_PolicySHA256 s) (PS_RuleDefinitionVersion s) (PS_FingerprintSHA256 s)
    (PS_Baseline s) (PS_BlockedRemoteAddresses s) (PS_DNSBlockedRemoteAddresses s) (PS_Rules s) h.

Definition sealWindowsPreparedState (s : WindowsPreparedState) : WindowsPreparedState + string :=
  let s := with_integrity "" (canonicalizeWindowsPreparedState s) in
  match json_Marshal_prepared s with
  | inr err => inr ("marshal prepared state: " ++s err)
  | inl payload => inl (with_integrity (sha256_hex payload) s)
  end.

(** Names are compared trimmed; the hash of a rule is that of the set that it blocks. *)
Fixpoint rules_error (blockedHash dnsHash : string) (seen : gset string) (rules : list WindowsPreparedRule) : option string :=
  match rules with
  | [] => None
  | r :: rules =>
      let name := strings_TrimSpace (RuleName r) in
      if (name =?s "") || bool_decide (name ∈ seen) then Some "prepared rule names must be unique"
      else if blank (RuleProtocol r) || negb (lowercase_sha256 (RuleRemoteAddressesSHA r)) then Some "prepared rule definition is invalid"
      else
        let expectedHash := if RuleEmergency r || (RuleProtocol r =?s "Any") then blockedHash else dnsHash in
        if negb (RuleRemoteAddressesSHA r =?s expectedHash) then Some "prepared rule address hash does not match its sealed prefix set"
        else rules_error blockedHash dnsHash ({[name]} ∪ seen) rules
  end.

Definition is_empty {A} (l : list A) : bool := match l with [] => true | _ => false end.

Definition validateWindowsPreparedState (s : WindowsPreparedState) : option string :=
  let want := PS_IntegritySHA256 s in
  if negb (lowercase_sha256 want) then Some "prepared state integrity is invalid"
  else match sealWindowsPreparedState s with
  | inr err => Some err
  | inl sealed =>
      if negb (PS_IntegritySHA256 sealed =?s want) then Some "prepared state integrity mismatch"
      else if negb (PS_Version s =? windowsPreparedStateVersion) || (PS_Generation s =? 0) || (PS_RuleDefinitionVersion s <=? 0) then Some "prepared state version or generation is invalid"
      else if negb (lowercase_sha256 (PS_PolicySHA256 s)) || negb (lowercase_sha256 (PS_FingerprintSHA256 s)) then Some "prepared state hashes are invalid"
      else if is_empty (Adapters (PS_Baseline s)) || is_empty (PS_Rules s) || is_empty (PS_BlockedRemoteAddresses s) || is_empty (PS_DNSBlockedRemoteAddresses s)
      then Some "prepared baseline and rules are required"
      else match hashCanonicalPrefixes (PS_BlockedRemoteAddresses s), hashCanonicalPrefixes (PS_DNSBlockedRemoteAddresses s) with
      | inr _, _ => Some "prepared blocked prefix set is invalid"
      | inl _, inr _ => Some "prepared DNS prefix set is invalid"
      | inl blockedHash, inl dnsHash => rules_error blockedHash dnsHash ∅ (PS_Rules s)
      end
  end.

(** ** The operations of the manager *)
Context (generation : Z) (plan : Plan) (policy : Policy).

#[local] Abbreviation run := (run generation).
#[local] Abbreviation Baseline := (Baseline plan).

(** The errors that [errors.Join] collects; none is success. *)
Definition error_list (r : string + NetError) : list NetError := match r with inl _ => [] | inr e => [e] end.
Definition option_list (o : option NetError) : list NetError := match o with None => [] | Some e => [e] end.

Definition with_previous (previous : WindowsPreparedState) (i : windowsNetworkInput) : windowsNetworkInput :=
  mkInput (IN_Interfaces i) (IN_RestoreInterfaces i) (IN_FirewallRuleNames i) (IN_FirewallGroup i) (IN_BlockedRemoteAddresses i) (IN_DNSBlockedRemoteAddresses i)
    (IN_ProtectedAdapters i) (IN_PreparedRules i) (IN_PreparedGeneration i) (IN_RuleDefinitionVersion i) (canonicalPreparedRules (PS_Rules previous)) (PS_Generation previous)
    (PS_RuleDefinitionVersion previous) (PS_BlockedRemoteAddresses previous) (PS_DNSBlockedRemoteAddresses previous) (IN_DNSConnected i) (IN_TUNInterface i) (IN_TUNAddress i)
    (IN_TUNDNS i) (IN_TUNRoutePrefixes i) (IN_RouteMetric i) (IN_NodeAddresses i) (IN_BaselineAdapterGuids i) (IN_OwnedTUN i) (IN_OwnedRoutes i) (IN_GuardRoutes i) (IN_CoreExecutable i).

Definition installPreparedEmergencyProtection (c : Ctx) (s : WindowsPreparedState) : NM (list NetError) :=
  r ← run c networkOperationEmergency (preparedFirewallInput plan s true); mret (error_list r).

Definition prepareFirewallPool (c : Ctx) (s : WindowsPreparedState) (previous : list WindowsPreparedState) : NM (list NetError) :=
  match previous with
  | _ :: _ :: _ => mret [ErrText "at most one previous prepared firewall generation is allowed"]
  | _ =>
      let input := preparedFirewallInput plan s true in
      let input := match previous with [p] => with_previous p input | _ => input end in
      r ← run c networkOperationFirewallPrepare input;
      match r with
      | inl _ => mret []
      | inr err =>
          armed ← (match previous with [p] => e ← installPreparedEmergencyProtection DetachedCtx p; mret (is_empty e) | _ => mret false end);
          if armed : bool then mret [err]
          else e ← installPreparedEmergencyProtection DetachedCtx s; mret (err :: e)
      end
  end.

Definition armPreparedFirewall (c : Ctx) (s : WindowsPreparedState) : NM (list NetError) :=
  r ← run c networkOperationFirewallArm (preparedFirewallInput plan s true); mret (error_list r).

Definition disablePreparedFirewall (c : Ctx) (s : WindowsPreparedState) : NM (list NetError) :=
  r ← run c networkOperationFirewallDisable (preparedFirewallInput plan s true); mret (error_list r).

(** The policy with its nodes by priority and its lists sorted. *)
Definition policy_node_cmp : Node -> Node -> comparison := cmp_lex (cmp_on NodePriority Z.compare) (cmp_on NodeID String.compare).

Definition windowsPolicySHA256 (p : Policy) : string + string :=
  let p := mkPolicy (SchemaVersion p) (Mode p) (sort_Slice policy_node_cmp (Nodes p)) (sort_strings (CorporateCIDRs p)) (sort_strings (CorporateDNS p))
    (sort_strings (InternalSuffixes p)) (BlockUDP p) (BlockQUIC p) (PolicyCredential p) in
  match json_Marshal_policy p with inl payload => inl (sha256_hex payload) | inr err => inr err end.

(** A failure with one error. *)
Definition refuse {A} (e : NetError) : NM (A + list NetError) := mret (inr [e]).
Definition remember (s : WindowsPreparedState) : NM (PreparedNetwork + list NetError) :=
  puts (set_prepared (Some s)) ;; mret (inl (preparedNetworkFromState s)).

(** The persisted state is of this policy, these rules and this network. *)
Definition reusable (existing : WindowsPreparedState) (policyHash fingerprint : string) : bool :=
  (PS_PolicySHA256 existing =?s policyHash) && (PS_RuleDefinitionVersion existing =? windowsFirewallRuleDefinitionVersion) && (PS_FingerprintSHA256 existing =?s fingerprint).

Definition next_generation (existing : option WindowsPreparedState) : Z :=
  match existing with None => 1 | Some s => uint64_incr (PS_Generation s) end.

(** The new pool: installed, audited, then published. *)
Definition publish_pool (c : Ctx) (s : WindowsPreparedState) (existing : option WindowsPreparedState) : NM (PreparedNetwork + list NetError) :=
  let previous := match existing with Some e => [e] | None => [] end in
  failed ← prepareFirewallPool c s previous;
  match failed with
  | _ :: _ => mret (inr failed)
  | [] =>
      audit ← auditPreparedFirewall generation plan c s false;
      match audit with
      | Some err => e ← installPreparedEmergencyProtection c s; mret (inr (err :: e))
      | None =>
          saved ← system (prepared_Save s);
          match saved with
          | inr err =>
              let publishErr := ErrText ("publish prepared network state: " ++s err) in
              match existing with
              | Some existing => e ← prepareFirewallPool DetachedCtx existing [s]; mret (inr (publishErr :: e))
              | None => refuse publishErr
              end
          | inl _ => remember s
          end
      end
  end.

Definition new_state (existing : option WindowsPreparedState) (b : WindowsNetworkBaseline) (policyHash fingerprint : string) (rules : list WindowsPreparedRule) : WindowsPreparedState :=
  mkPreparedState windowsPreparedStateVersion (next_generation existing) 0 policyHash windowsFirewallRuleDefinitionVersion fingerprint b
    (blockedPrefixes plan) (dnsBlockedPrefixes plan) rules "".

Definition validate_existing (existing : option WindowsPreparedState) : option string :=
  match existing with Some e => validateWindowsPreparedState e | None => None end.

(** A new generation, unless the count of them wraps around. *)
Definition renew (c : Ctx) (existing : option WindowsPreparedState) (b : WindowsNetworkBaseline) (policyHash fingerprint : string) (rules : list WindowsPreparedRule) : NM (PreparedNetwork + list NetError) :=
  if next_generation existing =? 0 then refuse (ErrText "prepared generation overflow")
  else match sealWindowsPreparedState (new_state existing b policyHash fingerprint rules) with
  | inr err => refuse (ErrText err)
  | inl s => publish_pool c s existing
  end.

(** A state that was loaded is validated before it is used or replaced. *)
Definition prepare_from (c : Ctx) (b : WindowsNetworkBaseline) (policyHash fingerprint : string) (rules : list WindowsPreparedRule) : NM (PreparedNetwork + list NetError) :=
  loaded ← system prepared_Load;
  match loaded with
  | inr err => refuse (ErrText err)
  | inl existing =>
      match validate_existing existing, existing with
      | Some err, _ => refuse (ErrText ("validate persisted prepared state: " ++s err))
      | None, Some e =>
          if reusable e policyHash fingerprint then
            match validatePreparedFirewallOwnership rules (PS_Rules e) with
            | Some err => refuse (ErrText err)
            | None => remember e
            end
          else renew c existing b policyHash fingerprint rules
      | None, None => renew c existing b policyHash fingerprint rules
      end
  end.

Definition prepareNetwork (c : Ctx) : NM (PreparedNetwork + list NetError) :=
  active ← gets current;
  match active with
  | Some _ => refuse (ErrText "cannot prepare while a network transaction is active")
  | None =>
      baseline ← Baseline c;
      match baseline with
      | inr err => refuse (ErrText ("read prepared network baseline: " ++s err))
      | inl b =>
          match refuse_adapters (Adapters b) with
          | Some err => refuse err
          | None =>
              match fingerprintNativeNetwork b, windowsPolicySHA256 policy, buildPreparedFirewallRules (Adapters b) (blockedPrefixes plan) (dnsBlockedPrefixes plan) with
              | inr err, _, _ | inl _, inr err, _ | inl _, inl _, inr err => refuse (ErrText err)
              | inl fingerprint, inl policyHash, inl rules => prepare_from c b policyHash fingerprint rules
              end
          end
      end
  end.
End Pool.

(** ** Network snapshots of the managed path ([internal/agent/network_windows.go],
    [network_prepared_windows.go])

    The seal of a snapshot, the checks that a snapshot passes before it is used, the input
    that activation and restoration make from it, and the operations that capture a
    prepared network and protect it. *)


Definition windowsTCPBlockRule := "RegenBioOverseasAccess.BlockPublicTCP".
Definition windowsQUICBlockRule := "RegenBioOverseasAccess.BlockQUIC".
Definition windowsUDPBlockRule := "RegenBioOverseasAccess.BlockPublicUDP".
Definition windowsFakeIPRoutePrefix := "198.18.0.0/15".
Definition windowsFirewallRuleNames : list string :=
  [windowsTCPBlockRule; windowsQUICBlockRule; windowsUDPBlockRule; windowsDNSUDPBlockRule; windowsDNSTCPBlockRule; windowsEmergencyBlockRule].

(** Addition of [int] wraps around. *)
Definition int_add (x y : Z) : Z := (x + y + 2 ^ 63) `mod` 2 ^ 64 - 2 ^ 63.

#[export] Instance WindowsOwnedRoute_eq_dec : EqDecision WindowsOwnedRoute.
Proof. solve_decision. Defined.
#[export] Instance PreparedNetwork_eq_dec : EqDecision PreparedNetwork.
Proof. solve_decision. Defined.

Definition addressFamilyForPrefix (value : string) : string :=
  match ParsePrefix value with Some p => if Is6 (PrefixAddr p) then "IPv6" else "IPv4" | None => "IPv4" end.

(** ** What a script is told about a snapshot *)
Definition activationInput (sn : WindowsNetworkSnapshot) : windowsNetworkInput :=
  mkInput (SN_Interfaces sn) false windowsFirewallRuleNames windowsFirewallGroup (SN_BlockedRemoteAddresses sn) (SN_DNSBlockedRemoteAddresses sn)
    [] [] 0 0 [] 0 0 [] [] false windowsTUNInterface windowsTUNAddress windowsTUNDNS ["0.0.0.0/1"; "128.0.0.0/1"] (SN_RouteMetric sn)
    [] [] (SN_OwnedTUN sn) (SN_OwnedRoutes sn) [] "".

Definition with_family (r : WindowsOwnedRoute) : WindowsOwnedRoute :=
  if OR_AddressFamily r =?s "" then mkOwnedRoute (addressFamilyForPrefix (OR_DestinationPrefix r)) (OR_DestinationPrefix r) (OR_InterfaceIndex r) (OR_NextHop r) (OR_RouteMetric r)
  else r.

Definition or_else {A} (l d : list A) : list A := match l with [] => d | _ => l end.

Definition restorationInput (plan : Plan) (sn : WindowsNetworkSnapshot) : windowsNetworkInput :=
  mkInput (SN_Interfaces sn) (SN_OwnershipPhase sn =?s windowsSnapshotPhaseTUNOwned) windowsFirewallRuleNames windowsFirewallGroup
    (or_else (SN_BlockedRemoteAddresses sn) (blockedPrefixes plan)) (or_else (SN_DNSBlockedRemoteAddresses sn) (dnsBlockedPrefixes plan))
    [] [] 0 0 [] 0 0 [] [] false windowsTUNInterface windowsTUNAddress windowsTUNDNS ["0.0.0.0/1"; "128.0.0.0/1"] (SN_RouteMetric sn)
    [] [] (SN_OwnedTUN sn) (map with_family (SN_OwnedRoutes sn)) [] "".

Definition dnsMetricInput (sn : WindowsNetworkSnapshot) (connected : bool) : windowsNetworkInput :=
  mkInput (SN_Interfaces sn) (negb connected) [] "" [] [] [] [] 0 0 [] 0 0 [] [] connected windowsTUNInterface "" windowsTUNDNS [] 0
    [] [] (SN_OwnedTUN sn) [] [] "".

(** ** Sets of routes *)
Fixpoint owned_tuples (label : string) (seen : list WindowsOwnedRoute) (want actual : list WindowsOwnedRoute) : option string :=
  match actual with
  | [] => None
  | r :: actual =>
      if bool_decide (r ∈ seen) then Some ("captured " ++s label ++s " route ownership contains a duplicate")
      else if negb (bool_decide (r ∈ want)) then Some ("captured " ++s label ++s " route ownership tuple is invalid")
      else owned_tuples label (r :: seen) want actual
  end.

Definition validateExactOwnedRouteSet (actual expected : list WindowsOwnedRoute) (label : string) : option string :=
  if negb (length actual =? length expected)%nat then Some ("captured " ++s label ++s " route ownership count is invalid")
  else owned_tuples label [] expected actual.

Definition equalStringSlices (left right : list string) : bool := bool_decide (left = right).

Fixpoint duplicate_node (seen : list string) (routes : list WindowsNodeRouteSnapshot) : bool :=
  match routes with
  | [] => false
  | r :: routes => bool_decide (NodeAddress_ r ∈ seen) || duplicate_node (NodeAddress_ r :: seen) routes
  end.

Definition validateCapturedNodeRoutes (routes : list WindowsNodeRouteSnapshot) (expected : list string) : option string :=
  if negb (length routes =? length expected)%nat then Some "captured node route set does not match the configured nodes"
  else if duplicate_node [] routes then Some "captured node route set contains a duplicate"
  else if forallb (fun node => bool_decide (node ∈ map NodeAddress_ routes)) expected then None
  else Some "captured node route set does not match the configured nodes".

(** ** The checks of a snapshot *)
Definition node_route_error (r : WindowsNodeRouteSnapshot) : option string :=
  match ParseAddr (NodeAddress_ r) with
  | None => Some "captured node route state is invalid"
  | Some node =>
      if negb (Is4 node) || (NodeInterfaceIndex r <=? 0) || (DestinationPrefix r =?s "") then Some "captured node route state is invalid"
      else match ParsePrefix (DestinationPrefix r) with
      | None => Some "captured node route prefix is invalid"
      | Some p =>
          if negb (Is4 (PrefixAddr p)) || negb (Contains p node) then Some "captured node route prefix is invalid"
          else if NodeNextHop r =?s "" then Some "captured node next hop is missing"
          else if (NodeRouteMetric r <? 0) || (NodeInterfaceMetric r <? 0) || negb (EffectiveMetric r =? int_add (NodeRouteMetric r) (NodeInterfaceMetric r))
          then Some "captured node route metric is invalid"
          else if negb (Bool.eqb (BypassRequired r) (PrefixBits p =? 0)) then Some "captured node bypass decision is invalid"
          else None
      end
  end.

(** The first error of a list. *)
Fixpoint first_error {A} (f : A -> option string) (l : list A) : option string :=
  match l with [] => None | x :: l => match f x with Some err => Some err | None => first_error f l end end.

Section Snapshot.
Context `{GoSort, FoldTables, UnicodeTables, !NetSystem, !PreparedSystem}.

Fixpoint interfaces_error (seen : gset string) (l : list WindowsInterfaceSnapshot) : option string :=
  match l with
  | [] => None
  | i :: l =>
      let guid := strings_ToLower (strings_TrimSpace (IS_InterfaceGuid i)) in
      if (IS_Index i <=? 0) || blank (IS_Alias i) || (guid =?s "") then Some "captured interface state is invalid"
      else if bool_decide (guid ∈ seen) then Some "captured interface GUID is duplicated"
      else match first_error (fun server => match ParseAddr server with None => Some "captured DNS state is invalid" | Some _ => None end) (IS_DNSServers i) with
      | Some err => Some err
      | None => interfaces_error ({[guid]} ∪ seen) l
      end
  end.

Definition with_snapshot_integrity (h : string) (sn : WindowsNetworkSnapshot) : WindowsNetworkSnapshot :=
  mkSnapshot (SN_Version sn) (SN_Interfaces sn) (SN_OwnedFirewallRulesPresent sn) (SN_ConflictingTUNRoutes sn) (SN_BaselineAdapterGuids sn)
    (SN_TUNAliasPresent sn) (SN_TUNAddressPresent sn) (SN_NodeRoutes sn) (SN_OwnedTUN sn) (SN_OwnedRoutes sn) (SN_GuardRoutes sn) (SN_GuardInterfaceIndex sn)
    (SN_BlockedRemoteAddresses sn) (SN_DNSBlockedRemoteAddresses sn) (SN_RouteMetric sn) (SN_OwnershipPhase sn) (SN_PreparedGeneration sn) h.

Definition sealWindowsSnapshot (sn : WindowsNetworkSnapshot) : WindowsNetworkSnapshot + string :=
  let sn := with_snapshot_integrity "" sn in
  match json_Marshal_snapshot sn with
  | inr err => inr ("encode network snapshot integrity payload: " ++s err)
  | inl payload => inl (with_snapshot_integrity (sha256_hex payload) sn)
  end.

Definition validateWindowsSnapshotIntegrity (sn : WindowsNetworkSnapshot) : option string :=
  let want := SN_IntegritySHA256 sn in
  if negb (len want =? 64) then Some "captured network snapshot integrity marker is missing"
  else match sealWindowsSnapshot sn with
  | inr err => Some err
  | inl sealed => if SN_IntegritySHA256 sealed =?s want then None else Some "captured network snapshot integrity check failed"
  end.

(** The function of that name; the method of the manager calls it first. *)
Definition validateWindowsSnapshot (sn : WindowsNetworkSnapshot) : option string :=
  match validateWindowsSnapshotIntegrity sn with
  | Some err => Some err
  | None =>
      if negb (SN_Version sn =? 1) || is_empty (SN_Interfaces sn) then Some "captured network state is incomplete"
      else if negb (SN_RouteMetric sn =? windowsOwnedRouteMetric) then Some "captured route ownership marker is invalid"
      else if is_empty (SN_NodeRoutes sn) then Some "captured node route state is missing"
      else match first_error node_route_error (SN_NodeRoutes sn) with
      | Some err => Some err
      | None => interfaces_error ∅ (SN_Interfaces sn)
      end
  end.

(** The routes that a snapshot with a tunnel owns: the range of the fake addresses and the
    blocked IPv4 prefixes through the tunnel, and a bypass for each node that the default
    route would carry. *)
Definition tun_route (tun : WindowsTUNIdentity) (prefix : string) : WindowsOwnedRoute :=
  mkOwnedRoute "IPv4" prefix (TI_InterfaceIndex tun) "0.0.0.0" windowsOwnedRouteMetric.
Definition node_bypass (r : WindowsNodeRouteSnapshot) : WindowsOwnedRoute :=
  mkOwnedRoute "IPv4" (NodeAddress_ r ++s "/32") (NodeInterfaceIndex r) (NodeNextHop r) (NodeRouteMetric r).

Context (plan : Plan).

Definition expected_owned (tun : WindowsTUNIdentity) (sn : WindowsNetworkSnapshot) : list WindowsOwnedRoute :=
  [tun_route tun windowsFakeIPRoutePrefix] ++
  map (tun_route tun) (filter (fun value => addressFamilyForPrefix value = "IPv4") (blockedPrefixes plan)) ++
  map node_bypass (filter (fun r => BypassRequired r = true) (SN_NodeRoutes sn)).

Definition collides (tun : WindowsTUNIdentity) (i : WindowsInterfaceSnapshot) : bool :=
  strings_EqualFold (strings_TrimSpace (IS_InterfaceGuid i)) (strings_TrimSpace (TI_InterfaceGuid tun)).

Definition tun_owned_error (sn : WindowsNetworkSnapshot) : option string :=
  match SN_OwnedTUN sn with
  | None => Some "TUN-owned snapshot is missing its adapter identity"
  | Some tun =>
      match validateTUNIdentity tun (SN_BaselineAdapterGuids sn) with
      | Some err => Some err
      | None =>
          if existsb (collides tun) (SN_Interfaces sn) then Some "captured physical interface identity collides with the owned TUN"
          else validateExactOwnedRouteSet (SN_OwnedRoutes sn) (expected_owned tun sn) "TUN"
      end
  end.

Definition phase_error (sn : WindowsNetworkSnapshot) : option string :=
  if (SN_OwnershipPhase sn =?s windowsSnapshotPhaseCaptured) || (SN_OwnershipPhase sn =?s windowsSnapshotPhaseProtected) then
    match SN_OwnedTUN sn, SN_OwnedRoutes sn with
    | None, [] => None
    | _, _ => Some "captured snapshot contains unexpected TUN ownership"
    end
  else if SN_OwnershipPhase sn =?s windowsSnapshotPhaseTUNOwned then tun_owned_error sn
  else Some "captured network ownership phase is invalid".

(** The method of the manager. *)
Definition m_validateWindowsSnapshot (sn : WindowsNetworkSnapshot) : option string :=
  match validateWindowsSnapshot sn with
  | Some err => Some err
  | None =>
      match validateCapturedNodeRoutes (SN_NodeRoutes sn) (nodeAddresses plan) with
      | Some err => Some err
      | None =>
          if negb (equalStringSlices (SN_BlockedRemoteAddresses sn) (blockedPrefixes plan)) || negb (equalStringSlices (SN_DNSBlockedRemoteAddresses sn) (dnsBlockedPrefixes plan))
          then Some "captured firewall prefix ownership is invalid"
          else if negb (is_empty (SN_GuardRoutes sn)) || negb (SN_GuardInterfaceIndex sn =? 0) then Some "captured snapshot contains unsupported guard route ownership"
          else phase_error sn
      end
  end.

(** ** Capturing a prepared network *)
Context (generation : Z).

#[local] Abbreviation Fingerprint := (Fingerprint plan).

Definition failed {A} (err : string) : NM (A + list NetError) := refuse (ErrText err).

(** Sealed, checked and saved before it is the current snapshot. *)
Definition adopt (s : WindowsPreparedState) (sn : WindowsNetworkSnapshot) : NM (WindowsNetworkSnapshot + list NetError) :=
  match sealWindowsSnapshot sn with
  | inr err => failed err
  | inl sn =>
      match m_validateWindowsSnapshot sn with
      | Some err => failed err
      | None =>
          saved ← system (snapshot_Save sn);
          match saved with
          | inr err => failed err
          | inl _ => puts (set_current (Some sn)) ;; puts (set_prepared (Some s)) ;; mret (inl sn)
          end
      end
  end.

Definition capturePrepared (c : Ctx) (p : PreparedNetwork) : NM (WindowsNetworkSnapshot + list NetError) :=
  match validatePreparedNetwork p with
  | Some err => failed err
  | None =>
      active ← gets current;
      match active with
      | Some _ => failed "network state is already captured"
      | None =>
          loaded ← system prepared_Load;
          match loaded with
          | inr err => failed err
          | inl None => failed "prepared network state not found"
          | inl (Some s) =>
              match validateWindowsPreparedState s with
              | Some err => failed err
              | None =>
                  if negb (bool_decide (preparedNetworkFromState s = p)) then failed "prepared generation is stale"
                  else
                    fingerprint ← Fingerprint c;
                    match fingerprint with
                    | inr err => failed err
                    | inl fingerprint =>
                        if negb (fingerprint =?s PS_FingerprintSHA256 s) then failed "network fingerprint changed after preparation"
                        else
                          left ← system snapshot_Load;
                          match left with
                          | inr err => failed err
                          | inl (Some _) => failed "unreconciled network snapshot exists"
                          | inl None =>
                              match snapshotFromPrepared plan s with
                              | inr err => failed err
                              | inl sn => adopt s sn
                              end
                          end
                    end
              end
          end
      end
  end.

(** ** Protecting it *)
Definition with_phase (phase : string) (sn : WindowsNetworkSnapshot) : WindowsNetworkSnapshot :=
  mkSnapshot (SN_Version sn) (SN_Interfaces sn) (SN_OwnedFirewallRulesPresent sn) (SN_ConflictingTUNRoutes sn) (SN_BaselineAdapterGuids sn)
    (SN_TUNAliasPresent sn) (SN_TUNAddressPresent sn) (SN_NodeRoutes sn) (SN_OwnedTUN sn) (SN_OwnedRoutes sn) (SN_GuardRoutes sn) (SN_GuardInterfaceIndex sn)
    (SN_BlockedRemoteAddresses sn) (SN_DNSBlockedRemoteAddresses sn) (SN_RouteMetric sn) phase (SN_PreparedGeneration sn) (SN_IntegritySHA256 sn).

(** [sealWindowsSnapshot(m.current)]: the integrity of the current snapshot is cleared also when it fails. *)
Definition seal_current (sn : WindowsNetworkSnapshot) : NM (WindowsNetworkSnapshot + string) :=
  match sealWindowsSnapshot sn with
  | inr err => puts (set_current (Some (with_snapshot_integrity "" sn))) ;; mret (inr err)
  | inl sealed => puts (set_current (Some sealed)) ;; mret (inl sealed)
  end.

Definition legacyEnableProtection (c : Ctx) (p : PreparedNetwork) : NM (list NetError) :=
  active ← gets current;
  known ← gets prepared;
  match active, known with
  | Some sn, Some s =>
      if negb (SN_PreparedGeneration sn =? PN_Generation p) || negb (bool_decide (preparedNetworkFromState s = p))
      then mret [ErrText "active snapshot does not match prepared generation"]
      else
        sealed ← seal_current (with_phase windowsSnapshotPhaseProtected sn);
        match sealed with
        | inr err => mret [ErrText err]
        | inl sn =>
            saved ← system (snapshot_Save sn);
            match saved with
            | inr err => mret [ErrText err]
            | inl _ =>
                failed ← armPreparedFirewall generation plan c s;
                match failed with
                | [] => mret []
                | _ => e ← installPreparedEmergencyProtection generation plan DetachedCtx s; mret (failed ++ e)
                end
            end
        end
  | _, _ => mret [ErrText "active snapshot does not match prepared generation"]
  end.

(** ** Snapshots of earlier versions *)
Definition installEmergencyProtection (c : Ctx) : NM (list NetError) :=
  r ← run generation c networkOperationEmergency
    (mkInput [] false windowsFirewallRuleNames windowsFirewallGroup (blockedPrefixes plan) (dnsBlockedPrefixes plan) [] [] 0 0 [] 0 0 [] [] false "" "" "" [] 0 [] [] None [] [] "");
  mret (error_list r).

Definition armEmergencyProtection : NM (list NetError) := installEmergencyProtection DetachedCtx.

(** A value that is not a snapshot, or no snapshot, is refused; the snapshot comes with the error of its check. *)
Definition asWindowsSnapshot (value : option (option WindowsNetworkSnapshot)) : option WindowsNetworkSnapshot * option string :=
  match value with
  | None => (None, Some "network snapshot has an unexpected type")
  | Some None => (None, Some "network snapshot is nil")
  | Some (Some sn) => (Some sn, validateWindowsSnapshot sn)
  end.

Definition loadSealedPreparedState (accept : WindowsPreparedState -> bool) : NM (option WindowsPreparedState) :=
  loaded ← system prepared_Load;
  mret (match loaded with
        | inl (Some s) => match validateWindowsPreparedState s with None => if accept s then Some s else None | Some _ => None end
        | _ => None
        end).

Definition preparedStateForSnapshot (sn : WindowsNetworkSnapshot) : NM (option WindowsPreparedState) :=
  let matching s := PS_Generation s =? SN_PreparedGeneration sn in
  cached ← gets prepared;
  match cached with
  | Some s => if matching s then mret (Some s) else loadSealedPreparedState matching
  | None => loadSealedPreparedState matching
  end.
End Snapshot.
