(* ===== verification/PreparedPoolSpec.v ===== *)
(** * Correctness of the prepared firewall pool

    Which rules a pool has for the adapters of a network, that it is its own ledger in
    whatever order the system lists it, and that the state which is sealed for it is one
    that a later start accepts. *)
From S2P Require Import Prelude GoText Netip AccessModel NetPrefixes NativeNetwork NetworkManager PreparedPool NetworkManagerSpec NetworkLifecycle.
From S2P Require SingConfigAccept NetworkDemo.
From stdpp Require Import list gmap relations.

#[local] Open Scope string_scope.
#[local] Open Scope Z_scope.
#[local] Open Scope list_scope.

Section PoolSpec.
Context `{!GoSort, !GoSortLaws, !FoldTables, !UnicodeTables, !NetSystem, !PreparedSystem}.

(** ** The adapters of a pool *)
Lemma protect_adapters_spec guids indexes adapters l : protect_adapters guids indexes adapters = inl l ->
  l = map protected_of (List.filter (fun a => negb (not_protected a)) adapters) /\
  Forall (fun a => bad_adapter a = false) adapters /\ NoDup (map pr_guid l) /\ Forall (fun p => pr_guid p ∉ guids) l.
Proof.
  revert guids indexes l. induction adapters as [|a adapters IH]; intros guids indexes l; simpl; [intros [= <-]; by repeat constructor|].
  destruct (bad_adapter a) eqn:Eb; [done|]. destruct (not_protected a); simpl.
  - intros (? & ? & ?)%IH. eauto.
  - destruct (bool_decide (bare_guid a ∈ guids)) eqn:Eg; [done|]. apply bool_decide_eq_false in Eg. case_match; [done|]. simpl.
    destruct (protect_adapters _ _ adapters) as [r|] eqn:E; [|done]. intros [= <-]. apply IH in E as (-> & Hb & Hn & Hf).
    split_and!; [done|by constructor| |].
    + constructor; [|done]. intros (p & Ep & Hp)%list_elem_of_fmap. rewrite Forall_forall in Hf. specialize (Hf p Hp). set_solver.
    + constructor; [done|]. eapply Forall_impl; [exact Hf|]. set_solver.
Qed.

(** What a successful build has found and made. *)
Lemma build_inv adapters blocked dnsBlocked rules : buildPreparedFirewallRules adapters blocked dnsBlocked = inl rules ->
  exists blockedHash dnsHash l,
    hashCanonicalPrefixes blocked = inl blockedHash /\ hashCanonicalPrefixes dnsBlocked = inl dnsHash /\
    protect_adapters ∅ ∅ adapters = inl l /\
    rules ≡ₚ map (adapter_rule blockedHash) l ++ shared_rules (sort_strings (map pr_alias l)) blockedHash dnsHash.
Proof.
  unfold buildPreparedFirewallRules. destruct (hashCanonicalPrefixes blocked) as [bh|] eqn:Eb; [|done].
  destruct (hashCanonicalPrefixes dnsBlocked) as [dh|] eqn:Ed; [|done]. destruct (protect_adapters ∅ ∅ adapters) as [[|p l]|] eqn:E; [done| |done].
  intros [= <-]. exists bh, dh, (p :: l). split_and!; [done..|]. rewrite sort_Slice_perm.
  set (l' := sort_Slice _ (p :: l)). assert (Hp : l' ≡ₚ p :: l) by apply sort_Slice_perm.
  assert (sort_strings (map pr_alias l') = sort_strings (map pr_alias (p :: l))) as ->.
  { apply sort_permutation; [apply _|intros x y; apply String.compare_eq_iff|by apply Permutation_map]. }
  by apply Permutation_app_tail, Permutation_map.
Qed.


(** ** The ledger *)
Definition sound_rule (r : WindowsPreparedRule) : Prop := RuleName r <> "" /\ RuleExpectedEnabled r = false.

Lemma ledger_error_none seen want : ledger_error seen want = None <->
  Forall sound_rule want /\ NoDup (map RuleName want) /\ Forall (fun r => RuleName r ∉ seen) want.
Proof.
  revert seen. induction want as [|r want IH]; intros seen; simpl; [by repeat split; constructor|].
  destruct ((RuleName r =?s "") || bool_decide (RuleName r ∈ seen) || RuleExpectedEnabled r) eqn:E.
  - split; [done|]. intros ([[? ?] _]%Forall_cons & _ & [? _]%Forall_cons). exfalso.
    apply orb_true_iff in E as [[E%String.eqb_eq|E%bool_decide_eq_true]%orb_true_iff|E]; [done|done|congruence].
  - apply orb_false_iff in E as [[E1%String.eqb_neq E2%bool_decide_eq_false]%orb_false_iff E3]. rewrite IH, !Forall_cons, NoDup_cons, list_elem_of_fmap, !Forall_forall.
    split.
    + intros (Hs & Hn & Hf). split_and!; [done|done| |done|done|].
      * intros (x & Ex & Hx). apply (Hf x Hx). rewrite Ex. set_solver.
      * intros x Hx Hi. apply (Hf x Hx). set_solver.
    + intros ((_ & Hs) & (Hx & Hn) & _ & Hf). split_and!; [done..|]. intros x Hi. rewrite elem_of_union, elem_of_singleton.
      intros [Ex|Ex]; [apply Hx; by exists x|by apply (Hf x)].
Qed.

Lemma build_names adapters blocked dnsBlocked rules : buildPreparedFirewallRules adapters blocked dnsBlocked = inl rules ->
  NoDup (map RuleName rules) /\ Forall sound_rule rules.
Proof.
  intros (bh & dh & l & _ & _ & (_ & _ & Hn & _)%protect_adapters_spec & Hr)%build_inv. rewrite Hr. split.
  - rewrite map_app, map_map. apply NoDup_app. split_and!.
    + rewrite <- (map_map pr_guid (fun g => windowsPublicAnyRulePrefix ++s g)). by apply (NoDup_fmap_2 (String.append windowsPublicAnyRulePrefix)).
    + intros x (p & -> & _)%list_elem_of_fmap. simpl. rewrite !elem_of_cons, elem_of_nil. intros [E|[E|[E|[]]]]; discriminate E.
    + repeat constructor; simpl; rewrite ?elem_of_cons, elem_of_nil; intros E; decompose [or] E; done.
  - apply Forall_app. split; [|by repeat constructor]. apply Forall_forall. intros r (p & -> & _)%list_elem_of_fmap. done.
Qed.

Lemma canonical_names rules : map RuleName (canonicalPreparedRules rules) ≡ₚ map RuleName rules.
Proof. unfold canonicalPreparedRules. rewrite (Permutation_map RuleName (sort_Slice_perm _ _)), map_map. done. Qed.

(** A pool that was built is owned when the system lists the same rules, in whatever order
    it lists them and their ports and interfaces, and only then. *)
Theorem built_pool_owns_exactly_its_rules adapters blocked dnsBlocked rules actual :
  buildPreparedFirewallRules adapters blocked dnsBlocked = inl rules ->
  validatePreparedFirewallOwnership rules actual = None <-> map canonical_rule actual ≡ₚ map canonical_rule rules.
Proof.
  intros Hb. pose proof Hb as (Hn & Hs)%build_names. unfold validatePreparedFirewallOwnership, canonicalPreparedRules.
  assert (Hne : rules <> []).
  { apply build_inv in Hb as (bh & dh & l & _ & _ & _ & Hr). intros ->. apply Permutation_nil in Hr. by destruct l. }
  rewrite (bool_decide_eq_false_2 _ Hne). simpl. split.
  - case_match eqn:El; [done|]. case_match; [done|]. case_bool_decide as Ec; [|done]. intros _.
    by rewrite <- (sort_Slice_perm (cmp_on RuleName String.compare) (map canonical_rule actual)), <- Ec, sort_Slice_perm.
  - intros Hp. pose proof (Permutation_length Hp) as Hl. rewrite !length_map in Hl. rewrite Hl, Nat.eqb_refl. simpl.
    rewrite (proj2 (ledger_error_none ∅ _)).
    + rewrite bool_decide_eq_true_2; [done|]. apply sort_Slice_unique; [apply _| |done]. apply distinct_NoDup. by rewrite map_map.
    + split_and!; [| |apply Forall_forall; set_solver].
      * rewrite sort_Slice_perm, Forall_map. done.
      * rewrite (Permutation_map RuleName (sort_Slice_perm _ _)), map_map. done.
Qed.

(** ** Identities and names have no spaces *)
#[local] Abbreviation visible := SingConfigAccept.visible.

Lemma guid_digit_visible a : guid_digit a = true -> visible a = true.
Proof. unfold guid_digit, SingConfigAccept.visible, is_digit. lia. Qed.

Lemma string_all_split p n s : (n <= String.length s)%nat ->
  string_all p s = string_all p (string_take n s) && string_all p (String.substring n (String.length s - n) s).
Proof.
  revert s. induction n as [|n IH]; intros s; simpl.
  - intros _. rewrite Nat.sub_0_r. assert (String.substring 0 (String.length s) s = s) as -> by (induction s as [|a s IH]; simpl; congruence). by destruct s.
  - destruct s as [|a s]; simpl; [lia|]. intros Hn. rewrite IH by lia. unfold string_take. simpl. by rewrite andb_assoc.
Qed.

Lemma guid_groups_visible groups s : guid_groups groups s = true -> last (map snd groups) = Some true -> string_all visible s = true.
Proof.
  revert s. induction groups as [|[n end_] groups IH]; intros s; simpl; [done|].
  intros [[Hn%Nat.leb_le Hd]%andb_true_iff Hg]%andb_true_iff Hl. rewrite (string_all_split visible n s Hn).
  rewrite (string_all_mono guid_digit) by (done || apply guid_digit_visible). simpl.
  destruct (String.substring n _ s) as [|a r]; [done|]. unfold group_end in Hg. destruct end_.
  - destruct (String a r =?s "}") eqn:E; [|done]. by apply String.eqb_eq in E as [= -> ->].
  - destruct (byte_val a =? 45) eqn:E; [|done]. apply Z.eqb_eq in E. destruct groups as [|g groups]; [done|]. cbn [string_all].
    rewrite (IH r Hg Hl), andb_true_r. unfold SingConfigAccept.visible. lia.
Qed.

Lemma firewallAdapterGUID_visible s : firewallAdapterGUID s = true -> string_all visible s = true.
Proof.
  unfold firewallAdapterGUID. destruct s as [|a s]; [done|]. destruct (byte_val a =? 123) eqn:E.
  - apply Z.eqb_eq in E. intros Hs%guid_groups_visible; [|done]. simpl. rewrite Hs, andb_true_r. unfold SingConfigAccept.visible. lia.
  - intros Hs%guid_groups_visible; done.
Qed.

Lemma trim_left_all p s : string_all p s = true -> string_all p (trim_left s) = true.
Proof. induction s as [|a s IH]; [done|]. simpl. intros [Ha Hs]%andb_true_iff. case_match; [auto|]. simpl. by rewrite Ha, Hs. Qed.

Lemma trim_right_all p s : string_all p s = true -> string_all p (trim_right s) = true.
Proof.
  induction s as [|a s IH]; [done|]. simpl. intros [Ha Hs]%andb_true_iff. specialize (IH Hs).
  destruct (trim_right s); [case_match; [done|]; simpl; by rewrite Ha|]. simpl in *. by rewrite Ha.
Qed.

Lemma ToUpper_visible s : string_all visible s = true -> string_all visible (strings_ToUpper s) = true.
Proof.
  unfold strings_ToUpper, strings_Map. induction s as [|a s IH]; [done|]. cbn [string_all]. intros [Ha Hs]%andb_true_iff. specialize (IH Hs).
  assert (H33 : 33 <= byte_val a <= 126) by (unfold SingConfigAccept.visible in Ha; lia).
  cbn [runes]. rewrite (proj2 (Z.ltb_lt (byte_val a) 128)) by lia. cbn [map fst string_concat]. rewrite string_all_app.
  rewrite IH, andb_true_r.
  assert (Hr : 33 <= rune_upper (byte_val a) <= 126) by (unfold rune_upper, ascii_upper; repeat case_match; lia).
  rewrite (proj2 (Z.ltb_ge _ _)) by lia. unfold utf8_encode. rewrite (proj2 (Z.leb_le _ _)), (proj2 (Z.ltb_lt _ _)) by lia.
  simpl. rewrite andb_true_r. unfold SingConfigAccept.visible. rewrite byte_val_of by lia. lia.
Qed.

Lemma bare_guid_visible a : bad_adapter a = false -> string_all visible (bare_guid a) = true.
Proof.
  unfold bad_adapter, bare_guid. intros [_ Hs%negb_false_iff%firewallAdapterGUID_visible]%orb_false_iff.
  rewrite SingConfigAccept.TrimSpace_visible by done. apply ToUpper_visible, trim_right_all, trim_left_all, Hs.
Qed.

(** ** Sorting twice *)
Lemma sort_strings_permuted l l' : l ≡ₚ l' -> sort_strings l = sort_strings l'.
Proof. apply sort_permutation; [apply _|]. intros x y. apply String.compare_eq_iff. Qed.

Lemma sort_strings_same l : sort_strings l ≡ₚ l.
Proof. unfold sort_strings. by rewrite merge_sort_Permutation. Qed.

Lemma sort_strings_twice l : sort_strings (sort_strings l) = sort_strings l.
Proof. apply sort_strings_permuted, sort_strings_same. Qed.

Lemma sort_Slice_twice {A} (c : A -> A -> comparison) `{!LawfulCmp c} l : distinct_keys c l -> sort_Slice c (sort_Slice c l) = sort_Slice c l.
Proof. intros Hd. symmetry. apply sort_Slice_unique; [apply _|done|]. by rewrite sort_Slice_perm. Qed.

(** *** Hashes depend on the set of the prefixes *)
Definition canonical_prefix (value : string) : option string :=
  p ← ParsePrefix (strings_TrimSpace value); if bool_decide (p = Masked p) then Some (Prefix_String p) else None.

Lemma canonical_prefixes_cons value values : canonical_prefixes (value :: values) = (q ← canonical_prefix value; l ← canonical_prefixes values; Some (q :: l)).
Proof. unfold canonical_prefix. simpl. destruct (ParsePrefix _) as [p|]; [|done]. simpl. by case_bool_decide. Qed.

Lemma canonical_prefixes_perm values values' l : values ≡ₚ values' -> canonical_prefixes values = Some l ->
  exists l', canonical_prefixes values' = Some l' /\ l ≡ₚ l'.
Proof.
  intros Hp. revert l. induction Hp as [|v k k' Hp IH|v w k|k k' k'' _ IH1 _ IH2]; intros l; rewrite ?canonical_prefixes_cons; [eauto| | |].
  - destruct (canonical_prefix v) as [q|]; [|done]. simpl. destruct (canonical_prefixes k) as [r|]; [|done]. intros [= <-].
    destruct (IH r eq_refl) as (r' & -> & Hr). eexists. split; [done|by constructor].
  - destruct (canonical_prefix v), (canonical_prefix w), (canonical_prefixes k); try done. intros [= <-]. eexists. split; [done|constructor].
  - intros (l' & Hl' & P1)%IH1. destruct (IH2 l' Hl') as (l'' & ? & ?). exists l''. split; [done|by etrans].
Qed.

Lemma hash_perm values values' h : values ≡ₚ values' -> hashCanonicalPrefixes values = inl h -> hashCanonicalPrefixes values' = inl h.
Proof.
  unfold hashCanonicalPrefixes. intros Hp. destruct values as [|v values]; [done|]. destruct values' as [|v' values']; [by apply Permutation_nil_r in Hp|].
  destruct (canonical_prefixes (v :: values)) as [l|] eqn:E; [|done]. destruct (canonical_prefixes_perm _ _ _ Hp E) as (l' & -> & Hl).
  rewrite (sort_strings_permuted (remove_dups l') (remove_dups l)); [done|].
  apply NoDup_Permutation; [apply NoDup_remove_dups..|]. intros x. by rewrite !elem_of_remove_dups, Hl.
Qed.

Lemma hash_lowercase values h : (forall x, lowercase_sha256 (sha256_hex x) = true) -> hashCanonicalPrefixes values = inl h -> lowercase_sha256 h = true.
Proof. unfold hashCanonicalPrefixes. intros Hx. repeat case_match; try done. by intros [= <-]. Qed.

(** *** The state in its canonical form *)
Definition orderly (b : WindowsNetworkBaseline) : Prop :=
  distinct_keys (cmp_on NA_InterfaceGuid String.compare) (Adapters b) /\ distinct_keys interface_cmp (Interfaces b) /\
  distinct_keys route_key_cmp (Routes b) /\ distinct_keys node_route_cmp (NodeRoutes b).

Lemma distinct_keys_map {A} (c : A -> A -> comparison) (f : A -> A) l : (forall x y, c (f x) (f y) = c x y) ->
  distinct_keys c l -> distinct_keys c (map f l).
Proof. intros Hc Hd x y (x' & -> & Hx)%list_elem_of_fmap (y' & -> & Hy)%list_elem_of_fmap. rewrite Hc. intros E. f_equal. by apply Hd. Qed.

Lemma sort_map_twice {A} (c : A -> A -> comparison) `{!LawfulCmp c} (f : A -> A) l :
  (forall x y, c (f x) (f y) = c x y) -> (forall x, f (f x) = f x) -> distinct_keys c l ->
  sort_Slice c (map f (sort_Slice c (map f l))) = sort_Slice c (map f l).
Proof.
  intros Hc Hf Hd. symmetry. apply sort_Slice_unique; [apply _|by apply distinct_keys_map|].
  rewrite (Permutation_map f (sort_Slice_perm c (map f l))), map_map. by erewrite (map_ext (fun x => f (f x)) f).
Qed.

Lemma canonical_rule_twice r : canonical_rule (canonical_rule r) = canonical_rule r.
Proof. unfold canonical_rule. simpl. by rewrite !sort_strings_twice. Qed.

Lemma canonicalPreparedRules_twice rules : NoDup (map RuleName rules) -> canonicalPreparedRules (canonicalPreparedRules rules) = canonicalPreparedRules rules.
Proof.
  intros Hn. apply sort_map_twice; [apply _|done|apply canonical_rule_twice|by apply distinct_NoDup].
Qed.

Lemma canonical_state_twice s h : orderly (PS_Baseline s) -> NoDup (map RuleName (PS_Rules s)) ->
  canonicalizeWindowsPreparedState (with_integrity h (canonicalizeWindowsPreparedState s)) = with_integrity h (canonicalizeWindowsPreparedState s).
Proof.
  intros (Ha & Hi & Hr & Hn) Hrules. unfold canonicalizeWindowsPreparedState at 1. simpl. rewrite !sort_strings_twice, canonicalPreparedRules_twice by done.
  rewrite (sort_map_twice (cmp_on NA_InterfaceGuid String.compare)), !sort_Slice_twice; try done; try apply _.
  intros x. unfold sort_servers. simpl. by rewrite sort_strings_twice.
Qed.

(** *** A sealed pool *)
Definition rule_accepted (blockedHash dnsHash : string) (r : WindowsPreparedRule) : Prop :=
  RuleName r <> "" /\ string_all visible (RuleName r) = true /\ blank (RuleProtocol r) = false /\ lowercase_sha256 (RuleRemoteAddressesSHA r) = true /\
  RuleRemoteAddressesSHA r = (if RuleEmergency r || (RuleProtocol r =?s "Any") then blockedHash else dnsHash).

Lemma rules_error_none blockedHash dnsHash seen rules : Forall (rule_accepted blockedHash dnsHash) rules ->
  NoDup (map RuleName rules) -> Forall (fun r => RuleName r ∉ seen) rules -> rules_error blockedHash dnsHash seen rules = None.
Proof.
  revert seen. induction rules as [|r rules IH]; intros seen; [done|]. cbn [rules_error map]. rewrite NoDup_cons.
  intros [(Hne & Hv & Hp & Hl & Hh) Ha]%Forall_cons [Hr Hn] [Hs Hf]%Forall_cons.
  rewrite SingConfigAccept.TrimSpace_visible by done. rewrite (proj2 (String.eqb_neq _ _) Hne), (bool_decide_eq_false_2 _ Hs), Hp, Hl. simpl.
  rewrite <- Hh, String.eqb_refl. simpl. apply IH; [done..|]. apply Forall_forall. intros x Hx. rewrite Forall_forall in Hf. specialize (Hf x Hx).
  rewrite elem_of_union, elem_of_singleton. intros [E|E]; [|done]. apply Hr. rewrite <- E. by apply list_elem_of_fmap_2.
Qed.

Lemma build_accepted adapters blocked dnsBlocked rules : (forall x, lowercase_sha256 (sha256_hex x) = true) ->
  buildPreparedFirewallRules adapters blocked dnsBlocked = inl rules ->
  exists bh dh, hashCanonicalPrefixes blocked = inl bh /\ hashCanonicalPrefixes dnsBlocked = inl dh /\ Forall (rule_accepted bh dh) rules.
Proof.
  intros Hx (bh & dh & l & Hb & Hd & (-> & Hok & _)%protect_adapters_spec & Hr)%build_inv. exists bh, dh. split_and!; [done..|].
  pose proof (hash_lowercase _ _ Hx Hb) as Lb. pose proof (hash_lowercase _ _ Hx Hd) as Ld.
  rewrite Hr. apply Forall_app. split; [|by repeat (constructor || split)].
  apply Forall_forall. intros r (p & -> & (a & -> & Ha)%list_elem_of_fmap)%list_elem_of_fmap. split_and!; try done.
  simpl. rewrite bare_guid_visible; [done|]. apply list_elem_of_In, filter_In in Ha as [Ha%list_elem_of_In _]. by rewrite Forall_forall in Hok; apply Hok.
Qed.

Lemma rule_accepted_canonical bh dh r : rule_accepted bh dh r -> rule_accepted bh dh (canonical_rule r).
Proof. done. Qed.

Lemma canonical_rules_accepted bh dh rules : Forall (rule_accepted bh dh) rules -> NoDup (map RuleName rules) ->
  rules_error bh dh ∅ (canonicalPreparedRules rules) = None.
Proof.
  intros Hf Hn. apply rules_error_none; [|by rewrite canonical_names|apply Forall_forall; set_solver].
  unfold canonicalPreparedRules. rewrite sort_Slice_perm, Forall_map. eapply Forall_impl; [exact Hf|]. apply rule_accepted_canonical.
Qed.

Lemma is_empty_perm {A} (l l' : list A) : l ≡ₚ l' -> is_empty l = is_empty l'.
Proof. intros Hp%Permutation_length. by destruct l, l'. Qed.

Lemma is_empty_strings l : is_empty (sort_strings l) = is_empty l.
Proof. apply is_empty_perm, sort_strings_same. Qed.

Lemma build_not_empty adapters blocked dnsBlocked rules : buildPreparedFirewallRules adapters blocked dnsBlocked = inl rules ->
  is_empty adapters = false /\ is_empty rules = false /\ is_empty blocked = false /\ is_empty dnsBlocked = false.
Proof.
  intros Hb. split_and!.
  - unfold buildPreparedFirewallRules in Hb. destruct adapters; [|done]. simpl in Hb. repeat case_match; done.
  - apply build_inv in Hb as (bh & dh & l & _ & _ & _ & Hr). rewrite (is_empty_perm _ _ Hr). by destruct l.
  - apply build_inv in Hb as (bh & dh & l & Hb & _). by destruct blocked.
  - apply build_inv in Hb as (bh & dh & l & _ & Hd & _). by destruct dnsBlocked.
Qed.

Context (plan : Plan).

(** The state that a preparation seals is accepted when it is loaded again, and its rules
    are those of the same network: the next preparation takes it as it is. *)
Theorem sealed_pool_is_accepted existing b policyHash fingerprint rules s :
  buildPreparedFirewallRules (Adapters b) (blockedPrefixes plan) (dnsBlockedPrefixes plan) = inl rules ->
  next_generation existing <> 0 -> orderly b ->
  lowercase_sha256 policyHash = true -> lowercase_sha256 fingerprint = true -> (forall x, lowercase_sha256 (sha256_hex x) = true) ->
  sealWindowsPreparedState (new_state plan existing b policyHash fingerprint rules) = inl s ->
  validateWindowsPreparedState s = None /\ validatePreparedFirewallOwnership rules (PS_Rules s) = None /\
  reusable s policyHash fingerprint = true /\ PS_Generation s = next_generation existing.
Proof.
  intros Hb Hg Ho Hp Hf Hx. pose proof (build_names _ _ _ _ Hb) as (Hn & _). pose proof (build_accepted _ _ _ _ Hx Hb) as (bh & dh & Eb & Ed & Hok).
  unfold sealWindowsPreparedState at 1. set (n := new_state _ _ _ _ _ _). set (c := canonicalizeWindowsPreparedState n).
  destruct (json_Marshal_prepared (with_integrity "" c)) as [payload|] eqn:Ej; [|done]. intros [= <-].
  split_and!; [| |unfold reusable; simpl; by rewrite !String.eqb_refl|done].
  - unfold validateWindowsPreparedState, sealWindowsPreparedState. simpl PS_IntegritySHA256. rewrite Hx.
    change (with_integrity (sha256_hex payload) (with_integrity "" c)) with (with_integrity (sha256_hex payload) c).
    unfold c at 1. rewrite canonical_state_twice by done. fold c.
    change (with_integrity "" (with_integrity (sha256_hex payload) c)) with (with_integrity "" c).
    rewrite Ej. simpl. rewrite String.eqb_refl, (proj2 (Z.eqb_neq _ _) Hg), Hp, Hf. simpl.
    pose proof (build_not_empty _ _ _ _ Hb) as (N1 & N2 & N3 & N4).
    rewrite !is_empty_strings, N3, N4, (is_empty_perm _ (map sort_servers (Adapters b))), (is_empty_perm _ (map canonical_rule rules)) by apply sort_Slice_perm.
    assert (is_empty (map sort_servers (Adapters b)) || is_empty (map canonical_rule rules) = false) as -> by (clear -N1 N2; by destruct (Adapters b), rules).
    rewrite (hash_perm (blockedPrefixes plan) (sort_strings (blockedPrefixes plan)) bh), (hash_perm (dnsBlockedPrefixes plan) (sort_strings (dnsBlockedPrefixes plan)) dh);
      [by apply canonical_rules_accepted| |done| |done]; by rewrite sort_strings_same.
  - apply (built_pool_owns_exactly_its_rules _ _ _ _ _ Hb). simpl. unfold canonicalPreparedRules.
    rewrite (Permutation_map canonical_rule (sort_Slice_perm _ _)), map_map. by erewrite (map_ext (fun x => canonical_rule (canonical_rule x)) canonical_rule) by apply canonical_rule_twice.
Qed.
End PoolSpec.

(** ** What the managed path leaves behind

    The snapshots that are accepted own exactly the routes of the plan; and whatever the
    operations of the managed path do and whatever fails in them, the state of the pool and
    the snapshot, in memory and on disk, are ones that every later check accepts. *)


(** ** Sets of routes *)
Lemma owned_tuples_none label seen want actual : owned_tuples label seen want actual = None <->
  NoDup actual /\ Forall (.∈ want) actual /\ Forall (.∉ seen) actual.
Proof.
  revert seen. induction actual as [|r actual IH]; intros seen; cbn [owned_tuples]; [by repeat split; constructor|].
  rewrite NoDup_cons, !Forall_cons. case_bool_decide as Hs; [naive_solver|]. case_bool_decide as Hw; simpl; [|naive_solver].
  rewrite IH, !Forall_forall. split.
  - intros (Hn & Hf & Hc). split_and!; [|done..|intros x Hx Hi; apply (Hc x Hx); set_solver]. intros Hr. apply (Hc r Hr). set_solver.
  - intros ((Hr & Hn) & (_ & Hf) & _ & Hc). split_and!; [done..|]. intros x Hx. rewrite not_elem_of_cons. split; [by intros ->|by apply Hc].
Qed.

(** As many tuples as expected, none twice and all expected: the expected ones. *)
Lemma exact_route_set actual expected label : validateExactOwnedRouteSet actual expected label = None -> actual ≡ₚ expected /\ NoDup actual.
Proof.
  unfold validateExactOwnedRouteSet. case_match eqn:E; [done|]. apply negb_false_iff, Nat.eqb_eq in E.
  intros (Hn & Hf & _)%owned_tuples_none. split; [|done]. apply NoDup_ListNoDup in Hn.
  apply NoDup_Permutation_bis; [done|lia|]. intros x. rewrite <- !list_elem_of_In. rewrite Forall_forall in Hf. apply Hf.
Qed.

Lemma duplicate_node_false seen routes : duplicate_node seen routes = false -> NoDup (map NodeAddress_ routes).
Proof.
  enough (duplicate_node seen routes = false -> NoDup (map NodeAddress_ routes) /\ Forall (fun r => NodeAddress_ r ∉ seen) routes) by naive_solver.
  revert seen. induction routes as [|r routes IH]; intros seen; simpl; [by repeat constructor|]. intros [Hs%bool_decide_eq_false (Hn & Hf)%IH]%orb_false_iff.
  rewrite Forall_forall in Hf. rewrite NoDup_cons, Forall_cons, Forall_forall. split_and!; [|done..|].
  - intros (x & Ex & Hx)%list_elem_of_fmap. apply (Hf x Hx). rewrite <- Ex. set_solver.
  - intros x Hx Hi. apply (Hf x Hx). set_solver.
Qed.

Lemma captured_nodes routes expected : NoDup expected -> validateCapturedNodeRoutes routes expected = None -> map NodeAddress_ routes ≡ₚ expected.
Proof.
  unfold validateCapturedNodeRoutes. intros Hn%NoDup_ListNoDup. case_match eqn:El; [done|]. apply negb_false_iff, Nat.eqb_eq in El.
  case_match; [done|]. case_match eqn:Ef; [|done]. intros _. symmetry. apply NoDup_Permutation_bis; [done|rewrite length_map; lia|].
  intros x. rewrite <- !list_elem_of_In. rewrite forallb_forall in Ef. intros Hx%list_elem_of_In%Ef. by apply bool_decide_eq_true in Hx.
Qed.

Section Accepted.
Context `{!GoSort, !FoldTables, !UnicodeTables, !NetSystem, !PreparedSystem}.
Context (plan : Plan).

(** What is checked of a snapshot beside its seal. *)
Lemma accepted_inv sn : m_validateWindowsSnapshot plan sn = None ->
  validateWindowsSnapshotIntegrity sn = None /\ SN_RouteMetric sn = windowsOwnedRouteMetric /\
  validateCapturedNodeRoutes (SN_NodeRoutes sn) (nodeAddresses plan) = None /\ SN_GuardRoutes sn = [] /\
  SN_BlockedRemoteAddresses sn = blockedPrefixes plan /\ SN_DNSBlockedRemoteAddresses sn = dnsBlockedPrefixes plan /\ phase_error plan sn = None.
Proof.
  unfold m_validateWindowsSnapshot, validateWindowsSnapshot, equalStringSlices. destruct (validateWindowsSnapshotIntegrity sn); [done|].
  destruct (_ || _); [done|]. destruct (SN_RouteMetric sn =? windowsOwnedRouteMetric) eqn:Em; [|done]. apply Z.eqb_eq in Em. simpl.
  destruct (is_empty (SN_NodeRoutes sn)); [done|]. destruct (first_error _ _); [done|]. destruct (interfaces_error ∅ _); [done|]. destruct (validateCapturedNodeRoutes _ _); [done|].
  case_bool_decide; [|done]. case_bool_decide; [|done]. simpl. destruct (SN_GuardRoutes sn); [|done]. simpl. case_match; [done|]. done.
Qed.


(** ** The seal *)
Lemma seal_accepted sn sn' : (forall x, len (sha256_hex x) = 64) -> sealWindowsSnapshot sn = inl sn' -> validateWindowsSnapshotIntegrity sn' = None.
Proof.
  intros Hx. unfold validateWindowsSnapshotIntegrity, sealWindowsSnapshot. destruct (json_Marshal_snapshot _) as [payload|] eqn:Ej; [|done].
  intros [= <-]. simpl SN_IntegritySHA256. rewrite Hx. simpl.
  change (with_snapshot_integrity "" (with_snapshot_integrity (sha256_hex payload) (with_snapshot_integrity "" sn))) with (with_snapshot_integrity "" sn).
  rewrite Ej. simpl. by rewrite String.eqb_refl.
Qed.

(** A snapshot without a tunnel stays accepted when the phase is changed to protected and it is sealed again. *)
Definition untunnelled (sn : WindowsNetworkSnapshot) : Prop := SN_OwnedTUN sn = None.

Lemma protected_accepted sn sn' : (forall x, len (sha256_hex x) = 64) -> untunnelled sn -> m_validateWindowsSnapshot plan sn = None ->
  sealWindowsSnapshot (with_phase windowsSnapshotPhaseProtected sn) = inl sn' -> m_validateWindowsSnapshot plan sn' = None /\ untunnelled sn'.
Proof.
  intros Hx Ht Ha Hs. pose proof (seal_accepted _ _ Hx Hs) as Hi. unfold sealWindowsSnapshot in Hs.
  destruct (json_Marshal_snapshot _) as [payload|]; [|done]. injection Hs as <-. split; [|exact Ht].
  unfold m_validateWindowsSnapshot, validateWindowsSnapshot in *. rewrite Hi. destruct (validateWindowsSnapshotIntegrity sn); [done|]. simpl in *.
  repeat (case_match; try done). unfold phase_error in Ha |- *. simpl. rewrite Ht in Ha |- *. unfold tun_owned_error in Ha. rewrite Ht in Ha.
  repeat (case_match; try done).
Qed.
End Accepted.

(** ** The files *)

(** The pool and the snapshot that are on disk. Only the two calls that save change them,
    each by renaming a complete file. *)
Class ManagedDisk `{PreparedSystem} := {
  pool_file : NWorld -> option WindowsPreparedState;
  snapshot_file : NWorld -> option WindowsNetworkSnapshot;
  files (w : NWorld) := (pool_file w, snapshot_file w);
  ctx_Err_quiet c w : files (net_ctx_Err c w).2 = files w;
  Now_quiet w : files (net_Now w).2 = files w;
  Adapters_quiet w : files (api_Adapters w).2 = files w;
  Interfaces_quiet known w : files (api_IPv4Interfaces known w).2 = files w;
  Routes_quiet w : files (api_IPv4Routes w).2 = files w;
  setInterfaceDNS_quiet guid servers w : files (api_setInterfaceDNS guid servers w).2 = files w;
  Run_quiet operation payload w : files (runner_Run operation payload w).2 = files w;
  prepared_Load_quiet w : files (prepared_Load w).2 = files w;
  snapshot_Load_quiet w : files (snapshot_Load w).2 = files w;
  prepared_Save_renames s w : let '(r, w') := prepared_Save s w in
    snapshot_file w' = snapshot_file w /\ pool_file w' = match r with inl _ => Some s | inr _ => pool_file w end;
  snapshot_Save_renames sn w : let '(r, w') := snapshot_Save sn w in
    pool_file w' = pool_file w /\ snapshot_file w' = match r with inl _ => Some sn | inr _ => snapshot_file w end
}.

(** The digest is 64 lowercase hexadecimal digits, marshalling a snapshot does not fail, and
    the system lists no two adapters, and no two routes, with the same key. *)
Class ManagedLaws `{!GoSort, !FoldTables, !UnicodeTables, !NetSystem, !PreparedSystem} (plan : Plan) : Prop := {
  digest_lowercase x : lowercase_sha256 (sha256_hex x) = true;
  snapshots_marshal sn : is_Some (match json_Marshal_snapshot sn with inl payload => Some payload | inr _ => None end);
  baselines_orderly c s b s' : Baseline plan c s = (inl b, s') -> orderly b
}.

Section Managed.
Context `{!GoSort, !GoSortLaws, !FoldTables, !UnicodeTables, !NetSystem, !PreparedSystem, !ManagedDisk} (plan : Plan) `{!ManagedLaws plan}.
Context (generation : Z) (policy : Policy).

(** ** Calls that save nothing *)
Definition held (s : MS) : option WindowsPreparedState * option WindowsNetworkSnapshot * (option WindowsPreparedState * option WindowsNetworkSnapshot) :=
  (prepared s, current s, files (nworld s)).

Lemma held_system {A} (f : NWorld -> A * NWorld) : (forall w, files (f w).2 = files w) -> keeps held (system f).
Proof. intros Hf s. unfold held, system. specialize (Hf (nworld s)). destruct (f (nworld s)). simpl in *. by rewrite Hf. Qed.

#[local] Hint Extern 1 (keeps held (system _)) => apply held_system; intros ?;
  first [apply Now_quiet|apply Adapters_quiet|apply Interfaces_quiet|apply Routes_quiet|apply setInterfaceDNS_quiet|apply Run_quiet|apply prepared_Load_quiet|apply snapshot_Load_quiet] : keeps_db.
Lemma held_ctx_Err c : keeps held (ctx_Err c).
Proof. apply held_system. intros w. apply ctx_Err_quiet. Qed.
#[local] Hint Resolve held_ctx_Err : keeps_db.

Lemma held_emit e : keeps held (emitNetworkTrace e).
Proof. unfold emitNetworkTrace. keeps_read. Qed.
#[local] Hint Resolve held_emit : keeps_db.

Lemma held_terminal stage at_ event message detail level : keeps held (emitNetworkTerminal generation stage at_ event message detail level).
Proof. unfold emitNetworkTerminal. keeps_read. Qed.

Lemma held_staged c op err : keeps held (staged_error c op err).
Proof. unfold staged_error. keeps_read. Qed.
#[local] Hint Resolve held_terminal held_staged : keeps_db.

Lemma held_run c op input : keeps held (run generation c op input).
Proof. unfold run. keeps_read. Qed.
#[local] Hint Resolve held_run : keeps_db.

Lemma held_Baseline c : keeps held (Baseline plan c).
Proof. unfold Baseline. keeps_read. Qed.
#[local] Hint Resolve held_Baseline : keeps_db.

Lemma held_Fingerprint c : keeps held (Fingerprint plan c).
Proof. unfold Fingerprint. keeps_read. Qed.

Lemma held_emergency c s : keeps held (installPreparedEmergencyProtection generation plan c s).
Proof. unfold installPreparedEmergencyProtection. keeps_read. Qed.

Lemma held_audit c s connected : keeps held (auditPreparedFirewall generation plan c s connected).
Proof. unfold auditPreparedFirewall. keeps_read. Qed.
#[local] Hint Resolve held_Fingerprint held_emergency held_audit : keeps_db.

Lemma held_pool c s previous : keeps held (prepareFirewallPool generation plan c s previous).
Proof. unfold prepareFirewallPool. keeps_read. Qed.

Lemma held_arm c s : keeps held (armPreparedFirewall generation plan c s).
Proof. unfold armPreparedFirewall. keeps_read. Qed.

Lemma held_disable c s : keeps held (disablePreparedFirewall generation plan c s).
Proof. unfold disablePreparedFirewall. keeps_read. Qed.
#[local] Hint Resolve held_pool held_arm held_disable : keeps_db.

(** ** The operations *)
Definition accepted (sn : WindowsNetworkSnapshot) : Prop := m_validateWindowsSnapshot plan sn = None /\ untunnelled sn.
Definition valid (s : WindowsPreparedState) : Prop := validateWindowsPreparedState s = None.
Definition holds {A} (P : A -> Prop) (o : option A) : Prop := match o with Some x => P x | None => True end.

Definition acceptable (v : option WindowsPreparedState * option WindowsNetworkSnapshot * (option WindowsPreparedState * option WindowsNetworkSnapshot)) : Prop :=
  holds valid v.1.1 /\ holds accepted v.1.2 /\ holds valid v.2.1 /\ holds accepted v.2.2.
Definition managed_ok (s : MS) : Prop := acceptable (held s).

Lemma stable_quiet {A} (m : NM A) : keeps held m -> stable managed_ok m.
Proof. intros Hk s Hs. specialize (Hk s). destruct (m s) as [x s']. cbn [snd] in Hk. change (managed_ok s'). unfold managed_ok. by rewrite Hk. Qed.

Lemma held_bind {A B} (m : NM A) (f : A -> NM B) : keeps held m -> (forall x, stable managed_ok (f x)) -> stable managed_ok (m ≫= f).
Proof. intros Hm Hf. apply stable_bind; [by apply stable_quiet|done]. Qed.

Lemma stable_prepared_Save s : valid s -> stable managed_ok (system (prepared_Save s)).
Proof.
  intros Hv st (? & ? & ? & ?). unfold system. pose proof (prepared_Save_renames s (nworld st)) as Hr.
  destruct (prepared_Save s (nworld st)) as [r w']. destruct Hr as [Es Ep]. split_and!; simpl in *; [done..| |by rewrite Es].
  rewrite Ep. by destruct r.
Qed.

Lemma stable_snapshot_Save sn : accepted sn -> stable managed_ok (system (snapshot_Save sn)).
Proof.
  intros Hv st (? & ? & ? & ?). unfold system. pose proof (snapshot_Save_renames sn (nworld st)) as Hr.
  destruct (snapshot_Save sn (nworld st)) as [r w']. destruct Hr as [Ep Es]. split_and!; simpl in *; [done..|by rewrite Ep|].
  rewrite Es. by destruct r.
Qed.

Lemma stable_set_prepared s : valid s -> stable managed_ok (puts (set_prepared (Some s))).
Proof. intros Hv. apply stable_puts. by intros st (? & ? & ? & ?). Qed.

Lemma stable_set_current o : holds accepted o -> stable managed_ok (puts (set_current o)).
Proof. intros Hv. apply stable_puts. by intros st (? & ? & ? & ?). Qed.

#[local] Hint Resolve stable_prepared_Save stable_snapshot_Save stable_set_prepared stable_set_current : stable_db.
#[local] Hint Extern 5 (stable managed_ok _) => apply stable_quiet; solve [keeps_read] : stable_db.

(** *** Preparing *)
Lemma stable_remember s : valid s -> stable managed_ok (remember s).
Proof. intros Hv. unfold remember. stable_go. Qed.
#[local] Hint Resolve stable_remember : stable_db.

Lemma stable_publish c s existing : valid s -> stable managed_ok (publish_pool generation plan c s existing).
Proof. intros Hv. unfold publish_pool, refuse. stable_go. Qed.
#[local] Hint Resolve stable_publish : stable_db.

Lemma fingerprint_lowercase b fingerprint : fingerprintNativeNetwork b = inl fingerprint -> lowercase_sha256 fingerprint = true.
Proof. unfold fingerprintNativeNetwork. case_match; [|done]. intros [= <-]. apply digest_lowercase. Qed.

Lemma policy_lowercase p h : windowsPolicySHA256 p = inl h -> lowercase_sha256 h = true.
Proof. unfold windowsPolicySHA256. case_match; [|done]. intros [= <-]. apply digest_lowercase. Qed.

Lemma stable_renew c existing b policyHash fingerprint rules : orderly b ->
  fingerprintNativeNetwork b = inl fingerprint -> windowsPolicySHA256 policy = inl policyHash ->
  buildPreparedFirewallRules (Adapters b) (blockedPrefixes plan) (dnsBlockedPrefixes plan) = inl rules ->
  stable managed_ok (renew generation plan c existing b policyHash fingerprint rules).
Proof.
  intros Ho Hf%fingerprint_lowercase Hp%policy_lowercase Hb. unfold renew, refuse. destruct (next_generation existing =? 0) eqn:Eg; [apply stable_ret|].
  apply Z.eqb_neq in Eg. destruct (sealWindowsPreparedState _) as [s|] eqn:Es; [|apply stable_ret]. apply stable_publish.
  by eapply (sealed_pool_is_accepted plan existing b policyHash fingerprint rules s Hb Eg Ho Hp Hf digest_lowercase Es).
Qed.

Lemma triple_Baseline c : triple managed_ok (Baseline plan c) (fun r s => match r with inl b => orderly b | inr _ => True end /\ managed_ok s).
Proof.
  intros s Hs. pose proof (stable_quiet _ (held_Baseline c) s Hs) as Hk. pose proof (baselines_orderly c s) as Ho.
  destruct (Baseline plan c s) as [r s'] eqn:E. split; [|exact Hk]. destruct r as [b|]; [|done]. by apply (Ho b s').
Qed.

Lemma stable_prepare_from c b policyHash fingerprint rules : orderly b ->
  fingerprintNativeNetwork b = inl fingerprint -> windowsPolicySHA256 policy = inl policyHash ->
  buildPreparedFirewallRules (Adapters b) (blockedPrefixes plan) (dnsBlockedPrefixes plan) = inl rules ->
  stable managed_ok (prepare_from generation plan c b policyHash fingerprint rules).
Proof.
  intros Ho Hf Hp Hb. unfold prepare_from, refuse. apply held_bind; [keeps_read|]. intros [existing|]; [|apply stable_ret].
  destruct existing as [e|]; simpl validate_existing; [|by apply stable_renew].
  destruct (validateWindowsPreparedState e) eqn:Ev; [apply stable_ret|].
  destruct (reusable _ _ _); [|by apply stable_renew]. destruct (validatePreparedFirewallOwnership _ _); [apply stable_ret|by apply stable_remember].
Qed.

Lemma stable_prepareNetwork c : stable managed_ok (prepareNetwork generation plan policy c).
Proof.
  unfold prepareNetwork, refuse. apply stable_bind; [apply stable_gets|]. intros [sn|]; [apply stable_ret|].
  eapply triple_bind; [apply triple_Baseline|]. intros [b|err] s [Ho Hs]; [|exact Hs].
  destruct (refuse_adapters _); [exact Hs|]. destruct (fingerprintNativeNetwork b) eqn:Ef; [|exact Hs].
  destruct (windowsPolicySHA256 policy) eqn:Ep; [|exact Hs]. destruct (buildPreparedFirewallRules _ _ _) eqn:Eb; [|exact Hs].
  by apply stable_prepare_from.
Qed.
#[local] Hint Resolve stable_prepareNetwork : stable_db.

(** *** Capturing *)
Lemma digest_length x : len (sha256_hex x) = 64.
Proof. pose proof (digest_lowercase x) as Hx. unfold lowercase_sha256 in Hx. lia. Qed.

Lemma seal_same sn sn' : sealWindowsSnapshot sn = inl sn' -> SN_OwnedTUN sn' = SN_OwnedTUN sn.
Proof. unfold sealWindowsSnapshot. case_match; [|done]. by intros [= <-]. Qed.

Lemma stable_adopt s sn : valid s -> untunnelled sn -> stable managed_ok (adopt plan s sn).
Proof.
  intros Hv Ht. unfold adopt, failed, refuse. destruct (sealWindowsSnapshot sn) as [sn'|] eqn:Es; [|apply stable_ret]. apply seal_same in Es.
  destruct (m_validateWindowsSnapshot plan sn') eqn:Ea; [apply stable_ret|].
  assert (accepted sn') by (split; [done|by unfold untunnelled; rewrite Es]). stable_go.
Qed.

Lemma stable_capture c p : stable managed_ok (capturePrepared plan c p).
Proof.
  unfold capturePrepared, failed, refuse. destruct (validatePreparedNetwork p); [apply stable_ret|].
  apply stable_bind; [apply stable_gets|]. intros [sn|]; [apply stable_ret|]. apply held_bind; [keeps_read|]. intros [[s|]|err]; try apply stable_ret.
  destruct (validateWindowsPreparedState s) eqn:Ev; [apply stable_ret|]. case_bool_decide; [|apply stable_ret]. simpl negb. cbv iota.
  apply held_bind; [keeps_read|]. intros [f|]; [|apply stable_ret]. destruct (negb _); [apply stable_ret|].
  apply held_bind; [keeps_read|]. intros [[sn|]|err]; try apply stable_ret.
  destruct (snapshotFromPrepared plan s) as [sn|] eqn:Es; [|apply stable_ret]. apply stable_adopt; [done|].
  unfold snapshotFromPrepared in Es. by destruct (interface_snapshots _ _); [injection Es as <-|].
Qed.

(** *** Protecting and restoring *)
Lemma stable_seal_current sn : accepted sn ->
  triple managed_ok (seal_current (with_phase windowsSnapshotPhaseProtected sn)) (fun r s => match r with inl sn' => accepted sn' | inr _ => False end /\ managed_ok s).
Proof.
  intros [Ha Ht]. unfold seal_current. destruct (sealWindowsSnapshot _) as [sn'|] eqn:Es.
  - pose proof (protected_accepted plan _ _ digest_length Ht Ha Es) as Hp. intros s Hs. split; [exact Hp|].
    exact (stable_set_current (Some sn') Hp s Hs).
  - exfalso. unfold sealWindowsSnapshot in Es.
    destruct (snapshots_marshal (with_snapshot_integrity "" (with_phase windowsSnapshotPhaseProtected sn))) as [payload Hj].
    by destruct (json_Marshal_snapshot _).
Qed.

Lemma triple_current : triple managed_ok (gets current) (fun active s => holds accepted active /\ managed_ok s).
Proof. intros s Hs. split; [apply Hs|exact Hs]. Qed.

Lemma stable_protect c p : stable managed_ok (legacyEnableProtection plan generation c p).
Proof.
  unfold legacyEnableProtection. eapply triple_bind; [apply triple_current|]. intros active s [Ha Hs]. revert s Hs.
  apply stable_bind; [apply stable_gets|]. intros known. destruct active as [sn|]; [|apply stable_ret]. destruct known as [st|]; [|apply stable_ret].
  destruct (_ || _); [apply stable_ret|]. eapply triple_bind; [by apply stable_seal_current|]. intros [sn'|err] s [Hsn Hs]; [|done]. revert s Hs.
  apply stable_bind; [by apply stable_snapshot_Save|]. intros [[]|err]; [|apply stable_ret].
  apply held_bind; [keeps_read|]. intros [|e l]; [apply stable_ret|]. apply held_bind; [keeps_read|]. intros. apply stable_ret.
Qed.

Lemma held_setInterfaceDNS guid servers : keeps held (setInterfaceDNS guid servers).
Proof. unfold setInterfaceDNS. keeps_read. Qed.
#[local] Hint Resolve held_setInterfaceDNS : keeps_db.

Lemma held_restore servers adapters : keeps held (restore_resolvers servers adapters).
Proof. induction adapters as [|a adapters IH]; simpl; keeps_read. Qed.

Lemma stable_Restore value : stable managed_ok (Restore value).
Proof.
  unfold Restore, restoreSnapshotResolvers. apply stable_bind; [apply stable_gets|]. intros active.
  apply stable_bind; [destruct active; [|apply stable_ret]; by apply stable_puts|]. intros _. apply stable_bind; [by apply stable_set_current|]. intros _.
  cbv zeta. case_match; [|apply stable_ret]. apply held_bind; [keeps_read|]. intros [adapters|]; [|apply stable_ret].
  apply stable_bind; [apply stable_gets|]. intros. apply stable_quiet, held_restore.
Qed.

(** ** Whatever happens *)
Inductive ManagedOp :=
  | MPrepare (c : Ctx) | MCapture (c : Ctx) (p : PreparedNetwork) | MProtect (c : Ctx) (p : PreparedNetwork)
  | MDisable (c : Ctx) (s : WindowsPreparedState) | MRestore (value : option WindowsNetworkSnapshot).

Definition managed_perform (op : ManagedOp) : NM unit :=
  match op with
  | MPrepare c => _ ← prepareNetwork generation plan policy c; mret tt
  | MCapture c p => _ ← capturePrepared plan c p; mret tt
  | MProtect c p => _ ← legacyEnableProtection plan generation c p; mret tt
  | MDisable c s => _ ← disablePreparedFirewall generation plan c s; mret tt
  | MRestore value => _ ← Restore value; mret tt
  end.

Inductive managed_step (s : MS) : MS -> Prop :=
  | managed_performs op : managed_step s (managed_perform op s).2
  (* the service ends and another one starts on the files that it left *)
  | managed_restarts : managed_step s (new_manager (nworld s)).

#[local] Hint Resolve stable_capture stable_protect stable_Restore : stable_db.

Lemma stable_perform op : stable managed_ok (managed_perform op).
Proof.
  destruct op; simpl; (apply stable_bind; [|intros ?; apply stable_ret]);
    [apply stable_prepareNetwork|apply stable_capture|apply stable_protect|apply stable_quiet, held_disable|apply stable_Restore].
Qed.

(** C31. Whatever the operations of the managed path do, whatever fails in them and however
    often the service is started again: the pool and the snapshot that are in memory, and
    the files that a later start reads, pass all their checks. *)
Theorem managed_state_is_always_acceptable w s :
  holds valid (pool_file w) -> holds accepted (snapshot_file w) -> rtc managed_step (new_manager w) s ->
  holds valid (prepared s) /\ holds accepted (current s) /\ holds valid (pool_file (nworld s)) /\ holds accepted (snapshot_file (nworld s)).
Proof.
  intros Hp Hs Hr. assert (Hok : managed_ok (new_manager w)) by done. clear Hp Hs.
  change (managed_ok s). induction Hr as [s|s s' s'' Hstep _ IH]; [done|]. apply IH. destruct Hstep as [op|].
  - pose proof (stable_perform op s Hok) as Hk. by destruct (managed_perform op s).
  - by destruct Hok as (_ & _ & ? & ?).
Qed.

(** The pool that is found for a snapshot is of its generation and passes the checks. *)
Lemma resolved_pool_is_valid sn :
  triple managed_ok (preparedStateForSnapshot sn) (fun o s => holds (fun st => valid st /\ PS_Generation st = SN_PreparedGeneration sn) o /\ managed_ok s).
Proof.
  assert (Hl : triple managed_ok (loadSealedPreparedState (fun st => PS_Generation st =? SN_PreparedGeneration sn))
    (fun o s => holds (fun st => valid st /\ PS_Generation st = SN_PreparedGeneration sn) o /\ managed_ok s)).
  { unfold loadSealedPreparedState. eapply triple_bind; [apply (stable_quiet (system prepared_Load)), held_system, prepared_Load_quiet|].
    intros loaded s Hs. split; [|exact Hs]. destruct loaded as [[st|]|]; simpl; try exact I.
    destruct (validateWindowsPreparedState st) eqn:Ev; simpl; [exact I|]. destruct (_ =? _) eqn:E; simpl; [|exact I]. split; [done|lia]. }
  unfold preparedStateForSnapshot. eapply triple_bind; [apply (triple_gets prepared)|]. intros cached s [-> Hs].
  destruct (prepared s) as [st|] eqn:Ep; [|by apply Hl]. destruct (_ =? _) eqn:E; [|by apply Hl].
  split; [|exact Hs]. destruct Hs as (Hp & _). cbn in Hp. rewrite Ep in Hp. simpl. split; [exact Hp|lia].
Qed.

(** ** A pool that fails is made an emergency *)

(** C33. When the rules of a pool cannot be installed, the last thing that is run is the script
    that blocks all of the previous pool or of the new one; if that fails as well, its
    error is returned with the first one. *)
Theorem failed_pool_is_an_emergency c s previous st errs st' : (length previous <= 1)%nat ->
  prepareFirewallPool generation plan c s previous st = (errs, st') -> errs <> [] ->
  exists p st0 r, p ∈ s :: previous /\
    run generation DetachedCtx networkOperationEmergency (preparedFirewallInput plan p true) st0 = (r, st') /\
    match r with inl _ => length errs = 1%nat | inr e => length errs = 2%nat /\ e ∈ errs end.
Proof.
  intros Hl. unfold prepareFirewallPool, installPreparedEmergencyProtection, mbind, StateM_bind, mret, StateM_ret.
  destruct previous as [|p [|p' previous]]; [| |simpl in Hl; lia]; destruct (run generation c _ _ st) as [[out|err] s1]; try (by intros [= <- <-]).
  - destruct (run generation DetachedCtx _ _ s1) as [r s2] eqn:E. intros [= <- <-] _. exists s, s1, r. split_and!; [set_solver|done|].
    destruct r; simpl; [done|]. set_solver.
  - destruct (run generation DetachedCtx _ (preparedFirewallInput plan p true) s1) as [[out|e1] s2] eqn:E; simpl.
    + intros [= <- <-] _. exists p, s1, (inl out). split_and!; [set_solver|done..].
    + destruct (run generation DetachedCtx _ _ s2) as [r s3] eqn:E2. intros [= <- <-] _. exists s, s2, r. split_and!; [set_solver|done|].
      destruct r; simpl; [done|]. set_solver.
Qed.
End Managed.

(** ** A managed network

    A host on which the properties of the prepared pool and of the snapshots are evaluated:
    its files, its adapters, and an installation of the rules that may be made to fail. *)


#[local] Existing Instance NetworkDemo.merge_sorting.
#[local] Existing Instance NetworkDemo.merge_sorting_laws.
#[local] Existing Instance NetworkDemo.ascii_folding.

Record Host := mkHost { host_pool : option WindowsPreparedState; host_snapshot : option WindowsNetworkSnapshot; host_refuses : bool }.

Definition host_adapters : list ipHelperAdapter :=
  [mkHelperAdapter 12 1200 "{A0000000-0000-4000-8000-0000000000E1}" "Ethernet" "Up" ["10.0.0.53"] false ["192.168.1.5/24"] "Intel(R) Ethernet";
   mkHelperAdapter 14 1400 "{b0000000-0000-4000-8000-0000000000e2}" "Wi-Fi" "Disconnected" [] true [] "Intel(R) Wi-Fi";
   mkHelperAdapter 1 100 "{C0000000-0000-4000-8000-000000000001}" "Loopback" "Up" [] true ["127.0.0.1/8"] "Software Loopback"].
Definition host_interfaces : list ipHelperInterface :=
  [mkHelperInterface 12 1200 true 25 false; mkHelperInterface 14 1400 true 35 false; mkHelperInterface 1 100 true 75 false].
Definition host_routes : list ipHelperRoute :=
  [mkHelperRoute "0.0.0.0/0" 12 1200 "192.168.1.1" 0 3; mkHelperRoute "192.168.1.0/24" 12 1200 "0.0.0.0" 256 2].

Definition host_digest (payload : string) : string :=
  String (byte_of (97 + Z.of_nat (String.length payload) mod 6)) "00112233445566778899aabbccddeeff00112233445566778899aabbccddeef".

#[local] Instance host_system : NetSystem := {|
  NWorld := Host;
  net_ctx_Err _ w := (None, w);
  net_Now w := (0, w);
  net_Sleep _ w := w;
  api_Adapters w := (inl host_adapters, w);
  api_IPv4Interfaces _ w := (inl host_interfaces, w);
  api_IPv4Routes w := (inl host_routes, w);
  api_setInterfaceDNS _ _ w := (None, w);
  runner_Run operation _ w := (if host_refuses w && (operation =?s networkOperationFirewallPrepare) then inr (ErrText "access denied") else inl "", w);
  json_Marshal_input _ := inl "{}";
  json_Marshal_baseline b := inl (NetworkDemo.demo_baseline_text b);
  sha256_hex := host_digest
|}.

#[local] Instance host_files : PreparedSystem := {|
  json_Marshal_strings l := inl (String.concat "," l);
  json_Marshal_policy p := inl (Mode p);
  json_Marshal_prepared s := inl (String.concat "," (map RuleName (PS_Rules s)));
  json_Marshal_snapshot sn := inl (SN_OwnershipPhase sn);
  prepared_Load w := (inl (host_pool w), w);
  prepared_Save s w := (inl tt, mkHost (Some s) (host_snapshot w) (host_refuses w));
  snapshot_Load w := (inl (host_snapshot w), w);
  snapshot_Save sn w := (inl tt, mkHost (host_pool w) (Some sn) (host_refuses w))
|}.

#[local] Instance host_disk : ManagedDisk.
Proof. by refine {| pool_file := host_pool; snapshot_file := host_snapshot |}. Defined.

Definition host_plan : Plan := mkPlan ["192.0.2.10"] ["1.0.0.0/8"; "2.0.0.0/7"; "2001:db8::/32"] ["8.8.8.0/24"].

Definition host_baseline : WindowsNetworkBaseline :=
  Eval vm_compute in match normalizeNativeNetwork host_adapters host_interfaces host_routes (nodeAddresses host_plan) with inl b => b | inr _ => mkBaseline [] [] [] [] end.

Lemma host_reading : normalizeNativeNetwork host_adapters host_interfaces host_routes (nodeAddresses host_plan) = inl host_baseline.
Proof. vm_compute. reflexivity. Qed.

Lemma host_orderly : orderly host_baseline.
Proof.
  split_and!; intros x y; unfold host_baseline; cbn [Adapters Interfaces Routes NodeRoutes]; rewrite !elem_of_cons, !elem_of_nil;
    intros Hx Hy; repeat destruct Hx as [->|Hx]; try done; repeat destruct Hy as [->|Hy]; try done; vm_compute; try done.
Qed.

#[local] Instance host_laws : ManagedLaws host_plan.
Proof.
  split.
  - intros x. change (sha256_hex x) with (host_digest x). unfold lowercase_sha256, host_digest.
    pose proof (Z.mod_pos_bound (Z.of_nat (String.length x)) 6 ltac:(lia)). cbn [string_all]. rewrite byte_val_of by lia.
    apply andb_true_iff. split; [reflexivity|]. apply andb_true_iff. split; [unfold is_digit; lia|reflexivity].
  - intros sn. by eexists.
  - intros c s b s' E. assert (Er : normalizeNativeNetwork host_adapters host_interfaces host_routes (nodeAddresses host_plan) = inl b) by exact (f_equal fst E).
    rewrite host_reading in Er. injection Er as <-. apply host_orderly.
Qed.

(** *** The pool *)
Abbreviation host_rules := (match buildPreparedFirewallRules (Adapters host_baseline) (blockedPrefixes host_plan) (dnsBlockedPrefixes host_plan) with inl rules => rules | inr _ => [] end).

Definition host_wifi : WindowsNativeAdapter := Eval vm_compute in default (mkNativeAdapter 0 "" 0 "" "" "" [] true) (Adapters host_baseline !! 2%nat).


(** *** A run *)
Definition host_policy : Policy := AccessModel.demo_http.
Definition host_prepared : PreparedNetwork :=
  Eval vm_compute in match prepareNetwork 1 host_plan host_policy CallerCtx (new_manager (mkHost None None false)) with (inl p, _) => p | _ => mkPrepared 0 "" 0 0 end.

Definition host_ops : list ManagedOp := [MPrepare CallerCtx; MCapture CallerCtx host_prepared; MProtect CallerCtx host_prepared].
Definition host_after (refuses : bool) (ops : list ManagedOp) : MS :=
  fold_left (fun s op => (managed_perform host_plan 1 host_policy op s).2) ops (new_manager (mkHost None None refuses)).

Lemma host_after_reachable refuses ops : rtc (managed_step host_plan 1 host_policy) (new_manager (mkHost None None refuses)) (host_after refuses ops).
Proof.
  unfold host_after. generalize (new_manager (mkHost None None refuses)).
  induction ops as [|op ops IH]; intros s; simpl; [apply rtc_refl|]. eapply rtc_l; [apply (managed_performs _ _ _ s op)|apply IH].
Qed.

(** The network is prepared, captured and protected, and the service starts again. *)
Lemma host_run : (SN_OwnershipPhase <$> host_snapshot (nworld (host_after false host_ops)), PS_Generation <$> host_pool (nworld (host_after false host_ops))) =
  (Some windowsSnapshotPhaseProtected, Some 1).
Proof. vm_compute. reflexivity. Qed.

Lemma managed_state_is_always_acceptable_witness :
  SN_OwnershipPhase <$> host_snapshot (nworld (host_after false host_ops)) = Some windowsSnapshotPhaseProtected /\
  holds valid (host_pool (nworld (host_after false host_ops))) /\ holds (accepted host_plan) (host_snapshot (nworld (host_after false host_ops))).
Proof.
  split; [exact (f_equal fst host_run)|].
  destruct (managed_state_is_always_acceptable host_plan 1 host_policy (mkHost None None false : @NWorld host_system) (new_manager (nworld (host_after false host_ops))))
    as (_ & _ & Hp & Hs); [exact I|exact I| |split; [exact Hp|exact Hs]].
  eapply rtc_r; [apply host_after_reachable|apply managed_restarts].
Defined.

(** The rules are refused: the emergency script of the new pool is run last. *)
Definition host_state : WindowsPreparedState :=
  Eval vm_compute in default (mkPreparedState 0 0 0 "" 0 "" host_baseline [] [] [] "") (prepared (host_after false host_ops)).
#[local] Abbreviation refused_pool := (prepareFirewallPool 1 host_plan CallerCtx host_state [] (new_manager (mkHost None None true : @NWorld host_system))).

Lemma pool_is_refused : length refused_pool.1 = 1%nat.
Proof. vm_compute. reflexivity. Qed.

Lemma failed_pool_is_an_emergency_witness : exists st0 out,
  run 1 DetachedCtx networkOperationEmergency (preparedFirewallInput host_plan host_state true) st0 = (inl out, refused_pool.2).
Proof.
  pose proof pool_is_refused as Hl. destruct refused_pool as [errs st'] eqn:E. cbn [fst snd] in *.
  assert (Hne : errs <> []) by (intros ->; discriminate Hl).
  destruct (failed_pool_is_an_emergency host_plan 1 CallerCtx host_state [] _ errs st' (Nat.le_0_l _) E Hne) as (p & st0 & r & Hp & Hrun & Hr).
  apply list_elem_of_singleton in Hp as ->. destruct r as [out|e]; [by exists st0, out|]. destruct Hr as [Hr _]. rewrite Hl in Hr. discriminate Hr.
Defined.

(** *** A snapshot with a tunnel *)
Definition host_tun : WindowsTUNIdentity := mkTUNIdentity 30 "{D0000000-0000-4000-8000-000000000030}" windowsTUNInterface "" false true [windowsTUNAddress].
Definition tunnelled : WindowsNetworkSnapshot + string :=
  match current (host_after false host_ops) with
  | Some sn =>
      sealWindowsSnapshot (mkSnapshot (SN_Version sn) (SN_Interfaces sn) [] [] (SN_BaselineAdapterGuids sn) false false (SN_NodeRoutes sn) (Some host_tun)
        (rev (expected_owned host_plan host_tun sn)) [] 0 (SN_BlockedRemoteAddresses sn) (SN_DNSBlockedRemoteAddresses sn) (SN_RouteMetric sn)
        windowsSnapshotPhaseTUNOwned (SN_PreparedGeneration sn) "")
  | None => inr ""
  end.
Definition host_tunnelled : WindowsNetworkSnapshot := Eval vm_compute in match tunnelled with inl sn => sn | inr _ => mkSnapshot 0 [] [] [] [] false false [] None [] [] 0 [] [] 0 "" 0 "" end.

