(* ===== verification/NetworkStores.v ===== *)
(** * The files and the scripts of the Windows network
    ([internal/agent/network_prepared_windows.go], [network_windows.go])

    [filePreparedStateStore] and [fileSnapshotStore]: a file is replaced by renaming a
    complete one to its name. The directory and its calls, which may fail or be cut short,
    are those of [DarwinJournal]; the trail lists what it holds wherever the process can be
    killed. *)
From S2P Require Import Prelude GoText NetworkManager PreparedPool DarwinJournal DarwinJournalSpec Netip TraceEvent NativeNetwork.
From S2P Require SingConfigKeys.
From stdpp Require Import list gmap.

#[local] Open Scope string_scope.
#[local] Open Scope Z_scope.
#[local] Open Scope list_scope.

#[local] Notation "'try' x ':=' m 'in' k" := (r ← m; match r with inl x => k | inr e => mret (inr e) end) (at level 10, x pattern, m at level 100, k at level 200).

Definition preparedPattern (random : string) : string := ".prepared-network-" ++s random ++s ".tmp".
Definition snapshotPattern (random : string) : string := ".network-state-" ++s random ++s ".tmp".

Definition windowsPreparedStateFile := "prepared-network.json".

Lemma temporary_is_another_file random : preparedPattern random <> windowsPreparedStateFile.
Proof. unfold preparedPattern, windowsPreparedStateFile. cbn. congruence. Qed.

(** [windows.UTF16PtrFromString] refuses a name with a zero byte. *)
Definition has_zero (s : string) : bool := negb (string_all (fun a => negb (byte_val a =? 0)) s).

(** A temporary file that is closed on every way out, and removed unless it was renamed. *)
Definition with_temporary (temp : string) (body : J (unit + string)) : J (unit + string) :=
  try _ := jcall <[temp := ""]> unchanged in
  r ← body;
  _ ← jquiet;
  match r with
  | inl _ => mret r
  | inr _ => _ ← jcall (delete temp) unchanged; mret r
  end.

(** Its mode, its contents, on disk, closed; then its new name. *)
Definition fill (temp data : string) : J (unit + string) :=
  try _ := jquiet in
  try _ := jcall <[temp := data]> (fun n files => <[temp := string_take n data]> files) in
  try _ := jquiet in
  jquiet.

Definition rename_to (temp path : string) : J (unit + string) :=
  jcall (fun files => match files !! temp with Some data => delete temp (<[path := data]> files) | None => files end) unchanged.

Definition prepared_Save_file (contents : string + string) (temp path : string) : J (unit + string) :=
  match contents with
  | inr err => mret (inr err)
  | inl data =>
      with_temporary temp
        (try _ := fill temp data in
         if has_zero temp || has_zero path then mret (inr "invalid argument") else rename_to temp path)
  end.

Definition snapshot_Save_file (contents : string + string) (temp path : string) : J (unit + string) :=
  match contents with
  | inr err => mret (inr err)
  | inl data => with_temporary temp (try _ := fill temp data in rename_to temp path)
  end.

(** A file that is not there is told apart from one that cannot be read. *)
Definition read_file (path : string) : J (option string + string) :=
  files ← gets jd_files;
  match files !! path with
  | None => mret (inl None)
  | Some data => try _ := jquiet in mret (inl (Some data))
  end.

(** What follows a value in a stream. *)
Inductive Following := AtEnd | AnotherValue | Malformed (err : string).

Definition prepared_Load_file {A} (decode_strict : string -> A * Following + string) (path : string) : J (option A + string) :=
  try contents := read_file path in
  mret (match contents with
        | None => inl None
        | Some data =>
            match decode_strict data with
            | inr err => inr err
            | inl (s, AtEnd) => inl (Some s)
            | inl (_, AnotherValue) => inr "prepared state contains trailing JSON"
            | inl (_, Malformed err) => inr err
            end
        end).

Definition snapshot_Load_file {A} (decode : string -> A + string) (path : string) : J (option A + string) :=
  try contents := read_file path in
  mret (match contents with
        | None => inl None
        | Some data => match decode data with inl sn => inl (Some sn) | inr err => inr err end
        end).

Definition Delete_file (path : string) : J (unit + string) :=
  files ← gets jd_files;
  match files !! path with None => mret (inl tt) | Some _ => jcall (delete path) unchanged end.

(** ** A save is all or nothing *)

(** The file is as it was, or all of the new one; only the temporary one differs beside it. *)
Definition whole (path temp data : string) (files files' : gmap string string) : Prop :=
  (files' !! path = files !! path \/ files' !! path = Some data) /\ forall f, f <> path -> f <> temp -> files' !! f = files !! f.

(** Before the rename. *)
Definition before (path temp : string) (files files' : gmap string string) : Prop :=
  files' !! path = files !! path /\ forall f, f <> path -> f <> temp -> files' !! f = files !! f.

Section Store.
Context (path temp data : string) (files : gmap string string) (distinct : temp <> path).

Lemma before_whole files' : before path temp files files' -> whole path temp data files files'.
Proof. intros [H1 H2]. split; auto. Qed.

Lemma before_temp files' x : before path temp files files' -> before path temp files (<[temp := x]> files').
Proof. intros [H1 H2]. split; [by rewrite lookup_insert_ne|]. intros f Hf Ht. rewrite lookup_insert_ne by done. auto. Qed.

Lemma before_delete files' : before path temp files files' -> before path temp files (delete temp files').
Proof. intros [H1 H2]. split; [by rewrite lookup_delete_ne|]. intros f Hf Ht. rewrite lookup_delete_ne by done. auto. Qed.

#[local] Hint Resolve before_whole before_temp before_delete : core.

Lemma fill_ok d : before path temp files (jd_files d) ->
  jwp (whole path temp data files) (fill temp data) (fun r files' => before path temp files files' /\ (r = inl tt -> files' !! temp = Some data)) d.
Proof.
  intros Hb. unfold fill. eapply jwp_bind; [apply (jwp_quiet _ (jd_files d)); auto|]. intros [[]|e] d1 E1 _ _; [|apply jwp_ret; by rewrite E1].
  eapply (jwp_bind _ _ _ (fun r files' => before path temp files files' /\ (r = inl tt -> files' !! temp = Some data))).
  { rewrite <- E1 in Hb. apply jwp_call; [auto|intros n; auto| |intros e n; by split; [auto|]]. split; [auto|]. intros _. apply lookup_insert_eq. }
  intros [[]|e] d2 [H2 Hd] _ _; [|by apply jwp_ret]. specialize (Hd eq_refl).
  eapply jwp_bind; [apply (jwp_quiet _ (jd_files d2)); auto|]. intros [[]|e] d3 E3 _ _; [|apply jwp_ret; by rewrite E3].
  rewrite <- E3 in H2, Hd. eapply jwp_mono; [|apply (jwp_quiet _ (jd_files d3)); auto]. by intros r files' ->.
Qed.

(** After an error the file is the old one; without one it is the new one. *)
Definition settled (r : unit + string) (files' : gmap string string) : Prop :=
  match r with inl _ => files' !! path = Some data | inr _ => files' !! path = files !! path end /\
  forall f, f <> path -> f <> temp -> files' !! f = files !! f.

Lemma settled_whole r files' : settled r files' -> whole path temp data files files'.
Proof. intros [H1 H2]. split; [destruct r; auto|done]. Qed.

Lemma rename_ok d : before path temp files (jd_files d) -> jd_files d !! temp = Some data -> jwp (whole path temp data files) (rename_to temp path) settled d.
Proof.
  intros Hb Hd. unfold rename_to. assert (Hs : settled (inl tt) (delete temp (<[path := data]> (jd_files d)))).
  { split; [rewrite lookup_delete_ne by done; apply lookup_insert_eq|]. intros f Hf Ht. rewrite lookup_delete_ne, lookup_insert_ne by done. by apply Hb. }
  apply jwp_call; rewrite ?Hd; [by eapply settled_whole|intros n; by apply before_whole|done|intros e n; exact Hb].
Qed.

Lemma with_temporary_ok body d : jd_files d = files ->
  (forall d', before path temp files (jd_files d') -> jwp (whole path temp data files) body settled d') ->
  jwp (whole path temp data files) (with_temporary temp body) settled d.
Proof.
  intros Hf Hbody. assert (Hb : before path temp files (jd_files d)) by (by rewrite Hf). unfold with_temporary.
  eapply (jwp_bind _ _ _ (fun _ files' => before path temp files files')); [apply jwp_call; auto|].
  intros [[]|e] d1 H1 _ _; [|by apply jwp_ret]. eapply jwp_bind; [by apply Hbody|]. intros r d2 H2 _ _.
  eapply jwp_bind; [apply (jwp_quiet _ (jd_files d2)); [by eapply settled_whole|done]|]. intros u d3 E3 _ _. cbv beta in E3. rewrite <- E3 in H2.
  destruct r as [[]|e]; [by apply jwp_ret|]. eapply (jwp_bind _ _ _ (fun _ files' => settled (inr e) files')); [|intros u' d4 H4 _ _; by apply jwp_ret].
  assert (Hd : settled (inr e) (delete temp (jd_files d3))) by (apply (before_delete (jd_files d3)), H2).
  apply jwp_call; [by eapply settled_whole|intros n; exact (settled_whole (inr e) _ H2)|done|intros e' n; exact H2].
Qed.

Lemma body_ok check d : before path temp files (jd_files d) ->
  jwp (whole path temp data files) (try _ := fill temp data in if check : bool then mret (inr "invalid argument") else rename_to temp path) settled d.
Proof.
  intros Hb. eapply jwp_bind; [by apply fill_ok|]. intros [[]|e] d1 [H1 Hd] _ _; [|by apply jwp_ret]. specialize (Hd eq_refl).
  destruct check; [by apply jwp_ret|by apply rename_ok].
Qed.
End Store.

(** Wherever a save is interrupted and whatever call fails, the file is as it was or all of
    the new one; when the save returns an error it is as it was. *)
Lemma store_save_is_atomic contents temp path d : temp <> path ->
  let replaced save := exists data l, contents = inl data /\ jd_trail (save d).2 = l ++ jd_trail d /\ Forall (whole path temp data (jd_files d)) l /\
    settled path temp data (jd_files d) (save d).1 (jd_files (save d).2) in
  match contents with
  | inr err => prepared_Save_file contents temp path d = (inr err, d) /\ snapshot_Save_file contents temp path d = (inr err, d)
  | inl _ => replaced (prepared_Save_file contents temp path) /\ replaced (snapshot_Save_file contents temp path)
  end.
Proof.
  intros Hn. destruct contents as [data|err]; [|done]. cbv zeta.
  assert (Hall : forall body, (forall d', before path temp (jd_files d) (jd_files d') -> jwp (whole path temp data (jd_files d)) body (settled path temp data (jd_files d)) d') ->
    exists data0 l, @inl string string data = inl data0 /\ jd_trail (with_temporary temp body d).2 = l ++ jd_trail d /\ Forall (whole path temp data0 (jd_files d)) l /\
      settled path temp data0 (jd_files d) (with_temporary temp body d).1 (jd_files (with_temporary temp body d).2)).
  { intros body Hb. destruct (with_temporary_ok path temp data (jd_files d) Hn body d eq_refl Hb) as (Hs & _ & _ & l & Hl & Hc). by exists data, l. }
  split; apply Hall; intros d' Hb; [by apply body_ok|by apply (body_ok path temp data (jd_files d) Hn false)].
Qed.

(** What a save wrote is what the next load reads, when the codec keeps it. *)
Theorem stored_files_are_read_back {A} (encode : A -> string + string) (decode_strict : string -> A * Following + string) (decode : string -> A + string)
    (codec : forall s data, encode s = inl data -> decode_strict data = inl (s, AtEnd) /\ decode data = inl s) s temp path d : temp <> path ->
  (forall d', prepared_Save_file (encode s) temp path d = (inl tt, d') -> jd_answers d' = [] -> (prepared_Load_file decode_strict path d').1 = inl (Some s)) /\
  (forall d', snapshot_Save_file (encode s) temp path d = (inl tt, d') -> jd_answers d' = [] -> (snapshot_Load_file decode path d').1 = inl (Some s)).
Proof.
  intros Hn. pose proof (store_save_is_atomic (encode s) temp path d Hn) as Ha. cbv zeta in Ha. destruct (encode s) as [data|] eqn:Es; [|by destruct Ha as [-> ->]].
  apply codec in Es as [E1 E2]. destruct Ha as [(? & ? & [= <-] & _ & _ & Hp) (? & ? & [= <-] & _ & _ & Hs)].
  split; intros d' E Hans.
  - rewrite E in Hp. destruct Hp as [Hp _]. simpl in Hp. unfold prepared_Load_file, read_file, mbind, StateM_bind, gets, jquiet, jcall. simpl. rewrite Hp. simpl. rewrite Hans. simpl. by rewrite E1.
  - rewrite E in Hs. destruct Hs as [Hs _]. simpl in Hs. unfold snapshot_Load_file, read_file, mbind, StateM_bind, gets, jquiet, jcall. simpl. rewrite Hs. simpl. rewrite Hans. simpl. by rewrite E2.
Qed.

(** ** What a script reports ([internal/agent/network_windows.go])

    The error text of a script, from its standard error: plain text, or records of an XML
    stream of which only the errors count. It is one line without control characters, of
    a bounded length. *)


Definition maxNetworkDiagnosticBytes : Z := MaxDetailBytes.

(** ** One line *)
Definition blank_space (r : Z) : Z := if is_control r || is_space r then 32 else r.

(** [utf8.RuneLen] *)
Definition RuneLen (r : Z) : Z :=
  if r <? 0 then -1 else if r <? 128 then 1 else if r <? 2048 then 2
  else if (55296 <=? r) && (r <=? 57343) then -1 else if r <? 65536 then 3 else if r <=? 1114111 then 4 else -1.

(** The bytes of the runes that fit. *)
Fixpoint rune_limit (limit : Z) (l : list (Z * string)) : Z :=
  match l with
  | [] => limit
  | (r, _) :: l => if maxNetworkDiagnosticBytes <? limit + RuneLen r then limit else rune_limit (limit + RuneLen r) l
  end.

Definition sanitizePowerShellDetail (raw : string) : string :=
  let normalized := strings_Join (strings_Fields (strings_Map blank_space raw)) " " in
  if len normalized <=? maxNetworkDiagnosticBytes then normalized
  else string_take (Z.to_nat (rune_limit 0 (runes normalized))) normalized.

(** ** Escapes *)

(** A character that begins a match of [powerShellEscapePattern]: its code. *)
Definition escape_at (s : string) : option Z :=
  match s with
  | String u (String x (String a (String b (String c (String d (String v _)))))) =>
      if (byte_val u =? 95) && ((byte_val x =? 120) || (byte_val x =? 88)) && (byte_val v =? 95) then
        match hex_val (byte_val a), hex_val (byte_val b), hex_val (byte_val c), hex_val (byte_val d) with
        | Some a, Some b, Some c, Some d => Some (((a * 16 + b) * 16 + c) * 16 + d)
        | _, _, _, _ => None
        end
      else None
  | _ => None
  end.

(** [skip] is what is left of a match that was replaced. *)
Fixpoint decode_from (skip : nat) (s : string) : string :=
  match s with
  | "" => ""
  | String a r =>
      match skip with
      | S skip => decode_from skip r
      | O => match escape_at s with Some code => utf8_encode code ++s decode_from 6 r | None => String a (decode_from 0 r) end
      end
  end.

Definition decodePowerShellEscapes (value : string) : string := decode_from 0 value.

(** ** Records *)
Inductive XMLToken :=
  | StartElement (local : string) (attributes : list (string * string))
  | CharData (text : string)
  | EndElement (local : string)
  | OtherToken.

Fixpoint xmlAttribute (attributes : list (string * string)) (name : string) : string :=
  match attributes with
  | [] => ""
  | (n, value) :: attributes => if n =?s name then value else xmlAttribute attributes name
  end.

Record Extraction := mkExtraction { progressDepth : Z; captureError : bool; extracted : string }.

Section Detail.
Context `{FoldTables}.
(** [encoding/xml]: the tokens of a text until the first error. *)
Context (xml_tokens : string -> list XMLToken).

Definition extract_token (e : Extraction) (t : XMLToken) : Extraction :=
  match t with
  | StartElement local attributes =>
      let depth := if (local =?s "Obj") && (xmlAttribute attributes "S" =?s "progress") then progressDepth e + 1 else progressDepth e in
      let capture := if (depth =? 0) && (local =?s "S") && strings_EqualFold (xmlAttribute attributes "S") "Error" then true else captureError e in
      mkExtraction depth capture (extracted e)
  | CharData text =>
      if captureError e && (progressDepth e =? 0) then mkExtraction (progressDepth e) (captureError e) (extracted e ++s text ++s " ") else e
  | EndElement local =>
      let capture := if (local =?s "S") && captureError e then false else captureError e in
      let depth := if (local =?s "Obj") && (0 <? progressDepth e) then progressDepth e - 1 else progressDepth e in
      mkExtraction depth capture (extracted e)
  | OtherToken => e
  end.

Definition extract_tokens (e : Extraction) (l : list XMLToken) : Extraction := fold_left extract_token l e.

(** [text[strings.Index(text, sub):]] *)
Fixpoint from_Index (text sub : string) : option string :=
  if strings_HasPrefix text sub then Some text else match text with "" => None | String _ rest => from_Index rest sub end.

Definition extractPowerShellErrorDetail (raw : string) : string :=
  let text := strings_TrimSpace raw in
  if text =?s "" then ""
  else if strings_HasPrefix text "#< CLIXML" then
    match from_Index text "<Objs" with
    | Some xml => sanitizePowerShellDetail (decodePowerShellEscapes (extracted (extract_tokens (mkExtraction 0 false "") (xml_tokens xml))))
    | None => ""
    end
  else sanitizePowerShellDetail text.

(** ** Running a script *)
Definition utf16_units (r : Z) : list Z :=
  if r <? 65536 then [r] else [55296 + (r - 65536) / 1024; 56320 + (r - 65536) `mod` 1024].

Definition encodePowerShell (script : string) : string :=
  SingConfigKeys.base64_EncodeToString (flat_map (fun u => [u `mod` 256; u / 256]) (flat_map (fun r => utf16_units r.1) (runes script))).

Definition powerShellInputEnvelope (input : string) : string :=
  SingConfigKeys.base64_EncodeToString (map byte_val (String.list_ascii_of_string input)).

(** The error of an operation: what the script reported, or why it was ended, or what the system says. *)
Definition newFixedNetworkOperationErrorWithContext (ctxErr : option string) (operation err stderr : string) : NetError :=
  let detail := extractPowerShellErrorDetail stderr in
  let detail := if detail =?s "" then match ctxErr with Some text => text | None => detail end else detail in
  let detail := if detail =?s "" then err else detail in
  let detail := if detail =?s "" then "operation " ++s operation ++s " failed without stderr" else detail in
  let detail := (SanitizeDetail detail []).1 in
  ErrStaged (networkStage operation) detail ("fixed network operation " ++s operation ++s " failed: " ++s err ++s (if detail =?s "" then "" else ": " ++s detail)).

(** What becomes of the process, which is given the encoded script and the envelope of its input. *)
Inductive Process := NotStarted (err : string) | Exited (err : option string) (stdout stderr : string).

Context (scripts : string -> option string) (prologue : string).

Definition script_Run (powershell : string -> string -> Process) (ctxErr : option string) (operation input : string) : string + NetError :=
  match scripts operation with
  | None => inr (ErrText "unknown network operation")
  | Some script =>
      match powershell (encodePowerShell (prologue ++s String (byte_of 10) script)) (powerShellInputEnvelope input) with
      | NotStarted err => inr (newFixedNetworkOperationErrorWithContext ctxErr operation err "")
      | Exited (Some err) _ stderr => inr (newFixedNetworkOperationErrorWithContext ctxErr operation err stderr)
      | Exited None stdout _ =>
          if utf8_valid stdout then inl (strings_TrimSpace stdout)
          else inr (newFixedNetworkOperationErrorWithContext ctxErr operation "invalid PowerShell UTF-8 output" "invalid PowerShell UTF-8 output")
      end
  end.

(** ** What is reported *)
Lemma rune_limit_bound limit l : limit <= maxNetworkDiagnosticBytes -> rune_limit limit l <= maxNetworkDiagnosticBytes.
Proof. revert limit. induction l as [|[r raw] l IH]; intros limit Hl; simpl; [done|]. case_match; bool_to_prop; [done|]. apply IH. lia. Qed.

Lemma sanitize_ok raw : sanitized_ok (sanitizePowerShellDetail raw).
Proof.
  unfold sanitizePowerShellDetail.
  assert (Hc : string_all clean_byte (strings_Join (strings_Fields (strings_Map blank_space raw)) " ") = true).
  { apply strings_Join_all; [done|]. eapply Forall_impl; [apply strings_Fields_all|by intros ? [? _]].
    apply strings_Map_all; [apply clean_byte_high|]. intros r Hr Hb. unfold blank_space in *. destruct (is_control r || is_space r) eqn:E; [reflexivity|].
    unfold is_control in E. unfold clean_byte. rewrite byte_val_of by lia. lia. }
  set (d := strings_Join _ _) in *. destruct (len d <=? maxNetworkDiagnosticBytes) eqn:E; bool_to_prop; [by split|]. split; [|by apply string_take_all].
  pose proof (rune_limit_bound 0 (runes d) ltac:(done)) as Hl. pose proof (string_take_length (Z.to_nat (rune_limit 0 (runes d))) d) as Ht.
  unfold len. unfold maxNetworkDiagnosticBytes, MaxDetailBytes in *. lia.
Qed.

(** Whatever a script writes, its detail has no control character and is within the limit. *)
Theorem script_detail_is_clean raw : sanitized_ok (extractPowerShellErrorDetail raw).
Proof.
  assert (He : sanitized_ok "") by (split; [unfold MaxDetailBytes, len; simpl; lia|done]).
  unfold extractPowerShellErrorDetail. repeat case_match; auto using sanitize_ok.
Qed.

Lemma fixed_error_detail ctxErr operation err stderr : exists d t,
  newFixedNetworkOperationErrorWithContext ctxErr operation err stderr = ErrStaged (networkStage operation) (SanitizeDetail d []).1 t.
Proof. eexists _, _. unfold newFixedNetworkOperationErrorWithContext. reflexivity. Qed.

(** An error of a script carries the stage of its operation and a clean detail. *)
Lemma script_errors_are_clean powershell ctxErr operation input stage detail text :
  script_Run powershell ctxErr operation input = inr (ErrStaged stage detail text) -> stage = networkStage operation /\ sanitized_ok detail.
Proof.
  assert (Hf : forall err stderr, inr (A := string) (newFixedNetworkOperationErrorWithContext ctxErr operation err stderr) = inr (ErrStaged stage detail text) ->
    stage = networkStage operation /\ sanitized_ok detail).
  { intros err stderr. destruct (fixed_error_detail ctxErr operation err stderr) as (d & t & ->). intros E. injection E as <- <- _.
    split; [reflexivity|apply SanitizeDetail_ok]. }
  unfold script_Run. destruct (scripts operation); [|discriminate]. destruct (powershell _ _) as [err|[err|] out stderr]; try apply Hf.
  destruct (utf8_valid out); [discriminate|apply Hf].
Qed.

(** Progress records leave no trace in the detail. *)
Definition not_an_object (t : XMLToken) : bool :=
  match t with StartElement local _ | EndElement local => negb (local =?s "Obj") | _ => true end.

Lemma inside_progress depth out l : 0 < depth -> forallb not_an_object l = true ->
  extract_tokens (mkExtraction depth false out) l = mkExtraction depth false out.
Proof.
  intros Hd. induction l as [|t l IH]; [done|]. simpl. intros [Ht Hl]%andb_true_iff. unfold extract_tokens in *. simpl.
  assert (extract_token (mkExtraction depth false out) t = mkExtraction depth false out) as ->; [|by apply IH].
  destruct t as [local attrs|text|local|]; simpl in *; try done; apply negb_true_iff in Ht; rewrite Ht; simpl; rewrite ?(proj2 (Z.eqb_neq depth 0)) by lia; [done|].
  by destruct (local =?s "S").
Qed.

Theorem progress_is_not_reported attributes l out : xmlAttribute attributes "S" = "progress" -> forallb not_an_object l = true ->
  extract_tokens (mkExtraction 0 false out) (StartElement "Obj" attributes :: l ++ [EndElement "Obj"]) = mkExtraction 0 false out.
Proof.
  intros Ha Hl. unfold extract_tokens. simpl. rewrite fold_left_app, Ha. simpl.
  pose proof (inside_progress (0 + 1) out l ltac:(lia) Hl) as Hi. unfold extract_tokens in Hi. by rewrite Hi.
Qed.
End Detail.

(** A text without underscores has no escapes. *)
Lemma decode_plain s : string_all (fun a => negb (byte_val a =? 95)) s = true -> decodePowerShellEscapes s = s.
Proof.
  unfold decodePowerShellEscapes. induction s as [|a s IH]; [done|]. cbn [string_all]. intros [Ha%negb_true_iff Hs]%andb_true_iff. cbn [decode_from].
  assert (escape_at (String a s) = None) as ->; [|by rewrite IH]. unfold escape_at. repeat (case_match; try done). by rewrite Ha in *.
Qed.

Example decode_line_break : decodePowerShellEscapes "denied_x000D__x000a_at" = ("denied" ++s String (byte_of 13) (String (byte_of 10) "at")).
Proof. vm_compute. reflexivity. Qed.

Example detail_of_a_stream :
  @extractPowerShellErrorDetail {| rune_fold r := r |}
    (fun _ => [StartElement "Objs" []; StartElement "Obj" [("S", "progress")]; CharData "loading"; EndElement "Obj";
               StartElement "S" [("S", "Error")]; CharData "access _x000D__x000A_"; EndElement "S"; StartElement "S" [("S", "Error")]; CharData "denied"; EndElement "S"])
    "#< CLIXML <Objs>" = "access denied".
Proof. vm_compute. reflexivity. Qed.
