(* ===== verification/Commands.v ===== *)
(** * Command lines ([cmd/access-config], [cmd/installer-verifier])

    [access-config] validates, hashes and renders policies; what package [flag] made of the
    arguments, and what is read, are given, and the file that is written is on a directory
    whose calls may fail. [installer-verifier] tells its commands apart and gives them to
    the verifier of the platform. *)
From S2P Require Import Prelude GoText Netip AccessModel SingConfig NativeNetwork DarwinJournal DarwinJournalSpec NetworkStores.
From stdpp Require Import list gmap.

#[local] Open Scope string_scope.
#[local] Open Scope Z_scope.
#[local] Open Scope list_scope.

(** ** [strconv.ParseUint(s, 0, 64)] *)
Definition lower_byte (b : Z) : Z := Z.lor b 32.

Definition digit_value (b : Z) : option Z :=
  if is_digit b then Some (b - 48)
  else if (97 <=? lower_byte b) && (lower_byte b <=? 122) then Some (lower_byte b - 87) else None.

Inductive NumError := ErrSyntax | ErrRange.

(** The digits in a base; underscores between them are noted and passed over. *)
Fixpoint parse_digits (base n : Z) (underscores : bool) (s : string) : Z * bool + NumError :=
  match s with
  | "" => inl (n, underscores)
  | String a s =>
      if byte_val a =? 95 then parse_digits base n true s
      else match digit_value (byte_val a) with
      | None => inr ErrSyntax
      | Some d =>
          if base <=? d then inr ErrSyntax
          else if 2 ^ 64 <=? n * base + d then inr ErrRange else parse_digits base (n * base + d) underscores s
      end
  end.

(** An underscore follows a digit or the prefix of a base, and precedes a digit. *)
Inductive Before := BeforeStart | BeforeDigit | BeforeUnderscore | BeforeOther.

Fixpoint underscores_ok (hex : bool) (i : Before) (s : string) : bool :=
  match s with
  | "" => match i with BeforeUnderscore => false | _ => true end
  | String a s =>
      let b := byte_val a in
      if is_digit b || hex && (97 <=? lower_byte b) && (lower_byte b <=? 102) then underscores_ok hex BeforeDigit s
      else if b =? 95 then match i with BeforeDigit => underscores_ok hex BeforeUnderscore s | _ => false end
      else match i with BeforeUnderscore => false | _ => underscores_ok hex BeforeOther s end
  end.

Definition base_prefix (s : string) : option (Z * string) :=
  match s with
  | String z (String p rest) =>
      if byte_val z =? 48 then
        let p := lower_byte (byte_val p) in
        if p =? 98 then Some (2, rest) else if p =? 111 then Some (8, rest) else if p =? 120 then Some (16, rest) else None
      else None
  | _ => None
  end.

Definition underscoreOK (s : string) : bool :=
  match base_prefix s with
  | Some (base, rest) => underscores_ok (base =? 16) BeforeDigit rest
  | None => underscores_ok false BeforeStart s
  end.

Definition ParseUint0 (s : string) : Z + NumError :=
  if s =?s "" then inr ErrSyntax
  else
    let '(base, digits) :=
      match s with
      | String z rest =>
          if byte_val z =? 48 then
            match base_prefix s with
            | Some (base, rest2) => if rest2 =?s "" then (8, rest) else (base, rest2)
            | None => (8, rest)
            end
          else (10, s)
      | "" => (10, s)
      end in
    match parse_digits base 0 false digits with
    | inr err => inr err
    | inl (n, underscores) => if underscores && negb (underscoreOK s) then inr ErrSyntax else inl n
    end.

Definition num_error (s : string) (e : NumError) : string :=
  "strconv.ParseUint: parsing " ++s go_quote s ++s ": " ++s match e with ErrSyntax => "invalid syntax" | ErrRange => "value out of range" end.

Example parse_uints : map ParseUint0 ["0"; "42"; "0x1F"; "0b101"; "017"; "1_000"; "0x_f"; "1__0"; "0x"; "18446744073709551616"; "-1"] =
  [inl 0; inl 42; inl 31; inl 5; inl 15; inl 1000; inl 15; inr ErrSyntax; inr ErrSyntax; inr ErrRange; inr ErrSyntax].
Proof. vm_compute. reflexivity. Qed.

(** ** access-config *)

(** What the arguments give: the flags of a command, and how many arguments are left. *)
Record Flags := mkFlags {
  fl_in : string; fl_node : string; fl_listen : string; fl_upstream : string; fl_out : string; fl_method : string;
  fl_secretStdin : bool; fl_secretHandle : string; fl_NArg : Z
}.

(** What can be read: the standard input, files, and the files behind handles. *)
Record Readable := mkReadable { rd_stdin : string + string; rd_file : string -> string + string; rd_handle : Z -> option (string + string) }.

Record Output := mkOutput { exit_code : Z; stdout : list string; stderr : list string }.

Definition usage (line : string) : Output := mkOutput 2 [] [line].
Definition complains (tag err : string) : Output := mkOutput 3 [] [tag ++s ": " ++s err].

Definition usageLine := "USAGE: access-config <validate-policy|hash-policy|render-server|render-client> ...".

Definition validSecretSource (secretStdin : bool) (secretHandle : string) : bool :=
  if secretStdin then blank secretHandle else negb (blank secretHandle).

Fixpoint selectNode (nodes : list Node) (id : string) : Node + string :=
  match nodes with
  | [] => inr ("node " ++s go_quote id ++s " was not found in policy")
  | node :: nodes => if NodeID node =?s id then inl node else selectNode nodes id
  end.

(** [strings.Index] with what follows the text. *)
Fixpoint after_text (s text : string) : option string :=
  if strings_HasPrefix s text then Some (String.substring (String.length text) (String.length s - String.length text) s)
  else match s with "" => None | String _ s => after_text s text end.
Fixpoint before_text (s text : string) : option string :=
  if strings_HasPrefix s text then Some "" else match s with "" => None | String a s => String a <$> before_text s text end.

Definition yamlDecodeError (message : string) : string :=
  match after_text message "field " with
  | Some field => match before_text field " not found" with Some name => "policy contains unknown field " ++s name | None => "policy YAML is invalid" end
  | None => "policy YAML is invalid"
  end.

Section AccessConfig.
(** YAML: the strict decoder of one document, and whether nothing follows it. *)
Context (yaml_Decode : string -> Policy + string) (yaml_ends : string -> bool).
Context (json : Policy -> string) (sha256 : string -> string).
Context (marshal_client : clientConfig -> string + string) (marshal_server : serverConfig -> string + string).

Definition contents_of (rd : Readable) (path : string) : string + string := if path =?s "-" then rd_stdin rd else rd_file rd path.

Definition readPolicy (rd : Readable) (path : string) : Policy + string :=
  match contents_of rd path with
  | inr err => inr ("read policy: " ++s err)
  | inl contents =>
      match yaml_Decode contents with
      | inr err => inr (yamlDecodeError err)
      | inl policy => if yaml_ends contents then inl policy else inr "policy must contain exactly one YAML document"
      end
  end.

Definition trimmed_secret (data : string + string) : string + string :=
  match data with
  | inr err => inr ("read secret: " ++s err)
  | inl data => let secret := strings_TrimSpace data in if secret =?s "" then inr "secret must not be empty" else inl secret
  end.

Definition readSecret (rd : Readable) (secretStdin : bool) (secretHandle : string) : string + string :=
  if secretStdin then trimmed_secret (rd_stdin rd)
  else
    let handle := strings_TrimSpace secretHandle in
    match ParseUint0 handle with
    | inr err => inr ("secret handle must be an integer: " ++s num_error handle err)
    | inl value => match rd_handle rd value with None => inr "secret handle is invalid" | Some data => trimmed_secret data end
    end.

Definition runValidatePolicy (flags : option Flags) (rd : Readable) : Output :=
  match flags with
  | Some f =>
      if (fl_in f =?s "") || negb (fl_NArg f =? 0) then usage "USAGE: access-config validate-policy -in <path|->"
      else match readPolicy rd (fl_in f) with
      | inr err => complains "VALIDATE_POLICY_ERROR" err
      | inl policy => match Validate policy with Some err => complains "VALIDATE_POLICY_ERROR" err | None => mkOutput 0 ["POLICY_VALID"] [] end
      end
  | None => usage "USAGE: access-config validate-policy -in <path|->"
  end.

Definition runHashPolicy (flags : option Flags) (rd : Readable) : Output :=
  match flags with
  | Some f =>
      if (fl_in f =?s "") || negb (fl_NArg f =? 0) then usage "USAGE: access-config hash-policy -in <path|->"
      else match readPolicy rd (fl_in f) with
      | inr err => complains "HASH_POLICY_ERROR" err
      | inl policy => match CanonicalSHA256 json sha256 policy with inl err => complains "HASH_POLICY_ERROR" err | inr hash => mkOutput 0 [hash] [] end
      end
  | None => usage "USAGE: access-config hash-policy -in <path|->"
  end.

(** *** Writing *)
#[local] Notation "'try' x ':=' m 'in' k" := (r ← m; match r with inl x => k | inr e => mret (inr e) end) (at level 10, x pattern, m at level 100, k at level 200).

Definition tagged (tag : string) (m : J (unit + string)) : J (unit + string) := r ← m; mret (match r with inl x => inl x | inr err => inr (tag ++s err) end).

(** The temporary file is closed after a write, also one that failed, and removed at the end. *)
Definition write_temp (temp contents : string) : J (unit + string) :=
  r ← jcall <[temp := contents]> (fun n files => <[temp := string_take n contents]> files);
  c ← jquiet;
  mret (match r with inr err => inr ("write temp file: " ++s err) | inl _ => match c with inr err => inr ("close temp file: " ++s err) | inl _ => inl tt end end).

Definition writeAtomically (temp path contents : string) : J (unit + string) :=
  try _ := tagged "create output directory: " jquiet in
  try _ := tagged "create temp file: " (jcall <[temp := ""]> unchanged) in
  r ← (try _ := write_temp temp contents in tagged "publish output file: " (rename_to temp path));
  _ ← jcall (delete temp) unchanged;
  mret r.

(** *** Rendering *)
Definition server_usage := "USAGE: access-config render-server -in <path|-> -node <id> -listen <ip> -upstream <host:port> -out <path> (-secret-stdin|-secret-handle <value>) [-method <name>]".
Definition client_usage := "USAGE: access-config render-client -in <path|-> -node <id> -out <path> (-secret-stdin|-secret-handle <value>) [-method <name>]".

Definition bad_source (f : Flags) : bool :=
  negb (validSecretSource (fl_secretStdin f) (fl_secretHandle f)) || (fl_in f =?s "-") && fl_secretStdin f.

(** The policy, a node of it and the secret. *)
Definition render_input (rd : Readable) (f : Flags) : Policy * Node * string + string :=
  match readPolicy rd (fl_in f) with
  | inr err => inr err
  | inl policy =>
      match Validate policy with
      | Some err => inr err
      | None =>
          match selectNode (Nodes policy) (fl_node f) with
          | inr err => inr err
          | inl node => match readSecret rd (fl_secretStdin f) (fl_secretHandle f) with inr err => inr err | inl secret => inl (policy, node, secret) end
          end
      end
  end.

Definition written (tag temp : string) (f : Flags) (config : string + string) : J Output :=
  match config with
  | inr err => mret (complains tag err)
  | inl config =>
      r ← writeAtomically temp (fl_out f) config;
      mret (match r with
            | inr err => complains tag err
            | inl _ => mkOutput 0 ["CONFIG_WRITTEN " ++s fl_out f; "APPLY_SERVICE_ONLY_ACL " ++s fl_out f] []
            end)
  end.

Definition server_config (rd : Readable) (f : Flags) : string + string :=
  match render_input rd f with
  | inr err => inr err
  | inl (_, node, secret) => RenderServer marshal_server (mkServerInput (fl_listen f) (NodePort node) (fl_method f) secret (fl_upstream f))
  end.

Definition client_config (rd : Readable) (f : Flags) : string + string :=
  match render_input rd f with
  | inr err => inr err
  | inl (policy, node, secret) => RenderClient marshal_client (mkClientInput "" node (CorporateCIDRs policy) (CorporateDNS policy) (InternalSuffixes policy) (fl_method f) secret)
  end.

Definition runRenderServer (temp : string) (flags : option Flags) (rd : Readable) : J Output :=
  match flags with
  | Some f =>
      if (fl_in f =?s "") || (fl_node f =?s "") || (fl_listen f =?s "") || (fl_upstream f =?s "") || (fl_out f =?s "") || negb (fl_NArg f =? 0) || bad_source f
      then mret (usage server_usage)
      else written "RENDER_SERVER_ERROR" temp f (server_config rd f)
  | None => mret (usage server_usage)
  end.

Definition runRenderClient (temp : string) (flags : option Flags) (rd : Readable) : J Output :=
  match flags with
  | Some f =>
      if (fl_in f =?s "") || (fl_node f =?s "") || (fl_out f =?s "") || negb (fl_NArg f =? 0) || bad_source f
      then mret (usage client_usage)
      else written "RENDER_CLIENT_ERROR" temp f (client_config rd f)
  | None => mret (usage client_usage)
  end.

(** [flag_Parse] gives the flags of a command, nothing when it fails. *)
Definition access_config (flag_Parse : string -> list string -> option Flags) (temp : string) (args : list string) (rd : Readable) : J Output :=
  match args with
  | [] => mret (usage usageLine)
  | command :: args =>
      let flags := flag_Parse command args in
      if command =?s "validate-policy" then mret (runValidatePolicy flags rd)
      else if command =?s "hash-policy" then mret (runHashPolicy flags rd)
      else if command =?s "render-server" then runRenderServer temp flags rd
      else if command =?s "render-client" then runRenderClient temp flags rd
      else mret (usage usageLine)
  end.
End AccessConfig.

(** ** installer-verifier *)
Definition hex_upper_lower (a : ascii) : bool := let b := byte_val a in is_digit b || (97 <=? b) && (b <=? 102) || (65 <=? b) && (b <=? 70).
Definition hex_lower (a : ascii) : bool := let b := byte_val a in is_digit b || (97 <=? b) && (b <=? 102).
Definition sha1Thumbprint (s : string) : bool := (len s =? 40) && string_all hex_upper_lower s.
Definition sha256Digest (s : string) : bool := (len s =? 64) && string_all hex_lower s.
Definition sourceCommit (s : string) : bool := (len s =? 40) && string_all hex_lower s.

Record payloadInput := mkPayloadInput { pi_ProgramFiles : string; pi_ProgramData : string; pi_Manifest : string; pi_Signature : string; pi_Thumbprint : string }.
Record bundleInput := mkBundleInput {
  bi_Bundle : string; bi_MSI : string; bi_FixtureManifest : string; bi_FixtureSignature : string; bi_ReleaseManifest : string; bi_ReleaseSignature : string;
  bi_ExpectedCommit : string; bi_ExpectedMSISHA256 : string; bi_ExpectedFixtureSHA256 : string; bi_ExpectedReleaseSHA256 : string;
  bi_FixtureSigner : string; bi_ReleaseSigner : string; bi_MSISigner : string; bi_Evidence : string
}.

(** What the verifier of the platform is asked. *)
Inductive Operation :=
  | EnsureSharedRoot | SnapshotUpgrade (mode : string) | PrepareUpgrade | VerifyBundle (input : bundleInput) | VerifyPackage (msi thumbprint : string)
  | VerifyPayload (input : payloadInput) | InstallFirewall | RollbackFirewall | UninstallFirewall | CleanupRuntime.

Definition nth_arg (args : list string) (i : nat) : string := nth i args "".

Definition bundle_flags : list string :=
  ["--bundle"; "--msi"; "--fixture-manifest"; "--fixture-signature"; "--release-manifest"; "--release-signature"; "--expected-commit"; "--expected-msi-sha256";
   "--expected-fixture-sha256"; "--expected-release-sha256"; "--fixture-signer"; "--release-signer"; "--msi-signer"; "--evidence"].

(** Each flag in its place, with a value. *)
Fixpoint flagged (flags rest : list string) : bool :=
  match flags, rest with
  | [], _ => true
  | flag :: flags, f :: value :: rest => (f =?s flag) && negb (value =?s "") && flagged flags rest
  | _, _ => false
  end.

Definition validBundleArguments (args : list string) : bool :=
  (length args =? 29)%nat && (nth_arg args 0 =?s "verify-bundle") && flagged bundle_flags (tail args) &&
  sourceCommit (nth_arg args 14) && sha256Digest (nth_arg args 16) && sha256Digest (nth_arg args 18) && sha256Digest (nth_arg args 20) &&
  sha1Thumbprint (nth_arg args 22) && sha1Thumbprint (nth_arg args 24) && sha1Thumbprint (nth_arg args 26).

Definition payload_flags : list (nat * string) := [(1, "--program-files"); (3, "--program-data"); (5, "--manifest"); (7, "--signature"); (9, "--thumbprint")]%nat.

Fixpoint wrong_flag (args : list string) (flags : list (nat * string)) : option nat :=
  match flags with
  | [] => None
  | (i, flag) :: flags => if nth_arg args i =?s flag then wrong_flag args flags else Some i
  end.

Definition upgrade_mode (command : string) : option string :=
  if command =?s "upgrade-backup" then Some "Backup" else if command =?s "upgrade-restore" then Some "Restore"
  else if command =?s "upgrade-rollback" then Some "Rollback" else if command =?s "upgrade-commit" then Some "Commit"
  else if command =?s "upgrade-maintenance" then Some "Maintenance" else None.

Definition single_command (command : string) : option (Operation * string) :=
  if command =?s "shared-root-install" then Some (EnsureSharedRoot, "pinned shared trust could not be installed or verified")
  else match upgrade_mode command with
  | Some mode => Some (SnapshotUpgrade mode, "upgrade snapshot operation failed; protected recovery evidence retained")
  | None =>
      if command =?s "prepare-upgrade" then Some (PrepareUpgrade, "upgrade restoration could not be proven")
      else if command =?s "firewall-install" then Some (InstallFirewall, "installer firewall operation failed")
      else if command =?s "firewall-rollback" then Some (RollbackFirewall, "installer firewall operation failed")
      else if command =?s "firewall-uninstall" then Some (UninstallFirewall, "installer firewall operation failed")
      else if command =?s "runtime-cleanup" then Some (CleanupRuntime, "runtime cleanup failed")
      else None
  end.

(** The operation of a command line, and what is said when it fails. *)
Definition operation_of (args : list string) : option (Operation * string) :=
  match args with
  | [command] => single_command command
  | _ =>
      let a := nth_arg args in
      if validBundleArguments args then
        Some (VerifyBundle (mkBundleInput (a 2%nat) (a 4%nat) (a 6%nat) (a 8%nat) (a 10%nat) (a 12%nat) (a 14%nat) (a 16%nat) (a 18%nat) (a 20%nat) (a 22%nat) (a 24%nat) (a 26%nat) (a 28%nat)),
              "pre-install bundle verification failed")
      else if (length args =? 5)%nat && (a 0%nat =?s "package") && (a 1%nat =?s "--msi") && (a 3%nat =?s "--thumbprint") && sha1Thumbprint (a 4%nat)
      then Some (VerifyPackage (a 2%nat) (a 4%nat), "installer trust verification failed")
      else if (length args =? 11)%nat && (a 0%nat =?s "payload") && (a 1%nat =?s "--program-files") && (a 3%nat =?s "--program-data") && (a 5%nat =?s "--manifest") &&
              (a 7%nat =?s "--signature") && (a 9%nat =?s "--thumbprint") && sha1Thumbprint (a 10%nat)
      then Some (VerifyPayload (mkPayloadInput (a 2%nat) (a 4%nat) (a 6%nat) (a 8%nat) (a 10%nat)), "installed payload verification failed")
      else None
  end.

Definition invalidInvocationExitCode (args : list string) : Z :=
  if negb (length args =? 0)%nat && (nth_arg args 0 =?s "payload") then
    if negb (length args =? 11)%nat then if (19 <? length args)%nat then 39 else 20 + Z.of_nat (length args)
    else match wrong_flag args payload_flags with
    | Some i => 40 + Z.of_nat i
    | None => if negb (sha1Thumbprint (nth_arg args 10)) then 70 else 2
    end
  else 2.

(** Nothing is asked of the verifier unless the command line is understood. *)
Definition verifier_run (verifier : Operation -> option string) (args : list string) : Z * list string :=
  match operation_of args with
  | Some (op, message) => match verifier op with Some _ => (1, [message]) | None => (0, []) end
  | None => (invalidInvocationExitCode args, ["installer trust verification failed"])
  end.

(** ** What a rendering leaves *)
Section Written.
Context (path temp data : string) (files : gmap string string) (distinct : temp <> path).
#[local] Hint Resolve before_whole before_temp before_delete : core.

Lemma write_temp_ok d : before path temp files (jd_files d) ->
  jwp (whole path temp data files) (write_temp temp data) (fun r files' => before path temp files files' /\ (r = inl tt -> files' !! temp = Some data)) d.
Proof.
  intros Hb. unfold write_temp. eapply (jwp_bind _ _ _ (fun r files' => before path temp files files' /\ (r = inl tt -> files' !! temp = Some data))).
  { apply jwp_call; [auto|intros n; auto| |intros e n; by split; [auto|]]. split; [auto|]. intros _. apply lookup_insert_eq. }
  intros r d1 [H1 Hd] _ _. eapply jwp_bind; [apply (jwp_quiet _ (jd_files d1)); auto|]. intros c d2 E2 _ _. cbv beta in E2. apply jwp_ret. rewrite E2. split; [done|].
  destruct r as [[]|]; [|done]. destruct c; [|done]. auto.
Qed.

Lemma jwp_tagged C tag (m : J (unit + string)) Q d : (forall e files', Q (inr e) files' -> Q (inr (tag ++s e)) files') -> jwp C m Q d -> jwp C (tagged tag m) Q d.
Proof. intros Hq Hm. unfold tagged. eapply jwp_bind; [exact Hm|]. intros [[]|e] d1 H1 _ _; apply jwp_ret; auto. Qed.

Lemma writeAtomically_ok d : jd_files d = files -> jwp (whole path temp data files) (writeAtomically temp path data) (settled path temp data files) d.
Proof.
  intros Hf. assert (Hb : before path temp files (jd_files d)) by (by rewrite Hf). unfold writeAtomically.
  eapply jwp_bind; [apply (jwp_tagged _ _ _ (fun _ files' => files' = jd_files d)); [done|]; apply (jwp_quiet _ (jd_files d)); auto|].
  intros [[]|e] d1 E1 _ _; [|apply jwp_ret; by rewrite E1]. rewrite <- E1 in Hb.
  eapply (jwp_bind _ _ _ (fun _ files' => before path temp files files')); [apply jwp_tagged; [done|]; apply jwp_call; auto|].
  intros [[]|e] d2 H2 _ _; [|by apply jwp_ret]. eapply (jwp_bind _ _ _ (settled path temp data files)).
  { eapply jwp_bind; [by apply write_temp_ok|]. intros [[]|e] d3 [H3 Hd] _ _; [|by apply jwp_ret]. specialize (Hd eq_refl).
    apply jwp_tagged; [done|]. by apply rename_ok. }
  intros r d3 H3 _ _. assert (Hs : settled path temp data files r (delete temp (jd_files d3))).
  { destruct H3 as [Hr Ho]. split; [destruct r; by rewrite lookup_delete_ne|]. intros f Hp Ht. rewrite lookup_delete_ne by done. auto. }
  eapply (jwp_bind _ _ _ (fun _ files' => settled path temp data files r files')); [|intros u d4 H4 _ _; by apply jwp_ret].
  apply jwp_call; [by eapply settled_whole|intros n; exact (settled_whole _ _ _ _ _ _ H3)|done|intros e n; exact H3].
Qed.
End Written.

Section Rendered.
Context (yaml_Decode : string -> Policy + string) (yaml_ends : string -> bool) (marshal_client : clientConfig -> string + string) (marshal_server : serverConfig -> string + string).

Lemma selectNode_spec nodes id node : selectNode nodes id = inl node -> node ∈ nodes /\ NodeID node = id.
Proof.
  induction nodes as [|n nodes IH]; simpl; [done|]. destruct (NodeID n =?s id) eqn:E; [|intros [? ?]%IH; split; [by right|done]].
  intros [= <-]. split; [by left|by apply String.eqb_eq].
Qed.

(** What a command rendered for the node of a valid policy, with a secret. *)
Definition rendered (rd : Readable) (f : Flags) (config : string) : Prop := exists policy node secret,
  readPolicy yaml_Decode yaml_ends rd (fl_in f) = inl policy /\ Validate policy = None /\ node ∈ Nodes policy /\ NodeID node = fl_node f /\
  readSecret rd (fl_secretStdin f) (fl_secretHandle f) = inl secret /\
  (RenderServer marshal_server (mkServerInput (fl_listen f) (NodePort node) (fl_method f) secret (fl_upstream f)) = inl config \/
   RenderClient marshal_client (mkClientInput "" node (CorporateCIDRs policy) (CorporateDNS policy) (InternalSuffixes policy) (fl_method f) secret) = inl config).

Lemma render_input_spec rd f policy node secret : render_input yaml_Decode yaml_ends rd f = inl (policy, node, secret) ->
  readPolicy yaml_Decode yaml_ends rd (fl_in f) = inl policy /\ Validate policy = None /\ node ∈ Nodes policy /\ NodeID node = fl_node f /\
  readSecret rd (fl_secretStdin f) (fl_secretHandle f) = inl secret.
Proof.
  unfold render_input. destruct (readPolicy _ _ _ _) as [p|]; [|done]. destruct (Validate p) eqn:Ev; [done|].
  destruct (selectNode _ _) as [n|] eqn:En; [|done]. destruct (readSecret _ _ _) as [s|] eqn:Es; [|done]. intros [= <- <- <-].
  by apply selectNode_spec in En as [? ?].
Qed.

(** The output file of a command: after success it is the configuration that was rendered
    for the node of a valid policy; otherwise it is as it was; and wherever the command is
    interrupted it is one or the other. *)
Definition output_ok (temp : string) (rd : Readable) (f : Flags) (d : JournalDir) (r : Output * JournalDir) : Prop :=
  exists l, jd_trail r.2 = l ++ jd_trail d /\
  ((exit_code r.1 <> 0 /\ jd_files r.2 !! fl_out f = jd_files d !! fl_out f /\ Forall (fun files => files !! fl_out f = jd_files d !! fl_out f \/
       exists config, rendered rd f config /\ files !! fl_out f = Some config) l) \/
   (exit_code r.1 = 0 /\ exists config, rendered rd f config /\ jd_files r.2 !! fl_out f = Some config /\ Forall (whole (fl_out f) temp config (jd_files d)) l)).

Lemma written_ok tag temp rd f config d : temp <> fl_out f -> (forall c, config = inl c -> rendered rd f c) -> output_ok temp rd f d (written tag temp f config d).
Proof.
  intros Hn Hr. unfold written. destruct config as [c|err]; [|by exists []; split; [|left; repeat split]]. specialize (Hr c eq_refl).
  destruct (writeAtomically_ok (fl_out f) temp c (jd_files d) Hn d eq_refl) as ([Hs _] & _ & _ & l & Hl & Hc).
  unfold output_ok, mbind, StateM_bind. destruct (writeAtomically temp (fl_out f) c d) as [[[]|e] d1]; cbn [fst snd] in *; exists l; (split; [done|]).
  - right. split; [done|]. exists c. by split.
  - left. split; [done|]. split; [done|]. eapply Forall_impl; [exact Hc|]. intros files [[H1|H1] _]; [by left|right; by exists c].
Qed.

Lemma usage_ok temp rd f d line : output_ok temp rd f d ((mret (usage line) : J Output) d).
Proof. exists []. split; [done|]. left. by repeat split. Qed.

Theorem rendering_is_all_or_nothing temp rd f d : temp <> fl_out f ->
  output_ok temp rd f d (runRenderServer yaml_Decode yaml_ends marshal_server temp (Some f) rd d) /\
  output_ok temp rd f d (runRenderClient yaml_Decode yaml_ends marshal_client temp (Some f) rd d).
Proof.
  intros Hn. split; unfold runRenderServer, runRenderClient; (destruct (_ || bad_source f); [apply usage_ok|]); apply written_ok; try done; intros c;
    unfold server_config, client_config; (destruct (render_input _ _ rd f) as [[[policy node] secret]|] eqn:E; [|done]);
    apply render_input_spec in E as (? & ? & ? & ? & ?); intros ?; exists policy, node, secret; auto 8.
Qed.

(** Not both the policy and the secret are read from the standard input. *)
Lemma standard_input_is_read_once f : bad_source f = false -> ~ (fl_in f = "-" /\ fl_secretStdin f = true).
Proof. unfold bad_source. intros Hb [E1 E2]. by rewrite E1, E2, orb_true_r in Hb. Qed.
End Rendered.

(** ** What the verifier is given *)
Definition pinned (op : Operation) : Prop :=
  match op with
  | VerifyBundle b =>
      Forall (fun s => sha256Digest s = true) [bi_ExpectedMSISHA256 b; bi_ExpectedFixtureSHA256 b; bi_ExpectedReleaseSHA256 b] /\ sourceCommit (bi_ExpectedCommit b) = true /\
      Forall (fun s => sha1Thumbprint s = true) [bi_FixtureSigner b; bi_ReleaseSigner b; bi_MSISigner b] /\
      Forall (fun s => s <> "") [bi_Bundle b; bi_MSI b; bi_FixtureManifest b; bi_FixtureSignature b; bi_ReleaseManifest b; bi_ReleaseSignature b; bi_Evidence b]
  | VerifyPackage _ thumbprint => sha1Thumbprint thumbprint = true
  | VerifyPayload p => sha1Thumbprint (pi_Thumbprint p) = true
  | _ => True
  end.

Lemma flagged_values flags rest i : flagged flags rest = true -> (i < length flags)%nat -> nth (2 * i) rest "" = nth i flags "" /\ nth (2 * i + 1) rest "" <> "".
Proof.
  revert rest i. induction flags as [|flag flags IH]; intros rest i Hf Hi; [simpl in Hi; lia|]. simpl in Hf. destruct rest as [|f [|value rest]]; [done..|].
  apply andb_true_iff in Hf as [[E1%String.eqb_eq E2%negb_true_iff%String.eqb_neq]%andb_true_iff Hf].
  destruct i as [|i]; [done|]. replace (2 * S i)%nat with (S (S (2 * i))) by lia. simpl in Hi. apply IH; [done|lia].
Qed.

(** The verifier is only asked to verify against digests, commits and signers of the right
    form, and each value is the one behind its flag. *)
Theorem only_pinned_operations_are_run args op message : operation_of args = Some (op, message) -> pinned op.
Proof.
  unfold operation_of. destruct args as [|command [|b args]]; [done| |].
  { unfold single_command, upgrade_mode. repeat case_match; try done; by intros [= <- _]. }
  set (l := command :: b :: args). destruct (validBundleArguments l) eqn:Ev.
  - intros [= <- _]. unfold validBundleArguments in Ev. repeat (apply andb_true_iff in Ev as [Ev ?]).
    assert (Hv : forall i, (i < 14)%nat -> nth_arg l (2 * i + 2) <> "").
    { intros i Hi. destruct (flagged_values bundle_flags (tail l) i) as [_ Hn]; [done|exact Hi|].
      unfold nth_arg, l. cbn [tail] in Hn. by replace (2 * i + 2)%nat with (S (2 * i + 1)) by lia. }
    cbn [pinned bi_ExpectedMSISHA256 bi_ExpectedFixtureSHA256 bi_ExpectedReleaseSHA256 bi_ExpectedCommit bi_FixtureSigner bi_ReleaseSigner bi_MSISigner].
    split_and!; [by repeat constructor|done|by repeat constructor|].
    repeat constructor; cbn [bi_Bundle bi_MSI bi_FixtureManifest bi_FixtureSignature bi_ReleaseManifest bi_ReleaseSignature bi_Evidence];
      [apply (Hv 0%nat)|apply (Hv 1%nat)|apply (Hv 2%nat)|apply (Hv 3%nat)|apply (Hv 4%nat)|apply (Hv 5%nat)|apply (Hv 13%nat)]; lia.
  - destruct (_ && sha1Thumbprint (nth_arg l 4)) eqn:Ep; [intros [= <- _]; by apply andb_true_iff in Ep as [_ Ep]|].
    destruct (_ && sha1Thumbprint (nth_arg l 10)) eqn:Eq; [intros [= <- _]; by apply andb_true_iff in Eq as [_ Eq]|done].
Qed.

(** A command line that is not understood is refused with a code of its own, never 0 or 1:
    the codes of the verifier stay apart. *)
Theorem refused_invocations_are_told_apart verifier args : operation_of args = None ->
  (verifier_run verifier args).1 <> 0 /\ (verifier_run verifier args).1 <> 1.
Proof.
  intros E. unfold verifier_run. rewrite E. simpl. unfold invalidInvocationExitCode. repeat case_match; bool_to_prop; lia.
Qed.

Example payload_codes :
  map invalidInvocationExitCode [[]; ["package"]; ["payload"]; ["payload"; "--program-files"; "a"]; ["payload"; "--program-files"; "a"; "--program-date"; "b"; "--manifest"; "c"; "--signature"; "d"; "--thumbprint"; "e"];
    ["payload"; "--program-files"; "a"; "--program-data"; "b"; "--manifest"; "c"; "--signature"; "d"; "--thumbprint"; "e"]] = [2; 2; 21; 23; 43; 70].
Proof. vm_compute. reflexivity. Qed.
